(* ===== verification/_CoqProject ===== *)
-Q . S2P
Prelude.v
NgxString.v
NgxNumber.v
NgxBase64.v
NgxEscape.v
NgxUtf8.v
NgxSort.v
NgxHash.v
NgxMemory.v
NgxHashTable.v
NgxHashSpec.v
ByteMachine.v
HttpRequestLine.v
HttpHeaderLine.v
HttpStatusLine.v
HttpUri.v
HttpComplexUri.v
HttpArgs.v
HttpCookies.v
HttpChunked.v
HttpBody.v
NgxTimes.v
HttpParseTime.v
NgxParse.v
NgxRadixTree.v
NgxRbtree.v
NgxRbtreeRep.v
NgxRbtreeInv.v
NgxRbtreeInsert.v
NgxRbtreeDelete.v
NgxRbtreeSpec.v
NgxEventTimer.v
NgxQueue.v
NgxQueueSpec.v
NgxStrTree.v
NgxCrc.v
NgxInet.v
HttpRoundRobin.v
HttpUpstreamPeers.v
HttpLimitReq.v
HttpLimitReqZone.v
HttpLimitReqSpec.v
HttpLimitReqRate.v
HttpLimitReqHandler.v
HttpLimitReqConf.v
NgxSlab.v
NgxSlabRep.v
NgxSlabInv.v
NgxSlabPages.v
NgxSlabBits.v
NgxSlabChunks.v
NgxSlabSpec.v
HttpLimitReqSlab.v
HttpLocation.v
HttpLocationTree.v
HttpLocationLevel.v
HttpLocationSpec.v
NgxResolver.v
NgxResolverQuery.v
HttpRange.v
HttpRangeParse.v
HttpRangeBody.v
Game2048.v
MailParse.v
MailAuth.v
MailPop3.v
MailPop3Login.v
