(* ===== verification/Prelude.v ===== *)
(** * goku_studio: a verification library

    The repository is a collection of C programs, of which nginx 1.7.2
    (src/nginx-1.7.2) carries almost all of the logic; the rest are a terminal
    game (src/2048.c), the examples of a textbook on system programming
    (src/apue), and small exercises.  This library models the parts of nginx that
    read untrusted bytes (the string routines of src/core/ngx_string.c, the whole
    of the HTTP parser src/http/ngx_http_parse.c, and the functions of
    ngx_http_request.c and ngx_http_request_body.c that turn its results into
    headers, a path and a body; the command parsers of the mail proxy and its POP3
    sessions), the data structures the server lives on (the red-black tree, the
    timers and the string tree built on it, the radix tree, the hash tables, the
    queues), the limiter of request rates, the selection of upstream peers, the
    packets of the resolver, the byte range filter, the choice of the location of a
    request, the slab allocator of shared memory, and the board of the game.

    ** How the code is modelled

    - A [u_char] is an integer of [0, 255] and a string the list of its bytes; a
      read outside a string, or the byte after it, is an outcome of its own
      ([None], [Fault]) where the code could do it.
    - A pointer into a buffer is an offset; NULL is [None].  A structure with
      pointers between its nodes (the red-black tree, the radix tree, the queues)
      is a heap, a finite map from addresses to records, and its operations are
      programs of a state monad that fault on an address the heap does not have.
      The hash tables, which are laid out by hand, are blocks of bytes with
      little-endian words ([NgxMemory]).
    - Integers are kept at their width with [uint] and [sint]; [ngx_int_t],
      [size_t] and [time_t] have the width [ptr_bits] of the class [Arch], of
      which [ilp32] is the target of the recorded build
      (src/nginx-1.7.2/objs/ngx_auto_config.h) and [lp64] the usual one;
      [off_t] has 64 bits, as that build has it.  Signed overflow, where the code
      allows it, is two's complement.
    - A struct is a record of the fields the code uses, an [enum] of states an
      inductive type with the names of the source.
    - What is not under src/ is an argument: the handlers of timer events (with
      the contract [HandlerOk]: they keep the timers in order and set none that is
      already due), PCRE (what compiles and runs a regular expression), the addresses the allocator returns and what is in
      the memory it gives, the size of a cache line (class [Cacheline]), the random
      numbers of the game; whether the mail proxy was built with OpenSSL is the
      class [MailBuild], and what a socket delivers or takes is an event of a
      session.  The page size is the class [Paging] and the places of the fields of
      a pool the class [SlabLayout].
    - The clients of the slab allocator are proved against the class [SlabPool],
      which states what they rely on; [NgxSlabSpec.ngx_slab] is the instance that
      ngx_slab.c gives.
    - The Win32 branches and debug logging are left out, allocation succeeds.

    ** Loops and fuel

    - A loop that consumes a string is structural recursion on it.  The
      incremental parsers are step functions run by [ByteMachine.go], with fuel
      for two steps per byte, since no byte is looked at more than twice;
      [go_total] shows that this is always enough.
    - Loops that consume an unbounded number of bytes per turn
      ([HttpBody.chunked_loop], [HttpArgs.arg_loop], [HttpCookies.multi_loop], the
      loops of [HttpRange]) have one unit of fuel per byte and one more, and the
      theorems about them show that they return.
    - The loops of the red-black tree have the size of the heap and two more: each
      turn goes one node up or down, and the theorems show that the operations
      return.  The loop of expired timers has one unit per timer.
    - [ngx_resolver_copy] has the bound of the source, 128 parts of a name.
    - The loops over queues have one unit per link of the heap, the search of a
      bucket of a hash table one per byte of its block, and one more.
    - The loops of the slab allocator over a list of pages have one unit per page of
      the pool and one more, those over the bits of a word one per bit and one more;
      the theorems about it show that allocating and freeing return.
    - The passes over the locations and the lookup have one unit per level of nesting;
      the list of the locations with a common prefix and the tree made of it have the
      length of the queue and one more.  The theorems show that this is enough.

    ** The files

    - [Prelude]: notation, character and return codes, machine integers, tactics,
      the lemmas on bytes, lists and bit fields the other files share, and the
      class [RoundTrip] of encoder and decoder pairs.
    - [NgxString], [NgxNumber], [NgxBase64], [NgxEscape], [NgxUtf8], [NgxSort]:
      ngx_string.c, in the order of the file: comparison, copying and search;
      numbers and [ngx_vslprintf]; base64; URI and HTML escaping; UTF-8; the sort.
    - [NgxHash]: the key functions of ngx_hash.c; [NgxMemory]: blocks of memory;
      [NgxHashTable]: [ngx_hash_init] and [ngx_hash_find] on them; [NgxHashSpec]:
      what they promise.
    - [ByteMachine]: the loop of the incremental parsers, and the class [Machine]
      of what a parser promises it.  Its lemmas are proved once for all parsers:
      a parser returns, can be stopped and resumed at any byte ([go_resume]), does
      not depend on later bytes ([go_stable]), keeps the invariants its steps keep
      ([go_invariant]).
    - [HttpRequestLine], [HttpHeaderLine], [HttpStatusLine]: the parsers of the
      three kinds of line, each with one definition per case of its switch.
      [HttpHeaderLine.header_element] is what
      [ngx_http_process_request_headers] keeps of a line.
    - [HttpUri]: [ngx_http_parse_uri], and whole request lines.
    - [HttpComplexUri]: [ngx_http_parse_complex_uri] and
      [ngx_http_process_request_uri].
    - [HttpArgs]: arguments, and URIs from an untrusted source.
    - [HttpCookies]: the lookup in cookie headers.
    - [HttpChunked], [HttpBody]: [ngx_http_parse_chunked] and the body filters
      built on it.
    - [NgxTimes], [HttpParseTime], [NgxParse]: the calendar of ngx_times.c, the
      dates of headers (ngx_http_parse_time.c), and the sizes, offsets and times of
      the configuration (ngx_parse.c).
    - [NgxRadixTree]: the IPv4 half of ngx_radix_tree.c, on a heap.
    - [NgxRbtree], [NgxRbtreeRep], [NgxRbtreeInv], [NgxRbtreeInsert],
      [NgxRbtreeDelete], [NgxRbtreeSpec]: ngx_rbtree.c on a heap; the relation of a
      heap to a tree; the colours; the two operations; their specification.
      [NgxEventTimer] (event/ngx_event_timer.c) and [NgxStrTree]
      ([ngx_str_rbtree_insert_value], [ngx_str_rbtree_lookup]) are its clients and
      use only what [NgxRbtreeSpec] promises.
    - [NgxQueue], [NgxQueueSpec]: ngx_queue.h and ngx_queue.c on a heap of links; the
      queues as lists.
    - [NgxCrc], [NgxInet]: ngx_crc32.c and the addresses of ngx_inet.c.
    - [HttpRoundRobin]: ngx_http_upstream_round_robin.c; [HttpUpstreamPeers]: any
      number of sessions that take and free peers of one upstream, as a step
      relation.
    - [HttpLimitReq]: ngx_http_limit_req_module.c; [HttpLimitReqZone]: the tree, the
      queue and the memory of a zone as one list of nodes, by the specifications of
      the tree and of the queue; [HttpLimitReqSpec]: lookup and expiry on that list,
      and interleaved workers; [HttpLimitReqRate]: how many requests pass;
      [HttpLimitReqHandler]: requests with several limits; [HttpLimitReqConf]: the
      directives, and new zones.
    - [NgxSlab]: ngx_slab.c, on a memory of words that faults outside the pool;
      [NgxSlabRep]: a calculus of its programs, and the lists of pages;
      [NgxSlabInv]: a pool as a sequence of runs of pages, and the invariant;
      [NgxSlabPages], [NgxSlabBits], [NgxSlabChunks]: taking and giving back pages,
      bitmaps, and chunks of the three types; [NgxSlabSpec]: what the allocator
      promises; [HttpLimitReqSlab]: the limiter on a zone of this allocator, from
      the initialisation on.
    - [NgxResolver], [NgxResolverQuery]: the names in DNS packets
      ([ngx_resolver_copy], the queries the resolver builds) of ngx_resolver.c.
    - [HttpRange], [HttpRangeParse], [HttpRangeBody]:
      ngx_http_range_filter_module.c, what its parser accepts, and the bodies it
      sends.
    - [HttpLocation]: the locations of ngx_http.c and ngx_http_core_module.c, from the
      directive to the lookup; [HttpLocationTree]: the search of one tree;
      [HttpLocationLevel]: sorting one level and making its tree; [HttpLocationSpec]:
      configurations of several levels, and the search of the plain lists, [route],
      that they are compared with.
    - [MailParse]: the command parsers of ngx_mail_parse.c for POP3, IMAP and SMTP;
      [MailAuth]: the mechanisms of AUTH (ngx_mail_handler.c); [MailPop3]: a POP3
      session up to the login, as a machine of its events; [MailPop3Login]: whole
      logins.
    - [Game2048]: the board of src/2048.c.

    The request goes through them in this order: the request line parser sets the
    offsets and flags of the request; the URI is cut up as it stands, or, when the
    flags say so, normalised, and its location is found; each header line becomes an element with the hash
    its handler is looked up by; the body filters then read the body, by its
    length or its chunks; an upstream is chosen, its name resolved; the response
    is cut to the ranges asked for.  Timers guard every one of these waits, and the
    limiter may delay or reject the request before them.

    ** What is proved

    - The incremental parsers give the same result however the input is cut
      ([request_line_resume], [header_line_resume], [status_line_resume],
      [chunked_filter_refines]), always return, and leave their pointers in order
      and in bounds ([request_line_pointers], [request_line_total],
      [header_line_total]).
    - What is parsed is what was written: whole request lines, header lines, status
      lines, cookies, arguments and chunked bodies are taken apart to the pieces
      they were put together from ([request_line_parts], [header_line_element],
      [status_line_value], [multi_header_lookup], [http_arg_first],
      [chunked_filter_decodes]).
    - The specification of the chunked filter is a decoder of one byte at a time,
      [HttpBody.decode]; the filter, which copies data in bulk and stops at buffer
      ends, refines it on every call, and does not ask for more bytes than the body
      has, as long as no chunk size reaches 2^62.
    - Paths are safe: a normalised URI has no "." or ".." component before its last
      and fits its memory, a URI that is not normalised needed no normalising, and
      an untrusted URI with ".." components is refused, but for the exceptions
      listed below.
    - The encoders and decoders of ngx_string.c are inverse to each other and stay
      within the sizes their callers allocate; the searches find the first match;
      [ngx_vslprintf] stays in its buffer for every format; the sort is stable.
    - Dates that are printed are parsed back, the calendar is the Gregorian one,
      sizes and times of the configuration have the value they are written with.
    - Insertion into and deletion from the red-black tree keep the tree, its order
      and its colours, and change its contents by exactly the node
      ([rbtree_insert_refines], [rbtree_delete_refines]); expired timers fire in
      order and each once, but for those an earlier handler deletes or moves; the string tree finds what was inserted; the radix tree
      returns the value of the longest prefix.
    - A hash table is built without a store outside its memory and then finds every
      key it was built from and nothing else ([hash_init_find]), unless no size
      allowed is large enough ([hash_init_overruns]).
    - Queues that share a heap behave as lists under any sequence of operations
      ([queue_refines]), and their sort is stable ([queue_sort_stable]).
    - The limiter lets through no more requests with a key of up to 255 bytes than the
      rate and the burst allow, while its zone has room ([limit_req_rate];
      [limit_req_driven_out] is a zone that has none), never frees a node a request still holds,
      however workers interleave ([limit_req_held_safe]), and charges a rejected
      request to no zone ([limit_req_handler_balanced]).
    - With pages of 4 KB, the slab allocator gives out blocks that are in the pool,
      aligned, disjoint from each other and from its own data ([slab_alloc_safe]),
      takes every block back ([slab_free_block_ok]), and joins free pages again:
      after any run of its clients, when all blocks are freed, all the pages can be
      allocated as one block ([slab_defragments]); the limiter runs on it ([limit_req_on_slab]).
    - The mail parsers are incremental ([mail_commands_resume]); a POP3 client gets
      nothing but answers before it has authenticated ([pop3_session_safe]), and the
      proxy authenticates with exactly the login and the password that were sent
      ([pop3_user_pass], [pop3_auth_plain], [pop3_auth_login]).
    - Round robin is fair and, however sessions interleave, keeps its weights in
      balance and never gives a session the same peer twice, unless there is only one.
    - The search trees of the locations of a server lead every URI to the location
      that a search of the plain configuration finds ([location_routing]), and
      duplicates are refused at every level ([location_duplicates]).
    - The parts of a range response are the bytes asked for, and the resolver copies
      a name exactly as its packet has it, compressed or not, and its queries are
      decoded to the name that was asked for.
    - The moves of the game slide and merge as a definition on lists says
      ([moves_correct]), and it ends exactly when no move is left
      ([game_ended_stuck]).

    Where the code does not do what it means to, the theorem says what it does
    and a second one gives an input: [atoi_overflow_accepted],
    [utf8_length_overread], [utf8_decode_bad_continuation],
    [escape_refresh_percent], [header_line_stale_key], [request_version_wraps],
    [complex_uri_keeps_last_dots], [complex_uri_drops_cut_escape],
    [unsafe_uri_up_with_args], [multi_header_misses_item], [chunked_size_wraps],
    [parse_time_day_zero], [parse_time_year_zero], [parse_size_wraps],
    [parse_time_wraps], [parse_time_reads_after], [cookie_time_2038],
    [radix_delete_root_faults], [inet_addr_lenient], [slide_overflow],
    [range_start_wraps], [range_size_wraps], [range_leaks],
    [resolver_copy_overflows], [resolver_copy_reads_after],
    [name_query_long_label], [hash_init_overruns], [hash_init_wraps],
    [imap_empty_literal], [imap_stale_argument], [cram_md5_stale],
    [limit_req_long_keys], [limit_req_rate_wraps], [location_long_name],
    [location_in_regex_lost], [location_error_lost], [location_named_nested],
    [find_location_codes], [slab_free_end].

    ** What is not modelled

    The event loop, the processes, files and sockets, which are system calls; the
    modules that drive connections; SPDY, which needs zlib.  Of the limiter, the
    timer callback that resumes a delayed request and the merging of configurations;
    of the mail proxy, the connections to the authentication server and to the
    upstream, and the sessions of IMAP and SMTP; of the hash tables, the wildcards.
    Memory pools, whose allocations succeed here; of the slab allocator, the mutex
    and other page sizes; of the locations, the captures of regular expressions and
    the named ones once they are in their array; ngx_array.c, ngx_list.c and the
    digests. *)

From stdpp Require Export base tactics numbers list strings.
From Stdlib Require Export ZArith Lia Ascii.

#[global] Open Scope Z_scope.

(** ** Notation *)

Declare Scope c_scope.
Delimit Scope c_scope with C.
#[global] Open Scope c_scope.

(** [lo <=? x <=? hi] is the C test [x >= lo && x <= hi]. *)
Notation "lo <=? x <=? hi" := ((lo <=? x) && (x <=? hi))
  (at level 70, x at next level, no associativity) : c_scope.

(** The character constants the sources compare with, by name. *)
Abbreviation cNUL := 0 (only parsing).
Abbreviation cHT := 9 (only parsing).
Abbreviation cLF := 10 (only parsing).
Abbreviation cCR := 13 (only parsing).
Abbreviation cSP := 32 (only parsing).
Abbreviation cQUOT := 34 (only parsing).
Abbreviation cHASH := 35 (only parsing).
Abbreviation cPERCENT := 37 (only parsing).
Abbreviation cAMP := 38 (only parsing).
Abbreviation cPLUS := 43 (only parsing).
Abbreviation cCOMMA := 44 (only parsing).
Abbreviation cMINUS := 45 (only parsing).
Abbreviation cDOT := 46 (only parsing).
Abbreviation cSLASH := 47 (only parsing).
Abbreviation c_0 := 48 (only parsing).
Abbreviation c_1 := 49 (only parsing).
Abbreviation c_9 := 57 (only parsing).
Abbreviation cCOLON := 58 (only parsing).
Abbreviation cSEMI := 59 (only parsing).
Abbreviation cLT := 60 (only parsing).
Abbreviation cEQ := 61 (only parsing).
Abbreviation cGT := 62 (only parsing).
Abbreviation cQM := 63 (only parsing).
Abbreviation cA := 65 (only parsing).
Abbreviation cH := 72 (only parsing).
Abbreviation cO := 79 (only parsing).
Abbreviation cP := 80 (only parsing).
Abbreviation cT := 84 (only parsing).
Abbreviation cZ := 90 (only parsing).
Abbreviation cLBRACKET := 91 (only parsing).
Abbreviation cRBRACKET := 93 (only parsing).
Abbreviation cUNDER := 95 (only parsing).
Abbreviation ca := 97 (only parsing).
Abbreviation cf := 102 (only parsing).
Abbreviation cz := 122 (only parsing).
Abbreviation cTILDE := 126 (only parsing).

(** The return codes of src/nginx-1.7.2/src/core/ngx_core.h. *)
Abbreviation NGX_OK := 0 (only parsing).
Abbreviation NGX_ERROR := (-1) (only parsing).
Abbreviation NGX_AGAIN := (-2) (only parsing).
Abbreviation NGX_BUSY := (-3) (only parsing).
Abbreviation NGX_DONE := (-4) (only parsing).
Abbreviation NGX_DECLINED := (-5) (only parsing).

(** ** Bytes and strings *)

(** A [u_char] is an integer of [0, 255]; a string is the list of its bytes. *)
Definition byte_ok (b : Z) : Prop := 0 <= b < 256.

Definition bytes_ok (l : list Z) : Prop := Forall byte_ok l.

#[export] Instance byte_ok_dec b : Decision (byte_ok b).
Proof. unfold byte_ok. apply _. Defined.

(** The bytes of a C string literal, without its terminator. *)
Fixpoint lit (s : string) : list Z :=
  match s with
  | EmptyString => []
  | String a s' => Z.of_N (N_of_ascii a) :: lit s'
  end.

(** [table[ch >> 5] & (1 << (ch & 0x1f))], the test of a byte against a set of
    256 bits kept in eight 32-bit words. *)
Definition bit_set (table : list Z) (ch : Z) : bool :=
  negb (Z.land (nth (Z.to_nat (Z.shiftr ch 5)) table 0) (Z.shiftl 1 (Z.land ch 31)) =? 0).

(** ** Machine integers *)

(** [uint w x] and [sint w x] are [x] converted to a [w]-bit unsigned and to a
    [w]-bit two's complement signed integer. *)
Definition uint (w x : Z) : Z := x mod 2 ^ w.
Definition sint (w x : Z) : Z := (x + 2 ^ (w - 1)) mod 2 ^ w - 2 ^ (w - 1).

(** The target: [ptr_bits] is the width of [ngx_int_t], [ngx_uint_t],
    [size_t], [ssize_t], [uintptr_t] and [time_t]. *)
Class Arch := {
  ptr_bits : Z;
  ptr_bits_cases : ptr_bits = 32 \/ ptr_bits = 64
}.

(** The target of the recorded build, src/nginx-1.7.2/objs/ngx_auto_config.h
    ([NGX_PTR_SIZE] is 4), and the 64-bit one. *)
Definition ilp32 : Arch := {| ptr_bits := 32; ptr_bits_cases := or_introl eq_refl |}.
Definition lp64 : Arch := {| ptr_bits := 64; ptr_bits_cases := or_intror eq_refl |}.

(** ** Tactics *)

(** [simpl] evaluates a comparison only when both sides are known. *)
#[global] Arguments Z.eqb !x !y /.
#[global] Arguments Z.leb !x !y /.
#[global] Arguments Z.ltb !x !y /.

(** Case analysis on the first integer or boolean test the goal branches on. *)
Ltac case_test :=
  match goal with
  | |- context [if ?b then _ else _] =>
      lazymatch b with
      | context [if _ then _ else _] => fail
      | _ => destruct b eqn:?
      end
  end.

Ltac case_test_in H :=
  match type of H with
  | context [if ?b then _ else _] =>
      lazymatch b with
      | context [if _ then _ else _] => fail
      | _ => destruct b eqn:?
      end
  end.

(** Unfold the byte predicates in every hypothesis, then [lia]. *)
Ltac byte_lia := unfold byte_ok in *; lia.

(** Replace every string literal of the goal by the list of its bytes. *)
Ltac eval_lit :=
  repeat match goal with
         | |- context [lit ?s] => let v := eval vm_compute in (lit s) in change (lit s) with v
         end.

Create HintDb ngx discriminated.

(** ** Integer lemmas *)

Lemma uint_small w x : 0 <= x < 2 ^ w -> uint w x = x.
Proof. intros. apply Z.mod_small. lia. Qed.

Lemma uint_range w x : 0 <= w -> 0 <= uint w x < 2 ^ w.
Proof. intros. apply Z.mod_pos_bound. lia. Qed.

Lemma sint_small w x : 0 < w -> - 2 ^ (w - 1) <= x < 2 ^ (w - 1) -> sint w x = x.
Proof.
  intros Hw Hx. unfold sint.
  replace (2 ^ w) with (2 * 2 ^ (w - 1)) by (rewrite <- Z.pow_succ_r by lia; f_equal; lia).
  rewrite Z.mod_small; lia.
Qed.

Lemma sint_range w x : 0 < w -> - 2 ^ (w - 1) <= sint w x < 2 ^ (w - 1).
Proof.
  intros Hw. unfold sint.
  assert (E : 2 ^ w = 2 * 2 ^ (w - 1)) by (rewrite <- Z.pow_succ_r by lia; f_equal; lia).
  pose proof (Z.mod_pos_bound (x + 2 ^ (w - 1)) (2 ^ w)). lia.
Qed.

Lemma ptr_bits_pos `{Arch} : 32 <= ptr_bits <= 64.
Proof. destruct ptr_bits_cases; lia. Qed.

Lemma ptr_pow_31 `{Arch} : 2 ^ 31 <= 2 ^ (ptr_bits - 1).
Proof. pose proof ptr_bits_pos. apply Z.pow_le_mono_r; lia. Qed.

Lemma ptr_pow_32 `{Arch} : 2 ^ 32 <= 2 ^ ptr_bits.
Proof. pose proof ptr_bits_pos. apply Z.pow_le_mono_r; lia. Qed.

(** A property of bytes that a computation over all 256 of them confirms. *)
Lemma byte_forall (P : Z -> bool) :
  forallb P (map Z.of_nat (seq 0 256)) = true -> forall b, byte_ok b -> P b = true.
Proof.
  intros H b Hb. rewrite forallb_forall in H. apply H.
  apply in_map_iff. exists (Z.to_nat b). unfold byte_ok in Hb. split; [lia|].
  apply in_seq. lia.
Qed.

(** ** List lemmas *)

Lemma bytes_ok_cons b l : bytes_ok (b :: l) <-> byte_ok b /\ bytes_ok l.
Proof. apply Forall_cons. Qed.

Lemma bytes_ok_app l k : bytes_ok (l ++ k) <-> bytes_ok l /\ bytes_ok k.
Proof. apply Forall_app. Qed.

Lemma bytes_ok_lookup l i b : bytes_ok l -> l !! i = Some b -> byte_ok b.
Proof. intros Hl Hi. exact (Forall_lookup_1 _ _ _ _ Hl Hi). Qed.

#[export] Hint Resolve bytes_ok_lookup : ngx.

(** ** Interfaces *)

(** A pair of routines of which the second reads what the first wrote, for
    every input that is [good]. *)
Class RoundTrip {A B : Type} (good : A -> Prop) (enc : A -> B) (dec : B -> option A) :=
  round_trip : forall a, good a -> dec (enc a) = Some a.

(** Such an encoder never maps two inputs to the same output. *)
Lemma round_trip_inj `{RoundTrip A B good enc dec} a b :
  good a -> good b -> enc a = enc b -> a = b.
Proof.
  intros Ha Hb E. pose proof (round_trip a Ha) as H1. pose proof (round_trip b Hb) as H2.
  rewrite E in H1. congruence.
Qed.

(** Bit fields as arithmetic. *)
Lemma land_shiftl_low x y k : 0 <= k -> 0 <= y < 2 ^ k -> Z.land (Z.shiftl x k) y = 0.
Proof.
  intros Hk Hy. destruct (decide (y = 0)) as [->|]; [apply Z.land_0_r|].
  apply Z.bits_inj'. intros i Hi. rewrite Z.land_spec, Z.bits_0.
  destruct (Z.ltb_spec i k).
  - by rewrite Z.shiftl_spec_low by lia.
  - rewrite (Z.bits_above_log2 y), andb_false_r; [done|lia|].
    apply Z.log2_lt_pow2; try lia.
    apply Z.lt_le_trans with (2 ^ k); [lia|]. apply Z.pow_le_mono_r; lia.
Qed.

Lemma lor_disjoint x y k : 0 <= k -> 0 <= y < 2 ^ k -> Z.lor (Z.shiftl x k) y = x * 2 ^ k + y.
Proof.
  intros Hk Hy. rewrite <- Z.lxor_lor, <- Z.add_nocarry_lxor by (by apply land_shiftl_low).
  by rewrite Z.shiftl_mul_pow2.
Qed.

Lemma land_low x k : 0 <= k -> Z.land x (2 ^ k - 1) = x mod 2 ^ k.
Proof. intros Hk. rewrite <- Z.land_ones by done. by rewrite Z.ones_equiv, <- Z.sub_1_r. Qed.
