(* ===== verification/NgxString.v ===== *)
(** * Strings: copying, comparison and search

    The byte-string routines of src/nginx-1.7.2/src/core/ngx_string.c.  A
    [u_char *] argument is the list of bytes from the pointer to the end of the
    object it points into; a read past that end is the value [None] (or
    [Fault] for the routines that return a pointer). *)

From S2P Require Import Prelude.

(** ** Copying *)

Definition ngx_tolower (c : Z) : Z := if cA <=? c <=? cZ then Z.lor c 32 else c.

(** The bytes written at [dst]. *)
Fixpoint ngx_strlow (src : list Z) (n : nat) {struct n} : option (list Z) :=
  match n with
  | O => Some []
  | S n' =>
      match src with
      | [] => None
      | c :: src' => (fun d => ngx_tolower c :: d) <$> ngx_strlow src' n'
      end
  end.

(** The loop of [ngx_cpystrn], entered with [n] bytes of room besides the
    terminator: the bytes written, the terminating NUL included. *)
Fixpoint cpystrn_loop (src : list Z) (n : nat) {struct n} : option (list Z) :=
  match n with
  | O => Some [0]
  | S n' =>
      match src with
      | [] => None
      | c :: src' =>
          if c =? 0 then Some [0] else (fun d => c :: d) <$> cpystrn_loop src' n'
      end
  end.

(** The bytes written at [dst] and the returned pointer as an offset of [dst]. *)
Definition ngx_cpystrn (src : list Z) (n : nat) : option (list Z * nat) :=
  match n with
  | O => Some ([], O)
  | S n' => (fun d => (d, pred (length d))) <$> cpystrn_loop src n'
  end.

(** ** Comparison *)

(** [c >= 'A' && c <= 'Z' ? c | 0x20 : c], written out in every comparison. *)
Abbreviation lc := ngx_tolower (only parsing).

Fixpoint ngx_strcasecmp (s1 s2 : list Z) : option Z :=
  match s1, s2 with
  | c1 :: s1', c2 :: s2' =>
      let c1 := lc c1 in
      let c2 := lc c2 in
      if c1 =? c2 then
        if c1 =? 0 then Some 0 else ngx_strcasecmp s1' s2'
      else Some (c1 - c2)
  | _, _ => None
  end.

Fixpoint ngx_strncasecmp (s1 s2 : list Z) (n : nat) {struct n} : option Z :=
  match n with
  | O => Some 0
  | S n' =>
      match s1, s2 with
      | c1 :: s1', c2 :: s2' =>
          let c1 := lc c1 in
          let c2 := lc c2 in
          if c1 =? c2 then
            if c1 =? 0 then Some 0 else ngx_strncasecmp s1' s2' n'
          else Some (c1 - c2)
      | _, _ => None
      end
  end.

(** The loop of [ngx_rstrncmp] entered with its decremented [n]. *)
Fixpoint rstrncmp_loop (s1 s2 : list Z) (n : nat) : option Z :=
  match s1 !! n, s2 !! n with
  | Some a, Some b =>
      if negb (a =? b) then Some (a - b)
      else match n with O => Some 0 | S n' => rstrncmp_loop s1 s2 n' end
  | _, _ => None
  end.

Definition ngx_rstrncmp (s1 s2 : list Z) (n : nat) : option Z :=
  match n with O => Some 0 | S n' => rstrncmp_loop s1 s2 n' end.

Definition upcase (c : Z) : Z := if ca <=? c <=? cz then c - (ca - cA) else c.

Fixpoint rstrncasecmp_loop (s1 s2 : list Z) (n : nat) : option Z :=
  match s1 !! n, s2 !! n with
  | Some a, Some b =>
      let c1 := upcase a in
      let c2 := upcase b in
      if negb (c1 =? c2) then Some (c1 - c2)
      else match n with O => Some 0 | S n' => rstrncasecmp_loop s1 s2 n' end
  | _, _ => None
  end.

Definition ngx_rstrncasecmp (s1 s2 : list Z) (n : nat) : option Z :=
  match n with O => Some 0 | S n' => rstrncasecmp_loop s1 s2 n' end.

(** The C library's [memcmp], as the difference of the first bytes that differ. *)
Fixpoint ngx_memcmp (s1 s2 : list Z) (n : nat) {struct n} : option Z :=
  match n with
  | O => Some 0
  | S n' =>
      match s1, s2 with
      | a :: s1', b :: s2' => if a =? b then ngx_memcmp s1' s2' n' else Some (a - b)
      | _, _ => None
      end
  end.

Definition ngx_memn2cmp (s1 s2 : list Z) (n1 n2 : nat) : option Z :=
  let '(n, z) := if (n1 <=? n2)%nat then (n1, -1) else (n2, 1) in
  m ← ngx_memcmp s1 s2 n;
  if negb (m =? 0) || (n1 =? n2)%nat then Some m else Some z.

Fixpoint ngx_dns_strcmp (s1 s2 : list Z) : option Z :=
  match s1, s2 with
  | c1 :: s1', c2 :: s2' =>
      let c1 := lc c1 in
      let c2 := lc c2 in
      if c1 =? c2 then
        if c1 =? 0 then Some 0 else ngx_dns_strcmp s1' s2'
      else
        let c1 := if c1 =? cDOT then cSP else c1 in
        let c2 := if c2 =? cDOT then cSP else c2 in
        Some (c1 - c2)
  | _, _ => None
  end.

(** Without [NGX_HAVE_CASELESS_FILESYSTEM]. *)
Fixpoint ngx_filename_cmp (s1 s2 : list Z) (n : nat) {struct n} : option Z :=
  match n with
  | O => Some 0
  | S n' =>
      match s1, s2 with
      | c1 :: s1', c2 :: s2' =>
          if c1 =? c2 then
            if c1 =? 0 then Some 0 else ngx_filename_cmp s1' s2' n'
          else if (c1 =? 0) || (c2 =? 0) then Some (c1 - c2)
          else
            let c1 := if c1 =? cSLASH then 0 else c1 in
            let c2 := if c2 =? cSLASH then 0 else c2 in
            Some (c1 - c2)
      | _, _ => None
      end
  end.

(** ** Search *)

(** A returned pointer: [At i] is [i] bytes past the first argument. *)
Inductive found := Fault | Null | At (i : nat).

Definition found_next (f : found) : found :=
  match f with At i => At (S i) | _ => f end.

(** The C library's [strncmp]. *)
Fixpoint ngx_strncmp (s1 s2 : list Z) (n : nat) {struct n} : option Z :=
  match n with
  | O => Some 0
  | S n' =>
      match s1, s2 with
      | a :: s1', b :: s2' =>
          if a =? b then if a =? 0 then Some 0 else ngx_strncmp s1' s2' n'
          else Some (a - b)
      | _, _ => None
      end
  end.

(** The two nested loops of a search, one step per byte of [s1]: [guard] is the
    length test before each read, [hit] the test on the byte read and [cmp] the
    comparison of what follows it. *)
Section Search.
Context (guard : nat -> bool) (stop hit : Z -> bool) (cmp : list Z -> nat -> option (option Z)).

Fixpoint search (s1 : list Z) (len : nat) : found :=
  if negb (guard len) then Null
  else
    match s1 with
    | [] => Fault
    | c :: s1' =>
        if stop c then Null
        else if hit c then
          match cmp s1' (pred len) with
          | None => Fault
          | Some None => Null
          | Some (Some r) => if r =? 0 then At 0 else found_next (search s1' (pred len))
          end
        else found_next (search s1' (pred len))
    end.
End Search.

(** [c2] is the first byte of the pattern and [s2] the rest, of length [n]. *)
Definition ngx_strnstr (s1 : list Z) (c2 : Z) (s2 : list Z) (len : nat) : found :=
  let n := length s2 in
  search (fun len => negb (len =? 0)%nat) (fun c => c =? 0) (fun c => c =? c2)
    (fun s1 len => if (len <? n)%nat then Some None else Some <$> ngx_strncmp s1 (s2 ++ [0]) n)
    s1 len.

Definition ngx_strstrn (s1 : list Z) (c2 : Z) (s2 : list Z) (n : nat) : found :=
  search (fun _ => true) (fun c => c =? 0) (fun c => c =? c2)
    (fun s1 _ => Some <$> ngx_strncmp s1 s2 n) s1 0.

Definition ngx_strcasestrn (s1 : list Z) (c2 : Z) (s2 : list Z) (n : nat) : found :=
  let c2 := lc c2 in
  search (fun _ => true) (fun c => c =? 0) (fun c => lc c =? c2)
    (fun s1 _ => Some <$> ngx_strncasecmp s1 s2 n) s1 0.

(** [len] is [last - s1]; the object may extend past [last]. *)
Definition ngx_strlcasestrn (s1 : list Z) (len : nat) (c2 : Z) (s2 : list Z) (n : nat) : found :=
  let c2 := lc c2 in
  search (fun len => (n <? len)%nat) (fun _ => false) (fun c => lc c =? c2)
    (fun s1 _ => Some <$> ngx_strncasecmp s1 s2 n) s1 len.

(** ** Lemmas *)

Lemma ngx_tolower_byte c : byte_ok c -> byte_ok (ngx_tolower c).
Proof.
  intros H. assert (E : bool_decide (byte_ok (ngx_tolower c)) = true).
  { revert c H. apply (byte_forall (fun c => bool_decide (byte_ok (ngx_tolower c)))).
    vm_compute. reflexivity. }
  by apply bool_decide_eq_true_1 in E.
Qed.

Lemma ngx_tolower_alpha c : cA <= c <= cZ -> ngx_tolower c = c + 32.
Proof.
  intros H. apply Z.eqb_eq.
  assert (E : forall b, byte_ok b -> negb (cA <=? b <=? cZ) || (ngx_tolower b =? b + 32) = true)
    by (apply byte_forall; vm_compute; reflexivity).
  specialize (E c). byte_lia.
Qed.

Lemma ngx_tolower_other c : ~ (cA <= c <= cZ) -> ngx_tolower c = c.
Proof. intros H. unfold ngx_tolower. case_test; lia. Qed.

(** Split on whether [c] is a capital letter. *)
Ltac tolower_cases c :=
  destruct (decide (cA <= c <= cZ));
  [rewrite (ngx_tolower_alpha c) by lia | rewrite (ngx_tolower_other c) by lia].

Lemma ngx_tolower_0 c : ngx_tolower c = 0 <-> c = 0.
Proof. tolower_cases c; lia. Qed.

Lemma ngx_tolower_idem c : ngx_tolower (ngx_tolower c) = ngx_tolower c.
Proof. tolower_cases c; apply ngx_tolower_other; lia. Qed.

(** Folding to lower and folding to upper case identify the same bytes. *)
Lemma upcase_tolower a b : upcase a = upcase b <-> ngx_tolower a = ngx_tolower b.
Proof.
  tolower_cases a; tolower_cases b; unfold upcase; repeat case_test; lia.
Qed.

Lemma ngx_strlow_map src n :
  (n <= length src)%nat -> ngx_strlow src n = Some (map ngx_tolower (take n src)).
Proof.
  revert n. induction src as [|c src IH]; intros [|n] H; simpl in *; try done; [lia|].
  rewrite IH by lia. done.
Qed.

(** Only letters change case. *)
Lemma ngx_tolower_inv c d : ngx_tolower c = d -> ~ (ca <= d <= cz) -> c = d.
Proof.
  unfold ngx_tolower. case_test; [|done]. intros E Hd. exfalso. apply Hd. rewrite <- E.
  assert (Hb : byte_ok c) by byte_lia.
  pose proof (byte_forall (fun c => implb (cA <=? c <=? cZ) (ca <=? Z.lor c 32 <=? cz))
    ltac:(by vm_compute) c Hb) as Q. cbv beta in Q.
  destruct (Z.leb_spec cA c), (Z.leb_spec c cZ); cbn in Q; lia.
Qed.

Lemma ngx_strncasecmp_0 s1 s2 n :
  (n <= length s1)%nat -> (n <= length s2)%nat -> 0 ∉ take n s2 ->
  exists r, ngx_strncasecmp s1 s2 n = Some r
    /\ (r = 0 <-> map ngx_tolower (take n s1) = map ngx_tolower (take n s2)).
Proof.
  revert s1 s2. induction n as [|n IH]; intros s1 s2 H1 H2 H0; simpl; [exists 0; split; done|].
  destruct s1 as [|a s1], s2 as [|b s2]; simpl in *; try lia.
  apply not_elem_of_cons in H0 as [Hb H0].
  destruct (Z.eqb_spec (ngx_tolower a) (ngx_tolower b)) as [E|E].
  - rewrite E. destruct (Z.eqb_spec (ngx_tolower b) 0) as [E0|_].
    { rewrite ngx_tolower_0 in E0. lia. }
    destruct (IH s1 s2) as (r & -> & Hr); [lia..|done|].
    exists r. split; [done|]. rewrite Hr. split; congruence.
  - eexists; split; [done|]. split; [lia|congruence].
Qed.

Lemma ngx_strncmp_0 s1 s2 n :
  (n <= length s1)%nat \/ 0 ∈ s1 -> (n <= length s2)%nat -> 0 ∉ take n s2 ->
  exists r, ngx_strncmp s1 s2 n = Some r /\ (r = 0 <-> take n s1 = take n s2).
Proof.
  revert s1 s2. induction n as [|n IH]; intros s1 s2 H1 H2 H0; simpl; [exists 0; split; done|].
  destruct s2 as [|b s2]; simpl in *; [lia|].
  destruct s1 as [|a s1]; simpl in *.
  { destruct H1 as [?|H1]; [lia|]. by apply not_elem_of_nil in H1. }
  apply not_elem_of_cons in H0 as [Hb H0].
  destruct (Z.eqb_spec a b) as [->|E].
  - destruct (Z.eqb_spec b 0) as [?|_]; [lia|].
    destruct (IH s1 s2) as (r & -> & Hr); [|lia|done|].
    { destruct H1 as [?|H1]; [left; lia|right]. apply elem_of_cons in H1 as [?|?]; [lia|done]. }
    exists r. split; [done|]. rewrite Hr. split; congruence.
  - eexists; split; [done|]. split; [lia|congruence].
Qed.

(** What a search promises of the set [occ] of places where the pattern is: the
    first of them, or [Null] when there is none. *)
Definition first_of (occ : nat -> Prop) (f : found) : Prop :=
  match f with
  | Fault => False
  | Null => forall i, ~ occ i
  | At i => occ i /\ forall j, (j < i)%nat -> ~ occ j
  end.

Lemma first_of_next (occ occ' : nat -> Prop) f :
  ~ occ O -> (forall i, occ (S i) <-> occ' i) ->
  first_of occ' f -> first_of occ (found_next f).
Proof.
  intros H0 HS Hf. destruct f as [| |i]; simpl in *; [done| |].
  - intros [|i]; [done|]. by rewrite HS.
  - destruct Hf as [Hi Hj]. split; [by apply HS|].
    intros [|j] Hlt; [done|]. rewrite HS. apply Hj. lia.
Qed.

Section SearchSpec.
Context (guard : nat -> bool) (stop hit : Z -> bool) (cmp : list Z -> nat -> option (option Z)).
Context (Inv : list Z -> nat -> Prop) (occ : list Z -> nat -> nat -> Prop).
Context (Hguard : forall s len, Inv s len -> guard len = false -> forall i, ~ occ s len i).
Context (Hread : forall len, Inv [] len -> guard len = false).
Context (Hstop : forall c s len, Inv (c :: s) len -> guard len = true -> stop c = true ->
  forall i, ~ occ (c :: s) len i).
Context (Hinv : forall c s len, Inv (c :: s) len -> guard len = true -> stop c = false ->
  Inv s (pred len)).
Context (Hshift : forall c s len i, Inv (c :: s) len -> guard len = true -> stop c = false ->
  occ (c :: s) len (S i) <-> occ s (pred len) i).
Context (Hmiss : forall c s len, hit c = false -> ~ occ (c :: s) len O).
Context (Hcmp : forall c s len, Inv (c :: s) len -> guard len = true -> stop c = false ->
  hit c = true ->
  (cmp s (pred len) = Some None /\ forall i, ~ occ (c :: s) len i)
  \/ exists r, cmp s (pred len) = Some (Some r) /\ (r = 0 <-> occ (c :: s) len O)).

Lemma search_first s len :
  Inv s len -> first_of (occ s len) (search guard stop hit cmp s len).
Proof.
  revert len. induction s as [|c s IH]; intros len HI; simpl.
  - rewrite (Hread _ HI). simpl. eauto using Hguard.
  - destruct (guard len) eqn:Hg; simpl; [|eauto using Hguard].
    destruct (stop c) eqn:Hs; simpl; [eauto using Hstop|].
    assert (Hn : ~ occ (c :: s) len O ->
      first_of (occ (c :: s) len) (found_next (search guard stop hit cmp s (pred len)))).
    { intros H0. eapply first_of_next; eauto. }
    destruct (hit c) eqn:Hh; [|eauto].
    destruct (Hcmp c s len) as [[-> Hc]|(r & -> & Hr)]; [done..| |]; [exact Hc|].
    destruct (Z.eqb_spec r 0) as [E|E]; [|apply Hn; tauto].
    split; [tauto|lia].
Qed.
End SearchSpec.

(** A NUL-free string as it lies in memory: its bytes, the terminator and
    whatever follows. *)
Definition cstring (s rest : list Z) : list Z := s ++ 0 :: rest.

(** ** Theorems *)

(** On NUL-terminated strings [ngx_strcasecmp] always returns; the result is
    zero exactly when the strings are equal up to the case of ASCII letters, and
    swapping the arguments negates it, so it orders strings. *)
Theorem strcasecmp_order a b ra rb :
  0 ∉ a -> 0 ∉ b ->
  exists d, ngx_strcasecmp (cstring a ra) (cstring b rb) = Some d
    /\ ngx_strcasecmp (cstring b rb) (cstring a ra) = Some (- d)
    /\ (d = 0 <-> map ngx_tolower a = map ngx_tolower b).
Proof.
  unfold cstring. revert b. induction a as [|x a IH]; intros b Ha Hb.
  - destruct b as [|y b]; [by exists 0|]. cbn [app ngx_strcasecmp map].
    apply not_elem_of_cons in Hb as [Hy Hb]. pose proof (ngx_tolower_0 y) as Hy0.
    change (lc 0) with 0. rewrite !(proj2 (Z.eqb_neq _ _)) by lia.
    eexists; split; [reflexivity|]. split; [f_equal; lia|split; [lia|done]].
  - apply not_elem_of_cons in Ha as [Hx Ha]. pose proof (ngx_tolower_0 x) as Hx0.
    destruct b as [|y b]; cbn [app ngx_strcasecmp map].
    + change (lc 0) with 0. rewrite !(proj2 (Z.eqb_neq _ _)) by lia.
      eexists; split; [reflexivity|]. split; [f_equal; lia|split; [lia|done]].
    + apply not_elem_of_cons in Hb as [Hy Hb]. pose proof (ngx_tolower_0 y) as Hy0.
      destruct (Z.eqb_spec (ngx_tolower x) (ngx_tolower y)) as [E|E].
      * rewrite <- E, Z.eqb_refl, (proj2 (Z.eqb_neq _ 0)) by lia.
        destruct (IH b Ha Hb) as (d & H1 & H2 & H3).
        exists d. split; [done|]. split; [done|]. rewrite H3. split; congruence.
      * rewrite (proj2 (Z.eqb_neq (ngx_tolower y) _)) by lia.
        eexists; split; [reflexivity|]. split; [f_equal; lia|split; [lia|congruence]].
Qed.

Lemma strcasecmp_order_witness :
  exists d, ngx_strcasecmp (cstring (lit "Host") []) (cstring (lit "hOSt") [1]) = Some d
    /\ ngx_strcasecmp (cstring (lit "hOSt") [1]) (cstring (lit "Host") []) = Some (- d)
    /\ (d = 0 <-> map ngx_tolower (lit "Host") = map ngx_tolower (lit "hOSt")).
Proof. apply strcasecmp_order; by apply (bool_decide_unpack _). Defined.

(** The places of [c2 :: s2] in the first [len] bytes of [s1], before its
    terminator. *)
Definition occurs (c2 : Z) (s2 s1 : list Z) (len i : nat) : Prop :=
  (i + length s2 < len)%nat /\ take (S (length s2)) (drop i s1) = c2 :: s2 /\ 0 ∉ take i s1.

(** The places of [c2 :: s2] up to case in the first [len] bytes of [s1]. *)
Definition occurs_case (c2 : Z) (s2 s1 : list Z) (len i : nat) : Prop :=
  (i + length s2 < len)%nat
  /\ map ngx_tolower (take (S (length s2)) (drop i s1)) = map ngx_tolower (c2 :: s2).

(** [ngx_strnstr] returns the first place of the pattern that lies wholly in
    the first [len] bytes and before the terminator, and NULL exactly when there
    is none; it reads nothing outside the object. *)
Theorem strnstr_first s1 c2 s2 len :
  c2 <> 0 -> 0 ∉ s2 -> (len <= length s1)%nat \/ 0 ∈ s1 ->
  first_of (occurs c2 s2 s1 len) (ngx_strnstr s1 c2 s2 len).
Proof.
  intros Hc H2 H1. unfold ngx_strnstr.
  apply (search_first _ _ _ _ (fun s l => (l <= length s)%nat \/ 0 ∈ s) (occurs c2 s2));
    [..|done]; clear s1 len H1; unfold occurs.
  - intros s len _ Hg i. destruct len; [lia|done].
  - intros len [H|H]; [destruct len; simpl in *; [done|lia]|by apply not_elem_of_nil in H].
  - intros c s len _ _ Hs [|i] (_ & Ht & H0); simpl in *.
    + injection Ht; lia.
    + apply H0. assert (c = 0) as -> by lia. left.
  - intros c s len [H|H] _ Hs; simpl in *; [left; lia|right].
    apply elem_of_cons in H as [?|?]; [lia|done].
  - intros c s len i HI Hg Hs. simpl. rewrite not_elem_of_cons.
    destruct len; [done|]. simpl. split; intros (?&?&?); repeat split; try done; try lia.
    tauto.
  - intros c s len Hh (_ & Ht & _). simpl in Ht. injection Ht as -> _. lia.
  - intros c s len HI Hg Hs Hh. destruct len as [|len]; [done|]. simpl.
    destruct (Nat.ltb_spec len (length s2)) as [Hn|Hn]; [left; split; [done|intros i; lia]|right].
    destruct (ngx_strncmp_0 s (s2 ++ [0]) (length s2)) as (r & -> & Hr).
    + destruct HI as [HI|HI]; simpl in HI; [left; lia|right].
      apply elem_of_cons in HI as [?|?]; [lia|done].
    + rewrite length_app. lia.
    + by rewrite take_app_length.
    + exists r. split; [done|]. rewrite Hr, take_app_length. split; [|intros (_&Ht&_); congruence].
      intros E. repeat split; [lia| |apply not_elem_of_nil].
      rewrite E. f_equal; lia.
Qed.

Lemma strnstr_first_witness :
  first_of (occurs 98 (lit "c") (lit "abdbcbc") 7) (ngx_strnstr (lit "abdbcbc") 98 (lit "c") 7).
Proof.
  apply strnstr_first; [lia|by apply (bool_decide_unpack _)|left; simpl; lia].
Defined.

(** [ngx_strlcasestrn] returns the first place where the pattern of [n + 1]
    bytes occurs up to case and ends before [last], and NULL exactly when there
    is none. *)
Theorem strlcasestrn_first s1 len c2 s2 :
  c2 <> 0 -> 0 ∉ s2 -> (len <= length s1)%nat ->
  first_of (occurs_case c2 s2 s1 len) (ngx_strlcasestrn s1 len c2 s2 (length s2)).
Proof.
  intros Hc H2 H1. unfold ngx_strlcasestrn.
  apply (search_first _ _ _ _ (fun s l => (l <= length s)%nat) (occurs_case c2 s2));
    [..|done]; clear s1 len H1; unfold occurs_case.
  - intros s len _ Hg i. apply Nat.ltb_ge in Hg. lia.
  - intros len H. cbn in H |- *. apply Nat.ltb_ge. lia.
  - done.
  - intros c s len H _ _. simpl in *. lia.
  - intros c s len i H _ _. destruct len; simpl; split; intros [??]; split; try done; lia.
  - intros c s len Hh (_ & Ht). simpl in Ht. injection Ht. lia.
  - intros c s len H Hg _ Hh. right. apply Nat.ltb_lt in Hg. apply Z.eqb_eq in Hh. simpl in *.
    destruct (ngx_strncasecmp_0 s s2 (length s2)) as (r & -> & Hr); [lia|done|by rewrite firstn_all|].
    exists r. split; [done|]. rewrite Hr, firstn_all. split; [|intros [_ Ht]; congruence].
    intros E. split; [lia|]. rewrite E. f_equal; lia.
Qed.

Lemma strlcasestrn_first_witness :
  first_of (occurs_case 65 (lit "rg") (lit "x=1&aRG=2") 9)
    (ngx_strlcasestrn (lit "x=1&aRG=2") 9 65 (lit "rg") 2).
Proof.
  apply (strlcasestrn_first _ _ _ (lit "rg"));
    [lia|by apply (bool_decide_unpack _)|simpl; lia].
Defined.

(** [ngx_cpystrn] copies a NUL-terminated string into a buffer of [n + 1]
    bytes: at most [n] bytes of the string, always terminated, and the returned
    pointer is at the terminator. *)
Theorem cpystrn_copy s rest n :
  0 ∉ s ->
  ngx_cpystrn (cstring s rest) (S n) = Some (take n s ++ [0], Nat.min n (length s)).
Proof.
  intros Hs. unfold ngx_cpystrn, cstring.
  assert (E : cpystrn_loop (s ++ 0 :: rest) n = Some (take n s ++ [0])).
  { revert s Hs. induction n as [|n IH]; intros s Hs; [done|].
    destruct s as [|c s]; [done|]. apply not_elem_of_cons in Hs as [Hc Hs]. simpl.
    rewrite (proj2 (Z.eqb_neq c 0)), IH by (done || lia). done. }
  rewrite E. simpl. rewrite length_app, length_take. simpl. do 2 f_equal. lia.
Qed.

Lemma cpystrn_copy_witness :
  ngx_cpystrn (cstring (lit "nginx") [7]) 4 = Some (take 3 (lit "nginx") ++ [0], 3%nat).
Proof. apply (cpystrn_copy (lit "nginx") [7] 3). by apply (bool_decide_unpack _). Defined.

Lemma ngx_memcmp_0 s1 s2 n :
  (n <= length s1)%nat -> (n <= length s2)%nat ->
  exists r, ngx_memcmp s1 s2 n = Some r /\ ngx_memcmp s2 s1 n = Some (- r)
    /\ (r = 0 <-> take n s1 = take n s2).
Proof.
  revert s1 s2. induction n as [|n IH]; intros s1 s2 H1 H2; simpl; [by exists 0|].
  destruct s1 as [|a s1], s2 as [|b s2]; simpl in *; try lia.
  destruct (Z.eqb_spec a b) as [->|E].
  - rewrite Z.eqb_refl. destruct (IH s1 s2) as (r & H3 & H4 & Hr); [lia..|].
    exists r. rewrite Hr. repeat split; congruence.
  - rewrite (proj2 (Z.eqb_neq b a)) by lia.
    eexists; split; [reflexivity|]. split; [f_equal; lia|split; [lia|congruence]].
Qed.

(** [ngx_memn2cmp] orders length-delimited strings: zero exactly for equal
    strings, and of opposite sign when the arguments are swapped. *)
Theorem memn2cmp_order a b :
  exists d e, ngx_memn2cmp a b (length a) (length b) = Some d
    /\ ngx_memn2cmp b a (length b) (length a) = Some e
    /\ Z.sgn e = - Z.sgn d /\ (d = 0 <-> a = b).
Proof.
  assert (W : forall a b, (length a < length b)%nat -> exists d,
    ngx_memn2cmp a b (length a) (length b) = Some d
    /\ ngx_memn2cmp b a (length b) (length a) = Some (- d) /\ d <> 0).
  { clear a b. intros a b Hl. unfold ngx_memn2cmp.
    rewrite (proj2 (Nat.leb_le _ _)), (proj2 (Nat.leb_gt (length b) _)) by lia.
    rewrite (proj2 (Nat.eqb_neq _ _)), (proj2 (Nat.eqb_neq (length b) _)) by lia.
    destruct (ngx_memcmp_0 a b (length a)) as (r & E1 & E2 & _); [lia..|].
    rewrite E1, E2. simpl. rewrite !orb_false_r.
    destruct (Z.eqb_spec r 0) as [->|]; simpl; [by exists (-1)|].
    rewrite (proj2 (Z.eqb_neq (- r) 0)) by lia. by exists r. }
  destruct (Nat.lt_trichotomy (length a) (length b)) as [H|[H|H]].
  - destruct (W a b H) as (d & ? & ? & ?). exists d, (- d).
    split; [done|]. split; [done|]. split; [lia|]. split; [lia|intros ->; lia].
  - unfold ngx_memn2cmp. rewrite H, Nat.leb_refl, Nat.eqb_refl.
    destruct (ngx_memcmp_0 a b (length b)) as (r & E1 & E2 & Hr); [lia..|].
    rewrite E1, E2. simpl. rewrite !orb_true_r. exists r, (- r).
    split; [done|]. split; [done|]. split; [lia|].
    rewrite Hr, firstn_all, <- H, firstn_all. done.
  - destruct (W b a H) as (d & ? & ? & ?). exists (- d), d.
    split; [done|]. split; [done|]. split; [lia|]. split; [lia|intros ->; lia].
Qed.

(** [ngx_filename_cmp] puts everything below a directory before every other
    name the directory's name is a prefix of. *)
Theorem filename_cmp_slash_lowest d x y c n :
  0 ∉ d -> 0 < c -> c <> cSLASH -> (length d < n)%nat ->
  exists r, ngx_filename_cmp (d ++ cSLASH :: x) (d ++ c :: y) n = Some r /\ r < 0.
Proof.
  intros Hd Hc Hs. revert n. induction d as [|e d IH]; intros n Hn.
  - destruct n; simpl in *; [lia|]. rewrite (proj2 (Z.eqb_neq 47 c)) by lia.
    rewrite (proj2 (Z.eqb_neq c 0)), (proj2 (Z.eqb_neq c 47)) by lia.
    eexists; split; [done|]. lia.
  - apply not_elem_of_cons in Hd as [He Hd].
    destruct n; simpl in *; [lia|]. rewrite Z.eqb_refl, (proj2 (Z.eqb_neq e 0)) by lia.
    apply IH; [done|lia].
Qed.

Lemma filename_cmp_slash_lowest_witness :
  exists r, ngx_filename_cmp (lit "/a" ++ cSLASH :: lit "x") (lit "/a" ++ cMINUS :: []) 4 = Some r
    /\ r < 0.
Proof.
  apply filename_cmp_slash_lowest; [by apply (bool_decide_unpack _)|lia|lia|simpl; lia].
Defined.
