(* ===== verification/NgxNumber.v ===== *)
(** * Numbers: parsing and formatting

    The number parsers [ngx_atoi], [ngx_atofp], [ngx_atosz], [ngx_atoof],
    [ngx_atotm] and [ngx_hextoi], the formatter [ngx_vslprintf] with
    [ngx_sprintf_num], and [ngx_hex_dump], of
    src/nginx-1.7.2/src/core/ngx_string.c.  Signed arithmetic wraps at the width
    of its type, which is what the [value < 0] tests of the parsers rely on. *)

From S2P Require Import Prelude.

(** ** Parsers *)

Definition is_digit (c : Z) : bool := c_0 <=? c <=? c_9.

(** The loop [for (value = 0; n--; line++)] over the [n] bytes of [line] in a
    [w]-bit signed [value]; [None] is its [return NGX_ERROR]. *)
Fixpoint atoi_loop (w : Z) (line : list Z) (value : Z) : option Z :=
  match line with
  | [] => Some value
  | c :: line' =>
      if (c <? c_0) || (c_9 <? c) then None
      else atoi_loop w line' (sint w (value * 10 + (c - c_0)))
  end.

(** The tail all the parsers share. *)
Definition nonneg_or_error (r : option Z) : Z :=
  match r with
  | None => NGX_ERROR
  | Some value => if value <? 0 then NGX_ERROR else value
  end.

Definition atoi_w (w : Z) (line : list Z) : Z :=
  match line with
  | [] => NGX_ERROR
  | _ => nonneg_or_error (atoi_loop w line 0)
  end.

Definition ngx_atoi `{Arch} (line : list Z) : Z := atoi_w ptr_bits line.
Definition ngx_atosz `{Arch} (line : list Z) : Z := atoi_w ptr_bits line.
Definition ngx_atoof (line : list Z) : Z := atoi_w 64 line.
Definition ngx_atotm `{Arch} (line : list Z) : Z := atoi_w ptr_bits line.

(** The loop of [ngx_atofp]; it ends with [value] and the remaining [point]. *)
Fixpoint atofp_loop `{Arch} (line : list Z) (value : Z) (point : nat) (dot : bool) :
    option (Z * nat) :=
  match line with
  | [] => Some (value, point)
  | c :: line' =>
      if (point =? 0)%nat then None
      else if c =? cDOT then
        if dot then None else atofp_loop line' value point true
      else if (c <? c_0) || (c_9 <? c) then None
      else
        atofp_loop line' (sint ptr_bits (value * 10 + (c - c_0)))
          (if dot then pred point else point) dot
  end.

Fixpoint scale_point `{Arch} (value : Z) (point : nat) : Z :=
  match point with
  | O => value
  | S point' => scale_point (sint ptr_bits (value * 10)) point'
  end.

Definition ngx_atofp `{Arch} (line : list Z) (point : nat) : Z :=
  match line with
  | [] => NGX_ERROR
  | _ =>
      nonneg_or_error
        ((fun vp => scale_point vp.1 vp.2) <$> atofp_loop line 0 point false)
  end.

(** The value of a hexadecimal digit, as the parsers find it. *)
Definition hex_digit (ch : Z) : option Z :=
  if c_0 <=? ch <=? c_9 then Some (ch - c_0)
  else
    let c := uint 8 (Z.lor ch 32) in
    if ca <=? c <=? cf then Some (c - ca + 10) else None.

Fixpoint hextoi_loop `{Arch} (line : list Z) (value : Z) : option Z :=
  match line with
  | [] => Some value
  | ch :: line' =>
      match hex_digit ch with
      | Some d => hextoi_loop line' (sint ptr_bits (value * 16 + d))
      | None => None
      end
  end.

Definition ngx_hextoi `{Arch} (line : list Z) : Z :=
  match line with
  | [] => NGX_ERROR
  | _ => nonneg_or_error (hextoi_loop line 0)
  end.

(** [hex[d]] of the table "0123456789abcdef" and [HEX[d]] of its capital twin. *)
Definition hex (d : Z) : Z := nth (Z.to_nat d) (lit "0123456789abcdef") 0.
Definition HEX (d : Z) : Z := nth (Z.to_nat d) (lit "0123456789ABCDEF") 0.

Fixpoint ngx_hex_dump (src : list Z) : list Z :=
  match src with
  | [] => []
  | b :: src' => hex (Z.shiftr b 4) :: hex (Z.land b 15) :: ngx_hex_dump src'
  end.

(** ** Formatting a number *)

Definition NGX_INT64_LEN : nat := 20.
Definition NGX_INT_T_LEN `{Arch} : Z := if ptr_bits =? 32 then 11 else 20.

(** [do { *--p = digit(n % base); } while (n /= base)]: the digits before
    [acc].  [fuel] bounds the iterations; the buffer has [NGX_INT64_LEN] bytes. *)
Fixpoint digits_loop (base : Z) (digit : Z -> Z) (fuel : nat) (n : Z) (acc : list Z) : option (list Z) :=
  match fuel with
  | O => None
  | S fuel' =>
      let acc := digit (n mod base) :: acc in
      let n := n / base in
      if n =? 0 then Some acc else digits_loop base digit fuel' n acc
  end.

(** The digits of [ui64], [None] if they overran [temp]. *)
Definition num_digits (ui64 hexadecimal : Z) : option (list Z) :=
  if hexadecimal =? 0 then
    if ui64 <=? 4294967295 then
      digits_loop 10 (fun d => uint 8 (d + c_0)) NGX_INT64_LEN (uint 32 ui64) []
    else digits_loop 10 (fun d => uint 8 (d + c_0)) NGX_INT64_LEN ui64 []
  else if hexadecimal =? 1 then digits_loop 16 hex NGX_INT64_LEN ui64 []
  else digits_loop 16 HEX NGX_INT64_LEN ui64 [].

(** The bytes written from [buf] on, with [room = last - buf]: the padding, then
    the digits that fit. *)
Definition ngx_sprintf_num (room : Z) (ui64 zero hexadecimal width : Z) : option (list Z) :=
  p ← num_digits ui64 hexadecimal;
  let pad := Z.min (Z.max 0 (width - Z.of_nat (length p))) (Z.max 0 room) in
  let room := room - pad in
  let len := if room <? Z.of_nat (length p) then room else Z.of_nat (length p) in
  Some (repeat zero (Z.to_nat pad) ++ take (Z.to_nat len) p).

(** ** The formatter *)

(** A variable argument: an integer, a length-delimited string ([ngx_str_t *]
    or [ngx_variable_value_t *]), a [u_char *] with the bytes from it on, or a
    [double], given by its sign, the integer part of its magnitude [f] and the
    C expression [(uint64_t) ((f - (double) ui64) * scale + 0.5)]. *)
Inductive varg :=
  | AInt (v : Z)
  | AStr (s : list Z)
  | APtr (mem : list Z)
  | ADouble (neg : bool) (int_part : Z) (frac : Z -> Z).

(** The locals a conversion sets: [zero], [width], [sign], [hex], [max_width],
    [frac_width] and [slen] ([None] for [(size_t) -1]). *)
Record fmt_locals := mkFmt {
  f_zero : Z;
  f_width : Z;
  f_sign : bool;
  f_hex : Z;
  f_max_width : bool;
  f_frac_width : Z;
  f_slen : option Z
}.

Definition f_unsigned (l : fmt_locals) : fmt_locals :=
  mkFmt (f_zero l) (f_width l) false (f_hex l) (f_max_width l) (f_frac_width l) (f_slen l).
Definition f_signed (l : fmt_locals) : fmt_locals :=
  mkFmt (f_zero l) (f_width l) true (f_hex l) (f_max_width l) (f_frac_width l) (f_slen l).
Definition f_set_max (l : fmt_locals) : fmt_locals :=
  mkFmt (f_zero l) (f_width l) (f_sign l) (f_hex l) true (f_frac_width l) (f_slen l).
Definition f_set_hex (h : Z) (l : fmt_locals) : fmt_locals :=
  mkFmt (f_zero l) (f_width l) false h (f_max_width l) (f_frac_width l) (f_slen l).
Definition f_set_frac (n : Z) (l : fmt_locals) : fmt_locals :=
  mkFmt (f_zero l) (f_width l) (f_sign l) (f_hex l) (f_max_width l) n (f_slen l).
Definition f_set_slen (n : Z) (l : fmt_locals) : fmt_locals :=
  mkFmt (f_zero l) (f_width l) (f_sign l) (f_hex l) (f_max_width l) (f_frac_width l) (Some n).
Definition f_set_width (n : Z) (l : fmt_locals) : fmt_locals :=
  mkFmt (f_zero l) n (f_sign l) (f_hex l) (f_max_width l) (f_frac_width l) (f_slen l).

Section Formatter.
Context `{Arch}.

(** [while ( *fmt >= '0' && *fmt <= '9') width = width * 10 + *fmt++ - '0';] *)
Fixpoint fmt_number (fmt : list Z) (width : Z) : list Z * Z :=
match fmt with
| c :: fmt' =>
    if is_digit c then fmt_number fmt' (uint ptr_bits (width * 10 + c - c_0)) else (fmt, width)
| [] => (fmt, width)
end.

(** The [for ( ;; ) switch] over the modifiers. *)
Fixpoint fmt_modifiers (fmt : list Z) (l : fmt_locals) (args : list varg) :
  option (list Z * fmt_locals * list varg) :=
match fmt with
| [] => Some (fmt, l, args)
| c :: fmt' =>
    if c =? 117 (* u *) then fmt_modifiers fmt' (f_unsigned l) args
    else if c =? 109 (* m *) then fmt_modifiers fmt' (f_set_max l) args
    else if c =? 88 (* X *) then fmt_modifiers fmt' (f_set_hex 2 l) args
    else if c =? 120 (* x *) then fmt_modifiers fmt' (f_set_hex 1 l) args
    else if c =? cDOT then
      let '(fmt', n) := fmt_number fmt' (f_frac_width l) in
      Some (fmt', f_set_frac n l, args)
    else if c =? 42 (* star *) then
      match args with
      | AInt v :: args' => fmt_modifiers fmt' (f_set_slen (uint ptr_bits v) l) args'
      | _ => None
      end
    else Some (fmt, l, args)
end.

(** [while ( *p && buf < last) *buf++ = *p++;] *)
Fixpoint copy_cstr (p : list Z) (room : Z) : option (list Z) :=
match p with
| [] => None
| c :: p' =>
    if c =? 0 then Some []
    else if 0 <? room then (fun d => c :: d) <$> copy_cstr p' (room - 1)
    else Some []
end.

(** [ngx_cpymem] of [min(last - buf, len)] bytes. *)
Definition copy_min (room len : Z) (data : list Z) : option (list Z) :=
let len := Z.to_nat (Z.min room len) in
if (length data <? len)%nat then None else Some (take len data).

(** What the conversion switch leaves to do: nothing but [fmt++] and [continue]
  ([Wrote]), or the common number printing after a [break]. *)
Inductive conversion :=
| Wrote (out : list Z) (args : list varg)
| Number (i64 ui64 : Z) (l : fmt_locals) (args : list varg).

(** A signed or unsigned integer of [w] bits, by [sign]. *)
Definition conv_int (w : Z) (l : fmt_locals) (args : list varg) : option conversion :=
match args with
| AInt v :: args' =>
    if f_sign l then Some (Number (sint w v) 0 l args')
    else Some (Number 0 (uint w v) l args')
| _ => None
end.

Definition conv_max_width (l : fmt_locals) : fmt_locals :=
if f_max_width l then f_set_width NGX_INT_T_LEN l else l.

(** [case 's']. *)
Definition conv_string (room : Z) (l : fmt_locals) (args : list varg) : option conversion :=
match args with
| APtr p :: args' =>
    match f_slen l with
    | None => (fun out => Wrote out args') <$> copy_cstr p room
    | Some slen => (fun out => Wrote out args') <$> copy_min room slen p
    end
| _ => None
end.

(** [case 'M']. *)
Definition conv_msec (l : fmt_locals) (args : list varg) : option conversion :=
match args with
| AInt v :: args' =>
    if sint ptr_bits v =? -1 then Some (Number (-1) 0 (f_signed l) args')
    else Some (Number 0 (uint ptr_bits v) (f_unsigned l) args')
| _ => None
end.

(** [case 'f']. *)
Definition conv_double (room : Z) (l : fmt_locals) (args : list varg) : option conversion :=
match args with
| ADouble neg ui64 frac :: args' =>
    let out := if neg then [cMINUS] else [] in
    let scale := uint ptr_bits (10 ^ f_frac_width l) in
    let fr := if f_frac_width l =? 0 then 0 else frac scale in
    let '(ui64, fr) :=
      if negb (f_frac_width l =? 0) && (fr =? scale) then (uint 64 (ui64 + 1), 0) else (ui64, fr) in
    n1 ← ngx_sprintf_num (room - Z.of_nat (length out)) ui64 (f_zero l) 0 (f_width l);
    let out := out ++ n1 in
    if f_frac_width l =? 0 then Some (Wrote out args')
    else
      let out := out ++ (if Z.of_nat (length out) <? room then [cDOT] else []) in
      n2 ← ngx_sprintf_num (room - Z.of_nat (length out)) fr c_0 0 (f_frac_width l);
      Some (Wrote (out ++ n2) args')
| _ => None
end.

(** [case 'p']: [hex = 2; sign = 0; zero = '0'; width = NGX_PTR_SIZE * 2]. *)
Definition conv_pointer (l : fmt_locals) (args : list varg) : option conversion :=
match args with
| AInt v :: args' =>
    Some (Number 0 (uint ptr_bits v)
      (mkFmt c_0 (ptr_bits / 8 * 2) false 2 (f_max_width l) (f_frac_width l) (f_slen l)) args')
| _ => None
end.

(** The conversion switch on [c = *fmt]. *)
Definition convert (c room : Z) (l : fmt_locals) (args : list varg) : option conversion :=
if (c =? 86) (* V *) || (c =? 118) (* v *) then
  match args with
  | AStr s :: args' =>
      (fun out => Wrote out args') <$> copy_min room (Z.of_nat (length s)) s
  | _ => None
  end
else if c =? 115 (* s *) then conv_string room l args
else if c =? 79 (* O *) then conv_int 64 (f_signed l) args
else if c =? 80 (* P *) then conv_int 32 (f_signed l) args
else if c =? 84 (* T *) then conv_int ptr_bits (f_signed l) args
else if c =? 77 (* M *) then conv_msec l args
else if c =? 122 (* z *) then conv_int ptr_bits l args
else if c =? 105 (* i *) then conv_int ptr_bits (conv_max_width l) args
else if c =? 100 (* d *) then conv_int 32 l args
else if c =? 108 (* l *) then conv_int ptr_bits l args
else if c =? 68 (* D *) then conv_int 32 l args
else if c =? 76 (* L *) then conv_int 64 l args
else if c =? 65 (* A *) then conv_int ptr_bits (conv_max_width l) args
else if c =? 102 (* f *) then conv_double room l args
else if c =? 114 (* r *) then conv_int 64 (f_signed l) args
else if c =? 112 (* p *) then conv_pointer l args
else if c =? 99 (* c *) then
  match args with
  | AInt d :: args' => Some (Wrote [Z.land d 255] args')
  | _ => None
  end
else if c =? 90 (* Z *) then Some (Wrote [0] args)
else if c =? 78 (* N *) then Some (Wrote [cLF] args)
else if c =? cPERCENT then Some (Wrote [cPERCENT] args)
else Some (Wrote [c] args).

(** The sign and the number, after the switch. *)
Definition print_number (room i64 ui64 : Z) (l : fmt_locals) : option (list Z) :=
let '(out, ui64) :=
  if f_sign l then
    if i64 <? 0 then ([cMINUS], uint 64 (- i64)) else ([], uint 64 i64)
  else ([], ui64) in
(fun n => out ++ n) <$>
  ngx_sprintf_num (room - Z.of_nat (length out)) ui64 (f_zero l) (f_hex l) (f_width l).

(** One iteration on a format that begins with '%': [fmt] is what follows it. *)
Definition fmt_directive (fmt : list Z) (room : Z) (args : list varg) :
  option (list Z * list varg * list Z) :=
let zero := match fmt with c :: _ => if c =? c_0 then c_0 else cSP | [] => cSP end in
let '(fmt, width) := fmt_number fmt 0 in
'(fmt, l, args) ← fmt_modifiers fmt (mkFmt zero width true 0 false 0 None) args;
match fmt with
| [] => None
| c :: fmt' =>
    cv ← convert c room l args;
    match cv with
    | Wrote out args' => Some (fmt', args', out)
    | Number i64 ui64 l args' =>
        (fun out => (fmt', args', out)) <$> print_number room i64 ui64 l
    end
end.

(** The main loop; [fmt] is the format up to its terminator and [room] is
  [last - buf].  Every iteration consumes a byte of the format. *)
Fixpoint vslprintf_loop (fuel : nat) (room : Z) (fmt : list Z) (args : list varg) : option (list Z) :=
match fuel with
| O => None
| S fuel' =>
    match fmt with
    | [] => Some []
    | c :: fmt' =>
        if room <=? 0 then Some []
        else if c =? cPERCENT then
          '(fmt', args', out) ← fmt_directive fmt' room args;
          (fun d => out ++ d) <$> vslprintf_loop fuel' (room - Z.of_nat (length out)) fmt' args'
        else (fun d => c :: d) <$> vslprintf_loop fuel' (room - 1) fmt' args
    end
end.

(** The bytes written at [buf]; the result of the call is [buf] plus their
  number.  [None] is undefined behaviour: a missing or ill-typed argument, a
  read outside an object, or a format that ends inside a conversion. *)
Definition ngx_vslprintf (room : Z) (fmt : list Z) (args : list varg) : option (list Z) :=
vslprintf_loop (S (length fmt)) room fmt args.

Definition ngx_snprintf (max : Z) (fmt : list Z) (args : list varg) : option (list Z) :=
ngx_vslprintf max fmt args.

(** [ngx_sprintf] formats up to [(void * ) -1]: [last - buf] is what is left of
  the address space above [buf]. *)
Definition ngx_sprintf (buf : Z) (fmt : list Z) (args : list varg) : option (list Z) :=
ngx_vslprintf (2 ^ ptr_bits - 1 - buf) fmt args.

Definition ngx_slprintf (buf last : Z) (fmt : list Z) (args : list varg) : option (list Z) :=
ngx_vslprintf (last - buf) fmt args.

End Formatter.

(** ** Lemmas *)

(** The number a list of digits denotes, most significant digit first. *)
Definition num_value (base : Z) (ds : list Z) : Z := fold_left (fun v d => v * base + d) ds 0.

Lemma num_value_snoc base ds d : num_value base (ds ++ [d]) = num_value base ds * base + d.
Proof. unfold num_value. by rewrite fold_left_app. Qed.

Lemma num_value_acc base ds v :
  fold_left (fun v d => v * base + d) ds v = v * base ^ Z.of_nat (length ds) + num_value base ds.
Proof.
  unfold num_value. revert v. induction ds as [|d ds IH]; intros v; simpl length; simpl fold_left.
  - rewrite Z.pow_0_r. lia.
  - rewrite (IH (v * base + d)), (IH (0 * base + d)).
    rewrite Nat2Z.inj_succ, Z.pow_succ_r by lia. ring.
Qed.

Lemma num_value_cons base d ds :
  num_value base (d :: ds) = d * base ^ Z.of_nat (length ds) + num_value base ds.
Proof. unfold num_value at 1. simpl. apply num_value_acc. Qed.

Lemma num_value_range base ds :
  0 < base -> Forall (fun d => 0 <= d < base) ds ->
  0 <= num_value base ds < base ^ Z.of_nat (length ds).
Proof.
  intros Hb H. induction ds as [|d ds IH] using rev_ind; [unfold num_value; simpl; lia|].
  apply Forall_app in H as [H Hd]. rewrite Forall_singleton in Hd. specialize (IH H).
  rewrite num_value_snoc, length_app. simpl.
  rewrite Nat2Z.inj_add, Z.pow_add_r, Z.pow_1_r by lia. nia.
Qed.

(** Digits written by the loop: they denote the number, fit the fuel, and start
    with a zero only for the number zero. *)
Lemma digits_loop_spec base digit fuel n acc :
  2 <= base -> 0 <= n < base ^ Z.of_nat fuel -> (0 < fuel)%nat ->
  exists ds, digits_loop base digit fuel n acc = Some (map digit ds ++ acc)
    /\ Forall (fun d => 0 <= d < base) ds /\ num_value base ds = n
    /\ (1 <= length ds <= fuel)%nat /\ (n <> 0 -> hd 0 ds <> 0).
Proof.
  intros Hb. revert n acc. induction fuel as [|fuel IH]; intros n acc Hn Hf; [lia|]. simpl.
  pose proof (Z.mod_pos_bound n base ltac:(lia)) as Hm.
  pose proof (Z.div_mod n base ltac:(lia)) as Hdm.
  destruct (Z.eqb_spec (n / base) 0) as [E|E].
  - exists [n mod base]. simpl. unfold num_value. simpl.
    rewrite E, Z.mul_0_r in Hdm.
    split; [done|]. split; [by rewrite Forall_singleton|]. repeat split; lia.
  - rewrite Nat2Z.inj_succ, Z.pow_succ_r in Hn by lia.
    assert (0 <= n / base < base ^ Z.of_nat fuel).
    { split; [apply Z.div_pos; lia|]. apply Z.div_lt_upper_bound; lia. }
    assert (0 < fuel)%nat by (destruct fuel; [simpl in *; lia|lia]).
    destruct (IH (n / base) (digit (n mod base) :: acc)) as (ds & -> & H1 & H2 & H3 & H4); [done..|].
    exists (ds ++ [n mod base]). rewrite map_app, <- app_assoc. split; [done|].
    split; [by rewrite Forall_app, Forall_singleton|].
    rewrite num_value_snoc, length_app, H2. simpl. split; [lia|]. split; [lia|].
    intros _. destruct ds; simpl in *; [lia|]. apply H4. done.
Qed.

Lemma hex_digit_hex d : 0 <= d < 16 -> hex_digit (hex d) = Some d.
Proof.
  intros Hd. assert (E : bool_decide (hex_digit (hex (Z.land d 15)) = Some (Z.land d 15)) = true).
  { assert (Hb : byte_ok d) by byte_lia. revert d Hb Hd. intros d Hb _. revert d Hb.
    apply (byte_forall (fun d => bool_decide (hex_digit (hex (Z.land d 15)) = Some (Z.land d 15)))).
    vm_compute. reflexivity. }
  change 15 with (Z.ones 4) in E. rewrite Z.land_ones, Z.mod_small in E by (simpl; lia).
  by apply bool_decide_eq_true_1 in E.
Qed.

(** The shared parser on digits whose value fits its type. *)
Lemma atoi_loop_digits w ds v :
  0 < w -> Forall (fun d => 0 <= d < 10) ds -> 0 <= v ->
  fold_left (fun v d => v * 10 + d) ds v < 2 ^ (w - 1) ->
  atoi_loop w (map (fun d => d + c_0) ds) v = Some (fold_left (fun v d => v * 10 + d) ds v).
Proof.
  intros Hw. revert v. induction ds as [|d ds IH]; intros v Hd Hv Hlt; [done|].
  apply Forall_cons in Hd as [Hd Hds]. simpl in *.
  rewrite (proj2 (Z.ltb_ge _ _)), (proj2 (Z.ltb_ge c_9 _)) by lia. simpl.
  replace (d + 48 - 48) with d by lia.
  assert (v * 10 + d <= fold_left (fun v d => v * 10 + d) ds (v * 10 + d)).
  { rewrite num_value_acc. pose proof (num_value_range 10 ds ltac:(lia) Hds).
    assert (1 <= 10 ^ Z.of_nat (length ds)) by (apply (Z.pow_le_mono_r 10 0); lia). nia. }
  rewrite sint_small by lia. apply IH; [done|lia|done].
Qed.

Lemma atoi_loop_nondigit w line v :
  Exists (fun c => ~ (c_0 <= c <= c_9)) line -> atoi_loop w line v = None.
Proof.
  intros H. revert v. induction H as [c line Hc|c line H IH]; intros v; simpl.
  - destruct (Z.ltb_spec c c_0), (Z.ltb_spec c_9 c); simpl; (done || lia).
  - case_test; [done|apply IH].
Qed.

Lemma atoi_loop_num w ds :
  0 < w -> Forall (fun d => 0 <= d < 10) ds -> (1 <= length ds)%nat ->
  num_value 10 ds < 2 ^ (w - 1) ->
  atoi_w w (map (fun d => d + c_0) ds) = num_value 10 ds.
Proof.
  intros Hw Hd Hl Hv. destruct ds as [|d ds]; [simpl in Hl; lia|].
  change (atoi_w w (map (fun d => d + c_0) (d :: ds)))
    with (nonneg_or_error (atoi_loop w (map (fun d => d + c_0) (d :: ds)) 0)).
  rewrite atoi_loop_digits by (done || lia). unfold nonneg_or_error.
  pose proof (num_value_range 10 (d :: ds) ltac:(lia) Hd).
  change (fold_left _ _ 0) with (num_value 10 (d :: ds)).
  case_test; lia.
Qed.

Lemma num_digits_dec n :
  0 <= n < 2 ^ 64 ->
  exists ds, num_digits n 0 = Some (map (fun d => d + c_0) ds)
    /\ Forall (fun d => 0 <= d < 10) ds /\ num_value 10 ds = n
    /\ (1 <= length ds <= NGX_INT64_LEN)%nat /\ (n <> 0 -> hd 0 ds <> 0).
Proof.
  intros Hn. unfold num_digits. simpl (0 =? 0).
  assert (E : digits_loop 10 (fun d => uint 8 (d + c_0)) NGX_INT64_LEN n [] =
    if n <=? 4294967295
    then digits_loop 10 (fun d => uint 8 (d + c_0)) NGX_INT64_LEN (uint 32 n) []
    else digits_loop 10 (fun d => uint 8 (d + c_0)) NGX_INT64_LEN n []).
  { destruct (Z.leb_spec n 4294967295); [|done]. rewrite uint_small; [done|].
    change (2 ^ 32) with 4294967296. lia. }
  rewrite <- E.
  destruct (digits_loop_spec 10 (fun d => uint 8 (d + c_0)) NGX_INT64_LEN n [])
    as (ds & H1 & H2 & H3 & H4 & H5); [lia| |unfold NGX_INT64_LEN; lia|].
  { split; [lia|]. apply Z.lt_trans with (2 ^ 64); [lia|]. vm_compute. reflexivity. }
  exists ds. rewrite H1, app_nil_r. split; [|done]. f_equal.
  apply map_ext_in. intros d Hd. apply list_elem_of_In in Hd.
  rewrite Forall_forall in H2. specialize (H2 d Hd). apply uint_small.
  change (2 ^ 8) with 256. lia.
Qed.

(** With enough room the number is printed whole, padded on the left. *)
Lemma sprintf_num_fits room ui64 zero h width p :
  num_digits ui64 h = Some p -> Z.max width (Z.of_nat (length p)) <= room ->
  ngx_sprintf_num room ui64 zero h width =
    Some (repeat zero (Z.to_nat (width - Z.of_nat (length p))) ++ p).
Proof.
  intros Hp Hr. unfold ngx_sprintf_num. rewrite Hp. cbn [mbind option_bind].
  replace (Z.min _ _) with (Z.max 0 (width - Z.of_nat (length p))) by lia.
  rewrite (proj2 (Z.ltb_ge _ _)) by lia. rewrite Nat2Z.id, firstn_all.
  do 3 f_equal. lia.
Qed.

Lemma sprintf_num_length room ui64 zero h width out :
  ngx_sprintf_num room ui64 zero h width = Some out -> Z.of_nat (length out) <= Z.max 0 room.
Proof.
  unfold ngx_sprintf_num. destruct (num_digits ui64 h) as [p|]; [|done].
  cbn [mbind option_bind]. intros [= <-].
  rewrite length_app, repeat_length, length_take. case_test; lia.
Qed.

Lemma copy_cstr_length p room out :
  copy_cstr p room = Some out -> Z.of_nat (length out) <= Z.max 0 room.
Proof.
  revert room out. induction p as [|c p IH]; intros room out Hc; simpl in Hc; [done|].
  case_test_in Hc; [simplify_eq; simpl; lia|]. case_test_in Hc; [|simplify_eq; simpl; lia].
  destruct (copy_cstr p (room - 1)) as [d|] eqn:E; [|done]. simpl in Hc. simplify_eq.
  apply IH in E. simpl. lia.
Qed.

Lemma copy_min_length room len data out :
  copy_min room len data = Some out -> Z.of_nat (length out) <= Z.max 0 room.
Proof.
  unfold copy_min. case_test; [done|]. intros [= <-]. rewrite length_take. lia.
Qed.

#[export] Hint Resolve sprintf_num_length copy_cstr_length copy_min_length : ngx.

(** Split a monadic step that returned: name its value and simplify. *)
Ltac step_option H :=
  match type of H with
  | context [mbind _ ?o] => destruct o eqn:?; cbn [mbind option_bind] in H; [|discriminate H]
  | context [fmap _ ?o] => destruct o eqn:?; cbn [fmap option_fmap option_map] in H; [|discriminate H]
  end.

Section FormatterLemmas.
Context `{Arch}.

Lemma conv_double_length room l args out args' :
0 < room -> conv_double room l args = Some (Wrote out args') ->
Z.of_nat (length out) <= room.
Proof.
intros Hr Hc. unfold conv_double in Hc. destruct args as [|[| | |neg ip frac] args]; try done.
match type of Hc with context [let '(_, _) := ?p in _] => destruct p as [u f] end.
step_option Hc. rename Heqo into E1. apply sprintf_num_length in E1.
set (sg := if neg then [45] else []) in *.
assert (length sg <= 1)%nat by (subst sg; destruct neg; simpl; lia).
case_test_in Hc.
- simplify_eq. rewrite length_app. lia.
- destruct (Z.ltb_spec (Z.of_nat (length (sg ++ l0))) room);
    step_option Hc; rename Heqo into E2; apply sprintf_num_length in E2;
    simplify_eq; rewrite !length_app in *; simpl in *; lia.
Qed.

(** What a conversion writes by itself fits the room. *)
Lemma convert_length c room l args out args' :
0 < room -> convert c room l args = Some (Wrote out args') -> Z.of_nat (length out) <= room.
Proof.
intros Hr Hc. unfold convert, conv_int, conv_msec, conv_pointer, conv_string in Hc.
repeat case_test_in Hc;
  repeat match type of Hc with
         | context [match args with _ => _ end] => destruct args as [|[v|s|m|? ? ?] ?]; try done
         | context [match f_slen l with _ => _ end] => destruct (f_slen l)
         end;
  try (by simplify_eq; simpl; lia);
  try (repeat case_test_in Hc; done);
  try (step_option Hc; simplify_eq;
       match goal with
       | E : copy_min _ _ _ = Some _ |- _ => apply copy_min_length in E; lia
       | E : copy_cstr _ _ = Some _ |- _ => apply copy_cstr_length in E; lia
       end).
eapply conv_double_length; eauto.
Qed.

Lemma print_number_length room i64 ui64 l out :
0 < room -> print_number room i64 ui64 l = Some out -> Z.of_nat (length out) <= room.
Proof.
intros Hr Hp. unfold print_number in Hp.
repeat case_test_in Hp; simpl in Hp; step_option Hp; simplify_eq;
  match goal with E : ngx_sprintf_num _ _ _ _ _ = Some _ |- _ => apply sprintf_num_length in E end;
  simpl in *; lia.
Qed.

Lemma fmt_directive_length fmt room args fmt' args' out :
0 < room -> fmt_directive fmt room args = Some (fmt', args', out) ->
Z.of_nat (length out) <= room.
Proof.
intros Hr Hd. unfold fmt_directive in Hd.
destruct (fmt_number fmt 0) as [f1 w]. step_option Hd.
destruct p as [[f2 l] a2]. destruct f2 as [|c f2]; [done|].
step_option Hd. destruct c0 as [o a|i u l' a].
- simplify_eq. eauto using convert_length.
- step_option Hd. simplify_eq. eauto using print_number_length.
Qed.

Lemma fmt_number_shorter fmt w : (length (fmt_number fmt w).1 <= length fmt)%nat.
Proof.
revert w. induction fmt as [|c fmt IH]; intros w; simpl; [lia|].
case_test; simpl; [|lia]. etrans; [apply IH|lia].
Qed.

Lemma fmt_modifiers_shorter fmt l args fmt' l' args' :
fmt_modifiers fmt l args = Some (fmt', l', args') -> (length fmt' <= length fmt)%nat.
Proof.
revert l args. induction fmt as [|c fmt IH]; intros l args Hm; simpl in Hm; [by simplify_eq|].
repeat case_test_in Hm; try (apply IH in Hm; simpl; lia).
- pose proof (fmt_number_shorter fmt (f_frac_width l)) as Hn.
  destruct (fmt_number fmt (f_frac_width l)). simplify_eq. simpl in *. lia.
- destruct args as [|[]]; try done. apply IH in Hm. simpl. lia.
- by simplify_eq.
Qed.

Lemma fmt_directive_shorter fmt room args fmt' args' out :
fmt_directive fmt room args = Some (fmt', args', out) -> (length fmt' < length fmt)%nat.
Proof.
intros Hd. unfold fmt_directive in Hd.
pose proof (fmt_number_shorter fmt 0) as Hn. destruct (fmt_number fmt 0) as [f1 w].
step_option Hd. destruct p as [[f2 l] a2]. apply fmt_modifiers_shorter in Heqo.
destruct f2 as [|c f2]; [done|]. step_option Hd.
destruct c0; [simplify_eq|step_option Hd; simplify_eq]; simpl in *; lia.
Qed.

(** The fuel is never what ends the main loop. *)
Lemma vslprintf_loop_fuel fuel1 fuel2 room fmt args :
(length fmt < fuel1)%nat -> (length fmt < fuel2)%nat ->
vslprintf_loop fuel1 room fmt args = vslprintf_loop fuel2 room fmt args.
Proof.
revert fuel2 room fmt args. induction fuel1 as [|f1 IH]; intros [|f2] room fmt args H1 H2; try lia.
simpl. destruct fmt as [|c fmt]; [done|]. simpl in *.
case_test; [done|]. case_test; [|by rewrite (IH f2) by lia].
destruct (fmt_directive fmt room args) as [[[f a] o]|] eqn:E; [|done].
apply fmt_directive_shorter in E. cbn. by rewrite (IH f2) by lia.
Qed.

Lemma vslprintf_loop_cons fuel room c fmt args :
vslprintf_loop (S fuel) room (c :: fmt) args =
  if room <=? 0 then Some []
  else if c =? cPERCENT then
    '(fmt', args', out) ← fmt_directive fmt room args;
    (fun d => out ++ d) <$> vslprintf_loop fuel (room - Z.of_nat (length out)) fmt' args'
  else (fun d => c :: d) <$> vslprintf_loop fuel (room - 1) fmt args.
Proof. done. Qed.

(** Unfolding the main loop, without fuel. *)
Lemma vslprintf_nil room args : ngx_vslprintf room [] args = Some [].
Proof. done. Qed.

Lemma vslprintf_char room c fmt args :
0 < room -> c <> cPERCENT ->
ngx_vslprintf room (c :: fmt) args = (fun d => c :: d) <$> ngx_vslprintf (room - 1) fmt args.
Proof.
intros Hr Hc. unfold ngx_vslprintf. rewrite vslprintf_loop_cons.
rewrite (proj2 (Z.leb_gt _ _)), (proj2 (Z.eqb_neq c 37)) by lia. done.
Qed.

Lemma vslprintf_directive room fmt args fmt' args' out :
0 < room -> fmt_directive fmt room args = Some (fmt', args', out) ->
ngx_vslprintf room (cPERCENT :: fmt) args =
  (fun d => out ++ d) <$> ngx_vslprintf (room - Z.of_nat (length out)) fmt' args'.
Proof.
intros Hr Hd. unfold ngx_vslprintf. rewrite vslprintf_loop_cons.
rewrite (proj2 (Z.leb_gt _ _)) by lia. simpl (37 =? 37). rewrite Hd.
cbn [mbind option_bind]. apply fmt_directive_shorter in Hd.
f_equal. apply vslprintf_loop_fuel; simpl; lia.
Qed.

End FormatterLemmas.

(** ** Theorems *)

(** Whatever the format and the arguments, a call of [ngx_vslprintf] writes
    only between [buf] and [last]. *)
Theorem vslprintf_bounds `{Arch} room fmt args out :
  0 <= room -> ngx_vslprintf room fmt args = Some out -> Z.of_nat (length out) <= room.
Proof.
  unfold ngx_vslprintf. generalize (S (length fmt)) as fuel. intros fuel.
  revert room fmt args out. induction fuel as [|fuel IH]; intros room fmt args out Hr Hv; [done|].
  simpl in Hv. destruct fmt as [|c fmt]; [by simplify_eq; simpl; lia|].
  case_test_in Hv; [by simplify_eq; simpl; lia|].
  case_test_in Hv.
  - step_option Hv. destruct p as [[f a] o]. step_option Hv. simplify_eq.
    apply fmt_directive_length in Heqo; [|lia]. apply IH in Heqo0; [|lia].
    rewrite length_app. lia.
  - step_option Hv. simplify_eq. apply IH in Heqo; [|lia]. simpl. lia.
Qed.

Lemma vslprintf_bounds_witness : Z.of_nat (length (lit "-12 0")) <= 5.
Proof.
  apply (@vslprintf_bounds lp64 5 (lit "%i %04ui") [AInt (-12); AInt 77]); [lia|reflexivity].
Defined.

(** On a string of decimal digits whose value fits [ngx_int_t], [ngx_atoi]
    returns that value; [ngx_atosz] and [ngx_atotm] share its code. *)
Theorem atoi_value `{Arch} ds :
  Forall (fun d => 0 <= d < 10) ds -> (1 <= length ds)%nat ->
  num_value 10 ds < 2 ^ (ptr_bits - 1) ->
  ngx_atoi (map (fun d => d + c_0) ds) = num_value 10 ds.
Proof. intros. pose proof ptr_bits_pos. apply atoi_loop_num; (done || lia). Qed.

Lemma atoi_value_witness :
  @ngx_atoi ilp32 (map (fun d => d + c_0) [2; 0; 4; 8]) = num_value 10 [2; 0; 4; 8].
Proof.
  apply (@atoi_value ilp32 [2; 0; 4; 8]);
    [by apply (bool_decide_unpack _)|simpl; lia|reflexivity].
Defined.

(** [ngx_atoi] returns [NGX_ERROR] on the empty string and on every string
    with a byte that is not a digit. *)
Theorem atoi_rejects `{Arch} line :
  line = [] \/ Exists (fun c => ~ (c_0 <= c <= c_9)) line -> ngx_atoi line = NGX_ERROR.
Proof.
  intros [->|Hx]; [done|]. unfold ngx_atoi, atoi_w. rewrite atoi_loop_nondigit by done.
  by destruct line.
Qed.

Lemma atoi_rejects_witness : @ngx_atoi lp64 (lit "12x") = NGX_ERROR.
Proof. apply (@atoi_rejects lp64). right. do 2 right. left. simpl. lia. Defined.

(** [ngx_atoi] accepts numbers that do not fit: the sign test after the loop
    misses an overflow that wraps to a non-negative value, so 2^32 + 1 (or 2^64 + 1)
    parses as 1. *)
Theorem atoi_overflow_accepted :
  @ngx_atoi ilp32 (lit "4294967297") = 1 /\ @ngx_atoi lp64 (lit "18446744073709551617") = 1.
Proof. split; vm_compute; reflexivity. Qed.

(** Printing a non-negative [ngx_int_t] with "%ui" into a buffer of 20 bytes
    or more and parsing the result with [ngx_atoi] gives the number back. *)
Theorem sprintf_atoi_roundtrip `{Arch} n room :
  0 <= n < 2 ^ (ptr_bits - 1) -> 20 <= room ->
  exists out, ngx_snprintf room (lit "%ui") [AInt n] = Some out /\ ngx_atoi out = n.
Proof.
  intros Hn Hr. pose proof ptr_bits_pos as Hb.
  assert (Hn64 : 0 <= n < 2 ^ 64).
  { split; [lia|]. apply Z.lt_le_trans with (2 ^ (ptr_bits - 1)); [lia|]. apply Z.pow_le_mono_r; lia. }
  destruct (num_digits_dec n Hn64) as (ds & Hd & H10 & Hv & Hl & _).
  assert (Hp : num_value 10 ds < 2 ^ (ptr_bits - 1)) by lia.
  exists (map (fun d => d + c_0) ds). split; [|rewrite atoi_value by (done || lia); done].
  assert (Hu : uint ptr_bits n = n).
  { apply uint_small. split; [lia|]. apply Z.lt_le_trans with (2 ^ (ptr_bits - 1)); [lia|].
    apply Z.pow_le_mono_r; lia. }
  unfold ngx_snprintf. eval_lit.
  rewrite (vslprintf_directive _ _ _ [] [] (map (fun d => d + c_0) ds)); [|lia|].
  - rewrite vslprintf_nil. simpl. by rewrite app_nil_r.
  - unfold fmt_directive. cbn -[print_number uint ngx_sprintf_num]. unfold print_number. cbn -[ngx_sprintf_num uint].
    rewrite Hu, (sprintf_num_fits _ _ _ _ _ _ Hd).
    + rewrite length_map, Z2Nat.nonpos by lia. done.
    + rewrite length_map. unfold NGX_INT64_LEN in Hl. lia.
Qed.

Lemma sprintf_atoi_roundtrip_witness :
  exists out, @ngx_snprintf ilp32 20 (lit "%ui") [AInt 2147483647] = Some out
    /\ @ngx_atoi ilp32 out = 2147483647.
Proof. apply (@sprintf_atoi_roundtrip ilp32); [split; [lia|reflexivity]|lia]. Defined.

Lemma sint_nonneg `{Arch} v : 0 <= v < 2 ^ (ptr_bits - 1) -> sint ptr_bits v = v.
Proof. intros Hv. pose proof ptr_bits_pos. apply sint_small; lia. Qed.

Lemma scale_point_pow `{Arch} v k :
  0 <= v -> v * 10 ^ Z.of_nat k < 2 ^ (ptr_bits - 1) -> scale_point v k = v * 10 ^ Z.of_nat k.
Proof.
  revert v. induction k as [|k IH]; intros v Hv Hk; [simpl; lia|].
  rewrite Nat2Z.inj_succ, Z.pow_succ_r in * by lia.
  assert (1 <= 10 ^ Z.of_nat k) by (apply (Z.pow_le_mono_r 10 0); lia).
  cbn [scale_point]. rewrite sint_nonneg by nia. rewrite IH; nia.
Qed.

(** The digits after the dot ([dot = true]) or before it. *)
Lemma atofp_loop_digits `{Arch} ds rest v (point : nat) (dot : bool) :
  Forall (fun d => 0 <= d < 10) ds -> 0 <= v ->
  fold_left (fun v d => v * 10 + d) ds v < 2 ^ (ptr_bits - 1) ->
  (if dot then length ds <= point else 0 < point)%nat ->
  atofp_loop (map (fun d => d + c_0) ds ++ rest) v point dot =
    atofp_loop rest (fold_left (fun v d => v * 10 + d) ds v)
      (if dot then point - length ds else point)%nat dot.
Proof.
  revert v point. induction ds as [|d ds IH]; intros v point Hd Hv Hlt Hp; simpl.
  { destruct dot; [by rewrite Nat.sub_0_r|done]. }
  apply Forall_cons in Hd as [Hd Hds]. simpl in *.
  assert (v * 10 + d <= fold_left (fun v d => v * 10 + d) ds (v * 10 + d)).
  { rewrite num_value_acc. pose proof (num_value_range 10 ds ltac:(lia) Hds).
    assert (1 <= 10 ^ Z.of_nat (length ds)) by (apply (Z.pow_le_mono_r 10 0); lia). nia. }
  rewrite (proj2 (Nat.eqb_neq point 0)) by (destruct dot; lia).
  rewrite (proj2 (Z.eqb_neq _ 46)) by lia.
  rewrite (proj2 (Z.ltb_ge _ 48)), (proj2 (Z.ltb_ge 57 _)) by lia. simpl.
  replace (d + 48 - 48) with d by lia. rewrite sint_nonneg by lia.
  rewrite IH; [|done|lia|done|destruct dot; lia].
  destruct dot; [|done]. f_equal. lia.
Qed.

(** [ngx_atofp] reads a fixed point number: integer digits, a dot and at most
    [point] fraction digits give the value scaled by [10 ^ point]. *)
Theorem atofp_value `{Arch} ip fp point :
  Forall (fun d => 0 <= d < 10) (ip ++ fp) -> (0 < point)%nat -> (length fp <= point)%nat ->
  num_value 10 (ip ++ fp) * 10 ^ Z.of_nat (point - length fp) < 2 ^ (ptr_bits - 1) ->
  ngx_atofp (map (fun d => d + c_0) ip ++ cDOT :: map (fun d => d + c_0) fp) point =
    num_value 10 (ip ++ fp) * 10 ^ Z.of_nat (point - length fp).
Proof.
  intros Hd Hp Hf Hlt.
  pose proof (num_value_range 10 _ ltac:(lia) Hd) as Hr.
  apply Forall_app in Hd as [Hi Hfd].
  pose proof (num_value_range 10 _ ltac:(lia) Hi) as Hri.
  pose proof (num_value_range 10 _ ltac:(lia) Hfd) as Hrf.
  assert (1 <= 10 ^ Z.of_nat (point - length fp)) by (apply (Z.pow_le_mono_r 10 0); lia).
  assert (1 <= 10 ^ Z.of_nat (length fp)) by (apply (Z.pow_le_mono_r 10 0); lia).
  assert (Hs : num_value 10 (ip ++ fp) =
    num_value 10 ip * 10 ^ Z.of_nat (length fp) + num_value 10 fp).
  { unfold num_value at 1. rewrite fold_left_app. apply num_value_acc. }
  assert (E : atofp_loop (map (fun d => d + c_0) ip ++ cDOT :: map (fun d => d + c_0) fp) 0 point false
    = Some (num_value 10 (ip ++ fp), (point - length fp)%nat)).
  { rewrite atofp_loop_digits; [|done|lia| |lia].
    2:{ change (fold_left _ ip 0) with (num_value 10 ip). nia. }
    cbn [atofp_loop]. rewrite (proj2 (Nat.eqb_neq point 0)) by lia. simpl (46 =? 46). cbv iota.
    rewrite <- (app_nil_r (map _ fp)), atofp_loop_digits; [|done|exact (proj1 Hri)| |lia].
    - rewrite num_value_acc. change (fold_left _ ip 0) with (num_value 10 ip). by rewrite Hs.
    - rewrite num_value_acc. change (fold_left _ ip 0) with (num_value 10 ip). nia. }
  unfold ngx_atofp. rewrite E. cbn [fmap option_fmap option_map fst snd].
  rewrite scale_point_pow by lia. unfold nonneg_or_error.
  destruct (map _ ip); simpl app; cbv iota; case_test; nia.
Qed.

Lemma atofp_value_witness : @ngx_atofp lp64 (lit "10.5") 2 = 1050.
Proof.
  apply (@atofp_value lp64 [1; 0] [5] 2);
    [by apply (bool_decide_unpack _)|lia|simpl; lia|reflexivity].
Defined.

Lemma hextoi_loop_dump `{Arch} bs v :
  bytes_ok bs -> 0 <= v ->
  fold_left (fun v b => v * 256 + b) bs v < 2 ^ (ptr_bits - 1) ->
  hextoi_loop (ngx_hex_dump bs) v = Some (fold_left (fun v b => v * 256 + b) bs v).
Proof.
  revert v. induction bs as [|b bs IH]; intros v Hb Hv Hlt; [done|].
  rewrite bytes_ok_cons in Hb. destruct Hb as [Hb Hbs]. unfold byte_ok in Hb. simpl in Hlt.
  assert (v * 256 + b <= fold_left (fun v b => v * 256 + b) bs (v * 256 + b)).
  { rewrite num_value_acc. pose proof (num_value_range 256 bs ltac:(lia) Hbs).
    assert (1 <= 256 ^ Z.of_nat (length bs)) by (apply (Z.pow_le_mono_r 256 0); lia). nia. }
  assert (Hh : Z.shiftr b 4 = b / 16) by (rewrite Z.shiftr_div_pow2 by lia; done).
  assert (Hl : Z.land b 15 = b mod 16)
    by (change 15 with (Z.ones 4); rewrite Z.land_ones by lia; done).
  pose proof (Z.div_mod b 16 ltac:(lia)). pose proof (Z.mod_pos_bound b 16 ltac:(lia)).
  assert (0 <= b / 16 < 16) by (split; [apply Z.div_pos|apply Z.div_lt_upper_bound]; lia).
  cbn [ngx_hex_dump hextoi_loop].
  rewrite Hh, Hl, !hex_digit_hex by lia. rewrite (sint_nonneg (v * 16 + b / 16)) by lia.
  replace ((v * 16 + b / 16) * 16 + b mod 16) with (v * 256 + b) by lia.
  rewrite sint_nonneg by lia. apply IH; [done|lia|done].
Qed.

(** [ngx_hextoi] reads back the big-endian value of the bytes that
    [ngx_hex_dump] printed, when that value fits [ngx_int_t]. *)
Theorem hex_dump_roundtrip `{Arch} bs :
  bytes_ok bs -> (1 <= length bs)%nat -> num_value 256 bs < 2 ^ (ptr_bits - 1) ->
  length (ngx_hex_dump bs) = (2 * length bs)%nat /\ ngx_hextoi (ngx_hex_dump bs) = num_value 256 bs.
Proof.
  intros Hb Hl Hv. split.
  { clear. induction bs; simpl; lia. }
  unfold ngx_hextoi. rewrite hextoi_loop_dump by (done || lia). unfold nonneg_or_error.
  pose proof (num_value_range 256 bs ltac:(lia) Hb).
  change (fold_left _ bs 0) with (num_value 256 bs).
  destruct bs; [simpl in Hl; lia|]. cbn [ngx_hex_dump]. case_test; lia.
Qed.

Lemma hex_dump_roundtrip_witness :
  length (ngx_hex_dump [127; 255; 1]) = 6%nat
  /\ @ngx_hextoi ilp32 (ngx_hex_dump [127; 255; 1]) = num_value 256 [127; 255; 1].
Proof.
  apply (@hex_dump_roundtrip ilp32);
    [by apply (bool_decide_unpack _)|simpl; lia|reflexivity].
Defined.
