(* ===== verification/NgxBase64.v ===== *)
(** * Base64

    [ngx_encode_base64], [ngx_encode_base64url], [ngx_decode_base64] and
    [ngx_decode_base64url] of src/nginx-1.7.2/src/core/ngx_string.c.  An
    [ngx_str_t] is the list of its [len] bytes. *)

From S2P Require Import Prelude.

Definition basis64_enc : list Z :=
  lit "ABCDEFGHIJKLMNOPQRSTUVWXYZabcdefghijklmnopqrstuvwxyz0123456789+/".
Definition basis64url_enc : list Z :=
  lit "ABCDEFGHIJKLMNOPQRSTUVWXYZabcdefghijklmnopqrstuvwxyz0123456789-_".

Definition basis64_dec : list Z := [
   77; 77; 77; 77; 77; 77; 77; 77; 77; 77; 77; 77; 77; 77; 77; 77;
   77; 77; 77; 77; 77; 77; 77; 77; 77; 77; 77; 77; 77; 77; 77; 77;
   77; 77; 77; 77; 77; 77; 77; 77; 77; 77; 77; 62; 77; 77; 77; 63;
   52; 53; 54; 55; 56; 57; 58; 59; 60; 61; 77; 77; 77; 77; 77; 77;
   77; 0; 1; 2; 3; 4; 5; 6; 7; 8; 9; 10; 11; 12; 13; 14;
   15; 16; 17; 18; 19; 20; 21; 22; 23; 24; 25; 77; 77; 77; 77; 77;
   77; 26; 27; 28; 29; 30; 31; 32; 33; 34; 35; 36; 37; 38; 39; 40;
   41; 42; 43; 44; 45; 46; 47; 48; 49; 50; 51; 77; 77; 77; 77; 77;
   77; 77; 77; 77; 77; 77; 77; 77; 77; 77; 77; 77; 77; 77; 77; 77;
   77; 77; 77; 77; 77; 77; 77; 77; 77; 77; 77; 77; 77; 77; 77; 77;
   77; 77; 77; 77; 77; 77; 77; 77; 77; 77; 77; 77; 77; 77; 77; 77;
   77; 77; 77; 77; 77; 77; 77; 77; 77; 77; 77; 77; 77; 77; 77; 77;
   77; 77; 77; 77; 77; 77; 77; 77; 77; 77; 77; 77; 77; 77; 77; 77;
   77; 77; 77; 77; 77; 77; 77; 77; 77; 77; 77; 77; 77; 77; 77; 77;
   77; 77; 77; 77; 77; 77; 77; 77; 77; 77; 77; 77; 77; 77; 77; 77;
   77; 77; 77; 77; 77; 77; 77; 77; 77; 77; 77; 77; 77; 77; 77; 77].
Definition basis64url_dec : list Z := [
   77; 77; 77; 77; 77; 77; 77; 77; 77; 77; 77; 77; 77; 77; 77; 77;
   77; 77; 77; 77; 77; 77; 77; 77; 77; 77; 77; 77; 77; 77; 77; 77;
   77; 77; 77; 77; 77; 77; 77; 77; 77; 77; 77; 77; 77; 62; 77; 77;
   52; 53; 54; 55; 56; 57; 58; 59; 60; 61; 77; 77; 77; 77; 77; 77;
   77; 0; 1; 2; 3; 4; 5; 6; 7; 8; 9; 10; 11; 12; 13; 14;
   15; 16; 17; 18; 19; 20; 21; 22; 23; 24; 25; 77; 77; 77; 77; 63;
   77; 26; 27; 28; 29; 30; 31; 32; 33; 34; 35; 36; 37; 38; 39; 40;
   41; 42; 43; 44; 45; 46; 47; 48; 49; 50; 51; 77; 77; 77; 77; 77;
   77; 77; 77; 77; 77; 77; 77; 77; 77; 77; 77; 77; 77; 77; 77; 77;
   77; 77; 77; 77; 77; 77; 77; 77; 77; 77; 77; 77; 77; 77; 77; 77;
   77; 77; 77; 77; 77; 77; 77; 77; 77; 77; 77; 77; 77; 77; 77; 77;
   77; 77; 77; 77; 77; 77; 77; 77; 77; 77; 77; 77; 77; 77; 77; 77;
   77; 77; 77; 77; 77; 77; 77; 77; 77; 77; 77; 77; 77; 77; 77; 77;
   77; 77; 77; 77; 77; 77; 77; 77; 77; 77; 77; 77; 77; 77; 77; 77;
   77; 77; 77; 77; 77; 77; 77; 77; 77; 77; 77; 77; 77; 77; 77; 77;
   77; 77; 77; 77; 77; 77; 77; 77; 77; 77; 77; 77; 77; 77; 77; 77].

(** [basis[i]]. *)
Definition at_ (basis : list Z) (i : Z) : Z := nth (Z.to_nat i) basis 0.

(** The bytes written at [dst->data]; [dst->len] is their number. *)
Fixpoint ngx_encode_base64_internal (basis : list Z) (padding : bool) (src : list Z) : list Z :=
  match src with
  | s0 :: s1 :: s2 :: src' =>
      at_ basis (Z.land (Z.shiftr s0 2) 63)
      :: at_ basis (Z.lor (Z.shiftl (Z.land s0 3) 4) (Z.shiftr s1 4))
      :: at_ basis (Z.lor (Z.shiftl (Z.land s1 15) 2) (Z.shiftr s2 6))
      :: at_ basis (Z.land s2 63)
      :: ngx_encode_base64_internal basis padding src'
  | [s0; s1] =>
      at_ basis (Z.land (Z.shiftr s0 2) 63)
      :: at_ basis (Z.lor (Z.shiftl (Z.land s0 3) 4) (Z.shiftr s1 4))
      :: at_ basis (Z.shiftl (Z.land s1 15) 2)
      :: (if padding then [cEQ] else [])
  | [s0] =>
      at_ basis (Z.land (Z.shiftr s0 2) 63)
      :: at_ basis (Z.shiftl (Z.land s0 3) 4)
      :: (if padding then [cEQ] else []) ++ (if padding then [cEQ] else [])
  | [] => []
  end.

Definition ngx_encode_base64 (src : list Z) : list Z :=
  ngx_encode_base64_internal basis64_enc true src.
Definition ngx_encode_base64url (src : list Z) : list Z :=
  ngx_encode_base64_internal basis64url_enc false src.

(** The validation loop: the bytes before the first '=' (its [len] is their
    number), or [None] for [NGX_ERROR]. *)
Fixpoint base64_valid (basis : list Z) (src : list Z) : option (list Z) :=
  match src with
  | [] => Some []
  | c :: src' =>
      if c =? cEQ then Some []
      else if at_ basis c =? 77 then None
      else (fun s => c :: s) <$> base64_valid basis src'
  end.

(** The decoding loop over the valid bytes and the tail after it. *)
Fixpoint base64_groups (basis : list Z) (s : list Z) : list Z :=
  match s with
  | s0 :: s1 :: s2 :: s3 :: s' =>
      uint 8 (Z.lor (Z.shiftl (at_ basis s0) 2) (Z.shiftr (at_ basis s1) 4))
      :: uint 8 (Z.lor (Z.shiftl (at_ basis s1) 4) (Z.shiftr (at_ basis s2) 2))
      :: uint 8 (Z.lor (Z.shiftl (at_ basis s2) 6) (at_ basis s3))
      :: base64_groups basis s'
  | [s0; s1; s2] =>
      [uint 8 (Z.lor (Z.shiftl (at_ basis s0) 2) (Z.shiftr (at_ basis s1) 4));
       uint 8 (Z.lor (Z.shiftl (at_ basis s1) 4) (Z.shiftr (at_ basis s2) 2))]
  | [s0; s1] =>
      [uint 8 (Z.lor (Z.shiftl (at_ basis s0) 2) (Z.shiftr (at_ basis s1) 4))]
  | _ => []
  end.

(** [None] is [NGX_ERROR]. *)
Definition ngx_decode_base64_internal (basis : list Z) (src : list Z) : option (list Z) :=
  s ← base64_valid basis src;
  if (length s mod 4 =? 1)%nat then None else Some (base64_groups basis s).

Definition ngx_decode_base64 (src : list Z) : option (list Z) :=
  ngx_decode_base64_internal basis64_dec src.
Definition ngx_decode_base64url (src : list Z) : option (list Z) :=
  ngx_decode_base64_internal basis64url_dec src.

(** The buffer sizes callers allocate. *)
Definition ngx_base64_encoded_length (len : nat) : nat := ((len + 2) / 3) * 4.
Definition ngx_base64_decoded_length (len : nat) : nat := ((len + 3) / 4) * 3.

(** ** Lemmas *)

Lemma list_ind3 {A} (P : list A -> Prop) :
  P [] -> (forall a, P [a]) -> (forall a b, P [a; b]) ->
  (forall a b c l, P l -> P (a :: b :: c :: l)) -> forall l, P l.
Proof.
  intros H0 H1 H2 H3.
  refine (fix go l := match l with
                      | [] => H0 | [a] => H1 a | [a; b] => H2 a b
                      | a :: b :: c :: l' => H3 a b c l' (go l')
                      end).
Qed.

Lemma list_ind4 {A} (P : list A -> Prop) :
  P [] -> (forall a, P [a]) -> (forall a b, P [a; b]) -> (forall a b c, P [a; b; c]) ->
  (forall a b c d l, P l -> P (a :: b :: c :: d :: l)) -> forall l, P l.
Proof.
  intros H0 H1 H2 H3 H4.
  refine (fix go l := match l with
                      | [] => H0 | [a] => H1 a | [a; b] => H2 a b | [a; b; c] => H3 a b c
                      | a :: b :: c :: d :: l' => H4 a b c d l' (go l')
                      end).
Qed.

(** The 6-bit groups of a byte string, by arithmetic. *)
Fixpoint sextets (src : list Z) : list Z :=
  match src with
  | a :: b :: c :: src' =>
      a / 4 :: (a mod 4 * 16 + b / 16) :: (b mod 16 * 4 + c / 64) :: c mod 64 :: sextets src'
  | [a; b] => [a / 4; a mod 4 * 16 + b / 16; b mod 16 * 4]
  | [a] => [a / 4; a mod 4 * 16]
  | [] => []
  end.

(** The '=' signs after them. *)
Definition base64_pad (padding : bool) (src : list Z) : list Z :=
  if padding then
    match (length src mod 3)%nat with 1%nat => [cEQ; cEQ] | 2%nat => [cEQ] | _ => [] end
  else [].

Lemma hi6 a : byte_ok a -> Z.land (Z.shiftr a 2) 63 = a / 4.
Proof.
  intros Ha. change 63 with (2 ^ 6 - 1). rewrite land_low, Z.shiftr_div_pow2 by lia.
  change (2 ^ 2) with 4. change (2 ^ 6) with 64. unfold byte_ok in Ha.
  apply Z.mod_small. split; [apply Z.div_pos; lia|apply Z.div_lt_upper_bound; lia].
Qed.

Lemma mid4 a b : byte_ok b ->
  Z.lor (Z.shiftl (Z.land a 3) 4) (Z.shiftr b 4) = a mod 4 * 16 + b / 16.
Proof.
  intros Hb. unfold byte_ok in Hb. change 3 with (2 ^ 2 - 1).
  rewrite land_low, Z.shiftr_div_pow2 by lia.
  rewrite lor_disjoint; [done|lia|]. change (2 ^ 4) with 16.
  split; [apply Z.div_pos; lia|apply Z.div_lt_upper_bound; lia].
Qed.

Lemma mid2 b c : byte_ok c ->
  Z.lor (Z.shiftl (Z.land b 15) 2) (Z.shiftr c 6) = b mod 16 * 4 + c / 64.
Proof.
  intros Hc. unfold byte_ok in Hc. change 15 with (2 ^ 4 - 1).
  rewrite land_low, Z.shiftr_div_pow2 by lia.
  rewrite lor_disjoint; [done|lia|]. change (2 ^ 6) with 64. change (2 ^ 2) with 4.
  split; [apply Z.div_pos; lia|apply Z.div_lt_upper_bound; lia].
Qed.

Lemma lo6 c : Z.land c 63 = c mod 64.
Proof. change 63 with (2 ^ 6 - 1). by rewrite land_low. Qed.

Lemma end4 a : Z.shiftl (Z.land a 3) 4 = a mod 4 * 16.
Proof. change 3 with (2 ^ 2 - 1). by rewrite land_low, Z.shiftl_mul_pow2. Qed.

Lemma end2 b : Z.shiftl (Z.land b 15) 2 = b mod 16 * 4.
Proof. change 15 with (2 ^ 4 - 1). by rewrite land_low, Z.shiftl_mul_pow2. Qed.

(** The three decoded bytes from 6-bit values, by arithmetic. *)
Lemma join2 u v : 0 <= v < 64 ->
  uint 8 (Z.lor (Z.shiftl u 2) (Z.shiftr v 4)) = (u * 4 + v / 16) mod 256.
Proof.
  intros Hv. rewrite Z.shiftr_div_pow2, lor_disjoint; try done.
  split; [apply Z.div_pos; lia|apply Z.div_lt_upper_bound; lia].
Qed.

Lemma join4 u v : 0 <= v < 64 ->
  uint 8 (Z.lor (Z.shiftl u 4) (Z.shiftr v 2)) = (u * 16 + v / 4) mod 256.
Proof.
  intros Hv. rewrite Z.shiftr_div_pow2, lor_disjoint; try done.
  split; [apply Z.div_pos; lia|apply Z.div_lt_upper_bound; lia].
Qed.

Lemma join6 u v : 0 <= v < 64 -> uint 8 (Z.lor (Z.shiftl u 6) v) = (u * 64 + v) mod 256.
Proof. intros Hv. by rewrite lor_disjoint. Qed.

Ltac divmod_lia := Z.div_mod_to_equations; lia.

Lemma sextets_range src : bytes_ok src -> Forall (fun v => 0 <= v < 64) (sextets src).
Proof.
  induction src as [|a|a b|a b c l IH] using list_ind3; intros H; simpl;
    rewrite ?bytes_ok_cons in H; repeat (apply Forall_cons; split); try apply Forall_nil;
    unfold byte_ok in H; try divmod_lia; try done.
  apply IH. tauto.
Qed.

Section Codec.
Context (enc dec : list Z) (padding : bool).
Context (Henc : forall v, 0 <= v < 64 -> at_ dec (at_ enc v) = v /\ at_ enc v <> cEQ).

Lemma encode_sextets src :
  bytes_ok src ->
  ngx_encode_base64_internal enc padding src = map (at_ enc) (sextets src) ++ base64_pad padding src.
Proof.
  induction src as [|a|a b|a b c l IH] using list_ind3; intros H; rewrite ?bytes_ok_cons in H.
  - by destruct padding.
  - cbn [ngx_encode_base64_internal sextets map app]. rewrite hi6, end4 by tauto. by destruct padding.
  - cbn [ngx_encode_base64_internal sextets map app].
    rewrite hi6, mid4, end2 by tauto. by destruct padding.
  - cbn [ngx_encode_base64_internal sextets map app].
    rewrite hi6, mid4, mid2, lo6, IH by tauto. do 5 f_equal.
    unfold base64_pad. cbn [length]. replace (S (S (S (length l)))) with (length l + 1 * 3)%nat by lia.
    by rewrite Nat.Div0.mod_add.
Qed.

Lemma valid_sextets vs rest :
  Forall (fun v => 0 <= v < 64) vs -> rest = [] \/ head rest = Some cEQ ->
  base64_valid dec (map (at_ enc) vs ++ rest) = Some (map (at_ enc) vs).
Proof.
  intros Hv Hr. induction Hv as [|v vs Hv _ IH]; simpl.
  - destruct rest as [|c rest]; [done|]. destruct Hr as [?|[= ->]]; done.
  - destruct (Henc v Hv) as [E Hne].
    rewrite (proj2 (Z.eqb_neq _ _)) by lia. rewrite E, (proj2 (Z.eqb_neq _ _)) by lia.
    by rewrite IH.
Qed.

Lemma groups_sextets src :
  bytes_ok src -> base64_groups dec (map (at_ enc) (sextets src)) = src.
Proof.
  induction src as [|a|a b|a b c l IH] using list_ind3; intros H; rewrite ?bytes_ok_cons in H;
    [done|..]; cbn [sextets map base64_groups]; unfold byte_ok in H;
    rewrite ?(proj1 (Henc (a / 4) ltac:(divmod_lia))).
  - rewrite (proj1 (Henc (a mod 4 * 16) ltac:(divmod_lia))), join2 by divmod_lia.
    f_equal. divmod_lia.
  - rewrite (proj1 (Henc (a mod 4 * 16 + b / 16) ltac:(divmod_lia))).
    rewrite (proj1 (Henc (b mod 16 * 4) ltac:(divmod_lia))), join2, join4 by divmod_lia.
    f_equal; [|f_equal]; divmod_lia.
  - rewrite (proj1 (Henc (a mod 4 * 16 + b / 16) ltac:(divmod_lia))).
    rewrite (proj1 (Henc (b mod 16 * 4 + c / 64) ltac:(divmod_lia))).
    rewrite (proj1 (Henc (c mod 64) ltac:(divmod_lia))), join2, join4, join6 by divmod_lia.
    rewrite IH by tauto. f_equal; [|f_equal; [|f_equal]]; divmod_lia.
Qed.

Lemma sextets_length src : (length (sextets src) mod 4 =? 1)%nat = false.
Proof.
  induction src as [|a|a b|a b c l IH] using list_ind3; [done..|].
  cbn [sextets length]. replace (S (S (S (S (length (sextets l)))))) with
    (length (sextets l) + 1 * 4)%nat by lia. by rewrite Nat.Div0.mod_add.
Qed.

Lemma base64_pad_head src : base64_pad padding src = [] \/ head (base64_pad padding src) = Some cEQ.
Proof.
  unfold base64_pad. destruct padding; [|by left].
  destruct (length src mod 3)%nat as [|[|[|]]]; auto.
Qed.

Lemma codec_roundtrip src :
  bytes_ok src ->
  ngx_decode_base64_internal dec (ngx_encode_base64_internal enc padding src) = Some src.
Proof.
  intros H. unfold ngx_decode_base64_internal. rewrite encode_sextets by done.
  rewrite valid_sextets by (eauto using sextets_range, base64_pad_head).
  cbn [mbind option_bind]. rewrite length_map, sextets_length. by rewrite groups_sextets.
Qed.
End Codec.

(** The decoding tables invert the encoding alphabets. *)
Lemma table_inverse enc dec :
  forallb (fun v => (at_ dec (at_ enc (Z.land v 63)) =? Z.land v 63) && negb (at_ enc (Z.land v 63) =? cEQ))
    (map Z.of_nat (seq 0 256)) = true ->
  forall v, 0 <= v < 64 -> at_ dec (at_ enc v) = v /\ at_ enc v <> cEQ.
Proof.
  intros Ht v Hv. assert (Hb : byte_ok v) by byte_lia.
  pose proof (byte_forall _ Ht v Hb) as E. cbv beta in E.
  rewrite lo6, Z.mod_small in E by lia. lia.
Qed.

Lemma basis64_inverse v : 0 <= v < 64 -> at_ basis64_dec (at_ basis64_enc v) = v /\ at_ basis64_enc v <> cEQ.
Proof. revert v. apply table_inverse. vm_compute. reflexivity. Qed.

Lemma basis64url_inverse v :
  0 <= v < 64 -> at_ basis64url_dec (at_ basis64url_enc v) = v /\ at_ basis64url_enc v <> cEQ.
Proof. revert v. apply table_inverse. vm_compute. reflexivity. Qed.

(** ** Theorems *)

(** [ngx_decode_base64] accepts what [ngx_encode_base64] writes, padding
    included, and returns the original bytes. *)
Theorem base64_roundtrip src : bytes_ok src -> ngx_decode_base64 (ngx_encode_base64 src) = Some src.
Proof. apply codec_roundtrip, basis64_inverse. Qed.

Lemma base64_roundtrip_witness :
  ngx_decode_base64 (ngx_encode_base64 [0; 255; 62; 63]) = Some [0; 255; 62; 63].
Proof. apply base64_roundtrip. by apply (bool_decide_unpack _). Defined.

(** The same for the URL alphabet, which writes no padding. *)
Theorem base64url_roundtrip src :
  bytes_ok src -> ngx_decode_base64url (ngx_encode_base64url src) = Some src.
Proof. apply codec_roundtrip, basis64url_inverse. Qed.

Lemma base64url_roundtrip_witness :
  ngx_decode_base64url (ngx_encode_base64url [251; 240]) = Some [251; 240].
Proof. apply base64url_roundtrip. by apply (bool_decide_unpack _). Defined.

#[export] Instance base64_codec : RoundTrip bytes_ok ngx_encode_base64 ngx_decode_base64.
Proof. intros src. apply codec_roundtrip, basis64_inverse. Qed.

#[export] Instance base64url_codec : RoundTrip bytes_ok ngx_encode_base64url ngx_decode_base64url.
Proof. intros src. apply codec_roundtrip, basis64url_inverse. Qed.

Lemma encode_length basis padding src :
  (length (ngx_encode_base64_internal basis padding src) <= ngx_base64_encoded_length (length src))%nat
  /\ (padding = true ->
      length (ngx_encode_base64_internal basis padding src) = ngx_base64_encoded_length (length src)).
Proof.
  unfold ngx_base64_encoded_length.
  induction src as [|a|a b|a b c l IH] using list_ind3; [destruct padding; simpl; lia..|].
  cbn [ngx_encode_base64_internal length].
  replace (S (S (S (length l))) + 2)%nat with (length l + 2 + 1 * 3)%nat by lia.
  rewrite Nat.div_add by lia. destruct IH as [I1 I2]. split; [lia|intros Hp; rewrite (I2 Hp); lia].
Qed.

Lemma groups_length basis s :
  (length (base64_groups basis s) <= ngx_base64_decoded_length (length s))%nat.
Proof.
  unfold ngx_base64_decoded_length.
  induction s as [|a|a b|a b c|a b c d l IH] using list_ind4; [simpl; lia..|].
  cbn [base64_groups length].
  replace (S (S (S (S (length l)))) + 3)%nat with (length l + 3 + 1 * 4)%nat by lia.
  rewrite Nat.div_add by lia. lia.
Qed.

Lemma valid_length basis src s : base64_valid basis src = Some s -> (length s <= length src)%nat.
Proof.
  revert s. induction src as [|c src IH]; intros s H; simpl in H; [by simplify_eq|].
  repeat case_test_in H; simplify_eq; simpl; [lia|].
  destruct (base64_valid basis src); simplify_eq/=. specialize (IH _ eq_refl). lia.
Qed.

(** The sizes callers allocate are enough: encoding writes at most (and, with
    padding, exactly) [ngx_base64_encoded_length] bytes and decoding at most
    [ngx_base64_decoded_length], whatever the input. *)
Theorem base64_buffer_sizes src dst :
  length (ngx_encode_base64 src) = ngx_base64_encoded_length (length src)
  /\ (length (ngx_encode_base64url src) <= ngx_base64_encoded_length (length src))%nat
  /\ (ngx_decode_base64 src = Some dst ->
      (length dst <= ngx_base64_decoded_length (length src))%nat)
  /\ (ngx_decode_base64url src = Some dst ->
      (length dst <= ngx_base64_decoded_length (length src))%nat).
Proof.
  assert (D : forall basis, ngx_decode_base64_internal basis src = Some dst ->
    (length dst <= ngx_base64_decoded_length (length src))%nat).
  { intros basis. unfold ngx_decode_base64_internal.
    destruct (base64_valid basis src) as [s|] eqn:E; [|done]. cbn [mbind option_bind].
    case_test; [done|]. intros [= <-]. apply valid_length in E.
    etrans; [apply groups_length|]. unfold ngx_base64_decoded_length.
    apply Nat.mul_le_mono_r, Nat.Div0.div_le_mono. lia. }
  split; [by apply encode_length|]. split; [apply encode_length|]. split; apply D.
Qed.
