(* ===== verification/NgxEscape.v ===== *)
(** * URI and HTML escaping

    [ngx_escape_uri], [ngx_unescape_uri] and [ngx_escape_html] of
    src/nginx-1.7.2/src/core/ngx_string.c. *)

From S2P Require Import Prelude NgxNumber.

(** ** Escaping *)

Definition NGX_ESCAPE_URI : nat := 0.
Definition NGX_ESCAPE_ARGS : nat := 1.
Definition NGX_ESCAPE_URI_COMPONENT : nat := 2.
Definition NGX_ESCAPE_HTML : nat := 3.
Definition NGX_ESCAPE_REFRESH : nat := 4.
Definition NGX_ESCAPE_MEMCACHED : nat := 5.
Definition NGX_ESCAPE_MAIL_AUTH : nat := 6.

Abbreviation ones32 := 0xffffffff (only parsing).

Definition esc_uri : list Z :=
  [ones32; 0x80000029; 0; 0x80000000; ones32; ones32; ones32; ones32].
Definition esc_args : list Z :=
  [ones32; 0x88000869; 0; 0x80000000; ones32; ones32; ones32; ones32].
Definition esc_uri_component : list Z :=
  [ones32; 0xfc009fff; 0x78000001; 0xb8000001; ones32; ones32; ones32; ones32].
Definition esc_html : list Z :=
  [ones32; 0x000000ad; 0; 0x80000000; ones32; ones32; ones32; ones32].
Definition esc_refresh : list Z :=
  [ones32; 0x00000085; 0; 0x80000000; ones32; ones32; ones32; ones32].
Definition esc_memcached : list Z := [ones32; 0x00000021; 0; 0; 0; 0; 0; 0].

Definition esc_map : list (list Z) :=
  [esc_uri; esc_args; esc_uri_component; esc_html; esc_refresh; esc_memcached; esc_memcached].

(** [dst == NULL]: the number of bytes to be escaped. *)
Fixpoint escape_count (escape : list Z) (src : list Z) (n : nat) : nat :=
  match src with
  | [] => n
  | c :: src' => escape_count escape src' (if bit_set escape c then S n else n)
  end.

(** [dst != NULL]: the bytes written. *)
Fixpoint escape_write (escape : list Z) (src : list Z) : list Z :=
  match src with
  | [] => []
  | c :: src' =>
      if bit_set escape c then
        cPERCENT :: hex (Z.shiftr c 4) :: hex (Z.land c 15) :: escape_write escape src'
      else c :: escape_write escape src'
  end.

(** The two modes of [ngx_escape_uri]. *)
Definition ngx_escape_uri_count (src : list Z) (type : nat) : nat :=
  escape_count (nth type esc_map []) src 0.
Definition ngx_escape_uri (src : list Z) (type : nat) : list Z :=
  escape_write (nth type esc_map []) src.

(** ** Unescaping *)

Inductive unescape_state := sw_usual | sw_quoted | sw_quoted_second.

Abbreviation NGX_UNESCAPE_URI := 1 (only parsing).
Abbreviation NGX_UNESCAPE_REDIRECT := 2 (only parsing).

Definition flag (type mask : Z) : bool := negb (Z.land type mask =? 0).

(** The outcome of the switch on one byte: the bytes written and the locals
    [state] and [decoded] after a [break], or the bytes written before
    [goto done]. *)
Inductive unescaped :=
  | Go (out : list Z) (state : unescape_state) (decoded : Z)
  | Stop (out : list Z).

(** [prev] is [*(s - 2)]. *)
Definition unescape_byte (type : Z) (state : unescape_state) (decoded prev ch : Z) : unescaped :=
  match state with
  | sw_usual =>
      if (ch =? cQM) && flag type (Z.lor NGX_UNESCAPE_URI NGX_UNESCAPE_REDIRECT) then Stop [ch]
      else if ch =? cPERCENT then Go [] sw_quoted decoded
      else Go [ch] sw_usual decoded
  | sw_quoted =>
      if c_0 <=? ch <=? c_9 then Go [] sw_quoted_second (uint 8 (ch - c_0))
      else
        let c := uint 8 (Z.lor ch 32) in
        if ca <=? c <=? cf then Go [] sw_quoted_second (uint 8 (c - ca + 10))
        else Go [ch] sw_usual decoded
  | sw_quoted_second =>
      if c_0 <=? ch <=? c_9 then
        let v := uint 8 (Z.shiftl decoded 4 + ch - c_0) in
        if flag type NGX_UNESCAPE_REDIRECT then
          if (cPERCENT <? v) && (v <? 127) then Go [v] sw_usual decoded
          else Go [cPERCENT; prev; ch] sw_usual decoded
        else Go [v] sw_usual decoded
      else
        let c := uint 8 (Z.lor ch 32) in
        if ca <=? c <=? cf then
          let v := uint 8 (Z.shiftl decoded 4 + c - ca + 10) in
          if flag type NGX_UNESCAPE_URI then
            if v =? cQM then Stop [v] else Go [v] sw_usual decoded
          else if flag type NGX_UNESCAPE_REDIRECT then
            if v =? cQM then Stop [v]
            else if (cPERCENT <? v) && (v <? 127) then Go [v] sw_usual decoded
            else Go [cPERCENT; prev; ch] sw_usual decoded
          else Go [v] sw_usual decoded
        else Go [] sw_usual decoded
  end.

(** The loop: the bytes written at [*dst] and what is left at [*src]. *)
Fixpoint unescape_loop (type : Z) (state : unescape_state) (decoded prev : Z) (s : list Z) :
    list Z * list Z :=
  match s with
  | [] => ([], [])
  | ch :: s' =>
      match unescape_byte type state decoded prev ch with
      | Go out state decoded =>
          let '(d, rest) := unescape_loop type state decoded ch s' in (out ++ d, rest)
      | Stop out => (out, s')
      end
  end.

Definition ngx_unescape_uri (src : list Z) (type : Z) : list Z * list Z :=
  unescape_loop type sw_usual 0 0 src.

(** ** HTML *)

Fixpoint escape_html_len (src : list Z) (len : nat) : nat :=
  match src with
  | [] => len
  | ch :: src' =>
      escape_html_len src'
        (if ch =? cLT then (len + (5 - 2))%nat
         else if ch =? cGT then (len + (5 - 2))%nat
         else if ch =? cAMP then (len + (6 - 2))%nat
         else if ch =? cQUOT then (len + (7 - 2))%nat
         else len)
  end.

Fixpoint escape_html_write (src : list Z) : list Z :=
  match src with
  | [] => []
  | ch :: src' =>
      (if ch =? cLT then lit "&lt;"
       else if ch =? cGT then lit "&gt;"
       else if ch =? cAMP then lit "&amp;"
       else if ch =? cQUOT then lit "&quot;"
       else [ch]) ++ escape_html_write src'
  end.

(** The two modes of [ngx_escape_html]: with [dst == NULL] the number of extra
    bytes, else the bytes written. *)
Definition ngx_escape_html_len (src : list Z) : nat := escape_html_len src 0.
Definition ngx_escape_html (src : list Z) : list Z := escape_html_write src.

(** ** Lemmas *)

Lemma escape_count_acc escape src n : escape_count escape src n = (n + escape_count escape src 0)%nat.
Proof.
  revert n. induction src as [|c src IH]; intros n; simpl; [lia|].
  rewrite IH, (IH (if bit_set escape c then 1 else 0)%nat). case_test; lia.
Qed.

Lemma escape_write_length escape src :
  length (escape_write escape src) = (length src + 2 * escape_count escape src 0)%nat.
Proof.
  induction src as [|c src IH]; simpl; [done|].
  rewrite escape_count_acc. case_test; simpl; lia.
Qed.

(** A hexadecimal digit after '%', and the second one after it. *)
Lemma unescape_first ch v type d p :
  byte_ok ch -> hex_digit ch = Some v ->
  unescape_byte type sw_quoted d p ch = Go [] sw_quoted_second v /\ 0 <= v < 16.
Proof.
  intros Hc Hh. unfold hex_digit in Hh. unfold byte_ok in Hc. cbn [unescape_byte].
  repeat case_test_in Hh; simplify_eq; (split; [|lia]); repeat f_equal;
    apply uint_small; change (2 ^ 8) with 256; lia.
Qed.

Lemma unescape_second ch v d p :
  byte_ok ch -> hex_digit ch = Some v -> 0 <= d < 16 ->
  unescape_byte 0 sw_quoted_second d p ch = Go [d * 16 + v] sw_usual d.
Proof.
  intros Hc Hh Hd. unfold hex_digit in Hh. unfold byte_ok in Hc. cbn [unescape_byte].
  set (c := uint 8 (Z.lor ch 32)) in *. clearbody c.
  repeat case_test_in Hh; simplify_eq;
    rewrite ?(eq_refl : flag 0 1 = false), ?(eq_refl : flag 0 2 = false);
    rewrite Z.shiftl_mul_pow2 by lia; change (2 ^ 4) with 16;
    rewrite uint_small by (change (2 ^ 8) with 256; lia); do 2 f_equal; lia.
Qed.

Lemma hex_byte d : 0 <= d < 16 -> byte_ok (hex d).
Proof.
  intros Hd. unfold hex. eval_lit.
  assert (Hn : (Z.to_nat d < 16)%nat) by lia. revert Hn. generalize (Z.to_nat d) as n.
  intros n Hn. do 16 (destruct n as [|n]; [simpl; byte_lia|]). lia.
Qed.

Lemma nibbles b : byte_ok b ->
  0 <= Z.shiftr b 4 < 16 /\ 0 <= Z.land b 15 < 16 /\ Z.shiftr b 4 * 16 + Z.land b 15 = b.
Proof.
  intros Hb. unfold byte_ok in Hb. change 15 with (2 ^ 4 - 1).
  rewrite land_low, Z.shiftr_div_pow2 by lia. change (2 ^ 4) with 16.
  Z.div_mod_to_equations. lia.
Qed.

(** The three bytes an escaped byte became decode to it. *)
Lemma unescape_escaped b d p rest :
  byte_ok b ->
  unescape_loop 0 sw_usual d p (cPERCENT :: hex (Z.shiftr b 4) :: hex (Z.land b 15) :: rest) =
    let '(o, r) := unescape_loop 0 sw_usual (Z.shiftr b 4) (hex (Z.land b 15)) rest in (b :: o, r).
Proof.
  intros Hb. destruct (nibbles b Hb) as (H1 & H2 & H3).
  destruct (unescape_first _ _ 0 d cPERCENT (hex_byte _ H1) (hex_digit_hex _ H1)) as [E1 _].
  pose proof (unescape_second _ _ _ (hex (Z.shiftr b 4)) (hex_byte _ H2) (hex_digit_hex _ H2) H1) as E2.
  cbn [unescape_loop]. change (unescape_byte 0 sw_usual d p 37) with (Go [] sw_quoted d).
  cbv iota beta. rewrite E1. cbv iota beta. rewrite E2, H3.
  by destruct (unescape_loop _ _ _ _ rest).
Qed.

Lemma unescape_escape_write escape src d p :
  bit_set escape cPERCENT = true -> bytes_ok src ->
  unescape_loop 0 sw_usual d p (escape_write escape src) = (src, []).
Proof.
  intros He. revert d p. induction src as [|b src IH]; intros d p Hs; [done|].
  rewrite bytes_ok_cons in Hs. destruct Hs as [Hb Hs]. cbn [escape_write].
  destruct (bit_set escape b) eqn:Eb.
  - rewrite unescape_escaped by done. by rewrite IH.
  - assert (b <> cPERCENT) by congruence. cbn [unescape_loop unescape_byte].
    rewrite andb_false_r, (proj2 (Z.eqb_neq b 37)) by done. cbv iota beta. by rewrite IH.
Qed.

(** ** Theorems *)

(** Unescaping what [ngx_escape_uri] wrote gives the source back, for every
    escape type except [NGX_ESCAPE_REFRESH], and consumes all of it. *)
Theorem escape_uri_roundtrip src type :
  bytes_ok src -> (type <= 6)%nat -> type <> NGX_ESCAPE_REFRESH ->
  ngx_unescape_uri (ngx_escape_uri src type) 0 = (src, []).
Proof.
  intros Hs Ht Hr. apply unescape_escape_write; [|done]. unfold NGX_ESCAPE_REFRESH in Hr.
  do 7 (destruct type as [|type]; [done || reflexivity|]). lia.
Qed.

Lemma escape_uri_roundtrip_witness :
  ngx_unescape_uri (ngx_escape_uri (lit "/a b%?") NGX_ESCAPE_ARGS) 0 = (lit "/a b%?", []).
Proof.
  apply escape_uri_roundtrip; [by apply (bool_decide_unpack _)|unfold NGX_ESCAPE_ARGS; lia|done].
Defined.

(** The refresh table leaves "%" alone, against the comment above it that
    lists "%": its output is ambiguous and does not decode to the source. *)
Theorem escape_refresh_percent :
  ngx_escape_uri (lit "%41") NGX_ESCAPE_REFRESH = lit "%41"
  /\ ngx_unescape_uri (ngx_escape_uri (lit "%41") NGX_ESCAPE_REFRESH) 0 = (lit "A", []).
Proof. split; vm_compute; reflexivity. Qed.

(** The counting mode of [ngx_escape_uri] is exact: the writing mode needs
    two more bytes than the source for each byte counted. *)
Theorem escape_uri_size src type :
  length (ngx_escape_uri src type) = (length src + 2 * ngx_escape_uri_count src type)%nat.
Proof. apply escape_write_length. Qed.

(** With [NGX_ESCAPE_URI_COMPONENT] the output has only the unreserved
    characters of RFC 3986 and "%". *)
Theorem escape_uri_component_unreserved src :
  bytes_ok src ->
  Forall (fun c => c_0 <= c <= c_9 \/ cA <= c <= cZ \/ ca <= c <= cz
                   \/ c = cMINUS \/ c = cDOT \/ c = cUNDER \/ c = cTILDE \/ c = cPERCENT)
    (ngx_escape_uri src NGX_ESCAPE_URI_COMPONENT).
Proof.
  intros Hs. unfold ngx_escape_uri. simpl nth.
  assert (Hx : forall d, 0 <= d < 16 -> c_0 <= hex d <= c_9 \/ ca <= hex d <= cz).
  { intros d Hd. unfold hex. eval_lit. assert (Hn : (Z.to_nat d < 16)%nat) by lia.
    revert Hn. generalize (Z.to_nat d) as n. intros n Hn.
    do 16 (destruct n as [|n]; [simpl; lia|]). lia. }
  assert (Hu : forall b, byte_ok b -> bit_set esc_uri_component b ||
    ((c_0 <=? b <=? c_9) || (cA <=? b <=? cZ) || (ca <=? b <=? cz) || (b =? cMINUS)
     || (b =? cDOT) || (b =? cUNDER) || (b =? cTILDE)) = true)
    by (apply byte_forall; vm_compute; reflexivity).
  induction Hs as [|b src Hb _ IH]; simpl; [constructor|]. specialize (Hu b Hb).
  destruct (nibbles b Hb) as (H1 & H2 & _). apply Hx in H1, H2.
  case_test; repeat (apply Forall_cons; split); try done; lia.
Qed.

Lemma escape_uri_component_unreserved_witness :
  Forall (fun c => c_0 <= c <= c_9 \/ cA <= c <= cZ \/ ca <= c <= cz
                   \/ c = cMINUS \/ c = cDOT \/ c = cUNDER \/ c = cTILDE \/ c = cPERCENT)
    (ngx_escape_uri [0; 255; 47; 97] NGX_ESCAPE_URI_COMPONENT).
Proof. apply escape_uri_component_unreserved. by apply (bool_decide_unpack _). Defined.

(** What one byte adds to the output, against the bytes consumed since the last
    output: [pending] is 0, 1 or 2 by the state. *)
Definition pending (st : unescape_state) : nat :=
  match st with sw_usual => 0 | sw_quoted => 1 | sw_quoted_second => 2 end.

Lemma unescape_byte_shrinks type st d p ch :
  match unescape_byte type st d p ch with
  | Go out st' _ => (length out + pending st' <= S (pending st))%nat
  | Stop out => (length out <= S (pending st))%nat
  end.
Proof. destruct st; cbn [unescape_byte]; repeat case_test; simpl; lia. Qed.

(** At every point [ngx_unescape_uri] has written no more bytes than it has
    read, so decoding in place is safe; what it wrote and what it left of the
    source together are no longer than the source. *)
Theorem unescape_uri_in_place src type :
  let '(out, rest) := ngx_unescape_uri src type in
  (length out + length rest <= length src)%nat /\ exists done_, src = done_ ++ rest.
Proof.
  unfold ngx_unescape_uri.
  assert (G : forall s st d p, let '(out, rest) := unescape_loop type st d p s in
    (length out + length rest <= length s + pending st)%nat /\ exists x, s = x ++ rest).
  { induction s as [|ch s IH]; intros st d p; cbn [unescape_loop].
    { split; [simpl; lia|by exists []]. }
    pose proof (unescape_byte_shrinks type st d p ch) as Hb.
    destruct (unescape_byte type st d p ch) as [out st' d'|out].
    - specialize (IH st' d' ch). destruct (unescape_loop type st' d' ch s) as [o r].
      destruct IH as [IH [x ->]]. split; [|by exists (ch :: x)].
      rewrite length_app. simpl in *. lia.
    - split; [simpl in *; lia|by exists [ch]]. }
  specialize (G src sw_usual 0 0). destruct (unescape_loop _ _ _ _ src).
  simpl in G. rewrite Nat.add_0_r in G. done.
Qed.

(** The length mode of [ngx_escape_html] is exact, and the output has none of
    the characters that open a tag, close one or end a quoted attribute. *)
Theorem escape_html_safe src :
  length (ngx_escape_html src) = (length src + ngx_escape_html_len src)%nat
  /\ Forall (fun c => c <> cLT /\ c <> cGT /\ c <> cQUOT) (ngx_escape_html src).
Proof.
  unfold ngx_escape_html, ngx_escape_html_len.
  assert (A : forall src n, escape_html_len src n = (n + escape_html_len src 0)%nat).
  { clear. induction src as [|c src IH]; intros n; cbn [escape_html_len]; [lia|].
    rewrite IH. symmetry. rewrite IH. repeat case_test; lia. }
  induction src as [|c src [IH1 IH2]]; cbn [escape_html_write escape_html_len]; [done|].
  rewrite A, length_app, IH1, Forall_app. repeat case_test; simpl length; eval_lit;
    (split; [lia|split; [|done]]); repeat (apply Forall_cons; split); try apply Forall_nil; lia.
Qed.
