(* ===== verification/NgxUtf8.v ===== *)
(** * UTF-8

    [ngx_utf8_decode], [ngx_utf8_length] and [ngx_utf8_cpystrn] of
    src/nginx-1.7.2/src/core/ngx_string.c.  A pointer is the list of bytes from
    it to the end of the object; a read past that end is [None]. *)

From S2P Require Import Prelude.

Section Utf8.
Context `{Arch}.

(** [while (len)]: the value and the number of bytes read; [inl] is the
  [return 0xffffffff] on a byte below 0x80. *)
Fixpoint utf8_tail (len : nat) (p : list Z) (u : Z) (n : nat) : option (nat + Z * nat) :=
match len with
| O => Some (inr (u, n))
| S len' =>
    match p with
    | [] => None
    | i :: p' =>
        if i <? 128 then Some (inl (S n))
        else utf8_tail len' p' (uint 32 (Z.lor (Z.shiftl u 6) (Z.land i 63))) (S n)
    end
end.

(** The code and the number of bytes [*p] was advanced by. *)
Definition ngx_utf8_decode (p : list Z) (n : Z) : option (Z * nat) :=
match p with
| [] => None
| u :: p' =>
    let lead :=
      if 0xf0 <=? u then Some (Z.land u 7, 0xffff, 3%nat)
      else if 0xe0 <=? u then Some (Z.land u 15, 0x7ff, 2%nat)
      else if 0xc2 <=? u then Some (Z.land u 31, 0x7f, 1%nat)
      else None in
    match lead with
    | None => Some (0xffffffff, 1%nat)
    | Some (u, valid, len) =>
        if uint ptr_bits (n - 1) <? Z.of_nat len then Some (0xfffffffe, 0%nat)
        else
          r ← utf8_tail len p' u 1;
          match r with
          | inl adv => Some (0xffffffff, adv)
          | inr (u, adv) => Some (if valid <? u then u else 0xffffffff, adv)
          end
    end
end.

(** The loop of [ngx_utf8_length]: [left] is [last - p] (negative once [p] is past
  [last]) and [n] the argument.  Every iteration that goes on advances [p]. *)
Fixpoint utf8_length_loop (fuel : nat) (p : list Z) (left n len : Z) : option Z :=
if left <=? 0 then Some len
else
  match fuel with
  | O => None
  | S fuel' =>
      match p with
      | [] => None
      | c :: p' =>
          if c <? 128 then utf8_length_loop fuel' p' (left - 1) n (len + 1)
          else
            '(code, adv) ← ngx_utf8_decode p n;
            if 0x10ffff <? code then Some n
            else utf8_length_loop fuel' (drop adv p) (left - Z.of_nat adv) n (len + 1)
      end
  end.

Definition ngx_utf8_length (p : list Z) (n : Z) : option Z :=
utf8_length_loop (Z.to_nat n) p n n 0.

(** The loop of [ngx_utf8_cpystrn] with [n] characters of room besides the
  terminator: the bytes written at [dst], the terminator included. *)
Fixpoint utf8_cpystrn_loop (n : nat) (src : list Z) (len : Z) : option (list Z) :=
match n with
| O => Some [0]
| S n' =>
    match src with
    | [] => None
    | c :: src' =>
        if c <? 128 then
          if negb (c =? 0) then
            (fun d => c :: d) <$> utf8_cpystrn_loop n' src' (uint ptr_bits (len - 1))
          else Some [0]
        else
          '(code, adv) ← ngx_utf8_decode src len;
          if 0x10ffff <? code then Some [0]
          else
            (fun d => take adv src ++ d) <$>
              utf8_cpystrn_loop n' (drop adv src) (uint ptr_bits (len - Z.of_nat adv))
    end
end.

(** The bytes written at [dst] and the offset of the returned pointer. *)
Definition ngx_utf8_cpystrn (src : list Z) (n : nat) (len : Z) : option (list Z * nat) :=
match n with
| O => Some ([], 0%nat)
| S n' => (fun d => (d, pred (length d))) <$> utf8_cpystrn_loop n' src len
end.

End Utf8.

(** ** Specification *)

(** The UTF-8 encoding of a code point (RFC 3629). *)
Definition utf8_encode (cp : Z) : list Z :=
  if cp <? 0x80 then [cp]
  else if cp <? 0x800 then [0xc0 + cp / 64; 0x80 + cp mod 64]
  else if cp <? 0x10000 then [0xe0 + cp / 4096; 0x80 + cp / 64 mod 64; 0x80 + cp mod 64]
  else [0xf0 + cp / 262144; 0x80 + cp / 4096 mod 64; 0x80 + cp / 64 mod 64; 0x80 + cp mod 64].

Definition code_point (cp : Z) : Prop := 0 <= cp <= 0x10ffff.

Definition utf8_text (cps : list Z) : list Z := concat (map utf8_encode cps).

(** ** Lemmas *)

(** Prove [cmp a b = true/false] and continue: one step through the tests. *)
Ltac decide_ltb :=
  match goal with
  | |- context [?a <? ?b] =>
      first [rewrite (proj2 (Z.ltb_lt a b)) by (Z.div_mod_to_equations; lia)
            |rewrite (proj2 (Z.ltb_ge a b)) by (Z.div_mod_to_equations; lia)]
  | |- context [?a <=? ?b] =>
      first [rewrite (proj2 (Z.leb_le a b)) by (Z.div_mod_to_equations; lia)
            |rewrite (proj2 (Z.leb_gt a b)) by (Z.div_mod_to_equations; lia)]
  end.

Lemma utf8_tail_step len p u v n :
  0 <= v < 64 -> 0 <= u < 2 ^ 26 ->
  utf8_tail (S len) (0x80 + v :: p) u n = utf8_tail len p (u * 64 + v) (S n).
Proof.
  intros Hv Hu. cbn [utf8_tail]. decide_ltb.
  change 63 with (2 ^ 6 - 1). rewrite land_low by lia. change (2 ^ 6) with 64.
  replace ((128 + v) mod 64) with v by (Z.div_mod_to_equations; lia).
  rewrite lor_disjoint by (simpl; lia). rewrite uint_small; [done|].
  change (2 ^ 6) with 64. change (2 ^ 32) with 4294967296. change (2 ^ 26) with 67108864 in Hu. lia.
Qed.

Lemma land_lead x v k : 0 <= k -> 0 <= v < 2 ^ k -> x mod 2 ^ k = 0 -> Z.land (x + v) (2 ^ k - 1) = v.
Proof.
  intros Hk Hv Hx. rewrite land_low by done.
  rewrite Zplus_mod, Hx, Z.add_0_l, Z.mod_mod by lia. apply Z.mod_small. lia.
Qed.

Lemma utf8_encode_length cp : code_point cp -> (1 <= length (utf8_encode cp) <= 4)%nat.
Proof. intros _. unfold utf8_encode. repeat case_test; simpl; lia. Qed.

Lemma decode_encode `{Arch} cp n rest :
  code_point cp -> 0x80 <= cp -> Z.of_nat (length (utf8_encode cp)) <= n < 2 ^ ptr_bits ->
  ngx_utf8_decode (utf8_encode cp ++ rest) n = Some (cp, length (utf8_encode cp)).
Proof.
  intros Hc H80 Hn. pose proof ptr_pow_32 as Hp.
  pose proof (utf8_encode_length cp Hc) as Hl.
  assert (Hu : uint ptr_bits (n - 1) = n - 1) by (apply uint_small; lia). clear Hl.
  unfold code_point in Hc. unfold utf8_encode in *.
  rewrite (proj2 (Z.ltb_ge cp 128)) in * by lia.
  destruct (Z.ltb_spec cp 0x800); [|destruct (Z.ltb_spec cp 0x10000)]; cbn [app length ngx_utf8_decode] in *.
  - do 3 decide_ltb. rewrite Hu. decide_ltb.
    rewrite (land_lead 192 _ 5) by (reflexivity || (Z.div_mod_to_equations; lia)).
    rewrite utf8_tail_step by (change (2 ^ 26) with 67108864; Z.div_mod_to_equations; lia).
    cbn [utf8_tail mbind option_bind]. replace (cp / 64 * 64 + cp mod 64) with cp
      by (Z.div_mod_to_equations; lia). by decide_ltb.
  - do 2 decide_ltb. rewrite Hu. decide_ltb.
    rewrite (land_lead 224 _ 4) by (reflexivity || (Z.div_mod_to_equations; lia)).
    do 2 rewrite utf8_tail_step by (change (2 ^ 26) with 67108864; Z.div_mod_to_equations; lia).
    cbn [utf8_tail mbind option_bind]. replace ((cp / 4096 * 64 + cp / 64 mod 64) * 64 + cp mod 64) with cp
      by (Z.div_mod_to_equations; lia). by decide_ltb.
  - decide_ltb. rewrite Hu. decide_ltb.
    rewrite (land_lead 240 _ 3) by (reflexivity || (Z.div_mod_to_equations; lia)).
    do 3 rewrite utf8_tail_step by (change (2 ^ 26) with 67108864; Z.div_mod_to_equations; lia).
    cbn [utf8_tail mbind option_bind].
    replace (((cp / 262144 * 64 + cp / 4096 mod 64) * 64 + cp / 64 mod 64) * 64 + cp mod 64) with cp
      by (Z.div_mod_to_equations; lia). by decide_ltb.
Qed.

Lemma utf8_encode_ascii cp : 0 <= cp -> cp < 0x80 -> utf8_encode cp = [cp].
Proof. intros. unfold utf8_encode. by decide_ltb. Qed.

Lemma utf8_encode_head cp : code_point cp -> 0x80 <= cp ->
  exists c l, utf8_encode cp = c :: l /\ 0x80 <= c.
Proof.
  intros Hc H80. unfold utf8_encode, code_point in *.
  repeat case_test; eexists _, _; (split; [reflexivity|Z.div_mod_to_equations; lia]).
Qed.

Lemma utf8_length_text_loop `{Arch} cps rest fuel n len :
  Forall code_point cps -> (length (utf8_text cps) <= fuel)%nat ->
  Z.of_nat (length (utf8_text cps)) <= n < 2 ^ ptr_bits ->
  utf8_length_loop fuel (utf8_text cps ++ rest) (Z.of_nat (length (utf8_text cps))) n len =
    Some (len + Z.of_nat (length cps)).
Proof.
  intros Hc. revert fuel len. induction Hc as [|cp cps Hcp _ IH]; intros fuel len Hf Hn.
  { destruct fuel; simpl; f_equal; lia. }
  unfold utf8_text in *. cbn [map concat] in *. rewrite length_app in *.
  pose proof (utf8_encode_length cp Hcp) as Hl. rewrite <- app_assoc.
  destruct fuel as [|fuel]; [lia|]. cbn [utf8_length_loop]. decide_ltb.
  destruct (Z.ltb_spec cp 0x80) as [Ha|Ha].
  - rewrite utf8_encode_ascii in * by (unfold code_point in Hcp; lia). cbn [app length] in *.
    decide_ltb. replace (Z.of_nat (1 + _) - 1) with (Z.of_nat (length (concat (map utf8_encode cps)))) by lia.
    rewrite IH by lia. f_equal. lia.
  - pose proof (decode_encode cp n (concat (map utf8_encode cps) ++ rest) Hcp Ha) as Hd.
    specialize (Hd ltac:(lia)).
    destruct (utf8_encode_head cp Hcp Ha) as (c & l & E & Hc80).
    rewrite E in *. cbn [app]. decide_ltb. cbn [app] in Hd. rewrite Hd. cbn [mbind option_bind].
    unfold code_point in Hcp. decide_ltb.
    change (c :: l ++ concat (map utf8_encode cps) ++ rest)
      with ((c :: l) ++ concat (map utf8_encode cps) ++ rest).
    rewrite drop_app_length.
    replace (Z.of_nat (length (c :: l) + _) - Z.of_nat (length (c :: l)))
      with (Z.of_nat (length (concat (map utf8_encode cps)))) by lia.
    rewrite IH by (simpl in *; lia). f_equal. simpl length. lia.
Qed.

Lemma utf8_cpystrn_text_loop `{Arch} cps rest n len :
  Forall (fun cp => code_point cp /\ cp <> 0) cps ->
  Z.of_nat (length (utf8_text cps)) <= len < 2 ^ ptr_bits ->
  utf8_cpystrn_loop n (utf8_text cps ++ 0 :: rest) len = Some (utf8_text (take n cps) ++ [0]).
Proof.
  intros Hc. revert n len. induction Hc as [|cp cps [Hcp H0] _ IH]; intros n len Hn.
  { by destruct n. }
  destruct n as [|n]; [done|]. unfold utf8_text in *. cbn [map concat firstn] in *.
  rewrite length_app in Hn. pose proof (utf8_encode_length cp Hcp) as Hl. rewrite <- !app_assoc.
  destruct (Z.ltb_spec cp 0x80) as [Ha|Ha].
  - rewrite utf8_encode_ascii in * by (unfold code_point in Hcp; lia). cbn [app length] in *.
    cbn [utf8_cpystrn_loop]. decide_ltb. rewrite (proj2 (Z.eqb_neq cp 0)) by done. cbn [negb].
    rewrite uint_small by lia. by rewrite IH by lia.
  - pose proof (decode_encode cp len (concat (map utf8_encode cps) ++ 0 :: rest) Hcp Ha) as Hd.
    specialize (Hd ltac:(lia)).
    destruct (utf8_encode_head cp Hcp Ha) as (c & l & E & Hc80).
    rewrite E in *. cbn [app utf8_cpystrn_loop]. decide_ltb. cbn [app] in Hd. rewrite Hd.
    cbn [mbind option_bind]. unfold code_point in Hcp. decide_ltb.
    change (c :: l ++ concat (map utf8_encode cps) ++ 0 :: rest)
      with ((c :: l) ++ concat (map utf8_encode cps) ++ 0 :: rest).
    rewrite drop_app_length, take_app_length, uint_small by lia. by rewrite IH by lia.
Qed.

(** ** Theorems *)

(** [ngx_utf8_decode] decodes the UTF-8 encoding of every code point above
    the ASCII range, in any context, and advances past exactly its bytes. *)
Theorem utf8_decode_encode `{Arch} cp n rest :
  0x80 <= cp <= 0x10ffff -> Z.of_nat (length (utf8_encode cp)) <= n < 2 ^ ptr_bits ->
  ngx_utf8_decode (utf8_encode cp ++ rest) n = Some (cp, length (utf8_encode cp)).
Proof. intros Hc Hn. apply decode_encode; [unfold code_point|..]; lia. Qed.

Lemma utf8_decode_encode_witness :
  @ngx_utf8_decode lp64 (utf8_encode 0x20ac ++ [65]) 4 = Some (0x20ac, 3%nat).
Proof. apply (@utf8_decode_encode lp64 0x20ac 4 [65]); [lia|]. vm_compute. split; congruence. Defined.

(** [ngx_utf8_length] of a well-formed UTF-8 string is its number of code
    points. *)
Theorem utf8_length_text `{Arch} cps rest :
  Forall code_point cps -> Z.of_nat (length (utf8_text cps)) < 2 ^ ptr_bits ->
  ngx_utf8_length (utf8_text cps ++ rest) (Z.of_nat (length (utf8_text cps))) =
    Some (Z.of_nat (length cps)).
Proof. intros Hc Hl. unfold ngx_utf8_length. rewrite utf8_length_text_loop by (done || lia). done. Qed.

Lemma utf8_length_text_witness :
  @ngx_utf8_length ilp32 (utf8_text [0x41; 0x416; 0x1f600] ++ []) 7 = Some 3.
Proof.
  apply (@utf8_length_text ilp32 [0x41; 0x416; 0x1f600] []); [|reflexivity].
  repeat constructor; lia.
Defined.

(** [ngx_utf8_cpystrn] copies the first [n] characters of a well-formed
    NUL-terminated string, never part of one, and terminates the copy. *)
Theorem utf8_cpystrn_text `{Arch} cps rest n len :
  Forall (fun cp => code_point cp /\ cp <> 0) cps ->
  Z.of_nat (length (utf8_text cps)) <= len < 2 ^ ptr_bits ->
  ngx_utf8_cpystrn (utf8_text cps ++ 0 :: rest) (S n) len =
    Some (utf8_text (take n cps) ++ [0], length (utf8_text (take n cps))).
Proof.
  intros Hc Hl. unfold ngx_utf8_cpystrn. rewrite utf8_cpystrn_text_loop by done.
  cbn. rewrite length_app. simpl. do 2 f_equal. lia.
Qed.

Lemma utf8_cpystrn_text_witness :
  @ngx_utf8_cpystrn lp64 (utf8_text [0x416; 0x41; 0x20ac] ++ 0 :: []) 3 6 =
    Some (utf8_text [0x416; 0x41] ++ [0], 3%nat).
Proof.
  apply (@utf8_cpystrn_text lp64 [0x416; 0x41; 0x20ac] [] 2 6);
    [|vm_compute; split; congruence].
  repeat constructor; unfold code_point; lia.
Defined.

(** [ngx_utf8_length] passes the whole length to the decoder instead of what
    is left: on a string that ends inside a character it reads past the end. *)
Theorem utf8_length_overread :
  @ngx_utf8_length lp64 [0x61; 0xc2] 2 = None.
Proof. reflexivity. Qed.

(** [ngx_utf8_decode] takes any byte from 0x80 up as a continuation byte, so
    it accepts sequences that are not UTF-8, two of them for the same code point. *)
Theorem utf8_decode_bad_continuation :
  @ngx_utf8_decode lp64 [0xc2; 0xff] 2 = Some (0xbf, 2%nat)
  /\ @ngx_utf8_decode lp64 [0xc2; 0xbf] 2 = Some (0xbf, 2%nat).
Proof. split; reflexivity. Qed.
