(* ===== verification/NgxSort.v ===== *)
(** * Sorting

    [ngx_sort] of src/nginx-1.7.2/src/core/ngx_string.c, an insertion sort in
    place.  The array is a list of elements, [cmp] the comparison callback. *)

From S2P Require Import Prelude.
From Stdlib Require Import Sorted.
#[local] Open Scope Z_scope.

Lemma StronglySorted_split {A} (R : A -> A -> Prop) l k :
StronglySorted R (l ++ k) <->
StronglySorted R l /\ StronglySorted R k /\ Forall (fun x => Forall (R x) k) l.
Proof.
induction l as [|x l IH]; simpl.
- split; [intros; repeat split; [constructor|done|constructor]|tauto].
- split.
  + intros H. apply StronglySorted_inv in H as [H1 H2]. apply IH in H1 as (?&?&?).
    rewrite Forall_app in H2. destruct H2. repeat split; [by constructor|done|by constructor].
  + intros (H1 & H2 & H3). apply StronglySorted_inv in H1 as [H1 H4].
    apply Forall_cons in H3 as [H3 H5]. constructor; [tauto|]. by rewrite Forall_app.
Qed.

Section Sort.
Context {A : Type} (cmp : A -> A -> Z).

(** The inner loop, with [p2] the index it stands at and [p] the saved element:
  move the elements greater than [p] up by one, then store [p]. *)
Fixpoint sort_inner (p : A) (base : list A) (p2 : nat) : list A :=
match p2 with
| O => <[O := p]> base
| S q =>
    match base !! q with
    | Some y =>
        if 0 <? cmp y p then sort_inner p (<[p2 := y]> base) q
        else <[p2 := p]> base
    | None => base
    end
end.

(** The outer loop over [p1]. *)
Fixpoint sort_outer (base : list A) (p1 left : nat) : list A :=
match left with
| O => base
| S left' =>
    match base !! p1 with
    | Some p => sort_outer (sort_inner p base p1) (S p1) left'
    | None => base
    end
end.

(** [alloc_ok] is whether the scratch element could be allocated. *)
Definition ngx_sort (alloc_ok : bool) (base : list A) : list A :=
if alloc_ok then sort_outer base 1 (length base - 1) else base.

(** ** Lemmas *)

(** The inner loop splits the elements before the slot [z] into those that stay
  and those, all greater than [p], that move up. *)
Lemma sort_inner_split p a z b :
exists a1 a2, a = a1 ++ a2 /\ sort_inner p (a ++ z :: b) (length a) = a1 ++ p :: a2 ++ b
  /\ Forall (fun y => 0 < cmp y p) a2
  /\ (forall y a0, a1 = a0 ++ [y] -> cmp y p <= 0).
Proof.
revert z b. induction a as [|y a IH] using rev_ind; intros z b.
- exists [], []. repeat split; [done|]. intros y [|? [|]]; done.
- rewrite length_app, Nat.add_comm. cbn [length Nat.add sort_inner].
  rewrite <- app_assoc. cbn [app]. rewrite list_lookup_middle by done.
  replace (S (length a)) with (length a + 1)%nat by lia.
  rewrite !insert_app_r. cbn [insert list_insert]. 
  destruct (Z.ltb_spec 0 (cmp y p)) as [Hgt|Hle].
  + destruct (IH y (y :: b)) as (a1 & a2 & -> & -> & H2 & H3).
    exists a1, (a2 ++ [y]). rewrite <- !app_assoc. repeat split; [|done].
    rewrite Forall_app, Forall_singleton. done.
  + exists (a ++ [y]), []. rewrite app_nil_r, <- app_assoc. repeat split; [constructor|].
    intros y' a0 E. apply app_inj_tail in E as [_ <-]. done.
Qed.

Definition le_cmp (x y : A) : Prop := cmp x y <= 0.

(** What the result owes its input. *)
Definition sorted_stable (l l' : list A) : Prop :=
l' ≡ₚ l /\ StronglySorted le_cmp l'
/\ forall P : A -> bool, (forall x y, P x = true -> P y = true -> cmp x y <= 0) ->
     List.filter P l' = List.filter P l.

Lemma filter_none (P : A -> bool) l : Forall (fun y => P y = false) l -> List.filter P l = [].
Proof. induction 1 as [|x l Hx _ IH]; simpl; [done|]. by rewrite Hx. Qed.

Context (cmp_total : forall x y, 0 < cmp y x -> cmp x y <= 0).
Context (cmp_trans : forall x y z, cmp x y <= 0 -> cmp y z <= 0 -> cmp x z <= 0).

Lemma sort_inner_sorted p a b :
StronglySorted le_cmp a ->
exists c, sort_inner p (a ++ p :: b) (length a) = c ++ b /\ sorted_stable (a ++ [p]) c.
Proof.
intros Hs. destruct (sort_inner_split p a p b) as (a1 & a2 & -> & -> & H2 & H3).
exists (a1 ++ p :: a2). rewrite <- app_assoc. split; [done|].
apply StronglySorted_split in Hs as (S1 & S2 & S3).
assert (Ha1 : Forall (fun x => cmp x p <= 0) a1).
{ destruct a1 as [|y a1 _] using rev_ind; [constructor|]. specialize (H3 y a1 eq_refl).
  apply StronglySorted_split in S1 as (_ & _ & S1). rewrite Forall_app. split; [|by repeat constructor].
  eapply Forall_impl; [exact S1|]. intros x Hx. rewrite Forall_singleton in Hx. eauto. }
assert (Ha2 : Forall (le_cmp p) a2) by (eapply Forall_impl; [exact H2|]; unfold le_cmp; eauto).
repeat split.
- rewrite <- app_assoc. apply Permutation_app_head, Permutation_cons_append.
- rewrite StronglySorted_split. repeat split; [done|by constructor|].
  rewrite Forall_forall in *. intros x Hx. constructor; [by apply Ha1|]. by apply S3.
- intros P HP. rewrite !List.filter_app. rewrite <- app_assoc. f_equal. simpl.
  destruct (P p) eqn:Ep; [|by rewrite app_nil_r].
  rewrite (filter_none P a2); [done|]. eapply Forall_impl; [exact H2|].
  intros y Hy. simpl in Hy. destruct (P y) eqn:Ey; [|done]. specialize (HP y p Ey Ep). lia.
Qed.

Lemma sort_outer_sorted l a b :
sorted_stable l a ->
exists c, sort_outer (a ++ b) (length a) (length b) = c /\ sorted_stable (l ++ b) c.
Proof.
revert l a. induction b as [|p b IH]; intros l a Hs.
- exists a. rewrite !app_nil_r. done.
- cbn [length sort_outer]. rewrite list_lookup_middle by done.
  destruct Hs as (H1 & H2 & H3).
  destruct (sort_inner_sorted p a b H2) as (c & -> & C1 & C2 & C3).
  assert (Hc : sorted_stable (l ++ [p]) c).
  { repeat split; [by rewrite C1, H1|done|].
    intros P HP. rewrite (C3 P HP), !List.filter_app. by rewrite (H3 P HP). }
  replace (S (length a)) with (length c)
    by (rewrite (Permutation_length C1), length_app; simpl; lia).
  destruct (IH _ _ Hc) as (d & -> & Hd). exists d. by rewrite <- app_assoc in Hd.
Qed.

(** ** Theorem *)

(** When the comparison callback is a total preorder, [ngx_sort] returns a
  permutation of the array in increasing order, and it is stable: elements
  that compare as equal keep their order. *)
Theorem sort_sorted_stable base : sorted_stable base (ngx_sort true base).
Proof.
unfold ngx_sort. destruct base as [|x base]; [by repeat split; constructor|].
cbn [length]. rewrite Nat.sub_succ, Nat.sub_0_r.
destruct (sort_outer_sorted [x] [x] base) as (c & E & Hc).
{ split; [done|]. split; [repeat constructor|done]. }
simpl app in E. cbn [length] in E. rewrite E. exact Hc.
Qed.

End Sort.

Lemma sort_sorted_stable_witness :
  sorted_stable (fun x y : Z * Z => x.1 - y.1) [(3, 0); (1, 1); (3, 2); (1, 3); (2, 4)]
    (ngx_sort (fun x y : Z * Z => x.1 - y.1) true [(3, 0); (1, 1); (3, 2); (1, 3); (2, 4)]).
Proof. apply sort_sorted_stable; intros; lia. Defined.
