(* ===== verification/NgxHash.v ===== *)
(** * Hash keys

    The key functions of src/nginx-1.7.2/src/core/ngx_hash.c: the polynomial hash
    of a name, of a name in lower case, and the latter together with the
    conversion. *)

From S2P Require Import Prelude NgxString.

Section Keys.
Context `{Arch}.

(** The macro [ngx_hash(key, c)], in [ngx_uint_t]. *)
Definition ngx_hash (key c : Z) : Z := uint ptr_bits (key * 31 + c).

Fixpoint hash_loop (key : Z) (data : list Z) : Z :=
  match data with [] => key | c :: data' => hash_loop (ngx_hash key c) data' end.

Definition ngx_hash_key (data : list Z) : Z := hash_loop 0 data.

Fixpoint hash_lc_loop (key : Z) (data : list Z) : Z :=
  match data with [] => key | c :: data' => hash_lc_loop (ngx_hash key (ngx_tolower c)) data' end.

Definition ngx_hash_key_lc (data : list Z) : Z := hash_lc_loop 0 data.

(** The loop of [ngx_hash_strlow]: the bytes written and the key. *)
Fixpoint strlow_loop (key : Z) (src : list Z) : list Z * Z :=
  match src with
  | [] => ([], key)
  | c :: src' =>
      let d := ngx_tolower c in
      let '(dst, k) := strlow_loop (ngx_hash key d) src' in (d :: dst, k)
  end.

Definition ngx_hash_strlow (src : list Z) : list Z * Z := strlow_loop 0 src.

Lemma hash_lc_map key data : hash_lc_loop key data = hash_loop key (map ngx_tolower data).
Proof. revert key. induction data as [|c data IH]; intros key; simpl; auto. Qed.

Lemma strlow_loop_spec key src :
  strlow_loop key src = (map ngx_tolower src, hash_lc_loop key src).
Proof.
  revert key. induction src as [|c src IH]; intros key; [done|]. simpl. by rewrite IH.
Qed.

Lemma hash_loop_app key a b : hash_loop key (a ++ b) = hash_loop (hash_loop key a) b.
Proof. revert key. induction a as [|c a IH]; intros key; simpl; auto. Qed.

(** The three functions agree: the case-insensitive key of a name is the plain
    key of the name in lower case, which is what the third returns beside it. *)
Theorem hash_keys_agree name :
  ngx_hash_strlow name = (map ngx_tolower name, ngx_hash_key (map ngx_tolower name))
  /\ ngx_hash_key_lc name = ngx_hash_key (map ngx_tolower name).
Proof.
  unfold ngx_hash_strlow, ngx_hash_key_lc, ngx_hash_key.
  by rewrite strlow_loop_spec, hash_lc_map.
Qed.
End Keys.
