(* ===== verification/NgxMemory.v ===== *)
(** * Blocks of memory

    A block is what one call of an allocator returns: its address and its bytes.
    Reads and writes outside of it are faults ([None]).  Words are stored the way
    the targets of the build store them, the low byte first.  The macros
    [ngx_align] and [ngx_align_ptr] of src/nginx-1.7.2/src/core/ngx_config.h are
    here too. *)

From S2P Require Import Prelude.

(** ** Little endian words *)

(** The [n] bytes of [v], and the value of some bytes. *)
Fixpoint le_bytes (n : nat) (v : Z) : list Z :=
  match n with O => [] | S n' => v mod 256 :: le_bytes n' (v / 256) end.

Fixpoint le_value (bs : list Z) : Z :=
  match bs with [] => 0 | b :: bs' => b + 256 * le_value bs' end.

Lemma le_bytes_length n v : length (le_bytes n v) = n.
Proof. revert v. induction n as [|n IH]; intros v; simpl; auto. Qed.

Lemma le_bytes_ok n v : bytes_ok (le_bytes n v).
Proof.
  revert v. induction n as [|n IH]; intros v; simpl; [constructor|].
  apply bytes_ok_cons. split; [|apply IH]. unfold byte_ok. apply Z.mod_pos_bound. lia.
Qed.

Lemma le_roundtrip n v : 0 <= v < 256 ^ Z.of_nat n -> le_value (le_bytes n v) = v.
Proof.
  revert v. induction n as [|n IH]; intros v Hv.
  - simpl in *. lia.
  - cbn [le_bytes le_value]. rewrite Nat2Z.inj_succ, Z.pow_succ_r in Hv by lia.
    rewrite IH; [pose proof (Z.div_mod v 256); lia|].
    split; [apply Z.div_pos; lia|apply Z.div_lt_upper_bound; lia].
Qed.

(** ** Alignment *)

Section Align.
Context `{Arch}.

(** [ngx_align(d, a)] on [size_t], and [ngx_align_ptr(p, a)], which is the same
    computation on [uintptr_t]. *)
Definition ngx_align (d a : Z) : Z :=
  Z.land (uint ptr_bits (d + (a - 1))) (uint ptr_bits (Z.lnot (a - 1))).

Definition ngx_align_ptr (p a : Z) : Z := ngx_align p a.

(** For a power of two, and where the sum does not wrap, the least multiple of
    [a] that is not below [d]. *)
Lemma align_eq d k :
  0 <= k < ptr_bits -> 0 <= d -> d + (2 ^ k - 1) < 2 ^ ptr_bits ->
  ngx_align d (2 ^ k) = (d + (2 ^ k - 1)) / 2 ^ k * 2 ^ k.
Proof.
  intros Hk Hd Hs. unfold ngx_align.
  assert (0 < 2 ^ k) by (apply Z.pow_pos_nonneg; lia).
  rewrite uint_small by lia. unfold uint.
  rewrite <- (Z.land_ones (Z.lnot _)), Z.land_assoc, (Z.land_comm _ (Z.ones _)) by lia.
  rewrite Z.land_assoc, (Z.land_comm (Z.ones _)), Z.land_ones, Z.mod_small by lia.
  rewrite <- Z.ldiff_land.
  replace (2 ^ k - 1) with (Z.ones k) at 2 by (rewrite Z.ones_equiv; lia).
  rewrite Z.ldiff_ones_r, Z.shiftl_mul_pow2, Z.shiftr_div_pow2 by lia. done.
Qed.

Lemma align_bounds d k :
  0 <= k < ptr_bits -> 0 <= d -> d + (2 ^ k - 1) < 2 ^ ptr_bits ->
  d <= ngx_align d (2 ^ k) < d + 2 ^ k /\ (2 ^ k | ngx_align d (2 ^ k)).
Proof.
  intros Hk Hd Hs. rewrite align_eq by lia.
  assert (0 < 2 ^ k) by (apply Z.pow_pos_nonneg; lia).
  pose proof (Z.div_mod (d + (2 ^ k - 1)) (2 ^ k)).
  pose proof (Z.mod_pos_bound (d + (2 ^ k - 1)) (2 ^ k)).
  split; [lia|]. apply Z.divide_factor_r.
Qed.

(** A multiple of [a] added to [d] is added to the result. *)
Lemma align_add c d k :
  0 <= k < ptr_bits -> 0 <= c -> 0 <= d -> c + d + (2 ^ k - 1) < 2 ^ ptr_bits ->
  (2 ^ k | c) -> ngx_align (c + d) (2 ^ k) = c + ngx_align d (2 ^ k).
Proof.
  intros Hk Hc Hd Hs [q ->]. rewrite !align_eq by lia.
  assert (0 < 2 ^ k) by (apply Z.pow_pos_nonneg; lia).
  replace (q * 2 ^ k + d + (2 ^ k - 1)) with (d + (2 ^ k - 1) + q * 2 ^ k) by lia.
  rewrite Z.div_add by lia. lia.
Qed.

(** [sizeof(void * )]. *)
Definition ptr_size : Z := ptr_bits / 8.

Lemma ptr_size_pow : exists k, 2 <= k <= 3 /\ ptr_size = 2 ^ k.
Proof.
  unfold ptr_size. destruct ptr_bits_cases as [-> | ->]; [exists 2|exists 3]; split; try done; lia.
Qed.

Lemma ptr_size_cases : ptr_size = 4 \/ ptr_size = 8.
Proof. unfold ptr_size. destruct ptr_bits_cases as [-> | ->]; auto. Qed.

Lemma word_pow : 256 ^ ptr_size = 2 ^ ptr_bits.
Proof. unfold ptr_size. destruct ptr_bits_cases as [-> | ->]; reflexivity. Qed.
End Align.

(** ** Blocks *)

Record block := Block { b_base : Z; b_bytes : list Z }.

Definition b_size (m : block) : Z := Z.of_nat (length (b_bytes m)).

(** The [n] bytes at address [a]. *)
Definition blk_get (m : block) (a n : Z) : option (list Z) :=
  if (b_base m <=? a) && (0 <=? n) && (a + n <=? b_base m + b_size m)
  then Some (take (Z.to_nat n) (drop (Z.to_nat (a - b_base m)) (b_bytes m)))
  else None.

(** Storing bytes at address [a]. *)
Definition blk_put (m : block) (a : Z) (bs : list Z) : option block :=
  let o := Z.to_nat (a - b_base m) in
  if (b_base m <=? a) && (a + Z.of_nat (length bs) <=? b_base m + b_size m)
  then Some (Block (b_base m) (take o (b_bytes m) ++ bs ++ drop (o + length bs) (b_bytes m)))
  else None.

(** A range of addresses inside of a block. *)
Definition in_block (m : block) (a n : Z) : Prop :=
  b_base m <= a /\ 0 <= n /\ a + n <= b_base m + b_size m.

(** The blocks that differ in contents only. *)
Definition same_block (m m' : block) : Prop :=
  b_base m' = b_base m /\ length (b_bytes m') = length (b_bytes m).

#[export] Instance same_block_preorder : PreOrder same_block.
Proof.
  split; [done|]. intros m1 m2 m3 [H1 H2] [H3 H4]. unfold same_block. split; congruence.
Qed.

Lemma same_block_in m m' a n : same_block m m' -> in_block m a n -> in_block m' a n.
Proof. intros [Hb Hl]. unfold in_block, b_size. rewrite Hb, Hl. done. Qed.

Lemma blk_put_ok m a bs :
  in_block m a (Z.of_nat (length bs)) -> exists m', blk_put m a bs = Some m'.
Proof.
  intros (H1 & H2 & H3). unfold blk_put.
  rewrite (proj2 (Z.leb_le _ _) H1), (proj2 (Z.leb_le _ _) H3). simpl. eauto.
Qed.

Lemma blk_put_in m a bs m' :
  blk_put m a bs = Some m' -> in_block m a (Z.of_nat (length bs)) /\ same_block m m'.
Proof.
  unfold blk_put, in_block, same_block. intros E.
  destruct (_ && _) eqn:T; [|done]. injection E as <-. apply andb_prop in T as [T1 T2].
  apply Z.leb_le in T1, T2. unfold b_size in *. simpl. repeat split; try lia.
  rewrite !length_app, length_take, length_drop. lia.
Qed.

(** What was stored is read back. *)
Lemma blk_get_put m a bs m' :
  blk_put m a bs = Some m' -> blk_get m' a (Z.of_nat (length bs)) = Some bs.
Proof.
  intros E. destruct (blk_put_in _ _ _ _ E) as [(H1 & H2 & H3) [Hb Hl]].
  unfold blk_get, b_size in *. rewrite Hb, Hl.
  rewrite (proj2 (Z.leb_le _ _) H1), (proj2 (Z.leb_le _ _) H2), (proj2 (Z.leb_le _ _) H3).
  simpl. unfold blk_put in E. destruct (_ && _); [|done]. injection E as <-. simpl.
  f_equal. rewrite drop_app_length' by (rewrite length_take; lia).
  apply take_app_length'. lia.
Qed.

(** A store does not change the bytes beside it. *)
Lemma blk_get_other m a bs m' c n :
  blk_put m a bs = Some m' -> c + n <= a \/ a + Z.of_nat (length bs) <= c ->
  blk_get m' c n = blk_get m c n.
Proof.
  intros E Hd. destruct (blk_put_in _ _ _ _ E) as [(H1 & H2 & H3) [Hb Hl]].
  unfold blk_get, b_size in *. rewrite Hb, Hl.
  destruct (_ && _) eqn:T; [|done]. apply andb_prop in T as [T T3]. apply andb_prop in T as [T1 T2].
  apply Z.leb_le in T1, T2, T3. f_equal.
  unfold blk_put in E. destruct (_ && _); [|done]. injection E as <-. simpl. clear Hb Hl.
  apply list_eq. intros i. destruct (decide (i < Z.to_nat n)%nat).
  2: { rewrite !lookup_take_ge by lia. done. }
  rewrite !lookup_take_lt, !lookup_drop by lia. destruct Hd as [Hd | Hd].
  - rewrite lookup_app_l by (rewrite length_take; lia). by rewrite lookup_take_lt by lia.
  - rewrite lookup_app_r; rewrite length_take; [|lia].
    rewrite lookup_app_r by lia. rewrite lookup_drop. f_equal. lia.
Qed.

(** Bytes that are there. *)
Lemma blk_get_in m a n bs :
  blk_get m a n = Some bs -> in_block m a n /\ Z.of_nat (length bs) = n.
Proof.
  unfold blk_get, in_block. destruct (_ && _) eqn:T; [|done]. intros [= <-].
  apply andb_prop in T as [T T3]. apply andb_prop in T as [T1 T2].
  apply Z.leb_le in T1, T2, T3. unfold b_size in *. split; [lia|].
  rewrite length_take, length_drop. lia.
Qed.

(** One byte of a range that was read. *)
Lemma blk_get_byte m a n bs i b :
  blk_get m a n = Some bs -> bs !! i = Some b -> blk_get m (a + Z.of_nat i) 1 = Some [b].
Proof.
  intros E Hi. destruct (blk_get_in _ _ _ _ E) as [(H1 & H2 & H3) Hl].
  pose proof (lookup_lt_Some _ _ _ Hi). unfold blk_get in *.
  destruct (_ && _); [|done]. injection E as <-.
  rewrite (proj2 (Z.leb_le _ _)), (proj2 (Z.leb_le _ _)), (proj2 (Z.leb_le _ _)) by lia.
  simpl. rewrite lookup_take_lt, lookup_drop in Hi by lia.
  replace (Z.to_nat (a + Z.of_nat i - b_base m)) with (Z.to_nat (a - b_base m) + i)%nat by lia.
  rewrite (drop_S _ b) by done. done.
Qed.

Section Words.
Context `{Arch}.

(** Loads and stores of a [u_char], a [u_short] and a pointer. *)
Definition get_byte (m : block) (a : Z) : option Z := le_value <$> blk_get m a 1.
Definition get_short (m : block) (a : Z) : option Z := le_value <$> blk_get m a 2.
Definition put_short (m : block) (a v : Z) : option block := blk_put m a (le_bytes 2 v).
Definition get_word (m : block) (a : Z) : option Z := le_value <$> blk_get m a ptr_size.
Definition put_word (m : block) (a v : Z) : option block :=
  blk_put m a (le_bytes (Z.to_nat ptr_size) v).
End Words.
