(* ===== verification/NgxHashTable.v ===== *)
(** * Hash tables

    [ngx_hash_init] and [ngx_hash_find] of src/nginx-1.7.2/src/core/ngx_hash.c.
    A table is built once, from an array of names, in one block of memory whose
    size is computed before anything is stored: an element is a value, a length
    of two bytes and the name, padded to the size of a pointer; a bucket is a row
    of elements that ends with a null value.  The counters of the computation are
    of type [u_short], and [test], the array of them, has [max_size] elements. *)

From S2P Require Import Prelude NgxString NgxHash NgxMemory.

Module HashTable.

(** ** Data *)

(** [ngx_str_t]: [str_data] is [None] for a null pointer. *)
Record ngx_str_t := Str { str_data : option (list Z); str_len : Z }.

Record ngx_hash_key_t := HashKey { hk_key : ngx_str_t; hk_key_hash : Z; hk_value : Z }.

(** The fields of [ngx_hash_init_t] that bound the table. *)
Record ngx_hash_init_t := HashInit { hi_max_size : Z; hi_bucket_size : Z }.

(** [ngx_hash_t], and the block the elements are in; a bucket is an address of
    that block or 0. *)
Record ngx_hash_t := Hash { h_buckets : list Z; h_size : Z; h_elts : block }.

Inductive hash_result := HashError | HashOk (h : ngx_hash_t).

(** [ngx_cacheline_size], which [ngx_cpuinfo] sets. *)
Class Cacheline := {
  ngx_cacheline_size : Z;
  cacheline_cases : ngx_cacheline_size = 32 \/ ngx_cacheline_size = 64 \/ ngx_cacheline_size = 128
}.

Section HashTable.
Context `{Arch} `{Cacheline}.

(** ** Searching *)

(** The [for] loop that compares the name with the one of an element. *)
Fixpoint same_name (m : block) (name : list Z) (a : Z) : option bool :=
  match name with
  | [] => Some true
  | c :: name' =>
      b ← get_byte m a;
      if c =? b then same_name m name' (a + 1) else Some false
  end.

Definition elt_next (elt len : Z) : Z := ngx_align_ptr (elt + ptr_size + 2 + len) ptr_size.

Fixpoint find_loop (fuel : nat) (m : block) (name : list Z) (elt : Z) : option Z :=
  match fuel with
  | O => None
  | S fuel' =>
      value ← get_word m elt;
      if value =? 0 then Some 0 else
      len ← get_short m (elt + ptr_size);
      if Z.of_nat (length name) =? len then
        same ← same_name m name (elt + ptr_size + 2);
        if (same : bool) then Some value else find_loop fuel' m name (elt_next elt len)
      else find_loop fuel' m name (elt_next elt len)
  end.

(** The value, 0 when there is none; every element takes bytes of the block, so
    its length bounds the number of turns. *)
Definition ngx_hash_find (hash : ngx_hash_t) (key : Z) (name : list Z) : option Z :=
  if h_size hash =? 0 then None else
  elt ← h_buckets hash !! Z.to_nat (key mod h_size hash);
  if elt =? 0 then Some 0
  else find_loop (S (length (b_bytes (h_elts hash)))) (h_elts hash) name elt.

(** ** Building *)

(** [NGX_HASH_ELT_SIZE(name)]. *)
Definition elt_size (name : ngx_hash_key_t) : Z :=
  uint ptr_bits (ptr_size + ngx_align (uint ptr_bits (str_len (hk_key name) + 2)) ptr_size).

(** A store to an element of an array. *)
Definition arr_put {A} (t : list A) (i : Z) (v : A) : option (list A) :=
  if (0 <=? i) && (i <? Z.of_nat (length t)) then Some (<[Z.to_nat i := v]> t) else None.

Definition arr_get {A} (t : list A) (i : Z) : option A :=
  if 0 <=? i then t !! Z.to_nat i else None.

(** [for (i = 0; i < size; i++) test[i] = v], which is [ngx_memzero] too. *)
Fixpoint fill_loop (n : nat) (i v : Z) (test : list Z) : option (list Z) :=
  match n with
  | O => Some test
  | S n' => test ← arr_put test i v; fill_loop n' (i + 1) v test
  end.

Definition fill (size v : Z) (test : list Z) : option (list Z) :=
  fill_loop (Z.to_nat size) 0 v test.

(** One size: the elements are counted, until a bucket is too large. *)
Fixpoint try_size (names : list ngx_hash_key_t) (size bucket_size : Z) (test : list Z)
    : option (bool * list Z) :=
  match names with
  | [] => Some (true, test)
  | name :: names' =>
      match str_data (hk_key name) with
      | None => try_size names' size bucket_size test
      | Some _ =>
          let key := hk_key_hash name mod size in
          t ← arr_get test key;
          let t := uint 16 (t + elt_size name) in
          test ← arr_put test key t;
          if uint 16 bucket_size <? t then Some (false, test)
          else try_size names' size bucket_size test
      end
  end.

(** [for (size = start; size <= max_size; size++)]: the size the loop ends
    with, [max_size + 1] when none was found. *)
Fixpoint size_loop (n : nat) (names : list ngx_hash_key_t) (size bucket_size : Z) (test : list Z)
    : option (Z * list Z) :=
  match n with
  | O => Some (size, test)
  | S n' =>
      test ← fill size 0 test;
      '(found, test) ← try_size names size bucket_size test;
      if (found : bool) then Some (size, test) else size_loop n' names (size + 1) bucket_size test
  end.

(** The second count, of all elements. *)
Fixpoint count_loop (names : list ngx_hash_key_t) (size : Z) (test : list Z) : option (list Z) :=
  match names with
  | [] => Some test
  | name :: names' =>
      match str_data (hk_key name) with
      | None => count_loop names' size test
      | Some _ =>
          let key := hk_key_hash name mod size in
          t ← arr_get test key;
          test ← arr_put test key (uint 16 (t + elt_size name));
          count_loop names' size test
      end
  end.

(** The sizes of the buckets, rounded up to cache lines, and their sum. *)
Fixpoint round_loop (n : nat) (i : Z) (test : list Z) (len : Z) : option (list Z * Z) :=
  match n with
  | O => Some (test, len)
  | S n' =>
      t ← arr_get test i;
      if t =? ptr_size then round_loop n' (i + 1) test len
      else
        let t := uint 16 (ngx_align t ngx_cacheline_size) in
        test ← arr_put test i t;
        round_loop n' (i + 1) test (uint ptr_bits (len + t))
  end.

(** The addresses of the buckets. *)
Fixpoint place_loop (n : nat) (i : Z) (test : list Z) (elts : Z) (buckets : list Z)
    : option (list Z) :=
  match n with
  | O => Some buckets
  | S n' =>
      t ← arr_get test i;
      if t =? ptr_size then place_loop n' (i + 1) test elts buckets
      else
        buckets ← arr_put buckets i elts;
        place_loop n' (i + 1) test (elts + t) buckets
  end.

(** An element is stored at [elt]. *)
Definition store_elt (m : block) (elt : Z) (name : ngx_hash_key_t) (data : list Z) : option block :=
  m ← put_word m elt (hk_value name);
  m ← put_short m (elt + ptr_size) (uint 16 (str_len (hk_key name)));
  low ← ngx_strlow data (Z.to_nat (str_len (hk_key name)));
  blk_put m (elt + ptr_size + 2) low.

(** The elements. *)
Fixpoint store_loop (names : list ngx_hash_key_t) (size : Z) (buckets test : list Z) (m : block)
    : option (list Z * block) :=
  match names with
  | [] => Some (test, m)
  | name :: names' =>
      match str_data (hk_key name) with
      | None => store_loop names' size buckets test m
      | Some data =>
          let key := hk_key_hash name mod size in
          b ← arr_get buckets key;
          t ← arr_get test key;
          m ← store_elt m (b + t) name data;
          test ← arr_put test key (uint 16 (t + elt_size name));
          store_loop names' size buckets test m
      end
  end.

(** The null value at the end of each bucket. *)
Fixpoint end_loop (n : nat) (i : Z) (buckets test : list Z) (m : block) : option block :=
  match n with
  | O => Some m
  | S n' =>
      b ← arr_get buckets i;
      if b =? 0 then end_loop n' (i + 1) buckets test m
      else
        t ← arr_get test i;
        m ← put_word m (b + t) 0;
        end_loop n' (i + 1) buckets test m
  end.

(** What fresh memory holds: [n] bytes, or counters, of which nothing is known. *)
Definition fresh (junk : nat -> Z) (n : Z) : list Z := map junk (seq 0 (Z.to_nat n)).

(** The label [found]: [addr] is where [ngx_palloc] places the elements. *)
Definition build (junk : nat -> Z) (addr : Z) (names : list ngx_hash_key_t) (size : Z) (test : list Z)
    : option hash_result :=
  test ← fill size ptr_size test;
  test ← count_loop names size test;
  '(test, len) ← round_loop (Z.to_nat size) 0 test 0;
  let m := Block addr (fresh junk (uint ptr_bits (len + ngx_cacheline_size))) in
  let elts := ngx_align_ptr addr ngx_cacheline_size in
  buckets ← place_loop (Z.to_nat size) 0 test elts (replicate (Z.to_nat size) 0);
  test ← fill size 0 test;
  '(test, m) ← store_loop names size buckets test m;
  m ← end_loop (Z.to_nat size) 0 buckets test m;
  Some (HashOk (Hash buckets size m)).

(** The size the search starts with; [None] for the division by zero. *)
Definition start_size (hinit : ngx_hash_init_t) (nelts : Z) : option Z :=
  let bucket_size := uint ptr_bits (hi_bucket_size hinit - ptr_size) in
  if bucket_size / (2 * ptr_size) =? 0 then None else
  let start := nelts / (bucket_size / (2 * ptr_size)) in
  let start := if start =? 0 then 1 else start in
  Some (if (10000 <? hi_max_size hinit) && negb (nelts =? 0)
             && (hi_max_size hinit / nelts <? 100)
        then hi_max_size hinit - 1000 else start).

(** The test of the first loop. *)
Definition too_long (hinit : ngx_hash_init_t) (name : ngx_hash_key_t) : bool :=
  hi_bucket_size hinit <? elt_size name + ptr_size.

Definition ngx_hash_init (junk : nat -> Z) (addr : Z) (hinit : ngx_hash_init_t)
    (names : list ngx_hash_key_t) : option hash_result :=
  if existsb (too_long hinit) names then Some HashError else
  let test := fresh junk (uint ptr_bits (hi_max_size hinit * 2) / 2) in
  let bucket_size := uint ptr_bits (hi_bucket_size hinit - ptr_size) in
  start ← start_size hinit (Z.of_nat (length names));
  '(size, test) ← size_loop (Z.to_nat (hi_max_size hinit + 1 - start)) names start bucket_size test;
  build junk addr names size test.

(** ** Arrays *)

(** The first [n] elements of an array are those of a function. *)
Definition arr_is {A} (t : list A) (n : Z) (f : Z -> A) : Prop :=
  forall i, 0 <= i < n -> t !! Z.to_nat i = Some (f i).

Lemma arr_get_is {A} (t : list A) n f i : arr_is t n f -> 0 <= i < n -> arr_get t i = Some (f i).
Proof. intros Ht Hi. unfold arr_get. rewrite (proj2 (Z.leb_le 0 i)) by lia. auto. Qed.

Lemma arr_put_ok {A} (t : list A) i v :
  0 <= i < Z.of_nat (length t) -> arr_put t i v = Some (<[Z.to_nat i := v]> t).
Proof.
  intros Hi. unfold arr_put. by rewrite (proj2 (Z.leb_le 0 i)), (proj2 (Z.ltb_lt i _)) by lia.
Qed.

Lemma arr_put_is {A} (t : list A) n f g i v :
  arr_is t n f -> 0 <= i < Z.of_nat (length t) ->
  (0 <= i < n -> g i = v) -> (forall j, 0 <= j < n -> j <> i -> g j = f j) ->
  arr_is (<[Z.to_nat i := v]> t) n g.
Proof.
  intros Ht Hi Hv Hg j Hj. destruct (decide (j = i)) as [->|].
  - rewrite list_lookup_insert_eq by lia. by rewrite Hv by lia.
  - rewrite list_lookup_insert_ne by lia. rewrite Hg by lia. auto.
Qed.

Lemma fill_loop_spec n i v t :
  0 <= i -> i + Z.of_nat n <= Z.of_nat (length t) -> arr_is t i (fun _ => v) ->
  exists t', fill_loop n i v t = Some t' /\ length t' = length t
             /\ arr_is t' (i + Z.of_nat n) (fun _ => v).
Proof.
  revert i t. induction n as [|n IH]; intros i t Hi Hn Ht.
  - exists t. rewrite Z.add_0_r. done.
  - cbn [fill_loop]. rewrite arr_put_ok by lia. cbn [mbind option_bind].
    destruct (IH (i + 1) (<[Z.to_nat i := v]> t)) as (t' & E & Hl & Ht'); try lia.
    + rewrite length_insert. lia.
    + intros j Hj. destruct (decide (j = i)) as [->|].
      * rewrite list_lookup_insert_eq by lia. done.
      * rewrite list_lookup_insert_ne by lia. apply Ht. lia.
    + exists t'. rewrite length_insert in Hl. split_and!; try done.
      replace (i + Z.of_nat (S n)) with (i + 1 + Z.of_nat n) by lia. done.
Qed.

Lemma fill_spec size v t :
  0 <= size <= Z.of_nat (length t) ->
  exists t', fill size v t = Some t' /\ length t' = length t /\ arr_is t' size (fun _ => v).
Proof.
  intros Hs. destruct (fill_loop_spec (Z.to_nat size) 0 v t) as (t' & E & Hl & Ht); try lia.
  { intros j Hj. lia. }
  exists t'. split_and!; try done. by rewrite Z.add_0_l, Z2Nat.id in Ht by lia.
Qed.

(** Filling more than there is faults. *)
Lemma fill_loop_overrun n i v t :
  0 <= i -> (Z.of_nat (length t) < i + Z.of_nat n) -> (0 < n)%nat -> fill_loop n i v t = None.
Proof.
  revert i t. induction n as [|n IH]; intros i t Hi Hn Hp; [lia|]. cbn [fill_loop].
  destruct (decide (i < Z.of_nat (length t))).
  - rewrite arr_put_ok by lia. cbn [mbind option_bind]. apply IH; rewrite ?length_insert; lia.
  - unfold arr_put. by rewrite (proj2 (Z.ltb_ge i _)), andb_false_r by lia.
Qed.

Lemma fill_overrun size v t : Z.of_nat (length t) < size -> fill size v t = None.
Proof. intros Hs. apply fill_loop_overrun; lia. Qed.

(** ** The elements of a bucket *)

(** What a name becomes in the table: its value and the name in lower case. *)
Abbreviation entry := (Z * list Z)%type (only parsing).

Definition entry_of (size i : Z) (name : ngx_hash_key_t) : option entry :=
  match str_data (hk_key name) with
  | Some data =>
      if hk_key_hash name mod size =? i then Some (hk_value name, map ngx_tolower data) else None
  | None => None
  end.

(** The names whose hash falls in bucket [i] of [size], in order. *)
Definition ents (size i : Z) (names : list ngx_hash_key_t) : list entry :=
  omap (entry_of size i) names.

(** The bytes of an element. *)
Definition esize (nm : list Z) : Z :=
  ptr_size + ngx_align (Z.of_nat (length nm) + 2) ptr_size.

Fixpoint tot (es : list entry) : Z :=
  match es with [] => 0 | (_, nm) :: es' => esize nm + tot es' end.

(** A name as the callers pass it. *)
Definition name_ok (name : ngx_hash_key_t) : Prop :=
  match str_data (hk_key name) with
  | Some data => str_len (hk_key name) = Z.of_nat (length data)
                 /\ Z.of_nat (length data) < 2 ^ (ptr_bits - 1)
                 /\ 0 < hk_value name < 2 ^ ptr_bits /\ 0 <= hk_key_hash name
  | None => True
  end.

Lemma half_pow : 2 * 2 ^ (ptr_bits - 1) = 2 ^ ptr_bits.
Proof. pose proof ptr_bits_pos. rewrite <- Z.pow_succ_r by lia. f_equal. lia. Qed.

Lemma align_word d :
  0 <= d < 2 ^ (ptr_bits - 1) + 2 -> d <= ngx_align d ptr_size < d + ptr_size
                                    /\ (ptr_size | ngx_align d ptr_size).
Proof.
  intros Hd. destruct ptr_size_pow as (k & Hk & E). rewrite E.
  pose proof ptr_bits_pos. pose proof ptr_pow_31. pose proof half_pow.
  assert (2 ^ k <= 2 ^ 3) by (apply Z.pow_le_mono_r; lia). apply align_bounds; lia.
Qed.

(** [NGX_HASH_ELT_SIZE] does not wrap. *)
Lemma elt_size_eq name data :
  name_ok name -> str_data (hk_key name) = Some data ->
  elt_size name = esize (map ngx_tolower data).
Proof.
  unfold name_ok. intros Hn E. rewrite E in Hn. destruct Hn as (El & Hl & _).
  unfold elt_size, esize. rewrite El, length_map.
  pose proof ptr_pow_31. pose proof half_pow. pose proof ptr_size_cases.
  rewrite (uint_small _ (_ + 2)) by lia.
  pose proof (align_word (Z.of_nat (length data) + 2)). apply uint_small. lia.
Qed.

Lemma esize_pos nm : Z.of_nat (length nm) < 2 ^ (ptr_bits - 1) ->
  ptr_size + 2 + Z.of_nat (length nm) <= esize nm /\ (ptr_size | esize nm).
Proof.
  intros Hl. unfold esize. pose proof (align_word (Z.of_nat (length nm) + 2)) as Hw.
  split; [lia|]. apply Z.divide_add_r; [apply Z.divide_refl|]. apply Hw. lia.
Qed.

(** Entries short enough for the table. *)
Definition short (e : entry) : Prop := Z.of_nat (length e.2) < 2 ^ (ptr_bits - 1).

Lemma tot_nonneg es : Forall short es -> 0 <= tot es /\ (ptr_size | tot es).
Proof.
  induction 1 as [|[v nm] es Hs He IH]; [split; [done|apply Z.divide_0_r]|].
  cbn [tot]. pose proof (esize_pos nm Hs). pose proof ptr_size_cases.
  split; [lia|]. apply Z.divide_add_r; [apply esize_pos, Hs | apply IH].
Qed.

Lemma tot_app es es' : tot (es ++ es') = tot es + tot es'.
Proof. induction es as [|[v nm] es IH]; simpl; lia. Qed.

Lemma ents_cons size i name names :
  ents size i (name :: names)
  = match entry_of size i name with Some e => e :: ents size i names | None => ents size i names end.
Proof. done. Qed.

Lemma ents_short size i names : Forall name_ok names -> Forall short (ents size i names).
Proof.
  induction 1 as [|name names Hn Hs IH]; [constructor|]. rewrite ents_cons.
  unfold entry_of. unfold name_ok in Hn. destruct (str_data _) as [data|]; [|done].
  destruct (_ =? _); [|done]. constructor; [|done]. unfold short. simpl. rewrite length_map. lia.
Qed.

Lemma tot_ents_nonneg size i names : Forall name_ok names -> 0 <= tot (ents size i names).
Proof. intros Hn. apply tot_nonneg, ents_short, Hn. Qed.

Lemma tot_ents_cons size i name names data :
  name_ok name -> str_data (hk_key name) = Some data ->
  tot (ents size i (name :: names))
  = (if hk_key_hash name mod size =? i then elt_size name else 0) + tot (ents size i names).
Proof.
  intros Hn E. rewrite ents_cons, (elt_size_eq _ _ Hn E). unfold entry_of. rewrite E.
  by destruct (_ =? _).
Qed.

Lemma ents_cons_null size i name names :
  str_data (hk_key name) = None -> ents size i (name :: names) = ents size i names.
Proof. intros E. rewrite ents_cons. unfold entry_of. by rewrite E. Qed.

(** ** Counting *)

Lemma elt_size_nonneg name : 0 <= elt_size name.
Proof. pose proof ptr_bits_pos. apply uint_range. lia. Qed.

Lemma bucket_range name size : 0 < size -> 0 <= hk_key_hash name mod size < size.
Proof. intros Hs. apply Z.mod_pos_bound. lia. Qed.

(** With buckets below 2^15 bytes the counters of [test] do not wrap, and a size
    is found exactly when the elements of every bucket fit. *)
Lemma try_size_spec names size bs test f :
  Forall name_ok names -> 0 < size <= Z.of_nat (length test) -> 0 <= bs < 2 ^ 15 ->
  Forall (fun name => elt_size name <= bs) names ->
  arr_is test size f -> (forall i, 0 <= i < size -> 0 <= f i <= bs) ->
  exists found test', try_size names size bs test = Some (found, test')
    /\ length test' = length test
    /\ (found = true <-> forall i, 0 <= i < size -> f i + tot (ents size i names) <= bs).
Proof.
  revert test f. induction names as [|name names IH]; intros test f Hn Hs Hb He Ht Hf.
  { exists true, test. split_and!; try done. split; [|done]. intros _ i Hi.
    specialize (Hf i Hi). simpl. lia. }
  apply Forall_cons in Hn as [Hn1 Hn]. apply Forall_cons in He as [He1 He]. cbn [try_size].
  destruct (str_data (hk_key name)) as [data|] eqn:Ed.
  2: { destruct (IH test f) as (fd & t' & E & Hl & Hfd); try done. exists fd, t'.
       split_and!; try done. rewrite Hfd. apply forall_proper. intros i.
       by rewrite ents_cons_null. }
  pose proof (bucket_range name size ltac:(lia)) as Hk. pose proof (elt_size_nonneg name).
  set (k := hk_key_hash name mod size) in *.
  rewrite (arr_get_is _ _ _ _ Ht Hk). cbn [mbind option_bind]. pose proof (Hf k Hk).
  rewrite !uint_small by (simpl; lia). rewrite arr_put_ok by lia. cbn [mbind option_bind].
  case_test.
  { eexists false, _. split; [done|]. split; [by rewrite length_insert|].
    split; [done|]. intros Hall. specialize (Hall k Hk).
    rewrite (tot_ents_cons _ _ _ _ data Hn1 Ed) in Hall. fold k in Hall. rewrite Z.eqb_refl in Hall.
    pose proof (tot_ents_nonneg size k names Hn). lia. }
  destruct (IH (<[Z.to_nat k := f k + elt_size name]> test)
              (fun j => if j =? k then f k + elt_size name else f j)) as (fd & t' & E & Hl & Hfd);
    try done.
  - rewrite length_insert. lia.
  - eapply arr_put_is; [done|lia|intros _; by rewrite Z.eqb_refl|].
    intros j _ Hj. by rewrite (proj2 (Z.eqb_neq j k)) by lia.
  - intros i Hi. case_test; [lia|]. auto.
  - exists fd, t'. rewrite length_insert in Hl. split_and!; try done. rewrite Hfd.
    apply forall_proper. intros i. rewrite (tot_ents_cons _ _ _ _ data Hn1 Ed). fold k.
    rewrite (Z.eqb_sym k i). destruct (i =? k) eqn:Ek; [apply Z.eqb_eq in Ek as ->|]; split;
      intros Hi' Hi; specialize (Hi' Hi); lia.
Qed.

(** Every bucket of a table of this size fits. *)
Definition fits (names : list ngx_hash_key_t) (bs size : Z) : Prop :=
  forall i, 0 <= i < size -> tot (ents size i names) <= bs.

(** The search stops at the first size that fits, or after [max_size]. *)
Lemma size_loop_spec n names size bs test :
  Forall name_ok names -> 0 < size -> size + Z.of_nat n - 1 <= Z.of_nat (length test) ->
  0 <= bs < 2 ^ 15 -> Forall (fun name => elt_size name <= bs) names ->
  exists size' test', size_loop n names size bs test = Some (size', test')
    /\ length test' = length test /\ size <= size'
    /\ (forall s, size <= s < size' -> ~ fits names bs s)
    /\ (size' = size + Z.of_nat n \/ size' < size + Z.of_nat n /\ fits names bs size').
Proof.
  revert size test. induction n as [|n IH]; intros size test Hn Hs Hl Hb He.
  { exists size, test. split_and!; try done; try lia. }
  cbn [size_loop]. destruct (fill_spec size 0 test) as (t1 & -> & Hl1 & Ht1); [lia|].
  cbn [mbind option_bind].
  destruct (try_size_spec names size bs t1 (fun _ => 0)) as (fd & t2 & -> & Hl2 & Hfd);
    try done; try lia. cbn [mbind option_bind].
  destruct fd.
  - exists size, t2. split_and!; try done; try lia. right. split; [lia|].
    intros i Hi. apply (proj1 Hfd eq_refl i Hi).
  - destruct (IH (size + 1) t2) as (s' & t3 & -> & Hl3 & Hle & Hno & Hend); try done; try lia.
    exists s', t3. split_and!; try done; try lia; try congruence.
    + intros s Hs'. destruct (decide (s = size)) as [->|].
      * intros Hfit. assert (false = true); [|done]. apply Hfd. apply Hfit.
      * apply Hno. lia.
    + destruct Hend as [-> | [? ?]]; [left; lia|right; split; [lia|done]].
Qed.

Lemma count_loop_spec names size test f :
  Forall name_ok names -> 0 < size <= Z.of_nat (length test) -> arr_is test size f ->
  (forall i, 0 <= i < size -> 0 <= f i /\ f i + tot (ents size i names) < 2 ^ 16) ->
  exists test', count_loop names size test = Some test' /\ length test' = length test
    /\ arr_is test' size (fun i => f i + tot (ents size i names)).
Proof.
  revert test f. induction names as [|name names IH]; intros test f Hn Hs Ht Hf.
  { exists test. split_and!; try done. intros i Hi. simpl. rewrite Z.add_0_r. auto. }
  apply Forall_cons in Hn as [Hn1 Hn]. cbn [count_loop].
  destruct (str_data (hk_key name)) as [data|] eqn:Ed.
  2: { setoid_rewrite (ents_cons_null size _ name names Ed) in Hf.
       destruct (IH test f) as (t' & E & Hl & Ht'); try done. exists t'.
       split_and!; try done. intros i Hi. rewrite ents_cons_null by done. auto. }
  pose proof (bucket_range name size ltac:(lia)) as Hk. pose proof (elt_size_nonneg name).
  setoid_rewrite (tot_ents_cons size _ name names data Hn1 Ed) in Hf.
  set (k := hk_key_hash name mod size) in *.
  rewrite (arr_get_is _ _ _ _ Ht Hk). cbn [mbind option_bind]. pose proof (Hf k Hk) as Hfk.
  rewrite Z.eqb_refl in Hfk. pose proof (tot_ents_nonneg size k names Hn).
  rewrite uint_small by lia. rewrite arr_put_ok by lia. cbn [mbind option_bind].
  destruct (IH (<[Z.to_nat k := f k + elt_size name]> test)
              (fun j => f j + (if k =? j then elt_size name else 0))) as (t' & E & Hl & Ht');
    try done.
  - rewrite length_insert. lia.
  - eapply arr_put_is; [done|lia|intros _; by rewrite Z.eqb_refl|].
    intros j _ Hj. rewrite (proj2 (Z.eqb_neq k j)) by lia. lia.
  - intros i Hi. specialize (Hf i Hi). destruct (k =? i); lia.
  - exists t'. rewrite length_insert in Hl. split_and!; try done.
    intros i Hi. rewrite Ht' by lia. rewrite (tot_ents_cons _ _ _ _ data Hn1 Ed). fold k.
    f_equal. lia.
Qed.

(** ** Placing the buckets *)

Lemma cacheline_pow : exists k, 5 <= k <= 7 /\ ngx_cacheline_size = 2 ^ k.
Proof.
  destruct cacheline_cases as [-> | [-> | ->]]; [exists 5|exists 6|exists 7]; split; done || lia.
Qed.

Lemma cacheline_range : 32 <= ngx_cacheline_size <= 128.
Proof. destruct cacheline_cases as [-> | [-> | ->]]; lia. Qed.

(** The bytes reserved for a bucket that needs [t] bytes, its end included. *)
Definition cap (t : Z) : Z := if t =? ptr_size then 0 else ngx_align t ngx_cacheline_size.

Lemma cap_bounds t :
  ptr_size < t < 2 ^ 16 ->
  t <= cap t < t + ngx_cacheline_size /\ (ngx_cacheline_size | cap t)
  /\ cap t = ngx_align t ngx_cacheline_size.
Proof.
  intros Ht. destruct cacheline_pow as (k & Hk & E). unfold cap. rewrite E.
  rewrite (proj2 (Z.eqb_neq t ptr_size)) by lia.
  pose proof ptr_bits_pos. pose proof ptr_pow_32. pose proof ptr_size_cases.
  assert (2 ^ k <= 2 ^ 7) by (apply Z.pow_le_mono_r; lia).
  destruct (align_bounds t k) as [? ?]; try lia. done.
Qed.

(** The sum of the first [n] of them. *)
Fixpoint offs (f : Z -> Z) (n : nat) : Z :=
  match n with O => 0 | S n' => offs f n' + cap (f (Z.of_nat n')) end.

Lemma round_loop_spec n i size f test len :
  0 <= i -> i + Z.of_nat n = size -> size <= Z.of_nat (length test) ->
  (forall j, 0 <= j < size -> ptr_size <= f j < 2 ^ 16 - ngx_cacheline_size) ->
  0 <= len -> (forall j : nat, Z.of_nat j <= size -> offs f j < 2 ^ ptr_bits) ->
  len = offs f (Z.to_nat i) ->
  arr_is test size (fun j => if (j <? i) && negb (f j =? ptr_size) then cap (f j) else f j) ->
  exists test', round_loop n i test len = Some (test', offs f (Z.to_nat size))
    /\ length test' = length test
    /\ arr_is test' size (fun j => if f j =? ptr_size then ptr_size else cap (f j)).
Proof.
  revert i test len. induction n as [|n IH]; intros i test len Hi Hn Hl Hf Hp Hw Hlen Ht.
  { replace size with i in * by lia. exists test. subst len. split_and!; try done. intros j Hj.
    rewrite (Ht j Hj). rewrite (proj2 (Z.ltb_lt j i)) by lia. simpl. destruct (Z.eqb_spec (f j) ptr_size) as [-> |]; done. }
  cbn [round_loop]. rewrite (arr_get_is _ _ _ _ Ht) by lia. cbn [mbind option_bind].
  rewrite Z.ltb_irrefl. cbn [andb]. pose proof (Hf i ltac:(lia)) as Hfi.
  assert (Ho : offs f (Z.to_nat (i + 1)) = offs f (Z.to_nat i) + cap (f i)).
  { replace (Z.to_nat (i + 1)) with (S (Z.to_nat i)) by lia. simpl. by rewrite Z2Nat.id by lia. }
  destruct (f i =? ptr_size) eqn:Ef.
  - apply (IH (i + 1)); try done; try lia.
    + rewrite Ho, <- Hlen. unfold cap. rewrite Ef. lia.
    + intros j Hj. rewrite (Ht j Hj). destruct (decide (j = i)) as [->|].
      * by rewrite Ef, !andb_false_r.
      * by replace (j <? i + 1) with (j <? i) by lia.
  - apply Z.eqb_neq in Ef. pose proof cacheline_range. pose proof ptr_size_cases.
    destruct (cap_bounds (f i)) as (Hc & _ & Ec); [lia|].
    rewrite <- Ec, (uint_small 16) by lia.
    pose proof (Hw (Z.to_nat (i + 1)) ltac:(lia)) as Hwi. rewrite Ho, <- Hlen in Hwi.
    rewrite (uint_small ptr_bits) by lia. rewrite arr_put_ok by lia. cbn [mbind option_bind].
    destruct (IH (i + 1) (<[Z.to_nat i := cap (f i)]> test) (len + cap (f i)))
      as (t' & E & Hl' & Ht'); try done; try lia.
    + rewrite length_insert. lia.
    + eapply arr_put_is; [done|lia| |].
      * intros _. by rewrite (proj2 (Z.ltb_lt i (i + 1))), (proj2 (Z.eqb_neq _ _) Ef) by lia.
      * intros j _ Hj. by replace (j <? i + 1) with (j <? i) by lia.
    + exists t'. rewrite length_insert in Hl'. done.
Qed.

Lemma place_loop_spec n i size f test elts0 elts buckets :
  0 <= i -> i + Z.of_nat n = size -> size <= Z.of_nat (length buckets) ->
  (forall j, 0 <= j < size -> ptr_size <= f j < 2 ^ 16 - ngx_cacheline_size) ->
  arr_is test size (fun j => if f j =? ptr_size then ptr_size else cap (f j)) ->
  elts = elts0 + offs f (Z.to_nat i) ->
  arr_is buckets size (fun j => if (j <? i) && negb (f j =? ptr_size)
                                then elts0 + offs f (Z.to_nat j) else 0) ->
  exists buckets', place_loop n i test elts buckets = Some buckets'
    /\ length buckets' = length buckets
    /\ arr_is buckets' size
         (fun j => if f j =? ptr_size then 0 else elts0 + offs f (Z.to_nat j)).
Proof.
  revert i elts buckets. induction n as [|n IH]; intros i elts bk Hi Hn Hl Hf Ht He Hb.
  { replace size with i in * by lia. exists bk. split_and!; try done. intros j Hj.
    rewrite (Hb j Hj). rewrite (proj2 (Z.ltb_lt j i)) by lia. simpl. by destruct (f j =? _). }
  cbn [place_loop]. rewrite (arr_get_is _ _ _ _ Ht) by lia. cbn [mbind option_bind].
  pose proof (Hf i ltac:(lia)) as Hfi.
  assert (Ho : offs f (Z.to_nat (i + 1)) = offs f (Z.to_nat i) + cap (f i)).
  { replace (Z.to_nat (i + 1)) with (S (Z.to_nat i)) by lia. simpl. by rewrite Z2Nat.id by lia. }
  destruct (f i =? ptr_size) eqn:Ef.
  - rewrite Z.eqb_refl. apply (IH (i + 1)); try done; try lia.
    + rewrite Ho, He. unfold cap. rewrite Ef. lia.
    + intros j Hj. rewrite (Hb j Hj). destruct (decide (j = i)) as [->|].
      * by rewrite Ef, !andb_false_r.
      * by replace (j <? i + 1) with (j <? i) by lia.
  - apply Z.eqb_neq in Ef. pose proof cacheline_range. pose proof ptr_size_cases.
    destruct (cap_bounds (f i)) as (Hc & _ & Ec); [lia|].
    rewrite (proj2 (Z.eqb_neq (cap (f i)) ptr_size)) by lia.
    rewrite arr_put_ok by lia. cbn [mbind option_bind].
    destruct (IH (i + 1) (elts + cap (f i)) (<[Z.to_nat i := elts]> bk)) as (b' & E & Hl' & Hb');
      try done; try lia.
    + rewrite length_insert. lia.
    + eapply arr_put_is; [done|lia| |].
      * intros _. by rewrite (proj2 (Z.ltb_lt i (i + 1))), (proj2 (Z.eqb_neq _ _) Ef) by lia.
      * intros j _ Hj. by replace (j <? i + 1) with (j <? i) by lia.
    + exists b'. rewrite length_insert in Hl'. done.
Qed.

End HashTable.
End HashTable.
