(* ===== verification/NgxHashSpec.v ===== *)
(** * What a hash table holds

    The memory [ngx_hash_init] fills (see [NgxHashTable]) is a row of elements per
    bucket, and [ngx_hash_find] walks it: a table that was built finds for every
    name the value of the first key that is equal to it in lower case. *)

From S2P Require Import Prelude NgxString NgxHash NgxMemory NgxHashTable.

Module HashSpec.
Import HashTable.

Section HashSpec.
Context `{Arch} `{Cacheline}.

(** ** Elements in memory *)

Record elt_at (m : block) (a v : Z) (nm : list Z) : Prop := {
  elt_value : get_word m a = Some v;
  elt_len : get_short m (a + ptr_size) = Some (Z.of_nat (length nm));
  elt_name : blk_get m (a + ptr_size + 2) (Z.of_nat (length nm)) = Some nm
}.

(** Elements one after the other. *)
Fixpoint row (m : block) (a : Z) (es : list (Z * list Z)) : Prop :=
  match es with
  | [] => True
  | (v, nm) :: es' => elt_at m a v nm /\ row m (a + esize nm) es'
  end.

Lemma row_app m a es es' : row m a (es ++ es') <-> row m a es /\ row m (a + tot es) es'.
Proof.
  revert a. induction es as [|[v nm] es IH]; intros a; simpl.
  - rewrite Z.add_0_r. tauto.
  - rewrite IH, Z.add_assoc. tauto.
Qed.

(** Two blocks agree on a range of addresses. *)
Definition agree (m m' : block) (a n : Z) : Prop :=
  forall c k, a <= c -> c + k <= a + n -> blk_get m' c k = blk_get m c k.

Lemma agree_sub m m' a n b k : agree m m' a n -> a <= b -> b + k <= a + n -> agree m m' b k.
Proof. intros Ha H1 H2 c j Hc Hj. apply Ha; lia. Qed.

Lemma agree_trans m1 m2 m3 a n : agree m1 m2 a n -> agree m2 m3 a n -> agree m1 m3 a n.
Proof. intros H1 H2 c k Hc Hk. rewrite H2, H1; done. Qed.

Lemma put_agree m a bs m' b n :
  blk_put m a bs = Some m' -> b + n <= a \/ a + Z.of_nat (length bs) <= b -> agree m m' b n.
Proof. intros E Hd c k Hc Hk. apply (blk_get_other _ _ _ _ _ _ E). lia. Qed.

Lemma elt_agree m m' a v nm :
  short (v, nm) -> agree m m' a (esize nm) -> elt_at m a v nm -> elt_at m' a v nm.
Proof.
  intros Hs Ha [H1 H2 H3]. pose proof (esize_pos nm Hs). pose proof ptr_size_cases.
  split; unfold get_word, get_short in *; rewrite Ha; (done || lia).
Qed.

Lemma row_agree m m' a es :
  Forall short es -> agree m m' a (tot es) -> row m a es -> row m' a es.
Proof.
  intros Hs. revert a. induction Hs as [|[v nm] es Hs Hf IH]; intros a Ha; simpl; [done|].
  intros [H1 H2]. cbn [tot] in Ha. pose proof (tot_nonneg es Hf). pose proof (esize_pos nm Hs).
  pose proof ptr_size_cases.
  split; [eapply elt_agree; [done| |done]|apply IH; [|done]]; eapply agree_sub; (done || lia).
Qed.

Lemma put_word_ok m a v :
  in_block m a ptr_size -> 0 <= v < 2 ^ ptr_bits ->
  exists m', put_word m a v = Some m' /\ same_block m m' /\ get_word m' a = Some v
    /\ forall b n, b + n <= a \/ a + ptr_size <= b -> agree m m' b n.
Proof.
  intros Hin Hv. pose proof ptr_size_cases. unfold put_word, get_word.
  assert (El : Z.of_nat (length (le_bytes (Z.to_nat ptr_size) v)) = ptr_size)
    by (rewrite le_bytes_length; lia).
  destruct (blk_put_ok m a (le_bytes (Z.to_nat ptr_size) v)) as [m' E]; [by rewrite El|].
  exists m'. split; [done|]. destruct (blk_put_in _ _ _ _ E) as [_ Hsb].
  split; [done|]. pose proof (blk_get_put _ _ _ _ E) as Hg. rewrite El in Hg. split.
  - rewrite Hg. simpl. f_equal. apply le_roundtrip. rewrite Z2Nat.id, word_pow by lia. done.
  - intros b n Hb. eapply put_agree; [done|]. lia.
Qed.

Lemma put_short_ok m a v :
  in_block m a 2 -> 0 <= v < 2 ^ 16 ->
  exists m', put_short m a v = Some m' /\ same_block m m' /\ get_short m' a = Some v
    /\ forall b n, b + n <= a \/ a + 2 <= b -> agree m m' b n.
Proof.
  intros Hin Hv. unfold put_short, get_short.
  destruct (blk_put_ok m a (le_bytes 2 v)) as [m' E]; [done|].
  exists m'. split; [done|]. destruct (blk_put_in _ _ _ _ E) as [_ Hsb].
  split; [done|]. split.
  - pose proof (blk_get_put _ _ _ _ E) as Hg. rewrite le_bytes_length in Hg.
    change (Z.of_nat 2) with 2 in Hg. rewrite Hg. cbn [fmap option_fmap option_map].
    f_equal. by apply (le_roundtrip 2).
  - intros b n Hb. eapply put_agree; [done|]. by rewrite le_bytes_length.
Qed.

(** Storing an element changes the bytes of the element only. *)
Lemma store_elt_ok m a name data :
  name_ok name -> str_data (hk_key name) = Some data ->
  esize (map ngx_tolower data) <= 2 ^ 16 -> in_block m a (esize (map ngx_tolower data)) ->
  exists m', store_elt m a name data = Some m' /\ same_block m m'
    /\ elt_at m' a (hk_value name) (map ngx_tolower data)
    /\ forall b n, b + n <= a \/ a + esize (map ngx_tolower data) <= b -> agree m m' b n.
Proof.
  unfold name_ok. intros Hn Ed He Hin. rewrite Ed in Hn. destruct Hn as (El & Hl & Hv & _).
  set (nm := map ngx_tolower data) in *.
  assert (Eln : length nm = length data) by apply length_map.
  destruct (esize_pos nm) as [Hes _]; [by rewrite Eln|]. pose proof ptr_size_cases.
  destruct Hin as (I1 & I2 & I3). unfold store_elt.
  destruct (put_word_ok m a (hk_value name)) as (m1 & -> & S1 & G1 & A1); [repeat split; lia|lia|].
  cbn [mbind option_bind]. rewrite El, uint_small by lia.
  destruct (put_short_ok m1 (a + ptr_size) (Z.of_nat (length data))) as (m2 & -> & S2 & G2 & A2);
    [eapply same_block_in; [done|]; repeat split; lia|lia|].
  cbn [mbind option_bind]. rewrite Nat2Z.id, ngx_strlow_map, firstn_all by done.
  cbn [mbind option_bind]. fold nm.
  destruct (blk_put_ok m2 (a + ptr_size + 2) nm) as [m3 E3].
  { eapply same_block_in; [done|]. eapply same_block_in; [done|]. repeat split; lia. }
  exists m3. split; [done|]. destruct (blk_put_in _ _ _ _ E3) as [_ S3].
  split; [by etransitivity; [|etransitivity]|].
  assert (A3 : forall b n, b + n <= a + ptr_size + 2 \/ a + esize nm <= b -> agree m2 m3 b n).
  { intros b n Hb. eapply put_agree; [done|]. lia. }
  split; [split|].
  - unfold get_word. rewrite (A3 a ptr_size), (A2 a ptr_size) by lia. apply G1.
  - unfold get_short. rewrite (A3 (a + ptr_size) 2) by lia. by rewrite Eln.
  - apply (blk_get_put _ _ _ _ E3).
  - intros b n Hb. eapply agree_trans; [apply A1; lia|]. eapply agree_trans; [apply A2; lia|].
    apply A3. lia.
Qed.

(** ** Buckets in memory *)

(** Where the buckets are: [b i] is the address of the [i]-th, 0 for none, and
    [c i] the number of bytes reserved for it. *)
Record layout (size : Z) (b c : Z -> Z) (m : block) : Prop := {
  lay_in : forall i, 0 <= i < size -> b i <> 0 -> in_block m (b i) (c i);
  lay_aligned : forall i, 0 <= i < size -> b i <> 0 -> (ptr_size | b i);
  lay_apart : forall i j, 0 <= i < size -> 0 <= j < size -> i <> j -> b i <> 0 -> b j <> 0 ->
    b i + c i <= b j \/ b j + c j <= b i
}.

Lemma layout_same size b c m m' : same_block m m' -> layout size b c m -> layout size b c m'.
Proof.
  intros Hs [H1 H2 H3]. split; [|done|done]. intros i Hi Hb. eapply same_block_in; eauto.
Qed.

(** The buckets hold their entries. *)
Definition rows (size : Z) (b : Z -> Z) (m : block) (acc : Z -> list (Z * list Z)) : Prop :=
  forall i, 0 <= i < size -> b i <> 0 -> row m (b i) (acc i).

(** The bytes outside of the unused part of bucket [k] are those of other
    buckets, or the used part of this one. *)
Lemma rows_agree size b c m m' acc k :
  layout size b c m -> 0 <= k < size -> b k <> 0 ->
  (forall i, 0 <= i < size -> Forall short (acc i)) ->
  (forall i, 0 <= i < size -> b i <> 0 -> tot (acc i) <= c i) ->
  (forall a n, a + n <= b k + tot (acc k) \/ b k + c k <= a -> agree m m' a n) ->
  rows size b m acc -> rows size b m' acc.
Proof.
  intros Hlay Hk Hbk Hs Hc Ha Hr i Hi Hb. eapply row_agree; [by apply Hs| |by apply Hr].
  apply Ha. destruct (decide (i = k)) as [->|Hne]; [lia|].
  pose proof (Hc i Hi Hb). pose proof (Hc k Hk Hbk).
  pose proof (tot_nonneg _ (Hs k Hk)). destruct (lay_apart _ _ _ _ Hlay i k); lia.
Qed.

Lemma store_loop_spec names size b c buckets test m acc :
  Forall name_ok names -> 0 < size <= Z.of_nat (length test) -> arr_is buckets size b ->
  arr_is test size (fun i => tot (acc i)) -> layout size b c m -> rows size b m acc ->
  (forall i, 0 <= i < size -> Forall short (acc i)) ->
  (forall i, 0 <= i < size -> ents size i names <> [] -> b i <> 0) ->
  (forall i, 0 <= i < size -> b i <> 0 ->
     tot (acc i) + tot (ents size i names) + ptr_size <= c i /\ c i <= 2 ^ 16) ->
  exists test' m', store_loop names size buckets test m = Some (test', m')
    /\ same_block m m' /\ length test' = length test
    /\ arr_is test' size (fun i => tot (acc i ++ ents size i names))
    /\ rows size b m' (fun i => acc i ++ ents size i names).
Proof.
  revert test m acc. induction names as [|name names IH];
    intros test m acc Hn Hs Hb Ht Hlay Hr Hsh Hne Hc.
  { exists test, m. split_and!; try done; intros i Hi; simpl; rewrite app_nil_r; auto. }
  apply Forall_cons in Hn as [Hn1 Hn]. cbn [store_loop].
  destruct (str_data (hk_key name)) as [data|] eqn:Ed.
  2: { assert (E : forall i, ents size i (name :: names) = ents size i names)
         by (intros; by apply ents_cons_null).
       destruct (IH test m acc) as (t' & m' & E' & Sb & Hl & Ht' & Hr'); try done.
       - intros i Hi. rewrite <- E. auto.
       - intros i Hi. rewrite <- E. auto.
       - exists t', m'. split_and!; try done; intros i Hi; rewrite E; auto. }
  pose proof (bucket_range name size ltac:(lia)) as Hk.
  set (k := hk_key_hash name mod size) in *.
  set (e := (hk_value name, map ngx_tolower data)).
  assert (Ek : ents size k (name :: names) = e :: ents size k names).
  { rewrite ents_cons. unfold entry_of. rewrite Ed. fold k. by rewrite Z.eqb_refl. }
  assert (Eo : forall i, i <> k -> ents size i (name :: names) = ents size i names).
  { intros i Hi. rewrite ents_cons. unfold entry_of. rewrite Ed. fold k.
    by rewrite (proj2 (Z.eqb_neq k i)) by lia. }
  assert (Hbk : b k <> 0) by (apply Hne; [done|by rewrite Ek]).
  pose proof (Hc k Hk Hbk) as Hck. rewrite Ek in Hck. cbn [tot e] in Hck.
  pose proof (ents_short size k names Hn) as Hsk. pose proof (tot_nonneg _ Hsk).
  assert (Hse : short e).
  { pose proof Hn1 as Hx. unfold name_ok in Hx. rewrite Ed in Hx. unfold short, e. simpl.
    rewrite length_map. lia. }
  pose proof (tot_nonneg _ (Hsh k Hk)). pose proof (esize_pos _ Hse). pose proof ptr_size_cases.
  rewrite (arr_get_is _ _ _ _ Hb Hk), (arr_get_is _ _ _ _ Ht Hk). cbn [mbind option_bind].
  destruct (lay_in _ _ _ _ Hlay k Hk Hbk) as (L1 & L2 & L3).
  unfold e in *. cbn [snd] in *.
  destruct (store_elt_ok m (b k + tot (acc k)) name data) as (m1 & -> & S1 & G1 & A1); try done.
  { lia. } { repeat split; lia. }
  cbn [mbind option_bind]. rewrite (elt_size_eq _ _ Hn1 Ed), uint_small by lia.
  rewrite arr_put_ok by lia. cbn [mbind option_bind].
  set (acc' := fun i => if i =? k then acc k ++ [e] else acc i).
  destruct (IH (<[Z.to_nat k := tot (acc k) + esize (map ngx_tolower data)]> test) m1 acc')
    as (t' & m' & E' & Sb & Hl & Ht' & Hr'); try done.
  - rewrite length_insert. lia.
  - eapply arr_put_is; [done|lia| |].
    + intros _. unfold acc'. rewrite Z.eqb_refl, tot_app. simpl. lia.
    + intros j _ Hj. unfold acc'. by rewrite (proj2 (Z.eqb_neq j k)) by lia.
  - eapply layout_same; done.
  - assert (Hr1 : rows size b m1 acc).
    { eapply (rows_agree size b c m m1 acc k); try done.
      - intros i Hi Hbi. pose proof (Hc i Hi Hbi). 
        pose proof (tot_ents_nonneg size i (name :: names) ltac:(by constructor)). lia.
      - intros a n Ha. apply A1. lia. }
    intros i Hi Hbi. unfold acc'. destruct (Z.eqb_spec i k) as [->|]; [|by apply Hr1].
    apply row_app. split; [by apply Hr1|]. simpl. done.
  - intros i Hi. unfold acc'. destruct (Z.eqb_spec i k) as [->|]; [|by apply Hsh].
    apply Forall_app. split; [by apply Hsh|]. by constructor.
  - intros i Hi Hx. apply Hne; [done|]. destruct (decide (i = k)) as [->|]; [by rewrite Ek|].
    by rewrite Eo.
  - intros i Hi Hbi. unfold acc'. destruct (Z.eqb_spec i k) as [->|Hik].
    + rewrite tot_app. simpl. lia.
    + rewrite <- (Eo i Hik). auto.
  - exists t', m'. rewrite length_insert in Hl. split_and!; try done.
    + by etransitivity.
    + intros i Hi. rewrite Ht' by done. f_equal. unfold acc'.
      destruct (Z.eqb_spec i k) as [->|Hik]; [by rewrite Ek, <- app_assoc|by rewrite Eo].
    + intros i Hi Hbi. specialize (Hr' i Hi Hbi). revert Hr'. unfold acc'. cbv beta.
      destruct (Z.eqb_spec i k) as [->|Hik]; [by rewrite Ek, <- app_assoc|by rewrite Eo].
Qed.

(** The end of the buckets below [i] is marked. *)
Definition ended (b : Z -> Z) (m : block) (acc : Z -> list (Z * list Z)) (i : Z) : Prop :=
  forall j, 0 <= j < i -> b j <> 0 -> get_word m (b j + tot (acc j)) = Some 0.

Lemma end_loop_spec n i size b c buckets test m acc :
  0 <= i -> i + Z.of_nat n = size -> arr_is buckets size b ->
  arr_is test size (fun i => tot (acc i)) -> layout size b c m -> rows size b m acc ->
  (forall i, 0 <= i < size -> Forall short (acc i)) ->
  (forall i, 0 <= i < size -> b i <> 0 -> tot (acc i) + ptr_size <= c i) ->
  ended b m acc i ->
  exists m', end_loop n i buckets test m = Some m' /\ same_block m m'
    /\ rows size b m' acc /\ ended b m' acc size.
Proof.
  revert i m. induction n as [|n IH]; intros i m Hi Hn Hb Ht Hlay Hr Hsh Hc He.
  { replace size with i in * by lia. by exists m. }
  cbn [end_loop]. assert (Hi' : 0 <= i < size) by lia.
  rewrite (arr_get_is _ _ _ _ Hb Hi'). cbn [mbind option_bind]. destruct (Z.eqb_spec (b i) 0) as [Hbi|Hbi].
  - apply (IH (i + 1)); try done; try lia. intros j Hj Hbj. apply He; [|done].
    destruct (decide (j = i)) as [->|]; lia.
  - rewrite (arr_get_is _ _ _ _ Ht Hi'). cbn [mbind option_bind].
    destruct (lay_in _ _ _ _ Hlay i Hi') as (L1 & L2 & L3); [exact Hbi|].
    pose proof (Hc i Hi' Hbi). pose proof (tot_nonneg _ (Hsh i Hi')).
    pose proof ptr_size_cases. pose proof ptr_pow_32.
    destruct (put_word_ok m (b i + tot (acc i)) 0) as (m1 & -> & S1 & G1 & A1);
      [repeat split; lia|lia|]. cbn [mbind option_bind].
    destruct (IH (i + 1) m1) as (m' & E & S2 & Hr' & He'); try done; try lia.
    + eapply layout_same; done.
    + eapply (rows_agree size b c m m1 acc i); try done.
      * intros j Hj Hbj. pose proof (Hc j Hj Hbj). lia.
      * intros a k Ha. apply A1. lia.
    + intros j Hj Hbj. destruct (decide (j = i)) as [->|]; [done|].
      assert (Hj' : 0 <= j < size) by lia. pose proof (Hc j Hj' Hbj).
      unfold get_word. rewrite (A1 (b j + tot (acc j)) ptr_size); [apply He; [lia|done]| |lia|lia].
      pose proof (tot_nonneg _ (Hsh j Hj')).
      destruct (lay_apart _ _ _ _ Hlay j i Hj' Hi'); try done; lia.
    + exists m'. split_and!; try done. by etransitivity.
Qed.

(** ** Searching *)

(** The value of the first entry with the name, 0 for none. *)
Fixpoint assoc (es : list (Z * list Z)) (name : list Z) : Z :=
  match es with
  | [] => 0
  | (v, nm) :: es' => if decide (name = nm) then v else assoc es' name
  end.

Lemma same_name_spec m name nm a :
  length name = length nm -> blk_get m a (Z.of_nat (length nm)) = Some nm ->
  same_name m name a = Some (bool_decide (name = nm)).
Proof.
  intros Hl Hg.
  assert (Hb : forall i b, nm !! i = Some b -> get_byte m (a + Z.of_nat i) = Some b).
  { intros i b Hi. unfold get_byte. rewrite (blk_get_byte _ _ _ _ _ _ Hg Hi). simpl. f_equal. lia. }
  clear Hg. revert nm a Hl Hb. induction name as [|x name IH]; intros nm a Hl Hb.
  { destruct nm; [|done]. by rewrite bool_decide_true. }
  destruct nm as [|y nm]; [done|]. cbn [same_name].
  pose proof (Hb O y eq_refl) as E. rewrite Z.add_0_r in E. rewrite E. cbn [mbind option_bind].
  destruct (Z.eqb_spec x y) as [->|Hxy].
  - rewrite (IH nm); [|by injection Hl|].
    + f_equal. apply bool_decide_ext. split; congruence.
    + intros i b Hi. specialize (Hb (S i) b Hi). rewrite <- Hb. f_equal. lia.
  - rewrite bool_decide_false; congruence.
Qed.

Lemma elt_next_eq a nm :
  0 <= a -> (ptr_size | a) -> Z.of_nat (length nm) < 2 ^ (ptr_bits - 1) ->
  a + esize nm + ptr_size <= 2 ^ ptr_bits -> elt_next a (Z.of_nat (length nm)) = a + esize nm.
Proof.
  intros Ha Hd Hl Hw. destruct (esize_pos nm Hl) as [He _]. revert Hw He Hd.
  unfold elt_next, ngx_align_ptr, esize. destruct ptr_size_pow as (k & Hk & ->). intros Hw He Hd.
  pose proof ptr_bits_pos.
  replace (a + 2 ^ k + 2 + Z.of_nat (length nm))
    with ((a + 2 ^ k) + (Z.of_nat (length nm) + 2)) by lia.
  rewrite align_add; try lia.
  apply Z.divide_add_r; [done|apply Z.divide_refl].
Qed.

(** A row of elements that ends with a null value is searched to its end. *)
Lemma row_find_spec fuel m a es name :
  (length es < fuel)%nat -> 0 <= a -> (ptr_size | a) -> row m a es -> Forall short es ->
  Forall (fun e => e.1 <> 0) es -> get_word m (a + tot es) = Some 0 ->
  a + tot es + ptr_size <= 2 ^ ptr_bits ->
  find_loop fuel m name a = Some (assoc es name).
Proof.
  revert a es. induction fuel as [|fuel IH]; intros a es Hf Ha Hd Hr Hs Hv Hend Hw; [lia|].
  cbn [find_loop]. destruct es as [|[v nm] es].
  { cbn [tot] in Hend. rewrite Z.add_0_r in Hend. by rewrite Hend. }
  cbn [row tot length] in *. destruct Hr as [[E1 E2 E3] Hr].
  apply Forall_cons in Hs as [Hs1 Hs]. apply Forall_cons in Hv as [Hv1 Hv]. simpl in Hv1.
  rewrite E1. cbn [mbind option_bind]. rewrite (proj2 (Z.eqb_neq v 0)) by done.
  rewrite E2. cbn [mbind option_bind]. unfold short in Hs1. cbn [snd] in Hs1.
  pose proof (tot_nonneg _ Hs) as [Ht0 _]. destruct (esize_pos nm Hs1) as [He Hed].
  pose proof ptr_size_cases.
  assert (Hnext : find_loop fuel m name (elt_next a (Z.of_nat (length nm)))
                  = Some (assoc es name)).
  { rewrite elt_next_eq by (done || lia). apply IH; try done; try lia.
    - by apply Z.divide_add_r.
    - by rewrite <- Z.add_assoc. }
  cbn [assoc]. case_test.
  - rewrite (same_name_spec m name nm) by (done || lia). cbn [mbind option_bind].
    case_bool_decide; [by rewrite decide_True|by rewrite decide_False].
  - rewrite decide_False by (intros ->; lia). done.
Qed.

Lemma row_count es : Forall short es -> 8 * Z.of_nat (length es) <= tot es.
Proof.
  induction 1 as [|[v nm] es Hs He IH]; simpl; [lia|].
  pose proof (esize_pos nm Hs) as [Hp [q Hq]]. pose proof ptr_size_cases. nia.
Qed.

(** ** The table *)

(** What a bucket needs: its elements and the null value. *)
Definition need (names : list ngx_hash_key_t) (size i : Z) : Z := ptr_size + tot (ents size i names).

Lemma cap_nonneg t : ptr_size <= t < 2 ^ 16 -> 0 <= cap t.
Proof.
  intros Ht. pose proof ptr_size_cases. destruct (decide (t = ptr_size)) as [->|].
  - unfold cap. rewrite Z.eqb_refl. lia.
  - pose proof (cap_bounds t). lia.
Qed.

Lemma offs_step f i : 0 <= i -> offs f (Z.to_nat (i + 1)) = offs f (Z.to_nat i) + cap (f i).
Proof.
  intros Hi. replace (Z.to_nat (i + 1)) with (S (Z.to_nat i)) by lia. simpl.
  by rewrite Z2Nat.id by lia.
Qed.

(** The offsets grow, are multiples of a cache line, and are bounded. *)
Lemma offs_mono f size i j :
  (forall k, 0 <= k < size -> ptr_size <= f k < 2 ^ 16) -> 0 <= i < j -> j <= size ->
  offs f (Z.to_nat i) + cap (f i) <= offs f (Z.to_nat j).
Proof.
  intros Hf Hi Hj. replace j with (i + 1 + Z.of_nat (Z.to_nat (j - i - 1))) in * by lia.
  generalize dependent (Z.to_nat (j - i - 1)). intros n Hn1 Hn2.
  induction n as [|n IH].
  - rewrite Z.add_0_r, offs_step by lia. lia.
  - replace (i + 1 + Z.of_nat (S n)) with (i + 1 + Z.of_nat n + 1) by lia.
    rewrite offs_step by lia. pose proof (cap_nonneg (f (i + 1 + Z.of_nat n))) as Hc.
    specialize (Hf (i + 1 + Z.of_nat n)). lia.
Qed.

Lemma offs_bounds f size M n :
  (forall k, 0 <= k < size -> ptr_size <= f k < 2 ^ 16 /\ f k + ngx_cacheline_size <= M) ->
  Z.of_nat n <= size ->
  0 <= offs f n <= Z.of_nat n * M /\ (ngx_cacheline_size | offs f n).
Proof.
  intros Hf. induction n as [|n IH]; intros Hn; simpl offs; [split; [lia|apply Z.divide_0_r]|].
  destruct IH as [IH1 IH2]; [lia|]. destruct (Hf (Z.of_nat n)) as [Hfn HM]; [lia|].
  pose proof cacheline_range. pose proof ptr_size_cases.
  destruct (decide (f (Z.of_nat n) = ptr_size)) as [E|E].
  - unfold cap. rewrite E, Z.eqb_refl, Z.add_0_r. split; [lia|done].
  - destruct (cap_bounds (f (Z.of_nat n))) as (Hc & Hd & _); [lia|]. split; [lia|].
    by apply Z.divide_add_r.
Qed.

Lemma ptr_cacheline : (ptr_size | ngx_cacheline_size).
Proof.
  destruct ptr_size_pow as (k & Hk & ->). destruct cacheline_pow as (l & Hl & ->).
  exists (2 ^ (l - k)). rewrite <- Z.pow_add_r by lia. f_equal. lia.
Qed.

(** Where [ngx_hash_init] places the buckets. *)
Lemma layout_offs size f M addr bs :
  (forall k, 0 <= k < size -> ptr_size <= f k < 2 ^ 16 /\ f k + ngx_cacheline_size <= M) ->
  0 < size -> 0 < addr -> addr + ngx_cacheline_size <= 2 ^ ptr_bits ->
  Z.of_nat (length bs) = offs f (Z.to_nat size) + ngx_cacheline_size ->
  let elts := ngx_align_ptr addr ngx_cacheline_size in
  layout size (fun j => if f j =? ptr_size then 0 else elts + offs f (Z.to_nat j))
    (fun j => cap (f j)) (Block addr bs) /\ addr <= elts.
Proof.
  intros Hf Hs Ha Hw Hl elts.
  assert (He : addr <= elts < addr + ngx_cacheline_size /\ (ngx_cacheline_size | elts)).
  { unfold elts, ngx_align_ptr. destruct cacheline_pow as (k & Hk & E).
    pose proof ptr_bits_pos. rewrite E in *. apply align_bounds; lia. }
  destruct He as [He Hde]. split; [|lia].
  assert (Hf' : forall k, 0 <= k < size -> ptr_size <= f k < 2 ^ 16) by (intros; by apply Hf).
  split.
  - intros i Hi Hb. pose proof (offs_mono f size i size Hf' ltac:(lia) ltac:(lia)).
    pose proof (offs_bounds f size M (Z.to_nat i) Hf ltac:(lia)) as [? _].
    pose proof (cap_nonneg (f i) (Hf' i Hi)). destruct (f i =? ptr_size); [done|].
    unfold in_block, b_size. simpl. lia.
  - intros i Hi Hb. destruct (f i =? ptr_size); [done|].
    pose proof (offs_bounds f size M (Z.to_nat i) Hf ltac:(lia)) as [_ Hd].
    etransitivity; [apply ptr_cacheline|]. by apply Z.divide_add_r.
  - intros i j Hi Hj Hne Hbi Hbj.
    destruct (f i =? ptr_size); [done|]. destruct (f j =? ptr_size); [done|].
    destruct (decide (i < j)).
    + left. pose proof (offs_mono f size i j Hf' ltac:(lia) ltac:(lia)). lia.
    + right. pose proof (offs_mono f size j i Hf' ltac:(lia) ltac:(lia)). lia.
Qed.

(** A table in memory that finds what the names say. *)
Definition table_of (names : list ngx_hash_key_t) (size : Z) (h : ngx_hash_t) : Prop :=
  h_size h = size /\
  forall key name, ngx_hash_find h key name = Some (assoc (ents size (key mod size) names) name).

Lemma ents_values size i names :
  Forall name_ok names -> Forall (fun e => e.1 <> 0) (ents size i names).
Proof.
  induction 1 as [|name names Hn Hs IH]; [constructor|]. rewrite ents_cons.
  unfold entry_of. unfold name_ok in Hn. destruct (str_data _) as [data|]; [|done].
  destruct (_ =? _); [|done]. constructor; [|done]. simpl. lia.
Qed.

Lemma table_in_memory names size b c buckets m :
  Forall name_ok names -> 0 < size -> arr_is buckets size b -> layout size b c m ->
  rows size b m (fun i => ents size i names) -> ended b m (fun i => ents size i names) size ->
  (forall i, 0 <= i < size -> b i <> 0 -> need names size i <= c i) ->
  (forall i, 0 <= i < size -> b i = 0 -> ents size i names = []) ->
  0 <= b_base m -> b_base m + b_size m <= 2 ^ ptr_bits ->
  table_of names size (Hash buckets size m).
Proof.
  intros Hn Hs Hb Hlay Hr He Hc Hz Hm0 Hm. split; [done|]. intros key name.
  unfold ngx_hash_find. cbn [h_size h_buckets h_elts].
  rewrite (proj2 (Z.eqb_neq size 0)) by lia.
  assert (Hi : 0 <= key mod size < size) by (apply Z.mod_pos_bound; lia).
  set (i := key mod size) in *. rewrite (Hb i Hi). cbn [mbind option_bind].
  destruct (Z.eqb_spec (b i) 0) as [E|E]; [by rewrite (Hz i Hi E)|].
  destruct (lay_in _ _ _ _ Hlay i Hi E) as (L1 & L2 & L3). pose proof (Hc i Hi E) as Hci.
  pose proof (ents_short size i names Hn) as Hsh. unfold need in Hci.
  pose proof (row_count _ Hsh). pose proof (tot_nonneg _ Hsh). pose proof ptr_size_cases.
  unfold b_size in *. apply row_find_spec; try done; try lia.
  - by apply (lay_aligned _ _ _ _ Hlay).
  - by apply Hr.
  - by apply ents_values.
  - by apply He.
Qed.

Lemma fresh_length junk n : 0 <= n -> Z.of_nat (length (fresh junk n)) = n.
Proof. intros Hn. unfold fresh. rewrite length_map, length_seq. lia. Qed.

(** A bucket needs more than its end when it has an element. *)
Lemma need_empty names size i :
  Forall name_ok names -> need names size i = ptr_size <-> ents size i names = [].
Proof.
  intros Hn. unfold need. split; [|intros ->; simpl; lia]. intros E.
  destruct (ents size i names) as [|e es] eqn:Ee; [done|].
  pose proof (ents_short size i names Hn) as Hsh. rewrite Ee in Hsh.
  pose proof (row_count _ Hsh). cbn [length] in *. lia.
Qed.

(** The two last loops, on buckets that are placed. *)
Lemma fill_table names size b c bk test m :
  Forall name_ok names -> 0 < size <= Z.of_nat (length test) -> arr_is bk size b ->
  arr_is test size (fun _ => 0) -> layout size b c m ->
  (forall i, 0 <= i < size -> b i = 0 <-> need names size i = ptr_size) ->
  (forall i, 0 <= i < size -> b i <> 0 -> need names size i <= c i <= 2 ^ 16) ->
  0 <= b_base m -> b_base m + b_size m <= 2 ^ ptr_bits ->
  exists test' m1 m2, store_loop names size bk test m = Some (test', m1)
    /\ end_loop (Z.to_nat size) 0 bk test' m1 = Some m2
    /\ table_of names size (Hash bk size m2).
Proof.
  intros Hn Hs Hb Ht Hlay Hz Hc Hm0 Hm.
  destruct (store_loop_spec names size b c bk test m (fun _ => []) Hn Hs Hb Ht Hlay)
    as (t5 & m1 & E1 & S1 & Hl5 & Ht5 & Hr5); try done.
  { intros i Hi Hne E. apply Hne, (need_empty names size i Hn), Hz; done. }
  { intros i Hi Hne. specialize (Hc i Hi Hne). unfold need in Hc. simpl. lia. }
  destruct (end_loop_spec (Z.to_nat size) 0 size b c bk t5 m1 (fun i => ents size i names)
              ltac:(lia) ltac:(lia) Hb Ht5 (layout_same _ _ _ _ _ S1 Hlay) Hr5)
    as (m2 & E2 & S2 & Hr6 & He6); try done.
  { intros i Hi. by apply ents_short. }
  { intros i Hi Hne. specialize (Hc i Hi Hne). unfold need in Hc. lia. }
  { intros j Hj. lia. }
  exists t5, m1, m2. split; [done|]. split; [done|].
  assert (S : same_block m m2) by (by etransitivity).
  eapply (table_in_memory names size b c bk m2); try done; try lia.
  - exact (layout_same _ _ _ m m2 S Hlay).
  - intros i Hi Hne. apply Hc; done.
  - intros i Hi E. by apply need_empty, Hz.
  - destruct S as [-> _]. done.
  - destruct S as [Sb Sl]. unfold b_size. rewrite Sb, Sl. done.
Qed.

Lemma build_spec junk addr names size bs test :
  Forall name_ok names -> 0 < size <= Z.of_nat (length test) -> 0 <= bs < 2 ^ 15 ->
  fits names bs size -> 0 < addr ->
  addr + size * (bs + ptr_size + ngx_cacheline_size) + ngx_cacheline_size <= 2 ^ ptr_bits ->
  exists h, build junk addr names size test = Some (HashOk h) /\ table_of names size h.
Proof.
  intros Hn Hs Hbs Hfit Ha Hw. unfold build.
  pose proof cacheline_range. pose proof ptr_size_cases. pose proof ptr_pow_32.
  set (f := need names size).
  assert (Hf : forall k, 0 <= k < size -> ptr_size <= f k < 2 ^ 16 - ngx_cacheline_size
                /\ f k + ngx_cacheline_size <= bs + ptr_size + ngx_cacheline_size).
  { intros k Hk. specialize (Hfit k Hk). pose proof (tot_ents_nonneg size k names Hn).
    unfold f, need. lia. }
  assert (Hf1 : forall k, 0 <= k < size -> ptr_size <= f k < 2 ^ 16 - ngx_cacheline_size)
    by (intros; by apply Hf).
  assert (Hf2 : forall k, 0 <= k < size -> ptr_size <= f k < 2 ^ 16
                /\ f k + ngx_cacheline_size <= bs + ptr_size + ngx_cacheline_size)
    by (intros k Hk; specialize (Hf k Hk); lia).
  destruct (fill_spec size ptr_size test) as (t1 & -> & Hl1 & Ht1); [lia|]. cbn [mbind option_bind].
  destruct (count_loop_spec names size t1 (fun _ => ptr_size)) as (t2 & -> & Hl2 & Ht2); try done.
  { lia. } { intros i Hi. specialize (Hf i Hi). unfold f, need in Hf. lia. }
  assert (Ho : forall j : nat, Z.of_nat j <= size ->
            0 <= offs f j <= size * (bs + ptr_size + ngx_cacheline_size)).
  { intros j Hj. pose proof (offs_bounds f size _ j Hf2 Hj) as [? _]. nia. }
  destruct (round_loop_spec (Z.to_nat size) 0 size f t2 0) as (t3 & E3 & Hl3 & Ht3);
    try done; try lia.
  { intros j Hj. specialize (Ho j Hj). lia. }
  { intros j Hj. rewrite (proj2 (Z.ltb_ge j 0)) by lia. by apply Ht2. }
  cbn [mbind option_bind]. rewrite E3. cbn [mbind option_bind].
  pose proof (Ho (Z.to_nat size) ltac:(lia)) as Hoz. rewrite uint_small by lia.
  set (m := Block addr _). set (elts := ngx_align_ptr addr ngx_cacheline_size).
  destruct (layout_offs size f _ addr (b_bytes m) Hf2) as [Hlay Hge]; try lia.
  { apply fresh_length. lia. }
  destruct (place_loop_spec (Z.to_nat size) 0 size f t3 elts elts (replicate (Z.to_nat size) 0))
    as (bk & -> & Hlb & Hb); try done; try (rewrite ?length_replicate; lia).
  { simpl. lia. }
  { intros j Hj. apply lookup_replicate. split; [|lia]. by rewrite (proj2 (Z.ltb_ge j 0)) by lia. }
  destruct (fill_spec size 0 t3) as (t4 & E4 & Hl4 & Ht4); [lia|]. cbn [mbind option_bind].
  rewrite E4. cbn [mbind option_bind].
  destruct (fill_table names size _ _ bk t4 m Hn ltac:(lia) Hb Ht4 Hlay)
    as (t5 & m1 & m2 & -> & E6 & Htab).
  - intros i Hi. pose proof (Ho (Z.to_nat i) ltac:(lia)). fold f. fold elts in Hge.
    destruct (Z.eqb_spec (f i) ptr_size); lia.
  - intros i Hi Hne. specialize (Hf i Hi). pose proof (cap_bounds (f i)) as Hcb. fold f.
    destruct (Z.eqb_spec (f i) ptr_size); [done|]. lia.
  - simpl. lia.
  - unfold b_size. cbn [m b_base b_bytes]. rewrite fresh_length by lia. lia.
  - cbn [mbind option_bind]. rewrite E6. cbn [mbind option_bind]. by eexists.
Qed.

(** ** Building and searching *)

(** The value of the first name that is equal to [name] in lower case. *)
Fixpoint lookup_name (names : list ngx_hash_key_t) (name : list Z) : Z :=
  match names with
  | [] => 0
  | n :: names' =>
      match str_data (hk_key n) with
      | Some data =>
          if decide (name = map ngx_tolower data) then hk_value n else lookup_name names' name
      | None => lookup_name names' name
      end
  end.

(** The names carry the hash of themselves in lower case. *)
Definition hashed (n : ngx_hash_key_t) : Prop :=
  match str_data (hk_key n) with
  | Some data => hk_key_hash n = ngx_hash_key_lc data
  | None => True
  end.

(** Bounds of the configuration: a bucket has room for an element and is below
    2^15 bytes, and the table fits in the address space. *)
Record init_ok (addr : Z) (hinit : ngx_hash_init_t) : Prop := {
  io_max : 0 < hi_max_size hinit;
  io_bucket : 3 * ptr_size <= hi_bucket_size hinit <= 2 ^ 15;
  io_addr : 0 < addr;
  io_room : addr + hi_max_size hinit * (hi_bucket_size hinit + ngx_cacheline_size)
            + ngx_cacheline_size <= 2 ^ ptr_bits
}.

Lemma lookup_ents names size name :
  Forall hashed names ->
  assoc (ents size (ngx_hash_key name mod size) names) name = lookup_name names name.
Proof.
  induction 1 as [|n names Hh Hs IH]; [done|]. rewrite ents_cons. unfold entry_of, hashed in *.
  cbn [lookup_name]. destruct (str_data _) as [data|]; [|done].
  destruct (decide (name = map ngx_tolower data)) as [E|E].
  - rewrite Hh. destruct (hash_keys_agree data) as [_ ->]. rewrite <- E, Z.eqb_refl.
    cbn [assoc]. by rewrite decide_True.
  - destruct (_ =? _); [|done]. cbn [assoc]. by rewrite decide_False.
Qed.

Lemma start_size_pos addr hinit n :
  init_ok addr hinit -> 0 <= n -> exists start, start_size hinit n = Some start /\ 0 < start.
Proof.
  intros [Hm Hb Ha Hr] Hn. unfold start_size. pose proof ptr_size_cases. pose proof ptr_pow_32.
  rewrite uint_small by lia.
  assert (1 <= (hi_bucket_size hinit - ptr_size) / (2 * ptr_size))
    by (apply Z.div_le_lower_bound; lia).
  rewrite (proj2 (Z.eqb_neq _ 0)) by lia. eexists. split; [done|].
  pose proof (Z.div_pos n ((hi_bucket_size hinit - ptr_size) / (2 * ptr_size))).
  destruct (Z.ltb_spec 10000 (hi_max_size hinit)); cbn [andb];
    [destruct (negb _ && _)|]; try destruct (Z.eqb_spec (n / ((hi_bucket_size hinit - ptr_size) / (2 * ptr_size))) 0); lia.
Qed.

(** How [ngx_hash_init] goes on after its first loop. *)
Lemma hash_init_cases junk addr hinit names :
  Forall name_ok names -> init_ok addr hinit ->
  Forall (fun n => too_long hinit n = false) names ->
  exists start size test,
    start_size hinit (Z.of_nat (length names)) = Some start /\ 0 < start <= size
    /\ Z.of_nat (length test) = hi_max_size hinit
    /\ ngx_hash_init junk addr hinit names = build junk addr names size test
    /\ (forall s, start <= s < size -> ~ fits names (hi_bucket_size hinit - ptr_size) s)
    /\ (hi_max_size hinit < size
        \/ size <= hi_max_size hinit /\ fits names (hi_bucket_size hinit - ptr_size) size).
Proof.
  intros Hn Hi Hl. pose proof Hi as [Hm Hb Ha Hr]. unfold ngx_hash_init.
  assert (existsb (too_long hinit) names = false) as ->.
  { apply not_true_is_false. intros E. apply existsb_exists in E as (x & Hx & E).
    rewrite Forall_forall in Hl. rewrite (Hl x) in E; [done|]. by apply list_elem_of_In. }
  destruct (start_size_pos addr hinit (Z.of_nat (length names)) Hi ltac:(lia)) as (start & Es & Hs).
  rewrite Es. cbn [mbind option_bind]. pose proof ptr_size_cases. pose proof ptr_pow_32.
  pose proof cacheline_range.
  assert (Hm2 : hi_max_size hinit * 2 < 2 ^ ptr_bits) by nia.
  rewrite !uint_small by lia. rewrite Z.div_mul by lia.
  set (test0 := fresh junk (hi_max_size hinit)).
  assert (Hl0 : Z.of_nat (length test0) = hi_max_size hinit) by (apply fresh_length; lia).
  destruct (decide (start <= hi_max_size hinit)) as [Hle|Hgt].
  - destruct (size_loop_spec (Z.to_nat (hi_max_size hinit + 1 - start)) names start
                (hi_bucket_size hinit - ptr_size) test0) as (size & t & E & Ht & Hss & Hno & Hend);
      try done; try lia.
    { eapply Forall_impl; [exact Hl|]. intros n Hx. unfold too_long in Hx. lia. }
    rewrite E. cbn [mbind option_bind]. exists start, size, t. split_and!; try done; try lia.
    destruct Hend as [-> | [? ?]]; [left; lia|right; split; [lia|done]].
  - replace (Z.to_nat (hi_max_size hinit + 1 - start)) with O by lia. cbn [size_loop mbind option_bind].
    exists start, start, test0. split_and!; try done; lia.
Qed.

(** C21: [ngx_hash_init] and [ngx_hash_find] implement a map.  When some size the
    search goes through keeps every bucket below [bucket_size], the table is
    built, with at most [max_size] buckets and no store outside of its memory,
    whatever that memory held; and every name, with the hash [ngx_hash_key] gives
    it, is then found with the value of the first key that is equal to it in
    lower case, or not found when there is none. *)
Theorem hash_init_find junk addr hinit names start size :
  Forall name_ok names -> Forall hashed names -> init_ok addr hinit ->
  Forall (fun n => too_long hinit n = false) names ->
  start_size hinit (Z.of_nat (length names)) = Some start ->
  start <= size <= hi_max_size hinit -> fits names (hi_bucket_size hinit - ptr_size) size ->
  exists h, ngx_hash_init junk addr hinit names = Some (HashOk h)
    /\ h_size h <= size
    /\ forall name, ngx_hash_find h (ngx_hash_key name) name = Some (lookup_name names name).
Proof.
  intros Hn Hh Hi Hl Hst Hsz Hfit.
  destruct (hash_init_cases junk addr hinit names Hn Hi Hl)
    as (start' & s & test & Est & Hs & Hlt & E & Hno & Hend).
  assert (start' = start) as -> by congruence.
  assert (Hss : s <= size).
  { destruct (decide (s <= size)); [done|]. exfalso. apply (Hno size); [lia|done]. }
  destruct Hend as [? | [Hle Hf]]; [lia|]. destruct Hi as [Hm Hb Ha Hr].
  pose proof ptr_size_cases. pose proof cacheline_range.
  destruct (build_spec junk addr names s (hi_bucket_size hinit - ptr_size) test)
    as (h & Eh & Hz & Hfind); try done; try lia; try nia.
  exists h. rewrite E. split; [done|]. split; [lia|]. intros name. rewrite Hfind. f_equal.
  by apply lookup_ents.
Qed.

(** C22: when no size up to [max_size] keeps the buckets below [bucket_size], the
    search of [ngx_hash_init] ends with a size above [max_size], and the loop
    after the label [found] stores past the end of [test], which has [max_size]
    elements: a fault of the model. *)
Theorem hash_init_overruns junk addr hinit names start :
  Forall name_ok names -> init_ok addr hinit ->
  Forall (fun n => too_long hinit n = false) names ->
  start_size hinit (Z.of_nat (length names)) = Some start ->
  (forall size, start <= size <= hi_max_size hinit ->
     ~ fits names (hi_bucket_size hinit - ptr_size) size) ->
  ngx_hash_init junk addr hinit names = None.
Proof.
  intros Hn Hi Hl Hst Hno.
  destruct (hash_init_cases junk addr hinit names Hn Hi Hl)
    as (start' & s & test & Est & Hs & Hlt & E & _ & Hend).
  assert (start' = start) as -> by congruence.
  destruct Hend as [Hgt | [Hle Hf]]; [|exfalso; apply (Hno s); [lia|done]].
  rewrite E. unfold build. rewrite fill_overrun by lia. done.
Qed.
End HashSpec.

(** ** Concrete tables *)

Definition line64 : Cacheline :=
  {| ngx_cacheline_size := 64; cacheline_cases := or_intror (or_introl eq_refl) |}.

(** A key of a configuration, and a table of three of them. *)
Definition key_of (s : string) (v : Z) : ngx_hash_key_t :=
  HashKey (Str (Some (lit s)) (Z.of_nat (length (lit s)))) (@ngx_hash_key_lc ilp32 (lit s)) v.

Definition some_keys : list ngx_hash_key_t :=
  [key_of "Host" 256; key_of "Accept" 260; key_of "Content-Length" 264].

Lemma key_of_ok s v :
  0 < v < 1000 -> Z.of_nat (length (lit s)) < 1000 ->
  @name_ok ilp32 (key_of s v) /\ @hashed ilp32 (key_of s v).
Proof.
  intros Hv Hl. unfold name_ok, hashed, key_of. cbn [hk_key str_data str_len hk_value hk_key_hash].
  change (2 ^ @ptr_bits ilp32) with 4294967296. change (2 ^ (@ptr_bits ilp32 - 1)) with 2147483648.
  split; [|done]. split_and!; try done; try lia. unfold ngx_hash_key_lc. rewrite hash_lc_map.
  generalize (map ngx_tolower (lit s)). intros l.
  assert (Hk : forall k, 0 <= k -> 0 <= @hash_loop ilp32 k l); [|by apply Hk].
  induction l as [|c l IH]; intros k Hk; [done|]. simpl. apply IH.
  apply uint_range. cbn. lia.
Qed.

Lemma some_keys_ok : Forall (@name_ok ilp32) some_keys /\ Forall (@hashed ilp32) some_keys.
Proof.
  split; (apply Forall_cons; split; [|apply Forall_cons; split; [|apply Forall_cons; split;
    [|apply Forall_nil; done]]]); apply key_of_ok; vm_compute; split; congruence || reflexivity.
Qed.

Lemma some_init_ok m b :
  0 < m <= 100 -> 32 <= b <= 100 -> @init_ok ilp32 line64 1003 (HashInit m b).
Proof.
  intros Hm Hb. split; cbn [hi_max_size hi_bucket_size]; try lia.
  - change (@ptr_size ilp32) with 4. lia.
  - change (@ngx_cacheline_size line64) with 64. change (2 ^ @ptr_bits ilp32) with 4294967296. nia.
Qed.

(** None of them is too long for a bucket of [b] bytes. *)
Lemma some_keys_short m b :
  32 <= b <= 100 -> Forall (fun n => @too_long ilp32 (HashInit m b) n = false) some_keys.
Proof.
  intros Hb. assert (E : forall n, @elt_size ilp32 n <= 28 -> @too_long ilp32 (HashInit m b) n = false).
  { intros n Hn. unfold too_long. apply Z.ltb_ge. change (@ptr_size ilp32) with 4. simpl. lia. }
  repeat (apply Forall_cons; split; [apply E; vm_compute; congruence|]). apply Forall_nil. done.
Qed.

Lemma hash_init_find_witness :
  exists h, @ngx_hash_init ilp32 line64 (fun _ => 7) 1003 (HashInit 8 64) some_keys = Some (HashOk h)
    /\ @ngx_hash_find ilp32 h (@ngx_hash_key ilp32 (lit "accept")) (lit "accept") = Some 260
    /\ @ngx_hash_find ilp32 h (@ngx_hash_key ilp32 (lit "via")) (lit "via") = Some 0.
Proof.
  assert (Hi : @init_ok ilp32 line64 1003 (HashInit 8 64)) by (apply some_init_ok; lia).
  assert (Hs : @start_size ilp32 (HashInit 8 64) (Z.of_nat (length some_keys)) = Some 1)
    by (vm_compute; reflexivity).
  assert (Hf : @fits ilp32 some_keys (64 - @ptr_size ilp32) 1).
  { intros i Hx. replace i with 0 by lia. vm_compute. congruence. }
  destruct (@hash_init_find ilp32 line64 (fun _ => 7) 1003 (HashInit 8 64) some_keys 1 1
              (proj1 some_keys_ok) (proj2 some_keys_ok) Hi (some_keys_short 8 64 ltac:(lia)) Hs
              ltac:(simpl; lia) Hf) as (h & E & _ & Hfind).
  exists h. split; [exact E|]. rewrite !Hfind. split; vm_compute; reflexivity.
Defined.

Lemma hash_init_overruns_witness :
  @ngx_hash_init ilp32 line64 (fun _ => 7) 1003 (HashInit 1 32) some_keys = None.
Proof.
  assert (Hi : @init_ok ilp32 line64 1003 (HashInit 1 32)) by (apply some_init_ok; lia).
  assert (Hs : @start_size ilp32 (HashInit 1 32) (Z.of_nat (length some_keys)) = Some 1)
    by (vm_compute; reflexivity).
  apply (@hash_init_overruns ilp32 line64 (fun _ => 7) 1003 (HashInit 1 32) some_keys 1
           (proj1 some_keys_ok) Hi (some_keys_short 1 32 ltac:(lia)) Hs).
  intros size Hx Hf. assert (size = 1) as -> by (simpl in Hx; lia).
  specialize (Hf 0 ltac:(lia)). vm_compute in Hf. congruence.
Defined.

(** The counters are [u_short]: with buckets of more than 2^15 bytes a bucket can
    be counted to a size below that of its elements, which are then stored past
    the end of the memory. *)
Example hash_init_wraps :
  let n v := HashKey (Str (Some (replicate 40000 cA)) 40000) 5 v in
  @ngx_hash_init lp64 line64 (fun _ => 0) 4096 (HashInit 16 65536) [n 8; n 16] = None.
Proof. vm_compute. reflexivity. Qed.

End HashSpec.
