(* ===== verification/ByteMachine.v ===== *)
(** * Byte-driven state machines

    The shape the incremental parsers of nginx share:

      for (p = b->pos; p < b->last; p++) { ch = *p; switch (state) { ... } }

    with the exits [break] (next byte), [p--; break] (the same byte again, in
    another state), and a [return] or [goto] out of the loop.  A parser is a step
    function; [go] is its loop over the bytes received so far, of which
    [b->last] is the end.  The theorems of this file are proved once, against the
    class [Machine], for every parser of the library. *)

From S2P Require Import Prelude.

(** What the switch does with one byte; [X] names the exits. *)
Inductive action (S X : Type) :=
  | Continue (s : S)
  | Rescan (s : S)
  | Leave (x : X) (s : S).
Arguments Continue {S X} s.
Arguments Rescan {S X} s.
Arguments Leave {S X} x s.

(** How the loop ends: at [b->last], by an exit at [p], or (never, see
    [go_total]) for want of fuel. *)
Inductive outcome (S X : Type) :=
  | Ended (s : S) (p : nat)
  | Left (x : X) (s : S) (p : nat)
  | NoFuel.
Arguments Ended {S X} s p.
Arguments Left {S X} x s p.
Arguments NoFuel {S X}.

Section Loop.
Context {S X : Type} (step : list Z -> nat -> Z -> S -> action S X).

Fixpoint run (fuel : nat) (buf : list Z) (p : nat) (s : S) : outcome S X :=
  match buf !! p with
  | None => Ended s p
  | Some ch =>
      match fuel with
      | O => NoFuel
      | Datatypes.S fuel' =>
          match step buf p ch s with
          | Continue s' => run fuel' buf (Datatypes.S p) s'
          | Rescan s' => run fuel' buf p s'
          | Leave x s' => Left x s' p
          end
      end
  end.

(** Two steps for every byte, since a byte is looked at again at most once. *)
Definition go (buf : list Z) (p : nat) (s : S) : outcome S X :=
  run (2 * (length buf - p) + 1) buf p s.
End Loop.

(** What a parser promises the loop: [rank] tells the states that may look at a
    byte without consuming it, and a step depends only on the bytes up to [p]. *)
Class Machine {S X : Type} (step : list Z -> nat -> Z -> S -> action S X) (rank : S -> nat) := {
  rank_le : forall s, (rank s <= 1)%nat;
  rescan_lt : forall buf p ch s s', step buf p ch s = Rescan s' -> (rank s' < rank s)%nat;
  step_local : forall buf more p ch s, (p < length buf)%nat ->
    step (buf ++ more) p ch s = step buf p ch s
}.

Section Theory.
Context {S X : Type} (step : list Z -> nat -> Z -> S -> action S X) (rank : S -> nat).
Context `{!Machine step rank}.

Lemma run_fuel f1 f2 buf p s :
  (2 * (length buf - p) + rank s <= f1)%nat -> (2 * (length buf - p) + rank s <= f2)%nat ->
  run step f1 buf p s = run step f2 buf p s.
Proof.
  revert f2 p s. induction f1 as [|f1 IH]; intros f2 p s H1 H2.
  - assert (E : buf !! p = None) by (apply lookup_ge_None; lia).
    destruct f2; cbn [run]; by rewrite E.
  - destruct (buf !! p) as [ch|] eqn:E.
    2:{ destruct f2; cbn [run]; by rewrite E. }
    apply lookup_lt_Some in E as Hp. destruct f2 as [|f2]; [lia|]. cbn [run]. rewrite E.
    destruct (step buf p ch s) as [s'|s'|x s'] eqn:Es; [| |done].
    + pose proof (rank_le s'). apply IH; lia.
    + apply rescan_lt in Es. apply IH; lia.
Qed.

Lemma run_go fuel buf p s :
  (2 * (length buf - p) + rank s <= fuel)%nat -> run step fuel buf p s = go step buf p s.
Proof. intros. unfold go. pose proof (rank_le s). apply run_fuel; lia. Qed.

(** One turn of the loop. *)
Lemma go_step buf p s :
  go step buf p s =
    match buf !! p with
    | None => Ended s p
    | Some ch =>
        match step buf p ch s with
        | Continue s' => go step buf (Datatypes.S p) s'
        | Rescan s' => go step buf p s'
        | Leave x s' => Left x s' p
        end
    end.
Proof.
  pose proof (rank_le s).
  rewrite <- (run_go (Datatypes.S (2 * (length buf - p) + rank s))) by lia. cbn [run].
  destruct (buf !! p) as [ch|] eqn:E; [|done]. apply lookup_lt_Some in E as Hp.
  destruct (step buf p ch s) as [s'|s'|x s'] eqn:Es; [| |done].
  - pose proof (rank_le s'). apply run_go. lia.
  - apply rescan_lt in Es. apply run_go. lia.
Qed.

(** The turn of the loop that reads [c], seen as moving [c] to the bytes read. *)
Lemma go_cons pre c post s :
  go step (pre ++ c :: post) (length pre) s =
    match step (pre ++ c :: post) (length pre) c s with
    | Continue s' => go step ((pre ++ [c]) ++ post) (length (pre ++ [c])) s'
    | Rescan s' => go step (pre ++ c :: post) (length pre) s'
    | Leave x s' => Left x s' (length pre)
    end.
Proof.
  rewrite go_step at 1. rewrite list_lookup_middle by done.
  destruct (step _ _ c s); [|done|done]. rewrite <- app_assoc, length_app. cbn [app length].
  by rewrite Nat.add_1_r.
Qed.

(** Induction over the turns of the loop. *)
Lemma go_ind (P : list Z -> nat -> S -> outcome S X -> Prop) buf :
  (forall p s, buf !! p = None -> P buf p s (Ended s p)) ->
  (forall p s ch x s', buf !! p = Some ch -> step buf p ch s = Leave x s' -> P buf p s (Left x s' p)) ->
  (forall p s ch s' o, buf !! p = Some ch -> step buf p ch s = Continue s' ->
     P buf (Datatypes.S p) s' o -> P buf p s o) ->
  (forall p s ch s' o, buf !! p = Some ch -> step buf p ch s = Rescan s' ->
     P buf p s' o -> P buf p s o) ->
  forall p s, P buf p s (go step buf p s).
Proof.
  intros H0 HL HC HR p s. remember (2 * (length buf - p) + rank s)%nat as n eqn:Hn.
  revert p s Hn. induction n as [n IH] using lt_wf_ind. intros p s ->.
  rewrite go_step. destruct (buf !! p) as [ch|] eqn:E; [|by apply H0].
  apply lookup_lt_Some in E as Hp. destruct (step buf p ch s) as [s'|s'|x s'] eqn:Es.
  - eapply HC; eauto. pose proof (rank_le s'). eapply IH; [|reflexivity]. lia.
  - eapply HR; eauto. apply rescan_lt in Es. eapply IH; [|reflexivity]. lia.
  - by eapply HL.
Qed.

(** The loop always returns. *)
Lemma go_total buf p s : go step buf p s <> NoFuel.
Proof. revert p s. apply (go_ind (fun _ _ _ o => o <> NoFuel)); done. Qed.

(** The position never goes back, and an exit happens inside the buffer. *)
Lemma go_pos buf p s :
  match go step buf p s with
  | Ended _ p' => p' = Nat.max p (length buf)
  | Left _ _ p' => (p <= p' < length buf)%nat
  | NoFuel => False
  end.
Proof.
  revert p s. apply (go_ind (fun buf p _ o => match o with
    | Ended _ p' => p' = Nat.max p (length buf)
    | Left _ _ p' => (p <= p' < length buf)%nat | NoFuel => False end)).
  - intros p s H. apply lookup_ge_None in H. lia.
  - intros p s ch x s' H _. apply lookup_lt_Some in H. lia.
  - intros p s ch s' o Hp _ H. apply lookup_lt_Some in Hp. destruct o; lia.
  - intros p s ch s' o _ _ H. done.
Qed.

(** Parsing may stop at the end of what was received and go on when more has
    arrived: the result is that of parsing it all at once. *)
Lemma go_resume buf more p s s' p' :
  go step buf p s = Ended s' p' -> go step (buf ++ more) p s = go step (buf ++ more) p' s'.
Proof.
  revert p s. apply (go_ind (fun _ p s o => o = Ended s' p' ->
    go step (buf ++ more) p s = go step (buf ++ more) p' s')).
  - intros p s _ [= -> ->]. done.
  - done.
  - intros p s ch s1 o Hp Hs IH Ho. apply lookup_lt_Some in Hp as Hlt.
    rewrite go_step, lookup_app_l, Hp, step_local, Hs by done. by apply IH.
  - intros p s ch s1 o Hp Hs IH Ho. apply lookup_lt_Some in Hp as Hlt.
    rewrite go_step, lookup_app_l, Hp, step_local, Hs by done. by apply IH.
Qed.

(** Once an exit is taken, later bytes do not matter. *)
Lemma go_stable buf more p s x s' p' :
  go step buf p s = Left x s' p' -> go step (buf ++ more) p s = Left x s' p'.
Proof.
  revert p s. apply (go_ind (fun _ p s o => o = Left x s' p' ->
    go step (buf ++ more) p s = Left x s' p')).
  - done.
  - intros p s ch y s1 Hp Hs [= -> -> ->]. apply lookup_lt_Some in Hp as Hlt.
    by rewrite go_step, lookup_app_l, Hp, step_local, Hs by done.
  - intros p s ch s1 o Hp Hs IH Ho. apply lookup_lt_Some in Hp as Hlt.
    rewrite go_step, lookup_app_l, Hp, step_local, Hs by done. by apply IH.
  - intros p s ch s1 o Hp Hs IH Ho. apply lookup_lt_Some in Hp as Hlt.
    rewrite go_step, lookup_app_l, Hp, step_local, Hs by done. by apply IH.
Qed.

(** An invariant of the parser's state that every step keeps. *)
Lemma go_invariant (I : list Z -> nat -> S -> Prop) (Q : list Z -> nat -> X -> S -> Prop) buf :
  (forall p s ch s', buf !! p = Some ch -> I buf p s -> step buf p ch s = Continue s' ->
     I buf (Datatypes.S p) s') ->
  (forall p s ch s', buf !! p = Some ch -> I buf p s -> step buf p ch s = Rescan s' -> I buf p s') ->
  (forall p s ch x s', buf !! p = Some ch -> I buf p s -> step buf p ch s = Leave x s' -> Q buf p x s') ->
  forall p s, I buf p s ->
    match go step buf p s with
    | Ended s' p' => I buf p' s'
    | Left x s' p' => Q buf p' x s'
    | NoFuel => False
    end.
Proof.
  intros HC HR HL. apply (go_ind (fun buf p s o => I buf p s -> match o with
    | Ended s' p' => I buf p' s' | Left x s' p' => Q buf p' x s' | NoFuel => False end)).
  - done.
  - intros p s ch x s' Hp Hs HI. eapply HL; eauto.
  - intros p s ch s' o Hp Hs IH HI. eapply IH, HC; eauto.
  - intros p s ch s' o Hp Hs IH HI. eapply IH, HR; eauto.
Qed.

(** A change of state the steps do not notice goes through the loop. *)
Definition map_outcome (f : S -> S) (o : outcome S X) : outcome S X :=
  match o with Ended s p => Ended (f s) p | Left x s p => Left x (f s) p | NoFuel => NoFuel end.

Lemma go_map (f : S -> S) buf :
  (forall p ch s, step buf p ch (f s) =
     match step buf p ch s with
     | Continue s' => Continue (f s') | Rescan s' => Rescan (f s') | Leave x s' => Leave x (f s')
     end) ->
  forall p s, go step buf p (f s) = map_outcome f (go step buf p s).
Proof.
  intros Hf. apply (go_ind (fun _ p s o => go step buf p (f s) = map_outcome f o));
    intros; rewrite go_step.
  - by rewrite H.
  - by rewrite H, Hf, H0.
  - by rewrite H, Hf, H0.
  - by rewrite H, Hf, H0.
Qed.

(** Two states the steps do not tell apart, and keep so, lead to results that
    differ in the state only. *)
Definition rel_action (R : S -> S -> Prop) (a b : action S X) : Prop :=
  match a, b with
  | Continue s, Continue t => R s t
  | Rescan s, Rescan t => R s t
  | Leave x s, Leave y t => x = y /\ R s t
  | _, _ => False
  end.

Definition rel_outcome (R : S -> S -> Prop) (a b : outcome S X) : Prop :=
  match a, b with
  | Ended s p, Ended t q => p = q /\ R s t
  | Left x s p, Left y t q => x = y /\ p = q /\ R s t
  | _, _ => False
  end.

Lemma go_rel (R : S -> S -> Prop) buf :
  (forall p ch s t, R s t -> rel_action R (step buf p ch s) (step buf p ch t)) ->
  forall p s t, R s t -> rel_outcome R (go step buf p s) (go step buf p t).
Proof.
  intros Hr p s. revert p s. apply (go_ind (fun _ p s o => forall t, R s t ->
    rel_outcome R o (go step buf p t))).
  - intros p s E t HR. rewrite go_step, E. done.
  - intros p s ch x s' E Es t HR. rewrite go_step, E. specialize (Hr p ch s t HR).
    rewrite Es in Hr. by destruct (step buf p ch t); simpl in *; try tauto.
  - intros p s ch s' o E Es IH t HR. rewrite go_step, E. specialize (Hr p ch s t HR).
    rewrite Es in Hr. destruct (step buf p ch t); simpl in *; try tauto. by apply IH.
  - intros p s ch s' o E Es IH t HR. rewrite go_step, E. specialize (Hr p ch s t HR).
    rewrite Es in Hr. destruct (step buf p ch t); simpl in *; try tauto. by apply IH.
Qed.

(** A run of bytes on which the parser stays in states of the form [f s]. *)
Lemma go_while (f : nat -> S) (run_of : list Z) pre post :
  (forall i ch, run_of !! i = Some ch ->
     step (pre ++ run_of ++ post) (length pre + i) ch (f i) = Continue (f (Datatypes.S i))) ->
  go step (pre ++ run_of ++ post) (length pre) (f O) =
    go step (pre ++ run_of ++ post) (length pre + length run_of) (f (length run_of)).
Proof.
  intros H.
  assert (G : forall n, (n <= length run_of)%nat ->
    go step (pre ++ run_of ++ post) (length pre) (f O) =
    go step (pre ++ run_of ++ post) (length pre + n) (f n)).
  { induction n as [|n IH]; intros Hn; [by rewrite Nat.add_0_r|]. rewrite IH by lia.
    destruct (run_of !! n) as [ch|] eqn:E; [|apply lookup_ge_None in E; lia].
    rewrite go_step, lookup_app_r by lia.
    replace (length pre + n - length pre)%nat with n by lia.
    rewrite lookup_app_l, E by lia. rewrite (H n ch E). f_equal. lia. }
  by apply G.
Qed.

(** A parser that looks at nothing but the current byte gives the same result
    wherever the buffer lies. *)
Definition shift_outcome (k : nat) (o : outcome S X) : outcome S X :=
  match o with Ended s p => Ended s (k + p) | Left x s p => Left x s (k + p) | NoFuel => NoFuel end.

Lemma go_shift pre buf :
  (forall p ch s, step (pre ++ buf) (length pre + p) ch s = step buf p ch s) ->
  forall p s, go step (pre ++ buf) (length pre + p) s = shift_outcome (length pre) (go step buf p s).
Proof.
  intros Hs. apply (go_ind (fun _ p s o =>
    go step (pre ++ buf) (length pre + p) s = shift_outcome (length pre) o));
    intros; rewrite go_step, lookup_app_r by lia;
    replace (length pre + p - length pre)%nat with p by lia; rewrite H; try done.
  - by rewrite Hs, H0.
  - rewrite Hs, H0. by rewrite <- Nat.add_succ_r.
  - by rewrite Hs, H0.
Qed.
End Theory.
