(* ===== verification/HttpRequestLine.v ===== *)
(** * The HTTP request line

    [ngx_http_parse_request_line] of
    src/nginx-1.7.2/src/http/ngx_http_parse.c as a byte-driven state machine: one
    definition per [case] of its switch, and the epilogue after the loop.  A
    pointer into the header buffer is its offset, [None] is NULL. *)

From S2P Require Import Prelude ByteMachine.

Module RequestLine.

Inductive rl_state :=
  | sw_start | sw_method | sw_spaces_before_uri | sw_schema | sw_schema_slash
  | sw_schema_slash_slash | sw_host_start | sw_host | sw_host_end | sw_host_ip_literal
  | sw_port | sw_host_http_09 | sw_after_slash_in_uri | sw_check_uri | sw_check_uri_http_09
  | sw_uri | sw_http_09 | sw_http_H | sw_http_HT | sw_http_HTT | sw_http_HTTP
  | sw_first_major_digit | sw_major_digit | sw_first_minor_digit | sw_minor_digit
  | sw_spaces_after_digit | sw_almost_done.

(** The fields of [ngx_http_request_t] the parser reads or writes
    ([http_protocol] is [http_protocol.data]). *)
Record request := mkRequest {
  state : rl_state;
  request_start : option nat;
  method_end : option nat;
  uri_start : option nat;
  schema_start : option nat;
  schema_end : option nat;
  host_start : option nat;
  host_end : option nat;
  port_end : option nat;
  uri_end : option nat;
  uri_ext : option nat;
  args_start : option nat;
  http_protocol : option nat;
  request_end : option nat;
  method : Z;
  http_minor : Z;
  http_major : Z;
  http_version : Z;
  complex_uri : bool;
  quoted_uri : bool;
  plus_in_uri : bool;
  space_in_uri : bool
}.

(** [r->field = v]. *)
Definition set_state (v : rl_state) (r : request) : request :=
  mkRequest v (request_start r) (method_end r) (uri_start r) (schema_start r) (schema_end r)
  (host_start r) (host_end r) (port_end r) (uri_end r) (uri_ext r) (args_start r)
  (http_protocol r) (request_end r) (method r) (http_minor r) (http_major r) (http_version r)
  (complex_uri r) (quoted_uri r) (plus_in_uri r) (space_in_uri r).
Definition set_request_start (v : option nat) (r : request) : request :=
  mkRequest (state r) v (method_end r) (uri_start r) (schema_start r) (schema_end r)
  (host_start r) (host_end r) (port_end r) (uri_end r) (uri_ext r) (args_start r)
  (http_protocol r) (request_end r) (method r) (http_minor r) (http_major r) (http_version r)
  (complex_uri r) (quoted_uri r) (plus_in_uri r) (space_in_uri r).
Definition set_method_end (v : option nat) (r : request) : request :=
  mkRequest (state r) (request_start r) v (uri_start r) (schema_start r) (schema_end r)
  (host_start r) (host_end r) (port_end r) (uri_end r) (uri_ext r) (args_start r)
  (http_protocol r) (request_end r) (method r) (http_minor r) (http_major r) (http_version r)
  (complex_uri r) (quoted_uri r) (plus_in_uri r) (space_in_uri r).
Definition set_uri_start (v : option nat) (r : request) : request :=
  mkRequest (state r) (request_start r) (method_end r) v (schema_start r) (schema_end r)
  (host_start r) (host_end r) (port_end r) (uri_end r) (uri_ext r) (args_start r)
  (http_protocol r) (request_end r) (method r) (http_minor r) (http_major r) (http_version r)
  (complex_uri r) (quoted_uri r) (plus_in_uri r) (space_in_uri r).
Definition set_schema_start (v : option nat) (r : request) : request :=
  mkRequest (state r) (request_start r) (method_end r) (uri_start r) v (schema_end r)
  (host_start r) (host_end r) (port_end r) (uri_end r) (uri_ext r) (args_start r)
  (http_protocol r) (request_end r) (method r) (http_minor r) (http_major r) (http_version r)
  (complex_uri r) (quoted_uri r) (plus_in_uri r) (space_in_uri r).
Definition set_schema_end (v : option nat) (r : request) : request :=
  mkRequest (state r) (request_start r) (method_end r) (uri_start r) (schema_start r) v
  (host_start r) (host_end r) (port_end r) (uri_end r) (uri_ext r) (args_start r)
  (http_protocol r) (request_end r) (method r) (http_minor r) (http_major r) (http_version r)
  (complex_uri r) (quoted_uri r) (plus_in_uri r) (space_in_uri r).
Definition set_host_start (v : option nat) (r : request) : request :=
  mkRequest (state r) (request_start r) (method_end r) (uri_start r) (schema_start r)
  (schema_end r) v (host_end r) (port_end r) (uri_end r) (uri_ext r) (args_start r)
  (http_protocol r) (request_end r) (method r) (http_minor r) (http_major r) (http_version r)
  (complex_uri r) (quoted_uri r) (plus_in_uri r) (space_in_uri r).
Definition set_host_end (v : option nat) (r : request) : request :=
  mkRequest (state r) (request_start r) (method_end r) (uri_start r) (schema_start r)
  (schema_end r) (host_start r) v (port_end r) (uri_end r) (uri_ext r) (args_start r)
  (http_protocol r) (request_end r) (method r) (http_minor r) (http_major r) (http_version r)
  (complex_uri r) (quoted_uri r) (plus_in_uri r) (space_in_uri r).
Definition set_port_end (v : option nat) (r : request) : request :=
  mkRequest (state r) (request_start r) (method_end r) (uri_start r) (schema_start r)
  (schema_end r) (host_start r) (host_end r) v (uri_end r) (uri_ext r) (args_start r)
  (http_protocol r) (request_end r) (method r) (http_minor r) (http_major r) (http_version r)
  (complex_uri r) (quoted_uri r) (plus_in_uri r) (space_in_uri r).
Definition set_uri_end (v : option nat) (r : request) : request :=
  mkRequest (state r) (request_start r) (method_end r) (uri_start r) (schema_start r)
  (schema_end r) (host_start r) (host_end r) (port_end r) v (uri_ext r) (args_start r)
  (http_protocol r) (request_end r) (method r) (http_minor r) (http_major r) (http_version r)
  (complex_uri r) (quoted_uri r) (plus_in_uri r) (space_in_uri r).
Definition set_uri_ext (v : option nat) (r : request) : request :=
  mkRequest (state r) (request_start r) (method_end r) (uri_start r) (schema_start r)
  (schema_end r) (host_start r) (host_end r) (port_end r) (uri_end r) v (args_start r)
  (http_protocol r) (request_end r) (method r) (http_minor r) (http_major r) (http_version r)
  (complex_uri r) (quoted_uri r) (plus_in_uri r) (space_in_uri r).
Definition set_args_start (v : option nat) (r : request) : request :=
  mkRequest (state r) (request_start r) (method_end r) (uri_start r) (schema_start r)
  (schema_end r) (host_start r) (host_end r) (port_end r) (uri_end r) (uri_ext r) v
  (http_protocol r) (request_end r) (method r) (http_minor r) (http_major r) (http_version r)
  (complex_uri r) (quoted_uri r) (plus_in_uri r) (space_in_uri r).
Definition set_http_protocol (v : option nat) (r : request) : request :=
  mkRequest (state r) (request_start r) (method_end r) (uri_start r) (schema_start r)
  (schema_end r) (host_start r) (host_end r) (port_end r) (uri_end r) (uri_ext r)
  (args_start r) v (request_end r) (method r) (http_minor r) (http_major r) (http_version r)
  (complex_uri r) (quoted_uri r) (plus_in_uri r) (space_in_uri r).
Definition set_request_end (v : option nat) (r : request) : request :=
  mkRequest (state r) (request_start r) (method_end r) (uri_start r) (schema_start r)
  (schema_end r) (host_start r) (host_end r) (port_end r) (uri_end r) (uri_ext r)
  (args_start r) (http_protocol r) v (method r) (http_minor r) (http_major r) (http_version r)
  (complex_uri r) (quoted_uri r) (plus_in_uri r) (space_in_uri r).
Definition set_method (v : Z) (r : request) : request :=
  mkRequest (state r) (request_start r) (method_end r) (uri_start r) (schema_start r)
  (schema_end r) (host_start r) (host_end r) (port_end r) (uri_end r) (uri_ext r)
  (args_start r) (http_protocol r) (request_end r) v (http_minor r) (http_major r)
  (http_version r) (complex_uri r) (quoted_uri r) (plus_in_uri r) (space_in_uri r).
Definition set_http_minor (v : Z) (r : request) : request :=
  mkRequest (state r) (request_start r) (method_end r) (uri_start r) (schema_start r)
  (schema_end r) (host_start r) (host_end r) (port_end r) (uri_end r) (uri_ext r)
  (args_start r) (http_protocol r) (request_end r) (method r) v (http_major r) (http_version r)
  (complex_uri r) (quoted_uri r) (plus_in_uri r) (space_in_uri r).
Definition set_http_major (v : Z) (r : request) : request :=
  mkRequest (state r) (request_start r) (method_end r) (uri_start r) (schema_start r)
  (schema_end r) (host_start r) (host_end r) (port_end r) (uri_end r) (uri_ext r)
  (args_start r) (http_protocol r) (request_end r) (method r) (http_minor r) v (http_version r)
  (complex_uri r) (quoted_uri r) (plus_in_uri r) (space_in_uri r).
Definition set_http_version (v : Z) (r : request) : request :=
  mkRequest (state r) (request_start r) (method_end r) (uri_start r) (schema_start r)
  (schema_end r) (host_start r) (host_end r) (port_end r) (uri_end r) (uri_ext r)
  (args_start r) (http_protocol r) (request_end r) (method r) (http_minor r) (http_major r) v
  (complex_uri r) (quoted_uri r) (plus_in_uri r) (space_in_uri r).
Definition set_complex_uri (v : bool) (r : request) : request :=
  mkRequest (state r) (request_start r) (method_end r) (uri_start r) (schema_start r)
  (schema_end r) (host_start r) (host_end r) (port_end r) (uri_end r) (uri_ext r)
  (args_start r) (http_protocol r) (request_end r) (method r) (http_minor r) (http_major r)
  (http_version r) v (quoted_uri r) (plus_in_uri r) (space_in_uri r).
Definition set_quoted_uri (v : bool) (r : request) : request :=
  mkRequest (state r) (request_start r) (method_end r) (uri_start r) (schema_start r)
  (schema_end r) (host_start r) (host_end r) (port_end r) (uri_end r) (uri_ext r)
  (args_start r) (http_protocol r) (request_end r) (method r) (http_minor r) (http_major r)
  (http_version r) (complex_uri r) v (plus_in_uri r) (space_in_uri r).
Definition set_plus_in_uri (v : bool) (r : request) : request :=
  mkRequest (state r) (request_start r) (method_end r) (uri_start r) (schema_start r)
  (schema_end r) (host_start r) (host_end r) (port_end r) (uri_end r) (uri_ext r)
  (args_start r) (http_protocol r) (request_end r) (method r) (http_minor r) (http_major r)
  (http_version r) (complex_uri r) (quoted_uri r) v (space_in_uri r).
Definition set_space_in_uri (v : bool) (r : request) : request :=
  mkRequest (state r) (request_start r) (method_end r) (uri_start r) (schema_start r)
  (schema_end r) (host_start r) (host_end r) (port_end r) (uri_end r) (uri_ext r)
  (args_start r) (http_protocol r) (request_end r) (method r) (http_minor r) (http_major r)
  (http_version r) (complex_uri r) (quoted_uri r) (plus_in_uri r) v.

Abbreviation NGX_HTTP_PARSE_INVALID_METHOD := 10 (only parsing).
Abbreviation NGX_HTTP_PARSE_INVALID_REQUEST := 11 (only parsing).
Abbreviation NGX_HTTP_PARSE_INVALID_09_METHOD := 12 (only parsing).

Definition NGX_HTTP_GET : Z := 0x0002.
Definition NGX_HTTP_HEAD : Z := 0x0004.
Definition NGX_HTTP_POST : Z := 0x0008.
Definition NGX_HTTP_PUT : Z := 0x0010.
Definition NGX_HTTP_DELETE : Z := 0x0020.
Definition NGX_HTTP_MKCOL : Z := 0x0040.
Definition NGX_HTTP_COPY : Z := 0x0080.
Definition NGX_HTTP_MOVE : Z := 0x0100.
Definition NGX_HTTP_OPTIONS : Z := 0x0200.
Definition NGX_HTTP_PROPFIND : Z := 0x0400.
Definition NGX_HTTP_PROPPATCH : Z := 0x0800.
Definition NGX_HTTP_LOCK : Z := 0x1000.
Definition NGX_HTTP_UNLOCK : Z := 0x2000.
Definition NGX_HTTP_PATCH : Z := 0x4000.
Definition NGX_HTTP_TRACE : Z := 0x8000.

(** The set of bytes that are nothing special in a URI ([usual], not Win32). *)
Definition usual : list Z :=
  [0xffffdbfe; 0x7fff37d6; 0xffffffff; 0xffffffff; 0xffffffff; 0xffffffff; 0xffffffff; 0xffffffff].

(** The exits: [goto done] and [return code]. *)
Inductive rl_exit := Done | Return (code : Z).

(** The local [state] and the request. *)
Definition rl_st : Type := rl_state * request.
Definition rl_action : Type := action rl_st rl_exit.

Definition invalid (st : rl_state) (r : request) : rl_action :=
  Leave (Return NGX_HTTP_PARSE_INVALID_REQUEST) (st, r).

Definition is_alpha (ch : Z) : bool :=
  let c := uint 8 (Z.lor ch 32) in ca <=? c <=? cz.
Definition is_num (ch : Z) : bool := c_0 <=? ch <=? c_9.
Definition is_method_char (ch : Z) : bool := (cA <=? ch <=? cZ) || (ch =? cUNDER).

(** [p + k] for a pointer. *)
Definition ptr_add (p : option nat) (k : nat) : option nat := (fun x => (x + k)%nat) <$> p.

(** The [ngx_strNcmp] comparisons: the bytes at [m] are those of [s]. *)
Definition str_at (buf : list Z) (m : nat) (s : list Z) : bool :=
  bool_decide (take (length s) (drop m buf) = s).

(** The nested switch on [p - m]: the method, if it is a known one. *)
Definition known_method (buf : list Z) (m len : nat) : option Z :=
  match len with
  | 3%nat =>
      if str_at buf m (lit "GET ") then Some NGX_HTTP_GET
      else if str_at buf m (lit "PUT ") then Some NGX_HTTP_PUT
      else None
  | 4%nat =>
      if bool_decide (buf !! S m = Some cO) then
        if str_at buf m (lit "POST") then Some NGX_HTTP_POST
        else if str_at buf m (lit "COPY") then Some NGX_HTTP_COPY
        else if str_at buf m (lit "MOVE") then Some NGX_HTTP_MOVE
        else if str_at buf m (lit "LOCK") then Some NGX_HTTP_LOCK
        else None
      else if str_at buf m (lit "HEAD") then Some NGX_HTTP_HEAD
      else None
  | 5%nat =>
      if str_at buf m (lit "MKCOL") then Some NGX_HTTP_MKCOL
      else if str_at buf m (lit "PATCH") then Some NGX_HTTP_PATCH
      else if str_at buf m (lit "TRACE") then Some NGX_HTTP_TRACE
      else None
  | 6%nat =>
      if str_at buf m (lit "DELETE") then Some NGX_HTTP_DELETE
      else if str_at buf m (lit "UNLOCK") then Some NGX_HTTP_UNLOCK
      else None
  | 7%nat => if str_at buf m (lit "OPTIONS ") then Some NGX_HTTP_OPTIONS else None
  | 8%nat => if str_at buf m (lit "PROPFIND") then Some NGX_HTTP_PROPFIND else None
  | 9%nat => if str_at buf m (lit "PROPPATCH") then Some NGX_HTTP_PROPPATCH else None
  | _ => None
  end.

Definition case_start (p : nat) (ch : Z) (r : request) : rl_action :=
  let r := set_request_start (Some p) r in
  if (ch =? cCR) || (ch =? cLF) then Continue (sw_start, r)
  else if negb (is_method_char ch) then Leave (Return NGX_HTTP_PARSE_INVALID_METHOD) (sw_start, r)
  else Continue (sw_method, r).

Definition case_method (buf : list Z) (p : nat) (ch : Z) (r : request) : rl_action :=
  if ch =? cSP then
    let r := set_method_end (Some (p - 1)%nat) r in
    match request_start r with
    | None => Continue (sw_spaces_before_uri, r)
    | Some m =>
        match known_method buf m (p - m) with
        | Some v => Continue (sw_spaces_before_uri, set_method v r)
        | None => Continue (sw_spaces_before_uri, r)
        end
    end
  else if negb (is_method_char ch) then Leave (Return NGX_HTTP_PARSE_INVALID_METHOD) (sw_method, r)
  else Continue (sw_method, r).

Definition case_spaces_before_uri (p : nat) (ch : Z) (r : request) : rl_action :=
  if ch =? cSLASH then Continue (sw_after_slash_in_uri, set_uri_start (Some p) r)
  else if is_alpha ch then Continue (sw_schema, set_schema_start (Some p) r)
  else if ch =? cSP then Continue (sw_spaces_before_uri, r)
  else invalid sw_spaces_before_uri r.

Definition case_schema (p : nat) (ch : Z) (r : request) : rl_action :=
  if is_alpha ch then Continue (sw_schema, r)
  else if ch =? cCOLON then Continue (sw_schema_slash, set_schema_end (Some p) r)
  else invalid sw_schema r.

Definition case_schema_slash (ch : Z) (r : request) : rl_action :=
  if ch =? cSLASH then Continue (sw_schema_slash_slash, r) else invalid sw_schema_slash r.

Definition case_schema_slash_slash (ch : Z) (r : request) : rl_action :=
  if ch =? cSLASH then Continue (sw_host_start, r) else invalid sw_schema_slash_slash r.

(** [st] is the value of [state] when the case is entered, by the switch or by
    falling through. *)
Definition case_host_end (st : rl_state) (p : nat) (ch : Z) (r : request) : rl_action :=
  let r := set_host_end (Some p) r in
  if ch =? cCOLON then Continue (sw_port, r)
  else if ch =? cSLASH then Continue (sw_after_slash_in_uri, set_uri_start (Some p) r)
  else if ch =? cSP then
    Continue (sw_host_http_09,
      set_uri_end (ptr_add (schema_end r) 2) (set_uri_start (ptr_add (schema_end r) 1) r))
  else invalid st r.

Definition case_host (p : nat) (ch : Z) (r : request) : rl_action :=
  if is_alpha ch then Continue (sw_host, r)
  else if is_num ch || (ch =? cDOT) || (ch =? cMINUS) then Continue (sw_host, r)
  else case_host_end sw_host p ch r.

Definition case_host_start (p : nat) (ch : Z) (r : request) : rl_action :=
  let r := set_host_start (Some p) r in
  if ch =? cLBRACKET then Continue (sw_host_ip_literal, r) else case_host p ch r.

Definition case_host_ip_literal (ch : Z) (r : request) : rl_action :=
  if is_num ch then Continue (sw_host_ip_literal, r)
  else if is_alpha ch then Continue (sw_host_ip_literal, r)
  else if ch =? cCOLON then Continue (sw_host_ip_literal, r)
  else if ch =? cRBRACKET then Continue (sw_host_end, r)
  else if existsb (Z.eqb ch) (lit "-._~") then Continue (sw_host_ip_literal, r)
  else if existsb (Z.eqb ch) (lit "!$&'()*+,;=") then Continue (sw_host_ip_literal, r)
  else invalid sw_host_ip_literal r.

Definition case_port (p : nat) (ch : Z) (r : request) : rl_action :=
  if is_num ch then Continue (sw_port, r)
  else if ch =? cSLASH then
    Continue (sw_after_slash_in_uri, set_uri_start (Some p) (set_port_end (Some p) r))
  else if ch =? cSP then
    let r := set_port_end (Some p) r in
    Continue (sw_host_http_09,
      set_uri_end (ptr_add (schema_end r) 2) (set_uri_start (ptr_add (schema_end r) 1) r))
  else invalid sw_port r.

Definition case_host_http_09 (p : nat) (ch : Z) (r : request) : rl_action :=
  if ch =? cSP then Continue (sw_host_http_09, r)
  else if ch =? cCR then Continue (sw_almost_done, set_http_minor 9 r)
  else if ch =? cLF then Leave Done (sw_host_http_09, set_http_minor 9 r)
  else if ch =? cH then Continue (sw_http_H, set_http_protocol (Some p) r)
  else invalid sw_host_http_09 r.

Definition case_after_slash_in_uri (p : nat) (ch : Z) (r : request) : rl_action :=
  if bit_set usual ch then Continue (sw_check_uri, r)
  else if ch =? cSP then Continue (sw_check_uri_http_09, set_uri_end (Some p) r)
  else if ch =? cCR then Continue (sw_almost_done, set_http_minor 9 (set_uri_end (Some p) r))
  else if ch =? cLF then
    Leave Done (sw_after_slash_in_uri, set_http_minor 9 (set_uri_end (Some p) r))
  else if ch =? cDOT then Continue (sw_uri, set_complex_uri true r)
  else if ch =? cPERCENT then Continue (sw_uri, set_quoted_uri true r)
  else if ch =? cSLASH then Continue (sw_uri, set_complex_uri true r)
  else if ch =? cQM then Continue (sw_uri, set_args_start (Some (S p)) r)
  else if ch =? cHASH then Continue (sw_uri, set_complex_uri true r)
  else if ch =? cPLUS then Continue (sw_after_slash_in_uri, set_plus_in_uri true r)
  else if ch =? cNUL then invalid sw_after_slash_in_uri r
  else Continue (sw_check_uri, r).

Definition case_check_uri (p : nat) (ch : Z) (r : request) : rl_action :=
  if bit_set usual ch then Continue (sw_check_uri, r)
  else if ch =? cSLASH then Continue (sw_after_slash_in_uri, set_uri_ext None r)
  else if ch =? cDOT then Continue (sw_check_uri, set_uri_ext (Some (S p)) r)
  else if ch =? cSP then Continue (sw_check_uri_http_09, set_uri_end (Some p) r)
  else if ch =? cCR then Continue (sw_almost_done, set_http_minor 9 (set_uri_end (Some p) r))
  else if ch =? cLF then Leave Done (sw_check_uri, set_http_minor 9 (set_uri_end (Some p) r))
  else if ch =? cPERCENT then Continue (sw_uri, set_quoted_uri true r)
  else if ch =? cQM then Continue (sw_uri, set_args_start (Some (S p)) r)
  else if ch =? cHASH then Continue (sw_uri, set_complex_uri true r)
  else if ch =? cPLUS then Continue (sw_check_uri, set_plus_in_uri true r)
  else if ch =? cNUL then invalid sw_check_uri r
  else Continue (sw_check_uri, r).

Definition case_check_uri_http_09 (p : nat) (ch : Z) (r : request) : rl_action :=
  if ch =? cSP then Continue (sw_check_uri_http_09, r)
  else if ch =? cCR then Continue (sw_almost_done, set_http_minor 9 r)
  else if ch =? cLF then Leave Done (sw_check_uri_http_09, set_http_minor 9 r)
  else if ch =? cH then Continue (sw_http_H, set_http_protocol (Some p) r)
  else Rescan (sw_check_uri, set_space_in_uri true r).

Definition case_uri (p : nat) (ch : Z) (r : request) : rl_action :=
  if bit_set usual ch then Continue (sw_uri, r)
  else if ch =? cSP then Continue (sw_http_09, set_uri_end (Some p) r)
  else if ch =? cCR then Continue (sw_almost_done, set_http_minor 9 (set_uri_end (Some p) r))
  else if ch =? cLF then Leave Done (sw_uri, set_http_minor 9 (set_uri_end (Some p) r))
  else if ch =? cHASH then Continue (sw_uri, set_complex_uri true r)
  else if ch =? cNUL then invalid sw_uri r
  else Continue (sw_uri, r).

Definition case_http_09 (p : nat) (ch : Z) (r : request) : rl_action :=
  if ch =? cSP then Continue (sw_http_09, r)
  else if ch =? cCR then Continue (sw_almost_done, set_http_minor 9 r)
  else if ch =? cLF then Leave Done (sw_http_09, set_http_minor 9 r)
  else if ch =? cH then Continue (sw_http_H, set_http_protocol (Some p) r)
  else Rescan (sw_uri, set_space_in_uri true r).

(** The four states that match "TTP/". *)
Definition case_http_letter (st next : rl_state) (want ch : Z) (r : request) : rl_action :=
  if ch =? want then Continue (next, r) else invalid st r.

Definition case_first_major_digit (ch : Z) (r : request) : rl_action :=
  if (ch <? c_1) || (c_9 <? ch) then invalid sw_first_major_digit r
  else Continue (sw_major_digit, set_http_major (uint 16 (ch - c_0)) r).

Definition case_major_digit (ch : Z) (r : request) : rl_action :=
  if ch =? cDOT then Continue (sw_first_minor_digit, r)
  else if (ch <? c_0) || (c_9 <? ch) then invalid sw_major_digit r
  else Continue (sw_major_digit, set_http_major (uint 16 (http_major r * 10 + ch - c_0)) r).

Definition case_first_minor_digit (ch : Z) (r : request) : rl_action :=
  if (ch <? c_0) || (c_9 <? ch) then invalid sw_first_minor_digit r
  else Continue (sw_minor_digit, set_http_minor (uint 16 (ch - c_0)) r).

Definition case_minor_digit (ch : Z) (r : request) : rl_action :=
  if ch =? cCR then Continue (sw_almost_done, r)
  else if ch =? cLF then Leave Done (sw_minor_digit, r)
  else if ch =? cSP then Continue (sw_spaces_after_digit, r)
  else if (ch <? c_0) || (c_9 <? ch) then invalid sw_minor_digit r
  else Continue (sw_minor_digit, set_http_minor (uint 16 (http_minor r * 10 + ch - c_0)) r).

Definition case_spaces_after_digit (ch : Z) (r : request) : rl_action :=
  if ch =? cSP then Continue (sw_spaces_after_digit, r)
  else if ch =? cCR then Continue (sw_almost_done, r)
  else if ch =? cLF then Leave Done (sw_spaces_after_digit, r)
  else invalid sw_spaces_after_digit r.

Definition case_almost_done (p : nat) (ch : Z) (r : request) : rl_action :=
  let r := set_request_end (Some (p - 1)%nat) r in
  if ch =? cLF then Leave Done (sw_almost_done, r) else invalid sw_almost_done r.

(** The switch. *)
Definition rl_step (buf : list Z) (p : nat) (ch : Z) (s : rl_st) : rl_action :=
  let '(state, r) := s in
  match state with
  | sw_start => case_start p ch r
  | sw_method => case_method buf p ch r
  | sw_spaces_before_uri => case_spaces_before_uri p ch r
  | sw_schema => case_schema p ch r
  | sw_schema_slash => case_schema_slash ch r
  | sw_schema_slash_slash => case_schema_slash_slash ch r
  | sw_host_start => case_host_start p ch r
  | sw_host => case_host p ch r
  | sw_host_end => case_host_end sw_host_end p ch r
  | sw_host_ip_literal => case_host_ip_literal ch r
  | sw_port => case_port p ch r
  | sw_host_http_09 => case_host_http_09 p ch r
  | sw_after_slash_in_uri => case_after_slash_in_uri p ch r
  | sw_check_uri => case_check_uri p ch r
  | sw_check_uri_http_09 => case_check_uri_http_09 p ch r
  | sw_uri => case_uri p ch r
  | sw_http_09 => case_http_09 p ch r
  | sw_http_H => case_http_letter sw_http_H sw_http_HT cT ch r
  | sw_http_HT => case_http_letter sw_http_HT sw_http_HTT cT ch r
  | sw_http_HTT => case_http_letter sw_http_HTT sw_http_HTTP cP ch r
  | sw_http_HTTP => case_http_letter sw_http_HTTP sw_first_major_digit cSLASH ch r
  | sw_first_major_digit => case_first_major_digit ch r
  | sw_major_digit => case_major_digit ch r
  | sw_first_minor_digit => case_first_minor_digit ch r
  | sw_minor_digit => case_minor_digit ch r
  | sw_spaces_after_digit => case_spaces_after_digit ch r
  | sw_almost_done => case_almost_done p ch r
  end.

(** [done:], reached with [p] at the LF. *)
Definition rl_done (p : nat) (r : request) : Z * request * nat :=
  let r := match request_end r with None => set_request_end (Some p) r | Some _ => r end in
  let r := set_http_version (http_major r * 1000 + http_minor r) r in
  let r := set_state sw_start r in
  if (http_version r =? 9) && negb (method r =? NGX_HTTP_GET)
  then (NGX_HTTP_PARSE_INVALID_09_METHOD, r, S p)
  else (NGX_OK, r, S p).

(** The whole function: the return code, the request and [b->pos].  [buf] is the
    header buffer up to [b->last]. *)
Definition ngx_http_parse_request_line (r : request) (buf : list Z) (pos : nat) :
    option (Z * request * nat) :=
  match go rl_step buf pos (state r, r) with
  | Ended (st, r') p => Some (NGX_AGAIN, set_state st r', p)
  | Left Done (_, r') p => Some (rl_done p r')
  | Left (Return code) (_, r') _ => Some (code, r', pos)
  | NoFuel => None
  end.

(** ** The machine *)

Definition rl_rank (s : rl_st) : nat :=
  match s.1 with sw_check_uri_http_09 | sw_http_09 => 1 | _ => 0 end.

Lemma str_at_app buf more m s :
  (m + length s <= length buf)%nat -> str_at (buf ++ more) m s = str_at buf m s.
Proof.
  intros H. unfold str_at. rewrite drop_app_le, take_app_le; [done| |lia]. rewrite length_drop. lia.
Qed.

(** The method test reads no byte past [p]. *)
Lemma known_method_app buf more m p :
  (p < length buf)%nat -> known_method (buf ++ more) m (p - m) = known_method buf m (p - m).
Proof.
  intros Hp. unfold known_method. remember (p - m)%nat as len eqn:Hl.
  do 10 (destruct len as [|len];
    [cbv beta match; rewrite ?lookup_app_l by lia; rewrite ?str_at_app by (simpl; lia); done|]).
  done.
Qed.

Lemma rl_step_local buf more p ch s :
  (p < length buf)%nat -> rl_step (buf ++ more) p ch s = rl_step buf p ch s.
Proof.
  intros Hp. destruct s as [st r]. destruct st; try done. cbn [rl_step]. unfold case_method.
  case_test; [|done]. destruct (request_start _); [|done]. by rewrite known_method_app.
Qed.

(** Unfold the cases of the switch in a hypothesis and split its tests. *)
Ltac rl_cases H :=
  cbn [rl_step] in H;
  unfold case_start, case_method, case_spaces_before_uri, case_schema, case_schema_slash,
    case_schema_slash_slash, case_host_start, case_host, case_host_end, case_host_ip_literal,
    case_port, case_host_http_09, case_after_slash_in_uri, case_check_uri, case_check_uri_http_09,
    case_uri, case_http_09, case_http_letter, case_first_major_digit, case_major_digit,
    case_first_minor_digit, case_minor_digit, case_spaces_after_digit, case_almost_done, invalid in H;
  repeat case_test_in H.

#[export] Instance rl_machine : Machine rl_step rl_rank.
Proof.
  split.
  - intros [st r]. unfold rl_rank. cbn. destruct st; lia.
  - intros buf p ch [st r] s' H. destruct st; rl_cases H; simplify_eq; unfold rl_rank; cbn; try lia;
      destruct (request_start _); [destruct (known_method _ _ _)|]; simplify_eq.
  - intros. by apply rl_step_local.
Qed.

(** The steps do not look at [r->state]. *)
Lemma rl_step_set_state v buf p ch s :
  rl_step buf p ch (s.1, set_state v s.2) =
    match rl_step buf p ch s with
    | Continue s' => Continue (s'.1, set_state v s'.2)
    | Rescan s' => Rescan (s'.1, set_state v s'.2)
    | Leave x s' => Leave x (s'.1, set_state v s'.2)
    end.
Proof.
  destruct s as [st r]. cbn [fst snd]. destruct st; cbn [rl_step];
    unfold case_start, case_method, case_spaces_before_uri, case_schema, case_schema_slash,
    case_schema_slash_slash, case_host_start, case_host, case_host_end, case_host_ip_literal,
    case_port, case_host_http_09, case_after_slash_in_uri, case_check_uri, case_check_uri_http_09,
    case_uri, case_http_09, case_http_letter, case_first_major_digit, case_major_digit,
    case_first_minor_digit, case_minor_digit, case_spaces_after_digit, case_almost_done, invalid;
    repeat case_test; try reflexivity.
  change (request_start (set_method_end _ (set_state v r)))
    with (request_start (set_method_end (Some (p - 1)%nat) r)).
  destruct (request_start (set_method_end (Some (p - 1)%nat) r)) as [m|]; [|done].
  by destruct (known_method buf m (p - m)).
Qed.

Lemma set_state_twice a b r : set_state a (set_state b r) = set_state a r.
Proof. done. Qed.

Lemma rl_done_set_state v p r : rl_done p (set_state v r) = rl_done p r.
Proof.
  unfold rl_done. change (request_end (set_state v r)) with (request_end r).
  destruct (request_end r); done.
Qed.

(** The only errors the loop returns. *)
Definition exit_code (x : rl_exit) : Prop :=
  match x with
  | Done => True
  | Return code => code = NGX_HTTP_PARSE_INVALID_METHOD \/ code = NGX_HTTP_PARSE_INVALID_REQUEST
  end.

Lemma rl_step_exit buf p ch s x s' : rl_step buf p ch s = Leave x s' -> exit_code x.
Proof.
  destruct s as [st r]. intros H. destruct st; rl_cases H; simplify_eq; simpl; try done; try (by left);
    try (by right); destruct (request_start _); [destruct (known_method _ _ _)|]; simplify_eq.
Qed.

Lemma go_exit_code buf p s :
  match go rl_step buf p s with Left x _ _ => exit_code x | Ended _ _ => True | NoFuel => False end.
Proof.
  pose proof (go_invariant rl_step rl_rank (fun _ _ _ => True) (fun _ _ x _ => exit_code x) buf) as H.
  specialize (H ltac:(done) ltac:(done)). specialize (H ltac:(intros; eapply rl_step_exit; eassumption) p s I).
  by destruct (go rl_step buf p s).
Qed.

Lemma rl_done_code p r :
  (rl_done p r).1.1 = NGX_OK \/ (rl_done p r).1.1 = NGX_HTTP_PARSE_INVALID_09_METHOD.
Proof. unfold rl_done. cbv zeta. repeat case_test; auto. Qed.

(** ** Theorems *)

(** Two results of the parser that a caller cannot tell apart: the same code and,
    unless it is an error, the same request and position; after an error the
    requests may differ in the saved [state] only. *)
Definition same_result (x y : option (Z * request * nat)) : Prop :=
  match x, y with
  | Some (c1, r1, p1), Some (c2, r2, p2) =>
      c1 = c2 /\ set_state sw_start r1 = set_state sw_start r2
      /\ (c1 <> NGX_HTTP_PARSE_INVALID_METHOD -> c1 <> NGX_HTTP_PARSE_INVALID_REQUEST ->
          r1 = r2 /\ p1 = p2)
  | _, _ => False
  end.

(** C6: The request line parser is incremental: when it returns [NGX_AGAIN] at the
    end of what was received, calling it again after more bytes have arrived
    gives the result of one call on all of them. *)
Theorem request_line_resume r buf more pos r' pos' :
  ngx_http_parse_request_line r buf pos = Some (NGX_AGAIN, r', pos') ->
  same_result (ngx_http_parse_request_line r' (buf ++ more) pos')
    (ngx_http_parse_request_line r (buf ++ more) pos).
Proof.
  unfold ngx_http_parse_request_line. intros H.
  pose proof (go_exit_code buf pos (state r, r)) as Hx.
  destruct (go rl_step buf pos (state r, r)) as [[st r1] p|[|code] [st r1] p|] eqn:E; [|..|done].
  2:{ pose proof (rl_done_code p r1) as Hc. injection H as H. rewrite H in Hc. simpl in Hc. lia. }
  2:{ simplify_eq. destruct Hx; lia. }
  simplify_eq. rewrite (go_resume rl_step rl_rank _ more _ _ _ _ E).
  pose proof (go_map rl_step rl_rank (fun s => (s.1, set_state st s.2)) (buf ++ more)
    (rl_step_set_state st _) pos' (st, r1)) as M. cbn [fst snd] in M.
  change (state (set_state st r1)) with st. rewrite M.
  pose proof (go_exit_code (buf ++ more) pos' (st, r1)) as Hx2.
  destruct (go rl_step (buf ++ more) pos' (st, r1)) as [[st2 r2] p2|[|code] [st2 r2] p2|];
    cbn [map_outcome fst snd]; [done| | |done].
  - rewrite rl_done_set_state. unfold same_result. by destruct (rl_done p2 r2) as [[c r3] p3].
  - split; [done|]. split; [done|]. simpl in Hx2. lia.
Qed.

(** A request as [ngx_http_create_request] leaves it. *)
Definition fresh_request : request :=
  mkRequest sw_start None None None None None None None None None None None None None
    0x0001 0 0 1000 false false false false.

Lemma request_line_resume_witness :
  let r := fresh_request in
  same_result
    (ngx_http_parse_request_line
       (set_method NGX_HTTP_GET (set_method_end (Some 2%nat) (set_request_start (Some 0%nat)
          (set_state sw_check_uri_http_09 (set_uri_end (Some 5%nat) (set_uri_start (Some 4%nat) r))))))
       (lit "GET / " ++ lit "HTTP/1.0") 6)
    (ngx_http_parse_request_line r (lit "GET / " ++ lit "HTTP/1.0") 0).
Proof. apply request_line_resume. vm_compute. reflexivity. Defined.

(** C40: The request line parser always returns, with one of its five codes, and
    leaves [b->pos] where it was (after an error), at the end of the data
    ([NGX_AGAIN]) or just past the LF that ends the line. *)
Theorem request_line_total r buf pos :
  (pos <= length buf)%nat ->
  exists code r' pos', ngx_http_parse_request_line r buf pos = Some (code, r', pos')
    /\ (((code = NGX_HTTP_PARSE_INVALID_METHOD \/ code = NGX_HTTP_PARSE_INVALID_REQUEST) /\ pos' = pos)
        \/ (code = NGX_AGAIN /\ pos' = length buf)
        \/ ((code = NGX_OK \/ code = NGX_HTTP_PARSE_INVALID_09_METHOD)
            /\ (pos < pos' <= length buf)%nat /\ buf !! (pos' - 1)%nat = Some cLF)).
Proof.
  intros Hp. unfold ngx_http_parse_request_line.
  pose proof (go_exit_code buf pos (state r, r)) as Hx.
  pose proof (go_pos rl_step rl_rank buf pos (state r, r)) as Hpos.
  pose proof (go_invariant rl_step rl_rank (fun _ p _ => p <= length buf)%nat
    (fun buf p x _ => x = Done -> buf !! p = Some cLF) buf) as HI. cbv beta in HI.
  specialize (HI ltac:(intros p s ch s' H _ _; apply lookup_lt_Some in H; lia) ltac:(done)).
  specialize (HI ltac:(intros p [st r0] ch x s' Hch _ H ->; rewrite Hch; destruct st; rl_cases H;
    try discriminate H; try (f_equal; lia);
    destruct (request_start _); [destruct (known_method _ _ _)|]; discriminate H)).
  specialize (HI pos (state r, r) Hp).
  destruct (go rl_step buf pos (state r, r)) as [[st r1] p|[|code] [st r1] p|]; [| | |done].
  - eexists _, _, _. split; [done|]. right. left. split; [done|]. lia.
  - pose proof (rl_done_code p r1) as Hc. destruct (rl_done p r1) as [[c r2] p2] eqn:E.
    assert (p2 = S p) as -> by (unfold rl_done in E; repeat case_test_in E; by simplify_eq).
    eexists _, _, _. split; [done|]. right. right. simpl in Hc. split; [done|]. split; [lia|].
    replace (S p - 1)%nat with p by lia. by apply HI.
  - eexists _, _, _. split; [done|]. by left.
Qed.

Lemma request_line_total_witness :
  exists code r' pos',
    ngx_http_parse_request_line fresh_request (lit "GET /" ++ [cLF]) 0 = Some (code, r', pos')
    /\ (((code = NGX_HTTP_PARSE_INVALID_METHOD \/ code = NGX_HTTP_PARSE_INVALID_REQUEST) /\ pos' = 0%nat)
        \/ (code = NGX_AGAIN /\ pos' = length (lit "GET /" ++ [cLF]))
        \/ ((code = NGX_OK \/ code = NGX_HTTP_PARSE_INVALID_09_METHOD)
            /\ (0 < pos' <= length (lit "GET /" ++ [cLF]))%nat
            /\ (lit "GET /" ++ [cLF]) !! (pos' - 1)%nat = Some cLF)).
Proof. apply request_line_total. simpl. lia. Defined.

(** ** The pointers of a parsed request line *)

Definition method_at (buf : list Z) (i : nat) : Prop :=
  exists c, buf !! i = Some c /\ is_method_char c = true.

(** The method has been read: it lies between [request_start] and [method_end]. *)
Definition method_ok (buf : list Z) (pos p : nat) (r : request) : Prop :=
  match request_start r, method_end r with
  | Some a, Some b =>
      (pos <= a <= b)%nat /\ (b < p)%nat /\ forall i, (a <= i <= b)%nat -> method_at buf i
  | _, _ => False
  end.

(** The URI has begun, with a slash, after the method. *)
Definition uri_ok (buf : list Z) (p : nat) (r : request) : Prop :=
  match method_end r, uri_start r with
  | Some b, Some c =>
      (b < c < p)%nat /\ buf !! c = Some cSLASH
      /\ match args_start r with None => True | Some g => (c < g <= p)%nat end
  | _, _ => False
  end.

(** The URI has ended, at [lim] at the latest, and its arguments lie inside. *)
Definition uri_end_ok (lim : nat) (r : request) : Prop :=
  match uri_start r, uri_end r with
  | Some c, Some d =>
      (c < d <= lim)%nat /\ match args_start r with None => True | Some g => (g <= d)%nat end
  | _, _ => False
  end.

(** A scheme has been read; the byte after its colon is a slash. *)
Definition schema_ok (buf : list Z) (p : nat) (r : request) : Prop :=
  match method_end r, schema_end r with
  | Some b, Some e => (b < e)%nat /\ (S e < p)%nat /\ buf !! S e = Some cSLASH
  | _, _ => False
  end.

Definition rl_inv (pos : nat) (buf : list Z) (p : nat) (s : rl_st) : Prop :=
  let '(st, r) := s in
  request_end r = None /\ (pos <= p)%nat /\
  match st with
  | sw_start => args_start r = None
  | sw_method =>
      args_start r = None /\
      match request_start r with
      | Some a => (pos <= a < p)%nat /\ forall i, (a <= i < p)%nat -> method_at buf i
      | None => False
      end
  | sw_spaces_before_uri | sw_schema => args_start r = None /\ method_ok buf pos p r
  | sw_schema_slash =>
      args_start r = None /\ method_ok buf pos p r
      /\ match method_end r, schema_end r with
         | Some b, Some e => (b < e)%nat /\ p = S e
         | _, _ => False
         end
  | sw_schema_slash_slash | sw_host_start | sw_host | sw_host_end | sw_host_ip_literal | sw_port =>
      args_start r = None /\ method_ok buf pos p r /\ schema_ok buf p r
  | sw_after_slash_in_uri | sw_check_uri | sw_uri => method_ok buf pos p r /\ uri_ok buf p r
  | sw_almost_done => method_ok buf pos p r /\ uri_ok buf p r /\ uri_end_ok (p - 1) r
  | _ => method_ok buf pos p r /\ uri_ok buf p r /\ uri_end_ok p r
  end.

(** At [done:]. *)
Definition rl_post (pos : nat) (buf : list Z) (p : nat) (x : rl_exit) (s : rl_st) : Prop :=
  match x with
  | Return _ => True
  | Done =>
      method_ok buf pos p s.2 /\ uri_ok buf p s.2 /\ uri_end_ok p s.2
      /\ match request_end s.2 with None => True | Some e => e = (p - 1)%nat /\ uri_end_ok e s.2 end
  end.

(** Make the pointers known and finish by arithmetic. *)
Ltac split_ptrs :=
  repeat match goal with
         | H : _ /\ _ |- _ => destruct H
         | H : context [match ?o with Some _ => _ | None => _ end] |- _ =>
             lazymatch o with context [match _ with _ => _ end] => fail | _ => destruct o eqn:? end
         | |- context [match ?o with Some _ => _ | None => _ end] =>
             lazymatch o with context [match _ with _ => _ end] => fail | _ => destruct o eqn:? end
         end.

Lemma method_at_extend buf a p ch :
  (forall i, (a <= i < p)%nat -> method_at buf i) -> buf !! p = Some ch -> is_method_char ch = true ->
  forall i, (a <= i < S p)%nat -> method_at buf i.
Proof.
  intros H Hp Hc i Hi. destruct (decide (i = p)) as [->|]; [by exists ch|]. apply H. lia.
Qed.

Ltac solve_ptrs :=
  unfold method_ok, uri_ok, uri_end_ok, schema_ok, ptr_add, option_fmap, option_map, fmap in *;
  repeat match goal with
         | H : negb ?b = false |- _ => apply negb_false_iff in H
         | H : (?a =? ?b) = true |- _ => apply Z.eqb_eq in H; subst
         end;
  cbn in *; split_ptrs; simplify_eq/=; split_ptrs; simplify_eq/=; rewrite ?Nat.add_1_r;
  repeat match goal with |- _ /\ _ => split end; auto; try lia;
  try match goal with
      | H : forall i, _ -> method_at _ i |- forall i, _ -> method_at _ i =>
          first [eapply method_at_extend; eassumption | intros; apply H; lia]
      | Hq : ?b !! ?q = Some ?c, Hm : is_method_char ?c = true |- forall i, _ -> method_at ?b i =>
          let j := fresh "j" in let Hj := fresh "Hj" in
          intros j Hj; exists c; split; [replace j with q by lia; exact Hq | exact Hm]
      end.

Lemma rl_inv_step pos buf p ch s s' :
  buf !! p = Some ch -> rl_inv pos buf p s ->
  (rl_step buf p ch s = Continue s' -> rl_inv pos buf (S p) s')
  /\ (rl_step buf p ch s = Rescan s' -> rl_inv pos buf p s').
Proof.
  intros Hp HI. destruct s as [st r]. split; intros H.
  - destruct st; rl_cases H; simplify_eq; unfold rl_inv in *; solve_ptrs.
  - destruct st; rl_cases H; simplify_eq; unfold rl_inv in *; solve_ptrs.
Qed.

Lemma rl_inv_leave pos buf p ch s x s' :
  buf !! p = Some ch -> rl_inv pos buf p s -> rl_step buf p ch s = Leave x s' -> rl_post pos buf p x s'.
Proof.
  intros Hp HI H. destruct s as [st r].
  destruct st; rl_cases H; simplify_eq; unfold rl_inv, rl_post in *; try done; solve_ptrs.
Qed.

(** C9: After a successful parse of a fresh request the pointers are in order and
    inside the buffer: the method is a non-empty run of method characters, the
    URI comes after it, begins with a slash and is not empty, the arguments lie
    in the URI, and the line ends where the URI or the protocol does. *)
Theorem request_line_pointers buf pos r pos' :
  ngx_http_parse_request_line fresh_request buf pos = Some (NGX_OK, r, pos') ->
  exists a b c d e,
    request_start r = Some a /\ method_end r = Some b /\ uri_start r = Some c
    /\ uri_end r = Some d /\ request_end r = Some e
    /\ (pos <= a <= b)%nat /\ (b < c < d)%nat /\ (d <= e < pos')%nat /\ (pos' <= length buf)%nat
    /\ (forall i, (a <= i <= b)%nat -> method_at buf i) /\ buf !! c = Some cSLASH
    /\ match args_start r with None => True | Some g => (c < g <= d)%nat end.
Proof.
  unfold ngx_http_parse_request_line. intros H.
  pose proof (go_exit_code buf pos (state fresh_request, fresh_request)) as Hx.
  pose proof (go_pos rl_step rl_rank buf pos (state fresh_request, fresh_request)) as Hpos.
  pose proof (go_invariant rl_step rl_rank (rl_inv pos) (rl_post pos) buf) as HI.
  specialize (HI (fun p s ch s' Hp Hi Hs => proj1 (rl_inv_step _ _ _ _ _ _ Hp Hi) Hs)
    (fun p s ch s' Hp Hi Hs => proj2 (rl_inv_step _ _ _ _ _ _ Hp Hi) Hs)
    (fun p s ch x s' Hp Hi Hs => rl_inv_leave _ _ _ _ _ _ _ Hp Hi Hs)
    pos (state fresh_request, fresh_request) ltac:(cbn; repeat split; lia)).
  destruct (go rl_step buf pos (state fresh_request, fresh_request))
    as [[st r1] p|[|code] [st r1] p|]; simplify_eq; [|simpl in Hx; lia].
  destruct HI as (HM & HU & HE & HR). cbn [snd] in *. unfold rl_done in H.
  unfold method_ok, uri_ok, uri_end_ok in *.
  destruct (request_end r1) as [e|] eqn:Ee; cbn in H; case_test_in H; simplify_eq; cbn.
  - rewrite Ee. split_ptrs; simplify_eq; eexists _, _, _, _, _; repeat split; eauto; lia.
  - split_ptrs; simplify_eq; eexists _, _, _, _, _; repeat split; eauto; lia.
Qed.

Definition sample_line : list Z := lit "GET /a?b HTTP/1.1" ++ [cCR; cLF].

Lemma request_line_pointers_witness :
  exists a b c d e,
    Some 0%nat = Some a /\ Some 2%nat = Some b /\ Some 4%nat = Some c
    /\ Some 8%nat = Some d /\ Some 17%nat = Some e
    /\ (0 <= a <= b)%nat /\ (b < c < d)%nat /\ (d <= e < 19)%nat /\ (19 <= length sample_line)%nat
    /\ (forall i, (a <= i <= b)%nat -> method_at sample_line i) /\ sample_line !! c = Some cSLASH
    /\ match Some 7%nat with None => True | Some g => (c < g <= d)%nat end.
Proof.
  refine (request_line_pointers sample_line 0
    (mkRequest sw_start (Some 0%nat) (Some 2%nat) (Some 4%nat) None None None None None (Some 8%nat)
       None (Some 7%nat) (Some 9%nat) (Some 17%nat) 2 1 1 1001 false false false false) 19 _).
  vm_compute. reflexivity.
Defined.

End RequestLine.
