(* ===== verification/HttpHeaderLine.v ===== *)
(** * HTTP header lines

    [ngx_http_parse_header_line] of
    src/nginx-1.7.2/src/http/ngx_http_parse.c, and what
    [ngx_http_process_request_headers] (src/nginx-1.7.2/src/http/ngx_http_request.c)
    makes of a line it has parsed: the element of [headers_in.headers] with the
    lower-case key and the hash that headers are looked up by. *)

From S2P Require Import Prelude NgxString NgxHash ByteMachine HttpRequestLine.

Module HeaderLine.

Inductive hl_state :=
  | sw_start | sw_name | sw_space_before_value | sw_value | sw_space_after_value
  | sw_ignore_line | sw_almost_done | sw_header_almost_done.

(** The fields of [ngx_http_request_t] the parser reads or writes; [upstream]
    tells whether the request has an upstream. *)
Record hrequest := mkHRequest {
  state : hl_state;
  header_hash : Z;
  lowcase_index : nat;
  lowcase_header : list Z;
  header_name_start : option nat;
  header_name_end : option nat;
  header_start : option nat;
  header_end : option nat;
  invalid_header : bool;
  upstream : bool
}.

Definition set_saved (st : hl_state) (h : Z) (i : nat) (r : hrequest) : hrequest :=
  mkHRequest st h i (lowcase_header r) (header_name_start r) (header_name_end r) (header_start r)
    (header_end r) (invalid_header r) (upstream r).
Definition set_state (st : hl_state) (r : hrequest) : hrequest :=
  set_saved st (header_hash r) (lowcase_index r) r.
Definition set_lowcase_header (v : list Z) (r : hrequest) : hrequest :=
  mkHRequest (state r) (header_hash r) (lowcase_index r) v (header_name_start r)
    (header_name_end r) (header_start r) (header_end r) (invalid_header r) (upstream r).
Definition set_header_name_start (v : nat) (r : hrequest) : hrequest :=
  mkHRequest (state r) (header_hash r) (lowcase_index r) (lowcase_header r) (Some v)
    (header_name_end r) (header_start r) (header_end r) (invalid_header r) (upstream r).
Definition set_header_name_end (v : nat) (r : hrequest) : hrequest :=
  mkHRequest (state r) (header_hash r) (lowcase_index r) (lowcase_header r) (header_name_start r)
    (Some v) (header_start r) (header_end r) (invalid_header r) (upstream r).
Definition set_header_start (v : nat) (r : hrequest) : hrequest :=
  mkHRequest (state r) (header_hash r) (lowcase_index r) (lowcase_header r) (header_name_start r)
    (header_name_end r) (Some v) (header_end r) (invalid_header r) (upstream r).
Definition set_header_end (v : nat) (r : hrequest) : hrequest :=
  mkHRequest (state r) (header_hash r) (lowcase_index r) (lowcase_header r) (header_name_start r)
    (header_name_end r) (header_start r) (Some v) (invalid_header r) (upstream r).
Definition set_invalid_header (v : bool) (r : hrequest) : hrequest :=
  mkHRequest (state r) (header_hash r) (lowcase_index r) (lowcase_header r) (header_name_start r)
    (header_name_end r) (header_start r) (header_end r) v (upstream r).

Abbreviation NGX_HTTP_PARSE_HEADER_DONE := 1 (only parsing).
Abbreviation NGX_HTTP_PARSE_INVALID_HEADER := 13 (only parsing).
Definition NGX_HTTP_LC_HEADER_LEN : nat := 32.

(** The table of the characters of a header name, in lower case; 0 for the rest. *)
Definition alphabet : list Z := lit "abcdefghijklmnopqrstuvwxyz".
Definition lowcase : list Z :=
  replicate 32 0
  ++ replicate 13 0 ++ [cMINUS; 0; 0] ++ lit "0123456789" ++ replicate 6 0
  ++ [0] ++ alphabet ++ replicate 5 0
  ++ [0] ++ alphabet ++ replicate 5 0
  ++ replicate 128 0.

Inductive hl_exit := Done | HeaderDone | Invalid.

(** The locals [state], [hash] and [i], and the request. *)
Definition hl_st : Type := hl_state * Z * nat * hrequest.
Definition hl_action : Type := action hl_st hl_exit.

Section Parser.
Context `{Arch} (allow_underscores : bool).

(** [i &= (NGX_HTTP_LC_HEADER_LEN - 1)] after [i++]. *)
Definition lc_next (i : nat) : nat := (S i mod NGX_HTTP_LC_HEADER_LEN)%nat.

Definition case_start (p : nat) (ch : Z) (hash : Z) (i : nat) (r : hrequest) : hl_action :=
  let r := set_header_name_start p r in
  let r := set_invalid_header false r in
  if ch =? cCR then Continue (sw_header_almost_done, hash, i, set_header_end p r)
  else if ch =? cLF then Leave HeaderDone (sw_start, hash, i, set_header_end p r)
  else
    let c := nth (Z.to_nat ch) lowcase 0 in
    if negb (c =? 0) then
      Continue (sw_name, ngx_hash 0 c, 1%nat,
                set_lowcase_header (<[0%nat := c]> (lowcase_header r)) r)
    else if ch =? cUNDER then
      if allow_underscores then
        Continue (sw_name, ngx_hash 0 ch, 1%nat,
                  set_lowcase_header (<[0%nat := ch]> (lowcase_header r)) r)
      else Continue (sw_name, hash, i, set_invalid_header true r)
    else if ch =? cNUL then Leave Invalid (sw_name, hash, i, r)
    else Continue (sw_name, hash, i, set_invalid_header true r).

Definition case_name (buf : list Z) (p : nat) (ch : Z) (hash : Z) (i : nat) (r : hrequest) :
    hl_action :=
  let c := nth (Z.to_nat ch) lowcase 0 in
  if negb (c =? 0) then
    Continue (sw_name, ngx_hash hash c, lc_next i,
              set_lowcase_header (<[i := c]> (lowcase_header r)) r)
  else if ch =? cUNDER then
    if allow_underscores then
      Continue (sw_name, ngx_hash hash ch, lc_next i,
                set_lowcase_header (<[i := ch]> (lowcase_header r)) r)
    else Continue (sw_name, hash, i, set_invalid_header true r)
  else if ch =? cCOLON then
    Continue (sw_space_before_value, hash, i, set_header_name_end p r)
  else if ch =? cCR then
    Continue (sw_almost_done, hash, i,
              set_header_end p (set_header_start p (set_header_name_end p r)))
  else if ch =? cLF then
    Leave Done (sw_name, hash, i, set_header_end p (set_header_start p (set_header_name_end p r)))
  else if (ch =? cSLASH) && upstream r
       && match header_name_start r with
          | Some s => ((p - s) =? 4)%nat && RequestLine.str_at buf s (lit "HTTP")
          | None => false
          end
  then Continue (sw_ignore_line, hash, i, r)
  else if ch =? cNUL then Leave Invalid (sw_name, hash, i, r)
  else Continue (sw_name, hash, i, set_invalid_header true r).

Definition case_space_before_value (p : nat) (ch : Z) (hash : Z) (i : nat) (r : hrequest) :
    hl_action :=
  if ch =? cSP then Continue (sw_space_before_value, hash, i, r)
  else if ch =? cCR then
    Continue (sw_almost_done, hash, i, set_header_end p (set_header_start p r))
  else if ch =? cLF then
    Leave Done (sw_space_before_value, hash, i, set_header_end p (set_header_start p r))
  else if ch =? cNUL then Leave Invalid (sw_space_before_value, hash, i, r)
  else Continue (sw_value, hash, i, set_header_start p r).

Definition case_value (p : nat) (ch : Z) (hash : Z) (i : nat) (r : hrequest) : hl_action :=
  if ch =? cSP then Continue (sw_space_after_value, hash, i, set_header_end p r)
  else if ch =? cCR then Continue (sw_almost_done, hash, i, set_header_end p r)
  else if ch =? cLF then Leave Done (sw_value, hash, i, set_header_end p r)
  else if ch =? cNUL then Leave Invalid (sw_value, hash, i, r)
  else Continue (sw_value, hash, i, r).

Definition case_space_after_value (ch : Z) (hash : Z) (i : nat) (r : hrequest) : hl_action :=
  if ch =? cSP then Continue (sw_space_after_value, hash, i, r)
  else if ch =? cCR then Continue (sw_almost_done, hash, i, r)
  else if ch =? cLF then Leave Done (sw_space_after_value, hash, i, r)
  else if ch =? cNUL then Leave Invalid (sw_space_after_value, hash, i, r)
  else Continue (sw_value, hash, i, r).

(** The switch. *)
Definition hl_step (buf : list Z) (p : nat) (ch : Z) (s : hl_st) : hl_action :=
  let '(st, hash, i, r) := s in
  match st with
  | sw_start => case_start p ch hash i r
  | sw_name => case_name buf p ch hash i r
  | sw_space_before_value => case_space_before_value p ch hash i r
  | sw_value => case_value p ch hash i r
  | sw_space_after_value => case_space_after_value ch hash i r
  | sw_ignore_line => if ch =? cLF then Continue (sw_start, hash, i, r) else Continue s
  | sw_almost_done =>
      if ch =? cLF then Leave Done s else if ch =? cCR then Continue s else Leave Invalid s
  | sw_header_almost_done => if ch =? cLF then Leave HeaderDone s else Leave Invalid s
  end.

(** The whole function: the return code, the request and [b->pos]. *)
Definition ngx_http_parse_header_line (r : hrequest) (buf : list Z) (pos : nat) :
    option (Z * hrequest * nat) :=
  match go hl_step buf pos (state r, header_hash r, lowcase_index r, r) with
  | Ended (st, hash, i, r') p => Some (NGX_AGAIN, set_saved st hash i r', p)
  | Left Done (_, hash, i, r') p => Some (NGX_OK, set_saved sw_start hash i r', S p)
  | Left HeaderDone (_, _, _, r') p =>
      Some (NGX_HTTP_PARSE_HEADER_DONE, set_state sw_start r', S p)
  | Left Invalid (_, _, _, r') _ => Some (NGX_HTTP_PARSE_INVALID_HEADER, r', pos)
  | NoFuel => None
  end.
End Parser.

(** ** The machine *)

Section Theory.
Context `{Arch} (allow_underscores : bool).

Local Abbreviation step := (hl_step allow_underscores).
Local Abbreviation parse := (ngx_http_parse_header_line allow_underscores).

Definition hl_rank (s : hl_st) : nat := 0.

(** The duplicate status line test reads no byte past [p]. *)
Lemma hl_step_local buf more p ch s :
  (p < length buf)%nat -> step (buf ++ more) p ch s = step buf p ch s.
Proof.
  intros Hp. destruct s as [[[st h] i] r]. destruct st; try done. cbn [hl_step].
  unfold case_name. destruct (header_name_start r) as [s|]; [|done].
  destruct (Nat.eqb_spec (p - s) 4); [|done].
  by rewrite RequestLine.str_at_app by (simpl; lia).
Qed.

#[export] Instance hl_machine : Machine step hl_rank.
Proof.
  split.
  - intros. unfold hl_rank. lia.
  - intros buf p ch [[[st h] i] r] s' E.
    destruct st; cbn [hl_step] in E;
      unfold case_start, case_name, case_space_before_value, case_value,
        case_space_after_value in E; repeat case_test_in E; simplify_eq.
  - intros. by apply hl_step_local.
Qed.

(** The steps do not look at what the request has saved of the locals. *)
Lemma hl_step_set_saved v h0 i0 buf p ch st h i r :
  step buf p ch (st, h, i, set_saved v h0 i0 r) =
    match step buf p ch (st, h, i, r) with
    | Continue (st', h', i', r') => Continue (st', h', i', set_saved v h0 i0 r')
    | Rescan (st', h', i', r') => Rescan (st', h', i', set_saved v h0 i0 r')
    | Leave x (st', h', i', r') => Leave x (st', h', i', set_saved v h0 i0 r')
    end.
Proof.
  destruct st; cbn [hl_step];
    unfold case_start, case_name, case_space_before_value, case_value, case_space_after_value;
    cbn [upstream header_name_start set_saved]; repeat case_test; done.
Qed.

(** Two results a caller cannot tell apart: the same code and position and, if
    the parser saved its locals, the same request; the other requests may
    differ in the saved locals only. *)
Definition same_result (x y : option (Z * hrequest * nat)) : Prop :=
  match x, y with
  | Some (c1, r1, p1), Some (c2, r2, p2) =>
      c1 = c2 /\ set_saved sw_start 0 0 r1 = set_saved sw_start 0 0 r2
      /\ (c1 <> NGX_HTTP_PARSE_INVALID_HEADER -> p1 = p2)
      /\ (c1 = NGX_OK \/ c1 = NGX_AGAIN -> r1 = r2)
  | _, _ => False
  end.

(** C11: The header line parser is incremental: a call that returned [NGX_AGAIN],
    repeated after more bytes have arrived, gives the result of one call on
    all of them. *)
Theorem header_line_resume r buf more pos r' pos' :
  parse r buf pos = Some (NGX_AGAIN, r', pos') ->
  same_result (parse r' (buf ++ more) pos') (parse r (buf ++ more) pos).
Proof.
  unfold ngx_http_parse_header_line. intros E.
  destruct (go step buf pos (state r, header_hash r, lowcase_index r, r))
    as [[[[st h] i] r1] p|[] [[[st h] i] r1] p|] eqn:G; simplify_eq.
  rewrite (go_resume step hl_rank _ more _ _ _ _ G). cbn [state header_hash lowcase_index set_saved].
  pose proof (go_map step hl_rank
    (fun s => let '(st', h', i', r') := s in (st', h', i', set_saved st h i r')) (buf ++ more)) as M.
  rewrite (M ltac:(intros p ch [[[st' h'] i'] r2]; rewrite hl_step_set_saved;
    by destruct (step _ _ _ _) as [[[[]]]|[[[]]]|? [[[]]]]) pos' (st, h, i, r1)).
  pose proof (go_total step hl_rank (buf ++ more) pos' (st, h, i, r1)) as T.
  destruct (go step (buf ++ more) pos' (st, h, i, r1))
    as [[[[st2 h2] i2] r2] p2|[] [[[st2 h2] i2] r2] p2|]; cbn [map_outcome same_result];
    repeat split; try done; intros [|]; discriminate.
Qed.

(** The lower-case buffer has its size and is indexed inside it. *)
Definition lc_ok (r : hrequest) : Prop :=
  length (lowcase_header r) = NGX_HTTP_LC_HEADER_LEN
  /\ (lowcase_index r < NGX_HTTP_LC_HEADER_LEN)%nat.

Lemma lc_next_lt i : (lc_next i < NGX_HTTP_LC_HEADER_LEN)%nat.
Proof. apply Nat.mod_upper_bound. by unfold NGX_HTTP_LC_HEADER_LEN. Qed.

Definition hl_inv (s : hl_st) : Prop :=
  let '(_, _, i, r) := s in
  length (lowcase_header r) = NGX_HTTP_LC_HEADER_LEN /\ (i < NGX_HTTP_LC_HEADER_LEN)%nat
  /\ (lowcase_index r < NGX_HTTP_LC_HEADER_LEN)%nat.

Lemma hl_inv_step buf p ch s :
  hl_inv s ->
  match step buf p ch s with
  | Continue s' | Rescan s' => hl_inv s'
  | Leave x s' => hl_inv s' /\ (x <> Invalid -> ch = cLF)
  end.
Proof.
  destruct s as [[[st h] i] r]. intros (Hl & Hi & Hx). pose proof (lc_next_lt i).
  assert (H1 : (1 < NGX_HTTP_LC_HEADER_LEN)%nat) by (unfold NGX_HTTP_LC_HEADER_LEN; lia).
  destruct st; cbn [hl_step];
    unfold case_start, case_name, case_space_before_value, case_value, case_space_after_value;
    repeat case_test; cbn; rewrite ?length_insert; repeat split; auto; try done; lia.
Qed.

(** The header line parser always returns, with one of its four codes; it
    writes the lower-case buffer inside its bounds only; and it leaves
    [b->pos] where it was (after an error), at the end of the data or just
    past the LF that ends the line. *)
Theorem header_line_total r buf pos :
  lc_ok r -> (pos <= length buf)%nat ->
  exists code r' pos', parse r buf pos = Some (code, r', pos') /\ lc_ok r'
    /\ ((code = NGX_HTTP_PARSE_INVALID_HEADER /\ pos' = pos)
        \/ (code = NGX_AGAIN /\ pos' = length buf)
        \/ ((code = NGX_OK \/ code = NGX_HTTP_PARSE_HEADER_DONE)
            /\ (pos < pos' <= length buf)%nat /\ buf !! (pos' - 1)%nat = Some cLF)).
Proof.
  intros [Hl Hi] Hp. unfold ngx_http_parse_header_line.
  pose proof (go_pos step hl_rank buf pos (state r, header_hash r, lowcase_index r, r)) as Hpos.
  pose proof (go_invariant step hl_rank (fun _ p s => (p <= length buf)%nat /\ hl_inv s)
    (fun buf p x s => hl_inv s /\ (x <> Invalid -> buf !! p = Some cLF)) buf) as HI. cbv beta in HI.
  specialize (HI ltac:(intros p s ch s' Hc [_ Hs] E; apply lookup_lt_Some in Hc;
    split; [lia|]; pose proof (hl_inv_step buf p ch s Hs) as Q; by rewrite E in Q)).
  specialize (HI ltac:(intros p s ch s' Hc [Hb Hs] E;
    split; [done|]; pose proof (hl_inv_step buf p ch s Hs) as Q; by rewrite E in Q)).
  specialize (HI ltac:(intros p s ch x s' Hc [Hb Hs] E;
    pose proof (hl_inv_step buf p ch s Hs) as Q; rewrite E in Q; destruct Q as [Q1 Q2];
    split; [done|]; intros Hx; rewrite Hc; f_equal; auto)).
  specialize (HI pos (state r, header_hash r, lowcase_index r, r) ltac:(by repeat split)).
  destruct (go step buf pos (state r, header_hash r, lowcase_index r, r))
    as [[[[st h] i] r1] p|[] [[[st h] i] r1] p|]; [..|done];
    eexists _, _, _; (split; [done|]); destruct HI as [HI HF]; cbn in HI, HF.
  - destruct HF as (? & ? & ?). split; [done|]. right; left. split; [done|]. lia.
  - split; [by destruct HI as (? & ? & ?)|]. right; right. split; [by left|]. split; [lia|].
    replace (S p - 1)%nat with p by lia. by apply HF.
  - split; [by destruct HI as (? & ? & ?)|]. right; right. split; [by right|]. split; [lia|].
    replace (S p - 1)%nat with p by lia. by apply HF.
  - split; [by destruct HI as (? & ? & ?)|]. by left.
Qed.
End Theory.

(** ** The header element *)

(** [ngx_table_elt_t] with its lower-case key. *)
Record table_elt := mkElt { hash : Z; key : list Z; value : list Z; lowcase_key : list Z }.

(** The bytes of the buffer from [a] to [b]. *)
Definition span (buf : list Z) (a b : option nat) : list Z :=
  match a, b with Some a, Some b => take (b - a) (drop a buf) | _, _ => [] end.

(** The element that [ngx_http_process_request_headers] pushes for a line parsed
    with [NGX_OK]; [None] when the line is dropped as invalid. *)
Definition header_element (ignore_invalid_headers : bool) (buf : list Z) (r : hrequest) :
    option table_elt :=
  if invalid_header r && ignore_invalid_headers then None
  else
    let key := span buf (header_name_start r) (header_name_end r) in
    let value := span buf (header_start r) (header_end r) in
    lowcase_key ←
      (if (length key =? lowcase_index r)%nat
       then Some (take (length key) (lowcase_header r))
       else ngx_strlow key (length key));
    Some (mkElt (header_hash r) key value lowcase_key).

(** ** A well-formed line is parsed to its name and value *)

(** The bytes of a valid header name. *)
Definition name_char (allow_underscores : bool) (c : Z) : bool :=
  (c =? cMINUS) || (c_0 <=? c <=? c_9) || (cA <=? c <=? cZ) || (ca <=? c <=? cz)
  || (allow_underscores && (c =? cUNDER)).

(** The bytes of a value. *)
Definition value_char (c : Z) : Prop := c <> cNUL /\ c <> cLF /\ c <> cCR.

Definition is_eol (eol : list Z) : Prop := eol = [cLF] \/ eol = [cCR; cLF].

(** Arithmetic on the lengths of the pieces of a line. *)
Ltac lens := repeat first [rewrite length_app | progress cbn [length app]]; lia.

Section Lines.
Context `{Arch} (allow : bool).

Local Abbreviation step := (hl_step allow).
Local Abbreviation parse := (ngx_http_parse_header_line allow).

(** The locals after the bytes [n] of a name. *)
Fixpoint after_name (h : Z) (i : nat) (lh : list Z) (n : list Z) : Z * nat * list Z :=
  match n with
  | [] => (h, i, lh)
  | c :: n' => after_name (ngx_hash h (ngx_tolower c)) (lc_next i) (<[i := ngx_tolower c]> lh) n'
  end.

Lemma lowcase_name c :
  name_char allow c = true ->
  let d := nth (Z.to_nat c) lowcase 0 in
  (d <> 0 /\ d = ngx_tolower c) \/ (d = 0 /\ allow = true /\ c = cUNDER).
Proof.
  intros Hc. assert (Hb : byte_ok c).
  { unfold name_char in Hc. unfold byte_ok. destruct allow; lia. }
  pose proof (byte_forall (fun c => implb (name_char true c)
    ((negb (nth (Z.to_nat c) lowcase 0 =? 0) && (nth (Z.to_nat c) lowcase 0 =? ngx_tolower c))
     || ((nth (Z.to_nat c) lowcase 0 =? 0) && (c =? cUNDER)))) ltac:(by vm_compute) c Hb) as Q.
  cbv beta in Q. assert (name_char true c = true) as E.
  { unfold name_char in *. destruct allow; [done|]. rewrite andb_false_l, orb_false_r in Hc.
    by rewrite Hc. }
  rewrite E in Q. cbn [implb] in Q. apply orb_true_iff in Q as [Q|Q]; apply andb_true_iff in Q as [Q1 Q2].
  - left. lia.
  - right. apply Z.eqb_eq in Q2. destruct allow; [lia|]. subst c. discriminate Hc.
Qed.

Lemma name_step buf p c h i r :
  name_char allow c = true ->
  step buf p c (sw_name, h, i, r) =
    Continue (sw_name, ngx_hash h (ngx_tolower c), lc_next i,
              set_lowcase_header (<[i := ngx_tolower c]> (lowcase_header r)) r).
Proof.
  intros Hc. cbn [hl_step]. unfold case_name.
  destruct (lowcase_name c Hc) as [[Hd <-]|(Hd & -> & ->)].
  - by apply Z.eqb_neq in Hd as ->.
  - by rewrite Hd.
Qed.

Lemma start_step buf p c h i r :
  name_char allow c = true ->
  step buf p c (sw_start, h, i, r) =
    Continue (sw_name, ngx_hash 0 (ngx_tolower c), 1%nat,
      set_lowcase_header (<[0%nat := ngx_tolower c]> (lowcase_header r))
        (set_invalid_header false (set_header_name_start p r))).
Proof.
  intros Hc. cbn [hl_step]. unfold case_start.
  destruct (Z.eqb_spec c cCR) as [->|]; [by destruct allow|].
  destruct (Z.eqb_spec c cLF) as [->|]; [by destruct allow|].
  destruct (lowcase_name c Hc) as [[Hd <-]|(Hd & -> & ->)].
  - by apply Z.eqb_neq in Hd as ->.
  - by rewrite Hd.
Qed.

Lemma name_run n post : forall pre h i r,
  Forall (fun c => name_char allow c = true) n ->
  go step (pre ++ n ++ post) (length pre) (sw_name, h, i, r) =
    let '(h', i', lh') := after_name h i (lowcase_header r) n in
    go step ((pre ++ n) ++ post) (length (pre ++ n)) (sw_name, h', i', set_lowcase_header lh' r).
Proof.
  induction n as [|c n IH]; intros pre h i r Hn.
  - cbn [after_name app]. rewrite app_nil_r. by destruct r.
  - apply Forall_cons in Hn as [Hc Hn].
    rewrite <- app_comm_cons, (go_cons step hl_rank), name_step by done. rewrite IH by done. cbn [after_name].
    rewrite <- !app_assoc. cbn [app]. cbn [lowcase_header set_lowcase_header].
    by destruct (after_name _ _ _ _) as [[h' i'] lh'].
Qed.

Lemma spaces_run sp post : forall pre h i r,
  Forall (eq cSP) sp ->
  go step (pre ++ sp ++ post) (length pre) (sw_space_before_value, h, i, r) =
    go step ((pre ++ sp) ++ post) (length (pre ++ sp)) (sw_space_before_value, h, i, r).
Proof.
  induction sp as [|c sp IH]; intros pre h i r Hs; [by rewrite app_nil_r|].
  apply Forall_cons in Hs as [<- Hs].
  rewrite <- app_comm_cons, (go_cons step hl_rank). cbn [hl_step case_space_before_value Z.eqb Pos.eqb].
  rewrite IH by done. by rewrite <- !app_assoc.
Qed.

(** Equal but for [header_end]. *)
Definition but_end (r r' : hrequest) : Prop := set_header_end 0 r = set_header_end 0 r'.

Lemma value_run v post : forall st pre h i r,
  st = sw_value \/ st = sw_space_after_value ->
  Forall value_char v -> v <> [] -> last v <> Some cSP ->
  exists r', but_end r r' /\
    go step (pre ++ v ++ post) (length pre) (st, h, i, r) =
    go step ((pre ++ v) ++ post) (length (pre ++ v)) (sw_value, h, i, r').
Proof.
  induction v as [|c v IH]; intros st pre h i r Hst Hv Hne Hl; [done|].
  apply Forall_cons in Hv as [(H0 & Hlf & Hcr) Hv].
  apply Z.eqb_neq in H0, Hlf, Hcr.
  assert (Hc : exists st' r', but_end r r' /\ (st' = sw_value \/ st' = sw_space_after_value)
    /\ (c <> cSP -> st' = sw_value)
    /\ forall buf, step buf (length pre) c (st, h, i, r) = Continue (st', h, i, r')).
  { destruct Hst as [->| ->]; cbn [hl_step]; unfold case_value, case_space_after_value;
      rewrite H0, Hlf, Hcr; destruct (Z.eqb_spec c cSP); eexists _, _;
      (split; [shelve|]); (split; [shelve|]); (split; [shelve|]); try (by intros _).
    Unshelve. all: first [by auto | done]. }
  destruct Hc as (st' & r' & He & Hst' & Hsp & Hs).
  rewrite <- app_comm_cons, (go_cons step hl_rank), Hs. destruct v as [|d v].
  - rewrite Hsp by (by intros ->). exists r'. split; [done|]. by rewrite app_nil_l.
  - destruct (IH st' (pre ++ [c]) h i r' Hst' Hv ltac:(done) Hl) as (r2 & He2 & E).
    exists r2. split; [by unfold but_end in *; congruence|]. rewrite E. by rewrite <- !app_assoc.
Qed.

(** What is left of the line after the value, from a state that has recorded
    its end or will. *)
Lemma after_value_run sp eol rest : forall pre h i r,
  Forall (eq cSP) sp -> is_eol eol ->
  exists st, go step (pre ++ sp ++ eol ++ rest) (length pre) (sw_space_after_value, h, i, r) =
    Left Done (st, h, i, r) (length pre + length sp + length eol - 1).
Proof.
  induction sp as [|c sp IH]; intros pre h i r Hs He.
  - destruct He as [->| ->]; eexists; cbn [app]; rewrite (go_cons step hl_rank);
      cbn [hl_step case_space_after_value Z.eqb Pos.eqb].
    + simpl. f_equal. lia.
    + rewrite (go_cons step hl_rank). cbn [hl_step Z.eqb Pos.eqb]. rewrite length_app.
      simpl. f_equal. lia.
  - apply Forall_cons in Hs as [<- Hs]. destruct (IH (pre ++ [cSP]) h i r Hs He) as [st E].
    exists st. rewrite <- app_comm_cons, (go_cons step hl_rank).
    cbn [hl_step case_space_after_value Z.eqb Pos.eqb]. rewrite E, length_app. simpl. f_equal. lia.
Qed.

Lemma value_end_run sp eol rest pre h i r :
  Forall (eq cSP) sp -> is_eol eol ->
  exists st, go step (pre ++ sp ++ eol ++ rest) (length pre) (sw_value, h, i, r) =
    Left Done (st, h, i, set_header_end (length pre) r) (length pre + length sp + length eol - 1).
Proof.
  intros Hs He. destruct sp as [|c sp].
  - destruct He as [->| ->]; eexists; cbn [app]; rewrite (go_cons step hl_rank);
      cbn [hl_step case_value Z.eqb Pos.eqb].
    + simpl. f_equal. lia.
    + rewrite (go_cons step hl_rank). cbn [hl_step Z.eqb Pos.eqb]. rewrite length_app.
      simpl. f_equal. lia.
  - apply Forall_cons in Hs as [<- Hs].
    destruct (after_value_run sp eol rest (pre ++ [cSP]) h i (set_header_end (length pre) r) Hs He)
      as [st E].
    exists st. rewrite <- app_comm_cons, (go_cons step hl_rank).
    cbn [hl_step case_value Z.eqb Pos.eqb]. rewrite E, length_app. simpl. f_equal. lia.
Qed.

Lemma no_value_run eol rest pre h i r :
  is_eol eol ->
  exists st, go step (pre ++ eol ++ rest) (length pre) (sw_space_before_value, h, i, r) =
    Left Done (st, h, i, set_header_end (length pre) (set_header_start (length pre) r))
      (length pre + length eol - 1).
Proof.
  intros He. destruct He as [->| ->]; eexists; cbn [app]; rewrite (go_cons step hl_rank);
    cbn [hl_step case_space_before_value Z.eqb Pos.eqb].
  - simpl. f_equal. lia.
  - rewrite (go_cons step hl_rank). cbn [hl_step Z.eqb Pos.eqb]. rewrite length_app.
    simpl. f_equal. lia.
Qed.

(** The value, from the first byte that is not a space. *)
Lemma value_part value sp eol rest pre h i r :
  Forall (eq cSP) sp -> is_eol eol -> Forall value_char value ->
  head value <> Some cSP -> last value <> Some cSP -> (value = [] -> sp = []) ->
  exists st, go step (pre ++ value ++ sp ++ eol ++ rest) (length pre)
      (sw_space_before_value, h, i, r) =
    Left Done
      (st, h, i, set_header_end (length pre + length value) (set_header_start (length pre) r))
      (length pre + length value + length sp + length eol - 1).
Proof.
  intros Hs He Hv Hh Hl Hnil. destruct value as [|d value].
  - rewrite Hnil by done. cbn [app length]. rewrite !Nat.add_0_r. by apply no_value_run.
  - assert (Hd : forall buf, step buf (length pre) d (sw_space_before_value, h, i, r)
      = Continue (sw_value, h, i, set_header_start (length pre) r)).
    { intros buf. apply Forall_cons in Hv as [(H0 & Hlf & Hcr) _].
      assert (Hsp : d <> cSP) by (intros ->; by apply Hh).
      cbn [hl_step]. unfold case_space_before_value. apply Z.eqb_neq in H0, Hlf, Hcr, Hsp.
      by rewrite H0, Hlf, Hcr, Hsp. }
    assert (Hv2 : exists r', but_end (set_header_start (length pre) r) r' /\
      go step (pre ++ (d :: value) ++ sp ++ eol ++ rest) (length pre) (sw_space_before_value, h, i, r)
      = go step ((pre ++ d :: value) ++ sp ++ eol ++ rest) (length (pre ++ d :: value))
          (sw_value, h, i, r')).
    { rewrite <- app_comm_cons, (go_cons step hl_rank), Hd.
      destruct value as [|e value]; [eexists; split; [reflexivity|by rewrite app_nil_l]|].
      apply Forall_cons in Hv as [_ Hv].
      destruct (value_run (e :: value) (sp ++ eol ++ rest) sw_value (pre ++ [d]) h i
        (set_header_start (length pre) r)) as (r' & Hb & E); auto; try done.
      exists r'. split; [done|]. rewrite E. by rewrite <- !app_assoc. }
    destruct Hv2 as (r' & Hb & ->).
    destruct (value_end_run sp eol rest (pre ++ d :: value) h i r' Hs He) as [st ->].
    exists st. f_equal; [|lens]. f_equal. unfold but_end in Hb.
    transitivity (set_header_end (length (pre ++ d :: value)) (set_header_end 0 r')); [done|].
    rewrite <- Hb, length_app. done.
Qed.

Lemma after_name_spec n : forall h i lh,
  (i < NGX_HTTP_LC_HEADER_LEN)%nat -> length lh = NGX_HTTP_LC_HEADER_LEN ->
  exists lh', after_name h i lh n =
      (hash_lc_loop h n, ((i + length n) mod NGX_HTTP_LC_HEADER_LEN)%nat, lh')
    /\ length lh' = NGX_HTTP_LC_HEADER_LEN
    /\ ((i + length n < NGX_HTTP_LC_HEADER_LEN)%nat ->
        take (i + length n) lh' = take i lh ++ map ngx_tolower n).
Proof.
  induction n as [|c n IH]; intros h i lh Hi Hl; cbn [after_name hash_lc_loop length].
  - exists lh. rewrite Nat.add_0_r, app_nil_r. by rewrite Nat.mod_small.
  - destruct (IH (ngx_hash h (ngx_tolower c)) (lc_next i) (<[i:=ngx_tolower c]> lh)
      (lc_next_lt i) ltac:(by rewrite length_insert)) as (lh' & E & Hl' & Ht).
    exists lh'. split; [|split; [done|]].
    + rewrite E. unfold lc_next. by rewrite Nat.Div0.add_mod_idemp_l, Nat.add_succ_comm.
    + intros Hs. assert (En : lc_next i = S i) by (unfold lc_next; rewrite Nat.mod_small; lia).
      rewrite En in Ht. rewrite <- Nat.add_succ_comm, Ht by lia.
      rewrite (take_S_r _ _ (ngx_tolower c)) by (apply list_lookup_insert_eq; lia).
      rewrite take_insert_ge by lia. by rewrite <- app_assoc.
Qed.

Lemma span_middle pre x post a b :
  a = Some (length pre) -> b = Some (length pre + length x)%nat ->
  span (pre ++ x ++ post) a b = x.
Proof.
  intros -> ->. unfold span. replace (length pre + length x - length pre)%nat with (length x) by lia.
  by rewrite drop_app_length, take_app_length.
Qed.

(** The request after a well-formed line, and where the parser leaves [b->pos]. *)
Lemma line_run r pre name sp value sp' eol rest :
  state r = sw_start -> lc_ok r ->
  name <> [] -> Forall (fun c => name_char allow c = true) name ->
  Forall (eq cSP) sp -> Forall (eq cSP) sp' -> is_eol eol ->
  Forall value_char value -> head value <> Some cSP -> last value <> Some cSP ->
  (value = [] -> sp' = []) ->
  exists r', parse r (pre ++ name ++ [cCOLON] ++ sp ++ value ++ sp' ++ eol ++ rest) (length pre)
      = Some (NGX_OK, r', length (pre ++ name ++ [cCOLON] ++ sp ++ value ++ sp' ++ eol))
    /\ (let '(h, i, lh) := after_name 0 0 (lowcase_header r) name in
        header_hash r' = h /\ lowcase_index r' = i /\ lowcase_header r' = lh)
    /\ header_name_start r' = Some (length pre)
    /\ header_name_end r' = Some (length pre + length name)%nat
    /\ header_start r' = Some (length (pre ++ name ++ [cCOLON] ++ sp))
    /\ header_end r' = Some (length (pre ++ name ++ [cCOLON] ++ sp) + length value)%nat
    /\ invalid_header r' = false /\ state r' = sw_start.
Proof.
  intros Hst Hlc Hn Hname Hsp Hsp' He Hv Hh Hl Hnil.
  destruct name as [|c name]; [done|]. apply Forall_cons in Hname as [Hc Hname].
  unfold ngx_http_parse_header_line. rewrite Hst.
  rewrite <- app_comm_cons, (go_cons step hl_rank), start_step by done.
  rewrite name_run by done. cbn [lowcase_header set_lowcase_header after_name].
  change (lc_next 0) with 1%nat.
  destruct (after_name _ _ _ name) as [[h i] lh].
  cbn [app]. rewrite (go_cons step hl_rank).
  assert (Hcolon : forall buf p r0, step buf p cCOLON (sw_name, h, i, r0)
    = Continue (sw_space_before_value, h, i, set_header_name_end p r0)) by (intros; by cbn).
  rewrite Hcolon, spaces_run by done.
  set (r1 := set_header_name_end _ _).
  destruct (value_part value sp' eol rest ((((pre ++ [c]) ++ name) ++ [cCOLON]) ++ sp) h i r1)
    as [st E]; try done.
  rewrite E. eexists. split; [do 2 f_equal; destruct He as [->| ->]; lens|].
  cbn. repeat split; f_equal; lens.
Qed.

(** C3: A header line [name: value] is parsed to its name and value, whatever the
    spaces around the value and the line end, and the request is left ready
    for the next line; the element built from it carries the name in lower
    case and the hash that [ngx_hash_key_lc] gives the name, also where the
    name is too long for the lower-case buffer. *)
Theorem header_line_element ign r pre name sp value sp' eol rest :
  state r = sw_start -> lc_ok r ->
  name <> [] -> Forall (fun c => name_char allow c = true) name ->
  Forall (eq cSP) sp -> Forall (eq cSP) sp' -> is_eol eol ->
  Forall value_char value -> head value <> Some cSP -> last value <> Some cSP ->
  (value = [] -> sp' = []) ->
  let line := name ++ [cCOLON] ++ sp ++ value ++ sp' ++ eol in
  exists r', parse r (pre ++ line ++ rest) (length pre)
      = Some (NGX_OK, r', length (pre ++ line))
    /\ state r' = sw_start /\ lc_ok r'
    /\ header_element ign (pre ++ line ++ rest) r'
       = Some (mkElt (ngx_hash_key_lc name) name value (map ngx_tolower name)).
Proof.
  intros Hst Hlc Hn Hname Hsp Hsp' He Hv Hh Hl Hnil line.
  destruct (line_run r pre name sp value sp' eol rest) as (r' & E & Ha & Hns & Hne & Hhs & Hhe & Hi & Hs);
    try done.
  exists r'. assert (EL : pre ++ line ++ rest
    = pre ++ name ++ [cCOLON] ++ sp ++ value ++ sp' ++ eol ++ rest)
    by (unfold line; by rewrite <- !app_assoc).
  rewrite EL. split; [done|]. split; [done|].
  destruct (after_name_spec name 0 0 (lowcase_header r)) as (lh & Ea & Hlh & Ht);
    [by unfold NGX_HTTP_LC_HEADER_LEN; lia|by apply Hlc|].
  rewrite Ea in Ha. destruct Ha as (Hhash & Hidx & Hlow). rewrite Nat.add_0_l in Hidx, Ht.
  split. { split; [by rewrite Hlow|]. rewrite Hidx. by apply Nat.mod_upper_bound. }
  unfold header_element. rewrite Hi. cbn [andb].
  rewrite (span_middle pre name _ _ _ Hns Hne).
  replace (pre ++ name ++ [cCOLON] ++ sp ++ value ++ sp' ++ eol ++ rest)
    with ((pre ++ name ++ [cCOLON] ++ sp) ++ value ++ (sp' ++ eol ++ rest))
    by (by rewrite <- !app_assoc).
  rewrite (span_middle _ value _ _ _ Hhs Hhe), Hhash, Hidx, Hlow.
  assert (Hlk : (if (length name =? length name mod NGX_HTTP_LC_HEADER_LEN)%nat
                 then Some (take (length name) lh) else ngx_strlow name (length name))
                = Some (map ngx_tolower name)); [|by rewrite Hlk].
  destruct (Nat.eqb_spec (length name) (length name mod NGX_HTTP_LC_HEADER_LEN)) as [En|].
  - rewrite Ht; [done|]. rewrite En. by apply Nat.mod_upper_bound.
  - rewrite ngx_strlow_map by done. by rewrite firstn_all.
Qed.
End Lines.

Definition fresh_hrequest : hrequest :=
  mkHRequest sw_start 0 0 (replicate 32 0) None None None None false false.

Definition sample_header : list Z := lit "Host: a b " ++ [cCR; cLF].

Lemma header_line_resume_witness :
  same_result
    (ngx_http_parse_header_line (H := ilp32) false
       (mkHRequest sw_name 104 1 (104 :: replicate 31 0) (Some 0%nat) None None None false false)
       ([72] ++ lit "ost:x") 1)
    (ngx_http_parse_header_line (H := ilp32) false fresh_hrequest ([72] ++ lit "ost:x") 0).
Proof. apply header_line_resume. vm_compute. reflexivity. Defined.

Lemma header_line_total_witness :
  exists code r' pos',
    ngx_http_parse_header_line (H := ilp32) false fresh_hrequest sample_header 0 = Some (code, r', pos')
    /\ lc_ok r'
    /\ ((code = NGX_HTTP_PARSE_INVALID_HEADER /\ pos' = 0%nat)
        \/ (code = NGX_AGAIN /\ pos' = length sample_header)
        \/ ((code = NGX_OK \/ code = NGX_HTTP_PARSE_HEADER_DONE)
            /\ (0 < pos' <= length sample_header)%nat
            /\ sample_header !! (pos' - 1)%nat = Some cLF)).
Proof. apply header_line_total; [split; [reflexivity|vm_compute; lia]|vm_compute; lia]. Defined.

Lemma header_line_element_witness :
  let line := lit "Host" ++ [cCOLON] ++ [cSP] ++ lit "a b" ++ [cSP] ++ [cCR; cLF] in
  exists r', ngx_http_parse_header_line (H := ilp32) false fresh_hrequest ([] ++ line ++ lit "x") 0
      = Some (NGX_OK, r', length ([] ++ line))
    /\ state r' = sw_start /\ lc_ok r'
    /\ header_element true ([] ++ line ++ lit "x") r'
       = Some (mkElt (ngx_hash_key_lc (H := ilp32) (lit "Host")) (lit "Host") (lit "a b")
                 (map ngx_tolower (lit "Host"))).
Proof.
  apply (header_line_element (H := ilp32) false true fresh_hrequest [] (lit "Host") [cSP] (lit "a b")
    [cSP] [cCR; cLF] (lit "x")); try done.
  - split; [done|]. vm_compute. lia.
  - by apply (bool_decide_unpack _).
  - by apply (bool_decide_unpack _).
  - by apply (bool_decide_unpack _).
  - by right.
  - by apply (bool_decide_unpack _).
Defined.

(** Neither the hash nor the index is reset by a name that begins with an invalid
    character: after a line [h: 1], the line [?ost: 2] gives, with
    [ignore_invalid_headers off], the element that [host: 2] would, in all but
    its key. *)
Theorem header_line_stale_key `{Arch} :
  let buf := lit "h: 1" ++ [cCR; cLF] ++ lit "?ost: 2" ++ [cCR; cLF] in
  exists r1 r2 p1 p2,
    ngx_http_parse_header_line false fresh_hrequest buf 0 = Some (NGX_OK, r1, p1)
    /\ ngx_http_parse_header_line false r1 buf p1 = Some (NGX_OK, r2, p2)
    /\ header_element false buf r2
       = Some (mkElt (ngx_hash_key_lc (lit "host")) (lit "?ost") (lit "2") (lit "host")).
Proof.
  eexists _, _, _, _. destruct H as [b [-> | ->]].
  all: split; [vm_compute; reflexivity|]; split; vm_compute; reflexivity.
Qed.

End HeaderLine.
