(* ===== verification/HttpStatusLine.v ===== *)
(** * The status line of an upstream response

    [ngx_http_parse_status_line] of
    src/nginx-1.7.2/src/http/ngx_http_parse.c, with the [ngx_http_status_t] it
    fills in. *)

From S2P Require Import Prelude NgxNumber ByteMachine.

Module StatusLine.

Inductive sl_state :=
  | sw_start | sw_H | sw_HT | sw_HTT | sw_HTTP | sw_first_major_digit | sw_major_digit
  | sw_first_minor_digit | sw_minor_digit | sw_status | sw_space_after_status | sw_status_text
  | sw_almost_done.

(** [ngx_http_status_t]; a pointer is an offset into the buffer, [None] is NULL. *)
Record http_status := mkStatus {
  http_version : Z;
  code : Z;
  count : Z;
  start : option nat;
  end_ : option nat
}.

(** The fields of the request the parser uses. *)
Record srequest := mkSRequest { state : sl_state; http_major : Z; http_minor : Z }.

(** The local [state], [r->http_major], [r->http_minor] and the status. *)
Definition sl_st : Type := sl_state * Z * Z * http_status.

Inductive sl_exit := Done | Error.
Definition sl_action : Type := action sl_st sl_exit.

Section Parser.
Context `{Arch}.

(** The five states that match "HTTP/". *)
Definition case_letter (next : sl_state) (want ch : Z) (s : sl_st) : sl_action :=
  let '(_, maj, min, status) := s in
  if ch =? want then Continue (next, maj, min, status) else Leave Error s.

Definition not_digit (ch : Z) : bool := (ch <? c_0) || (c_9 <? ch).

Definition case_status (p : nat) (ch : Z) (s : sl_st) : sl_action :=
  let '(_, maj, min, status) := s in
  if ch =? cSP then Continue s
  else if not_digit ch then Leave Error s
  else
    let code := uint ptr_bits (code status * 10 + ch - c_0) in
    let count := uint ptr_bits (count status + 1) in
    if count =? 3 then
      Continue (sw_space_after_status, maj, min,
                mkStatus (http_version status) code count (Some (p - 2)%nat) (end_ status))
    else
      Continue (sw_status, maj, min,
                mkStatus (http_version status) code count (start status) (end_ status)).

Definition case_space_after_status (ch : Z) (s : sl_st) : sl_action :=
  let '(_, maj, min, status) := s in
  if ch =? cSP then Continue (sw_status_text, maj, min, status)
  else if ch =? cDOT then Continue (sw_status_text, maj, min, status)
  else if ch =? cCR then Continue (sw_almost_done, maj, min, status)
  else if ch =? cLF then Leave Done s
  else Leave Error s.

Definition case_almost_done (p : nat) (ch : Z) (s : sl_st) : sl_action :=
  let '(_, maj, min, status) := s in
  let s' := (sw_almost_done, maj, min,
             mkStatus (http_version status) (code status) (count status) (start status)
               (Some (p - 1)%nat)) in
  if ch =? cLF then Leave Done s' else Leave Error s'.

(** The switch. *)
Definition sl_step (buf : list Z) (p : nat) (ch : Z) (s : sl_st) : sl_action :=
  let '(st, maj, min, status) := s in
  match st with
  | sw_start => case_letter sw_H cH ch s
  | sw_H => case_letter sw_HT cT ch s
  | sw_HT => case_letter sw_HTT cT ch s
  | sw_HTT => case_letter sw_HTTP cP ch s
  | sw_HTTP => case_letter sw_first_major_digit cSLASH ch s
  | sw_first_major_digit =>
      if (ch <? c_1) || (c_9 <? ch) then Leave Error s
      else Continue (sw_major_digit, uint 16 (ch - c_0), min, status)
  | sw_major_digit =>
      if ch =? cDOT then Continue (sw_first_minor_digit, maj, min, status)
      else if not_digit ch then Leave Error s
      else Continue (sw_major_digit, uint 16 (maj * 10 + ch - c_0), min, status)
  | sw_first_minor_digit =>
      if not_digit ch then Leave Error s
      else Continue (sw_minor_digit, maj, uint 16 (ch - c_0), status)
  | sw_minor_digit =>
      if ch =? cSP then Continue (sw_status, maj, min, status)
      else if not_digit ch then Leave Error s
      else Continue (sw_minor_digit, maj, uint 16 (min * 10 + ch - c_0), status)
  | sw_status => case_status p ch s
  | sw_space_after_status => case_space_after_status ch s
  | sw_status_text =>
      if ch =? cCR then Continue (sw_almost_done, maj, min, status)
      else if ch =? cLF then Leave Done s
      else Continue s
  | sw_almost_done => case_almost_done p ch s
  end.

(** The whole function: the return code, the request, the status and [b->pos]. *)
Definition ngx_http_parse_status_line (r : srequest) (status : http_status) (buf : list Z)
    (pos : nat) : option (Z * srequest * http_status * nat) :=
  match go sl_step buf pos (state r, http_major r, http_minor r, status) with
  | Ended (st, maj, min, status') p => Some (NGX_AGAIN, mkSRequest st maj min, status', p)
  | Left Done (_, maj, min, status') p =>
      let e := match end_ status' with None => Some p | e => e end in
      Some (NGX_OK, mkSRequest sw_start maj min,
            mkStatus (maj * 1000 + min) (code status') (count status') (start status') e, S p)
  | Left Error (_, maj, min, status') _ => Some (NGX_ERROR, mkSRequest (state r) maj min, status', pos)
  | NoFuel => None
  end.

(** ** The machine *)

Definition sl_rank (s : sl_st) : nat := 0.

#[export] Instance sl_machine : Machine sl_step sl_rank.
Proof.
  split.
  - intros. unfold sl_rank. lia.
  - intros buf p ch [[[st maj] min] status] s' E.
    destruct st; cbn [sl_step] in E;
      unfold case_letter, case_status, case_space_after_status, case_almost_done in E;
      repeat case_test_in E; simplify_eq.
  - intros. by destruct s as [[[[] ?] ?] ?].
Qed.

(** Two results a caller cannot tell apart: after an error the saved [state] and
    [b->pos] may differ. *)
Definition same_result (x y : option (Z * srequest * http_status * nat)) : Prop :=
  match x, y with
  | Some (c1, r1, s1, p1), Some (c2, r2, s2, p2) =>
      c1 = c2 /\ s1 = s2 /\ http_major r1 = http_major r2 /\ http_minor r1 = http_minor r2
      /\ (c1 <> NGX_ERROR -> r1 = r2 /\ p1 = p2)
  | _, _ => False
  end.

(** The status line parser is incremental. *)
Theorem status_line_resume r status buf more pos r' status' pos' :
  ngx_http_parse_status_line r status buf pos = Some (NGX_AGAIN, r', status', pos') ->
  same_result (ngx_http_parse_status_line r' status' (buf ++ more) pos')
    (ngx_http_parse_status_line r status (buf ++ more) pos).
Proof.
  unfold ngx_http_parse_status_line. intros E.
  destruct (go sl_step buf pos (state r, http_major r, http_minor r, status))
    as [[[[st maj] min] s1] p|[] [[[st maj] min] s1] p|] eqn:G; simplify_eq.
  rewrite (go_resume sl_step sl_rank _ more _ _ _ _ G). cbn [state http_major http_minor].
  pose proof (go_total sl_step sl_rank (buf ++ more) pos' (st, maj, min, status')) as T.
  by destruct (go sl_step (buf ++ more) pos' (st, maj, min, status'))
    as [[[[st2 maj2] min2] s2] p2|[] [[[st2 maj2] min2] s2] p2|].
Qed.

(** ** A well-formed status line *)

(** A decimal digit and the bytes that write a list of them. *)
Definition digit (d : Z) : Prop := 0 <= d < 10.
Definition dec (ds : list Z) : list Z := map (Z.add c_0) ds.

Lemma digit_char d : digit d -> not_digit (c_0 + d) = false /\ (c_0 + d =? cSP) = false
  /\ (c_0 + d =? cDOT) = false.
Proof. unfold digit, not_digit. lia. Qed.

Lemma uint16_step v d : uint 16 (uint 16 v * 10 + (c_0 + d) - c_0) = uint 16 (v * 10 + d).
Proof.
  unfold uint. replace (v mod 2 ^ 16 * 10 + (c_0 + d) - c_0) with (v mod 2 ^ 16 * 10 + d) by lia.
  by rewrite Z.add_mod, Z.mul_mod_idemp_l, <- Z.add_mod by lia.
Qed.

Lemma major_run ds post : forall pre v min status,
  Forall digit ds ->
  go sl_step (pre ++ dec ds ++ post) (length pre) (sw_major_digit, uint 16 v, min, status) =
    go sl_step ((pre ++ dec ds) ++ post) (length (pre ++ dec ds))
      (sw_major_digit, uint 16 (fold_left (fun v d => v * 10 + d) ds v), min, status).
Proof.
  induction ds as [|d ds IH]; intros pre v min status Hd; [by rewrite app_nil_r|].
  apply Forall_cons in Hd as [Hd Hds]. destruct (digit_char d Hd) as (E1 & _ & E3).
  cbn [dec map]. rewrite <- app_comm_cons, (go_cons sl_step sl_rank). cbn [sl_step].
  rewrite E1, E3, uint16_step. fold (dec ds). rewrite IH by done. by rewrite <- !app_assoc.
Qed.

Lemma minor_run ds post : forall pre v maj status,
  Forall digit ds ->
  go sl_step (pre ++ dec ds ++ post) (length pre) (sw_minor_digit, maj, uint 16 v, status) =
    go sl_step ((pre ++ dec ds) ++ post) (length (pre ++ dec ds))
      (sw_minor_digit, maj, uint 16 (fold_left (fun v d => v * 10 + d) ds v), status).
Proof.
  induction ds as [|d ds IH]; intros pre v maj status Hd; [by rewrite app_nil_r|].
  apply Forall_cons in Hd as [Hd Hds]. destruct (digit_char d Hd) as (E1 & E2 & _).
  cbn [dec map]. rewrite <- app_comm_cons, (go_cons sl_step sl_rank). cbn [sl_step].
  rewrite E1, E2, uint16_step. fold (dec ds). rewrite IH by done. by rewrite <- !app_assoc.
Qed.

Lemma status_spaces_run sp post : forall pre maj min status,
  Forall (eq cSP) sp ->
  go sl_step (pre ++ sp ++ post) (length pre) (sw_status, maj, min, status) =
    go sl_step ((pre ++ sp) ++ post) (length (pre ++ sp)) (sw_status, maj, min, status).
Proof.
  induction sp as [|c sp IH]; intros pre maj min status Hs; [by rewrite app_nil_r|].
  apply Forall_cons in Hs as [<- Hs]. rewrite <- app_comm_cons, (go_cons sl_step sl_rank).
  cbn [sl_step case_status Z.eqb Pos.eqb]. rewrite IH by done. by rewrite <- !app_assoc.
Qed.

(** The text after the code, up to the line end. *)
Definition text_char (c : Z) : Prop := c <> cCR /\ c <> cLF.
Definition is_eol (eol : list Z) : Prop := eol = [cLF] \/ eol = [cCR; cLF].

(** [status->end] as the epilogue leaves it. *)
Definition final_end (o : outcome sl_st sl_exit) : option (Z * Z * http_status * nat) :=
  match o with
  | Left Done (_, maj, min, s) p =>
      Some (maj, min, mkStatus (http_version s) (code s) (count s) (start s)
                        (match end_ s with None => Some p | e => e end), p)
  | _ => None
  end.

Lemma eol_run st eol rest pre maj min s :
  st = sw_status_text \/ st = sw_space_after_status -> is_eol eol -> end_ s = None ->
  final_end (go sl_step (pre ++ eol ++ rest) (length pre) (st, maj, min, s)) =
    Some (maj, min, mkStatus (http_version s) (code s) (count s) (start s) (Some (length pre)),
          length pre + length eol - 1)%nat.
Proof.
  intros Hst He Hn. destruct Hst as [-> | ->], He as [-> | ->]; cbn [app];
    rewrite (go_cons sl_step sl_rank);
    cbn [sl_step case_space_after_status case_almost_done Z.eqb Pos.eqb final_end].
  all: try (rewrite (go_cons sl_step sl_rank);
    cbn [sl_step case_almost_done Z.eqb Pos.eqb final_end]).
  all: rewrite ?Hn, ?length_app; cbn [end_ length http_version code count start];
    repeat (f_equal; try lia).
Qed.

Lemma text_run text eol rest : forall pre maj min s,
  Forall text_char text -> is_eol eol -> end_ s = None ->
  final_end (go sl_step (pre ++ text ++ eol ++ rest) (length pre) (sw_status_text, maj, min, s)) =
    Some (maj, min, mkStatus (http_version s) (code s) (count s) (start s)
                      (Some (length pre + length text)%nat),
          length pre + length text + length eol - 1)%nat.
Proof.
  induction text as [|c text IH]; intros pre maj min s Ht He Hn.
  - cbn [app length]. rewrite eol_run by auto. by rewrite !Nat.add_0_r.
  - apply Forall_cons in Ht as [[Hcr Hlf] Ht]. apply Z.eqb_neq in Hcr, Hlf.
    rewrite <- app_comm_cons, (go_cons sl_step sl_rank). cbn [sl_step]. rewrite Hcr, Hlf.
    rewrite IH by done. rewrite length_app. cbn [length]. repeat (f_equal; try lia).
Qed.

Lemma letters_run post pre maj min s :
  go sl_step (pre ++ lit "HTTP/" ++ post) (length pre) (sw_start, maj, min, s) =
    go sl_step ((pre ++ lit "HTTP/") ++ post) (length (pre ++ lit "HTTP/"))
      (sw_first_major_digit, maj, min, s).
Proof.
  eval_lit. cbn [app].
  do 5 (rewrite (go_cons sl_step sl_rank); cbn [sl_step case_letter Z.eqb Pos.eqb]).
  by rewrite <- !app_assoc.
Qed.

Lemma version_run m mj n mn post pre maj min s :
  1 <= m < 10 -> Forall digit mj -> digit n -> Forall digit mn ->
  let v := dec (m :: mj) ++ [cDOT] ++ dec (n :: mn) ++ [cSP] in
  go sl_step (pre ++ v ++ post) (length pre) (sw_first_major_digit, maj, min, s) =
    go sl_step ((pre ++ v) ++ post) (length (pre ++ v))
      (sw_status, uint 16 (num_value 10 (m :: mj)), uint 16 (num_value 10 (n :: mn)), s).
Proof.
  intros Hm Hmj Hn Hmn v. unfold v. rewrite <- !app_assoc. cbn [dec map].
  rewrite <- app_comm_cons, (go_cons sl_step sl_rank). cbn [sl_step].
  replace ((c_0 + m <? c_1) || (c_9 <? c_0 + m)) with false by lia.
  replace (c_0 + m - c_0) with (0 * 10 + m) by lia. fold (dec mj). rewrite major_run by done.
  cbn [app]. rewrite (go_cons sl_step sl_rank). cbn [sl_step Z.eqb Pos.eqb].
  rewrite (go_cons sl_step sl_rank). cbn [sl_step]. destruct (digit_char n Hn) as (E & _ & _).
  rewrite E. replace (c_0 + n - c_0) with (0 * 10 + n) by lia. fold (dec mn).
  rewrite minor_run by done. cbn [app].
  rewrite (go_cons sl_step sl_rank). cbn [sl_step Z.eqb Pos.eqb].
  rewrite <- !app_assoc. done.
Qed.

Lemma status_digit buf p d maj min v x k s0 e :
  digit d -> 0 <= x < 1000 -> 0 <= k < 3 ->
  sl_step buf p (c_0 + d) (sw_status, maj, min, mkStatus v x k s0 e) =
    if k + 1 =? 3 then
      Continue (sw_space_after_status, maj, min, mkStatus v (x * 10 + d) (k + 1) (Some (p - 2)%nat) e)
    else Continue (sw_status, maj, min, mkStatus v (x * 10 + d) (k + 1) s0 e).
Proof.
  intros Hd Hx Hk. pose proof ptr_pow_32. destruct (digit_char d Hd) as (E1 & E2 & _).
  unfold digit in Hd. cbn [sl_step case_status]. rewrite E1, E2. cbn [code count http_version start end_].
  rewrite !(uint_small _ _) by lia. by replace (x * 10 + (c_0 + d) - c_0) with (x * 10 + d) by lia.
Qed.

Lemma code_run a b c post pre maj min v s0 e :
  digit a -> digit b -> digit c ->
  go sl_step (pre ++ dec [a; b; c] ++ post) (length pre)
      (sw_status, maj, min, mkStatus v 0 0 s0 e) =
    go sl_step ((pre ++ dec [a; b; c]) ++ post) (length (pre ++ dec [a; b; c]))
      (sw_space_after_status, maj, min,
       mkStatus v (100 * a + 10 * b + c) 3 (Some (length pre)) e).
Proof.
  intros Ha Hb Hc. cbn [dec map app].
  rewrite (go_cons sl_step sl_rank), status_digit by (unfold digit in *; lia).
  change (0 + 1 =? 3) with false. cbv iota.
  rewrite (go_cons sl_step sl_rank), status_digit by (unfold digit in *; lia).
  change (0 + 1 + 1 =? 3) with false. cbv iota.
  rewrite (go_cons sl_step sl_rank), status_digit by (unfold digit in *; lia).
  change (0 + 1 + 1 + 1 =? 3) with true. cbv iota.
  rewrite <- !app_assoc. cbn [app]. do 2 f_equal. f_equal; [lia|]. f_equal.
  rewrite !length_app. cbn [length]. lia.
Qed.

(** From the code to the end of the line. *)
Lemma code_text_run a b c text eol rest pre maj min v s0 :
  digit a -> digit b -> digit c -> Forall text_char text ->
  (text = [] \/ head text = Some cSP \/ head text = Some cDOT) -> is_eol eol ->
  final_end (go sl_step (pre ++ dec [a; b; c] ++ text ++ eol ++ rest) (length pre)
      (sw_status, maj, min, mkStatus v 0 0 s0 None)) =
    Some (maj, min, mkStatus v (100 * a + 10 * b + c) 3 (Some (length pre))
                      (Some (length pre + 3 + length text)%nat),
          length pre + 3 + length text + length eol - 1)%nat.
Proof.
  intros Ha Hb Hc Ht Hh He. rewrite code_run by done.
  assert (E : length (pre ++ dec [a; b; c]) = (length pre + 3)%nat) by (by rewrite length_app).
  destruct text as [|d text].
  - cbn [app]. rewrite eol_run by auto. rewrite E. cbn. by rewrite !Nat.add_0_r.
  - apply Forall_cons in Ht as [_ Ht].
    assert (Hd : forall buf p s, sl_step buf p d (sw_space_after_status, maj, min, s)
      = Continue (sw_status_text, maj, min, s)).
    { intros. cbn [sl_step case_space_after_status].
      destruct Hh as [|[Hh|Hh]]; [done| |]; injection Hh as ->; done. }
    rewrite <- app_comm_cons, (go_cons sl_step sl_rank), Hd, text_run by done.
    rewrite length_app, E. cbn. repeat (f_equal; try lia).
Qed.

Lemma sl_finish r status buf pos maj min s q :
  final_end (go sl_step buf pos (state r, http_major r, http_minor r, status)) = Some (maj, min, s, q) ->
  ngx_http_parse_status_line r status buf pos =
    Some (NGX_OK, mkSRequest sw_start maj min,
          mkStatus (maj * 1000 + min) (code s) (count s) (start s) (end_ s), S q).
Proof.
  unfold ngx_http_parse_status_line.
  destruct (go sl_step buf pos _) as [|[] [[[]]] |]; cbn [final_end]; intros; simplify_eq; done.
Qed.

(** A status line is parsed to the values it writes: the code, the span of the
    code and its text, and the version, of which the major and the minor number
    are kept in 16 bits each. *)
Theorem status_line_value r v s0 m mj n mn sp a b c text eol pre rest :
  state r = sw_start -> 1 <= m < 10 -> Forall digit mj -> digit n -> Forall digit mn ->
  Forall (eq cSP) sp -> digit a -> digit b -> digit c ->
  Forall text_char text -> (text = [] \/ head text = Some cSP \/ head text = Some cDOT) ->
  is_eol eol ->
  let version := lit "HTTP/" ++ dec (m :: mj) ++ [cDOT] ++ dec (n :: mn) ++ [cSP] in
  let at_ := length (pre ++ version ++ sp) in
  let major := uint 16 (num_value 10 (m :: mj)) in
  let minor := uint 16 (num_value 10 (n :: mn)) in
  ngx_http_parse_status_line r (mkStatus v 0 0 s0 None)
      (pre ++ version ++ sp ++ dec [a; b; c] ++ text ++ eol ++ rest) (length pre)
    = Some (NGX_OK, mkSRequest sw_start major minor,
            mkStatus (major * 1000 + minor) (100 * a + 10 * b + c) 3
              (Some at_) (Some (at_ + 3 + length text)%nat),
            at_ + 3 + length text + length eol)%nat.
Proof.
  intros Hst Hm Hmj Hn Hmn Hsp Ha Hb Hc Ht Hh He version at_ major minor.
  assert (E : final_end (go sl_step
      (pre ++ version ++ sp ++ dec [a; b; c] ++ text ++ eol ++ rest) (length pre)
      (state r, http_major r, http_minor r, mkStatus v 0 0 s0 None)) =
    Some (major, minor, mkStatus v (100 * a + 10 * b + c) 3 (Some at_)
            (Some (at_ + 3 + length text)%nat), at_ + 3 + length text + length eol - 1)%nat).
  { rewrite Hst. unfold version at 1. rewrite <- (app_assoc (lit "HTTP/")), letters_run.
    rewrite version_run by done. rewrite status_spaces_run by done.
    rewrite code_text_run by done.
    replace (((pre ++ lit "HTTP/") ++ dec (m :: mj) ++ [cDOT] ++ dec (n :: mn) ++ [cSP]) ++ sp)
      with (pre ++ version ++ sp) by (unfold version; by rewrite <- !app_assoc).
    done. }
  rewrite (sl_finish _ _ _ _ _ _ _ _ E). cbn [code count start end_]. do 2 f_equal.
  destruct He as [-> | ->]; cbn [length]; lia.
Qed.
End Parser.

Lemma status_line_resume_witness :
  same_result
    (ngx_http_parse_status_line (H := ilp32) (mkSRequest sw_status 1 1) (mkStatus 0 20 2 None None)
       (lit "HTTP/1.1 20" ++ (lit "0" ++ [cLF])) 11)
    (ngx_http_parse_status_line (H := ilp32) (mkSRequest sw_start 0 0) (mkStatus 0 0 0 None None)
       (lit "HTTP/1.1 20" ++ (lit "0" ++ [cLF])) 0).
Proof. apply status_line_resume. vm_compute. reflexivity. Defined.

Lemma status_line_value_witness :
  ngx_http_parse_status_line (H := ilp32) (mkSRequest sw_start 0 0) (mkStatus 0 0 0 None None)
      ([] ++ (lit "HTTP/" ++ dec [1] ++ [cDOT] ++ dec [1] ++ [cSP]) ++ [] ++ dec [4; 0; 4]
       ++ lit " Not Found" ++ [cCR; cLF] ++ []) 0
    = Some (NGX_OK, mkSRequest sw_start 1 1, mkStatus 1001 404 3 (Some 9%nat) (Some 22%nat), 24%nat).
Proof.
  apply (status_line_value (H := ilp32) (mkSRequest sw_start 0 0) 0 None 1 [] 1 [] [] 4 0 4
    (lit " Not Found") [cCR; cLF] [] []); try done; try (unfold digit; lia).
  - by apply (bool_decide_unpack _).
  - by right; left.
  - by right.
Defined.

End StatusLine.
