(* ===== verification/HttpUri.v ===== *)
(** * The flags of a URI, and whole request lines

    [ngx_http_parse_uri] of src/nginx-1.7.2/src/http/ngx_http_parse.c, which
    classifies a URI that did not come in a request line, and its agreement with
    what [ngx_http_parse_request_line] finds out about the same URI. *)

From S2P Require Import Prelude NgxNumber ByteMachine HttpRequestLine HttpStatusLine.

Import RequestLine.

Module Uri.

Inductive pu_state := pu_start | pu_after_slash_in_uri | pu_check_uri | pu_uri.

Definition pu_st : Type := pu_state * request.
Definition pu_action : Type := action pu_st unit.

Definition pu_after_slash (p : nat) (ch : Z) (r : request) : pu_action :=
  if bit_set usual ch then Continue (pu_check_uri, r)
  else if ch =? cSP then Continue (pu_check_uri, set_space_in_uri true r)
  else if ch =? cDOT then Continue (pu_uri, set_complex_uri true r)
  else if ch =? cPERCENT then Continue (pu_uri, set_quoted_uri true r)
  else if ch =? cSLASH then Continue (pu_uri, set_complex_uri true r)
  else if ch =? cQM then Continue (pu_uri, set_args_start (Some (S p)) r)
  else if ch =? cHASH then Continue (pu_uri, set_complex_uri true r)
  else if ch =? cPLUS then Continue (pu_after_slash_in_uri, set_plus_in_uri true r)
  else Continue (pu_check_uri, r).

Definition pu_check (p : nat) (ch : Z) (r : request) : pu_action :=
  if bit_set usual ch then Continue (pu_check_uri, r)
  else if ch =? cSLASH then Continue (pu_after_slash_in_uri, set_uri_ext None r)
  else if ch =? cDOT then Continue (pu_check_uri, set_uri_ext (Some (S p)) r)
  else if ch =? cSP then Continue (pu_check_uri, set_space_in_uri true r)
  else if ch =? cPERCENT then Continue (pu_uri, set_quoted_uri true r)
  else if ch =? cQM then Continue (pu_uri, set_args_start (Some (S p)) r)
  else if ch =? cHASH then Continue (pu_uri, set_complex_uri true r)
  else if ch =? cPLUS then Continue (pu_check_uri, set_plus_in_uri true r)
  else Continue (pu_check_uri, r).

Definition pu_rest (ch : Z) (r : request) : pu_action :=
  if bit_set usual ch then Continue (pu_uri, r)
  else if ch =? cSP then Continue (pu_uri, set_space_in_uri true r)
  else if ch =? cHASH then Continue (pu_uri, set_complex_uri true r)
  else Continue (pu_uri, r).

(** The switch; the only exit is [return NGX_ERROR]. *)
Definition pu_step (buf : list Z) (p : nat) (ch : Z) (s : pu_st) : pu_action :=
  let '(st, r) := s in
  match st with
  | pu_start => if ch =? cSLASH then Continue (pu_after_slash_in_uri, r) else Leave () s
  | pu_after_slash_in_uri => pu_after_slash p ch r
  | pu_check_uri => pu_check p ch r
  | pu_uri => pu_rest ch r
  end.

(** The whole function, on a URI that lies at [a] and ends where [buf] does. *)
Definition ngx_http_parse_uri (r : request) (buf : list Z) (a : nat) : option (Z * request) :=
  match go pu_step buf a (pu_start, r) with
  | Ended (_, r') _ => Some (NGX_OK, r')
  | Left _ (_, r') _ => Some (NGX_ERROR, r')
  | NoFuel => None
  end.

Definition pu_rank (s : pu_st) : nat := 0.

#[export] Instance pu_machine : Machine pu_step pu_rank.
Proof.
  split.
  - intros. unfold pu_rank. lia.
  - intros buf p ch [st r] s' E.
    destruct st; cbn [pu_step] in E; unfold pu_after_slash, pu_check, pu_rest in E;
      repeat case_test_in E; discriminate E.
  - done.
Qed.

(** ** The request line parser sees the same URI *)

(** The bytes that do not end a URI in a request line. *)
Definition uri_char (c : Z) : Prop := c <> cSP /\ c <> cCR /\ c <> cLF /\ c <> cNUL.

Definition rl_of (st : pu_state) : rl_state :=
  match st with
  | pu_start => sw_spaces_before_uri
  | pu_after_slash_in_uri => sw_after_slash_in_uri
  | pu_check_uri => sw_check_uri
  | pu_uri => sw_uri
  end.

Definition to_rl (a : pu_action) : rl_action :=
  match a with
  | Continue (st, r) => Continue (rl_of st, r)
  | Rescan (st, r) => Rescan (rl_of st, r)
  | Leave _ (st, r) => invalid (rl_of st) r
  end.

Lemma rl_step_uri buf buf' p ch st r :
  uri_char ch -> st <> pu_start ->
  rl_step buf p ch (rl_of st, r) = to_rl (pu_step buf' p ch (st, r)).
Proof.
  intros (H1 & H2 & H3 & H4) Hst. apply Z.eqb_neq in H1, H2, H3, H4.
  destruct st; [done|..]; cbn [rl_of rl_step pu_step];
    unfold case_after_slash_in_uri, case_check_uri, case_uri, pu_after_slash, pu_check, pu_rest;
    rewrite H1, H2, H3, H4; repeat case_test; done.
Qed.

Lemma pu_step_continues buf p ch st r :
  st <> pu_start -> exists st' r', pu_step buf p ch (st, r) = Continue (st', r') /\ st' <> pu_start.
Proof.
  intros Hst. destruct st; [done|..]; cbn [pu_step]; unfold pu_after_slash, pu_check, pu_rest;
    repeat case_test; by eexists _, _.
Qed.

(** Both parsers go through the URI in step. *)
Lemma uri_run u post : forall pre st r,
  Forall uri_char u -> st <> pu_start ->
  exists st' r', go pu_step (pre ++ u) (length pre) (st, r) = Ended (st', r') (length (pre ++ u))
    /\ st' <> pu_start
    /\ go rl_step (pre ++ u ++ post) (length pre) (rl_of st, r) =
       go rl_step ((pre ++ u) ++ post) (length (pre ++ u)) (rl_of st', r').
Proof.
  induction u as [|c u IH]; intros pre st r Hu Hst.
  - exists st, r. rewrite app_nil_r. split_and!; try done.
    rewrite (go_step pu_step pu_rank). by rewrite (proj2 (lookup_ge_None _ _)).
  - apply Forall_cons in Hu as [Hc Hu].
    destruct (pu_step_continues (pre ++ c :: u) (length pre) c st r Hst) as (st1 & r1 & E1 & Hst1).
    destruct (IH (pre ++ [c]) st1 r1 Hu Hst1) as (st' & r' & G1 & Hst' & G2).
    rewrite <- !app_assoc in G1, G2. cbn [app] in G1, G2.
    exists st', r'. split_and!; try done.
    + rewrite (go_cons pu_step pu_rank), E1, <- app_assoc. exact G1.
    + rewrite <- app_comm_cons, (go_cons rl_step rl_rank).
      rewrite (rl_step_uri _ (pre ++ c :: u)) by done. rewrite E1. cbn [to_rl].
      rewrite <- !app_assoc in *. exact G2.
Qed.

(** ** Whole request lines *)

Import StatusLine (digit, dec, digit_char, uint16_step).

(** The value of [r->method] after the method [m]. *)
Definition method_value (m : list Z) (other : Z) : Z :=
  match known_method (m ++ [cSP]) 0 (length m) with Some v => v | None => other end.

Lemma str_at_shift pre x post s :
  (length s <= length x)%nat -> str_at (pre ++ x ++ post) (length pre) s = str_at x 0 s.
Proof.
  intros H. unfold str_at. rewrite drop_app_length, drop_0. by rewrite take_app_le.
Qed.

Lemma known_method_shift pre m post :
  known_method (pre ++ m ++ cSP :: post) (length pre) (length m) = known_method (m ++ [cSP]) 0 (length m).
Proof.
  replace (pre ++ m ++ cSP :: post) with (pre ++ (m ++ [cSP]) ++ post) by (by rewrite <- app_assoc).
  assert (Hx : length (m ++ [cSP]) = S (length m)) by (rewrite length_app; simpl; lia).
  assert (L : forall s, (length s <= S (length m))%nat ->
    str_at (pre ++ (m ++ [cSP]) ++ post) (length pre) s = str_at (m ++ [cSP]) 0 s).
  { intros s Hs. apply str_at_shift. lia. }
  assert (K : (0 < length m)%nat ->
    (pre ++ (m ++ [cSP]) ++ post) !! S (length pre) = (m ++ [cSP]) !! 1%nat).
  { intros Hm. rewrite lookup_app_r by lia.
    replace (S (length pre) - length pre)%nat with 1%nat by lia. by rewrite lookup_app_l by lia. }
  unfold known_method. remember (length m) as n eqn:En. clear En.
  do 10 (destruct n as [|n]; [cbv beta match; rewrite ?K by lia; rewrite ?L by (simpl; lia); done|]).
  done.
Qed.

Lemma method_run m post : forall pre r,
  Forall (fun c => is_method_char c = true) m ->
  go rl_step (pre ++ m ++ post) (length pre) (sw_method, r) =
    go rl_step ((pre ++ m) ++ post) (length (pre ++ m)) (sw_method, r).
Proof.
  induction m as [|c m IH]; intros pre r Hm; [by rewrite app_nil_r|].
  apply Forall_cons in Hm as [Hc Hm]. rewrite <- app_comm_cons, (go_cons rl_step rl_rank).
  cbn [rl_step]. unfold case_method. rewrite Hc.
  destruct (Z.eqb_spec c cSP) as [->|]; [discriminate Hc|]. cbn [negb].
  rewrite IH by done. by rewrite <- !app_assoc.
Qed.

(** States that skip spaces. *)
Lemma sp_run st sp post : forall pre r,
  (forall buf p r, rl_step buf p cSP (st, r) = Continue (st, r)) -> Forall (eq cSP) sp ->
  go rl_step (pre ++ sp ++ post) (length pre) (st, r) =
    go rl_step ((pre ++ sp) ++ post) (length (pre ++ sp)) (st, r).
Proof.
  induction sp as [|c sp IH]; intros pre r Hst Hs; [by rewrite app_nil_r|].
  apply Forall_cons in Hs as [<- Hs]. rewrite <- app_comm_cons, (go_cons rl_step rl_rank), Hst.
  rewrite IH by done. by rewrite <- !app_assoc.
Qed.

Lemma rl_major_run ds post : forall pre v r,
  Forall digit ds -> http_major r = uint 16 v ->
  go rl_step (pre ++ dec ds ++ post) (length pre) (sw_major_digit, r) =
    go rl_step ((pre ++ dec ds) ++ post) (length (pre ++ dec ds))
      (sw_major_digit, set_http_major (uint 16 (fold_left (fun v d => v * 10 + d) ds v)) r).
Proof.
  induction ds as [|d ds IH]; intros pre v r Hd Hv.
  - rewrite app_nil_r. cbn [fold_left dec map app]. rewrite <- Hv. by destruct r.
  - apply Forall_cons in Hd as [Hd Hds]. destruct (digit_char d Hd) as (E1 & _ & E3).
    cbn [dec map]. rewrite <- app_comm_cons, (go_cons rl_step rl_rank). cbn [rl_step].
    unfold case_major_digit, StatusLine.not_digit in *. rewrite E1, E3, Hv, uint16_step.
    fold (dec ds). rewrite (IH _ (v * 10 + d)) by done. cbn [fold_left].
    rewrite <- !app_assoc. done.
Qed.

Lemma rl_minor_run ds post : forall pre v r,
  Forall digit ds -> http_minor r = uint 16 v ->
  go rl_step (pre ++ dec ds ++ post) (length pre) (sw_minor_digit, r) =
    go rl_step ((pre ++ dec ds) ++ post) (length (pre ++ dec ds))
      (sw_minor_digit, set_http_minor (uint 16 (fold_left (fun v d => v * 10 + d) ds v)) r).
Proof.
  induction ds as [|d ds IH]; intros pre v r Hd Hv.
  - rewrite app_nil_r. cbn [fold_left dec map app]. rewrite <- Hv. by destruct r.
  - apply Forall_cons in Hd as [Hd Hds]. destruct (digit_char d Hd) as (E1 & E2 & _).
    cbn [dec map]. rewrite <- app_comm_cons, (go_cons rl_step rl_rank). cbn [rl_step].
    unfold case_minor_digit, StatusLine.not_digit in *. rewrite E1, E2, Hv, uint16_step.
    assert ((c_0 + d =? cCR) = false /\ (c_0 + d =? cLF) = false) as [-> ->] by (unfold digit in Hd; lia).
    fold (dec ds). rewrite (IH _ (v * 10 + d)) by done. cbn [fold_left].
    rewrite <- !app_assoc. done.
Qed.

(** The method and the spaces after it. *)
Lemma method_part m sp post pre r :
  m <> [] -> Forall (fun c => is_method_char c = true) m -> Forall (eq cSP) sp ->
  let r' := set_method (method_value m (method r)) (set_method_end (Some (length pre + length m - 1)%nat)
              (set_request_start (Some (length pre)) r)) in
  go rl_step (pre ++ m ++ [cSP] ++ sp ++ post) (length pre) (sw_start, r) =
    go rl_step ((pre ++ m ++ [cSP] ++ sp) ++ post) (length (pre ++ m ++ [cSP] ++ sp))
      (sw_spaces_before_uri, r').
Proof.
  intros Hne Hm Hs r'. destruct m as [|c m']; [done|].
  apply Forall_cons in Hm as Hcm. destruct Hcm as [Hc Hm'].
  rewrite <- app_comm_cons, (go_cons rl_step rl_rank). cbn [rl_step]. unfold case_start.
  destruct (Z.eqb_spec c cCR) as [->|]; [discriminate Hc|].
  destruct (Z.eqb_spec c cLF) as [->|]; [discriminate Hc|]. rewrite Hc. cbn [orb negb].
  rewrite method_run by done. cbn [app].
  rewrite (go_cons rl_step rl_rank). cbn [rl_step]. unfold case_method. cbn [Z.eqb Pos.eqb].
  cbn [request_start set_method_end set_request_start].
  pose proof (known_method_shift pre (c :: m') (sp ++ post)) as K.
  assert (El : length ((pre ++ [c]) ++ m') = (length pre + length (c :: m'))%nat)
    by (rewrite !length_app; simpl; lia).
  rewrite El. replace (length pre + length (c :: m') - length pre)%nat with (length (c :: m')) by lia.
  replace (((pre ++ [c]) ++ m') ++ cSP :: sp ++ post) with (pre ++ (c :: m') ++ cSP :: sp ++ post)
    by (by rewrite <- !app_assoc).
  rewrite K. unfold r', method_value.
  destruct (known_method ((c :: m') ++ [cSP]) 0 (length (c :: m'))) as [v|];
    rewrite (sp_run sw_spaces_before_uri) by done; 
    rewrite <- !app_assoc; cbn [app]; rewrite <- !app_assoc; cbn [app]; by destruct r.
Qed.

(** The spaces after the URI, "HTTP/" and the version. *)
Lemma version_part st sp mj mjs mn mns post pre r :
  st <> pu_start -> Forall (eq cSP) sp ->
  1 <= mj < 10 -> Forall digit mjs -> digit mn -> Forall digit mns ->
  let v := lit "HTTP/" ++ dec (mj :: mjs) ++ [cDOT] ++ dec (mn :: mns) in
  let r' := set_http_minor (uint 16 (num_value 10 (mn :: mns)))
              (set_http_major (uint 16 (num_value 10 (mj :: mjs)))
                 (set_http_protocol (Some (length (pre ++ [cSP] ++ sp)))
                    (set_uri_end (Some (length pre)) r))) in
  go rl_step (pre ++ [cSP] ++ sp ++ v ++ post) (length pre) (rl_of st, r) =
    go rl_step ((pre ++ [cSP] ++ sp ++ v) ++ post) (length (pre ++ [cSP] ++ sp ++ v))
      (sw_minor_digit, r').
Proof.
  intros Hst Hs Hmj Hmjs Hmn Hmns v r'.
  assert (Hsp : exists st2, (st2 = sw_check_uri_http_09 \/ st2 = sw_http_09)
    /\ forall buf p, rl_step buf p cSP (rl_of st, r) = Continue (st2, set_uri_end (Some p) r)).
  { destruct st; [done|exists sw_check_uri_http_09|exists sw_check_uri_http_09|exists sw_http_09];
      (split; [by auto|by intros]). }
  destruct Hsp as (st2 & Hst2 & E). cbn [app]. rewrite (go_cons rl_step rl_rank), E.
  rewrite (sp_run st2) by (destruct Hst2 as [-> | ->]; done).
  assert (EH : forall buf p r, rl_step buf p cH (st2, r) = Continue (sw_http_H, set_http_protocol (Some p) r))
    by (destruct Hst2 as [-> | ->]; done).
  assert (EQ : pre ++ cSP :: sp = (pre ++ [cSP]) ++ sp) by (by rewrite <- app_assoc).
  unfold r'. replace (pre ++ cSP :: sp ++ v) with (((pre ++ [cSP]) ++ sp) ++ v) by (by rewrite <- !app_assoc).
  cbn [app]. rewrite EQ. generalize ((pre ++ [cSP]) ++ sp). intros q.
  unfold v. eval_lit. rewrite <- !app_assoc. cbn [app].
  rewrite (go_cons rl_step rl_rank), EH.
  do 4 (rewrite (go_cons rl_step rl_rank); cbn [rl_step case_http_letter Z.eqb Pos.eqb]).
  cbn [dec map app]. rewrite (go_cons rl_step rl_rank). cbn [rl_step]. unfold case_first_major_digit.
  replace ((c_0 + mj <? c_1) || (c_9 <? c_0 + mj)) with false by lia.
  replace (c_0 + mj - c_0) with (0 * 10 + mj) by lia. fold (dec mjs). fold (dec mns).
  rewrite (rl_major_run mjs _ _ (0 * 10 + mj)) by done.
  rewrite (go_cons rl_step rl_rank). cbn [rl_step case_major_digit Z.eqb Pos.eqb].
  rewrite (go_cons rl_step rl_rank). cbn [rl_step]. unfold case_first_minor_digit.
  destruct (digit_char mn Hmn) as (En & _ & _). unfold StatusLine.not_digit in En. rewrite En.
  replace (c_0 + mn - c_0) with (0 * 10 + mn) by lia.
  rewrite (rl_minor_run mns _ _ (0 * 10 + mn)) by done.
  rewrite <- !app_assoc. done.
Qed.

Definition is_eol (eol : list Z) : Prop := eol = [cLF] \/ eol = [cCR; cLF].

(** The end of the line, and the epilogue. *)
Lemma eol_part eol rest pre r :
  is_eol eol -> request_end r = None -> 1 <= http_major r -> 0 <= http_minor r ->
  match go rl_step (pre ++ eol ++ rest) (length pre) (sw_minor_digit, r) with
  | Left Done (_, r') p =>
      rl_done p r' = (NGX_OK,
        set_state sw_start (set_http_version (http_major r * 1000 + http_minor r)
          (set_request_end (Some (length pre)) r)), length (pre ++ eol))
  | _ => False
  end.
Proof.
  intros He Hn Hmaj Hmin.
  assert (Hv : (http_major r * 1000 + http_minor r =? 9) = false) by lia.
  destruct He as [-> | ->]; cbn [app]; rewrite (go_cons rl_step rl_rank);
    cbn [rl_step case_minor_digit Z.eqb Pos.eqb].
  - unfold rl_done. rewrite Hn. cbn. rewrite Hv, length_app. cbn. f_equal. lia.
  - rewrite (go_cons rl_step rl_rank). cbn [rl_step case_almost_done Z.eqb Pos.eqb].
    unfold rl_done. cbn. rewrite Hv, !length_app. cbn. f_equal; [|lia]. f_equal.
    by replace (length pre + 1 - 1)%nat with (length pre) by lia.
Qed.

(** C2: A request line [method SP uri SP HTTP/major.minor] is parsed to its parts:
    the request is the one [ngx_http_parse_uri] makes of the URI, with the method
    and its bounds, the bounds of the URI, and the protocol version added.  So
    the parser of request lines and the parser of bare URIs classify a URI alike. *)
Theorem request_line_parts m sp u sp' mj mjs mn mns eol pre rest r :
  m <> [] -> Forall (fun c => is_method_char c = true) m ->
  Forall uri_char u -> Forall (eq cSP) sp -> Forall (eq cSP) sp' ->
  1 <= mj < 10 -> Forall digit mjs -> digit mn -> Forall digit mns -> is_eol eol ->
  num_value 10 (mj :: mjs) < 2 ^ 16 -> num_value 10 (mn :: mns) < 2 ^ 16 ->
  state r = sw_start -> request_end r = None ->
  let a := (length pre + length m + 1 + length sp)%nat in
  let before := pre ++ m ++ [cSP] ++ sp ++ cSLASH :: u in
  let proto := lit "HTTP/" ++ dec (mj :: mjs) ++ [cDOT] ++ dec (mn :: mns) in
  let line := before ++ [cSP] ++ sp' ++ proto ++ eol in
  let r1 := set_uri_start (Some a) (set_method (method_value m (method r))
              (set_method_end (Some (length pre + length m - 1)%nat)
                 (set_request_start (Some (length pre)) r))) in
  exists r2, ngx_http_parse_uri r1 before a = Some (NGX_OK, r2) /\
    ngx_http_parse_request_line r (line ++ rest) (length pre) =
      Some (NGX_OK,
        set_state sw_start
          (set_http_version (num_value 10 (mj :: mjs) * 1000 + num_value 10 (mn :: mns))
          (set_request_end (Some (length (before ++ [cSP] ++ sp' ++ proto)))
          (set_http_minor (num_value 10 (mn :: mns)) (set_http_major (num_value 10 (mj :: mjs))
          (set_http_protocol (Some (length (before ++ [cSP] ++ sp')))
          (set_uri_end (Some (length before)) r2)))))), length line).
Proof.
  intros Hne Hm Hu Hsp Hsp' Hmj Hmjs Hmn Hmns He Bmj Bmn Hst Hre a before proto line r1.
  assert (Ha : length (pre ++ m ++ [cSP] ++ sp) = a)
    by (unfold a; rewrite !length_app; cbn [length]; lia).
  set (q := pre ++ m ++ [cSP] ++ sp) in *.
  assert (Eb : before = (q ++ [cSLASH]) ++ u) by (unfold before, q; by rewrite <- !app_assoc).
  destruct (uri_run u ([cSP] ++ sp' ++ proto ++ eol ++ rest) (q ++ [cSLASH]) pu_after_slash_in_uri r1 Hu)
    as (st & r2 & G1 & Hst2 & G2); [done|].
  exists r2. split.
  { unfold ngx_http_parse_uri. rewrite Eb, <- Ha.
    replace ((q ++ [cSLASH]) ++ u) with (q ++ cSLASH :: u) by (by rewrite <- app_assoc).
    rewrite (go_cons pu_step pu_rank). cbn [pu_step Z.eqb Pos.eqb]. by rewrite G1. }
  unfold ngx_http_parse_request_line. rewrite Hst.
  assert (EL : line ++ rest = pre ++ m ++ [cSP] ++ sp ++ (cSLASH :: u ++ [cSP] ++ sp' ++ proto ++ eol ++ rest)).
  { unfold line, before. rewrite <- !app_assoc. done. }
  rewrite EL, method_part by done. fold q. rewrite (go_cons rl_step rl_rank).
  cbn [rl_step case_spaces_before_uri Z.eqb Pos.eqb]. rewrite Ha. fold r1.
  change sw_after_slash_in_uri with (rl_of pu_after_slash_in_uri). rewrite G2. rewrite <- Eb.
  unfold proto. rewrite version_part by done. fold proto.
  assert (Hr2 : request_end r2 = None).
  { pose proof (go_invariant pu_step pu_rank (fun _ _ s => request_end s.2 = None)
      (fun _ _ _ _ => True) ((q ++ [cSLASH]) ++ u)) as I. cbv beta in I.
    specialize (I ltac:(intros p [s r0] ch s' _ H0 E; destruct s; cbn [pu_step] in E;
      unfold pu_after_slash, pu_check, pu_rest in E; repeat case_test_in E; simplify_eq; done)).
    specialize (I ltac:(intros p [s r0] ch s' _ H0 E; destruct s; cbn [pu_step] in E;
      unfold pu_after_slash, pu_check, pu_rest in E; repeat case_test_in E; simplify_eq; done)).
    specialize (I ltac:(done) (length (q ++ [cSLASH])) (pu_after_slash_in_uri, r1) Hre).
    rewrite G1 in I. exact I. }
  assert (Vmj : mj <= num_value 10 (mj :: mjs)).
  { rewrite num_value_cons. pose proof (num_value_range 10 mjs ltac:(lia) Hmjs). 
    pose proof (Z.pow_pos_nonneg 10 (Z.of_nat (length mjs))). nia. }
  assert (Vmn : 0 <= num_value 10 (mn :: mns)).
  { apply (num_value_range 10 (mn :: mns)); [lia|]. by apply Forall_cons. }
  rewrite (uint_small 16 (num_value 10 (mj :: mjs))) by lia.
  rewrite (uint_small 16 (num_value 10 (mn :: mns))) by lia.
  set (r3 := set_http_minor _ _).
  pose proof (eol_part eol rest (before ++ [cSP] ++ sp' ++ proto) r3 He Hr2) as HE.
  change (http_major r3) with (num_value 10 (mj :: mjs)) in HE.
  change (http_minor r3) with (num_value 10 (mn :: mns)) in HE.
  specialize (HE ltac:(lia) Vmn).
  destruct (go rl_step _ _ (sw_minor_digit, r3)) as [|[|] [st3 r4] p|]; try done. rewrite HE.
  cbn [http_major http_minor r3 set_http_minor set_http_major]. unfold line.
  by rewrite <- !app_assoc.
Qed.

Definition sample_uri : list Z := lit "a/b.txt?x=1".

Lemma request_line_parts_witness :
  let before := lit "GET " ++ cSLASH :: sample_uri in
  let line := before ++ lit " HTTP/1.1" ++ [cCR; cLF] in
  let r1 := set_uri_start (Some 4%nat) (set_method NGX_HTTP_GET
              (set_method_end (Some 2%nat) (set_request_start (Some 0%nat) fresh_request))) in
  exists r2, ngx_http_parse_uri r1 before 4 = Some (NGX_OK, r2) /\
    ngx_http_parse_request_line fresh_request (line ++ lit "H") 0 =
      Some (NGX_OK,
        set_state sw_start (set_http_version 1001 (set_request_end (Some 25%nat)
          (set_http_minor 1 (set_http_major 1 (set_http_protocol (Some 17%nat)
             (set_uri_end (Some 16%nat) r2)))))), 27%nat).
Proof.
  apply (request_line_parts (lit "GET") [] sample_uri [] 1 [] 1 [] [cCR; cLF] [] (lit "H") fresh_request);
    try done; try (unfold digit; lia).
  - by apply (bool_decide_unpack _).
  - by apply (bool_decide_unpack _).
  - by right.
Defined.

(** The version numbers are kept in 16 bits and not checked: a request for
    HTTP/65537.65537 is taken for one of HTTP/1.1. *)
Theorem request_version_wraps :
  exists r p, ngx_http_parse_request_line fresh_request
      (lit "GET / HTTP/65537.65537" ++ [cLF]) 0 = Some (NGX_OK, r, p)
    /\ http_version r = 1001 /\ http_major r = 1 /\ http_minor r = 1.
Proof. eexists _, _. split; [vm_compute; reflexivity|]. done. Qed.

End Uri.
