(* ===== verification/HttpComplexUri.v ===== *)
(** * Normalising a URI

    [ngx_http_parse_complex_uri] of src/nginx-1.7.2/src/http/ngx_http_parse.c:
    percent-decoding, removal of "." and ".." components and of repeated slashes,
    and [ngx_http_process_request_uri]
    (src/nginx-1.7.2/src/http/ngx_http_request.c), which decides whether a URI
    needs it and cuts it into path, extension and arguments. *)

From S2P Require Import Prelude ByteMachine HttpRequestLine HttpHeaderLine HttpUri.

Import RequestLine Uri.

Module ComplexUri.

(** The first four values of the enumeration are those [quoted_state] takes. *)
Inductive path_state := sw_usual | sw_slash | sw_dot | sw_dot_dot.
Inductive cu_state := At (b : path_state) | sw_quoted | sw_quoted_second.

(** The locals and what the function writes of the request.  [out] is the memory
    from [r->uri.data] to [u]; [ch] is the decoded byte that the next turn looks
    at instead of the one at [p - 1], if any.  [uri_ext] is an offset into [out],
    [args_start] one into the buffer. *)
Record cu := mkCu {
  state : cu_state; quoted_state : path_state; decoded : Z; ch_ : option Z;
  out : list Z; uri_ext : option nat; args_start : option nat;
  plus_in_uri : bool; quoted_uri : bool
}.

Definition set_state (v : cu_state) (s : cu) : cu :=
  mkCu v (quoted_state s) (decoded s) (ch_ s) (out s) (uri_ext s) (args_start s) (plus_in_uri s)
    (quoted_uri s).
Definition set_quoted_state (v : path_state) (s : cu) : cu :=
  mkCu (state s) v (decoded s) (ch_ s) (out s) (uri_ext s) (args_start s) (plus_in_uri s)
    (quoted_uri s).
Definition set_decoded (v : Z) (s : cu) : cu :=
  mkCu (state s) (quoted_state s) v (ch_ s) (out s) (uri_ext s) (args_start s) (plus_in_uri s)
    (quoted_uri s).
Definition set_ch (v : option Z) (s : cu) : cu :=
  mkCu (state s) (quoted_state s) (decoded s) v (out s) (uri_ext s) (args_start s) (plus_in_uri s)
    (quoted_uri s).
Definition set_out (v : list Z) (s : cu) : cu :=
  mkCu (state s) (quoted_state s) (decoded s) (ch_ s) v (uri_ext s) (args_start s) (plus_in_uri s)
    (quoted_uri s).
Definition set_uri_ext (v : option nat) (s : cu) : cu :=
  mkCu (state s) (quoted_state s) (decoded s) (ch_ s) (out s) v (args_start s) (plus_in_uri s)
    (quoted_uri s).
Definition set_args_start (v : option nat) (s : cu) : cu :=
  mkCu (state s) (quoted_state s) (decoded s) (ch_ s) (out s) (uri_ext s) v (plus_in_uri s)
    (quoted_uri s).
Definition set_plus (s : cu) : cu :=
  mkCu (state s) (quoted_state s) (decoded s) (ch_ s) (out s) (uri_ext s) (args_start s) true
    (quoted_uri s).
Definition set_quoted (s : cu) : cu :=
  mkCu (state s) (quoted_state s) (decoded s) (ch_ s) (out s) (uri_ext s) (args_start s)
    (plus_in_uri s) true.

Inductive cu_exit := Args | Done | Invalid.
Definition cu_action : Type := action cu cu_exit.

(** [*u++ = ch]. *)
Definition put (ch : Z) (s : cu) : cu := set_out (out s ++ [ch]) s.

(** [ch = *p++; break]: the next turn looks at the next byte. *)
Definition next (s : cu) : cu_action := Continue (set_ch None s).

(** The loop that looks back for a slash from the cell [n - 1] down: the number
    of cells up to the slash, and the slash. *)
Fixpoint back_to_slash (mem : list Z) (n : nat) : option nat :=
  match n with
  | O => None
  | S n' => if bool_decide (mem !! n' = Some cSLASH) then Some n else back_to_slash mem n'
  end.

Section Switch.
Context (merge_slashes : bool).

(** [default:] and ['+'] of the states after a slash. *)
Definition plain (ch : Z) (s : cu) : cu_action :=
  let s := if ch =? cPLUS then set_plus s else s in next (put ch (set_state (At sw_usual) s)).

(** The cases ['%'], ['?'] and ['#'], common to the first four states; [other]
    is the rest of the switch.  [p] is the position of [ch], so C's [p] is one
    more. *)
Definition common (b : path_state) (p : nat) (ch : Z) (s : cu) (other : cu_action) : cu_action :=
  if ch =? cPERCENT then next (set_state sw_quoted (set_quoted_state b s))
  else if ch =? cQM then Leave Args (set_args_start (Some (S p)) s)
  else if ch =? cHASH then Leave Done s
  else other.

Definition case_usual (p : nat) (ch : Z) (s : cu) : cu_action :=
  if bit_set usual ch then next (put ch s)
  else if ch =? cSLASH then next (put ch (set_state (At sw_slash) (set_uri_ext None s)))
  else common sw_usual p ch s
    (if ch =? cDOT then next (put ch (set_uri_ext (Some (length (out s) + 1)%nat) s))
     else
       let s := if ch =? cPLUS then set_plus s else s in next (put ch s)).

Definition case_slash (p : nat) (ch : Z) (s : cu) : cu_action :=
  if bit_set usual ch then next (put ch (set_state (At sw_usual) s))
  else if ch =? cSLASH then if merge_slashes then next s else next (put ch s)
  else if ch =? cDOT then next (put ch (set_state (At sw_dot) s))
  else common sw_slash p ch s (plain ch s).

Definition case_dot (p : nat) (ch : Z) (s : cu) : cu_action :=
  if bit_set usual ch then next (put ch (set_state (At sw_usual) s))
  else if ch =? cSLASH then
    next (set_out (take (length (out s) - 1) (out s)) (set_state (At sw_slash) s))
  else if ch =? cDOT then next (put ch (set_state (At sw_dot_dot) s))
  else common sw_dot p ch s (plain ch s).

Definition case_dot_dot (p : nat) (ch : Z) (s : cu) : cu_action :=
  if bit_set usual ch then next (put ch (set_state (At sw_usual) s))
  else if ch =? cSLASH then
    let s := set_state (At sw_slash) s in
    match back_to_slash (out s) (length (out s) - 4) with
    | None => Leave Invalid s
    | Some n => next (set_out (take n (out s)) s)
    end
  else common sw_dot_dot p ch s (plain ch s).

Definition case_quoted (ch : Z) (s : cu) : cu_action :=
  let s := set_quoted s in
  if c_0 <=? ch <=? c_9 then
    next (set_state sw_quoted_second (set_decoded (uint 8 (ch - c_0)) s))
  else
    let c := uint 8 (Z.lor ch 32) in
    if ca <=? c <=? cf then
      next (set_state sw_quoted_second (set_decoded (uint 8 (c - ca + 10)) s))
    else Leave Invalid s.

Definition case_quoted_second (ch : Z) (s : cu) : cu_action :=
  if c_0 <=? ch <=? c_9 then
    let ch := uint 8 (Z.shiftl (decoded s) 4 + ch - c_0) in
    if (ch =? cPERCENT) || (ch =? cHASH) then next (put ch (set_state (At sw_usual) s))
    else if ch =? cNUL then Leave Invalid s
    else Rescan (set_ch (Some ch) (set_state (At (quoted_state s)) s))
  else
    let c := uint 8 (Z.lor ch 32) in
    if ca <=? c <=? cf then
      let ch := uint 8 (Z.shiftl (decoded s) 4 + c - ca + 10) in
      if ch =? cQM then next (put ch (set_state (At sw_usual) s))
      else
        let s := if ch =? cPLUS then set_plus s else s in
        Rescan (set_ch (Some ch) (set_state (At (quoted_state s)) s))
    else Leave Invalid s.

(** The switch. *)
Definition cu_step (buf : list Z) (p : nat) (b : Z) (s : cu) : cu_action :=
  let ch := match ch_ s with Some c => c | None => b end in
  match state s with
  | At sw_usual => case_usual p ch s
  | At sw_slash => case_slash p ch s
  | At sw_dot => case_dot p ch s
  | At sw_dot_dot => case_dot_dot p ch s
  | sw_quoted => case_quoted ch s
  | sw_quoted_second => case_quoted_second ch s
  end.
End Switch.

(** The loop at [args:] that looks for a fragment, from [p]: where the hash sign is. *)
Fixpoint find_hash (l : list Z) (p : nat) : option nat :=
  match l with
  | [] => None
  | c :: l' => if c =? cHASH then Some p else find_hash l' (S p)
  end.

(** What the function leaves in the request; a string is [[]] while it is unset. *)
Record parsed_uri := mkParsed {
  uri : list Z; exten : list Z; args : list Z; pargs_start : option nat;
  pplus_in_uri : bool; pquoted_uri : bool
}.

(** [done:] and the common end of [args:]. *)
Definition finish (s : cu) (args : list Z) (args_start : option nat) : parsed_uri :=
  mkParsed (out s) (match uri_ext s with Some e => drop e (out s) | None => [] end) args args_start
    (plus_in_uri s) (quoted_uri s).

(** The whole function, on a URI that lies at [a] in [buf] and ends where [buf]
    does; [plus] and [quoted] are the flags as the request line parser left them. *)
Definition ngx_http_parse_complex_uri (merge_slashes plus quoted : bool) (buf : list Z) (a : nat) :
    option (Z * parsed_uri) :=
  match go (cu_step merge_slashes) buf a
          (mkCu (At sw_usual) sw_usual 0 None [] None None plus quoted) with
  | Ended s _ | Left Done s _ => Some (NGX_OK, finish s [] (args_start s))
  | Left Args s p =>
      match find_hash (drop (S p) buf) (S p) with
      | Some i => Some (NGX_OK, finish s (HeaderLine.span buf (args_start s) (Some i)) None)
      | None => Some (NGX_OK, finish s [] (args_start s))
      end
  | Left Invalid s _ => Some (NGX_HTTP_PARSE_INVALID_REQUEST, finish s [] (args_start s))
  | NoFuel => None
  end.

(** What [ngx_http_process_request_uri] sets. *)
Record processed := mkProcessed {
  path : list Z; extension : list Z; arguments : list Z; unparsed_uri : list Z;
  valid_unparsed_uri : bool
}.

(** [None] is the answer 400 Bad Request. *)
Definition ngx_http_process_request_uri (merge_slashes : bool) (r : request) (buf : list Z) :
    option processed :=
  let len_end :=
    match RequestLine.args_start r with
    | Some g => Some (g - 1)%nat
    | None => uri_end r
    end in
  let whole := HeaderLine.span buf (uri_start r) (uri_end r) in
  match uri_start r, uri_end r with
  | Some a, Some d =>
      if complex_uri r || RequestLine.quoted_uri r then
        match ngx_http_parse_complex_uri merge_slashes (RequestLine.plus_in_uri r)
                (RequestLine.quoted_uri r) (take d buf) a with
        | Some (0, c) =>
            let ar :=
              match pargs_start c with
              | Some g => if (g <? d)%nat then HeaderLine.span buf (Some g) (Some d) else args c
              | None => args c
              end in
            Some (mkProcessed (uri c) (exten c) ar whole (negb (space_in_uri r)))
        | _ => None
        end
      else
        let ext :=
          match RequestLine.uri_ext r with
          | Some e => HeaderLine.span buf (Some e) len_end
          | None => []
          end in
        let ar :=
          match RequestLine.args_start r with
          | Some g => if (g <? d)%nat then HeaderLine.span buf (Some g) (Some d) else []
          | None => []
          end in
        Some (mkProcessed (HeaderLine.span buf (Some a) len_end) ext ar whole (negb (space_in_uri r)))
  | _, _ => None
  end.

(** ** The machine *)

Section Theory.
Context (merge_slashes : bool).
Local Abbreviation step := (cu_step merge_slashes).

Definition cu_rank (s : cu) : nat := match state s with sw_quoted_second => 1 | _ => 0 end.

(** Unfold a step in a hypothesis and split its tests. *)
Ltac cu_cases E :=
  unfold cu_step, case_usual, case_slash, case_dot, case_dot_dot, case_quoted,
    case_quoted_second, common, plain, next, put in E;
  cbv zeta in E; repeat case_test_in E.

#[export] Instance cu_machine : Machine step cu_rank.
Proof.
  split.
  - intros s. unfold cu_rank. destruct (state s); lia.
  - intros buf p b [st q d c o e a f g] s' E. unfold cu_rank. cbn [state].
    unfold cu_step in E. cbn [state ch_] in E.
    destruct st as [[]| |]; cu_cases E; simplify_eq; cbn; try lia.
    all: match type of E with context [back_to_slash ?x ?y] => destruct (back_to_slash x y) end;
      discriminate E.
  - done.
Qed.

(** ** The output *)

(** On the output read backwards: it ends with a slash, with "/." and with "/..". *)
Definition ends_slash (r : list Z) : bool := match r with 47 :: _ => true | _ => false end.
Definition ends_dot (r : list Z) : bool := match r with 46 :: 47 :: _ => true | _ => false end.
Definition ends_dot_dot (r : list Z) : bool :=
  match r with 46 :: 46 :: 47 :: _ => true | _ => false end.

(** A slash may follow. *)
Definition open (r : list Z) : Prop :=
  ends_dot r = false /\ ends_dot_dot r = false /\ (merge_slashes = true -> ends_slash r = false).

(** No component of the path that is closed by a slash is "." or "..", nor empty
    if slashes are merged. *)
Fixpoint clean (r : list Z) : Prop :=
  match r with [] => True | c :: r' => clean r' /\ (c = cSLASH -> open r') end.

Lemma clean_app a b : clean (a ++ b) -> clean b.
Proof. induction a as [|c a IH]; [done|]. intros [H _]. auto. Qed.

Lemma clean_take n l : clean (rev l) -> clean (rev (take n l)).
Proof.
  intros H. rewrite <- (take_drop n l), rev_app_distr in H. by eapply clean_app.
Qed.

(** The invariant of the first four states. *)
Definition path_inv (b : path_state) (o : list Z) : Prop :=
  clean (rev o) /\
  match b with
  | sw_usual => open (rev o) /\ ends_slash (rev o) = false
  | sw_slash => ends_slash (rev o) = true
  | sw_dot => ends_dot (rev o) = true
  | sw_dot_dot => ends_dot_dot (rev o) = true
  end.

Definition cu_inv (s : cu) : Prop :=
  match state s with
  | At b => path_inv b (out s)
  | _ => path_inv (quoted_state s) (out s)
  end.

(** A byte that is not a slash, nor a dot that would make the component "." or "..". *)
Lemma path_inv_put b o c :
  path_inv b o -> c <> cSLASH -> (c = cDOT -> b = sw_usual \/ b = sw_dot_dot) ->
  path_inv sw_usual (o ++ [c]).
Proof.
  intros [Hc Hb] Hs Hd. unfold path_inv. rewrite rev_unit. cbn [clean].
  split; [split; [done|by intros ->]|].
  assert (Hx : ends_slash (c :: rev o) = false).
  { cbn. repeat case_match; done. }
  assert (Hy : ends_dot (c :: rev o) = false /\ ends_dot_dot (c :: rev o) = false).
  { destruct (decide (c = cDOT)) as [->|Hn].
    - destruct (Hd eq_refl) as [-> | ->].
      + destruct Hb as [(H1 & H2 & _) H3]. split; [exact H3|]. cbn in *. exact H1.
      + destruct (rev o) as [|x [|y [|z l]]]; cbn in Hb; try discriminate Hb;
          repeat case_match; try discriminate Hb; done.
    - split; cbn; repeat case_match; done. }
  split; [|done]. split; [apply Hy|]. split; [apply Hy|done].
Qed.

Lemma back_to_slash_spec mem n k :
  back_to_slash mem n = Some k -> (0 < k <= n)%nat /\ mem !! (k - 1)%nat = Some cSLASH.
Proof.
  induction n as [|n IH]; [done|]. cbn [back_to_slash]. case_bool_decide as H.
  - intros [= <-]. replace (S n - 1)%nat with n by lia. split; [lia|done].
  - intros E. destruct (IH E). split; [lia|done].
Qed.

Lemma path_inv_back o n k :
  clean (rev o) -> back_to_slash o n = Some k -> path_inv sw_slash (take k o).
Proof.
  intros Hc E. apply back_to_slash_spec in E as [Hk E]. split; [by apply clean_take|].
  replace k with (S (k - 1)) by lia. by rewrite (take_S_r _ _ _ E), rev_unit.
Qed.

Lemma path_inv_slash b o :
  path_inv b o -> b = sw_usual \/ (b = sw_slash /\ merge_slashes = false) ->
  path_inv sw_slash (o ++ [cSLASH]).
Proof.
  intros [Hc Hb] H. unfold path_inv. rewrite rev_unit. split; [|done]. split; [done|]. intros _.
  destruct H as [-> |[-> Hm]]; [apply Hb|]. unfold open. rewrite Hm.
  destruct (rev o) as [|x l]; [done|]. cbn in Hb. repeat case_match; try discriminate Hb; done.
Qed.

Lemma path_inv_dot o : path_inv sw_slash o -> path_inv sw_dot (o ++ [cDOT]).
Proof. intros [Hc Hb]. unfold path_inv. rewrite rev_unit. done. Qed.

Lemma path_inv_dot_dot o : path_inv sw_dot o -> path_inv sw_dot_dot (o ++ [cDOT]).
Proof. intros [Hc Hb]. unfold path_inv. rewrite rev_unit. done. Qed.

Lemma path_inv_undot o : path_inv sw_dot o -> path_inv sw_slash (take (length o - 1) o).
Proof.
  intros [Hc Hb]. destruct o as [|x o' _] using rev_ind; [discriminate Hb|].
  rewrite length_app. cbn [length].
  replace (length o' + 1 - 1)%nat with (length o') by lia. rewrite take_app_length.
  rewrite rev_unit in Hb, Hc. split; [apply Hc|].
  destruct (rev o') as [|y l]; cbn in Hb; repeat case_match; try discriminate Hb; done.
Qed.

Lemma cu_inv_step buf p b s :
  cu_inv s ->
  match step buf p b s with
  | Continue s' | Rescan s' => cu_inv s'
  | Leave _ s' => out s' = out s
  end.
Proof.
  destruct s as [st q d c o e a f g]. unfold cu_inv. cbn [state quoted_state out]. intros HI.
  unfold cu_step. cbn [state ch_]. set (ch := match c with Some c0 => c0 | None => b end).
  assert (Hu : bit_set usual ch = true -> ch <> cSLASH /\ ch <> cDOT)
    by (intros H; split; intros E; rewrite E in H; discriminate H).
  destruct st as [[]| |];
    unfold case_usual, case_slash, case_dot, case_dot_dot, case_quoted, case_quoted_second,
      common, plain, next, put; cbv zeta; repeat case_test; cbn; try done;
    repeat match goal with
           | H : (_ =? _) = true |- _ => apply Z.eqb_eq in H
           | H : (_ =? _) = false |- _ => apply Z.eqb_neq in H
           end;
    try (eapply path_inv_put; [exact HI|tauto|tauto]).
  - rewrite Heqb1. eapply path_inv_slash; [exact HI|by left].
  - rewrite Heqb1. eapply path_inv_slash; [exact HI|by right].
  - rewrite Heqb2. by apply path_inv_dot.
  - by apply path_inv_undot.
  - rewrite Heqb2. by apply path_inv_dot_dot.
  - destruct (back_to_slash o (length o - 4)) as [k|] eqn:E; [|done]. cbn.
    eapply path_inv_back; [apply HI|exact E].
  - eapply path_inv_put; [exact HI| |]; destruct (orb_prop _ _ Heqb1) as [E|E];
      apply Z.eqb_eq in E; cbn in E; rewrite E; done.
  - cbn in Heqb2. eapply path_inv_put; [exact HI| |]; rewrite Heqb2; done.
Qed.

(** ** The size of the output *)

Definition cu_fits (a : nat) (buf : list Z) (p : nat) (s : cu) : Prop :=
  (a <= p)%nat /\ (length (out s) <= p - a)%nat
  /\ (forall i, (a <= i)%nat -> buf !! i = Some cQM -> (p <= i)%nat)
  /\ (ch_ s <> None -> buf !! p <> Some cQM)
  /\ match state s with At _ => True | _ => ch_ s = None end.

Lemma cu_fits_step a buf p b s :
  buf !! p = Some b -> cu_fits a buf p s ->
  match step buf p b s with
  | Continue s' => cu_fits a buf (S p) s'
  | Rescan s' => cu_fits a buf p s'
  | Leave _ s' => out s' = out s
  end.
Proof.
  intros Hb (Ha & Hl & Hq & Hc & Hs). destruct s as [st q d c o e g f h].
  cbn [state ch_ out] in *. unfold cu_step. cbn [state ch_].
  assert (Hn : (match c with Some c0 => c0 | None => b end) <> cQM ->
    forall i, (a <= i)%nat -> buf !! i = Some cQM -> (S p <= i)%nat).
  { intros Hch i Hi E. specialize (Hq i Hi E). destruct (decide (p = i)) as [->|]; [|lia].
    destruct c as [c|]; [by destruct (Hc ltac:(done))|]. rewrite Hb in E. simplify_eq. }
  assert (Hu : bit_set usual (match c with Some c0 => c0 | None => b end) = true ->
    (match c with Some c0 => c0 | None => b end) <> cQM)
    by (intros H E; rewrite E in H; discriminate H).
  set (ch := match c with Some c0 => c0 | None => b end) in *.
  assert (Hx1 : (c_0 <=? ch <=? c_9) = true -> ch <> cQM) by lia.
  assert (Hx2 : (ca <=? uint 8 (Z.lor ch 32) <=? cf) = true -> ch <> cQM)
    by (intros H E; rewrite E in H; discriminate H).
  assert (Hx3 : c = None -> ch <> cQM -> buf !! p <> Some cQM)
    by (intros -> H E; rewrite Hb in E; injection E as E; by apply H).
  destruct st as [[]| |];
    unfold case_usual, case_slash, case_dot, case_dot_dot, case_quoted, case_quoted_second,
      common, plain, next, put; cbv zeta; repeat case_test; cbn; try done;
    repeat match goal with
           | H : (_ =? _) = true |- _ => apply Z.eqb_eq in H
           | H : (_ =? _) = false |- _ => apply Z.eqb_neq in H
           end;
    try destruct (back_to_slash o (length o - 4)) as [k|] eqn:Ek; cbn; try done;
    unfold cu_fits; cbn; rewrite ?length_app, ?length_take; cbn [length];
    (split; [lia|]); (split; [lia|]); (split; [|done || (split; [|done])]);
    first [apply Hn; first [tauto|lia] | exact Hq | intros _; apply Hx3; auto].
Qed.

Definition start_cu (plus quoted : bool) : cu :=
  mkCu (At sw_usual) sw_usual 0 None [] None None plus quoted.

(** What holds of the output at every exit. *)
Lemma cu_result plus quoted buf a :
  match go step buf a (start_cu plus quoted) with
  | Ended s p | Left _ s p =>
      clean (rev (out s)) /\ (length (out s) <= p - a)%nat
      /\ (forall i, (a <= i)%nat -> buf !! i = Some cQM -> (p <= i)%nat)
  | NoFuel => False
  end.
Proof.
  pose proof (go_invariant step cu_rank
    (fun buf p s => cu_inv s /\ cu_fits a buf p s)
    (fun buf p _ s => clean (rev (out s)) /\ (length (out s) <= p - a)%nat
      /\ (forall i, (a <= i)%nat -> buf !! i = Some cQM -> (p <= i)%nat)) buf) as I. cbv beta in I.
  assert (Hcl : forall s, cu_inv s -> clean (rev (out s))).
  { intros s Hs. unfold cu_inv in Hs. destruct (state s) as [[]| |]; apply Hs. }
  specialize (I ltac:(intros p s b s' Hb [H1 H2] E;
    pose proof (cu_inv_step buf p b s H1) as Q1; pose proof (cu_fits_step a buf p b s Hb H2) as Q2;
    rewrite E in Q1, Q2; by split)).
  specialize (I ltac:(intros p s b s' Hb [H1 H2] E;
    pose proof (cu_inv_step buf p b s H1) as Q1; pose proof (cu_fits_step a buf p b s Hb H2) as Q2;
    rewrite E in Q1, Q2; by split)).
  specialize (I ltac:(intros p s b x s' Hb [H1 H2] E;
    pose proof (cu_inv_step buf p b s H1) as Q1; rewrite E in Q1;
    destruct H2 as (_ & F1 & F2 & _); rewrite Q1; auto)).
  specialize (I a (start_cu plus quoted)).
  destruct (go step buf a (start_cu plus quoted)) as [s p|x s p|].
  - destruct I as [I1 (_ & I2 & I3 & _)]; [|by auto].
    split; [by repeat split|]. repeat split; cbn; try lia; done.
  - apply I. split; [by repeat split|]. repeat split; cbn; try lia; done.
  - apply I. split; [by repeat split|]. repeat split; cbn; try lia; done.
Qed.

(** What [clean] means for the output read forwards. *)
Lemma clean_infix l w :
  clean (rev l) -> w = lit "/./" \/ w = lit "/../" \/ (merge_slashes = true /\ w = lit "//") ->
  forall x y, l <> x ++ w ++ y.
Proof.
  intros Hc Hw x y ->. rewrite !rev_app_distr, <- app_assoc in Hc. apply clean_app in Hc.
  destruct Hw as [-> |[-> |[Hm ->]]]; cbn in Hc.
  - destruct Hc as [_ Hc]. destruct (Hc eq_refl) as (H & _ & _). discriminate H.
  - destruct Hc as [_ Hc]. destruct (Hc eq_refl) as (_ & H & _). discriminate H.
  - destruct Hc as [_ Hc]. destruct (Hc eq_refl) as (_ & _ & H). discriminate (H Hm).
Qed.

(** C4: A normalised URI has no component "." or ".." before its last one, and no
    empty one if slashes are merged. *)
Theorem complex_uri_clean plus quoted buf a c :
  ngx_http_parse_complex_uri merge_slashes plus quoted buf a = Some (NGX_OK, c) ->
  forall x y, uri c <> x ++ lit "/./" ++ y /\ uri c <> x ++ lit "/../" ++ y
    /\ (merge_slashes = true -> uri c <> x ++ lit "//" ++ y).
Proof.
  unfold ngx_http_parse_complex_uri. intros E x y.
  pose proof (cu_result plus quoted buf a) as R. unfold start_cu in R.
  assert (Hc : clean (rev (uri c))).
  { destruct (go step buf a _) as [s p|[] s p|]; try (destruct (find_hash _ _));
      simplify_eq; apply R. }
  split; [|split; [|intros Hm]]; apply clean_infix; auto.
Qed.

(** The function always returns, with [NGX_OK] or an error, and writes no more
    bytes than the URI has before its first question mark: the memory allocated
    for the path is never overrun. *)
Theorem complex_uri_fits plus quoted buf a :
  exists code c, ngx_http_parse_complex_uri merge_slashes plus quoted buf a = Some (code, c)
    /\ (code = NGX_OK \/ code = NGX_HTTP_PARSE_INVALID_REQUEST)
    /\ (length (uri c) <= length buf - a)%nat
    /\ (forall i, (a <= i)%nat -> buf !! i = Some cQM -> (length (uri c) <= i - a)%nat).
Proof.
  unfold ngx_http_parse_complex_uri.
  pose proof (cu_result plus quoted buf a) as R. unfold start_cu in R.
  pose proof (go_pos step cu_rank buf a (mkCu (At sw_usual) sw_usual 0 None [] None None plus quoted)) as P.
  assert (Hle : forall s p, (length (out s) <= p - a)%nat -> (p <= length buf)%nat ->
    (forall i, (a <= i)%nat -> buf !! i = Some cQM -> (p <= i)%nat) ->
    (length (out s) <= length buf - a)%nat
    /\ (forall i, (a <= i)%nat -> buf !! i = Some cQM -> (length (out s) <= i - a)%nat)).
  { intros s p H1 H2 H3. split; [lia|]. intros i Hi E. specialize (H3 i Hi E). lia. }
  destruct (go step buf a _) as [s p|[] s p|] eqn:G; [| | | |done].
  - destruct R as (_ & R1 & R2). eexists _, _. split; [done|]. split; [by left|]. cbn.
    split; [lia|]. intros i Hi E. specialize (R2 i Hi E). lia.
  - destruct R as (_ & R1 & R2). destruct (find_hash _ _); eexists _, _; (split; [done|]);
      (split; [by left|]); apply (Hle s p R1 ltac:(lia) R2).
  - destruct R as (_ & R1 & R2). eexists _, _. split; [done|]. split; [by left|].
    apply (Hle s p R1 ltac:(lia) R2).
  - destruct R as (_ & R1 & R2). eexists _, _. split; [done|]. split; [by right|].
    apply (Hle s p R1 ltac:(lia) R2).
Qed.

(** ** URIs that need no normalising *)

(** The two extensions: an offset into the buffer, and one into the output. *)
Definition same_ext (a : nat) (e : option nat) (e' : option nat) : Prop :=
  match e, e' with
  | None, None => True
  | Some x, Some y => x = (a + y)%nat
  | _, _ => False
  end.

(** The state of [ngx_http_parse_uri] and that of this function at [p]. *)
Definition fast_rel (a : nat) (pre : list Z) (st : pu_state) (r : request) (s : cu) : Prop :=
  ch_ s = None /\ (a <= length pre)%nat /\ out s = drop a pre /\ args_start s = None
  /\ RequestLine.args_start r = None /\ same_ext a (RequestLine.uri_ext r) (uri_ext s)
  /\ match st with
     | pu_after_slash_in_uri => state s = At sw_slash \/ state s = At sw_usual
     | pu_check_uri => state s = At sw_usual
     | _ => False
     end.

(** The flags are never cleared. *)
Lemma pu_flags u : forall pre st r st' r' p,
  go pu_step (pre ++ u) (length pre) (st, r) = Ended (st', r') p ->
  (complex_uri r = true -> complex_uri r' = true)
  /\ (RequestLine.quoted_uri r = true -> RequestLine.quoted_uri r' = true).
Proof.
  induction u as [|c u IH]; intros pre st r st' r' p G.
  - rewrite (go_step pu_step pu_rank), app_nil_r, (proj2 (lookup_ge_None _ _)) in G by done.
    by simplify_eq.
  - rewrite (go_cons pu_step pu_rank) in G.
    destruct (pu_step (pre ++ c :: u) (length pre) c (st, r)) as [[st1 r1]|[st1 r1]|] eqn:E;
      try discriminate G.
    + apply IH in G as [G1 G2]. split; intros H; [apply G1|apply G2]; destruct st;
        cbn [pu_step] in E; unfold pu_after_slash, pu_check, pu_rest in E;
        repeat case_test_in E; simplify_eq; cbn; auto.
    + exfalso. by apply (rescan_lt (rank := pu_rank)) in E; unfold pu_rank in E; lia.
Qed.

(** After the question mark. *)
Lemma pu_args u : forall pre r st' r' p,
  go pu_step (pre ++ u) (length pre) (pu_uri, r) = Ended (st', r') p -> complex_uri r' = false ->
  find_hash u (length pre) = None /\ RequestLine.args_start r' = RequestLine.args_start r
  /\ RequestLine.uri_ext r' = RequestLine.uri_ext r.
Proof.
  induction u as [|c u IH]; intros pre r st' r' p G H.
  - rewrite (go_step pu_step pu_rank), app_nil_r, (proj2 (lookup_ge_None _ _)) in G by done.
    by simplify_eq.
  - rewrite (go_cons pu_step pu_rank) in G. cbn [pu_step] in G. unfold pu_rest in G. cbn [find_hash].
    assert (EL : length (pre ++ [c]) = S (length pre)) by (rewrite length_app; cbn; lia).
    rewrite <- EL.
    destruct (Z.eqb_spec c cHASH) as [->|].
    + apply pu_flags in G as [G _]. cbn in G. by rewrite G in H.
    + repeat case_test_in G; apply IH in G; done.
Qed.

Lemma fast_step a pre buf c st r s st1 r1 :
  fast_rel a pre st r s -> pu_step buf (length pre) c (st, r) = Continue (st1, r1) ->
  complex_uri r1 = false -> RequestLine.quoted_uri r1 = false -> c <> cQM ->
  exists s1, step buf (length pre) c s = Continue s1 /\ fast_rel a (pre ++ [c]) st1 r1 s1.
Proof.
  intros (Hch & Ha & Ho & Hg & Hrg & He & Hst) E Hc Hq Hqm. destruct s as [cs q d ch o e g f h].
  cbn in Hch, Ho, Hg, He, Hst. subst ch g. apply Z.eqb_neq in Hqm.
  assert (Hd : drop a (pre ++ [c]) = drop a pre ++ [c]) by (by rewrite drop_app_le).
  assert (Hl : length (drop a pre) = (length pre - a)%nat) by apply length_drop.
  assert (Hl' : (a <= length (pre ++ [c]))%nat) by (rewrite length_app; lia).
  unfold fast_rel. rewrite Hd, <- Ho. rewrite <- Ho in Hl.
  destruct st; try done; [destruct Hst as [-> | ->]|subst cs];
    cbn [pu_step] in E; unfold pu_after_slash, pu_check in E; unfold cu_step; cbn [state ch_];
    unfold case_usual, case_slash, common, plain, next, put; cbv zeta; rewrite Hqm;
    repeat case_test_in E; simplify_eq; try (cbn in Hc, Hq; congruence); repeat case_test;
    try (exfalso; lia);
    (eexists; split; [reflexivity|]); cbn; rewrite ?Hl; split_and!; auto; lia.
Qed.

(** As long as the flags stay clear the two go together. *)
Lemma fast_run a u : forall pre st r s st' r' q,
  fast_rel a pre st r s ->
  go pu_step (pre ++ u) (length pre) (st, r) = Ended (st', r') q ->
  complex_uri r' = false -> RequestLine.quoted_uri r' = false ->
  match go step (pre ++ u) (length pre) s with
  | Ended s' _ =>
      RequestLine.args_start r' = None /\ args_start s' = None /\ out s' = drop a (pre ++ u)
      /\ same_ext a (RequestLine.uri_ext r') (uri_ext s')
  | Left Args s' p =>
      RequestLine.args_start r' = Some (S p) /\ args_start s' = Some (S p)
      /\ out s' = take (p - a) (drop a (pre ++ u)) /\ (a <= p < length (pre ++ u))%nat
      /\ same_ext a (RequestLine.uri_ext r') (uri_ext s')
      /\ find_hash (drop (S p) (pre ++ u)) (S p) = None
  | _ => False
  end.
Proof.
  induction u as [|c u IH]; intros pre st r s st' r' q HR G Hc Hq.
  - rewrite (go_step pu_step pu_rank), app_nil_r, (proj2 (lookup_ge_None _ _)) in G by done.
    simplify_eq. rewrite (go_step step cu_rank), app_nil_r, (proj2 (lookup_ge_None _ _)) by done.
    by destruct HR as (_ & _ & ? & ? & ? & ? & _).
  - rewrite (go_cons pu_step pu_rank) in G. rewrite (go_cons step cu_rank).
    destruct (pu_step (pre ++ c :: u) (length pre) c (st, r)) as [[st1 r1]|[st1 r1]|] eqn:E;
      try discriminate G.
    2:{ by apply (rescan_lt (rank := pu_rank)) in E; unfold pu_rank in E; lia. }
    pose proof (pu_flags _ _ _ _ _ _ _ G) as [F1 F2].
    destruct (Z.eqb_spec c cQM) as [->|Hqm].
    + destruct HR as (Hch & Ha & Ho & Hg & Hrg & He & Hst).
      assert (Hpu : st1 = pu_uri /\ r1 = RequestLine.set_args_start (Some (S (length pre))) r)
        by (destruct st; try done;
            match type of E with _ = Continue ?y =>
              change (Continue (pu_uri, RequestLine.set_args_start (Some (S (length pre))) r)
                      = Continue (X := unit) y) in E end; by injection E as <- <-).
      assert (Hcu : step (pre ++ cQM :: u) (length pre) cQM s
                    = Leave Args (set_args_start (Some (S (length pre))) s))
        by (unfold cu_step; rewrite Hch; destruct st; try done; [destruct Hst as [-> | ->]|rewrite Hst];
            reflexivity).
      rewrite Hcu. destruct Hpu as [-> ->]. apply pu_args in G as (G1 & G2 & G3); [|done].
      assert (EL : length (pre ++ [cQM]) = S (length pre)) by (rewrite length_app; cbn; lia).
      cbn [RequestLine.args_start RequestLine.uri_ext RequestLine.set_args_start] in *.
      rewrite G2, G3.
      assert (ET : take (length pre - a) (drop a (pre ++ cQM :: u)) = drop a pre).
      { rewrite drop_app_le, take_app_le by (rewrite ?length_drop; lia).
        apply take_ge. rewrite length_drop. lia. }
      rewrite ET. replace (drop (S (length pre)) (pre ++ cQM :: u)) with u
        by (rewrite <- EL; change (cQM :: u) with ([cQM] ++ u); by rewrite app_assoc, drop_app_length).
      rewrite EL in G1. rewrite length_app. cbn. split_and!; try done; lia.
    + assert (HS : exists s1, step (pre ++ c :: u) (length pre) c s = Continue s1
        /\ fast_rel a (pre ++ [c]) st1 r1 s1).
      { eapply fast_step; try done; apply not_true_is_false; intros H;
          [rewrite F1 in Hc|rewrite F2 in Hq]; done. }
      destruct HS as (s1 & -> & HR1). specialize (IH (pre ++ [c]) st1 r1 s1 st' r' q HR1).
      rewrite <- !app_assoc in *. cbn [app] in *. by apply IH.
Qed.

Lemma drop_take_ext (buf : list Z) a k x : drop x (take k (drop a buf)) = take (k - x) (drop (a + x) buf).
Proof.
  rewrite <- drop_drop. destruct (decide (x <= k)%nat).
  - rewrite (take_drop_commute _ (k - x) x). by replace (x + (k - x))%nat with k by lia.
  - replace (k - x)%nat with 0%nat by lia. rewrite take_0. apply drop_ge. rewrite length_take. lia.
Qed.

(** Where the path of a URI ends: before the question mark, or with the URI. *)
Definition path_end (r : request) (buf : list Z) : nat :=
  match RequestLine.args_start r with Some g => (g - 1)%nat | None => length buf end.

(** C10: A URI that [ngx_http_parse_uri] finds neither complex nor quoted is its own
    normal form: normalising it would give the path and the extension that
    [ngx_http_process_request_uri] takes from the URI as it stands. *)
Theorem simple_uri_unchanged plus quoted buf a r0 r :
  (a <= length buf)%nat -> RequestLine.args_start r0 = None -> RequestLine.uri_ext r0 = None ->
  ngx_http_parse_uri r0 buf a = Some (NGX_OK, r) ->
  complex_uri r = false -> RequestLine.quoted_uri r = false ->
  exists c, ngx_http_parse_complex_uri merge_slashes plus quoted buf a = Some (NGX_OK, c)
    /\ uri c = HeaderLine.span buf (Some a) (Some (path_end r buf))
    /\ exten c = match RequestLine.uri_ext r with
                 | Some e => HeaderLine.span buf (Some e) (Some (path_end r buf)) | None => [] end
    /\ args c = [] /\ pargs_start c = RequestLine.args_start r.
Proof.
  intros Ha Hg He E Hc Hq. unfold ngx_http_parse_uri in E. unfold ngx_http_parse_complex_uri.
  assert (exists pre u, buf = pre ++ u /\ length pre = a) as (pre & u & -> & <-).
  { exists (take a buf), (drop a buf). rewrite take_drop, length_take. split; [done|lia]. }
  destruct u as [|ch u].
  { rewrite (go_step pu_step pu_rank), app_nil_r, (proj2 (lookup_ge_None _ _)) in E by done.
    rewrite (go_step step cu_rank), app_nil_r, (proj2 (lookup_ge_None _ _)) by done. simplify_eq.
    eexists. split; [done|]. cbn. rewrite Hg, He. split_and!; try done.
    unfold path_end. rewrite Hg, drop_all. by rewrite take_nil. }
  rewrite (go_cons pu_step pu_rank) in E. cbn [pu_step] in E.
  destruct (Z.eqb_spec ch cSLASH) as [->|]; [|discriminate E].
  rewrite (go_cons step cu_rank).
  destruct (go pu_step ((pre ++ [cSLASH]) ++ u) (length (pre ++ [cSLASH])) (pu_after_slash_in_uri, r0))
    as [[st1 r1] q|x [st1 r1] q|] eqn:G; simplify_eq.
  assert (HR : fast_rel (length pre) (pre ++ [cSLASH]) pu_after_slash_in_uri r0
    (mkCu (At sw_slash) sw_usual 0 None [cSLASH] None None plus quoted)).
  { unfold fast_rel. cbn. rewrite length_app, drop_app_length, He. split_and!; try done; [lia|by left]. }
  pose proof (fast_run _ _ _ _ _ _ _ _ _ HR G Hc Hq) as F.
  set (s1 := mkCu (At sw_slash) sw_usual 0 None [cSLASH] None None plus quoted) in *.
  assert (Hcu : step (pre ++ cSLASH :: u) (length pre) cSLASH
    (mkCu (At sw_usual) sw_usual 0 None [] None None plus quoted) = Continue s1) by reflexivity.
  rewrite Hcu. rewrite <- app_assoc in F |- *. cbn [app] in F |- *.
  set (buf := pre ++ cSLASH :: u) in *. set (a := length pre) in *.
  assert (HX : forall s' e', same_ext a (RequestLine.uri_ext r) (uri_ext s') ->
    out s' = take (e' - a) (drop a buf) -> path_end r buf = e' ->
    match uri_ext s' with Some e => drop e (out s') | None => [] end
    = match RequestLine.uri_ext r with
      | Some e => HeaderLine.span buf (Some e) (Some (path_end r buf)) | None => [] end).
  { intros s' e' Hx Ho ->. unfold same_ext in Hx.
    destruct (RequestLine.uri_ext r) as [x|], (uri_ext s') as [y|]; try done. subst x.
    rewrite Ho, drop_take_ext. cbn. f_equal. lia. }
  destruct (go step buf (length (pre ++ [cSLASH])) s1) as [s' p|[] s' p|]; try done.
  - destruct F as (F1 & F2 & F3 & F4). eexists. split; [done|]. cbn [uri exten args pargs_start finish].
    assert (Hp : path_end r buf = length buf) by (unfold path_end; by rewrite F1).
    assert (Ho : out s' = take (length buf - a) (drop a buf))
      by (rewrite F3; symmetry; apply take_ge; rewrite length_drop; lia).
    rewrite F2, F1. split_and!; try done; [by rewrite Hp|]. by apply (HX s' (length buf)).
  - destruct F as (F1 & F2 & F3 & F4 & F5 & F6). rewrite F6. eexists. split; [done|].
    cbn [uri exten args pargs_start finish].
    assert (Hp : path_end r buf = p) by (unfold path_end; rewrite F1; lia).
    rewrite F2, F1. split_and!; try done; [by rewrite Hp|]. by apply (HX s' p).
Qed.
End Theory.


Definition sample_path : list Z := lit "/a/./b//%2e%2E/c.txt?x=1#y".

Lemma complex_uri_clean_witness :
  lit "/a/c.txt" <> lit "/a" ++ lit "/./" ++ lit "c.txt"
  /\ lit "/a/c.txt" <> lit "/a" ++ lit "/../" ++ lit "c.txt"
  /\ (true = true -> lit "/a/c.txt" <> lit "/a" ++ lit "//" ++ lit "c.txt").
Proof.
  apply (complex_uri_clean true false false sample_path 0
    (mkParsed (lit "/a/c.txt") (lit "txt") (lit "x=1") None false true)).
  vm_compute. reflexivity.
Defined.

Definition simple_path : list Z := lit "/a/b+c.txt?x=1".

Lemma simple_uri_unchanged_witness :
  exists c, ngx_http_parse_complex_uri true false false simple_path 0 = Some (NGX_OK, c)
    /\ uri c = lit "/a/b+c.txt" /\ exten c = lit "txt" /\ args c = []
    /\ pargs_start c = Some 11%nat.
Proof.
  refine (simple_uri_unchanged true false false simple_path 0 fresh_request
    (RequestLine.set_plus_in_uri true (RequestLine.set_args_start (Some 11%nat)
       (RequestLine.set_uri_ext (Some 7%nat) fresh_request))) _ _ _ _ _ _);
    try reflexivity; [vm_compute; lia].
Defined.

(** The last component is not looked at: a URI that ends in ".." or "." keeps it. *)
Theorem complex_uri_keeps_last_dots :
  ngx_http_parse_complex_uri true false false (lit "/a/b/..") 0
    = Some (NGX_OK, mkParsed (lit "/a/b/..") [] [] None false false)
  /\ ngx_http_parse_complex_uri true false false (lit "/..") 0
    = Some (NGX_OK, mkParsed (lit "/..") [] [] None false false).
Proof. split; vm_compute; reflexivity. Qed.

(** An escape that the URI ends in the middle of is dropped, not refused. *)
Theorem complex_uri_drops_cut_escape :
  ngx_http_parse_complex_uri true false false (lit "/a%4") 0
    = Some (NGX_OK, mkParsed (lit "/a") [] [] None false true).
Proof. vm_compute. reflexivity. Qed.

End ComplexUri.
