(* ===== verification/HttpArgs.v ===== *)
(** * Arguments and untrusted URIs

    Of src/nginx-1.7.2/src/http/ngx_http_parse.c: [ngx_http_split_args],
    [ngx_http_arg] and [ngx_http_parse_unsafe_uri]; of
    src/nginx-1.7.2/src/core/ngx_string.h: [ngx_strlchr]. *)

From S2P Require Import Prelude NgxString NgxEscape HttpRequestLine.

Module HttpArgs.

(** The offset of the first [c] in the string, [None] for NULL. *)
Fixpoint ngx_strlchr (s : list Z) (c : Z) : option nat :=
  match s with
  | [] => None
  | x :: s' => if x =? c then Some 0%nat else S <$> ngx_strlchr s' c
  end.

(** The URI and its arguments. *)
Definition ngx_http_split_args (uri : list Z) : list Z * list Z :=
  match ngx_strlchr uri cQM with
  | Some p => (take p uri, drop (S p) uri)
  | None => (uri, [])
  end.

(** The loop of [ngx_http_arg] over the arguments: the value found.  [name] is
    [c2 :: s2]. *)
Fixpoint arg_loop (fuel : nat) (args : list Z) (p : nat) (c2 : Z) (s2 : list Z) :
    option (Z * list Z) :=
  match fuel with
  | O => None
  | S fuel' =>
      if (p <? length args)%nat then
        match ngx_strlcasestrn (drop p args) (length args - 1 - p) c2 s2 (length s2) with
        | Fault => None
        | Null => Some (NGX_DECLINED, [])
        | At i =>
            let p := (p + i)%nat in
            let len := S (length s2) in
            if (bool_decide (p = 0%nat) || bool_decide (args !! (p - 1)%nat = Some cAMP))
               && bool_decide (args !! (p + len)%nat = Some cEQ)
            then
              let stop := match ngx_strlchr (drop p args) cAMP with
                          | Some i => (p + i)%nat | None => length args end in
              Some (NGX_OK, take (stop - (p + len + 1)) (drop (p + len + 1) args))
            else arg_loop fuel' args (S p) c2 s2
        end
      else Some (NGX_DECLINED, [])
  end.

Definition ngx_http_arg (args : list Z) (c2 : Z) (s2 : list Z) : option (Z * list Z) :=
  if (length args =? 0)%nat then Some (NGX_DECLINED, [])
  else arg_loop (S (length args)) args 0 c2 s2.

(** ** Untrusted URIs *)

(** The test of "..", alone or followed by a path separator, at a pointer; the
    string ends with the list. *)
Definition up_dir (p : list Z) : bool :=
  match p with
  | c1 :: c2 :: p' =>
      (c1 =? cDOT) && (c2 =? cDOT)
      && match p' with [] => true | c3 :: _ => c3 =? cSLASH end
  | _ => false
  end.

(** The first loop: [None] is [goto unsafe]; else the URI up to the question mark,
    the arguments if there is one, and [quoted]. *)
Fixpoint unsafe_loop (quoted : bool) (p : list Z) : option (list Z * option (list Z) * bool) :=
  match p with
  | [] => Some ([], None, quoted)
  | ch :: p' =>
      let continue quoted :=
        '(u, a, q) ← unsafe_loop quoted p'; Some (ch :: u, a, q) in
      if ch =? cPERCENT then continue true
      else if bit_set RequestLine.usual ch then continue quoted
      else if ch =? cQM then Some ([], Some p', quoted)
      else if ch =? cNUL then None
      else if (ch =? cSLASH) && up_dir p' then None
      else continue quoted
  end.

(** The second loop, on the unescaped URI. *)
Fixpoint unsafe_again (p : list Z) : bool :=
  match p with
  | [] => true
  | ch :: p' =>
      if ch =? cNUL then false else if (ch =? cSLASH) && up_dir p' then false else unsafe_again p'
  end.

(** The code, the URI and, if there is a question mark, the arguments. *)
Definition ngx_http_parse_unsafe_uri (uri : list Z) : Z * list Z * option (list Z) :=
  let unsafe := (NGX_ERROR, uri, None) in
  match uri with
  | [] => unsafe
  | c :: _ =>
      if c =? cQM then unsafe
      else if up_dir uri then unsafe
      else
        match unsafe_loop false uri with
        | None => unsafe
        | Some (u, a, quoted) =>
            if quoted then
              let u' := (ngx_unescape_uri u 0).1 in
              if up_dir u' then (NGX_ERROR, u', a)
              else if unsafe_again u' then (NGX_OK, u', a) else (NGX_ERROR, u', a)
            else (NGX_OK, u, a)
        end
  end.

(** ** Theorems *)

Lemma ngx_strlchr_spec s c :
  match ngx_strlchr s c with
  | Some i => s !! i = Some c /\ c ∉ take i s
  | None => c ∉ s
  end.
Proof.
  induction s as [|x s IH]; cbn [ngx_strlchr]; [apply not_elem_of_nil|].
  destruct (Z.eqb_spec x c) as [->|].
  - split; [done|]. apply not_elem_of_nil.
  - destruct (ngx_strlchr s c) as [i|]; cbn.
    + destruct IH as [H1 H2]. split; [done|]. apply not_elem_of_cons. split; [congruence|done].
    + apply not_elem_of_cons. split; [congruence|done].
Qed.

(** Splitting at the first question mark loses nothing. *)
Theorem split_args_spec uri :
  let '(u, a) := ngx_http_split_args uri in
  (cQM ∉ u) /\ (uri = u ++ cQM :: a \/ (uri = u /\ a = [])).
Proof.
  unfold ngx_http_split_args. pose proof (ngx_strlchr_spec uri cQM) as H.
  destruct (ngx_strlchr uri cQM) as [i|]; [|by auto]. destruct H as [H1 H2]. split; [done|]. left.
  by rewrite <- (take_drop_middle uri i cQM H1) at 1.
Qed.

(** The argument [name] begins at [q]: after an ampersand or at the start, up to
    case, and followed by an equals sign. *)
Definition arg_at (args name : list Z) (q : nat) : Prop :=
  (q = 0%nat \/ args !! (q - 1)%nat = Some cAMP)
  /\ map ngx_tolower (take (length name) (drop q args)) = map ngx_tolower name
  /\ args !! (q + length name)%nat = Some cEQ.

(** The bytes before the first ampersand. *)
Fixpoint before_amp (l : list Z) : list Z :=
  match l with [] => [] | c :: l' => if c =? cAMP then [] else c :: before_amp l' end.

Lemma before_amp_strlchr l :
  before_amp l = match ngx_strlchr l cAMP with Some i => take i l | None => l end.
Proof.
  induction l as [|c l IH]; [done|]. cbn. destruct (c =? cAMP); [done|]. rewrite IH.
  by destruct (ngx_strlchr l cAMP).
Qed.

Lemma strlchr_app_not a b c :
  c ∉ a -> ngx_strlchr (a ++ b) c = (fun i => (length a + i)%nat) <$> ngx_strlchr b c.
Proof.
  induction a as [|x a IH]; intros H; cbn; [by destruct (ngx_strlchr b c)|].
  apply not_elem_of_cons in H as [H1 H2]. destruct (Z.eqb_spec x c); [congruence|].
  rewrite IH by done. by destruct (ngx_strlchr b c).
Qed.

(** The value that the code cuts out is what comes before the next ampersand. *)
Lemma value_cut args name q :
  arg_at args name q -> cAMP ∉ name ->
  let stop := match ngx_strlchr (drop q args) cAMP with
              | Some i => (q + i)%nat | None => length args end in
  take (stop - (q + length name + 1)) (drop (q + length name + 1) args)
    = before_amp (drop (q + length name + 1) args).
Proof.
  intros (_ & Hn & He) Ha stop.
  set (rest := drop (q + length name + 1) args).
  assert (Ed : drop q args = (take (length name) (drop q args) ++ [cEQ]) ++ rest).
  { rewrite <- app_assoc. cbn [app]. rewrite <- (take_drop (length name) (drop q args)) at 1. f_equal.
    rewrite drop_drop. rewrite (drop_S _ _ _ He). f_equal. unfold rest. f_equal. lia. }
  assert (Hl : length (take (length name) (drop q args) ++ [cEQ]) = (length name + 1)%nat).
  { apply lookup_lt_Some in He. rewrite length_app, length_take, length_drop. cbn. lia. }
  assert (Hna : cAMP ∉ take (length name) (drop q args) ++ [cEQ]).
  { rewrite not_elem_of_app. split; [|by rewrite list_elem_of_singleton].
    intros H. apply (list_elem_of_fmap_2 ngx_tolower) in H. 
    change (ngx_tolower <$> take (length name) (drop q args))
      with (map ngx_tolower (take (length name) (drop q args))) in H.
    rewrite Hn in H. apply list_elem_of_fmap in H as (x & Hx & Hin).
    symmetry in Hx. change (ngx_tolower x = cAMP) in Hx.
    apply ngx_tolower_inv in Hx; [|lia]. by subst x. }
  unfold stop. rewrite Ed, strlchr_app_not, Hl by done. rewrite before_amp_strlchr.
  destruct (ngx_strlchr rest cAMP) as [i|]; cbn.
  - f_equal. lia.
  - apply take_ge. unfold rest. rewrite length_drop. lia.
Qed.

Lemma arg_loop_spec args c2 s2 : forall fuel p,
  c2 <> 0 -> 0 ∉ s2 -> cAMP ∉ c2 :: s2 -> (length args - p < fuel)%nat ->
  exists c v, arg_loop fuel args p c2 s2 = Some (c, v) /\
  ((c = NGX_OK /\ exists q, (p <= q)%nat /\ arg_at args (c2 :: s2) q
      /\ (forall j, (p <= j < q)%nat -> ~ arg_at args (c2 :: s2) j)
      /\ v = before_amp (drop (q + length (c2 :: s2) + 1) args))
   \/ (c = NGX_DECLINED /\ v = [] /\ forall j, (p <= j)%nat -> ~ arg_at args (c2 :: s2) j)).
Proof.
  induction fuel as [|fuel IH]; intros p H0 Hs Ha Hf; [lia|]. cbn [arg_loop].
  assert (Hin : forall q, arg_at args (c2 :: s2) q -> (q + length s2 + 1 < length args)%nat).
  { intros q (_ & _ & H). apply lookup_lt_Some in H. cbn in H. lia. }
  destruct (Nat.ltb_spec p (length args)).
  2:{ eexists _, _. split; [done|]. right. split_and!; try done. intros j Hj Hq. apply Hin in Hq. lia. }
  pose proof (strlcasestrn_first (drop p args) (length args - 1 - p) c2 s2 H0 Hs) as F.
  specialize (F ltac:(rewrite length_drop; lia)). unfold occurs_case in F.
  assert (Hocc : forall j, (p <= j)%nat -> arg_at args (c2 :: s2) j ->
    occurs_case c2 s2 (drop p args) (length args - 1 - p) (j - p)).
  { intros j Hj Hq. pose proof (Hin j Hq). destruct Hq as (_ & Hm & _). split; [lia|].
    rewrite drop_drop. by replace (p + (j - p))%nat with j by lia. }
  destruct (ngx_strlcasestrn _ _ _ _ _) as [| |i]; [done| |].
  { eexists _, _. split; [done|]. right. split_and!; try done.
    intros j Hj Hq. exact (F _ (Hocc j Hj Hq)). }
  destruct F as [[F1 F2] F3]. rewrite drop_drop in F2.
  assert (Hno : forall j, (p <= j < p + i)%nat -> ~ arg_at args (c2 :: s2) j).
  { intros j Hj Hq. apply (F3 (j - p)%nat ltac:(lia)). by apply Hocc; [lia|]. }
  cbv zeta. destruct (_ && _) eqn:Et.
  - apply andb_true_iff in Et as [E1 E2]. apply bool_decide_eq_true in E2.
    assert (Hat : arg_at args (c2 :: s2) (p + i)).
    { split; [|done]. apply orb_true_iff in E1 as [E1|E1]; apply bool_decide_eq_true in E1; auto. }
    pose proof (value_cut _ _ _ Hat Ha) as Hv. cbv zeta in Hv. cbn [length] in Hv. rewrite Hv.
    eexists _, _. split; [done|]. left. split; [done|]. exists (p + i)%nat. split_and!; try done. lia.
  - assert (Hnot : ~ arg_at args (c2 :: s2) (p + i)).
    { intros (G1 & _ & G3). cbn [length] in G3. rewrite (bool_decide_true _ G3) in Et.
      rewrite andb_true_r in Et. apply orb_false_iff in Et as [E1 E2].
      apply bool_decide_eq_false in E1, E2. by destruct G1. }
    destruct (IH (S (p + i)) H0 Hs Ha ltac:(lia)) as (c & v & -> & HC). eexists _, _. split; [done|].
    assert (Hno2 : forall j, (p <= j < S (p + i))%nat -> ~ arg_at args (c2 :: s2) j).
    { intros j Hj. destruct (decide (j = p + i)%nat) as [->|]; [done|]. apply Hno. lia. }
    destruct HC as [(-> & q & Hq & Hat & Hj & ->)|(-> & -> & Hj)]; [left|right].
    + split; [done|]. exists q. split_and!; try done; [lia|]. intros j Hjj.
      destruct (decide (j < S (p + i))%nat); [apply Hno2; lia|apply Hj; lia].
    + split_and!; try done. intros j Hjj.
      destruct (decide (j < S (p + i))%nat); [apply Hno2; lia|apply Hj; lia].
Qed.

(** [ngx_http_arg] finds the first argument of the given name, up to case, that
    has a value, and returns the value, which ends with the next ampersand or the
    string; it declines exactly when there is none. *)
Theorem http_arg_first args c2 s2 :
  c2 <> 0 -> 0 ∉ s2 -> cAMP ∉ c2 :: s2 ->
  exists c v, ngx_http_arg args c2 s2 = Some (c, v) /\
  ((c = NGX_OK /\ exists q, arg_at args (c2 :: s2) q
      /\ (forall j, (j < q)%nat -> ~ arg_at args (c2 :: s2) j)
      /\ v = before_amp (drop (q + length (c2 :: s2) + 1) args))
   \/ (c = NGX_DECLINED /\ v = [] /\ forall j, ~ arg_at args (c2 :: s2) j)).
Proof.
  intros H0 Hs Ha. unfold ngx_http_arg. destruct (Nat.eqb_spec (length args) 0) as [E|].
  { apply nil_length_inv in E as ->. eexists _, _. split; [done|]. right. split_and!; try done.
    intros j (_ & _ & H). done. }
  destruct (arg_loop_spec args c2 s2 (S (length args)) 0 H0 Hs Ha ltac:(lia)) as (c & v & -> & HC).
  eexists _, _. split; [done|]. destruct HC as [(-> & q & Hq & Hat & Hj & ->)|(-> & -> & Hj)]; [left|right].
  - split; [done|]. exists q. split_and!; try done. intros j Hlt. apply Hj. lia.
  - split_and!; try done. intros j. apply Hj. lia.
Qed.

Lemma http_arg_first_witness :
  exists c v, ngx_http_arg (lit "xa=0&A=1&a=2") 97 [] = Some (c, v) /\
  ((c = NGX_OK /\ exists q, arg_at (lit "xa=0&A=1&a=2") [97] q
      /\ (forall j, (j < q)%nat -> ~ arg_at (lit "xa=0&A=1&a=2") [97] j)
      /\ v = before_amp (drop (q + length [97] + 1) (lit "xa=0&A=1&a=2")))
   \/ (c = NGX_DECLINED /\ v = [] /\ forall j, ~ arg_at (lit "xa=0&A=1&a=2") [97] j)).
Proof.
  apply http_arg_first; [done|apply not_elem_of_nil|].
  by apply (bool_decide_unpack _).
Defined.

(** ** Untrusted URIs are safe *)

(** No NUL, and no slash before "..", where the bytes [tl] follow the string. *)
Definition no_up (l tl : list Z) : Prop :=
  (0 ∉ l) /\ forall x y, l = x ++ cSLASH :: y -> up_dir (y ++ tl) = false.

Lemma no_up_cons c l tl :
  c <> 0 -> (c = cSLASH -> up_dir (l ++ tl) = false) -> no_up l tl -> no_up (c :: l) tl.
Proof.
  intros H0 Hu [Hn Hl]. split; [apply not_elem_of_cons; split; [congruence|done]|].
  intros [|d x] y E; cbn in E; simplify_eq; [by apply Hu|by eapply Hl].
Qed.

Lemma unsafe_loop_spec p : forall q u a q',
  unsafe_loop q p = Some (u, a, q') ->
  let tl := match a with Some a => cQM :: a | None => [] end in
  p = u ++ tl /\ no_up u tl.
Proof.
  induction p as [|ch p IH]; intros q u a q' E; cbn [unsafe_loop] in E.
  { simplify_eq. split; [done|]. split; [apply not_elem_of_nil|]. by intros [|] y. }
  assert (HC : forall k, ('(u, a, q) ← unsafe_loop k p; Some (ch :: u, a, q)) = Some (u, a, q') ->
    ch <> 0 -> (ch = cSLASH -> up_dir p = false) ->
    let tl := match a with Some a => cQM :: a | None => [] end in ch :: p = u ++ tl /\ no_up u tl).
  { intros k Ek H0 Hu. destruct (unsafe_loop k p) as [[[u1 a1] q1]|] eqn:E1; [|done].
    cbn in Ek. simplify_eq. destruct (IH _ _ _ _ E1) as [Ep Hn]. cbv zeta. split; [by rewrite Ep at 1|].
    apply no_up_cons; try done. by rewrite <- Ep. }
  cbv zeta in E. destruct (Z.eqb_spec ch cPERCENT) as [->|]; [by eapply HC|].
  destruct (bit_set RequestLine.usual ch) eqn:Eu.
  { eapply HC; [exact E| |]; intros ->; discriminate Eu. }
  destruct (Z.eqb_spec ch cQM) as [->|].
  { simplify_eq. split; [done|]. split; [apply not_elem_of_nil|]. by intros [|] y. }
  destruct (Z.eqb_spec ch cNUL); [done|].
  destruct (Z.eqb_spec ch cSLASH) as [->|]; cbn [andb] in E.
  - destruct (up_dir p) eqn:Ed; [done|]. by eapply HC.
  - by eapply HC.
Qed.

Lemma unsafe_again_spec p : unsafe_again p = true -> no_up p [].
Proof.
  induction p as [|ch p IH]; intros E; cbn [unsafe_again] in E.
  { split; [apply not_elem_of_nil|]. by intros [|] y. }
  destruct (Z.eqb_spec ch cNUL); [done|]. apply no_up_cons; [done| |].
  - intros ->. rewrite app_nil_r. cbn in E. by destruct (up_dir p).
  - apply IH. by destruct (_ && _).
Qed.

(** The string begins with [w]. *)
Lemma up_dir_prefix y tl : up_dir (lit "../" ++ y ++ tl) = true.
Proof. done. Qed.

(** An accepted URI has no NUL byte and no ".." component that a slash follows;
    its last component can be ".." only if the URI was given unescaped and with
    arguments. *)
Theorem unsafe_uri_checked uri u a :
  ngx_http_parse_unsafe_uri uri = (NGX_OK, u, a) ->
  (0 ∉ u) /\ (forall y, u <> lit "../" ++ y) /\ (forall x y, u <> x ++ lit "/../" ++ y)
  /\ (u = lit ".." \/ (exists x, u = x ++ lit "/..") ->
      exists ar, a = Some ar /\ uri = u ++ cQM :: ar).
Proof.
  assert (HG : forall tl, up_dir (u ++ tl) = false -> no_up u tl ->
    (tl <> [] -> exists ar, a = Some ar /\ uri = u ++ cQM :: ar) ->
    (0 ∉ u) /\ (forall y, u <> lit "../" ++ y) /\ (forall x y, u <> x ++ lit "/../" ++ y)
    /\ (u = lit ".." \/ (exists x, u = x ++ lit "/..") ->
        exists ar, a = Some ar /\ uri = u ++ cQM :: ar)).
  { intros tl Hu [Hn Hx] Ht. split_and!; [done| | |].
    - intros y ->. by rewrite <- app_assoc, up_dir_prefix in Hu.
    - intros x y ->. specialize (Hx x (lit "../" ++ y) eq_refl).
      by rewrite <- app_assoc, up_dir_prefix in Hx.
    - intros HL. destruct tl as [|t tl]; [exfalso|by apply Ht].
      destruct HL as [-> |[x ->]]; [discriminate Hu|]. discriminate (Hx x (lit "..") eq_refl). }
  unfold ngx_http_parse_unsafe_uri. destruct uri as [|c uri']; [done|].
  destruct (c =? cQM); [done|]. destruct (up_dir (c :: uri')) eqn:Eu; [done|].
  destruct (unsafe_loop false (c :: uri')) as [[[u1 a1] q]|] eqn:E; [|done].
  destruct (unsafe_loop_spec _ _ _ _ _ E) as [Ep Hn].
  destruct q.
  - destruct (up_dir (ngx_unescape_uri u1 0).1) eqn:E2; [done|].
    destruct (unsafe_again (ngx_unescape_uri u1 0).1) eqn:E3; [|done].
    intros EQ. simplify_eq. apply (HG []); [by rewrite app_nil_r|by apply unsafe_again_spec|done].
  - intros EQ. simplify_eq. apply (HG (match a with Some a => cQM :: a | None => [] end)).
    + by rewrite <- Ep.
    + done.
    + intros Ht. destruct a as [ar|]; [|done]. by exists ar.
Qed.

Lemma unsafe_uri_checked_witness :
  (0 ∉ lit "/a b") /\ (forall y, lit "/a b" <> lit "../" ++ y)
  /\ (forall x y, lit "/a b" <> x ++ lit "/../" ++ y)
  /\ (lit "/a b" = lit ".." \/ (exists x, lit "/a b" = x ++ lit "/..") ->
      exists ar, Some (lit "x") = Some ar /\ lit "/a%20b?x" = lit "/a b" ++ cQM :: ar).
Proof. apply unsafe_uri_checked. vm_compute. reflexivity. Defined.

(** The exception is real: "/..?x" is accepted as the URI "/..". *)
Theorem unsafe_uri_up_with_args :
  ngx_http_parse_unsafe_uri (lit "/..?x") = (NGX_OK, lit "/..", Some (lit "x")).
Proof. vm_compute. reflexivity. Qed.

End HttpArgs.
