(* ===== verification/HttpCookies.v ===== *)
(** * Looking up cookies

    [ngx_http_parse_multi_header_lines] and [ngx_http_parse_set_cookie_lines] of
    src/nginx-1.7.2/src/http/ngx_http_parse.c.  The value of a header is a string
    with a NUL after it; a pointer into it is what is left of the value. *)

From S2P Require Import Prelude NgxString.

Module Cookies.

(** [while (start < end && *start == ' ') { start++; }] *)
Fixpoint skip_spaces (s : list Z) : list Z :=
  match s with c :: s' => if c =? cSP then skip_spaces s' else s | [] => [] end.

(** The first loop at [skip:]: past the next semicolon or comma. *)
Fixpoint skip_item (s : list Z) : list Z :=
  match s with
  | [] => []
  | ch :: s' => if (ch =? cSEMI) || (ch =? cCOMMA) then s' else skip_item s'
  end.

(** The loop that looks for the end of a value. *)
Fixpoint up_to_semi (s : list Z) : list Z :=
  match s with [] => [] | c :: s' => if c =? cSEMI then [] else c :: up_to_semi s' end.

(** [ngx_strncasecmp(start, name->data, name->len)]. *)
Definition compare (s name : list Z) : option Z := ngx_strncasecmp (s ++ [cNUL]) name (length name).

(** The result for one header: not found, or found with the value, if one was
    asked for. *)
Inductive lookup_result := Absent | Present (value : list Z).

(** The loop over one header value; [want] tells that [value] is not NULL. *)
Fixpoint multi_loop (fuel : nat) (want : bool) (name s : list Z) : option lookup_result :=
  match fuel with
  | O => None
  | S fuel' =>
      match s with
      | [] => Some Absent
      | _ :: _ =>
          let skip s := multi_loop fuel' want name (skip_spaces (skip_item s)) in
          r ← compare s name;
          if negb (r =? 0) then skip s
          else
            let s := skip_spaces (drop (length name) s) in
            if negb want then
              match s with
              | [] => Some (Present [])
              | c :: _ => if c =? cCOMMA then Some (Present []) else skip s
              end
            else
              match s with
              | [] => skip s
              | c :: s' =>
                  if negb (c =? cEQ) then skip s'
                  else Some (Present (up_to_semi (skip_spaces s')))
              end
      end
  end.

(** The code ([i] or [NGX_DECLINED]) and the value. *)
Fixpoint multi_headers (i : Z) (want : bool) (name : list Z) (headers : list (list Z)) :
    option (Z * list Z) :=
  match headers with
  | [] => Some (NGX_DECLINED, [])
  | h :: headers' =>
      if (length h <? length name)%nat then multi_headers (i + 1) want name headers'
      else
        r ← multi_loop (S (length h)) want name h;
        match r with
        | Present v => Some (i, v)
        | Absent => multi_headers (i + 1) want name headers'
        end
  end.

Definition ngx_http_parse_multi_header_lines (headers : list (list Z)) (name : list Z) (want : bool) :
    option (Z * list Z) := multi_headers 0 want name headers.

Fixpoint set_cookie_headers (i : Z) (name : list Z) (headers : list (list Z)) : option (Z * list Z) :=
  match headers with
  | [] => Some (NGX_DECLINED, [])
  | h :: headers' =>
      let continue := set_cookie_headers (i + 1) name headers' in
      if (length h <=? length name)%nat then continue
      else
        r ← compare h name;
        if negb (r =? 0) then continue
        else
          match skip_spaces (drop (length name) h) with
          | [] => continue
          | c :: s' =>
              if negb (c =? cEQ) then continue else Some (i, up_to_semi (skip_spaces s'))
          end
  end.

Definition ngx_http_parse_set_cookie_lines (headers : list (list Z)) (name : list Z) :
    option (Z * list Z) := set_cookie_headers 0 name headers.

(** ** Lemmas *)

Definition same_name (a b : list Z) : Prop := map ngx_tolower a = map ngx_tolower b.

#[export] Instance same_name_dec a b : Decision (same_name a b).
Proof. unfold same_name. apply _. Defined.

(** The comparison stops at the NUL at the latest, and tells whether the value
    begins with the name. *)
Lemma compare_spec name : forall s,
  0 ∉ name -> exists r, compare s name = Some r /\ (r = 0 <-> same_name (take (length name) s) name).
Proof.
  unfold compare. induction name as [|b name IH]; intros s H0; [by exists 0|].
  apply not_elem_of_cons in H0 as [Hb H0]. unfold same_name. destruct s as [|a s]; cbn.
  - change (ngx_tolower 0) with 0. destruct (Z.eqb_spec 0 (ngx_tolower b)) as [E|E].
    { symmetry in E. apply ngx_tolower_inv in E; [congruence|lia]. }
    eexists. split; [done|]. split; [lia|done].
  - destruct (Z.eqb_spec (ngx_tolower a) (ngx_tolower b)) as [E|E].
    + destruct (Z.eqb_spec (ngx_tolower a) 0) as [E0|E0].
      { rewrite E in E0. apply ngx_tolower_inv in E0; [congruence|lia]. }
      destruct (IH s H0) as (r & -> & Hr). exists r. split; [done|]. rewrite Hr. unfold same_name.
      rewrite E. split; [by intros ->|by intros [= ->]].
    + eexists. split; [done|]. split; [lia|]. intros [= ? ?]. lia.
Qed.

Lemma skip_spaces_app sp s :
  Forall (eq cSP) sp -> head s <> Some cSP -> skip_spaces (sp ++ s) = s.
Proof.
  intros Hs Hh. induction sp as [|c sp IH].
  - destruct s as [|c s]; [done|]. cbn. destruct (Z.eqb_spec c cSP) as [->|]; [by destruct Hh|done].
  - apply Forall_cons in Hs as [<- Hs]. cbn. auto.
Qed.

Lemma skip_spaces_length s : (length (skip_spaces s) <= length s)%nat.
Proof. induction s as [|c s IH]; cbn; [lia|]. case_test; cbn; lia. Qed.

Lemma skip_item_length s : (length (skip_item s) <= length s)%nat.
Proof. induction s as [|c s IH]; cbn; [lia|]. case_test; cbn; lia. Qed.

Lemma skip_item_lt c s : (length (skip_item (c :: s)) < length (c :: s))%nat.
Proof. cbn. pose proof (skip_item_length s). case_test; cbn; lia. Qed.

(** The lookup always ends, whatever the header holds. *)
Lemma multi_loop_total want name : forall fuel s,
  0 ∉ name -> name <> [] -> (length s < fuel)%nat -> exists r, multi_loop fuel want name s = Some r.
Proof.
  induction fuel as [|fuel IH]; intros s H0 Hne Hf; [lia|]. cbn [multi_loop].
  destruct s as [|c s]; [by eexists|]. destruct (compare_spec name (c :: s) H0) as (r & -> & Hr).
  cbn [mbind option_bind].
  assert (HS : forall k, (length k < length (c :: s))%nat ->
    exists r, multi_loop fuel want name (skip_spaces (skip_item k)) = Some r).
  { intros k Hk. apply IH; try done.
    pose proof (skip_item_length k). pose proof (skip_spaces_length (skip_item k)). lia. }
  assert (Hd : (length (drop (length name) (c :: s)) < length (c :: s))%nat).
  { rewrite length_drop. destruct name; [done|]. cbn. lia. }
  pose proof (skip_spaces_length (drop (length name) (c :: s))) as Hle.
  case_test.
  - apply IH; try done. pose proof (skip_item_lt c s).
    pose proof (skip_spaces_length (skip_item (c :: s))). cbn [length] in *. lia.
  - case_test; destruct (skip_spaces (drop (length name) (c :: s))) as [|d k].
    + by eexists.
    + case_test; [by eexists|]. apply HS. lia.
    + apply HS. cbn. lia.
    + case_test; [|by eexists]. apply HS. cbn [length] in *. lia.
Qed.

(** ** A well-formed header *)

(** A cookie: a name and a value, and the spaces written before it. *)
Record cookie := mkCookie { spaces : list Z; cname : list Z; cvalue : list Z }.

Definition name_byte (c : Z) : Prop :=
  c <> cEQ /\ c <> cSEMI /\ c <> cCOMMA /\ c <> cSP /\ c <> cNUL.
Definition value_byte (c : Z) : Prop := c <> cSEMI /\ c <> cCOMMA /\ c <> cNUL.

Definition cookie_ok (c : cookie) : Prop :=
  Forall (eq cSP) (spaces c) /\ cname c <> [] /\ Forall name_byte (cname c)
  /\ Forall value_byte (cvalue c) /\ head (cvalue c) <> Some cSP.

(** The header: cookies separated by semicolons. *)
Definition pair_text (c : cookie) : list Z := cname c ++ cEQ :: cvalue c.
Fixpoint more_text (cs : list cookie) : list Z :=
  match cs with [] => [] | c :: cs' => cSEMI :: spaces c ++ pair_text c ++ more_text cs' end.
Definition header_text (cs : list cookie) : list Z :=
  match cs with [] => [] | c :: cs' => pair_text c ++ more_text cs' end.

(** The specification: the value of the first cookie of that name. *)
Fixpoint find_cookie (name : list Z) (cs : list cookie) : lookup_result :=
  match cs with
  | [] => Absent
  | c :: cs' => if decide (same_name (cname c) name) then Present (cvalue c) else find_cookie name cs'
  end.

Lemma skip_item_text l cs :
  Forall value_byte l -> Forall cookie_ok cs ->
  skip_spaces (skip_item (l ++ more_text cs)) = header_text cs.
Proof.
  intros Hl Hcs. induction l as [|c l IH].
  - destruct cs as [|c cs]; [done|]. cbn. apply Forall_cons in Hcs as [(Hs & Hn & Hb & _) _].
    apply skip_spaces_app; [done|]. unfold pair_text. destruct (cname c) as [|x n]; [done|].
    apply Forall_cons in Hb as [(_ & _ & _ & Hx & _) _]. cbn. congruence.
  - apply Forall_cons in Hl as [(H1 & H2 & _) Hl]. cbn. apply Z.eqb_neq in H1, H2. rewrite H1, H2. auto.
Qed.

Lemma name_value_byte l : Forall name_byte l -> Forall value_byte l.
Proof. intros H. eapply Forall_impl; [exact H|]. unfold name_byte, value_byte. tauto. Qed.

Lemma up_to_semi_text v cs : Forall value_byte v -> up_to_semi (v ++ more_text cs) = v.
Proof.
  induction v as [|c v IH]; intros Hv; [by destruct cs|].
  apply Forall_cons in Hv as [(H & _) Hv]. apply Z.eqb_neq in H. cbn. rewrite H. by rewrite IH.
Qed.

(** A proper prefix of a name that begins a cookie's text is followed by a byte
    that is neither a space nor an equals sign, or is the name itself. *)
Lemma name_prefix (n name : list Z) rest :
  Forall name_byte n -> Forall name_byte name ->
  same_name (take (length name) (n ++ cEQ :: rest)) name ->
  same_name n name \/
  exists k x l, n = k ++ x :: l /\ length k = length name /\ name_byte x.
Proof.
  intros Hn Hname Hs. destruct (decide (length name < length n)%nat) as [Hlt|Hge].
  - right. destruct (lookup_lt_is_Some_2 n (length name) Hlt) as [x Hx].
    exists (take (length name) n), x, (drop (S (length name)) n).
    rewrite take_drop_middle by done. split; [done|]. split; [rewrite length_take; lia|].
    exact (Forall_lookup_1 _ _ _ _ Hn Hx).
  - left. destruct (decide (length name = length n)) as [E|].
    { rewrite E, take_app_length in Hs. done. }
    exfalso. unfold same_name in Hs. assert (Hin : (map ngx_tolower name) !! length n = Some cEQ).
    { rewrite <- Hs. change (map ngx_tolower) with (fmap (M := list) ngx_tolower).
      rewrite list_lookup_fmap, lookup_take_lt, list_lookup_middle by lia. done. }
    change (map ngx_tolower name) with (ngx_tolower <$> name) in Hin.
    rewrite list_lookup_fmap in Hin. destruct (name !! length n) as [y|] eqn:Ey; [|done].
    cbn in Hin. injection Hin as Hin. pose proof (Forall_lookup_1 _ _ _ _ Hname Ey) as (Hy & _).
    apply Hy. by apply ngx_tolower_inv in Hin; [|lia].
Qed.

(** One cookie of the header: its value if it has the name, else on to the next. *)
Lemma multi_loop_pair fuel name c cs :
  Forall name_byte name -> cookie_ok c -> Forall cookie_ok cs ->
  multi_loop (S fuel) true name (pair_text c ++ more_text cs) =
    if decide (same_name (cname c) name) then Some (Present (cvalue c))
    else multi_loop fuel true name (header_text cs).
Proof.
  intros Hname (Hs & Hn & Hnb & Hv & Hh) Hcs. unfold pair_text. rewrite <- app_assoc. cbn [app].
  assert (H0 : 0 ∉ name).
  { intros H. apply list_elem_of_lookup in H as [i Hi].
    pose proof (Forall_lookup_1 _ _ _ _ Hname Hi) as (_ & _ & _ & _ & ?). done. }
  assert (Hskip : forall l, Forall value_byte l ->
    multi_loop fuel true name (skip_spaces (skip_item (l ++ more_text cs)))
    = multi_loop fuel true name (header_text cs)) by (intros l Hl; by rewrite skip_item_text).
  assert (Heq : Forall value_byte (cEQ :: cvalue c)) by (apply Forall_cons; done).
  destruct (compare_spec name (cname c ++ cEQ :: cvalue c ++ more_text cs) H0) as (r & Er & Hr).
  cbn [multi_loop]. destruct (cname c ++ cEQ :: cvalue c ++ more_text cs) as [|x0 l0] eqn:El.
  { by destruct (cname c). }
  rewrite Er. cbn [mbind option_bind]. rewrite <- El in *. clear x0 l0 El Er.
  destruct (Z.eqb_spec r 0) as [E0|E0]; cbn [negb].
  - apply Hr in E0. destruct (name_prefix _ _ _ Hnb Hname E0) as [Hsame|(k & x & l & En & Hk & Hx)].
    + rewrite decide_True by done.
      assert (El : length name = length (cname c))
        by (apply (f_equal length) in Hsame; by rewrite !length_map in Hsame).
      rewrite El, drop_app_length. cbn [skip_spaces Z.eqb Pos.eqb negb].
      rewrite <- (app_nil_l (cvalue c ++ more_text cs)), skip_spaces_app; [by rewrite up_to_semi_text|done|].
      destruct (cvalue c); [|done]. by destruct cs.
    + rewrite decide_False.
      2:{ intros Hsame. apply (f_equal length) in Hsame. rewrite !length_map, En, length_app in Hsame.
          cbn in Hsame. lia. }
      rewrite En, <- Hk, <- app_assoc, drop_app_length. cbn [app].
      destruct Hx as (X1 & X2 & X3 & X4 & X5). cbn [skip_spaces].
      apply Z.eqb_neq in X1, X4. rewrite X4, X1. cbn [negb].
      change (cEQ :: cvalue c ++ more_text cs) with ((cEQ :: cvalue c) ++ more_text cs).
      rewrite app_assoc. apply Hskip. apply Forall_app. split; [|done].
      apply name_value_byte. rewrite En, Forall_app in Hnb. destruct Hnb as [_ Hnb].
      by apply Forall_cons in Hnb as [_ ?].
  - rewrite decide_False.
    2:{ intros Hsame. apply E0, Hr. assert (El : length name = length (cname c))
          by (apply (f_equal length) in Hsame; by rewrite !length_map in Hsame).
        by rewrite El, take_app_length. }
    change (cEQ :: cvalue c ++ more_text cs) with ((cEQ :: cvalue c) ++ more_text cs).
    rewrite app_assoc. apply Hskip. apply Forall_app. split; [by apply name_value_byte|done].
Qed.

Lemma multi_loop_header name : forall cs fuel,
  Forall name_byte name -> Forall cookie_ok cs -> (length cs < fuel)%nat ->
  multi_loop fuel true name (header_text cs) = Some (find_cookie name cs).
Proof.
  induction cs as [|c cs IH]; intros fuel Hn Hcs Hf; destruct fuel as [|fuel]; cbn [length] in Hf; try lia.
  - done.
  - apply Forall_cons in Hcs as [Hc Hcs]. cbn [header_text find_cookie].
    rewrite multi_loop_pair by done. case_decide; [done|]. apply IH; [done|done|lia].
Qed.

Lemma header_text_length cs : Forall cookie_ok cs -> (length cs <= length (header_text cs))%nat.
Proof.
  assert (H : forall cs, (length cs <= length (more_text cs))%nat).
  { clear cs. induction cs as [|c cs IH]; cbn; [lia|]. rewrite !length_app. lia. }
  destruct cs as [|c cs]; cbn; [lia|]. intros _. specialize (H cs).
  unfold pair_text. rewrite !length_app. cbn. lia.
Qed.

Lemma find_cookie_short name cs :
  (length (header_text cs) < length name)%nat -> find_cookie name cs = Absent.
Proof.
  assert (H : forall cs, (length (more_text cs) < length name)%nat -> find_cookie name cs = Absent).
  { clear cs. induction cs as [|c cs IH]; cbn; [done|]. unfold pair_text. rewrite !length_app. cbn.
    intros Hl. rewrite decide_False.
    - apply IH. lia.
    - intros Hs. apply (f_equal length) in Hs. rewrite !length_map in Hs. lia. }
  destruct cs as [|c cs]; cbn; [done|]. unfold pair_text. rewrite !length_app. cbn. intros Hl.
  rewrite decide_False; [apply H; lia|].
  intros Hs. apply (f_equal length) in Hs. rewrite !length_map in Hs. lia.
Qed.

(** The specification over several headers. *)
Fixpoint find_header (i : Z) (name : list Z) (hs : list (list cookie)) : Z * list Z :=
  match hs with
  | [] => (NGX_DECLINED, [])
  | cs :: hs' =>
      match find_cookie name cs with
      | Present v => (i, v)
      | Absent => find_header (i + 1) name hs'
      end
  end.

(** In headers of the form [n1=v1; n2=v2; ...] the lookup finds the first cookie
    whose name is the given one up to case, in the first header that has it, and
    returns its whole value; it declines when no header has it. *)
Theorem multi_header_lookup hs name :
  Forall name_byte name -> Forall (Forall cookie_ok) hs ->
  ngx_http_parse_multi_header_lines (map header_text hs) name true = Some (find_header 0 name hs).
Proof.
  intros Hn. unfold ngx_http_parse_multi_header_lines. generalize 0 as i.
  induction hs as [|cs hs IH]; intros i Hhs; [done|]. apply Forall_cons in Hhs as [Hcs Hhs].
  cbn [map multi_headers find_header]. destruct (Nat.ltb_spec (length (header_text cs)) (length name)).
  - rewrite find_cookie_short by done. by apply IH.
  - rewrite multi_loop_header by (try done; pose proof (header_text_length cs Hcs); lia).
    cbn [mbind option_bind]. destruct (find_cookie name cs); [by apply IH|done].
Qed.

Definition sample_cookies : list (list cookie) :=
  [[mkCookie [] (lit "abc") (lit "1"); mkCookie [cSP] (lit "ab") (lit "2 3")];
   [mkCookie [] (lit "b") (lit "4")]].

Lemma multi_header_lookup_witness :
  ngx_http_parse_multi_header_lines (map header_text sample_cookies) (lit "AB") true
    = Some (0, lit "2 3").
Proof.
  apply (multi_header_lookup sample_cookies (lit "AB")).
  - by apply (bool_decide_unpack _).
  - apply Forall_cons. split; [apply Forall_cons; split; [|apply Forall_singleton]|
      apply Forall_singleton, Forall_singleton];
      (split; [by apply (bool_decide_unpack _)|]); (split; [done|]);
      (split; [by apply (bool_decide_unpack _)|]); (split; [by apply (bool_decide_unpack _)|done]).
Defined.

(** A name that the header has without a value hides a later cookie of that name:
    the byte after the name is passed over before the end of the item is looked
    for, so that a semicolon right there is missed. *)
Theorem multi_header_misses_item :
  ngx_http_parse_multi_header_lines [lit "a;a=1"] (lit "a") true = Some (NGX_DECLINED, [])
  /\ ngx_http_parse_multi_header_lines [lit "b;a=1"] (lit "a") true = Some (0, lit "1").
Proof. split; vm_compute; reflexivity. Qed.

(** Without a value to look for, or on headers of any form, the lookup still
    ends: there is no input it does not terminate on. *)
Theorem multi_header_total headers name want :
  0 ∉ name -> name <> [] ->
  exists c v, ngx_http_parse_multi_header_lines headers name want = Some (c, v).
Proof.
  intros H0 Hne. unfold ngx_http_parse_multi_header_lines. generalize 0 as i.
  induction headers as [|h headers IH]; intros i; cbn [multi_headers]; [by eexists _, _|].
  case_test; [apply IH|]. destruct (multi_loop_total want name (S (length h)) h H0 Hne ltac:(lia)) as [r ->].
  cbn [mbind option_bind]. destruct r; [apply IH|by eexists _, _].
Qed.

Lemma multi_header_total_witness :
  exists c v, ngx_http_parse_multi_header_lines [lit "x, y=;z"] (lit "y") false = Some (c, v).
Proof. apply multi_header_total; [by apply (bool_decide_unpack _)|done]. Defined.

(** ** Set-Cookie *)

(** A Set-Cookie header: a cookie and its attributes. *)
Definition set_cookie_text (c : cookie) (attrs : list Z) : list Z := pair_text c ++ attrs.

(** The specification: the first header whose cookie has the name. *)
Fixpoint find_set_cookie (i : Z) (name : list Z) (hs : list (cookie * list Z)) : Z * list Z :=
  match hs with
  | [] => (NGX_DECLINED, [])
  | (c, _) :: hs' =>
      if decide (same_name (cname c) name) then (i, cvalue c) else find_set_cookie (i + 1) name hs'
  end.

Lemma up_to_semi_attrs v attrs :
  Forall value_byte v -> attrs = [] \/ head attrs = Some cSEMI -> up_to_semi (v ++ attrs) = v.
Proof.
  intros Hv Ha. induction v as [|c v IH].
  - destruct Ha as [-> |Ha]; [done|]. destruct attrs as [|x attrs]; [done|]. by injection Ha as ->.
  - apply Forall_cons in Hv as [(H & _) Hv]. apply Z.eqb_neq in H. cbn. rewrite H. by rewrite IH.
Qed.

(** In headers of the form [name=value; attributes] the lookup finds the first
    header whose cookie has the given name up to case, with its whole value. *)
Theorem set_cookie_lookup hs name :
  Forall name_byte name ->
  Forall (fun h => cookie_ok h.1 /\ (h.2 = [] \/ head h.2 = Some cSEMI)) hs ->
  ngx_http_parse_set_cookie_lines (map (fun h => set_cookie_text h.1 h.2) hs) name
    = Some (find_set_cookie 0 name hs).
Proof.
  intros Hname. unfold ngx_http_parse_set_cookie_lines. generalize 0 as i.
  assert (H0 : 0 ∉ name).
  { intros H. apply list_elem_of_lookup in H as [i Hi].
    pose proof (Forall_lookup_1 _ _ _ _ Hname Hi) as (_ & _ & _ & _ & ?). done. }
  induction hs as [|[c attrs] hs IH]; intros i Hhs; [done|].
  apply Forall_cons in Hhs as [[(_ & _ & Hnb & Hv & Hh) Ha] Hhs]. cbn [fst snd] in *.
  cbn [map set_cookie_headers find_set_cookie fst snd]. rewrite IH by done.
  unfold set_cookie_text, pair_text. rewrite <- app_assoc. cbn [app].
  set (s := cname c ++ cEQ :: cvalue c ++ attrs).
  assert (Hlen : same_name (cname c) name -> length name = length (cname c))
    by (intros Hs; apply (f_equal length) in Hs; by rewrite !length_map in Hs).
  assert (Hsl : length s = S (length (cname c) + length (cvalue c ++ attrs)))
    by (unfold s; rewrite length_app; cbn; lia).
  destruct (Nat.leb_spec (length s) (length name)).
  { rewrite decide_False; [done|]. intros Hs. apply Hlen in Hs. lia. }
  destruct (compare_spec name s H0) as (r & -> & Hr). cbn [mbind option_bind].
  destruct (Z.eqb_spec r 0) as [E0|E0]; cbn [negb].
  2:{ rewrite decide_False; [done|]. intros Hs. apply E0, Hr. unfold s.
      by rewrite (Hlen Hs), take_app_length. }
  apply Hr in E0. destruct (name_prefix _ _ _ Hnb Hname E0) as [Hsame|(k & x & l & En & Hk & Hx)].
  - rewrite decide_True by done. unfold s. rewrite (Hlen Hsame), drop_app_length.
    cbn [skip_spaces Z.eqb Pos.eqb negb]. rewrite <- (app_nil_l (cvalue c ++ attrs)), skip_spaces_app;
      [by rewrite up_to_semi_attrs|done|].
    destruct (cvalue c) as [|y v]; [|done]. cbn. destruct Ha as [-> | ->]; done.
  - rewrite decide_False.
    2:{ intros Hs. apply Hlen in Hs. rewrite En, length_app in Hs. cbn in Hs. lia. }
    unfold s. rewrite En, <- Hk, <- app_assoc, drop_app_length. cbn [app skip_spaces].
    destruct Hx as (X1 & _ & _ & X4 & _). apply Z.eqb_neq in X1, X4. by rewrite X4, X1.
Qed.

Lemma set_cookie_lookup_witness :
  ngx_http_parse_set_cookie_lines
    (map (fun h => set_cookie_text h.1 h.2)
       [(mkCookie [] (lit "ab") (lit "1"), lit "; path=/"); (mkCookie [] (lit "a") (lit "2"), lit "; x")])
    (lit "A") = Some (1, lit "2").
Proof.
  apply (set_cookie_lookup [(mkCookie [] (lit "ab") (lit "1"), lit "; path=/");
    (mkCookie [] (lit "a") (lit "2"), lit "; x")] (lit "A")).
  - by apply (bool_decide_unpack _).
  - apply Forall_cons; split; [|apply Forall_singleton]; (split; [|by right]);
      (split; [by apply (bool_decide_unpack _)|]); (split; [done|]);
      (split; [by apply (bool_decide_unpack _)|]); (split; [by apply (bool_decide_unpack _)|done]).
Defined.

End Cookies.
