(* ===== verification/HttpChunked.v ===== *)
(** * The chunked transfer coding

    [ngx_http_parse_chunked] of src/nginx-1.7.2/src/http/ngx_http_parse.c: the
    parser of chunk headers and trailers, which hands the data of a chunk to its
    caller and keeps in [ctx->size] what is left of it. *)

From S2P Require Import Prelude NgxNumber ByteMachine.

Module Chunked.

Inductive ck_state :=
  | sw_chunk_start | sw_chunk_size | sw_chunk_extension | sw_chunk_extension_almost_done
  | sw_chunk_data | sw_after_data | sw_after_data_almost_done | sw_last_chunk_extension
  | sw_last_chunk_extension_almost_done | sw_trailer | sw_trailer_almost_done
  | sw_trailer_header | sw_trailer_header_almost_done.

#[export] Instance ck_state_eq_dec : EqDecision ck_state.
Proof. solve_decision. Defined.

(** [ngx_http_chunked_t]; [size] and [length] are [off_t], of 64 bits. *)
Record chunked := mkChunked { state : ck_state; size : Z; length_ : Z }.

Inductive ck_exit := Data | Done | Invalid.

(** The local [state] and [ctx->size]. *)
Definition ck_st : Type := ck_state * Z.
Definition ck_action : Type := action ck_st ck_exit.

(** The value of a hexadecimal digit, as the two tests of the parser find it. *)
Definition chunk_digit (ch : Z) : option Z :=
  if c_0 <=? ch <=? c_9 then Some (ch - c_0)
  else
    let c := uint 8 (Z.lor ch 32) in
    if ca <=? c <=? cf then Some (c - ca + 10) else None.

Definition case_chunk_size (ch : Z) (size : Z) : ck_action :=
  match chunk_digit ch with
  | Some d => Continue (sw_chunk_size, sint 64 (size * 16 + d))
  | None =>
      if size =? 0 then
        if ch =? cCR then Continue (sw_last_chunk_extension_almost_done, size)
        else if ch =? cLF then Continue (sw_trailer, size)
        else if (ch =? cSEMI) || (ch =? cSP) || (ch =? cHT)
        then Continue (sw_last_chunk_extension, size)
        else Leave Invalid (sw_chunk_size, size)
      else if ch =? cCR then Continue (sw_chunk_extension_almost_done, size)
      else if ch =? cLF then Continue (sw_chunk_data, size)
      else if (ch =? cSEMI) || (ch =? cSP) || (ch =? cHT) then Continue (sw_chunk_extension, size)
      else Leave Invalid (sw_chunk_size, size)
  end.

(** The states that skip to a line end: [cr] after a CR, [lf] after an LF. *)
Definition skip_to_eol (st cr lf : ck_state) (ch size : Z) : ck_action :=
  if ch =? cCR then Continue (cr, size) else if ch =? cLF then Continue (lf, size)
  else Continue (st, size).

(** The states between a CR and its LF. *)
Definition want_lf (st next : ck_state) (ch size : Z) : ck_action :=
  if ch =? cLF then Continue (next, size) else Leave Invalid (st, size).

(** The switch. *)
Definition ck_step (buf : list Z) (p : nat) (ch : Z) (s : ck_st) : ck_action :=
  let '(st, size) := s in
  match st with
  | sw_chunk_start =>
      match chunk_digit ch with
      | Some d => Continue (sw_chunk_size, d)
      | None => Leave Invalid s
      end
  | sw_chunk_size => case_chunk_size ch size
  | sw_chunk_extension => skip_to_eol st sw_chunk_extension_almost_done sw_chunk_data ch size
  | sw_chunk_extension_almost_done => want_lf st sw_chunk_data ch size
  | sw_chunk_data => Leave Data s
  | sw_after_data => skip_to_eol st sw_after_data_almost_done sw_chunk_start ch size
  | sw_after_data_almost_done => want_lf st sw_chunk_start ch size
  | sw_last_chunk_extension => skip_to_eol st sw_last_chunk_extension_almost_done sw_trailer ch size
  | sw_last_chunk_extension_almost_done => want_lf st sw_trailer ch size
  | sw_trailer =>
      if ch =? cCR then Continue (sw_trailer_almost_done, size)
      else if ch =? cLF then Leave Done s
      else Continue (sw_trailer_header, size)
  | sw_trailer_almost_done => if ch =? cLF then Leave Done s else Leave Invalid s
  | sw_trailer_header => skip_to_eol st sw_trailer_header_almost_done sw_trailer ch size
  | sw_trailer_header_almost_done => want_lf st sw_trailer ch size
  end.

(** The switch after [data:], which sets [ctx->length]. *)
Definition chunked_length (st : ck_state) (size : Z) : Z :=
  match st with
  | sw_chunk_start => 3
  | sw_chunk_size => sint 64 (1 + (if size =? 0 then 1 else size + 4))
  | sw_chunk_extension | sw_chunk_extension_almost_done => sint 64 (1 + size + 4)
  | sw_chunk_data => sint 64 (size + 4)
  | sw_after_data | sw_after_data_almost_done => 4
  | sw_last_chunk_extension | sw_last_chunk_extension_almost_done => 2
  | sw_trailer | sw_trailer_almost_done => 1
  | sw_trailer_header | sw_trailer_header_almost_done => 2
  end.

(** [data:] with the code [rc]. *)
Definition at_data (rc : Z) (st : ck_state) (size : Z) (pos : nat) : Z * chunked * nat :=
  let len := chunked_length st size in
  if (size <? 0) || (len <? 0) then (NGX_ERROR, mkChunked st size len, pos)
  else (rc, mkChunked st size len, pos).

(** The whole function: the return code, [ctx] and [b->pos]. *)
Definition ngx_http_parse_chunked (ctx : chunked) (buf : list Z) (pos : nat) :
    option (Z * chunked * nat) :=
  let st :=
    if bool_decide (state ctx = sw_chunk_data) && (size ctx =? 0) then sw_after_data
    else state ctx in
  match go ck_step buf pos (st, size ctx) with
  | Ended (st', size') p => Some (at_data NGX_AGAIN st' size' p)
  | Left Data (st', size') p => Some (at_data NGX_OK st' size' p)
  | Left Done (_, size') p => Some (NGX_DONE, mkChunked sw_chunk_start size' (length_ ctx), S p)
  | Left Invalid (_, size') _ => Some (NGX_ERROR, mkChunked (state ctx) size' (length_ ctx), pos)
  | NoFuel => None
  end.

(** ** The machine *)

Definition ck_rank (s : ck_st) : nat := 0.

Lemma ck_no_rescan buf p ch s s' : ck_step buf p ch s <> Rescan s'.
Proof.
  destruct s as [st z]. destruct st; cbn [ck_step]; unfold case_chunk_size, skip_to_eol, want_lf;
    try destruct (chunk_digit ch); repeat case_test; done.
Qed.

#[export] Instance ck_machine : Machine ck_step ck_rank.
Proof.
  split.
  - intros. unfold ck_rank. lia.
  - intros buf p ch s s' E. by apply ck_no_rescan in E.
  - done.
Qed.

End Chunked.
