(* ===== verification/HttpBody.v ===== *)
(** * Reading a request body

    The body filters of src/nginx-1.7.2/src/http/ngx_http_request_body.c: the one
    for a body of known length, the one for a chunked body (on top of
    [ngx_http_parse_chunked]), the filter that discards a body, and
    [ngx_http_request_body_save_filter], which appends what they let through to
    [rb->bufs].  An input buffer is its bytes up to [last] and its [pos]; memory
    allocation succeeds. *)

From S2P Require Import Prelude NgxNumber ByteMachine HttpChunked.

Import Chunked.

Module Body.

(** A buffer the filters pass on: the bytes from its [pos] to its [last], and
    [last_buf]. *)
Record out_buf := mkOut { bytes : list Z; last_buf : bool }.

(** A buffer of the input chain. *)
Record in_buf := mkIn { mem : list Z; pos : nat }.

(** The request body: [rb->chunked], [rb->rest], [rb->bufs], and
    [r->headers_in.content_length_n]. *)
Record body := mkBody {
  ctx : chunked; rest : Z; bufs : list out_buf; content_length_n : Z
}.

Definition NGX_HTTP_BAD_REQUEST : Z := 400.
Definition NGX_HTTP_REQUEST_ENTITY_TOO_LARGE : Z := 413.

Definition slice (buf : list Z) (a b : nat) : list Z := take (b - a) (drop a buf).

(** The inner loop of [ngx_http_request_body_chunked_filter] on one buffer:
    the code, and [rb->chunked], [content_length_n], [rb->rest], [cl->buf->pos]
    and [out] when it is left. *)
Record filt := mkFilt {
  f_ctx : chunked; f_length : Z; f_rest : Z; f_pos : nat; f_out : list out_buf
}.

Fixpoint chunked_loop (fuel : nat) (client_max_body_size : Z) (buf : list Z) (f : filt) :
    option (Z * filt) :=
  match fuel with
  | O => None
  | S fuel' =>
      '(rc, c, p) ← ngx_http_parse_chunked (f_ctx f) buf (f_pos f);
      if rc =? NGX_OK then
        if negb (client_max_body_size =? 0)
           && (client_max_body_size - f_length f <? size c)
        then Some (NGX_HTTP_REQUEST_ENTITY_TOO_LARGE,
                   mkFilt c (f_length f) (f_rest f) p (f_out f))
        else
          let n := Z.of_nat (length buf - p) in
          if size c <? n then
            let p' := (p + Z.to_nat (size c))%nat in
            chunked_loop fuel' client_max_body_size buf
              (mkFilt (mkChunked (state c) 0 (length_ c)) (f_length f + size c) (f_rest f) p'
                 (f_out f ++ [mkOut (slice buf p p') false]))
          else
            chunked_loop fuel' client_max_body_size buf
              (mkFilt (mkChunked (state c) (size c - n) (length_ c)) (f_length f + n) (f_rest f)
                 (length buf) (f_out f ++ [mkOut (slice buf p (length buf)) false]))
      else if rc =? NGX_DONE then
        Some (NGX_OK, mkFilt c (f_length f) 0 p (f_out f ++ [mkOut [] true]))
      else if rc =? NGX_AGAIN then
        Some (NGX_OK, mkFilt c (f_length f) (length_ c) p (f_out f))
      else Some (NGX_HTTP_BAD_REQUEST, mkFilt c (f_length f) (f_rest f) p (f_out f))
  end.

(** One turn of the loop takes at least one byte of the buffer, but for the last. *)
Definition chunked_fuel (buf : list Z) : nat := S (S (length buf)).

(** The loop over the chain: the input buffers with their new [pos], in order. *)
Fixpoint chunked_chain (client_max_body_size : Z) (input : list in_buf) (f : filt) :
    option (Z * list in_buf * filt) :=
  match input with
  | [] => Some (NGX_OK, [], f)
  | b :: input' =>
      '(rc, f1) ← chunked_loop (chunked_fuel (mem b)) client_max_body_size (mem b)
                    (mkFilt (f_ctx f) (f_length f) (f_rest f) (pos b) (f_out f));
      let b1 := mkIn (mem b) (f_pos f1) in
      if rc =? NGX_OK then
        '(rc2, input2, f2) ← chunked_chain client_max_body_size input' f1;
        Some (rc2, b1 :: input2, f2)
      else Some (rc, b1 :: input', f1)
  end.

Definition ngx_http_request_body_save_filter (b : body) (out : list out_buf) : body :=
  mkBody (ctx b) (rest b) (bufs b ++ out) (content_length_n b).

Definition ngx_http_request_body_chunked_filter (client_max_body_size : Z) (b : body)
    (input : list in_buf) : option (Z * list in_buf * body) :=
  let b :=
    if rest b =? -1 then mkBody (mkChunked sw_chunk_start 0 0) 3 (bufs b) 0 else b in
  '(rc, input', f) ← chunked_chain client_max_body_size input
                       (mkFilt (ctx b) (content_length_n b) (rest b) 0 []);
  let b' := mkBody (f_ctx f) (f_rest f) (bufs b) (f_length f) in
  if rc =? NGX_OK then Some (NGX_OK, input', ngx_http_request_body_save_filter b' (f_out f))
  else Some (rc, input', b').

(** The loop of the content length filter. *)
Fixpoint length_chain (input : list in_buf) (rest : Z) : list in_buf * Z * list out_buf :=
  match input with
  | [] => ([], rest, [])
  | b :: input' =>
      if rest =? 0 then (input, rest, [])
      else
        let n := Z.of_nat (length (mem b) - pos b) in
        let '(b', rest', o) :=
          if n <? rest then
            (mkIn (mem b) (length (mem b)), rest - n,
             mkOut (slice (mem b) (pos b) (length (mem b))) false)
          else
            let p := (pos b + Z.to_nat rest)%nat in
            (mkIn (mem b) p, 0, mkOut (slice (mem b) (pos b) p) true) in
        let '(input2, rest2, out) := length_chain input' rest' in
        (b' :: input2, rest2, o :: out)
  end.

Definition ngx_http_request_body_length_filter (b : body) (input : list in_buf) :
    Z * list in_buf * body :=
  let rest := if rest b =? -1 then content_length_n b else rest b in
  let '(input', rest', out) := length_chain input rest in
  (NGX_OK, input',
   ngx_http_request_body_save_filter (mkBody (ctx b) rest' (bufs b) (content_length_n b)) out).

Definition ngx_http_request_body_filter (chunked : bool) (client_max_body_size : Z) (b : body)
    (input : list in_buf) : option (Z * list in_buf * body) :=
  if chunked then ngx_http_request_body_chunked_filter client_max_body_size b input
  else Some (ngx_http_request_body_length_filter b input).

(** [ngx_http_discard_request_body_filter]: the loop for a chunked body gives the
    code, [rb->chunked], [content_length_n] and [b->pos]. *)
Fixpoint discard_loop (fuel : nat) (buf : list Z) (c : chunked) (cl : Z) (p : nat) :
    option (Z * chunked * Z * nat) :=
  match fuel with
  | O => None
  | S fuel' =>
      '(rc, c, p) ← ngx_http_parse_chunked c buf p;
      if rc =? NGX_OK then
        let n := Z.of_nat (length buf - p) in
        if size c <? n then
          discard_loop fuel' buf (mkChunked (state c) 0 (length_ c)) cl (p + Z.to_nat (size c))
        else
          discard_loop fuel' buf (mkChunked (state c) (size c - n) (length_ c)) cl (length buf)
      else if rc =? NGX_DONE then Some (NGX_OK, c, 0, p)
      else if rc =? NGX_AGAIN then Some (NGX_OK, c, length_ c, p)
      else Some (NGX_HTTP_BAD_REQUEST, c, cl, p)
  end.

(** [rb] is [None] while the request has no body structure. *)
Definition ngx_http_discard_request_body_filter (chunked_ : bool) (rb : option chunked) (cl : Z)
    (b : in_buf) : option (Z * option chunked * Z * nat) :=
  if chunked_ then
    let c := match rb with None => mkChunked sw_chunk_start 0 0 | Some c => c end in
    '(rc, c, cl, p) ← discard_loop (chunked_fuel (mem b)) (mem b) c cl (pos b);
    Some (rc, Some c, cl, p)
  else
    let n := Z.of_nat (length (mem b) - pos b) in
    if cl <? n then Some (NGX_OK, rb, 0, (pos b + Z.to_nat cl)%nat)
    else Some (NGX_OK, rb, cl - n, length (mem b)).

(** ** Specification: decoding one byte at a time *)

(** How the decoder stands when the bytes are used up, or why it stopped before.
    [DOverflow] is a chunk size of 2^62 or more. *)
Inductive dres :=
  | DMore (st : ck_state) (size cl : Z)
  | DDone (cl : Z) (unread : list Z)
  | DBad
  | DTooLarge
  | DOverflow.

Definition size_overflows (st : ck_state) (size ch : Z) : bool :=
  match st, chunk_digit ch with sw_chunk_size, Some _ => 2 ^ 58 <=? size | _, _ => false end.

(** The data decoded and the end; [cl] counts the data bytes. *)
Fixpoint decode (max : Z) (st : ck_state) (size cl : Z) (l : list Z) : list Z * dres :=
  match l with
  | [] => ([], DMore st size cl)
  | ch :: l' =>
      if bool_decide (st = sw_chunk_data) then
        if negb (max =? 0) && (max - cl <? size) then ([], DTooLarge)
        else
          let '(o, r) :=
            decode max (if size =? 1 then sw_after_data else sw_chunk_data) (size - 1) (cl + 1) l' in
          (ch :: o, r)
      else if size_overflows st size ch then ([], DOverflow)
      else
        match ck_step [] 0 ch (st, size) with
        | Continue (st', size') | Rescan (st', size') => decode max st' size' cl l'
        | Leave Done _ => ([], DDone cl l')
        | Leave _ _ => ([], DBad)
        end
  end.

(** Decoding may stop anywhere and go on later. *)
Lemma decode_app max a b : forall st size cl,
  decode max st size cl (a ++ b) =
    match decode max st size cl a with
    | (o, DMore st' size' cl') => let '(o2, r) := decode max st' size' cl' b in (o ++ o2, r)
    | (o, DDone cl' u) => (o, DDone cl' (u ++ b))
    | x => x
    end.
Proof.
  induction a as [|ch a IH]; intros st size cl.
  - cbn [app decode]. by destruct (decode _ _ _ _ b).
  - cbn [app decode]. repeat case_test; try done.
    + rewrite IH. destruct (decode _ _ _ _ a) as [o []]; try done. by destruct (decode _ _ _ _ b).
    + rewrite IH. destruct (decode _ _ _ _ a) as [o []]; try done. by destruct (decode _ _ _ _ b).
    + destruct (ck_step [] 0 ch (st, size)) as [[]|[]|[]]; by rewrite ?IH.
Qed.

(** Sizes in range, and a size that is not zero where data is to follow. *)
Definition ck_ok (st : ck_state) (size : Z) : Prop :=
  0 <= size < 2 ^ 62 /\
  match st with
  | sw_chunk_extension | sw_chunk_extension_almost_done | sw_chunk_data => 0 < size
  | _ => True
  end.

Lemma chunk_digit_range ch d : chunk_digit ch = Some d -> 0 <= d < 16.
Proof. unfold chunk_digit. repeat case_test; intros; simplify_eq; lia. Qed.

Lemma ck_ok_step ch st size st' size' :
  ck_ok st size -> size_overflows st size ch = false ->
  ck_step [] 0 ch (st, size) = Continue (st', size') -> ck_ok st' size'.
Proof.
  intros [Hs Hst] Ho E. unfold size_overflows in Ho.
  destruct st; cbn [ck_step] in E; unfold case_chunk_size, skip_to_eol, want_lf in E;
    try destruct (chunk_digit ch) as [d|] eqn:Ed; try apply chunk_digit_range in Ed as Hd;
    repeat case_test_in E; simplify_eq; unfold ck_ok; try lia.
  rewrite sint_small by lia. lia.
Qed.

(** The data of a chunk is taken as one piece. *)
Lemma decode_data max size cl l :
  0 < size -> (negb (max =? 0) && (max - cl <? size)) = false ->
  decode max sw_chunk_data size cl l =
    if size <? Z.of_nat (length l) then
      let k := Z.to_nat size in
      let '(o, r) := decode max sw_after_data 0 (cl + size) (drop k l) in (take k l ++ o, r)
    else
      let n := Z.of_nat (length l) in
      (l, DMore (if size =? n then sw_after_data else sw_chunk_data) (size - n) (cl + n)).
Proof.
  revert size cl. induction l as [|ch l IH]; intros size cl Hs Hm.
  - cbn [decode length]. change (Z.of_nat 0) with 0. destruct (Z.ltb_spec size 0); [lia|].
    destruct (Z.eqb_spec size 0); [lia|]. cbv zeta. by rewrite Z.sub_0_r, Z.add_0_r.
  - cbn [decode]. rewrite bool_decide_true, Hm by done. cbn [length].
    destruct (Z.eqb_spec size 1) as [->|].
    + destruct (Z.ltb_spec 1 (Z.of_nat (S (length l)))).
      * cbv zeta. change (Z.to_nat 1) with 1%nat. cbn [take drop]. change (1 - 1) with 0.
        rewrite take_0, drop_0. by destruct (decode _ _ _ _ l).
      * destruct l; [|simpl in *; lia]. done.
    + rewrite IH by lia. replace (Z.to_nat size) with (S (Z.to_nat (size - 1))) by lia.
      cbn [take drop]. replace (cl + 1 + (size - 1)) with (cl + size) by lia.
      destruct (Z.ltb_spec (size - 1) (Z.of_nat (length l))), (Z.ltb_spec size (Z.of_nat (S (length l))));
        try lia; cbv zeta.
      * by destruct (decode _ _ _ _ (drop _ l)).
      * do 2 f_equal; try lia. 
        destruct (Z.eqb_spec (size - 1) (Z.of_nat (length l))), (Z.eqb_spec size (Z.of_nat (S (length l))));
          try done; lia.
Qed.

(** ** The filter decodes *)

(** What [ngx_http_parse_chunked]'s loop means to the decoder. *)
Definition go_means (max cl : Z) (k0 : nat) (st : ck_state) (size : Z) (l : list Z)
    (o : outcome ck_st ck_exit) : Prop :=
  match o with
  | Ended (st', size') p =>
      p = (k0 + length l)%nat /\ ck_ok st' size' /\ decode max st size cl l = ([], DMore st' size' cl)
  | Left Data (st', size') p =>
      exists k, p = (k0 + k)%nat /\ (k < length l)%nat /\ st' = sw_chunk_data /\ ck_ok st' size'
        /\ decode max st size cl l = decode max sw_chunk_data size' cl (drop k l)
  | Left Done _ p =>
      exists k, p = (k0 + k)%nat /\ (k < length l)%nat
        /\ decode max st size cl l = ([], DDone cl (drop (S k) l))
  | Left Invalid _ _ => decode max st size cl l = ([], DBad)
  | NoFuel => False
  end.

Lemma go_decode max cl l : forall pre st size,
  ck_ok st size -> snd (decode max st size cl l) <> DOverflow ->
  go_means max cl (length pre) st size l (go ck_step (pre ++ l) (length pre) (st, size)).
Proof.
  induction l as [|ch l IH]; intros pre st size Hok Hov.
  - rewrite (go_step ck_step ck_rank), app_nil_r, (proj2 (lookup_ge_None _ _)) by done.
    cbn. split; [lia|done].
  - rewrite (go_cons ck_step ck_rank). cbn [decode] in *.
    change (ck_step (pre ++ ch :: l) (length pre) ch (st, size)) with (ck_step [] 0 ch (st, size)).
    case_bool_decide as Hst.
    { subst st. exists 0%nat. rewrite drop_0. split; [lia|]. split; [cbn; lia|]. done. }
    destruct (size_overflows st size ch) eqn:Eo; [done|].
    destruct (ck_step [] 0 ch (st, size)) as [[st' size']|s'|x [st' size']] eqn:E.
    + pose proof (ck_ok_step _ _ _ _ _ Hok Eo E) as Hok'.
      specialize (IH (pre ++ [ch]) st' size' Hok' Hov). rewrite length_app in *. cbn [length] in *.
      unfold go_means in *. cbn [decode]. rewrite bool_decide_false, Eo, E by done.
      destruct (go ck_step _ _ _) as [[st2 size2] p|[] [st2 size2] p|]; [..|done].
      * destruct IH as (-> & ? & ?). split; [cbn [length]; lia|done].
      * destruct IH as (k & -> & ? & ?). exists (S k). cbn [length drop]. split; [lia|]. split; [lia|done].
      * destruct IH as (k & -> & ? & ?). exists (S k). cbn [length drop]. repeat split; auto; lia.
      * done.
    + by apply ck_no_rescan in E.
    + unfold go_means. cbn [decode]. rewrite bool_decide_false, Eo, E by done. destruct x.
      * destruct st; try done; exfalso; cbn [ck_step] in E;
          unfold case_chunk_size, skip_to_eol, want_lf in E;
          try destruct (chunk_digit ch); repeat case_test_in E; discriminate E.
      * exists 0%nat. cbn. rewrite drop_0. repeat split; lia.
      * done.
Qed.

(** [ctx->state] as the parser takes it on entry. *)
Definition entry_state (c : chunked) : ck_state :=
  if bool_decide (state c = sw_chunk_data) && (size c =? 0) then sw_after_data else state c.

Definition ctx_ok (c : chunked) : Prop := ck_ok (entry_state c) (size c).

(** The bytes still to come at least. *)
Definition need (st : ck_state) (size : Z) : Z :=
  match st with
  | sw_chunk_start => 3
  | sw_chunk_size => if size =? 0 then 2 else size + 5
  | sw_chunk_extension | sw_chunk_extension_almost_done => size + 5
  | sw_chunk_data => size + 4
  | sw_after_data | sw_after_data_almost_done => 4
  | sw_last_chunk_extension | sw_last_chunk_extension_almost_done => 2
  | sw_trailer | sw_trailer_almost_done => 1
  | sw_trailer_header | sw_trailer_header_almost_done => 2
  end.

Lemma at_data_ok rc st size p :
  ck_ok st size -> at_data rc st size p = (rc, mkChunked st size (need st size), p).
Proof.
  intros [Hs _]. unfold at_data.
  assert (E : chunked_length st size = need st size).
  { destruct st; cbn; try done; try case_test; rewrite sint_small; lia. }
  rewrite E. destruct (Z.ltb_spec size 0); [lia|].
  destruct (Z.ltb_spec (need st size) 0); [|done].
  destruct st; cbn in *; try lia. case_test_in H0; lia.
Qed.

Definition flat (out : list out_buf) : list Z := concat (map bytes out).

Lemma flat_snoc out b : flat (out ++ [b]) = flat out ++ bytes b.
Proof. unfold flat. rewrite map_app, concat_app. cbn. by rewrite app_nil_r. Qed.

(** The result of the loop on one buffer, against that of the decoder. *)
Definition loop_means (buf : list Z) (f : filt) (o : list Z) (r : dres) (x : option (Z * filt)) :
    Prop :=
  exists rc f', x = Some (rc, f') /\
  match r with
  | DMore st size cl =>
      rc = NGX_OK /\ f_ctx f' = mkChunked st size (need st size) /\ f_length f' = cl
      /\ f_rest f' = need st size /\ f_pos f' = length buf /\ flat (f_out f') = flat (f_out f) ++ o
      /\ ck_ok st size
  | DDone cl u =>
      rc = NGX_OK /\ state (f_ctx f') = sw_chunk_start /\ f_length f' = cl /\ f_rest f' = 0
      /\ drop (f_pos f') buf = u /\ flat (f_out f') = flat (f_out f) ++ o
      /\ last (f_out f') = Some (mkOut [] true)
  | DBad => rc = NGX_HTTP_BAD_REQUEST
  | DTooLarge => rc = NGX_HTTP_REQUEST_ENTITY_TOO_LARGE
  | DOverflow => True
  end.

(** More output before the loop is more output after it. *)
Lemma loop_means_prepend buf f f1 o1 o r x :
  flat (f_out f1) = flat (f_out f) ++ o1 -> loop_means buf f1 o r x -> loop_means buf f (o1 ++ o) r x.
Proof.
  intros E (rc & f' & -> & Hr). exists rc, f'. split; [done|].
  destruct r; try done; rewrite E, <- app_assoc in Hr; done.
Qed.

(** One turn of the loop: what the parser returns, in terms of the decoder. *)
Lemma parse_chunked_decode max cl c buf p :
  ctx_ok c -> (p <= length buf)%nat ->
  snd (decode max (entry_state c) (size c) cl (drop p buf)) <> DOverflow ->
  exists rc c' p', ngx_http_parse_chunked c buf p = Some (rc, c', p')
    /\ let d := decode max (entry_state c) (size c) cl (drop p buf) in
    (rc = NGX_AGAIN /\ p' = length buf /\ length_ c' = need (state c') (size c')
       /\ ck_ok (state c') (size c') /\ d = ([], DMore (state c') (size c') cl))
    \/ (rc = NGX_OK /\ (p <= p' < length buf)%nat /\ state c' = sw_chunk_data /\ 0 < size c' < 2 ^ 62
       /\ d = decode max sw_chunk_data (size c') cl (drop p' buf))
    \/ (rc = NGX_DONE /\ state c' = sw_chunk_start /\ d = ([], DDone cl (drop p' buf)))
    \/ (rc = NGX_ERROR /\ d = ([], DBad)).
Proof.
  intros Hok Hp Hov.
  assert (Hl : length (take p buf) = p) by (rewrite length_take; lia).
  pose proof (go_decode max cl (drop p buf) (take p buf) _ _ Hok Hov) as G.
  rewrite take_drop, Hl in G. unfold ngx_http_parse_chunked. fold (entry_state c).
  destruct (go ck_step buf p (entry_state c, size c)) as [[st' z] q|[] [st' z] q|]; cbn in G; [..|done].
  - destruct G as (-> & Hk & E). rewrite at_data_ok by done. eexists _, _, _. split; [done|].
    left. cbn [state size length_]. rewrite length_drop. repeat (split; [first [done|lia]|]). done.
  - destruct G as (k & -> & Hk & -> & Hk' & E). rewrite length_drop in Hk.
    rewrite at_data_ok by done. eexists _, _, _.
    split; [done|]. right; left. cbn [state size]. rewrite <- (drop_drop buf).
    destruct Hk' as [? ?]. cbv iota in *. repeat (split; [first [done|lia]|]). done.
  - destruct G as (k & -> & Hk & E). eexists _, _, _. split; [done|]. right; right; left.
    cbn [state]. replace (S (p + k)) with (p + S k)%nat by lia. by rewrite <- (drop_drop buf).
  - eexists _, _, _. split; [done|]. by right; right; right.
Qed.

Lemma chunked_loop_decode max buf : forall fuel f,
  ctx_ok (f_ctx f) -> (f_pos f <= length buf)%nat -> (length buf - f_pos f < fuel)%nat ->
  let d := decode max (entry_state (f_ctx f)) (size (f_ctx f)) (f_length f) (drop (f_pos f) buf) in
  snd d <> DOverflow -> loop_means buf f (fst d) (snd d) (chunked_loop fuel max buf f).
Proof.
  induction fuel as [|fuel IH]; intros f Hok Hp Hf d Hov; [lia|]. cbn [chunked_loop].
  destruct (parse_chunked_decode max (f_length f) (f_ctx f) buf (f_pos f) Hok Hp Hov)
    as (rc & c & p & -> & HC). cbn [mbind option_bind]. fold d in HC. unfold d in HC. fold d in HC.
  destruct HC as [(-> & -> & Hn & Hk & E)|[(-> & Hpp & Hst & Hs & E)|[(-> & Hst & E)|(-> & E)]]];
    cbn [Z.eqb Pos.eqb]; cbv iota.
  - rewrite E. eexists _, _. split; [done|]. cbn. rewrite app_nil_r, Hn.
    destruct c; cbn in *; subst. repeat (split; [done|]). done.
  - rewrite E in *.
    destruct (negb (max =? 0) && (max - f_length f <? size c)) eqn:Em.
    + destruct (drop p buf) as [|ch l] eqn:Ed.
      { apply (f_equal length) in Ed. rewrite length_drop in Ed. simpl in Ed. lia. }
      cbn [decode]. rewrite bool_decide_true, Em by done. by eexists _, _.
    + rewrite decode_data in * by (try done; lia). rewrite length_drop in *.
      destruct (Z.ltb_spec (size c) (Z.of_nat (length buf - p))).
      * set (p' := (p + Z.to_nat (size c))%nat).
        set (f1 := mkFilt _ _ _ p' _).
        assert (Ed : drop (Z.to_nat (size c)) (drop p buf) = drop p' buf) by (by rewrite drop_drop).
        cbv zeta in *. rewrite Ed in *.
        assert (Hs1 : slice buf p p' = take (Z.to_nat (size c)) (drop p buf))
          by (unfold slice, p'; f_equal; lia).
        specialize (IH f1). cbn [f1 f_ctx f_pos f_length size state] in IH.
        assert (Ee : entry_state (mkChunked (state c) 0 (length_ c)) = sw_after_data)
          by (unfold entry_state; cbn; by rewrite Hst, bool_decide_true).
        unfold ctx_ok in IH. rewrite Ee in IH.
        destruct (decode max sw_after_data 0 (f_length f + size c) (drop p' buf)) as [o r].
        apply (loop_means_prepend _ _ f1 (take (Z.to_nat (size c)) (drop p buf))).
        { cbn [f1 f_out]. by rewrite flat_snoc, Hs1. }
        apply IH; [split; [cbn; lia|done]|lia|lia|done].
      * set (n := Z.of_nat (length buf - p)) in *. cbv zeta. cbn [fst snd].
        set (f1 := mkFilt _ _ _ (length buf) _).
        assert (Hs1 : slice buf p (length buf) = drop p buf)
          by (unfold slice; rewrite take_ge; [done|rewrite length_drop; lia]).
        specialize (IH f1). cbn [f1 f_ctx f_pos f_length size state] in IH.
        assert (Ee : entry_state (mkChunked (state c) (size c - n) (length_ c))
          = if size c =? n then sw_after_data else sw_chunk_data).
        { unfold entry_state. cbn [state size]. rewrite Hst, bool_decide_true by done. cbn [andb].
          by destruct (Z.eqb_spec (size c - n) 0), (Z.eqb_spec (size c) n); try lia. }
        unfold ctx_ok in IH. rewrite Ee, drop_all in IH. cbn [decode fst snd size] in IH.
        rewrite <- (app_nil_r (drop p buf)).
        apply (loop_means_prepend _ _ f1).
        { cbn [f1 f_out]. by rewrite flat_snoc, Hs1. }
        apply IH; [|lia|lia|done]. split; [lia|]. destruct (Z.eqb_spec (size c) n); lia.
  - rewrite E. eexists _, _. split; [done|]. cbn [f_ctx f_length f_rest f_pos f_out fst snd].
    rewrite flat_snoc, last_snoc. by rewrite Hst.
  - rewrite E. by eexists _, _.
Qed.

(** What the filter has not yet read of a buffer. *)
Definition unread (b : in_buf) : list Z := drop (pos b) (mem b).
Definition in_ok (b : in_buf) : Prop := (pos b <= length (mem b))%nat.

Lemma entry_state_ok st z n : ck_ok st z -> entry_state (mkChunked st z n) = st.
Proof.
  intros [_ H]. unfold entry_state. cbn [state size].
  case_bool_decide; [subst st|done]. destruct (Z.eqb_spec z 0); [lia|done].
Qed.

(** A chain of buffers is decoded as one, if the body does not end before the
    last of them. *)
Lemma chunked_chain_decode max b : forall input f o st z cl,
  ctx_ok (f_ctx f) -> Forall in_ok input -> in_ok b ->
  decode max (entry_state (f_ctx f)) (size (f_ctx f)) (f_length f) (concat (map unread input))
    = (o, DMore st z cl) ->
  let d := decode max st z cl (unread b) in
  snd d <> DOverflow ->
  exists rc ins f', chunked_chain max (input ++ [b]) f = Some (rc, ins, f')
    /\ last ins = Some (mkIn (mem b) (f_pos f'))
    /\ loop_means (mem b) f (o ++ fst d) (snd d) (Some (rc, f')).
Proof.
  induction input as [|a input IH]; intros f o st z cl Hok Hin Hb E d Hov.
  - cbn in E. simplify_eq. cbn [app chunked_chain].
    pose proof (chunked_loop_decode max (mem b) (chunked_fuel (mem b))
      (mkFilt (f_ctx f) (f_length f) (f_rest f) (pos b) (f_out f)) Hok Hb) as L.
    cbn [f_ctx f_pos f_length] in L. fold (unread b) in L.
    destruct L as (rc & f' & -> & Hr); [unfold chunked_fuel; lia|done|].
    cbn [mbind option_bind]. fold d in Hr. unfold loop_means.
    destruct (Z.eqb_spec rc NGX_OK) as [->|]; eexists _, _, _; (split; [done|]); (split; [done|]);
      eexists _, _; (split; [done|]); exact Hr.
  - apply Forall_cons in Hin as [Ha Hin]. cbn [map concat] in E. rewrite decode_app in E.
    cbn [app chunked_chain].
    pose proof (chunked_loop_decode max (mem a) (chunked_fuel (mem a))
      (mkFilt (f_ctx f) (f_length f) (f_rest f) (pos a) (f_out f)) Hok Ha) as L.
    cbn [f_ctx f_pos f_length] in L. fold (unread a) in L.
    destruct (decode max (entry_state (f_ctx f)) (size (f_ctx f)) (f_length f) (unread a))
      as [o1 [st1 z1 cl1| | | |]]; try discriminate E.
    destruct L as (rc & f1 & -> & -> & Hc & Hl & Hr & Hp & Hfl & Hk); [unfold chunked_fuel; lia|done|].
    cbn [mbind option_bind Z.eqb].
    destruct (decode max st1 z1 cl1 (concat (map unread input))) as [o2 r2] eqn:E2. simplify_eq.
    destruct (IH f1 o2 st z cl) as (rc2 & ins & f2 & -> & Hlast & Hm); try done.
    { unfold ctx_ok. rewrite Hc, entry_state_ok by done. done. }
    { rewrite Hc. cbn [size]. by rewrite entry_state_ok. }
    cbn [mbind option_bind]. eexists _, _, _. split; [done|]. split.
    { destruct ins; [discriminate Hlast|done]. }
    rewrite <- app_assoc. by apply (loop_means_prepend _ _ f1).
Qed.

(** ** Encoded bodies *)

Definition is_eol (eol : list Z) : Prop := eol = [cLF] \/ eol = [cCR; cLF].
Definition text_char (c : Z) : Prop := c <> cCR /\ c <> cLF.

(** A chunk extension: empty, or introduced by [';'], a space or a tab. *)
Definition ext_ok (ext : list Z) : Prop :=
  Forall text_char ext /\
  match ext with [] => True | c :: _ => c = cSEMI \/ c = cSP \/ c = cHT end.

(** [hx] writes [n] in hexadecimal, in digits of either case. *)
Definition writes (hx : list Z) (n : Z) : Prop :=
  exists ds, hx <> [] /\ mapM chunk_digit hx = Some ds /\ num_value 16 ds = n.

(** The size line of a chunk. *)
Record size_line := mkLine { hx : list Z; ext : list Z; eol : list Z }.
Definition line_text (s : size_line) : list Z := hx s ++ ext s ++ eol s.
Definition line_ok (s : size_line) (n : Z) : Prop :=
  writes (hx s) n /\ ext_ok (ext s) /\ is_eol (eol s).

(** A chunk: its size line, its data (at least one byte) and the line end after. *)
Record chunk := mkChunk { line : size_line; data : list Z; tail_eol : list Z }.
Definition chunk_text (c : chunk) : list Z := line_text (line c) ++ data c ++ tail_eol c.
Definition chunk_ok (c : chunk) : Prop :=
  data c <> [] /\ Z.of_nat (length (data c)) < 2 ^ 62
  /\ line_ok (line c) (Z.of_nat (length (data c))) /\ is_eol (tail_eol c).

(** The last chunk, the trailer lines and the empty line. *)
Record ending := mkEnding { zero : size_line; trailer : list (list Z * list Z); final_eol : list Z }.
Definition ending_text (e : ending) : list Z :=
  line_text (zero e) ++ concat (map (fun t => t.1 ++ t.2) (trailer e)) ++ final_eol e.
Definition ending_ok (e : ending) : Prop :=
  line_ok (zero e) 0
  /\ Forall (fun t => t.1 <> [] /\ Forall text_char t.1 /\ is_eol t.2) (trailer e)
  /\ is_eol (final_eol e).

(** A whole chunked body. *)
Definition encode (cs : list chunk) (e : ending) : list Z :=
  concat (map chunk_text cs) ++ ending_text e.

Lemma chunk_digit_text ch d : chunk_digit ch = Some d -> ch <> cCR /\ ch <> cLF.
Proof. intros E. split; intros ->; discriminate E. Qed.

Lemma digits_cons ch hx ds :
  mapM chunk_digit (ch :: hx) = Some ds ->
  exists d ds', ds = d :: ds' /\ chunk_digit ch = Some d /\ mapM chunk_digit hx = Some ds'
    /\ 0 <= d < 16.
Proof.
  intros Hm. apply mapM_Some in Hm. apply Forall2_cons_inv_l in Hm as (d & ds' & Hd & Hr & ->).
  exists d, ds'. rewrite <- mapM_Some in Hr. split_and!; try done; by eapply chunk_digit_range.
Qed.

Lemma digits_range hx : forall ds,
  mapM chunk_digit hx = Some ds -> Forall (fun d => 0 <= d < 16) ds.
Proof.
  induction hx as [|ch hx IH]; intros ds Hm; [injection Hm as <-; constructor|].
  apply digits_cons in Hm as (d & ds' & -> & _ & Hm & Hd). apply Forall_cons. auto.
Qed.

Lemma decode_hex max cl l : forall h ds v,
  mapM chunk_digit h = Some ds -> 0 <= v ->
  fold_left (fun v d => v * 16 + d) ds v < 2 ^ 62 ->
  decode max sw_chunk_size v cl (h ++ l) =
    decode max sw_chunk_size (fold_left (fun v d => v * 16 + d) ds v) cl l.
Proof.
  induction h as [|ch h IH]; intros ds v Hm Hv Hb.
  - by injection Hm as <-.
  - apply digits_cons in Hm as (d & ds' & -> & Ed & Em & Hd). cbn [fold_left] in *.
    assert (Hle : v * 16 + d < 2 ^ 62).
    { eapply Z.le_lt_trans; [|exact Hb]. rewrite num_value_acc.
      assert (0 <= num_value 16 ds').
      { apply (num_value_range 16 ds'); [lia|]. exact (digits_range _ _ Em). }
      nia. }
    rewrite <- app_comm_cons. cbn [decode]. rewrite bool_decide_false by done.
    unfold size_overflows. rewrite Ed. destruct (Z.leb_spec (2 ^ 58) v); [lia|].
    cbn [ck_step]. unfold case_chunk_size. rewrite Ed, sint_small by lia. apply IH; try done. lia.
Qed.

(** One byte outside the data. *)
Lemma decode_ctl max st size cl ch l st' size' :
  st <> sw_chunk_data -> size_overflows st size ch = false ->
  ck_step [] 0 ch (st, size) = Continue (st', size') ->
  decode max st size cl (ch :: l) = decode max st' size' cl l.
Proof. intros H1 H2 H3. cbn [decode]. by rewrite bool_decide_false, H2, H3. Qed.

(** A state that skips to a line end. *)
Definition skipper (st cr lf : ck_state) : Prop :=
  (forall ch size, ck_step [] 0 ch (st, size) = skip_to_eol st cr lf ch size)
  /\ (forall ch size, ck_step [] 0 ch (cr, size) = want_lf cr lf ch size)
  /\ (forall ch size, size_overflows st size ch = false /\ size_overflows cr size ch = false)
  /\ st <> sw_chunk_data /\ cr <> sw_chunk_data.

Lemma decode_skip max st cr lf size cl text eol l :
  skipper st cr lf -> Forall text_char text -> is_eol eol ->
  decode max st size cl (text ++ eol ++ l) = decode max lf size cl l.
Proof.
  intros (H1 & H2 & H3 & H4 & H5) Ht He.
  assert (S1 : forall ch st' k, ck_step [] 0 ch (st, size) = Continue (st', size) ->
    decode max st size cl (ch :: k) = decode max st' size cl k).
  { intros. apply decode_ctl; [done|apply H3|done]. }
  induction text as [|c text IH].
  - destruct He as [-> | ->]; cbn [app].
    + apply S1. by rewrite H1.
    + rewrite (S1 _ cr) by (by rewrite H1). apply decode_ctl; [done|apply H3|]. by rewrite H2.
  - apply Forall_cons in Ht as [[Hcr Hlf] Ht]. cbn [app]. rewrite (S1 _ st).
    + by apply IH.
    + rewrite H1. unfold skip_to_eol. apply Z.eqb_neq in Hcr, Hlf. by rewrite Hcr, Hlf.
Qed.

Lemma skip_extension : skipper sw_chunk_extension sw_chunk_extension_almost_done sw_chunk_data.
Proof. repeat split; done. Qed.
Lemma skip_after_data : skipper sw_after_data sw_after_data_almost_done sw_chunk_start.
Proof. repeat split; done. Qed.
Lemma skip_last_extension :
  skipper sw_last_chunk_extension sw_last_chunk_extension_almost_done sw_trailer.
Proof. repeat split; done. Qed.
Lemma skip_trailer_header : skipper sw_trailer_header sw_trailer_header_almost_done sw_trailer.
Proof. repeat split; done. Qed.

(** The bytes of a size line after its digits. *)
Lemma decode_line_end max size cl s l :
  ext_ok (ext s) -> is_eol (eol s) ->
  decode max sw_chunk_size size cl (ext s ++ eol s ++ l) =
    decode max (if size =? 0 then sw_trailer else sw_chunk_data) size cl l.
Proof.
  intros [Ht Hh] He. destruct (ext s) as [|c x].
  - destruct He as [-> | ->]; cbn [app].
    { apply decode_ctl; try done. cbn [ck_step]. unfold case_chunk_size.
      change (chunk_digit cLF) with (@None Z). by destruct (size =? 0). }
    rewrite (decode_ctl _ _ _ _ _ _ (if size =? 0 then sw_last_chunk_extension_almost_done
      else sw_chunk_extension_almost_done) size); try done.
    2:{ cbn [ck_step]. unfold case_chunk_size.
        change (chunk_digit cCR) with (@None Z). by destruct (size =? 0). }
    destruct (size =? 0); by apply decode_ctl.
  - cbn [app].
    rewrite (decode_ctl _ _ _ _ _ _ (if size =? 0 then sw_last_chunk_extension
      else sw_chunk_extension) size); try done.
    + apply Forall_cons in Ht as [_ Ht]. destruct (size =? 0).
      * by apply (decode_skip _ _ _ _ _ _ _ _ _ skip_last_extension).
      * by apply (decode_skip _ _ _ _ _ _ _ _ _ skip_extension).
    + unfold size_overflows. by destruct Hh as [-> |[-> | ->]].
    + cbn [ck_step]. unfold case_chunk_size.
      assert (chunk_digit c = None) as -> by (by destruct Hh as [-> |[-> | ->]]).
      by destruct Hh as [-> |[-> | ->]]; destruct (size =? 0).
Qed.

(** A whole size line. *)
Lemma decode_line max size0 cl s n l :
  line_ok s n -> n < 2 ^ 62 ->
  decode max sw_chunk_start size0 cl (line_text s ++ l) =
    decode max (if n =? 0 then sw_trailer else sw_chunk_data) n cl l.
Proof.
  intros ((ds & Hne & Hm & Hn) & Hx & He) Hb. unfold line_text. rewrite <- !app_assoc.
  destruct (hx s) as [|ch hx']; [done|].
  apply digits_cons in Hm as (d & ds' & -> & Ed & Em & Hd).
  cbn [app]. rewrite (decode_ctl _ _ _ _ _ _ sw_chunk_size d); try done.
  2:{ cbn [ck_step]. by rewrite Ed. }
  rewrite (decode_hex _ _ _ hx' ds' d Em ltac:(lia)) by (subst n; exact Hb).
  change (fold_left (fun v d0 => v * 16 + d0) ds' d) with (num_value 16 (d :: ds')).
  by rewrite Hn, decode_line_end.
Qed.


Lemma decode_chunk max size0 cl c l :
  chunk_ok c -> max = 0 \/ cl + Z.of_nat (length (data c)) <= max ->
  decode max sw_chunk_start size0 cl (chunk_text c ++ l) =
    let '(o, r) := decode max sw_chunk_start 0 (cl + Z.of_nat (length (data c))) l in (data c ++ o, r).
Proof.
  intros (Hne & Hb & Hl & He) Hmax. unfold chunk_text. rewrite <- !app_assoc.
  set (n := Z.of_nat (length (data c))) in *.
  assert (Hn : 0 < n) by (unfold n; destruct (data c); [done|simpl; lia]).
  rewrite (decode_line _ _ _ _ n) by done. destruct (Z.eqb_spec n 0); [lia|].
  rewrite decode_data by lia.
  assert (Hlt : n < Z.of_nat (length (data c ++ tail_eol c ++ l))).
  { unfold n. rewrite !length_app. destruct He as [-> | ->]; simpl; lia. }
  destruct (Z.ltb_spec n (Z.of_nat (length (data c ++ tail_eol c ++ l)))); [|lia].
  cbv zeta. replace (Z.to_nat n) with (length (data c)) by lia.
  rewrite drop_app_length, take_app_length.
  pose proof (decode_skip max _ _ _ 0 (cl + n) [] (tail_eol c) l skip_after_data) as S.
  cbn [app] in S. rewrite S; [done| |done]. constructor.
Qed.

Lemma decode_ending max size0 cl e l :
  ending_ok e ->
  decode max sw_chunk_start size0 cl (ending_text e ++ l) = ([], DDone cl l).
Proof.
  intros (Hz & Ht & He). unfold ending_text. rewrite <- !app_assoc.
  rewrite (decode_line _ _ _ _ 0) by (try done; lia). cbn [Z.eqb].
  induction (trailer e) as [|[t te] ts IH].
  - destruct He as [-> | ->]; done.
  - apply Forall_cons in Ht as [(Hne & Htc & Hte) Ht]. cbn [map concat fst snd] in *.
    rewrite <- !app_assoc. destruct t as [|c t]; [done|]. apply Forall_cons in Htc as [[Hcr Hlf] Htc].
    cbn [app]. rewrite (decode_ctl _ _ _ _ _ _ sw_trailer_header 0); try done.
    + rewrite (decode_skip _ _ _ _ _ _ _ _ _ skip_trailer_header) by done. by apply IH.
    + cbn [ck_step]. apply Z.eqb_neq in Hcr, Hlf. by rewrite Hcr, Hlf.
Qed.

Definition total (cs : list chunk) : Z := Z.of_nat (length (concat (map data cs))).

(** The decoder takes an encoded body apart. *)
Lemma decode_encoded max e l : forall cs size0 cl,
  Forall chunk_ok cs -> ending_ok e -> max = 0 \/ cl + total cs <= max ->
  decode max sw_chunk_start size0 cl (encode cs e ++ l)
    = (concat (map data cs), DDone (cl + total cs) l).
Proof.
  induction cs as [|c cs IH]; intros size0 cl Hcs He Hmax; unfold encode, total in *; cbn [map concat] in *.
  - cbn [app length]. rewrite decode_ending by done. by rewrite Z.add_0_r.
  - apply Forall_cons in Hcs as [Hc Hcs]. rewrite length_app in *.
    rewrite <- !app_assoc, decode_chunk by (try done; lia).
    rewrite app_assoc, IH by (try done; lia). do 2 f_equal. lia.
Qed.

(** ** Theorems *)

(** A body whose reading has not begun. *)
Definition unstarted (b : body) : Prop := rest b = -1.

(** C1: A chunked body is decoded to the concatenation of the data of its chunks,
    whatever the case of the digits, the extensions, the trailer and the line
    ends, and however it is cut into buffers: if the chain [input ++ [b]] holds an
    encoded body that ends in its last buffer, the filter returns [NGX_OK], passes
    the data and then a buffer with [last_buf] set, counts the data in
    [content_length_n], has nothing more to read, and leaves unread what follows
    the body. *)
Theorem chunked_filter_decodes max body0 input b cs e left :
  unstarted body0 -> Forall in_ok input -> in_ok b ->
  Forall chunk_ok cs -> ending_ok e -> max = 0 \/ total cs <= max ->
  concat (map unread input) ++ unread b = encode cs e ++ left ->
  (length left < length (unread b))%nat ->
  exists ins b' out, ngx_http_request_body_chunked_filter max body0 (input ++ [b]) = Some (NGX_OK, ins, b')
    /\ bufs b' = bufs body0 ++ out /\ flat out = concat (map data cs)
    /\ last out = Some (mkOut [] true)
    /\ content_length_n b' = total cs /\ rest b' = 0
    /\ unread <$> last ins = Some left.
Proof.
  intros Hb Hin Hlast Hcs He Hmax Ebytes Hleft. unfold ngx_http_request_body_chunked_filter.
  rewrite Hb. cbn [Z.eqb Pos.eqb ctx content_length_n rest bufs].
  set (f := mkFilt (mkChunked sw_chunk_start 0 0) 0 3 0 []).
  pose proof (decode_encoded max e left cs 0 0 Hcs He Hmax) as D.
  rewrite <- Ebytes, decode_app in D. rewrite Z.add_0_l in D.
  destruct (decode max sw_chunk_start 0 0 (concat (map unread input))) as [o1 [st z cl|cl u| | |]] eqn:D1;
    try discriminate D.
  2:{ injection D as _ _ Eu. apply (f_equal length) in Eu. rewrite length_app in Eu. lia. }
  destruct (decode max st z cl (unread b)) as [o2 r2] eqn:D2. injection D as Eo Er.
  destruct (chunked_chain_decode max b input f o1 st z cl) as (rc & ins & f' & E & Hins & Hm); try done.
  { rewrite D2, Er. done. }
  rewrite E. cbn [mbind option_bind]. rewrite D2, Er in Hm.
  destruct Hm as (rc' & f1 & Ei & HQ). injection Ei as <- <-.
  destruct HQ as (-> & Hst & Hl & Hr & Hu & Hf & Hla). cbn [Z.eqb]. eexists _, _, _. split; [done|].
  cbn [bufs content_length_n rest ngx_http_request_body_save_filter].
  split; [done|]. split; [by rewrite Hf; cbn [fst]; rewrite Eo|]. split; [done|].
  split; [done|]. split; [done|]. rewrite Hins. cbn. f_equal. exact Hu.
Qed.

(** The body as a call works on it: the first call, with [rb->rest] -1, begins a new one. *)
Definition begun (b : body) : body :=
  if rest b =? -1 then mkBody (mkChunked sw_chunk_start 0 0) 3 (bufs b) 0 else b.

Lemma begun_filter max b input :
  ngx_http_request_body_chunked_filter max b input = ngx_http_request_body_chunked_filter max (begun b) input.
Proof. unfold ngx_http_request_body_chunked_filter, begun. destruct (rest b =? -1) eqn:E; [done|]. by rewrite E. Qed.

Lemma begun_rest b : rest (begun b) <> -1.
Proof. unfold begun. by destruct (Z.eqb_spec (rest b) (-1)). Qed.

(** The decoder on the bytes of a call. *)
Definition decode_call (max : Z) (body0 : body) (bytes : list Z) : list Z * dres :=
  decode max (entry_state (ctx (begun body0))) (size (ctx (begun body0))) (content_length_n (begun body0)) bytes.

(** What a call on one buffer does, against the byte-at-a-time decoder. *)
Definition call_means (max : Z) (body0 : body) (b : in_buf) : Prop :=
  let d := decode_call max body0 (unread b) in
  exists rc ins b', ngx_http_request_body_chunked_filter max body0 [b] = Some (rc, ins, b')
    /\ match snd d with
       | DMore st z cl =>
           rc = NGX_OK /\ ctx b' = mkChunked st z (need st z) /\ content_length_n b' = cl
           /\ rest b' = need st z /\ flat (bufs b') = flat (bufs body0) ++ fst d
           /\ ck_ok st z
       | DDone cl u =>
           rc = NGX_OK /\ content_length_n b' = cl /\ rest b' = 0
           /\ flat (bufs b') = flat (bufs body0) ++ fst d /\ unread <$> last ins = Some u
       | DBad => rc = NGX_HTTP_BAD_REQUEST
       | DTooLarge => rc = NGX_HTTP_REQUEST_ENTITY_TOO_LARGE
       | DOverflow => False
       end.

Lemma call_decode max body0 b :
  ctx_ok (ctx (begun body0)) -> in_ok b -> snd (decode_call max body0 (unread b)) <> DOverflow -> call_means max body0 b.
Proof.
  intros Hok Hin Hov. unfold call_means. rewrite begun_filter.
  assert (Hb : bufs body0 = bufs (begun body0)) by (unfold begun; by destruct (_ =? _)). rewrite Hb.
  pose proof (begun_rest body0) as Hr. unfold decode_call in *. set (body1 := begun body0) in *. clearbody body1.
  unfold ngx_http_request_body_chunked_filter.
  set (d := decode _ _ _ _ _) in *. apply Z.eqb_neq in Hr as ->.
  set (f := mkFilt (ctx body1) (content_length_n body1) (rest body1) 0 []).
  destruct (chunked_chain_decode max b [] f [] (entry_state (ctx body1)) (size (ctx body1))
    (content_length_n body1)) as (rc & ins & f' & E & Hins & Hm); try done.
  cbn [app] in E. rewrite E. cbn [mbind option_bind]. fold d in Hm. cbn [app] in Hm.
  destruct Hm as (rc' & f1 & Ei & HQ). injection Ei as <- <-. cbv zeta.
  destruct (snd d); try done.
  - destruct HQ as (-> & Hc & Hl & Hrest & Hp & Hf & ?). eexists _, _, _. split; [done|].
    cbn. unfold flat in *. by rewrite map_app, concat_app, Hf.
  - destruct HQ as (-> & Hc & Hl & Hrest & Hp & Hf & _). eexists _, _, _. split; [done|].
    cbn. unfold flat in *. rewrite map_app, concat_app, Hf, Hins. cbn. by rewrite <- Hp.
  - subst rc. by eexists _, _, _.
  - subst rc. by eexists _, _, _.
Qed.

(** The first call starts from a good state. *)
Lemma begun_ok body0 : (rest body0 <> -1 -> ctx_ok (ctx body0)) -> ctx_ok (ctx (begun body0)).
Proof. unfold begun. destruct (Z.eqb_spec (rest body0) (-1)); [intros _; split; vm_compute; done|auto]. Qed.

(** C7: Each call with a buffer, the first of a body or a later one, consumes its bytes as
    the byte-at-a-time decoder does, from whatever state the calls before have left: the
    copying of chunk data in bulk and the stops at buffer ends change nothing, the errors
    are the same, and [rb->rest] is a function of the decoder's state.  Chunk sizes of 2^62
    and more, where the size may wrap ([chunked_size_wraps]), are out of scope. *)
Theorem chunked_filter_refines max body0 b :
  (rest body0 <> -1 -> ctx_ok (ctx body0)) -> in_ok b ->
  snd (decode_call max body0 (unread b)) <> DOverflow ->
  call_means max body0 b.
Proof. intros Hok. by apply call_decode, begun_ok. Qed.

(** ** The amount of data to read next *)

Lemma need_step st size ch st' size' :
  ck_ok st size -> size_overflows st size ch = false -> st <> sw_chunk_data ->
  ck_step [] 0 ch (st, size) = Continue (st', size') -> need st size <= need st' size' + 1.
Proof.
  intros [Hs Hst] Ho Hd E. unfold size_overflows in Ho.
  destruct st; cbn [ck_step] in E; unfold case_chunk_size, skip_to_eol, want_lf in E;
    try destruct (chunk_digit ch) as [d|] eqn:Ed; try apply chunk_digit_range in Ed as Hdd;
    repeat case_test_in E; simplify_eq; cbn [need] in *; try lia.
  all: try rewrite sint_small by lia; repeat case_test; lia.
Qed.

Lemma need_decode max l : forall st size cl o cl' u,
  ck_ok st size -> decode max st size cl l = (o, DDone cl' u) ->
  need st size <= Z.of_nat (length l) - Z.of_nat (length u).
Proof.
  induction l as [|ch l IH]; intros st size cl o cl' u Hok E; [discriminate E|]. cbn [decode] in E.
  case_bool_decide as Hst.
  - subst st. case_test_in E; [discriminate E|].
    destruct (decode _ _ _ _ l) as [o1 r1] eqn:E1. injection E as _ ->. destruct Hok as [H1 H2].
    apply IH in E1.
    + cbn [length]. destruct (Z.eqb_spec size 1); cbn [need] in *; lia.
    + split; [lia|]. destruct (Z.eqb_spec size 1); lia.
  - destruct (size_overflows st size ch) eqn:Eo; [discriminate E|].
    destruct (ck_step [] 0 ch (st, size)) as [[st' size']|s'|[] s'] eqn:Es; try discriminate E.
    + pose proof (need_step _ _ _ _ _ Hok Eo Hst Es). apply IH in E; [cbn [length]; lia|].
      by eapply ck_ok_step.
    + by apply ck_no_rescan in Es.
    + injection E as _ _ <-. cbn [length].
      assert (need st size = 1); [|lia].
      destruct st; cbn [ck_step] in Es; unfold case_chunk_size, skip_to_eol, want_lf in Es;
        try destruct (chunk_digit ch); repeat case_test_in Es; try discriminate Es; done.
Qed.

(** C8: Where no chunk size reaches 2^62, [rb->rest] does not ask for more than the body
    has: if a call, the first or a later one, leaves [rb->rest] and the next one ends the
    body, at least that many bytes were read in between; so a server that reads [rb->rest]
    bytes does not read past the body. *)
Theorem chunked_rest_bound max body0 b more ins1 b1 ins2 b2 :
  (rest body0 <> -1 -> ctx_ok (ctx body0)) -> in_ok b ->
  snd (decode_call max body0 (unread b ++ more)) <> DOverflow ->
  ngx_http_request_body_chunked_filter max body0 [b] = Some (NGX_OK, ins1, b1) -> rest b1 <> 0 ->
  ngx_http_request_body_chunked_filter max b1 [mkIn more 0] = Some (NGX_OK, ins2, b2) -> rest b2 = 0 ->
  exists left, unread <$> last ins2 = Some left
    /\ rest b1 <= Z.of_nat (length more) - Z.of_nat (length left).
Proof.
  intros Hok Hin Hov E1 Hr1 E2 Hr2. apply begun_ok in Hok. unfold decode_call in Hov. rewrite decode_app in Hov.
  pose proof (call_decode max body0 b Hok Hin) as C1. unfold call_means, decode_call in C1.
  set (d := decode _ _ _ _ (unread b)) in *. destruct d as [o1 r1]. cbn [fst snd] in *.
  destruct C1 as (rc & ins & b' & E & HM); [by destruct r1|]. rewrite E1 in E. injection E as <- <- <-.
  destruct r1 as [st z cl|cl u| | |]; try done; [|by destruct HM as (_ & _ & ? & _)].
  destruct HM as (_ & Hc & Hcl & Hrest & _ & Hk).
  assert (Hn : 1 <= need st z) by (destruct Hk as [? _], st; cbn; try case_test; lia).
  pose proof (call_decode max b1 (mkIn more 0)) as C2. unfold call_means, decode_call, ctx_ok in C2.
  assert (Hb1 : begun b1 = b1) by (unfold begun; by rewrite (proj2 (Z.eqb_neq (rest b1) (-1))) by lia).
  rewrite Hb1, Hc in C2. cbn [size] in C2. rewrite entry_state_ok, Hcl in C2 by done.
  unfold unread in C2. cbn [pos mem] in C2. rewrite drop_0 in C2.
  destruct (decode max st z cl more) as [o2 r2] eqn:D2. cbn [fst snd] in *.
  destruct C2 as (rc & ins & b' & E & HM); [done|unfold in_ok; cbn; lia|by destruct r2|].
  rewrite E2 in E. injection E as <- <- <-. destruct r2 as [st2 z2 cl2|cl2 u2| | |]; try done.
  - destruct HM as (_ & _ & _ & Hrest2 & _ & Hk2).
    assert (1 <= need st2 z2) by (destruct Hk2 as [? _], st2; cbn; try case_test; lia). lia.
  - destruct HM as (_ & _ & _ & _ & Hu). exists u2. split; [done|]. rewrite Hrest.
    by eapply need_decode.
Qed.

(** ** The content length filter *)

Lemma unread_length b : length (unread b) = (length (mem b) - pos b)%nat.
Proof. unfold unread. apply length_drop. Qed.

Lemma length_chain_spec input : forall r,
  0 <= r -> Forall in_ok input ->
  let all := concat (map unread input) in
  let '(ins, r', out) := length_chain input r in
  flat out = take (Z.to_nat r) all /\ concat (map unread ins) = drop (Z.to_nat r) all
  /\ r' = Z.max 0 (r - Z.of_nat (length all)) /\ length ins = length input
  /\ match last out with
     | Some o => last_buf o = (r' =? 0)
     | None => input = [] \/ r = 0
     end
  /\ Forall (fun o => last_buf o = false) (removelast out).
Proof.
  induction input as [|b input IH]; intros r Hr Hin all; cbn [length_chain].
  - unfold all. cbn. rewrite take_nil, drop_nil. split_and!; try done; try lia; try (by left); constructor.
  - apply Forall_cons in Hin as [Hb Hin]. unfold all. cbn [map concat].
    destruct (Z.eqb_spec r 0) as [->|].
    { rewrite drop_0. split_and!; try done; try lia; try (by right); constructor. }
    pose proof (unread_length b) as Hl. unfold in_ok in Hb.
    destruct (Z.ltb_spec (Z.of_nat (length (mem b) - pos b)) r).
    + specialize (IH (r - Z.of_nat (length (mem b) - pos b)) ltac:(lia) Hin). cbv zeta in IH.
      destruct (length_chain input _) as [[ins r'] out].
      destruct IH as (H1 & H2 & H3 & H4 & H5 & H6).
      assert (Hs : slice (mem b) (pos b) (length (mem b)) = unread b)
        by (apply take_ge; fold (unread b); lia).
      assert (Hd : unread (mkIn (mem b) (length (mem b))) = []) by (unfold unread; cbn; apply drop_all).
      rewrite take_app_ge, drop_app_ge by lia. unfold flat in *. cbn [map concat bytes length].
      rewrite Hs, Hd, H1, H2, Hl, length_app, Hl.
      replace (Z.to_nat r - (length (mem b) - pos b))%nat
        with (Z.to_nat (r - Z.of_nat (length (mem b) - pos b))) by lia.
      split_and!; try done; try lia.
      * destruct out as [|o out].
        2:{ rewrite last_cons_cons. destruct (last (o :: out)) eqn:El; [done|].
            by apply last_None in El. }
        cbn. destruct H5 as [->|]; cbn in *; destruct (Z.eqb_spec r' 0); lia.
      * destruct out; [constructor|]. cbn. by constructor.
    + specialize (IH 0 ltac:(lia) Hin). cbv zeta in IH. 
      destruct (length_chain input 0) as [[ins r'] out] eqn:E0.
      assert (out = [] /\ r' = 0) as [-> ->].
      { destruct input; cbn in E0; by simplify_eq. }
      destruct IH as (_ & H2 & _ & H4 & _ & _). rewrite drop_0 in H2.
      rewrite take_app_le, drop_app_le by lia. unfold flat. cbn [map concat bytes length].
      rewrite app_nil_r, H2, H4, length_app, Hl. split_and!; try done; try lia; try constructor.
      * unfold slice, unread. f_equal. lia.
      * f_equal. unfold unread. cbn [mem pos]. by rewrite drop_drop.
Qed.

(** A body of known length: the filter passes on exactly the next [rb->rest] bytes
    of the chain, or all of them if there are fewer, leaves the rest unread, and
    keeps the count of what is missing; the last buffer passed is marked when the
    body is complete, and no other is. *)
Theorem length_filter_exact b input :
  (rest b = -1 -> 0 <= content_length_n b) -> -1 <= rest b -> Forall in_ok input ->
  let r := if rest b =? -1 then content_length_n b else rest b in
  let all := concat (map unread input) in
  exists ins b' out, ngx_http_request_body_length_filter b input = (NGX_OK, ins, b')
    /\ bufs b' = bufs b ++ out /\ flat out = take (Z.to_nat r) all
    /\ concat (map unread ins) = drop (Z.to_nat r) all
    /\ rest b' = Z.max 0 (r - Z.of_nat (length all))
    /\ match last out with
       | Some o => last_buf o = (rest b' =? 0)
       | None => input = [] \/ r = 0
       end
    /\ Forall (fun o => last_buf o = false) (removelast out).
Proof.
  intros H1 H2 Hin r all. unfold ngx_http_request_body_length_filter. fold r.
  assert (Hr : 0 <= r) by (unfold r; destruct (Z.eqb_spec (rest b) (-1)); lia).
  pose proof (length_chain_spec input r Hr Hin) as S. cbv zeta in S.
  destruct (length_chain input r) as [[ins r'] out].
  destruct S as (Q1 & Q2 & Q3 & Q4 & Q5 & Q6). eexists _, _, _. split; [done|]. by cbn.
Qed.

(** ** Discarding *)

(** Discarding a chunked body parses it as reading it does: with no limit on the
    size the two loops end alike, at the same place, in the same state, wanting
    the same amount of data. *)
Theorem discard_like_filter buf : forall fuel f cl,
  (chunked_loop fuel 0 buf f) ≫= (fun '(rc, f') => Some (rc, f_ctx f', f_pos f', f_rest f'))
  = (discard_loop fuel buf (f_ctx f) cl (f_pos f)) ≫= (fun '(rc, c, cl', p) =>
      Some (rc, c, p, if rc =? NGX_OK then cl' else f_rest f)).
Proof.
  induction fuel as [|fuel IH]; intros f cl; [done|]. cbn [chunked_loop discard_loop].
  destruct (ngx_http_parse_chunked (f_ctx f) buf (f_pos f)) as [[[rc c] p]|]; [|done].
  cbn [mbind option_bind]. destruct (rc =? NGX_OK).
  { cbn [negb Z.eqb andb]. case_test; by rewrite (IH _ cl). }
  destruct (rc =? NGX_DONE); [done|]. by destruct (rc =? NGX_AGAIN).
Qed.

(** ** Concrete bodies *)

Definition new_body : body := mkBody (mkChunked sw_chunk_start 0 0) (-1) [] 0.

(** A body of two chunks, cut in the middle of the first. *)
Definition sample_chunks : list chunk :=
  [mkChunk (mkLine (lit "3") (lit ";x") [cCR; cLF]) (lit "abc") [cCR; cLF];
   mkChunk (mkLine (lit "0A") [] [cLF]) (lit "0123456789") [cLF]].
Definition sample_ending : ending := mkEnding (mkLine (lit "0") [] [cCR; cLF]) [(lit "T: 1", [cLF])] [cCR; cLF].
Definition sample_first : in_buf := mkIn (take 8 (encode sample_chunks sample_ending)) 0.
Definition sample_second : in_buf := mkIn (drop 8 (encode sample_chunks sample_ending) ++ lit "G") 0.

Lemma chunked_filter_decodes_witness :
  exists ins b' out,
    ngx_http_request_body_chunked_filter 20 new_body [sample_first; sample_second]
      = Some (NGX_OK, ins, b')
    /\ bufs b' = [] ++ out /\ flat out = lit "abc0123456789"
    /\ last out = Some (mkOut [] true) /\ content_length_n b' = 13 /\ rest b' = 0
    /\ unread <$> last ins = Some (lit "G").
Proof.
  apply (chunked_filter_decodes 20 new_body [sample_first] sample_second sample_chunks sample_ending
    (lit "G")).
  - done.
  - apply Forall_singleton. vm_compute. lia.
  - vm_compute. lia.
  - apply Forall_cons; split; [|apply Forall_singleton].
    + split; [done|]. split; [vm_compute; done|]. split; [|by right].
      split; [exists [3]; done|]. split; [|by right]. split; [by apply (bool_decide_unpack _)|by left].
    + split; [done|]. split; [vm_compute; done|]. split; [|by left].
      split; [exists [0; 10]; done|]. split; [|by left]. by split.
  - split; [split; [exists [0]; done|split; [by split|by right]]|].
    split; [|by right]. apply Forall_singleton. split; [done|]. split; [|by left].
    by apply (bool_decide_unpack _).
  - right. vm_compute. done.
  - reflexivity.
  - vm_compute. lia.
Defined.

(** The same body after its first buffer. *)
Definition begun_body : body := mkBody (mkChunked sw_chunk_data 2 6) 6 [mkOut (lit "a") false] 1.

Lemma chunked_filter_refines_witness : call_means 0 begun_body (mkIn (lit "bc") 0).
Proof.
  apply chunked_filter_refines; [| |vm_compute; done].
  - intros _. split; vm_compute; done.
  - unfold in_ok. simpl. lia.
Defined.

Lemma chunked_rest_bound_witness :
  exists left, Some [] = Some left /\ 5 <= Z.of_nat (length (lit "c" ++ [cLF] ++ lit "0" ++ [cLF; cLF]))
    - Z.of_nat (length (left : list Z)).
Proof.
  refine (chunked_rest_bound 0 begun_body (mkIn (lit "b") 0) (lit "c" ++ [cLF] ++ lit "0" ++ [cLF; cLF])
    [mkIn (lit "b") 1] (mkBody (mkChunked sw_chunk_data 1 5) 5 [mkOut (lit "a") false; mkOut (lit "b") false] 2)
    [mkIn (lit "c" ++ [cLF] ++ lit "0" ++ [cLF; cLF]) 5] 
    (mkBody (mkChunked sw_chunk_start 0 5) 0
       [mkOut (lit "a") false; mkOut (lit "b") false; mkOut (lit "c") false; mkOut [] true] 3)
    _ _ _ _ _ _ _); try (vm_compute; reflexivity); try (vm_compute; done).
  unfold in_ok. simpl. lia.
Defined.

Lemma length_filter_exact_witness :
  exists ins b' out,
    ngx_http_request_body_length_filter (mkBody (mkChunked sw_chunk_start 0 0) (-1) [] 3)
      [mkIn (lit "ab") 0; mkIn (lit "cd") 0] = (NGX_OK, ins, b')
    /\ bufs b' = [] ++ out /\ flat out = lit "abc"
    /\ concat (map unread ins) = lit "d"
    /\ rest b' = 0
    /\ match last out with
       | Some o => last_buf o = (rest b' =? 0)
       | None => [mkIn (lit "ab") 0; mkIn (lit "cd") 0] = [] \/ 3 = 0
       end
    /\ Forall (fun o => last_buf o = false) (removelast out).
Proof.
  apply (length_filter_exact (mkBody (mkChunked sw_chunk_start 0 0) (-1) [] 3)
    [mkIn (lit "ab") 0; mkIn (lit "cd") 0]); [done|done|].
  apply Forall_cons; split; [|apply Forall_singleton]; unfold in_ok; simpl; lia.
Defined.

(** A chunk size of more than 64 bits is not refused: it is taken modulo 2^64, so
    that the size 10000000000000001 (hexadecimal) announces one byte. *)
Theorem chunked_size_wraps :
  let text := lit "10000000000000001" ++ [cLF] ++ lit "x" ++ [cLF] ++ lit "0" ++ [cLF; cLF] in
  exists ins b', ngx_http_request_body_chunked_filter 0 new_body [mkIn text 0] = Some (NGX_OK, ins, b')
    /\ flat (bufs b') = lit "x" /\ rest b' = 0.
Proof. eexists _, _. split; [vm_compute; reflexivity|]. by vm_compute. Qed.

End Body.
