(* ===== verification/NgxTimes.v ===== *)
(** * The calendar

    [ngx_gmtime], [ngx_http_time] and [ngx_http_cookie_time] of
    src/nginx-1.7.2/src/core/ngx_times.c, and the Gregorian calendar they are
    checked against: the days of the years and of the months added up one by one
    from January 1, 1970.  The code has closed formulas instead, whose values repeat
    every 400 years; the proofs compute one such period. *)

From S2P Require Import Prelude NgxNumber.

Module Times.

(** [ngx_tm_t]; every field is an [int]. *)
Record ngx_tm := mkTm {
  tm_sec : Z;
  tm_min : Z;
  tm_hour : Z;
  tm_mday : Z;
  tm_mon : Z;
  tm_year : Z;
  tm_wday : Z
}.

#[export] Instance ngx_tm_eq_dec : EqDecision ngx_tm.
Proof. solve_decision. Defined.

(** [(year % 4 == 0) && (year % 100 || (year % 400 == 0))] *)
Definition leap (year : Z) : bool :=
  (year mod 4 =? 0) && (negb (year mod 100 =? 0) || (year mod 400 =? 0)).

Section Code.
Context `{Arch}.

(** [yday] and [year] of [days], counted from March 1, 1 BC. *)
Definition gm_year (days : Z) : Z * Z :=
  let year := uint ptr_bits (uint ptr_bits (days + 2) * 400) / (365 * 400 + 100 - 4 + 1) in
  let yday := sint ptr_bits (days - (365 * year + year / 4 - year / 100 + year / 400)) in
  if yday <? 0
  then (sint ptr_bits (365 + Z.b2z (leap year) + yday), uint ptr_bits (year - 1))
  else (yday, year).

(** [mday], [mon] and [year] of [yday] in the year that began in March. *)
Definition gm_month (yday year : Z) : Z * Z * Z :=
  let mon := uint ptr_bits (Z.quot (sint ptr_bits ((yday + 31) * 10)) 306) in
  let mday := uint ptr_bits (yday - (uint ptr_bits (367 * mon) / 12 - 30) + 1) in
  if 306 <=? yday
  then (mday, uint ptr_bits (mon - 10), uint ptr_bits (year + 1))
  else (mday, uint ptr_bits (mon + 2), year).

Definition ngx_gmtime (t : Z) : ngx_tm :=
  let n := uint ptr_bits t in
  let days := n / 86400 in
  let wday := uint ptr_bits (4 + days) mod 7 in
  let n := n mod 86400 in
  let hour := n / 3600 in
  let n := n mod 3600 in
  let min := n / 60 in
  let sec := n mod 60 in
  let days := uint ptr_bits (days - (31 + 28) + 719527) in
  let '(yday, year) := gm_year days in
  let '(mday, mon, year) := gm_month yday year in
  mkTm (sint 32 sec) (sint 32 min) (sint 32 hour) (sint 32 mday) (sint 32 mon)
    (sint 32 year) (sint 32 wday).

Definition week : list string := ["Sun"; "Mon"; "Tue"; "Wed"; "Thu"; "Fri"; "Sat"]%string.
Definition months : list string :=
  ["Jan"; "Feb"; "Mar"; "Apr"; "May"; "Jun"; "Jul"; "Aug"; "Sep"; "Oct"; "Nov"; "Dec"]%string.

(** [names[i]], a pointer to the string with its terminator. *)
Definition name_ptr (names : list string) (i : Z) : option varg :=
  if i <? 0 then None else (fun s => APtr (lit s ++ [0])) <$> names !! Z.to_nat i.

(** The bytes written at [buf]; [None] is a read outside [week] or [months]. *)
Definition ngx_http_time (buf t : Z) : option (list Z) :=
  let tm := ngx_gmtime t in
  w ← name_ptr week (tm_wday tm);
  m ← name_ptr months (tm_mon tm - 1);
  ngx_sprintf buf (lit "%s, %02d %s %4d %02d:%02d:%02d GMT")
    [w; AInt (tm_mday tm); m; AInt (tm_year tm);
     AInt (tm_hour tm); AInt (tm_min tm); AInt (tm_sec tm)].

Definition ngx_http_cookie_time (buf t : Z) : option (list Z) :=
  let tm := ngx_gmtime t in
  w ← name_ptr week (tm_wday tm);
  m ← name_ptr months (tm_mon tm - 1);
  ngx_sprintf buf
    (if 2037 <? tm_year tm then lit "%s, %02d-%s-%d %02d:%02d:%02d GMT"
     else lit "%s, %02d-%s-%02d %02d:%02d:%02d GMT")
    [w; AInt (tm_mday tm); m;
     AInt (if 2037 <? tm_year tm then tm_year tm else Z.rem (tm_year tm) 100);
     AInt (tm_hour tm); AInt (tm_min tm); AInt (tm_sec tm)].

End Code.

(** ** The calendar *)

Definition year_days (y : Z) : Z := 365 + Z.b2z (leap y).

Definition month_days (y m : Z) : Z :=
  if m =? 2 then 28 + Z.b2z (leap y)
  else if (m =? 4) || (m =? 6) || (m =? 9) || (m =? 11) then 30 else 31.

(** The days of the [n] years from 1970 on, and of the first [n] months of [y]. *)
Fixpoint days_of_years (n : nat) : Z :=
  match n with O => 0 | S n' => days_of_years n' + year_days (1970 + Z.of_nat n') end.

Fixpoint days_of_months (y : Z) (n : nat) : Z :=
  match n with O => 0 | S n' => days_of_months y n' + month_days y (Z.of_nat n) end.

(** Days and seconds from the epoch to a date from 1970 on. *)
Definition epoch_days (y m d : Z) : Z :=
  days_of_years (Z.to_nat (y - 1970)) + days_of_months y (Z.to_nat (m - 1)) + (d - 1).

Definition epoch_seconds (y m d h mi s : Z) : Z :=
  epoch_days y m d * 86400 + h * 3600 + mi * 60 + s.

Definition date_ok (y m d : Z) : Prop := 1 <= m <= 12 /\ 1 <= d <= month_days y m.
Definition clock_ok (h mi s : Z) : Prop := 0 <= h <= 23 /\ 0 <= mi <= 59 /\ 0 <= s <= 59.

#[export] Instance date_ok_dec y m d : Decision (date_ok y m d).
Proof. unfold date_ok. apply _. Defined.

(** ** Closed formulas *)

(** The days between March 1, 1 BC and March 1 of [y]. *)
Definition march_days (y : Z) : Z := 365 * y + y / 4 - y / 100 + y / 400.

(** The days since March 1, 1 BC, by the formula of
    src/nginx-1.7.2/src/http/ngx_http_parse_time.c, and back by the formulas of
    [ngx_gmtime], in unbounded integers. *)
Definition gauss_days (y m d : Z) : Z :=
  let '(y, m) := if m <=? 2 then (y - 1, m + 10) else (y, m - 2) in
  march_days y + (367 * m / 12 - 30) + (d - 1).

Definition civil_year (D : Z) : Z * Z :=
  let year := (D + 2) * 400 / 146097 in
  let yday := D - march_days year in
  if yday <? 0 then (365 + Z.b2z (leap year) + yday, year - 1) else (yday, year).

Definition civil_month (yday year : Z) : Z * Z * Z :=
  let mon := (yday + 31) * 10 / 306 in
  let mday := yday - (367 * mon / 12 - 30) + 1 in
  if 306 <=? yday then (mday, mon - 10, year + 1) else (mday, mon + 2, year).

Definition civil (D : Z) : Z * Z * Z := let '(yday, year) := civil_year D in civil_month yday year.

(** *** Years *)

Lemma year_days_range y : 365 <= year_days y <= 366.
Proof. unfold year_days, Z.b2z. case_test; lia. Qed.

Lemma march_days_step y : march_days (y + 1) = march_days y + year_days (y + 1).
Proof.
  unfold march_days, year_days, leap.
  destruct (Z.eqb_spec ((y + 1) mod 4) 0), (Z.eqb_spec ((y + 1) mod 100) 0),
    (Z.eqb_spec ((y + 1) mod 400) 0); cbn [andb orb negb Z.b2z];
    Z.to_euclidean_division_equations; lia.
Qed.

(** The quotient of [civil_year] is the year or the one after it. *)
Lemma march_days_bounds y : 146097 * y - 800 < 400 * march_days y < 146097 * y + 400.
Proof. unfold march_days. Z.to_euclidean_division_equations. lia. Qed.

Lemma civil_year_spec D y :
  march_days y <= D < march_days (y + 1) -> civil_year D = (D - march_days y, y).
Proof.
  intros HD. unfold civil_year.
  pose proof (march_days_bounds y). pose proof (march_days_bounds (y + 1)).
  assert (Hq : (D + 2) * 400 / 146097 = y \/ (D + 2) * 400 / 146097 = y + 1)
    by (Z.to_euclidean_division_equations; lia).
  destruct Hq as [->| ->].
  - rewrite (proj2 (Z.ltb_ge _ _)) by lia. done.
  - rewrite (proj2 (Z.ltb_lt _ _)) by lia. rewrite march_days_step. unfold year_days. f_equal; lia.
Qed.

Lemma march_year_exists D : exists y, march_days y <= D < march_days (y + 1).
Proof.
  set (q := (D + 2) * 400 / 146097).
  pose proof (march_days_bounds q). pose proof (march_days_bounds (q + 1)).
  pose proof (march_days_bounds (q - 1)).
  assert (Hq : 146097 * q <= (D + 2) * 400 < 146097 * (q + 1))
    by (unfold q; Z.to_euclidean_division_equations; lia).
  destruct (Z.le_gt_cases (march_days q) D) as [Hd|Hd].
  - exists q. pose proof (march_days_step q). pose proof (year_days_range (q + 1)). lia.
  - exists (q - 1). replace (q - 1 + 1) with q by lia. lia.
Qed.

(** *** Months *)

(** The months of a year that begins in March, in the order of their days. *)
Definition march_month (m : Z) : Z := if m <=? 2 then m + 10 else m - 2.

Lemma gauss_days_alt y m d :
  gauss_days y m d = march_days (y - Z.b2z (m <=? 2)) + (367 * march_month m / 12 - 30) + (d - 1).
Proof. unfold gauss_days, march_month. case_test; simpl Z.b2z; do 2 f_equal. by rewrite Z.sub_0_r. Qed.

Lemma civil_month_year yday year :
  civil_month yday year = ((civil_month yday 0).1, year + (civil_month yday 0).2).
Proof. unfold civil_month. case_test; simpl; f_equal; lia. Qed.

(** A property of the integers of an interval, by computation. *)
Fixpoint all_from (P : Z -> bool) (n : nat) (i : Z) : bool :=
  match n with O => true | S n' => if P i then all_from P n' (i + 1) else false end.

Lemma all_from_spec P n i : all_from P n i = true -> forall j, i <= j < i + Z.of_nat n -> P j = true.
Proof.
  revert i. induction n as [|n IH]; intros i Ha j Hj; [lia|]. simpl in Ha.
  case_test_in Ha; [|done]. destruct (Z.eq_dec j i) as [->|]; [done|].
  apply (IH (i + 1)); [done|lia].
Qed.

(** The days of a month in a leap year, which is the year 0. *)
Lemma civil_month_spec yday :
  0 <= yday <= 365 ->
  let '(mday, mon, dy) := civil_month yday 0 in
  1 <= mon <= 12 /\ 1 <= mday <= month_days 0 mon /\ dy = Z.b2z (mon <=? 2)
  /\ 367 * march_month mon / 12 - 30 + (mday - 1) = yday /\ (mon = 2 -> mday = 29 -> yday = 365).
Proof.
  intros Hy.
  pose (P := fun yday => let '(mday, mon, dy) := civil_month yday 0 in bool_decide
    (1 <= mon <= 12 /\ 1 <= mday <= month_days 0 mon /\ dy = Z.b2z (mon <=? 2)
     /\ 367 * march_month mon / 12 - 30 + (mday - 1) = yday /\ (mon = 2 -> mday = 29 -> yday = 365))).
  assert (HP : P yday = true) by (apply (all_from_spec P 366 0); [vm_compute; reflexivity|lia]).
  unfold P in HP. destruct (civil_month yday 0) as [[mday mon] dy].
  by apply bool_decide_eq_true_1 in HP.
Qed.

Lemma month_days_leap y m :
  month_days y m = if (m =? 2) && negb (leap y) then 28 else month_days 0 m.
Proof. unfold month_days. destruct (m =? 2), (leap y); done. Qed.

(** The offset of a day within the year from March, back to month and day. *)
Lemma civil_month_gauss m d :
  1 <= m <= 12 -> 1 <= d <= month_days 0 m ->
  civil_month (367 * march_month m / 12 - 30 + (d - 1)) 0 = (d, m, Z.b2z (m <=? 2))
  /\ 0 <= 367 * march_month m / 12 - 30 + (d - 1) < 366 - Z.b2z ((m =? 2) && (d <? 29)).
Proof.
  intros Hm Hd.
  assert (H31 : month_days 0 m <= 31) by (unfold month_days, Z.b2z; repeat case_test; lia).
  pose (P := fun m d => (month_days 0 m <? d) || bool_decide
    (civil_month (367 * march_month m / 12 - 30 + (d - 1)) 0 = (d, m, Z.b2z (m <=? 2))
     /\ 0 <= 367 * march_month m / 12 - 30 + (d - 1) < 366 - Z.b2z ((m =? 2) && (d <? 29)))).
  assert (H1 : all_from (fun m => all_from (P m) 31 1) 12 1 = true) by (vm_compute; reflexivity).
  pose proof (all_from_spec _ _ _ H1 m ltac:(lia)) as H2.
  pose proof (all_from_spec _ _ _ H2 d ltac:(lia)) as H3. unfold P in H3.
  rewrite (proj2 (Z.ltb_ge _ _)) in H3 by lia. by apply bool_decide_eq_true_1 in H3.
Qed.

(** *** Dates *)

(** Each formula undoes the other. *)
Lemma civil_spec D :
  let '(d, m, y) := civil D in date_ok y m d /\ gauss_days y m d = D.
Proof.
  destruct (march_year_exists D) as [y Hy]. unfold civil. rewrite (civil_year_spec D y Hy).
  rewrite march_days_step in Hy. pose proof (year_days_range (y + 1)).
  pose proof (civil_month_spec (D - march_days y) ltac:(lia)) as Hm.
  rewrite civil_month_year. destruct (civil_month _ 0) as [[d m] dy].
  destruct Hm as (Hm & Hd & -> & HD & H29). simpl. split.
  - split; [done|]. rewrite month_days_leap. destruct (Z.eqb_spec m 2) as [->|]; [|done].
    simpl. destruct (leap (y + 1)) eqn:El; simpl; [done|]. unfold year_days in Hy.
    rewrite El in Hy. change (month_days 0 2) with 29 in Hd. simpl Z.b2z in *.
    destruct (Z.eq_dec d 29); [|lia]. specialize (H29 eq_refl). lia.
  - rewrite gauss_days_alt. replace (y + Z.b2z (m <=? 2) - Z.b2z (m <=? 2)) with y by lia. lia.
Qed.

Lemma civil_gauss y m d : date_ok y m d -> civil (gauss_days y m d) = (d, m, y).
Proof.
  intros [Hm Hd]. rewrite month_days_leap in Hd.
  destruct (civil_month_gauss m d Hm) as [Hc Hr].
  { case_test_in Hd; [|done]. apply andb_true_iff in Heqb as [E _]. apply Z.eqb_eq in E as ->.
    change (month_days 0 2) with 29. lia. }
  set (o := 367 * march_month m / 12 - 30 + (d - 1)) in *. set (y' := y - Z.b2z (m <=? 2)).
  assert (E : gauss_days y m d = march_days y' + o) by (rewrite gauss_days_alt; unfold o, y'; lia).
  unfold civil. rewrite E, (civil_year_spec _ y').
  - replace (march_days y' + o - march_days y') with o by lia.
    rewrite civil_month_year, Hc. simpl. unfold y'. f_equal. lia.
  - rewrite march_days_step. unfold year_days.
    destruct (Z.eqb_spec m 2) as [->|Hm2].
    + unfold y'. simpl Z.b2z in *. replace (y - 1 + 1) with y by lia.
      destruct (leap y); simpl in *; [|rewrite (proj2 (Z.ltb_lt d 29)) in Hr by lia];
        destruct (d <? 29); simpl in Hr; lia.
    + simpl in Hr. enough (o < 365) by (unfold Z.b2z; case_test; lia).
      destruct (Z.eq_dec o 365) as [E5|]; [|lia]. rewrite E5 in Hc. vm_compute in Hc. congruence.
Qed.

(** The closed formula counts the days of the calendar. *)
Lemma days_of_years_march n :
  days_of_years n = march_days (1969 + Z.of_nat n) - march_days 1969.
Proof.
  induction n as [|n IH]; [done|]. cbn [days_of_years]. rewrite IH.
  replace (1969 + Z.of_nat (S n)) with (1969 + Z.of_nat n + 1) by lia.
  rewrite march_days_step. replace (1969 + Z.of_nat n + 1) with (1970 + Z.of_nat n) by lia. lia.
Qed.

(** Case analysis on a month. *)
Lemma month_enum m :
  1 <= m <= 12 -> In m [1; 2; 3; 4; 5; 6; 7; 8; 9; 10; 11; 12].
Proof. simpl. lia. Qed.

Ltac month_cases m :=
  let E := fresh in
  assert (E : In m [1; 2; 3; 4; 5; 6; 7; 8; 9; 10; 11; 12]) by (apply month_enum; lia);
  repeat (destruct E as [E|E]; [subst m|]); [..|destruct E].

Lemma days_of_months_gauss y m :
  1 <= m <= 12 ->
  days_of_months y (Z.to_nat (m - 1)) =
    march_days (y - Z.b2z (m <=? 2)) + (367 * march_month m / 12 - 30) - (march_days (y - 1) + 306).
Proof.
  intros Hm. pose proof (march_days_step (y - 1)) as Hs. replace (y - 1 + 1) with y in Hs by lia.
  unfold year_days in Hs.
  month_cases m;
    match goal with
    | |- context [Z.to_nat ?e] => let k := eval vm_compute in (Z.to_nat e) in change (Z.to_nat e) with k
    end;
    cbn [days_of_months]; unfold month_days, march_month;
    change (Z.b2z (1 <=? 2)) with 1; change (Z.b2z (2 <=? 2)) with 1; simpl Z.b2z;
    rewrite ?Z.sub_0_r, ?Hs; destruct (leap y); simpl; Z.to_euclidean_division_equations; lia.
Qed.

Lemma epoch_days_gauss y m d :
  1970 <= y -> 1 <= m <= 12 -> epoch_days y m d = gauss_days y m d - 719468.
Proof.
  intros Hy Hm. unfold epoch_days. rewrite days_of_years_march, days_of_months_gauss by done.
  rewrite gauss_days_alt, Z2Nat.id by lia. replace (1969 + (y - 1970)) with (y - 1) by lia.
  change (march_days 1969) with 719162. lia.
Qed.

(** ** The code computes the formulas *)

Section CodeLemmas.
Context `{Arch}.

Lemma uint_word x : 0 <= x < 2 ^ 32 -> uint ptr_bits x = x.
Proof. intros. apply uint_small. pose proof ptr_pow_32. lia. Qed.

Lemma sint_word x : - 2 ^ 31 <= x < 2 ^ 31 -> sint ptr_bits x = x.
Proof. intros. apply sint_small; pose proof ptr_bits_pos; [lia|]. pose proof ptr_pow_31. lia. Qed.

Lemma gm_year_civil D y :
  0 <= D -> (D + 2) * 400 < 2 ^ ptr_bits -> 0 <= y ->
  march_days y <= D < march_days (y + 1) -> gm_year D = (D - march_days y, y).
Proof.
  intros HD Hw Hy0 Hy. rewrite <- (civil_year_spec D y Hy). pose proof Hy as Hy'.
  apply civil_year_spec in Hy'. rewrite march_days_step in Hy.
  pose proof (year_days_range (y + 1)) as Hr.
  unfold gm_year, civil_year in *. change (365 * 400 + 100 - 4 + 1) with 146097.
  rewrite (uint_small _ (D + 2)), (uint_small _ ((D + 2) * 400)) by lia.
  set (q := (D + 2) * 400 / 146097) in *. fold (march_days q) in *.
  assert (Hq : 0 <= q) by (apply Z.div_pos; lia).
  assert (q < 2 ^ ptr_bits) by (apply Z.div_lt_upper_bound; lia).
  assert (Hs : - 366 <= D - march_days q <= 366).
  { case_test_in Hy'; injection Hy' as E1 E2; [|lia].
    apply Z.ltb_lt in Heqb. unfold Z.b2z in E1. case_test_in E1; lia. }
  rewrite (sint_word (D - march_days q)) by (simpl; lia).
  case_test; [|done]. injection Hy' as E1 E2.
  rewrite sint_word, uint_small by (simpl; unfold Z.b2z; try case_test; lia). done.
Qed.

Lemma gm_month_civil yday year :
  0 <= yday <= 365 -> 0 <= year < 2 ^ 31 -> gm_month yday year = civil_month yday year.
Proof.
  intros Hd Hy. pose proof (civil_month_spec yday Hd) as Hs. unfold gm_month.
  rewrite sint_word, Z.quot_div_nonneg by (simpl; lia).
  unfold civil_month in *. set (mon := (yday + 31) * 10 / 306) in *.
  assert (1 <= mon <= 12) by (unfold mon; Z.to_euclidean_division_equations; lia).
  change (2 ^ 31) with 2147483648 in *.
  rewrite (uint_word mon), (uint_word (367 * mon)) by (simpl; lia).
  assert (month_days 0 (mon - 10) <= 31 /\ month_days 0 (mon + 2) <= 31)
    by (unfold month_days, Z.b2z; repeat case_test; lia).
  case_test; destruct Hs as (Hm & Hmd & _);
    rewrite !uint_word by (change (2 ^ 32) with 4294967296; lia); done.
Qed.

(** A time on which the code is meant to work: not negative, and in a year that
    fits an [int]. *)
Definition time_ok (t : Z) : Prop := 0 <= t < 2 ^ (ptr_bits - 1) /\ t < 2 ^ 55.

Lemma gmtime_civil t :
  time_ok t ->
  let '(d, m, y) := civil (t / 86400 + 719468) in
  ngx_gmtime t = mkTm (t mod 60) (t mod 3600 / 60) (t mod 86400 / 3600) d m y ((4 + t / 86400) mod 7)
  /\ 1970 <= y < 2 ^ 31.
Proof.
  intros [Ht H55]. change (2 ^ 55) with 36028797018963968 in H55. change (2 ^ 31) with 2147483648.
  assert (H2 : 2 ^ ptr_bits = 2 * 2 ^ (ptr_bits - 1)).
  { pose proof ptr_bits_pos. rewrite <- Z.pow_succ_r by lia. f_equal. lia. }
  pose proof ptr_pow_31 as H31. change (2 ^ 31) with 2147483648 in H31.
  set (D := t / 86400 + 719468).
  assert (HD : 719468 <= D /\ 86400 * (D - 719468) <= t) by (unfold D; Z.to_euclidean_division_equations; lia).
  destruct (march_year_exists D) as [y Hy].
  pose proof (march_days_bounds y). pose proof (march_days_bounds (y + 1)).
  pose proof (year_days_range (y + 1)). pose proof (march_days_step y).
  assert (Hy1 : 1969 <= y < 2147483646) by lia.
  unfold ngx_gmtime. rewrite (uint_small _ t) by lia.
  assert (Hd : 0 <= t / 86400 <= t) by (Z.to_euclidean_division_equations; lia).
  rewrite (uint_small _ (4 + t / 86400)) by lia.
  replace (t / 86400 - (31 + 28) + 719527) with D by (unfold D; lia).
  rewrite (uint_small _ D) by lia.
  rewrite (gm_year_civil D y), gm_month_civil by (change (2 ^ 31) with 2147483648; lia).
  unfold civil. rewrite (civil_year_spec D y Hy).
  pose proof (civil_month_spec (D - march_days y) ltac:(lia)) as Hm.
  rewrite civil_month_year. destruct (civil_month (D - march_days y) 0) as [[d m] dy].
  destruct Hm as (Hm & Hmd & -> & Ho & _). simpl.
  assert (month_days 0 m <= 31) by (unfold month_days, Z.b2z; repeat case_test; lia).
  assert (0 <= Z.b2z (m <=? 2) <= 1) by (unfold Z.b2z; case_test; lia).
  assert (Hyear : 1970 <= y + Z.b2z (m <=? 2)).
  { destruct (Z.leb_spec m 2); simpl; [lia|]. destruct (Z.eq_dec y 1969) as [->|]; [|lia].
    change (march_days 1969) with 719162 in *. exfalso.
    assert (D - 719162 < 306); [|lia]. rewrite <- Ho. unfold march_month.
    rewrite (proj2 (Z.leb_gt _ _)) by lia.
    unfold month_days in Hmd. simpl Z.b2z in Hmd.
    Z.to_euclidean_division_equations; repeat case_test_in Hmd; lia. }
  split; [|lia].
  rewrite !sint_small by (simpl; Z.to_euclidean_division_equations; lia).
  f_equal; Z.to_euclidean_division_equations; lia.
Qed.

End CodeLemmas.

(** ** Dates as text *)

(** The decimal digits of a number below 100 and below 10000. *)
Definition two (n : Z) : list Z := [n / 10 + c_0; n mod 10 + c_0].
Definition four (n : Z) : list Z := two (n / 100) ++ two (n mod 100).

Definition name_of (names : list string) (i : Z) : list Z :=
  from_option lit [] (names !! Z.to_nat i).

Definition clock_text (h mi s : Z) : list Z := two h ++ [cCOLON] ++ two mi ++ [cCOLON] ++ two s.

(** "Sun, 06 Nov 1994 08:49:37 GMT" *)
Definition http_date (tm : ngx_tm) : list Z :=
  name_of week (tm_wday tm) ++ lit ", " ++ two (tm_mday tm) ++ lit " "
  ++ name_of months (tm_mon tm - 1) ++ lit " " ++ four (tm_year tm) ++ lit " "
  ++ clock_text (tm_hour tm) (tm_min tm) (tm_sec tm) ++ lit " GMT".

(** "Sun, 06-Nov-94 08:49:37 GMT", with four digits of the year after 2037 *)
Definition cookie_date (tm : ngx_tm) : list Z :=
  name_of week (tm_wday tm) ++ lit ", " ++ two (tm_mday tm) ++ lit "-"
  ++ name_of months (tm_mon tm - 1) ++ lit "-"
  ++ (if 2037 <? tm_year tm then four (tm_year tm) else two (tm_year tm mod 100)) ++ lit " "
  ++ clock_text (tm_hour tm) (tm_min tm) (tm_sec tm) ++ lit " GMT".

Section Formats.
Context `{Arch}.

Lemma num_digits_small n :
  0 <= n < 10000 ->
  num_digits n 0 = Some (if n <? 10 then [n + c_0] else if n <? 100 then two n
    else if n <? 1000 then n / 100 + c_0 :: two (n mod 100) else four n).
Proof.
  intros Hn.
  pose (P := fun n => bool_decide (num_digits n 0 = Some (if n <? 10 then [n + c_0]
    else if n <? 100 then two n else if n <? 1000 then n / 100 + c_0 :: two (n mod 100) else four n))).
  assert (HP : P n = true)
    by (apply (all_from_spec P (Z.to_nat 10000) 0); [vm_compute; reflexivity|lia]).
  by apply bool_decide_eq_true_1 in HP.
Qed.

Lemma directive_int (w : list Z) room fmt rest n args zero width :
  0 <= n < 10000 -> Z.max width 4 <= room ->
  fmt = w ++ 100 :: rest -> fmt_number (w ++ 100 :: rest) 0 = (100 :: rest, width) ->
  (match fmt with c :: _ => if c =? c_0 then c_0 else cSP | [] => cSP end) = zero ->
  exists p, num_digits n 0 = Some p /\
  fmt_directive fmt room (AInt n :: args) =
    Some (rest, args, repeat zero (Z.to_nat (width - Z.of_nat (length p))) ++ p).
Proof.
  intros Hn Hr -> Hw Hz. rewrite num_digits_small by done. eexists. split; [done|].
  unfold fmt_directive. rewrite Hz, Hw. cbn -[print_number sint uint repeat].
  unfold print_number. cbn -[ngx_sprintf_num uint sint repeat].
  rewrite (sint_small 32 n), (proj2 (Z.ltb_ge _ _)), uint_small by (simpl; lia).
  rewrite (sprintf_num_fits _ _ _ _ _ _ (num_digits_small n Hn)); [done|].
  repeat case_test; simpl; lia.
Qed.

Lemma directive_02d room rest n args :
  0 <= n < 100 -> 4 <= room ->
  fmt_directive (48 :: 50 :: 100 :: rest) room (AInt n :: args) = Some (rest, args, two n).
Proof.
  intros Hn Hr.
  assert (Hw : fmt_number ([48; 50] ++ 100 :: rest) 0 = (100 :: rest, 2)).
  { cbn -[uint]. rewrite (uint_word (0 * 10 + 48 - 48)) by (simpl; lia).
    by rewrite uint_word by (simpl; lia). }
  destruct (directive_int [48; 50] room _ rest n args 48 2 ltac:(lia) ltac:(lia) eq_refl Hw eq_refl)
    as (p & Hp & E).
  rewrite num_digits_small in Hp by lia. simpl app in E. rewrite E. injection Hp as <-.
  do 2 f_equal. destruct (Z.ltb_spec n 10); simpl; [|by rewrite (proj2 (Z.ltb_lt n 100)) by lia].
  unfold two. rewrite Z.div_small, Z.mod_small by lia. done.
Qed.

Lemma directive_4d room rest n args :
  1000 <= n < 10000 -> 4 <= room ->
  fmt_directive (52 :: 100 :: rest) room (AInt n :: args) = Some (rest, args, four n).
Proof.
  intros Hn Hr.
  assert (Hw : fmt_number ([52] ++ 100 :: rest) 0 = (100 :: rest, 4)).
  { cbn -[uint]. by rewrite !uint_word by (simpl; lia). }
  destruct (directive_int [52] room _ rest n args 32 4 ltac:(lia) ltac:(lia) eq_refl Hw eq_refl)
    as (p & Hp & E).
  rewrite num_digits_small in Hp by lia. simpl app in E. rewrite E. injection Hp as <-.
  rewrite !(proj2 (Z.ltb_ge n _)) by lia. done.
Qed.

Lemma directive_d room rest n args :
  1000 <= n < 10000 -> 4 <= room ->
  fmt_directive (100 :: rest) room (AInt n :: args) = Some (rest, args, four n).
Proof.
  intros Hn Hr.
  destruct (directive_int [] room _ rest n args 32 0 ltac:(lia) ltac:(lia) eq_refl eq_refl eq_refl)
    as (p & Hp & E).
  rewrite num_digits_small in Hp by lia. simpl app in E. rewrite E. injection Hp as <-.
  rewrite !(proj2 (Z.ltb_ge n _)) by lia. done.
Qed.

Lemma directive_name room rest names i a args :
  Forall (fun s => length (lit s) = 3%nat /\ Forall (fun c => c <> 0) (lit s)) names ->
  name_ptr names i = Some a -> 3 <= room ->
  fmt_directive (115 :: rest) room (a :: args) = Some (rest, args, name_of names i).
Proof.
  intros Hn Ha Hr. unfold name_ptr, name_of in *. case_test_in Ha; [done|].
  destruct (names !! Z.to_nat i) as [s|] eqn:E; [|done]. simpl in Ha. injection Ha as <-.
  pose proof (Forall_lookup_1 _ _ _ _ Hn E) as [Hl Hz]. simpl from_option.
  destruct (lit s) as [|x [|y [|z [|]]]]; try done.
  repeat (apply Forall_cons in Hz as [? Hz]).
  unfold fmt_directive, conv_string. cbn -[copy_cstr]. simpl copy_cstr.
  rewrite !(proj2 (Z.eqb_neq _ 0)), !(proj2 (Z.ltb_lt 0 _)) by lia. done.
Qed.

Lemma week_names : Forall (fun s => length (lit s) = 3%nat /\ Forall (fun c => c <> 0) (lit s)) week.
Proof. by apply (bool_decide_unpack _). Qed.

Lemma months_names : Forall (fun s => length (lit s) = 3%nat /\ Forall (fun c => c <> 0) (lit s)) months.
Proof. by apply (bool_decide_unpack _). Qed.

Lemma name_ptr_some names i :
  0 <= i < Z.of_nat (length names) -> exists a, name_ptr names i = Some a.
Proof.
  intros Hi. unfold name_ptr. rewrite (proj2 (Z.ltb_ge _ _)) by lia.
  destruct (lookup_lt_is_Some_2 names (Z.to_nat i)) as [s ->]; [lia|]. by eexists.
Qed.

Lemma name_of_length names i :
  Forall (fun s => length (lit s) = 3%nat /\ Forall (fun c => c <> 0) (lit s)) names ->
  0 <= i < Z.of_nat (length names) -> length (name_of names i) = 3%nat.
Proof.
  intros Hn Hi. unfold name_of.
  destruct (lookup_lt_is_Some_2 names (Z.to_nat i)) as [s Hs]; [lia|]. rewrite Hs.
  exact (proj1 (Forall_lookup_1 _ _ _ _ Hn Hs)).
Qed.

(** What [ngx_gmtime] leaves in the fields that are printed. *)
Lemma gmtime_fields t :
  time_ok t ->
  let tm := ngx_gmtime t in
  0 <= tm_wday tm < 7 /\ 1 <= tm_mon tm <= 12 /\ 1 <= tm_mday tm < 32 /\ 1970 <= tm_year tm
  /\ 0 <= tm_hour tm < 24 /\ 0 <= tm_min tm < 60 /\ 0 <= tm_sec tm < 60.
Proof.
  intros Ht. pose proof (gmtime_civil t Ht) as Hg. pose proof (civil_spec (t / 86400 + 719468)) as Hc.
  destruct (civil _) as [[d m] y]. destruct Hg as [-> Hy]. destruct Hc as [[Hm Hd] _]. simpl.
  assert (month_days y m <= 31) by (unfold month_days, Z.b2z; repeat case_test; lia).
  Z.to_euclidean_division_equations; lia.
Qed.

(** One directive or character of a format whose arguments are in range. *)
Ltac fmt_step :=
  first
    [ rewrite vslprintf_char by lia
    | erewrite vslprintf_directive;
        [| |lazymatch goal with
            | |- fmt_directive (48 :: _) _ _ = _ => eapply directive_02d; lia
            | |- fmt_directive (52 :: _) _ _ = _ => eapply directive_4d; lia
            | |- fmt_directive (100 :: _) _ _ = _ => eapply directive_d; lia
            | _ => first [eapply directive_name; [apply week_names|eassumption|lia]
                         |eapply directive_name; [apply months_names|eassumption|lia]]
            end]; [|lia] ];
  rewrite ?(name_of_length week), ?(name_of_length months) by
    (apply week_names || apply months_names || (simpl; lia));
  try change (Z.of_nat (length (two _))) with 2; try change (Z.of_nat (length (four _))) with 4;
  change (Z.of_nat 3) with 3.

Lemma http_time_text buf t :
  time_ok t -> tm_year (ngx_gmtime t) <= 9999 -> buf + 40 <= 2 ^ ptr_bits ->
  ngx_http_time buf t = Some (http_date (ngx_gmtime t)).
Proof.
  intros Ht Hy Hb. pose proof (gmtime_fields t Ht) as Hf. unfold ngx_http_time, http_date, clock_text.
  set (tm := ngx_gmtime t) in *. cbv zeta in Hf.
  destruct (name_ptr_some week (tm_wday tm)) as [w Hw]; [simpl; lia|].
  destruct (name_ptr_some months (tm_mon tm - 1)) as [m Hm]; [simpl; lia|].
  rewrite Hw, Hm. cbn [mbind option_bind]. unfold ngx_sprintf. eval_lit.
  repeat fmt_step. rewrite vslprintf_nil. cbn [fmap option_fmap option_map app].
  rewrite <- ?app_assoc. done.
Qed.

Lemma http_cookie_time_text buf t :
  time_ok t -> tm_year (ngx_gmtime t) <= 9999 -> buf + 40 <= 2 ^ ptr_bits ->
  ngx_http_cookie_time buf t = Some (cookie_date (ngx_gmtime t)).
Proof.
  intros Ht Hy Hb. pose proof (gmtime_fields t Ht) as Hf.
  unfold ngx_http_cookie_time, cookie_date, clock_text.
  set (tm := ngx_gmtime t) in *. cbv zeta in Hf.
  destruct (name_ptr_some week (tm_wday tm)) as [w Hw]; [simpl; lia|].
  destruct (name_ptr_some months (tm_mon tm - 1)) as [m Hm]; [simpl; lia|].
  rewrite Hw, Hm. cbn [mbind option_bind]. unfold ngx_sprintf.
  rewrite Z.rem_mod_nonneg by lia. pose proof (Z.mod_pos_bound (tm_year tm) 100 ltac:(lia)).
  destruct (Z.ltb_spec 2037 (tm_year tm)); eval_lit;
    repeat fmt_step; rewrite vslprintf_nil; cbn [fmap option_fmap option_map app];
    rewrite <- ?app_assoc; done.
Qed.

End Formats.

(** A time before the end of [n] years is in one of them. *)
Lemma days_of_years_mono n k : days_of_years n <= days_of_years (n + k).
Proof.
  induction k as [|k IH]; [by rewrite Nat.add_0_r|]. rewrite Nat.add_succ_r. cbn [days_of_years].
  pose proof (year_days_range (1970 + Z.of_nat (n + k))). lia.
Qed.

Lemma days_of_months_nonneg y n : 0 <= days_of_months y n.
Proof.
  induction n as [|n IH]; [done|]. cbn [days_of_months].
  assert (0 <= month_days y (Z.of_nat (S n))) by (unfold month_days, Z.b2z; repeat case_test; lia). lia.
Qed.

Lemma year_bound y m d h mi s n :
  date_ok y m d -> clock_ok h mi s -> epoch_seconds y m d h mi s < days_of_years n * 86400 ->
  y < 1970 + Z.of_nat n.
Proof.
  intros Hd Hk Hs. destruct (Z.lt_ge_cases y (1970 + Z.of_nat n)) as [|Hy]; [done|exfalso].
  unfold epoch_seconds, epoch_days, date_ok, clock_ok in *.
  pose proof (days_of_years_mono n (Z.to_nat (y - 1970) - n)) as Hm.
  replace (n + (Z.to_nat (y - 1970) - n))%nat with (Z.to_nat (y - 1970)) in Hm by lia.
  pose proof (days_of_months_nonneg y (Z.to_nat (m - 1))). lia.
Qed.

(** What the clients of [ngx_gmtime] need of it. *)
Lemma gmtime_epoch `{Arch} t :
  time_ok t ->
  let tm := ngx_gmtime t in
  date_ok (tm_year tm) (tm_mon tm) (tm_mday tm) /\ clock_ok (tm_hour tm) (tm_min tm) (tm_sec tm)
  /\ 1970 <= tm_year tm
  /\ epoch_seconds (tm_year tm) (tm_mon tm) (tm_mday tm) (tm_hour tm) (tm_min tm) (tm_sec tm) = t
  /\ tm_wday tm = (4 + epoch_days (tm_year tm) (tm_mon tm) (tm_mday tm)) mod 7.
Proof.
  intros Ht. pose proof (gmtime_civil t Ht) as Hg. pose proof (civil_spec (t / 86400 + 719468)) as Hc.
  destruct (civil (t / 86400 + 719468)) as [[d m] y] eqn:E.
  destruct Hg as [-> Hy]. destruct Hc as [Hd HD]. cbn -[epoch_seconds epoch_days].
  assert (He : epoch_days y m d = t / 86400) by (rewrite epoch_days_gauss, HD by apply Hd || lia; lia).
  split; [done|]. split; [unfold clock_ok; Z.to_euclidean_division_equations; lia|].
  split; [lia|].
  split; [unfold epoch_seconds; rewrite He; Z.to_euclidean_division_equations; lia|].
  by rewrite He.
Qed.

(** A date and time of day is determined by its seconds. *)
Lemma epoch_seconds_inj y m d h mi s y' m' d' h' mi' s' :
  1970 <= y -> date_ok y m d -> clock_ok h mi s ->
  1970 <= y' -> date_ok y' m' d' -> clock_ok h' mi' s' ->
  epoch_seconds y m d h mi s = epoch_seconds y' m' d' h' mi' s' ->
  (y, m, d, h, mi, s) = (y', m', d', h', mi', s').
Proof.
  intros Hy Hd Hk Hy' Hd' Hk' E. unfold epoch_seconds, clock_ok in *.
  rewrite !epoch_days_gauss in E by (done || apply Hd || apply Hd').
  assert (gauss_days y m d = gauss_days y' m' d' /\ h = h' /\ mi = mi' /\ s = s')
    as (Eg & -> & -> & ->) by lia.
  pose proof (civil_gauss y m d Hd) as H1. rewrite Eg, (civil_gauss y' m' d' Hd') in H1. by simplify_eq.
Qed.

(** ** Theorems *)

(** [ngx_gmtime] agrees with the calendar: for a time of a year that fits an
    [int], it gives a date that exists and a time of day, which counted up from
    1970 are that many seconds, with its day of the week (January 1, 1970 was a
    Thursday); and there is no other such date and time. *)
Theorem gmtime_correct `{Arch} t :
  time_ok t ->
  let tm := ngx_gmtime t in
  1970 <= tm_year tm /\ date_ok (tm_year tm) (tm_mon tm) (tm_mday tm)
  /\ clock_ok (tm_hour tm) (tm_min tm) (tm_sec tm)
  /\ epoch_seconds (tm_year tm) (tm_mon tm) (tm_mday tm) (tm_hour tm) (tm_min tm) (tm_sec tm) = t
  /\ tm_wday tm = (4 + epoch_days (tm_year tm) (tm_mon tm) (tm_mday tm)) mod 7
  /\ forall y m d h mi s, 1970 <= y -> date_ok y m d -> clock_ok h mi s ->
      epoch_seconds y m d h mi s = t -> tm = mkTm s mi h d m y (tm_wday tm).
Proof.
  intros Ht. pose proof (gmtime_epoch t Ht) as Hg. cbv zeta in *.
  destruct (ngx_gmtime t) as [s0 mi0 h0 d0 m0 y0 w]. simpl in *.
  destruct Hg as (Hd & Hk & Hy & He & Hw). split_and!; try done.
  intros y m d h mi s Hy' Hd' Hk' Hs. rewrite <- Hs in He.
  apply epoch_seconds_inj in He; [|done..]. by simplify_eq.
Qed.

Lemma gmtime_correct_witness :
  @ngx_gmtime ilp32 784111777 = mkTm 37 49 8 6 11 1994 0.
Proof.
  apply (@gmtime_correct ilp32 784111777); [split; [split; [lia|reflexivity]|lia]|lia| | |reflexivity];
    by apply (bool_decide_unpack _).
Defined.

End Times.
