(* ===== verification/HttpParseTime.v ===== *)
(** * Dates in headers

    [ngx_http_parse_time] of src/nginx-1.7.2/src/http/ngx_http_parse_time.c, which
    reads the three formats of dates in HTTP headers.  A pointer [p] is the list of
    the bytes from it to [end]; a read at or after [end] is [Fault]. *)

From S2P Require Import Prelude NgxNumber NgxTimes.

Module ParseTime.
Import Times.

(** What a part of the function does: go on with a value, return [NGX_ERROR], or
    read outside the string. *)
Inductive got (A : Type) := Got (a : A) | Bad | Fault.
Arguments Got {A} a.
Arguments Bad {A}.
Arguments Fault {A}.

#[export] Instance got_bind : MBind got :=
  fun A B k g => match g with Got a => k a | Bad => Bad | Fault => Fault end.

(** [fmt]; before the day is read it is [no] or [isoc]. *)
Inductive format := no | rfc822 | rfc850 | isoc.

(** [p[i]] *)
Definition rd (p : list Z) (i : nat) : got Z :=
  match p !! i with Some c => Got c | None => Fault end.

(** [if (p[i] < '0' || p[i] > '9') return NGX_ERROR], and the digit. *)
Definition digit (p : list Z) (i : nat) : got Z :=
  c ← rd p i; if (c <? c_0) || (c_9 <? c) then Bad else Got (c - c_0).

Definition digits2 (p : list Z) : got Z :=
  a ← digit p 0; b ← digit p 1; Got (a * 10 + b).

Definition digits4 (p : list Z) : got Z :=
  a ← digit p 0; b ← digit p 1; c ← digit p 2; d ← digit p 3;
  Got (a * 1000 + b * 100 + c * 10 + d).

(** [if ( *p++ != c) return NGX_ERROR] *)
Definition expect (c : Z) (p : list Z) : got (list Z) :=
  x ← rd p 0; if x =? c then Got (drop 1 p) else Bad.

(** The loop to the first comma or space. *)
Fixpoint scan_weekday (p : list Z) : list Z * format :=
  match p with
  | [] => (p, no)
  | c :: p' =>
      if c =? cCOMMA then (p, no) else if c =? cSP then (p, isoc) else scan_weekday p'
  end.

(** The loop over the spaces that follow. *)
Fixpoint skip_blanks (p : list Z) : list Z :=
  match p with
  | [] => []
  | c :: p' => if c =? cSP then skip_blanks p' else p
  end.

(** The day of the first two formats, which tells them apart. *)
Definition rfc_day (p : list Z) : got (format * Z * list Z) :=
  day ← digits2 p;
  let p := drop 2 p in
  c ← rd p 0;
  if c =? cSP then
    if Z.of_nat (length p) <? 18 then Bad else Got (rfc822, day, drop 1 p)
  else if c =? cMINUS then Got (rfc850, day, drop 1 p)
  else Bad.

(** [switch ( *p)] *)
Definition month_name (p : list Z) : got Z :=
  c ← rd p 0;
  if c =? 74 (* J *) then
    c1 ← rd p 1;
    if c1 =? 97 (* a *) then Got 0
    else c2 ← rd p 2; if c2 =? 110 (* n *) then Got 5 else Got 6
  else if c =? 70 (* F *) then Got 1
  else if c =? 77 (* M *) then c2 ← rd p 2; if c2 =? 114 (* r *) then Got 2 else Got 4
  else if c =? 65 (* A *) then c1 ← rd p 1; if c1 =? 112 (* p *) then Got 3 else Got 7
  else if c =? 83 (* S *) then Got 8
  else if c =? 79 (* O *) then Got 9
  else if c =? 78 (* N *) then Got 10
  else if c =? 68 (* D *) then Got 11
  else Bad.

(** The separator after the month, then the year of the first two formats; the
    third has neither yet. *)
Definition rfc_year (fmt : format) (p : list Z) : got (Z * list Z) :=
  match fmt with
  | rfc822 => p ← expect cSP p; year ← digits4 p; Got (year, drop 4 p)
  | rfc850 =>
      p ← expect cMINUS p; year ← digits2 p;
      Got (year + (if year <? 70 then 2000 else 1900), drop 2 p)
  | _ => Got (2038, drop 1 p)
  end.

(** The day of the third format. *)
Definition isoc_day (p : list Z) : got (Z * list Z) :=
  c ← rd p 0;
  let p := if c =? cSP then drop 1 p else p in
  day ← digit p 0;
  let p := drop 1 p in
  c ← rd p 0;
  '(day, p) ← (if negb (c =? cSP) then b ← digit p 0; Got (day * 10 + b, drop 1 p)
               else Got (day, p));
  if Z.of_nat (length p) <? 14 then Bad else Got (day, p).

Definition day_time (p : list Z) : got (Z * Z * Z * list Z) :=
  p ← expect cSP p; hour ← digits2 p;
  p ← expect cCOLON (drop 2 p); min ← digits2 p;
  p ← expect cCOLON (drop 2 p); sec ← digits2 p;
  Got (hour, min, sec, p).

(** The year of the third format; [p] is at the seconds. *)
Definition isoc_year (p : list Z) : got Z := p ← expect cSP (drop 2 p); digits4 p.

Definition mday : list Z := [31; 28; 31; 30; 31; 30; 31; 31; 30; 31; 30; 31].

(** The checks of the ranges. *)
Definition in_range (day month year hour min sec : Z) : bool :=
  if (23 <? hour) || (59 <? min) || (59 <? sec) then false
  else if (day =? 29) && (month =? 1) then
    negb (negb (Z.land year 3 =? 0) || ((year mod 100 =? 0) && negb (year mod 400 =? 0)))
  else negb (nth (Z.to_nat month) mday 0 <? day).

(** The seconds of a date, at the widths of the types. *)
Definition gauss_time `{Arch} (day month year hour min sec : Z) : Z :=
  let month := month - 1 in
  let '(month, year) :=
    if month <=? 0 then (month + 12, uint ptr_bits (year - 1)) else (month, year) in
  let days := uint ptr_bits
    (365 * year + year / 4 - year / 100 + year / 400
     + Z.quot (367 * month) 12 - 30 + day - 1 - 719527 + 31 + 28) in
  uint 64 (days * 86400 + hour * 3600 + min * 60 + sec).

Definition parse_time `{Arch} (value : list Z) : got Z :=
  let '(p, fmt) := scan_weekday value in
  let p := skip_blanks (drop 1 p) in
  if Z.of_nat (length p) <? 18 then Bad
  else
    '(fmt, day, p) ← (match fmt with isoc => Got (isoc, 32, p) | _ => rfc_day p end);
    month ← month_name p;
    '(year, p) ← rfc_year fmt (drop 3 p);
    '(day, p) ← (match fmt with isoc => isoc_day p | _ => Got (day, p) end);
    '(hour, min, sec, p) ← day_time p;
    year ← (match fmt with isoc => isoc_year p | _ => Got year end);
    if negb (in_range day month year hour min sec) then Bad
    else
      let time := gauss_time day month year hour min sec in
      if (ptr_bits <=? 32) && (2147483647 <? time) then Bad else Got (sint ptr_bits time).

(** The result; [None] is a read outside the string. *)
Definition ngx_http_parse_time `{Arch} (value : list Z) : option Z :=
  match parse_time value with Got t => Some t | Bad => Some NGX_ERROR | Fault => None end.

(** ** Reading outside the string *)

(** [g] does not fault, and what it gives satisfies [Q]. *)
Definition safe {A} (Q : A -> Prop) (g : got A) : Prop :=
  match g with Got a => Q a | Bad => True | Fault => False end.

Lemma safe_bind {A B} (Q : A -> Prop) (R : B -> Prop) (g : got A) (k : A -> got B) :
  safe Q g -> (forall a, Q a -> safe R (k a)) -> safe R (g ≫= k).
Proof. destruct g; simpl; auto. Qed.

Lemma safe_weaken {A} (Q R : A -> Prop) g : safe Q g -> (forall a, Q a -> R a) -> safe R g.
Proof. destruct g; simpl; auto. Qed.

Lemma safe_rd p i : (i < length p)%nat -> safe (fun _ => True) (rd p i).
Proof. intros Hi. unfold rd. by destruct (lookup_lt_is_Some_2 p i Hi) as [c ->]. Qed.

(** Go through the binds of the goal. *)
Ltac safe_step :=
  lazymatch goal with
  | |- safe _ (if ?a <? ?b then _ else _) => destruct (Z.ltb_spec a b)
  | |- safe _ (if ?b then _ else _) => destruct b eqn:?
  | |- safe _ (_ ≫= _) => eapply safe_bind; [|intros ? ?; cbv beta]
  | |- safe _ (Got _) => simpl
  | |- safe _ Bad => exact I
  | |- safe _ (rd _ _) => apply safe_rd
  end.

(** Use the lemma of the first part of a bind. *)
Tactic Notation "safe_by" uconstr(lem) "as" simple_intropattern(x) simple_intropattern(h) :=
  eapply safe_bind; [apply lem; rewrite ?length_drop; lia|]; cbv beta; intros x h;
  rewrite ?length_drop in *.

Lemma safe_digit p i : (i < length p)%nat -> safe (fun _ => True) (digit p i).
Proof. intros Hi. unfold digit. repeat safe_step; done. Qed.

Lemma safe_digits2 p : (2 <= length p)%nat -> safe (fun _ => True) (digits2 p).
Proof.
  intros Hp. unfold digits2. repeat safe_step; try apply safe_digit; (done || lia).
Qed.

Lemma safe_digits4 p : (4 <= length p)%nat -> safe (fun _ => True) (digits4 p).
Proof.
  intros Hp. unfold digits4. repeat safe_step; try apply safe_digit; (done || lia).
Qed.

Lemma safe_expect c p :
  (1 <= length p)%nat -> safe (fun p' => length p' = length p - 1)%nat (expect c p).
Proof.
  intros Hp. unfold expect. repeat safe_step; [lia|]. by rewrite length_drop.
Qed.

Lemma safe_month_name p : (3 <= length p)%nat -> safe (fun _ => True) (month_name p).
Proof. intros Hp. unfold month_name. repeat safe_step; (done || lia). Qed.

Lemma safe_rfc_day p :
  (18 <= length p)%nat ->
  safe (fun '(fmt, _, p') => match fmt with
    | rfc822 => 17 <= length p' | rfc850 => 15 <= length p' | _ => False end)%nat (rfc_day p).
Proof.
  intros Hp. unfold rfc_day. safe_by safe_digits2 as day _.
  safe_by safe_rd as c _.
  repeat safe_step; rewrite ?length_drop in *; lia.
Qed.

(** What is left after the year: "time" and the separator before it, or for the third
    format what was there less a byte. *)
Lemma safe_rfc_year fmt p :
  match fmt with rfc822 => 14 <= length p | rfc850 => 12 <= length p | _ => True end%nat ->
  safe (fun '(_, p') => match fmt with
    | rfc822 | rfc850 => 9 <= length p' | _ => length p' = length p - 1 end)%nat (rfc_year fmt p).
Proof.
  destruct fmt; cbn [rfc_year]; intros Hp; [apply length_drop| | |apply length_drop];
    safe_by safe_expect as p' Hp'; (safe_by safe_digits4 as year _ || safe_by safe_digits2 as year _);
    simpl; rewrite length_drop; lia.
Qed.

Lemma safe_isoc_day p :
  (14 <= length p)%nat -> safe (fun '(_, p') => 14 <= length p')%nat (isoc_day p).
Proof.
  intros Hp. unfold isoc_day. safe_by safe_rd as c _. cbv zeta.
  set (p1 := if c =? 32 then drop 1 p else p).
  assert (13 <= length p1)%nat by (unfold p1; case_test; rewrite ?length_drop; lia).
  safe_by safe_digit as day _.
  safe_by safe_rd as c2 _.
  apply (safe_bind (fun _ => True)).
  - destruct (negb (c2 =? 32)); simpl; [|done].
    eapply safe_bind; [apply safe_digit; rewrite length_drop; lia|]. done.
  - intros [d p2] _. safe_step; simpl; [done|lia].
Qed.

Lemma safe_day_time p :
  (9 <= length p)%nat ->
  safe (fun '(_, _, _, p') => length p' = length p - 7)%nat (day_time p).
Proof.
  intros Hp. unfold day_time.
  safe_by safe_expect as p1 H1.
  safe_by safe_digits2 as h _.
  safe_by safe_expect as p2 H2.
  safe_by safe_digits2 as mi _.
  safe_by safe_expect as p3 H3.
  safe_by safe_digits2 as s _. simpl. lia.
Qed.

Lemma safe_isoc_year p : (7 <= length p)%nat -> safe (fun _ => True) (isoc_year p).
Proof.
  intros Hp. unfold isoc_year.
  safe_by safe_expect as p1 H1. apply safe_digits4. lia.
Qed.

(** The two checks of [end - p] cover every read: *)
Lemma parse_time_safe_aux `{Arch} value : safe (fun _ => True) (parse_time value).
Proof.
  unfold parse_time. destruct (scan_weekday value) as [p0 f0].
  set (p := skip_blanks (drop 1 p0)). cbv zeta.
  destruct (Z.ltb_spec (Z.of_nat (length p)) 18) as [|Hp]; [done|].
  apply (safe_bind (fun '(fmt, _, p') => match fmt with
    | rfc822 => 17 <= length p' | rfc850 => 15 <= length p' | isoc => 18 <= length p'
    | no => False end)%nat).
  { destruct f0; simpl; try lia;
      (eapply safe_weaken; [apply safe_rfc_day; lia|]; intros [[[] ?] ?]; lia). }
  intros [[fmt day] p1] H1.
  apply (safe_bind (fun _ => True)); [apply safe_month_name; destruct fmt; lia|]. intros month _.
  eapply safe_bind; [apply safe_rfc_year; rewrite ?length_drop; destruct fmt; lia|].
  intros [year p2] H2. rewrite length_drop in H2.
  apply (safe_bind (fun '(_, p3) => match fmt with isoc => 14 | _ => 9 end <= length p3)%nat).
  { destruct fmt; simpl; try lia. apply safe_isoc_day. lia. }
  intros [day' p3] H3.
  eapply safe_bind; [apply safe_day_time; destruct fmt; lia|]. intros [[[h mi] s] p4] H4.
  apply (safe_bind (fun _ => True)).
  { destruct fmt; simpl; try done. apply safe_isoc_year. lia. }
  intros year' _. repeat case_test; done.
Qed.

(** ** Reading a date *)

Lemma digit_ok p i d : p !! i = Some (d + c_0) -> 0 <= d < 10 -> digit p i = Got d.
Proof.
  intros Hp Hd. unfold digit, rd. rewrite Hp. simpl.
  rewrite (proj2 (Z.ltb_ge _ _)), (proj2 (Z.ltb_ge c_9 _)) by lia. simpl. f_equal. lia.
Qed.

Lemma two_range n : 0 <= n < 100 -> 0 <= n / 10 < 10 /\ 0 <= n mod 10 < 10 /\ n = n / 10 * 10 + n mod 10.
Proof. intros Hn. Z.to_euclidean_division_equations; lia. Qed.

Lemma digits2_two n rest : 0 <= n < 100 -> digits2 (two n ++ rest) = Got n.
Proof.
  intros Hn. destruct (two_range n Hn) as (H1 & H2 & H3). unfold digits2.
  rewrite (digit_ok _ 0 (n / 10)), (digit_ok _ 1 (n mod 10)) by done. simpl. f_equal. lia.
Qed.

Lemma digits4_four n rest : 0 <= n < 10000 -> digits4 (four n ++ rest) = Got n.
Proof.
  intros Hn.
  destruct (two_range (n / 100)) as (H1 & H2 & H3); [Z.to_euclidean_division_equations; lia|].
  destruct (two_range (n mod 100)) as (H4 & H5 & H6); [Z.to_euclidean_division_equations; lia|].
  unfold digits4. rewrite (digit_ok _ 0 (n / 100 / 10)), (digit_ok _ 1 (n / 100 mod 10)),
    (digit_ok _ 2 (n mod 100 / 10)), (digit_ok _ 3 (n mod 100 mod 10)) by done.
  simpl. f_equal. pose proof (Z.div_mod n 100 ltac:(lia)). lia.
Qed.

Lemma drop_two n rest : drop 2 (two n ++ rest) = rest.
Proof. done. Qed.

Lemma expect_cons c rest : expect c (c :: rest) = Got rest.
Proof. unfold expect. simpl. by rewrite Z.eqb_refl, drop_0. Qed.

Lemma month_name_of m rest :
  1 <= m <= 12 ->
  month_name (name_of months (m - 1) ++ rest) = Got (m - 1)
  /\ drop 3 (name_of months (m - 1) ++ rest) = rest.
Proof.
  intros Hm.
  month_cases m; split; reflexivity.
Qed.

Lemma day_time_text h mi s rest :
  0 <= h < 100 -> 0 <= mi < 100 -> 0 <= s < 100 ->
  day_time (cSP :: clock_text h mi s ++ rest) = Got (h, mi, s, two s ++ rest).
Proof.
  intros Hh Hm Hs. unfold day_time, clock_text. rewrite expect_cons. cbn [mbind got_bind].
  rewrite <- !app_assoc, digits2_two by done. cbn [mbind got_bind].
  rewrite drop_two. cbn [app]. rewrite expect_cons. cbn [mbind got_bind].
  rewrite digits2_two by done. cbn [mbind got_bind].
  rewrite drop_two, expect_cons. cbn [mbind got_bind]. by rewrite digits2_two.
Qed.

(** A weekday: anything up to the comma or space. *)
Definition weekday_ok (wd : list Z) : Prop := Forall (fun c => c <> cCOMMA /\ c <> cSP) wd.

Lemma scan_weekday_spec wd c rest :
  weekday_ok wd -> c = cCOMMA \/ c = cSP ->
  scan_weekday (wd ++ c :: rest) = (c :: rest, if c =? cSP then isoc else no).
Proof.
  intros Hw Hc. induction Hw as [|x wd [H1 H2] _ IH]; simpl; [by destruct Hc as [-> | ->]|].
  by rewrite (proj2 (Z.eqb_neq x 44)), (proj2 (Z.eqb_neq x 32)) by done.
Qed.

(** *** The end of the function *)

Lemma in_range_spec d m y h mi s :
  1 <= m <= 12 -> 0 <= y ->
  in_range d (m - 1) y h mi s =
    bool_decide (h <= 23 /\ mi <= 59 /\ s <= 59 /\ d <= month_days y m).
Proof.
  intros Hm Hy. unfold in_range.
  destruct (Z.ltb_spec 23 h); [by rewrite bool_decide_false by lia|].
  destruct (Z.ltb_spec 59 mi); [by rewrite bool_decide_false by lia|].
  destruct (Z.ltb_spec 59 s); [by rewrite bool_decide_false by lia|].
  cbn [orb]. change (Z.land y 3) with (Z.land y (2 ^ 2 - 1)). rewrite land_low by lia.
  change (2 ^ 2) with 4.
  assert (E : bool_decide (h <= 23 /\ mi <= 59 /\ s <= 59 /\ d <= month_days y m) =
    negb (month_days y m <? d)).
  { destruct (Z.ltb_spec (month_days y m) d); simpl;
      [rewrite bool_decide_false|rewrite bool_decide_true]; (done || lia). }
  rewrite E. clear E. unfold month_days, leap.
  destruct (Z.eq_dec m 2) as [->|Hm2].
  - simpl. destruct (y mod 4 =? 0), (y mod 100 =? 0), (y mod 400 =? 0); simpl;
      destruct (Z.eqb_spec d 29) as [->|]; simpl; try done;
      destruct (Z.ltb_spec 28 d); try destruct (Z.ltb_spec 29 d); simpl; (done || lia).
  - rewrite (proj2 (Z.eqb_neq (m - 1) 1)), andb_false_r by lia.
    month_cases m; try reflexivity. lia.
Qed.

Lemma gauss_time_spec `{Arch} d m y h mi s :
  1 <= m <= 12 -> 1970 <= y <= 9999 -> 0 <= d < 100 -> 0 <= h <= 23 -> 0 <= mi <= 59 -> 0 <= s <= 59 ->
  gauss_time d (m - 1) y h mi s = uint 64 (uint ptr_bits (epoch_days y m d) * 86400 + h * 3600 + mi * 60 + s).
Proof.
  intros Hm Hy Hd Hh Hmi Hs. rewrite epoch_days_gauss by lia. unfold gauss_time, gauss_days, march_days.
  destruct (Z.leb_spec (m - 1 - 1) 0), (Z.leb_spec m 2); try lia;
    rewrite ?(uint_small ptr_bits (y - 1)) by (pose proof ptr_pow_32; simpl in *; lia);
    rewrite Z.quot_div_nonneg by lia;
    [replace (m - 1 - 1 + 12) with (m + 10) by lia|replace (m - 1 - 1) with (m - 2) by lia];
    match goal with |- uint 64 (uint _ ?a * _ + _ + _ + _) = uint 64 (uint _ ?b * _ + _ + _ + _) =>
      replace a with b by lia end; done.
Qed.

(** The time of a date, and what the check of the size of [time_t] leaves of it. *)
Definition time_result `{Arch} (t : Z) : Z :=
  if ptr_bits =? 32 then if 0 <=? t <=? 2147483647 then t else NGX_ERROR else t.

Lemma epoch_days_range y m d :
  1970 <= y <= 9999 -> 1 <= m <= 12 -> 0 <= d < 100 -> -1 <= epoch_days y m d < 3000000.
Proof.
  intros Hy Hm Hd. rewrite epoch_days_gauss, gauss_days_alt by lia. unfold march_days, march_month.
  destruct (Z.leb_spec m 2); simpl Z.b2z; Z.to_euclidean_division_equations; lia.
Qed.

Lemma final_time `{Arch} d m y h mi s :
  1 <= m <= 12 -> 1970 <= y <= 9999 -> 0 <= d < 100 -> 0 <= h <= 23 -> 0 <= mi <= 59 -> 0 <= s <= 59 ->
  (let time := gauss_time d (m - 1) y h mi s in
   if (ptr_bits <=? 32) && (2147483647 <? time) then Bad else Got (sint ptr_bits time)) =
  (if (ptr_bits =? 32) && negb (0 <=? epoch_seconds y m d h mi s <=? 2147483647) then Bad
   else Got (epoch_seconds y m d h mi s)).
Proof.
  intros Hm Hy Hd Hh Hmi Hs. rewrite gauss_time_spec by done. cbv zeta.
  pose proof (epoch_days_range y m d Hy Hm Hd) as He. unfold epoch_seconds.
  set (e := epoch_days y m d) in *. set (c := h * 3600 + mi * 60 + s).
  assert (0 <= c < 86400) by (unfold c; lia).
  replace (e * 86400 + h * 3600 + mi * 60 + s) with (e * 86400 + c) by (unfold c; lia).
  destruct ptr_bits_cases as [->| ->]; cbn [Z.eqb Z.leb Pos.eqb Z.compare Pos.compare Pos.compare_cont andb].
  - destruct (Z.leb_spec 0 e).
    + rewrite (uint_small 32 e) by (simpl; lia).
      replace (e * 86400 + h * 3600 + mi * 60 + s) with (e * 86400 + c) by (unfold c; lia).
      rewrite uint_small by (simpl; lia). rewrite (proj2 (Z.leb_le 0 _)) by lia. simpl andb.
      destruct (Z.ltb_spec 2147483647 (e * 86400 + c)), (Z.leb_spec (e * 86400 + c) 2147483647);
        try lia; [done|]. simpl. by rewrite sint_small by (simpl; lia).
    + replace e with (-1) by lia. change (uint 32 (-1)) with 4294967295.
      rewrite uint_small by (simpl; lia). rewrite (proj2 (Z.ltb_lt 2147483647 _)) by lia.
      rewrite (proj2 (Z.leb_gt 0 _)) by lia. done.
  - f_equal. assert (E : uint 64 (uint 64 e * 86400 + h * 3600 + mi * 60 + s) = uint 64 (e * 86400 + c)).
    { unfold uint. rewrite <- (Zplus_mod_idemp_l (e * 86400)), <- (Zmult_mod_idemp_l e), Zplus_mod_idemp_l.
      f_equal. unfold c. lia. }
    rewrite E. destruct (Z.leb_spec 0 e).
    + rewrite uint_small, sint_small by (simpl; lia). done.
    + replace e with (-1) by lia. unfold uint.
      rewrite <- (Z_mod_plus_full _ 1), Z.mod_small by (simpl; lia).
      unfold sint. rewrite <- (Z_mod_plus_full _ (-1)), Z.mod_small by (simpl; lia). simpl. lia.
Qed.

(** *** The three formats *)

(** A date as each format writes it; the third pads the day with a space. *)
Definition date_text (fmt : format) (wd : list Z) (y m d h mi s : Z) : list Z :=
  let mon := name_of months (m - 1) in
  match fmt with
  | rfc850 => wd ++ cCOMMA :: cSP :: two d ++ cMINUS :: mon ++ cMINUS :: two (y mod 100)
      ++ cSP :: clock_text h mi s
  | isoc => wd ++ cSP :: mon ++ cSP :: (if d <? 10 then [cSP; d + c_0] else two d)
      ++ cSP :: clock_text h mi s ++ cSP :: four y
  | _ => wd ++ cCOMMA :: cSP :: two d ++ cSP :: mon ++ cSP :: four y ++ cSP :: clock_text h mi s
  end.

(** The years a format can write. *)
Definition year_ok (fmt : format) (y : Z) : Prop :=
  1970 <= y <= match fmt with rfc850 => 2069 | _ => 9999 end.

(** The end of [parse_time] on the fields it has read. *)
Definition finish `{Arch} (y m d h mi s : Z) : got Z :=
  if negb (in_range d (m - 1) y h mi s) then Bad
  else
    let time := gauss_time d (m - 1) y h mi s in
    if (ptr_bits <=? 32) && (2147483647 <? time) then Bad else Got (sint ptr_bits time).

Lemma name_of_months_cons m rest :
  1 <= m <= 12 -> exists a b c, name_of months (m - 1) ++ rest = a :: b :: c :: rest /\ a <> cSP.
Proof.
  intros Hm.
  month_cases m; do 3 eexists; (split; [reflexivity|done]).
Qed.

Lemma skip_two d rest : 0 <= d < 100 -> skip_blanks (two d ++ rest) = two d ++ rest.
Proof.
  intros Hd. destruct (two_range d Hd) as (H1 & _). unfold two. cbn [app skip_blanks].
  by rewrite (proj2 (Z.eqb_neq _ 32)) by lia.
Qed.

Lemma two_length n : length (two n) = 2%nat.
Proof. done. Qed.

Lemma four_length n : length (four n) = 4%nat.
Proof. done. Qed.

Lemma isoc_day_text d rest :
  0 <= d < 100 -> 13 <= Z.of_nat (length rest) ->
  isoc_day ((if d <? 10 then [cSP; d + c_0] else two d) ++ cSP :: rest) = Got (d, cSP :: rest).
Proof.
  intros Hd Hr. destruct (two_range d Hd) as (H1 & H2 & H3). unfold isoc_day.
  destruct (Z.ltb_spec d 10); cbn -[digit Z.of_nat Z.ltb Z.eqb].
  - change (32 =? 32) with true. cbv iota. rewrite (digit_ok (d + 48 :: _) 0 d) by (done || lia).
    cbn -[Z.of_nat Z.ltb]. rewrite (proj2 (Z.ltb_ge _ _)) by lia. done.
  - rewrite (proj2 (Z.eqb_neq (d / 10 + 48) 32)) by lia.
    rewrite (digit_ok (d / 10 + 48 :: _) 0 (d / 10)) by done.
    cbn -[digit Z.of_nat Z.ltb Z.eqb]. rewrite (proj2 (Z.eqb_neq _ 32)) by lia. cbn [negb].
    rewrite (digit_ok _ 0 (d mod 10)) by done. cbn -[Z.of_nat Z.ltb].
    rewrite (proj2 (Z.ltb_ge _ _)) by (simpl; lia). do 2 f_equal. lia.
Qed.

Lemma rfc822_day_text d rest :
  0 <= d < 100 -> 17 <= Z.of_nat (length rest) ->
  rfc_day (two d ++ cSP :: rest) = Got (rfc822, d, rest).
Proof.
  intros Hd Hr. unfold rfc_day. rewrite digits2_two by done. cbn [mbind got_bind].
  rewrite drop_two. cbn -[Z.of_nat Z.ltb]. rewrite (proj2 (Z.ltb_ge _ _)) by lia. done.
Qed.

Lemma rfc850_day_text d rest :
  0 <= d < 100 -> rfc_day (two d ++ cMINUS :: rest) = Got (rfc850, d, rest).
Proof. intros Hd. unfold rfc_day. by rewrite digits2_two. Qed.

Lemma rfc822_year_text y rest :
  0 <= y < 10000 -> rfc_year rfc822 (cSP :: four y ++ rest) = Got (y, rest).
Proof.
  intros Hy. cbn [rfc_year]. rewrite expect_cons. cbn [mbind got_bind]. by rewrite digits4_four.
Qed.

Lemma rfc850_year_text y rest :
  1970 <= y <= 2069 -> rfc_year rfc850 (cMINUS :: two (y mod 100) ++ rest) = Got (y, rest).
Proof.
  intros Hy. cbn [rfc_year]. rewrite expect_cons. cbn [mbind got_bind].
  pose proof (Z.mod_pos_bound y 100 ltac:(lia)). pose proof (Z.div_mod y 100 ltac:(lia)).
  assert (y / 100 = 19 \/ y / 100 = 20) by lia.
  rewrite digits2_two by done. cbn [mbind got_bind]. rewrite drop_two.
  do 2 f_equal. destruct (Z.ltb_spec (y mod 100) 70); lia.
Qed.

Lemma isoc_year_text s y rest :
  0 <= y < 10000 -> isoc_year (two s ++ cSP :: four y ++ rest) = Got y.
Proof.
  intros Hy. unfold isoc_year. rewrite drop_two, expect_cons. cbn [mbind got_bind].
  by rewrite digits4_four.
Qed.

(** Move all the appends of the text to the right. *)
Ltac flat := repeat (rewrite <- app_assoc || rewrite <- app_comm_cons).

(** A comparison with the length of the text. *)
Ltac len :=
  repeat (rewrite length_app || rewrite length_cons || rewrite two_length || rewrite four_length);
  try case_test; simpl length; lia.

Ltac next := cbn [mbind got_bind].

Lemma parse_time_fields `{Arch} fmt wd y m d h mi s rest :
  fmt <> no -> weekday_ok wd -> year_ok fmt y -> 1 <= m <= 12 ->
  0 <= d < 100 -> 0 <= h < 100 -> 0 <= mi < 100 -> 0 <= s < 100 ->
  parse_time (date_text fmt wd y m d h mi s ++ rest) = finish y m d h mi s.
Proof.
  intros Hf Hw Hy Hm Hd Hh Hmi Hs. unfold parse_time, date_text, year_ok in *.
  assert (Hl : length (name_of months (m - 1)) = 3%nat)
    by (apply name_of_length; [apply months_names|simpl; lia]).
  assert (H8 : length (clock_text h mi s) = 8%nat) by done.
  destruct fmt; [done| | |]; flat; rewrite scan_weekday_spec by (auto || done);
    cbn [Z.eqb Pos.eqb drop skip_blanks]; rewrite ?drop_0.
  - rewrite skip_two by done. rewrite (proj2 (Z.ltb_ge _ 18)) by len.
    rewrite rfc822_day_text by (done || len).
    next. edestruct month_name_of as [-> ->]; [done|]. next. flat.
    rewrite rfc822_year_text by lia. next. flat. by rewrite day_time_text.
  - rewrite skip_two by done. rewrite (proj2 (Z.ltb_ge _ 18)) by len.
    rewrite rfc850_day_text by done.
    next. edestruct month_name_of as [-> ->]; [done|]. next. flat.
    rewrite rfc850_year_text by lia. next. flat. by rewrite day_time_text.
  - destruct (name_of_months_cons m (cSP :: (if d <? 10 then [cSP; d + c_0] else two d) ++
      cSP :: clock_text h mi s ++ cSP :: four y ++ rest) Hm) as (a & b & c & Ea & Ha).
    assert (Hsk : skip_blanks (a :: b :: c :: cSP :: (if d <? 10 then [cSP; d + c_0] else two d) ++
      cSP :: clock_text h mi s ++ cSP :: four y ++ rest) = a :: b :: c :: cSP ::
      (if d <? 10 then [cSP; d + c_0] else two d) ++ cSP :: clock_text h mi s ++ cSP :: four y ++ rest)
      by (cbn [skip_blanks]; by rewrite (proj2 (Z.eqb_neq a 32)) by done).
    flat. rewrite Ea, Hsk, <- Ea. rewrite (proj2 (Z.ltb_ge _ 18)) by len.
    next. edestruct month_name_of as [-> ->]; [done|]. cbn [rfc_year drop]. next.
    rewrite drop_0, isoc_day_text by (done || len). next.
    rewrite day_time_text by done. next. by rewrite isoc_year_text by lia.
Qed.

(** ** Theorems *)

(** [ngx_http_parse_time] never reads outside the string it is given, whatever
    the bytes. *)
Theorem parse_time_safe `{Arch} value : exists t, ngx_http_parse_time value = Some t.
Proof.
  pose proof (parse_time_safe_aux value) as Hs. unfold ngx_http_parse_time.
  destruct (parse_time value); simpl in Hs; [by eexists..|done].
Qed.

(** C36: Every date from 1970 on, in each of the three formats and whatever follows it,
    is read to its seconds since the epoch; fields that are no time of day or exceed
    the days of the month are an error, and so is a time that a [time_t] of four bytes
    does not hold.  A day 0 is taken for the last day of the month before. *)
Theorem parse_time_exact `{Arch} fmt wd y m d h mi s rest :
  fmt <> no -> weekday_ok wd -> year_ok fmt y -> 1 <= m <= 12 ->
  0 <= d < 100 -> 0 <= h < 100 -> 0 <= mi < 100 -> 0 <= s < 100 ->
  ngx_http_parse_time (date_text fmt wd y m d h mi s ++ rest) =
    Some (if bool_decide (h <= 23 /\ mi <= 59 /\ s <= 59 /\ d <= month_days y m)
          then time_result (epoch_seconds y m d h mi s) else NGX_ERROR).
Proof.
  intros Hf Hw Hy Hm Hd Hh Hmi Hs. unfold ngx_http_parse_time.
  rewrite parse_time_fields by done. unfold finish.
  assert (1970 <= y <= 9999) by (unfold year_ok in Hy; destruct fmt; lia).
  rewrite in_range_spec by lia.
  destruct (bool_decide_reflect (h <= 23 /\ mi <= 59 /\ s <= 59 /\ d <= month_days y m)) as [Hr|];
    [|done].
  cbn [negb]. rewrite final_time by lia. unfold time_result.
  destruct (ptr_bits =? 32); simpl; [|done]. by destruct (0 <=? _ <=? _).
Qed.

Lemma parse_time_exact_witness :
  @ngx_http_parse_time lp64 (date_text isoc (lit "Sun") 1994 11 6 8 49 37 ++ lit " GMT") =
    Some (epoch_seconds 1994 11 6 8 49 37).
Proof.
  apply (@parse_time_exact lp64 isoc (lit "Sun") 1994 11 6 8 49 37); try done; try lia.
  by apply (bool_decide_unpack _).
Defined.

(** The texts of [ngx_http_time] and [ngx_http_cookie_time] are in the formats read
    here. *)
Lemma http_date_text tm :
  http_date tm = date_text rfc822 (name_of week (tm_wday tm)) (tm_year tm) (tm_mon tm) (tm_mday tm)
    (tm_hour tm) (tm_min tm) (tm_sec tm) ++ lit " GMT".
Proof. unfold http_date, date_text. eval_lit. flat. done. Qed.

Lemma cookie_date_text tm :
  tm_year tm <= 2037 ->
  cookie_date tm = date_text rfc850 (name_of week (tm_wday tm)) (tm_year tm) (tm_mon tm) (tm_mday tm)
    (tm_hour tm) (tm_min tm) (tm_sec tm) ++ lit " GMT".
Proof.
  intros Hy. unfold cookie_date, date_text. rewrite (proj2 (Z.ltb_ge _ _)) by lia.
  eval_lit. flat. done.
Qed.

Lemma week_ok i : weekday_ok (name_of week i).
Proof.
  unfold weekday_ok, name_of. destruct (week !! Z.to_nat i) as [s|] eqn:E; [|constructor].
  revert E. apply (Forall_lookup_1 (fun s => Forall (fun c => c <> cCOMMA /\ c <> cSP) (lit s))).
  by apply (bool_decide_unpack _).
Qed.

(** Reading the text of a time that [ngx_gmtime] took apart. *)
Lemma parse_gmtime `{Arch} fmt t rest :
  time_ok t -> fmt <> no -> year_ok fmt (tm_year (ngx_gmtime t)) ->
  let tm := ngx_gmtime t in
  ngx_http_parse_time (date_text fmt (name_of week (tm_wday tm)) (tm_year tm) (tm_mon tm)
    (tm_mday tm) (tm_hour tm) (tm_min tm) (tm_sec tm) ++ rest) = Some t.
Proof.
  intros Ht Hf Hy. pose proof (gmtime_epoch t Ht) as Hg. pose proof (gmtime_fields t Ht) as Hr.
  cbv zeta in *. destruct Hg as (Hd & Hk & _ & He & _).
  unfold ngx_http_parse_time. rewrite parse_time_fields by (apply week_ok || done || lia).
  unfold finish.
  assert (Hy9 : 1970 <= tm_year (ngx_gmtime t) <= 9999) by (unfold year_ok in Hy; destruct fmt; lia).
  rewrite in_range_spec by lia.
  rewrite bool_decide_true by (unfold date_ok, clock_ok in *; lia). cbn [negb].
  rewrite final_time, He by lia. destruct Ht as [Ht _].
  destruct ptr_bits_cases as [E|E]; rewrite E in *; [|done].
  change (2 ^ (32 - 1)) with 2147483648 in Ht.
  by rewrite (proj2 (Z.leb_le 0 t)), (proj2 (Z.leb_le t 2147483647)) by lia.
Qed.

(** A time printed by [ngx_http_time] is read back by [ngx_http_parse_time], for
    every time up to the end of the year 9999 that fits a [time_t]. *)
Theorem http_time_roundtrip `{Arch} buf t :
  0 <= t < 2 ^ (ptr_bits - 1) -> t < 253402300800 -> buf + 40 <= 2 ^ ptr_bits ->
  exists out, ngx_http_time buf t = Some out /\ length out = 29%nat
    /\ ngx_http_parse_time out = Some t.
Proof.
  intros Ht H9 Hb. assert (Hok : time_ok t) by (split; [done|simpl; lia]).
  pose proof (gmtime_epoch t Hok) as (Hd & Hk & Hy & He & _). cbv zeta in *.
  assert (Hyb : tm_year (ngx_gmtime t) < 1970 + Z.of_nat (Z.to_nat 8030)).
  { eapply year_bound; [done..|]. rewrite He, days_of_years_march, Z2Nat.id by lia. exact H9. }
  rewrite Z2Nat.id in Hyb by lia.
  exists (http_date (ngx_gmtime t)). split; [apply http_time_text; (done || lia)|]. split.
  - pose proof (gmtime_fields t Hok) as Hf. cbv zeta in Hf. unfold http_date, clock_text.
    rewrite !length_app, (name_of_length week), (name_of_length months); try done;
      (apply week_names || apply months_names || (simpl; lia)).
  - rewrite http_date_text. apply parse_gmtime; [done..|]. unfold year_ok. lia.
Qed.

Lemma http_time_roundtrip_witness :
  exists out, @ngx_http_time ilp32 4096 2147483647 = Some out /\ length out = 29%nat
    /\ @ngx_http_parse_time ilp32 out = Some 2147483647.
Proof. apply (@http_time_roundtrip ilp32); [split; [lia|reflexivity]|lia|simpl; lia]. Defined.

(** A time printed by [ngx_http_cookie_time] is read back by
    [ngx_http_parse_time], up to the end of the year 2037. *)
Theorem http_cookie_time_roundtrip `{Arch} buf t :
  0 <= t < 2145916800 -> buf + 40 <= 2 ^ ptr_bits ->
  exists out, ngx_http_cookie_time buf t = Some out /\ ngx_http_parse_time out = Some t.
Proof.
  intros Ht Hb. pose proof ptr_pow_31 as H31. change (2 ^ 31) with 2147483648 in H31.
  assert (Hok : time_ok t) by (split; [lia|simpl; lia]).
  pose proof (gmtime_epoch t Hok) as (Hd & Hk & Hy & He & _). cbv zeta in *.
  assert (tm_year (ngx_gmtime t) < 1970 + Z.of_nat 68).
  { eapply year_bound; [done..|]. rewrite He. exact (proj2 Ht). }
  exists (cookie_date (ngx_gmtime t)). split; [apply http_cookie_time_text; (done || lia)|].
  rewrite cookie_date_text by lia. apply parse_gmtime; [done..|]. unfold year_ok. lia.
Qed.

Lemma http_cookie_time_roundtrip_witness :
  exists out, @ngx_http_cookie_time lp64 4096 2145916799 = Some out
    /\ @ngx_http_parse_time lp64 out = Some 2145916799.
Proof. apply (@http_cookie_time_roundtrip lp64); [lia|simpl; lia]. Defined.

(** From 2038 on the text of [ngx_http_cookie_time] has a four-digit year, which
    [ngx_http_parse_time] does not read in this format. *)
Theorem cookie_time_2038 :
  @ngx_http_cookie_time lp64 4096 2145916800 = Some (lit "Fri, 01-Jan-2038 00:00:00 GMT")
  /\ @ngx_http_parse_time lp64 (lit "Fri, 01-Jan-2038 00:00:00 GMT") = Some NGX_ERROR.
Proof. split; vm_compute; reflexivity. Qed.

(** A day 0 is accepted. *)
Theorem parse_time_day_zero :
  @ngx_http_parse_time ilp32 (lit "Wed, 00 Mar 2000 00:00:00 GMT") =
    Some (epoch_seconds 2000 2 29 0 0 0).
Proof. vm_compute. reflexivity. Qed.

(** In January and February of the year 0 the unsigned [year - 1] wraps, and the
    time is off by an amount that is not even a number of days. *)
Theorem parse_time_year_zero :
  @ngx_http_parse_time lp64 (lit "Sat, 01 Jan 0000 00:00:00 GMT") = Some (-62167208832)
  /\ (-62167208832) mod 86400 <> 0.
Proof. split; [vm_compute; reflexivity|done]. Qed.

End ParseTime.
