(* ===== verification/NgxParse.v ===== *)
(** * Sizes and times of the configuration

    [ngx_parse_size], [ngx_parse_offset] and [ngx_parse_time] of
    src/nginx-1.7.2/src/core/ngx_parse.c.  The configuration strings have a byte
    after them, which [ngx_parse_time] may look at. *)

From S2P Require Import Prelude NgxNumber.

Module Parse.

(** ** Sizes *)

(** The unit at the end of the line, as the switches of [ngx_parse_size] and, with
    [giga], of [ngx_parse_offset] take it: the bytes to cut off and the scale. *)
Definition size_unit (giga : bool) (unit : Z) : nat * Z :=
  if (unit =? 75) (* K *) || (unit =? 107) (* k *) then (1%nat, 1024)
  else if (unit =? 77) (* M *) || (unit =? 109) (* m *) then (1%nat, 1024 * 1024)
  else if giga && ((unit =? 71) (* G *) || (unit =? 103) (* g *)) then (1%nat, 1024 * 1024 * 1024)
  else (0%nat, 1).

(** [None] is the read of [data[-1]] of an empty line. *)
Definition ngx_parse_size `{Arch} (line : list Z) : option Z :=
  unit ← last line;
  let '(cut, scale) := size_unit false unit in
  let size := ngx_atosz (take (length line - cut) line) in
  Some (if size =? NGX_ERROR then NGX_ERROR else sint ptr_bits (size * scale)).

Definition ngx_parse_offset (line : list Z) : option Z :=
  unit ← last line;
  let '(cut, scale) := size_unit true unit in
  let offset := ngx_atoof (take (length line - cut) line) in
  Some (if offset =? NGX_ERROR then NGX_ERROR else sint 64 (offset * scale)).

(** ** Times *)

Definition NGX_MAX_INT32_VALUE : Z := 2147483647.

Inductive step := st_start | st_year | st_month | st_week | st_day | st_hour | st_min | st_sec | st_msec | st_last.

#[export] Instance step_eq_dec : EqDecision step.
Proof. solve_decision. Defined.

(** The value of an enumerator. *)
Definition step_num (s : step) : Z :=
  match s with
  | st_start => 0 | st_year => 1 | st_month => 2 | st_week => 3 | st_day => 4
  | st_hour => 5 | st_min => 6 | st_sec => 7 | st_msec => 8 | st_last => 9
  end.

(** What a case of the switch sets, after its check of [step]: [step], [max] and [scale]. *)
Definition unit_if (refused : bool) (s : step) (scale : Z) : option (step * Z * Z) :=
  if refused then None else Some (s, NGX_MAX_INT32_VALUE / scale, scale).

(** The switch on a byte that is not a digit; [c2] is the byte after it, read for
    'm' only.  The result is the case's effect and whether it took [c2] too; [None] is
    [return NGX_ERROR]. *)
Definition time_unit (is_sec : bool) (st : step) (c c2 : Z) : option (step * Z * Z * bool) :=
  let one := fmap (M := option) (fun u : step * Z * Z => (u, false)) in
  if c =? 121 (* y *) then
    one (unit_if (step_num st_start <? step_num st) st_year (60 * 60 * 24 * 365))
  else if c =? 77 (* M *) then
    one (unit_if (step_num st_month <=? step_num st) st_month (60 * 60 * 24 * 30))
  else if c =? 119 (* w *) then
    one (unit_if (step_num st_week <=? step_num st) st_week (60 * 60 * 24 * 7))
  else if c =? 100 (* d *) then
    one (unit_if (step_num st_day <=? step_num st) st_day (60 * 60 * 24))
  else if c =? 104 (* h *) then
    one (unit_if (step_num st_hour <=? step_num st) st_hour (60 * 60))
  else if c =? 109 (* m *) then
    if c2 =? 115 (* s *) then
      (fun u => (u, true)) <$> unit_if (is_sec || (step_num st_msec <=? step_num st)) st_msec 1
    else one (unit_if (step_num st_min <=? step_num st) st_min 60)
  else if c =? 115 (* s *) then one (unit_if (step_num st_sec <=? step_num st) st_sec 1)
  else if c =? cSP then one (unit_if (step_num st_sec <=? step_num st) st_last 1)
  else None.

(** [while (p < last && *p == ' ') { p++; }] *)
Fixpoint skip_spaces (p : list Z) : list Z :=
  match p with c :: p' => if c =? cSP then skip_spaces p' else p | [] => [] end.

(** The rest of an iteration: [scale] and [max] in milliseconds, the checks, and the
    new [total]; [None] is [return NGX_ERROR]. *)
Definition add_unit `{Arch} (is_sec : bool) (st : step) (max scale value total : Z) : option Z :=
  let '(scale, max) :=
    if negb (bool_decide (st = st_msec)) && negb is_sec
    then (sint ptr_bits (scale * 1000), max / 1000) else (scale, max) in
  if max <? uint ptr_bits value then None
  else
    let total := sint ptr_bits (total + value * scale) in
    if NGX_MAX_INT32_VALUE <? uint ptr_bits total then None else Some total.

(** The loop; [after] is the byte at [last].  Every iteration takes a byte; [None] is
    the end of the fuel. *)
Fixpoint time_loop `{Arch} (fuel : nat) (is_sec : bool) (after : Z) (p : list Z)
    (st : step) (value total : Z) (valid : bool) : option Z :=
  match fuel with
  | O => None
  | S fuel' =>
      match p with
      | [] =>
          Some (if valid then sint ptr_bits (total + value * (if is_sec then 1 else 1000))
                else NGX_ERROR)
      | c :: p' =>
          if c_0 <=? c <=? c_9 then
            time_loop fuel' is_sec after p' st (sint ptr_bits (value * 10 + (c - c_0))) total true
          else
            match time_unit is_sec st c (hd after p') with
            | None => Some NGX_ERROR
            | Some (st, max, scale, took) =>
                let p' := if took : bool then drop 1 p' else p' in
                match add_unit is_sec st max scale value total with
                | None => Some NGX_ERROR
                | Some total =>
                    time_loop fuel' is_sec after (skip_spaces p') st 0 total valid
                end
            end
      end
  end.

Definition first_step (is_sec : bool) : step := if is_sec then st_start else st_month.

Definition ngx_parse_time `{Arch} (line : list Z) (after : Z) (is_sec : bool) : option Z :=
  time_loop (S (length line)) is_sec after line (first_step is_sec) 0 0 false.

(** ** A time as text *)

(** A number with its unit, which is named by the [step] its case sets, and the spaces
    after it. *)
Record item := mkItem { i_digits : list Z; i_unit : step; i_spaces : nat }.

Definition unit_text (u : step) : list Z :=
  match u with
  | st_year => lit "y" | st_month => lit "M" | st_week => lit "w" | st_day => lit "d"
  | st_hour => lit "h" | st_min => lit "m" | st_sec => lit "s" | st_msec => lit "ms"
  | _ => lit " "
  end.

Definition unit_seconds (u : step) : Z :=
  match u with
  | st_year => 31536000 | st_month => 2592000 | st_week => 604800 | st_day => 86400
  | st_hour => 3600 | st_min => 60 | _ => 1
  end.

(** A unit in seconds, or in milliseconds. *)
Definition unit_value (is_sec : bool) (u : step) : Z :=
  if is_sec then unit_seconds u
  else match u with st_msec => 1 | _ => unit_seconds u * 1000 end.

Definition item_text (i : item) : list Z :=
  map (fun d => d + c_0) (i_digits i) ++ unit_text (i_unit i) ++ repeat cSP (i_spaces i).

Definition item_value (is_sec : bool) (i : item) : Z :=
  num_value 10 (i_digits i) * unit_value is_sec (i_unit i).

(** The unit [u] may follow [st]: units only get smaller, years and months are not for
    milliseconds and "ms" is for them only. *)
Definition may_follow (is_sec : bool) (st u : step) : bool :=
  match u with
  | st_msec => negb is_sec && (step_num st <? 8)
  | st_last => step_num st <? 7
  | _ => step_num st <? step_num u
  end.

Fixpoint ordered (is_sec : bool) (st : step) (items : list item) : bool :=
  match items with
  | [] => true
  | i :: items' => may_follow is_sec st (i_unit i) && ordered is_sec (i_unit i) items'
  end.

Definition sum_value (is_sec : bool) (items : list item) : Z :=
  foldr (fun i v => item_value is_sec i + v) 0 items.

Definition digits_ok (ds : list Z) : Prop := Forall (fun d => 0 <= d < 10) ds.

Definition item_ok `{Arch} (i : item) : Prop :=
  digits_ok (i_digits i) /\ i_digits i <> [] /\ num_value 10 (i_digits i) < 2 ^ (ptr_bits - 1)
  /\ i_unit i <> st_start.

Section Times.
Context `{Arch}.

Lemma time_loop_digits ds rest after is_sec st v total valid fuel :
  digits_ok ds -> 0 <= v -> fold_left (fun v d => v * 10 + d) ds v < 2 ^ (ptr_bits - 1) ->
  (length ds + length rest < fuel)%nat ->
  exists fuel', (length rest < fuel')%nat /\
  time_loop fuel is_sec after (map (fun d => d + c_0) ds ++ rest) st v total valid =
    time_loop fuel' is_sec after rest st (fold_left (fun v d => v * 10 + d) ds v) total
      (valid || negb (bool_decide (ds = []))).
Proof.
  revert v valid fuel. induction ds as [|d ds IH]; intros v valid fuel Hd Hv Hlt Hf.
  { exists fuel. by rewrite orb_false_r. }
  apply Forall_cons in Hd as [Hd Hds]. destruct fuel as [|fuel]; [simpl in Hf; lia|].
  simpl in Hf, Hlt.
  assert (v * 10 + d <= fold_left (fun v d => v * 10 + d) ds (v * 10 + d)).
  { rewrite num_value_acc. pose proof (num_value_range 10 ds ltac:(lia) Hds).
    assert (1 <= 10 ^ Z.of_nat (length ds)) by (apply (Z.pow_le_mono_r 10 0); lia). nia. }
  destruct (IH (v * 10 + d) true fuel) as (f & Hf' & E); [done|lia|done|lia|].
  exists f. split; [done|]. cbn [map app time_loop].
  rewrite (proj2 (Z.leb_le 48 _)), (proj2 (Z.leb_le _ 57)) by lia. cbn [andb].
  replace (d + 48 - 48) with d by lia.
  rewrite sint_small by (pose proof ptr_bits_pos; lia). rewrite E. cbn [fold_left].
  rewrite orb_true_r. done.
Qed.

Lemma skip_spaces_repeat n rest :
  hd 0 rest <> cSP -> skip_spaces (repeat cSP n ++ rest) = rest.
Proof.
  intros Hr. induction n as [|n IH]; [|done]. destruct rest as [|c rest]; [done|]. simpl in *.
  by rewrite (proj2 (Z.eqb_neq c 32)).
Qed.

(** The switch on a unit, whatever follows it. *)
Lemma time_unit_text is_sec st u rest after :
  u <> st_start -> hd after rest <> 115 ->
  exists c p', unit_text u ++ rest = c :: p' /\ (c_0 <=? c <=? c_9) = false /\
  time_unit is_sec st c (hd after p') =
    (if may_follow is_sec st u
     then Some (u, NGX_MAX_INT32_VALUE / unit_seconds u, unit_seconds u, bool_decide (u = st_msec))
     else None)
  /\ (if bool_decide (u = st_msec) then drop 1 p' else p') = rest.
Proof.
  intros Hu Hr. destruct u; [done|..]; (do 2 eexists; split; [reflexivity|]; split; [done|]);
    (split; [|done || (simpl; by rewrite drop_0)]);
    unfold time_unit; cbn [hd Z.eqb Pos.eqb app lit unit_text].
  all: try (rewrite (proj2 (Z.eqb_neq _ 115)) by done).
  all: destruct is_sec, st; reflexivity.
Qed.

Lemma unit_value_div is_sec u value :
  may_follow is_sec (first_step is_sec) u = true ->
  0 <= value ->
  (let max := NGX_MAX_INT32_VALUE / unit_seconds u in
   if negb (bool_decide (u = st_msec)) && negb is_sec then max / 1000 else max) < value
  <-> NGX_MAX_INT32_VALUE < value * unit_value is_sec u.
Proof.
  unfold NGX_MAX_INT32_VALUE. intros Hf Hv. destruct u, is_sec; try done; simpl;
    Z.to_euclidean_division_equations; lia.
Qed.

(** The checks add the value exactly, or find that the sum is too large. *)
Lemma add_unit_spec is_sec u value total :
  may_follow is_sec (first_step is_sec) u = true ->
  0 <= value < 2 ^ (ptr_bits - 1) -> 0 <= total <= NGX_MAX_INT32_VALUE ->
  add_unit is_sec u (NGX_MAX_INT32_VALUE / unit_seconds u) (unit_seconds u) value total =
    (if total + value * unit_value is_sec u <=? NGX_MAX_INT32_VALUE
     then Some (total + value * unit_value is_sec u) else None).
Proof.
  intros Hu Hv Ht. pose proof (unit_value_div is_sec u value Hu (proj1 Hv)) as Hd.
  pose proof ptr_bits_pos as Hb. pose proof ptr_pow_31 as H31. pose proof ptr_pow_32 as H32.
  change (2 ^ 31) with 2147483648 in H31. change (2 ^ 32) with 4294967296 in H32.
  assert (H2 : 2 ^ ptr_bits = 2 * 2 ^ (ptr_bits - 1)) by (rewrite <- Z.pow_succ_r by lia; f_equal; lia).
  unfold add_unit.
  assert (Es : (if negb (bool_decide (u = st_msec)) && negb is_sec
    then (sint ptr_bits (unit_seconds u * 1000), NGX_MAX_INT32_VALUE / unit_seconds u / 1000)
    else (unit_seconds u, NGX_MAX_INT32_VALUE / unit_seconds u)) =
    (unit_value is_sec u, if negb (bool_decide (u = st_msec)) && negb is_sec
      then NGX_MAX_INT32_VALUE / unit_seconds u / 1000 else NGX_MAX_INT32_VALUE / unit_seconds u)).
  { destruct u, is_sec; try done; cbn -[sint Z.div]; rewrite sint_small by lia; done. }
  rewrite Es. cbv zeta in Hd. set (max := if negb _ && negb _ then _ else _) in *.
  rewrite (uint_small _ value) by lia. unfold NGX_MAX_INT32_VALUE in *.
  destruct (Z.ltb_spec max value) as [Hm|Hm].
  { apply Hd in Hm. rewrite (proj2 (Z.leb_gt _ _)) by lia. done. }
  assert (Hp : 0 <= value * unit_value is_sec u <= 2147483647).
  { split; [apply Z.mul_nonneg_nonneg; [lia|destruct u, is_sec; done]|]. lia. }
  set (sum := total + value * unit_value is_sec u) in *. assert (0 <= sum < 4294967295) by lia.
  assert (Eu : uint ptr_bits (sint ptr_bits sum) = sum).
  { unfold uint, sint. rewrite Zminus_mod_idemp_l. replace (sum + _ - _) with sum by lia.
    apply Z.mod_small. lia. }
  rewrite Eu. destruct (Z.ltb_spec 2147483647 sum), (Z.leb_spec sum 2147483647); try lia; [done|].
  by rewrite sint_small by lia.
Qed.

Lemma sum_value_nonneg is_sec items : Forall item_ok items -> 0 <= sum_value is_sec items.
Proof.
  induction 1 as [|i items Hi _ IH]; [done|]. simpl. unfold item_value.
  destruct Hi as (Hd & _). pose proof (num_value_range 10 _ ltac:(lia) Hd).
  assert (0 <= unit_value is_sec (i_unit i)) by (destruct (i_unit i), is_sec; done). nia.
Qed.

Lemma may_follow_first is_sec st u :
  step_num (first_step is_sec) <= step_num st ->
  may_follow is_sec st u = true -> may_follow is_sec (first_step is_sec) u = true
    /\ (u <> st_start -> step_num (first_step is_sec) <= step_num u).
Proof. destruct is_sec, st, u; simpl; intros; (split; [done|lia]) || lia. Qed.

(** One item. *)
Lemma time_loop_item is_sec after i rest st total valid fuel :
  after <> 115 -> hd 0 rest <> cSP -> hd after rest <> 115 -> item_ok i ->
  step_num (first_step is_sec) <= step_num st -> 0 <= total <= NGX_MAX_INT32_VALUE ->
  (length (item_text i) + length rest < fuel)%nat ->
  exists fuel', (length rest < fuel')%nat /\
  time_loop fuel is_sec after (item_text i ++ rest) st 0 total valid =
    (if may_follow is_sec st (i_unit i) && (total + item_value is_sec i <=? NGX_MAX_INT32_VALUE)
     then time_loop fuel' is_sec after rest (i_unit i) 0 (total + item_value is_sec i) true
     else Some NGX_ERROR).
Proof.
  intros Ha Hsp Hs (Hid & Hne & Hiv & Hiu) Hst Ht Hf. unfold item_text in *.
  rewrite !length_app, length_map in Hf. rewrite <- !app_assoc.
  pose proof (num_value_range 10 _ ltac:(lia) Hid) as Hr.
  assert (Hsr : hd after (repeat cSP (i_spaces i) ++ rest) <> 115) by (by destruct (i_spaces i)).
  destruct (time_unit_text is_sec st (i_unit i) (repeat cSP (i_spaces i) ++ rest) after Hiu Hsr)
    as (c & p' & Ep & Ec & Eu & Er).
  destruct (time_loop_digits (i_digits i) (unit_text (i_unit i) ++ repeat cSP (i_spaces i) ++ rest)
    after is_sec st 0 total valid fuel) as (f & Hf' & ->); [done|lia|done| |].
  { rewrite !length_app. lia. }
  rewrite (bool_decide_false _ Hne), orb_true_r. rewrite !length_app in Hf'.
  assert (Hul : (1 <= length (unit_text (i_unit i)))%nat) by (destruct (i_unit i); simpl; lia).
  destruct f as [|f]; [lia|]. exists f. split; [lia|].
  rewrite Ep. cbn [time_loop]. rewrite Ec, Eu.
  destruct (may_follow is_sec st (i_unit i)) eqn:Em; [|done].
  destruct (may_follow_first is_sec st (i_unit i) Hst Em) as [Hm1 _].
  change (fold_left _ (i_digits i) 0) with (num_value 10 (i_digits i)).
  rewrite Er, skip_spaces_repeat, add_unit_spec by (done || lia).
  fold (item_value is_sec i). cbn [andb]. by destruct (total + item_value is_sec i <=? NGX_MAX_INT32_VALUE).
Qed.

(** Items and a last number without a unit. *)
Definition time_text (items : list item) (ds : list Z) : list Z :=
  concat (map item_text items) ++ map (fun d => d + c_0) ds.

(** What follows an item is a digit or the end. *)
Lemma time_text_head items ds a :
  Forall item_ok items -> digits_ok ds -> hd a (time_text items ds) = a \/ c_0 <= hd a (time_text items ds).
Proof.
  intros Hi Hd. destruct Hi as [|i items (Hid & Hne & _) _]; unfold time_text; simpl.
  - destruct Hd; simpl; lia.
  - unfold item_text. destruct Hid; [done|]. simpl. lia.
Qed.

Lemma time_text_digit items ds a :
  Forall item_ok items -> digits_ok ds -> hd a (time_text items ds) = a \/ hd a (time_text items ds) <= c_9.
Proof.
  intros Hi Hd. destruct Hi as [|i items (Hid & Hne & _) _]; unfold time_text; simpl.
  - destruct Hd; simpl; lia.
  - unfold item_text. destruct Hid; [done|]. simpl. lia.
Qed.

Lemma time_loop_items is_sec after items ds :
  after <> 115 -> Forall item_ok items -> digits_ok ds -> num_value 10 ds < 2 ^ (ptr_bits - 1) ->
  forall st total valid fuel,
  step_num (first_step is_sec) <= step_num st -> 0 <= total <= NGX_MAX_INT32_VALUE ->
  (length (time_text items ds) < fuel)%nat ->
  time_loop fuel is_sec after (time_text items ds) st 0 total valid =
    Some (if ordered is_sec st items && (total + sum_value is_sec items <=? NGX_MAX_INT32_VALUE)
             && (valid || negb (bool_decide (items = [])) || negb (bool_decide (ds = [])))
          then sint ptr_bits (total + sum_value is_sec items
                 + num_value 10 ds * (if is_sec then 1 else 1000))
          else NGX_ERROR).
Proof.
  intros Ha Hi Hd Hds. induction Hi as [|i items Hi His IH]; intros st total valid fuel Hst Ht Hf.
  - unfold time_text in *. simpl in *. rewrite <- (app_nil_r (map _ ds)).
    rewrite length_map in Hf.
    destruct (time_loop_digits ds [] after is_sec st 0 total valid fuel) as (f & Hf' & ->);
      [done|lia|done|simpl; lia|].
    destruct f; [lia|]. cbn [time_loop]. rewrite Z.add_0_r, orb_false_r.
    rewrite (proj2 (Z.leb_le total _)) by lia. done.
  - pose proof (sum_value_nonneg is_sec items His) as Hs.
    pose proof (sum_value_nonneg is_sec [i] (List.Forall_cons _ _ _ Hi (List.Forall_nil _))) as Hs1. simpl in Hs1.
    pose proof (time_text_head items ds 0 His Hd) as H0.
    pose proof (time_text_digit items ds after His Hd) as H9.
    assert (E : time_text (i :: items) ds = item_text i ++ time_text items ds)
      by (unfold time_text; simpl; by rewrite app_assoc).
    rewrite E, length_app in *.
    destruct (time_loop_item is_sec after i (time_text items ds) st total valid fuel)
      as (f & Hf' & ->); [done|lia|lia|done|lia..|].
    cbn [ordered]. cbn [sum_value foldr]. fold (sum_value is_sec items).
    destruct (may_follow is_sec st (i_unit i)) eqn:Em; [|done]. cbn [andb].
    destruct (may_follow_first is_sec st (i_unit i) Hst Em) as [_ Hm].
    destruct (Z.leb_spec (total + item_value is_sec i) NGX_MAX_INT32_VALUE) as [Hle|Hgt].
    + rewrite (IH (i_unit i) (total + item_value is_sec i) true f) by (try apply Hm; try apply Hi; lia).
      rewrite !orb_true_r, Z.add_assoc. done.
    + rewrite (proj2 (Z.leb_gt (total + _) NGX_MAX_INT32_VALUE)), andb_false_r by lia. done.
Qed.

End Times.

(** The fuel is enough for every line. *)
Lemma time_spaces_length p : (length (skip_spaces p) <= length p)%nat.
Proof. induction p; simpl; [lia|]. case_test; simpl; lia. Qed.

Lemma time_loop_total `{Arch} fuel is_sec after p st value total valid :
  (length p < fuel)%nat -> is_Some (time_loop fuel is_sec after p st value total valid).
Proof.
  revert p st value total valid. induction fuel as [|fuel IH]; intros p st value total valid Hf; [lia|].
  simpl. destruct p as [|c p]; [by eexists|]. simpl in Hf. case_test; [apply IH; lia|].
  destruct (time_unit is_sec st c (hd after p)) as [[[[st' max] scale] took]|]; [|by eexists].
  destruct (add_unit _ _ _ _ _ _); [|by eexists]. apply IH.
  eapply Nat.le_lt_trans; [apply time_spaces_length|]. destruct took; rewrite ?length_drop; lia.
Qed.

(** ** Theorems *)

(** [ngx_parse_time] returns on every line. *)
Theorem parse_time_returns `{Arch} line after is_sec : is_Some (ngx_parse_time line after is_sec).
Proof. apply time_loop_total. lia. Qed.

(** [ngx_parse_time] on numbers with units: units have to get smaller, the sum may
    not exceed [NGX_MAX_INT32_VALUE] seconds or milliseconds, and then the sum is the
    result; a last number without a unit counts seconds, and is added without a check. *)
Theorem parse_time_units `{Arch} is_sec after items ds :
  after <> 115 -> Forall item_ok items -> digits_ok ds -> num_value 10 ds < 2 ^ (ptr_bits - 1) ->
  ngx_parse_time (time_text items ds) after is_sec =
    Some (if ordered is_sec (first_step is_sec) items
             && (sum_value is_sec items <=? NGX_MAX_INT32_VALUE)
             && negb (bool_decide (items = []) && bool_decide (ds = []))
          then sint ptr_bits (sum_value is_sec items + num_value 10 ds * (if is_sec then 1 else 1000))
          else NGX_ERROR).
Proof.
  intros Ha Hi Hd Hv. unfold ngx_parse_time.
  rewrite time_loop_items by (done || unfold NGX_MAX_INT32_VALUE; lia). by rewrite negb_andb.
Qed.

Lemma parse_time_units_witness :
  @ngx_parse_time ilp32 (lit "1h 30m 5") 0 false = Some 5405000.
Proof.
  apply (@parse_time_units ilp32 false 0 [mkItem [1] st_hour 1; mkItem [3; 0] st_min 1] [5]);
    [lia| |by apply (bool_decide_unpack _)|reflexivity].
  repeat (apply List.Forall_cons; [split_and!; try done; by apply (bool_decide_unpack _)|]).
  apply List.Forall_nil.
Defined.

(** The accumulation of the digits is not checked: a number that wraps is taken for
    what is left of it, and a last number is scaled without a check. *)
Theorem parse_time_wraps :
  @ngx_parse_time ilp32 (lit "4294967297s") 0 true = Some 1
  /\ @ngx_parse_time ilp32 (lit "4294968") 0 false = Some 704.
Proof. split; vm_compute; reflexivity. Qed.

(** The byte after a string that ends in "m" is looked at: were it an "s", minutes
    would be milliseconds. *)
Theorem parse_time_reads_after :
  @ngx_parse_time ilp32 (lit "5m") 0 false = Some 300000
  /\ @ngx_parse_time ilp32 (lit "5m") 115 false = Some 5.
Proof. split; vm_compute; reflexivity. Qed.

(** The scale of a size: no unit, kilobytes or megabytes, and gigabytes for offsets. *)
Inductive size_suffix := bytes | kilo | mega | giga.

Definition suffix_text (u : size_suffix) : list Z :=
  match u with bytes => [] | kilo => lit "k" | mega => lit "m" | giga => lit "g" end.

Definition suffix_scale (u : size_suffix) : Z :=
  match u with bytes => 1 | kilo => 1024 | mega => 1048576 | giga => 1073741824 end.

(** The line is cut where the digits end, and the scale is that of the suffix. *)
Lemma size_unit_text g u ds :
  digits_ok ds -> ds <> [] -> (g = false -> u <> giga) ->
  exists c, last (map (fun d => d + c_0) ds ++ suffix_text u) = Some c
    /\ size_unit g c = (length (suffix_text u), suffix_scale u).
Proof.
  intros Hd Hne Hg. destruct u; simpl.
  - rewrite app_nil_r. destruct ds as [|d ds _] using rev_ind; [done|].
    rewrite map_app. simpl. rewrite last_snoc. eexists. split; [done|].
    apply Forall_app in Hd as [_ Hd]. rewrite Forall_singleton in Hd. unfold size_unit.
    rewrite !(proj2 (Z.eqb_neq (d + 48) _)) by lia. simpl. by rewrite andb_false_r.
  - rewrite last_snoc. by eexists.
  - rewrite last_snoc. by eexists.
  - rewrite last_snoc. eexists. split; [done|]. destruct g; [done|]. by destruct Hg.
Qed.

(** [ngx_parse_size] and [ngx_parse_offset] on a number with an optional unit give
    the number scaled, when the scaled value fits; only offsets may be in gigabytes. *)
Theorem parse_size_value `{Arch} ds u :
  digits_ok ds -> ds <> [] ->
  (u <> giga -> num_value 10 ds * suffix_scale u < 2 ^ (ptr_bits - 1) ->
   ngx_parse_size (map (fun d => d + c_0) ds ++ suffix_text u) = Some (num_value 10 ds * suffix_scale u))
  /\ (num_value 10 ds * suffix_scale u < 2 ^ 63 ->
      ngx_parse_offset (map (fun d => d + c_0) ds ++ suffix_text u) = Some (num_value 10 ds * suffix_scale u)).
Proof.
  intros Hd Hne. pose proof ptr_bits_pos. pose proof (num_value_range 10 ds ltac:(lia) Hd) as Hr.
  assert (Hs : 1 <= suffix_scale u) by (destruct u; done).
  assert (Hl : (1 <= length ds)%nat) by (destruct ds; [done|simpl; lia]).
  assert (Ht : take (length (map (fun d => d + c_0) ds ++ suffix_text u) - length (suffix_text u))
    (map (fun d => d + c_0) ds ++ suffix_text u) = map (fun d => d + c_0) ds).
  { rewrite length_app, Nat.add_sub. apply take_app_length. }
  split; intros Hfit.
  - intros Hv. destruct (size_unit_text false u ds Hd Hne) as (c & Hc & Eu); [done|].
    unfold ngx_parse_size. rewrite Hc. cbn [mbind option_bind]. rewrite Eu, Ht.
    unfold ngx_atosz. rewrite atoi_loop_num by (done || nia).
    rewrite (proj2 (Z.eqb_neq _ _)), sint_small by nia. done.
  - destruct (size_unit_text true u ds Hd Hne) as (c & Hc & Eu); [done|].
    unfold ngx_parse_offset. rewrite Hc. cbn [mbind option_bind]. rewrite Eu, Ht.
    unfold ngx_atoof. change (2 ^ 63) with (2 ^ (64 - 1)) in Hfit.
    rewrite atoi_loop_num by (done || nia).
    rewrite (proj2 (Z.eqb_neq _ _)), sint_small by nia. done.
Qed.

Lemma parse_size_value_witness :
  @ngx_parse_size ilp32 (lit "64k") = Some 65536 /\ ngx_parse_offset (lit "8g") = Some 8589934592.
Proof.
  split.
  - apply (@parse_size_value ilp32 [6; 4] kilo); [by apply (bool_decide_unpack _)|done..].
  - apply (@parse_size_value ilp32 [8] giga); [by apply (bool_decide_unpack _)|done..].
Defined.

(** The multiplication by the unit is not checked: a size of 4 gigabytes is 0 on the
    target of the recorded build. *)
Theorem parse_size_wraps :
  @ngx_parse_size ilp32 (lit "4096m") = Some 0 /\ ngx_parse_offset (lit "17179869184g") = Some 0.
Proof. split; vm_compute; reflexivity. Qed.

End Parse.
