(* ===== verification/NgxRadixTree.v ===== *)
(** * The radix tree

    The 32-bit radix tree of src/nginx-1.7.2/src/core/ngx_radix_tree.c, which maps
    networks (a key and a mask) to values and finds the value of the most specific
    network an address is in.  Its nodes live on a heap, a map from addresses to nodes;
    deleted nodes go to a free list that is linked through their [right] fields, new
    ones come from there or are cut from pages.  The tree is proved to refine a map
    from network prefixes to values. *)

From stdpp Require Import gmap.
From S2P Require Import Prelude.

Module Radix.

(** [ngx_radix_node_t]; NULL is [None]. *)
Record node := mkNode {
  right : option Z;
  left : option Z;
  parent : option Z;
  value : Z
}.

(** [ngx_radix_tree_t], the nodes that have been written, and the address [page] at
    which the pool will give out the next page. *)
Record tree := mkTree {
  heap : gmap Z node;
  root : Z;
  free : option Z;
  start : Z;
  size : Z;
  page : Z
}.

Definition set_heap (h : gmap Z node) (t : tree) : tree :=
  mkTree h (root t) (free t) (start t) (size t) (page t).
Definition set_free (f : option Z) (t : tree) : tree :=
  mkTree (heap t) (root t) f (start t) (size t) (page t).

Definition set_value (v : Z) (n : node) : node := mkNode (right n) (left n) (parent n) v.
Definition set_right (p : option Z) (n : node) : node := mkNode p (left n) (parent n) (value n).
Definition set_left (p : option Z) (n : node) : node := mkNode (right n) p (parent n) (value n).

(** A write through a pointer; [None] is a write to no node. *)
Definition write (p : Z) (f : node -> node) (h : gmap Z node) : option (gmap Z node) :=
  n ← h !! p; Some (<[p := f n]> h).

Section Code.
Context `{Arch}.

(** [ngx_pagesize] *)
Variable pagesize : Z.

(** [sizeof(ngx_radix_node_t)]: three pointers and a [uintptr_t]. *)
Definition node_size : Z := 4 * (ptr_bits / 8).

Definition NGX_RADIX_NO_VALUE : Z := 2 ^ ptr_bits - 1.

(** Cutting the next node from the page, or from a new one.  A page is always given:
    the NULL of [ngx_pmemalign], and the NGX_ERROR of the insertion then, are left out. *)
Definition ngx_radix_alloc (t : tree) : option (Z * tree) :=
  match free t with
  | Some p => n ← heap t !! p; Some (p, set_free (right n) t)
  | None =>
      let '(start, size, page) :=
        if size t <? node_size then (page t, pagesize, page t + pagesize)
        else (start t, size t, page t) in
      Some (start, mkTree (heap t) (root t) None (start + node_size) (size - node_size) page)
  end.

(** [(key & bit) ? node->right : node->left] *)
Definition child (key bit : Z) (n : node) : option Z :=
  if negb (Z.land key bit =? 0) then right n else left n.

Definition set_child (key bit : Z) (p : option Z) (n : node) : node :=
  if negb (Z.land key bit =? 0) then set_right p n else set_left p n.

(** The loops run at most once per bit, and once more. *)
Definition bits_fuel : nat := 34.

(** The first loop of [ngx_radix32tree_insert]: [bit], [node] and [next] after it. *)
Fixpoint insert_walk (fuel : nat) (h : gmap Z node) (key mask bit node : Z) (next : option Z) :
    option (Z * Z * option Z) :=
  match fuel with
  | O => None
  | S fuel' =>
      if Z.land bit mask =? 0 then Some (bit, node, next)
      else
        n ← h !! node;
        match child key bit n with
        | None => Some (bit, node, None)
        | Some next => insert_walk fuel' h key mask (Z.shiftr bit 1) next (Some next)
        end
  end.

(** Its second loop, which adds the missing nodes. *)
Fixpoint insert_grow (fuel : nat) (t : tree) (key mask bit node : Z) : option (tree * Z) :=
  match fuel with
  | O => None
  | S fuel' =>
      if Z.land bit mask =? 0 then Some (t, node)
      else
        '(next, t) ← ngx_radix_alloc t;
        let h := <[next := mkNode None None (Some node) NGX_RADIX_NO_VALUE]> (heap t) in
        h ← write node (set_child key bit (Some next)) h;
        insert_grow fuel' (set_heap h t) key mask (Z.shiftr bit 1) next
  end.

(** The result is the return code; [None] is the dereference of a bad pointer. *)
Definition ngx_radix32tree_insert (t : tree) (key mask value_ : Z) : option (tree * Z) :=
  '(bit, node, next) ← insert_walk bits_fuel (heap t) key mask 2147483648 (root t) (Some (root t));
  match next with
  | Some _ =>
      n ← heap t !! node;
      if negb (value n =? NGX_RADIX_NO_VALUE) then Some (t, NGX_BUSY)
      else
        h ← write node (set_value value_) (heap t);
        Some (set_heap h t, NGX_OK)
  | None =>
      '(t, node) ← insert_grow bits_fuel t key mask bit node;
      h ← write node (set_value value_) (heap t);
      Some (set_heap h t, NGX_OK)
  end.

(** The first loop of [ngx_radix32tree_delete]. *)
Fixpoint delete_walk (fuel : nat) (h : gmap Z node) (key mask bit : Z) (node : option Z) :
    option (option Z) :=
  match fuel with
  | O => None
  | S fuel' =>
      match node with
      | None => Some None
      | Some p =>
          if Z.land bit mask =? 0 then Some (Some p)
          else n ← h !! p; delete_walk fuel' h key mask (Z.shiftr bit 1) (child key bit n)
      end
  end.

Definition childless (n : node) : bool :=
  match right n, left n with None, None => true | _, _ => false end.

(** [for ( ;; )]: cut a node off and free it, then go on with its parent while that
    has no use. *)
Fixpoint delete_prune (fuel : nat) (t : tree) (node : Z) : option tree :=
  match fuel with
  | O => None
  | S fuel' =>
      n ← heap t !! node;
      up ← parent n;
      u ← heap t !! up;
      h ← write up (if bool_decide (right u = Some node) then set_right None else set_left None) (heap t);
      h ← write node (set_right (free t)) h;
      let t := set_free (Some node) (set_heap h t) in
      u ← heap t !! up;
      if negb (childless u) then Some t
      else if negb (value u =? NGX_RADIX_NO_VALUE) then Some t
      else match parent u with None => Some t | Some _ => delete_prune fuel' t up end
  end.

Definition ngx_radix32tree_delete (t : tree) (key mask : Z) : option (tree * Z) :=
  r ← delete_walk bits_fuel (heap t) key mask 2147483648 (Some (root t));
  match r with
  | None => Some (t, NGX_ERROR)
  | Some node =>
      n ← heap t !! node;
      if negb (childless n) then
        if negb (value n =? NGX_RADIX_NO_VALUE) then
          h ← write node (set_value NGX_RADIX_NO_VALUE) (heap t);
          Some (set_heap h t, NGX_OK)
        else Some (t, NGX_ERROR)
      else t ← delete_prune bits_fuel t node; Some (t, NGX_OK)
  end.

(** The loop of [ngx_radix32tree_find]. *)
Fixpoint find_loop (fuel : nat) (h : gmap Z node) (key bit value_ : Z) (node : option Z) : option Z :=
  match fuel with
  | O => None
  | S fuel' =>
      match node with
      | None => Some value_
      | Some p =>
          n ← h !! p;
          let value_ := if negb (value n =? NGX_RADIX_NO_VALUE) then value n else value_ in
          find_loop fuel' h key (Z.shiftr bit 1) value_ (child key bit n)
      end
  end.

Definition ngx_radix32tree_find (t : tree) (key : Z) : option Z :=
  find_loop bits_fuel (heap t) key 2147483648 NGX_RADIX_NO_VALUE (Some (root t)).

(** The inner loop of the preallocation, over the keys of one length. *)
Fixpoint prealloc_keys (fuel : nat) (t : tree) (key mask inc : Z) : option (tree * Z) :=
  match fuel with
  | O => None
  | S fuel' =>
      '(t, rc) ← ngx_radix32tree_insert t key mask NGX_RADIX_NO_VALUE;
      if negb (rc =? NGX_OK) then Some (t, rc)
      else
        let key := uint 32 (key + inc) in
        if key =? 0 then Some (t, NGX_OK) else prealloc_keys fuel' t key mask inc
  end.

(** The outer loop; [inc] is [2 ^ (32 - length)], so a length has [2 ^ 32 / inc] keys.
    The code [NGX_ERROR] is the [return NULL]. *)
Fixpoint prealloc_loop (preallocate : nat) (t : tree) (mask inc : Z) : option (tree * Z) :=
  match preallocate with
  | O => Some (t, NGX_OK)
  | S preallocate' =>
      let mask := Z.lor (Z.shiftr mask 1) 2147483648 in
      '(t, rc) ← prealloc_keys (S (Z.to_nat (4294967296 / inc))) t 0 mask inc;
      if negb (rc =? NGX_OK) then Some (t, NGX_ERROR)
      else prealloc_loop preallocate' t mask (Z.shiftr inc 1)
  end.

(** [ngx_radix_tree_create]; [first] is the address of the pool's next page.  The
    result [None] of [prealloc] is its [return NULL]. *)
Definition radix_empty (first : Z) : option tree :=
  '(p, t) ← ngx_radix_alloc (mkTree ∅ 0 None 0 0 first);
  Some (mkTree (<[p := mkNode None None None NGX_RADIX_NO_VALUE]> (heap t)) p (free t)
    (start t) (size t) (page t)).

Definition ngx_radix_tree_create (first preallocate : Z) : option (tree * Z) :=
  t ← radix_empty first;
  if preallocate =? 0 then Some (t, NGX_OK)
  else
    let preallocate :=
      if preallocate =? -1 then
        if pagesize / node_size =? 128 then 6 else if pagesize / node_size =? 256 then 7 else 8
      else preallocate in
    prealloc_loop (Z.to_nat preallocate) t 0 2147483648.

(** ** The abstract state *)

(** The node of a prefix is named by the bits of the prefix, the last one first.  [rp key
    n] names the node of the first [n] bits of [key]. *)
Abbreviation path := (list bool).

Fixpoint rp (key : Z) (n : nat) : path :=
  match n with O => [] | S n' => Z.testbit key (31 - Z.of_nat n') :: rp key n' end.

(** The length of a mask: its leading ones. *)
Fixpoint leading (fuel : nat) (mask : Z) (i : nat) : nat :=
  match fuel with
  | O => O
  | S fuel' => if Z.testbit mask (31 - Z.of_nat i) then S (leading fuel' mask (S i)) else O
  end.

Definition mask_len (mask : Z) : nat := leading 32 mask 0.

(** The network of a key and a mask. *)
Definition net (key mask : Z) : path := rp key (mask_len mask).

(** The nodes of a tree, by path: their address and value. *)
Abbreviation nodes := (gmap path (Z * Z)).

Definition addr (M : nodes) (ρ : path) : option Z := fst <$> M !! ρ.

(** What the heap holds for the node at [ρ]. *)
Definition node_at (M : nodes) (ρ : path) (v : Z) : node :=
  mkNode (addr M (true :: ρ)) (addr M (false :: ρ))
    (match ρ with [] => None | _ :: ρ' => addr M ρ' end) v.

(** The free list. *)
Fixpoint chain (h : gmap Z node) (p : option Z) (F : list Z) : Prop :=
  match F with
  | [] => p = None
  | a :: F' => p = Some a /\ exists n, h !! a = Some n /\ chain h (right n) F'
  end.

(** The heap holds the nodes [M], and the free list [F] apart from them. *)
Record Rep (t : tree) (M : nodes) (F : list Z) : Prop := mkRep {
  rep_root : addr M [] = Some (root t);
  rep_node : forall ρ a v, M !! ρ = Some (a, v) -> heap t !! a = Some (node_at M ρ v);
  rep_up : forall b ρ, is_Some (M !! (b :: ρ)) -> is_Some (M !! ρ);
  rep_inj : forall ρ1 ρ2 a v1 v2, M !! ρ1 = Some (a, v1) -> M !! ρ2 = Some (a, v2) -> ρ1 = ρ2;
  rep_len : forall ρ, is_Some (M !! ρ) -> (length ρ <= 32)%nat;
  rep_free : chain (heap t) (free t) F;
  rep_nodup : NoDup F;
  rep_apart : forall ρ a v, M !! ρ = Some (a, v) -> a ∉ F;
  rep_fresh : forall a, is_Some (heap t !! a) -> a < start t;
  rep_page : 0 <= size t /\ start t + size t <= page t
}.

(** The networks with a value, which is what the user of the tree sees. *)
Definition routes (M : nodes) : gmap path Z :=
  omap (fun av : Z * Z => if av.2 =? NGX_RADIX_NO_VALUE then None else Some av.2) M.

(** The tree stores the map [R]. *)
Definition Stores (t : tree) (R : gmap path Z) : Prop := exists M F, Rep t M F /\ routes M = R.

(** The value of the longest prefix of [key], of at most [n] bits, in [R]. *)
Fixpoint longest (R : gmap path Z) (key : Z) (n : nat) : Z :=
  match R !! rp key n with
  | Some v => v
  | None => match n with O => NGX_RADIX_NO_VALUE | S n' => longest R key n' end
  end.

(** ** Bits *)

Definition bit_at (n : nat) : Z := Z.shiftr 2147483648 (Z.of_nat n).

Lemma bit_at_next n : Z.shiftr (bit_at n) 1 = bit_at (S n).
Proof. unfold bit_at. rewrite Z.shiftr_shiftr by lia. f_equal. lia. Qed.

Lemma bit_at_test x n : (Z.land x (bit_at n) =? 0) = negb (Z.testbit x (31 - Z.of_nat n)).
Proof.
  assert (E : forall i, Z.testbit (bit_at n) i = (0 <=? i) && (i + Z.of_nat n =? 31)).
  { intros i. unfold bit_at. destruct (Z.leb_spec 0 i); [|by rewrite Z.testbit_neg_r].
    rewrite Z.shiftr_spec by lia. change 2147483648 with (2 ^ 31).
    rewrite Z.pow2_bits_eqb by lia. rewrite Z.eqb_sym. done. }
  destruct (Z.testbit x (31 - Z.of_nat n)) eqn:Ex; simpl.
  - apply Z.eqb_neq. intros E0. apply (f_equal (fun z => Z.testbit z (31 - Z.of_nat n))) in E0.
    rewrite Z.land_spec, E, Ex, Z.bits_0 in E0.
    destruct (Z.leb_spec 0 (31 - Z.of_nat n)).
    + rewrite (proj2 (Z.eqb_eq _ 31)) in E0 by lia. done.
    + rewrite Z.testbit_neg_r in Ex by lia. done.
  - apply Z.eqb_eq. apply Z.bits_inj'. intros i Hi. rewrite Z.land_spec, E, Z.bits_0.
    destruct (Z.eqb_spec (i + Z.of_nat n) 31); [|by rewrite !andb_false_r].
    replace i with (31 - Z.of_nat n) by lia. by rewrite Ex.
Qed.

Lemma leading_spec mask fuel i n :
  (i <= n < i + leading fuel mask i)%nat -> Z.testbit mask (31 - Z.of_nat n) = true.
Proof.
  revert i. induction fuel as [|fuel IH]; intros i Hn; simpl in Hn; [lia|].
  case_test_in Hn; [|lia]. destruct (decide (n = i)) as [->|]; [done|]. apply (IH (S i)). lia.
Qed.

Lemma leading_stop mask fuel i :
  leading fuel mask i = fuel \/ Z.testbit mask (31 - Z.of_nat (i + leading fuel mask i)) = false.
Proof.
  revert i. induction fuel as [|fuel IH]; intros i; [by left|]. simpl. case_test.
  - destruct (IH (S i)) as [->|E]; [by left|right].
    by rewrite Nat.add_succ_r, <- Nat.add_succ_l.
  - right. by rewrite Nat.add_0_r.
Qed.

Lemma leading_le mask fuel i : (leading fuel mask i <= fuel)%nat.
Proof. revert i. induction fuel as [|fuel IH]; intros i; simpl; [lia|]. case_test; [|lia]. specialize (IH (S i)). lia. Qed.

Lemma mask_len_le mask : (mask_len mask <= 32)%nat.
Proof. apply leading_le. Qed.

(** The loops go on exactly while the depth is less than the length of the mask. *)
Lemma mask_test mask n :
  (n <= mask_len mask)%nat -> (Z.land (bit_at n) mask =? 0) = bool_decide (n = mask_len mask).
Proof.
  intros Hn. rewrite Z.land_comm, bit_at_test. destruct (decide (n = mask_len mask)) as [->|Hne].
  - rewrite bool_decide_true by done. destruct (leading_stop mask 32 0) as [E|E]; unfold mask_len.
    + rewrite E. by rewrite Z.testbit_neg_r.
    + rewrite Nat.add_0_l in E. by rewrite E.
  - rewrite bool_decide_false by done.
    rewrite (leading_spec mask 32 0 n); [done|]. unfold mask_len in *. lia.
Qed.

Lemma child_at M ρ v key n :
  child key (bit_at n) (node_at M ρ v) = addr M (Z.testbit key (31 - Z.of_nat n) :: ρ).
Proof. unfold child. rewrite bit_at_test, negb_involutive. by destruct (Z.testbit _ _). Qed.

Lemma rp_length key n : length (rp key n) = n.
Proof. induction n; simpl; congruence. Qed.

Lemma addr_some M ρ a : addr M ρ = Some a <-> exists v, M !! ρ = Some (a, v).
Proof.
  unfold addr. split.
  - destruct (M !! ρ) as [[a' v]|]; simpl; [|done]. intros [= ->]. by exists v.
  - by intros [v ->].
Qed.

Lemma addr_none M ρ : addr M ρ = None <-> M !! ρ = None.
Proof. unfold addr. by destruct (M !! ρ). Qed.

(** ** Finding *)

(** Below a missing node there is nothing. *)
Lemma rep_below t M F key n k :
  Rep t M F -> M !! rp key n = None -> M !! rp key (n + k) = None.
Proof.
  intros HR Hn. induction k as [|k IH]; [by rewrite Nat.add_0_r|].
  rewrite Nat.add_succ_r. cbn [rp]. destruct (M !! (_ :: rp key (n + k))) eqn:E; [|done].
  destruct (rep_up _ _ _ HR _ (rp key (n + k)) ltac:(by eexists)) as [? E']. congruence.
Qed.

Lemma routes_lookup M ρ :
  routes M !! ρ = av ← M !! ρ; if av.2 =? NGX_RADIX_NO_VALUE then None else Some av.2.
Proof. apply lookup_omap. Qed.

(** Longer prefixes that are not in the map do not count. *)
Lemma longest_skip R key n k :
  (forall j, (n < j <= n + k)%nat -> R !! rp key j = None) -> longest R key (n + k) = longest R key n.
Proof.
  induction k as [|k IH]; intros Hj; [by rewrite Nat.add_0_r|].
  rewrite Nat.add_succ_r. cbn [longest]. rewrite Hj by lia. apply IH. intros j Hj'. apply Hj. lia.
Qed.

Lemma longest_succ R key n :
  longest R key (S n) = match R !! rp key (S n) with Some v => v | None => longest R key n end.
Proof. done. Qed.

Lemma find_loop_spec t M F key n fuel a v :
  Rep t M F -> M !! rp key n = Some (a, v) -> (n <= 32)%nat -> (34 - n <= fuel)%nat ->
  find_loop fuel (heap t) key (bit_at n)
    (match n with O => NGX_RADIX_NO_VALUE | S n' => longest (routes M) key n' end) (Some a) =
  Some (longest (routes M) key 32).
Proof.
  intros HR. revert n a v. induction fuel as [|fuel IH]; intros n a v Hn H32 Hf; [lia|].
  cbn [find_loop]. rewrite (rep_node _ _ _ HR _ _ _ Hn). cbn [mbind option_bind].
  rewrite child_at, bit_at_next. change (value (node_at M (rp key n) v)) with v.
  assert (Ev : (if negb (v =? NGX_RADIX_NO_VALUE) then v
    else match n with O => NGX_RADIX_NO_VALUE | S n' => longest (routes M) key n' end)
    = longest (routes M) key n).
  { assert (Er : routes M !! rp key n = if v =? NGX_RADIX_NO_VALUE then None else Some v)
      by (rewrite routes_lookup, Hn; done).
    destruct n; cbn [longest]; rewrite Er; by destruct (v =? NGX_RADIX_NO_VALUE). }
  rewrite Ev. change (Z.testbit key (31 - Z.of_nat n) :: rp key n) with (rp key (S n)).
  destruct (addr M (rp key (S n))) as [a'|] eqn:Ea.
  - apply addr_some in Ea as [v' Ev'].
    pose proof (rep_len _ _ _ HR (rp key (S n)) ltac:(by eexists)) as Hl. rewrite rp_length in Hl.
    apply (IH (S n) a' v'); [done|lia|lia].
  - destruct fuel as [|fuel]; [lia|]. cbn [find_loop]. f_equal.
    replace 32%nat with (n + (32 - n))%nat by lia. symmetry. apply longest_skip.
    intros j Hj. rewrite routes_lookup. apply addr_none in Ea.
    replace j with (S n + (j - S n))%nat by lia. by rewrite (rep_below _ _ _ _ _ _ HR Ea).
Qed.

(** ** Changing the heap *)

Lemma chain_eq h h' p F :
  (forall a, a ∈ F -> h' !! a = h !! a) -> chain h p F -> chain h' p F.
Proof.
  revert p. induction F as [|a F IH]; intros p He Hc; [done|]. simpl in *.
  destruct Hc as (-> & n & Hn & Hc). split; [done|]. exists n. split.
  - rewrite He; [done|]. apply list_elem_of_here.
  - apply IH; [|done]. intros b Hb. apply He. by apply list_elem_of_further.
Qed.

Lemma addr_insert M ρ av ρ' :
  addr (<[ρ := av]> M) ρ' = if decide (ρ = ρ') then Some av.1 else addr M ρ'.
Proof. unfold addr. destruct (decide (ρ = ρ')) as [->|]; [by rewrite lookup_insert_eq|by rewrite lookup_insert_ne]. Qed.

(** A node's value changes nothing but the value. *)
Lemma addr_value M ρ a v v' ρ' :
  M !! ρ = Some (a, v) -> addr (<[ρ := (a, v')]> M) ρ' = addr M ρ'.
Proof.
  intros Hr. rewrite addr_insert. destruct (decide (ρ = ρ')) as [<-|]; [|done].
  symmetry. apply addr_some. by exists v.
Qed.

Lemma rep_set_value t M F ρ a v v' :
  Rep t M F -> M !! ρ = Some (a, v) ->
  exists h, write a (set_value v') (heap t) = Some h
    /\ Rep (set_heap h t) (<[ρ := (a, v')]> M) F.
Proof.
  intros HR Hr. pose proof (rep_node _ _ _ HR _ _ _ Hr) as Hh. unfold write. rewrite Hh.
  eexists. split; [done|].
  assert (Hlk : forall ρ' a' w, <[ρ := (a, v')]> M !! ρ' = Some (a', w) -> exists w', M !! ρ' = Some (a', w')).
  { intros ρ' a' w. destruct (decide (ρ = ρ')) as [<-|]; [rewrite lookup_insert_eq; intros [= <- <-]; by exists v|].
    rewrite lookup_insert_ne by done. intros; by exists w. }
  constructor; simpl.
  - rewrite (addr_value _ _ _ _ _ _ Hr). apply HR.
  - intros ρ' a' w Hw. unfold node_at. rewrite !(addr_value _ _ _ _ _ _ Hr).
    destruct (decide (ρ = ρ')) as [<-|Hne].
    + rewrite lookup_insert_eq in Hw. injection Hw as <- <-. rewrite lookup_insert_eq.
      unfold set_value. simpl. f_equal. destruct ρ; [done|]. by rewrite (addr_value _ _ _ _ _ _ Hr).
    + rewrite lookup_insert_ne in Hw by done. rewrite lookup_insert_ne.
      * rewrite (rep_node _ _ _ HR _ _ _ Hw). unfold node_at. f_equal. f_equal. destruct ρ'; [done|].
        by rewrite (addr_value _ _ _ _ _ _ Hr).
      * intros <-. apply Hne. exact (rep_inj _ _ _ HR _ _ _ _ _ Hr Hw).
  - intros b ρ' [[a' w] Hw]. destruct (Hlk _ _ _ Hw) as [w' Hw'].
    destruct (rep_up _ _ _ HR b ρ' ltac:(by eexists)) as [[a2 w2] H2].
    destruct (decide (ρ = ρ')) as [<-|]; [rewrite lookup_insert_eq|rewrite lookup_insert_ne by done]; eauto.
  - intros ρ1 ρ2 a' v1 v2 H1 H2. destruct (Hlk _ _ _ H1) as [? H1'], (Hlk _ _ _ H2) as [? H2'].
    eauto using rep_inj.
  - intros ρ' [[a' w] Hw]. destruct (Hlk _ _ _ Hw) as [w' Hw']. eapply rep_len; [done|by eexists].
  - eapply chain_eq; [|apply HR]. intros b Hb. rewrite lookup_insert_ne; [done|].
    intros <-. by apply (rep_apart _ _ _ HR _ _ _ Hr).
  - apply HR.
  - intros ρ' a' w Hw. destruct (Hlk _ _ _ Hw) as [w' Hw']. eapply rep_apart; done.
  - intros b [n Hb]. destruct (decide (a = b)) as [<-|].
    + apply (rep_fresh _ _ _ HR). by eexists.
    + rewrite lookup_insert_ne in Hb by done. apply (rep_fresh _ _ _ HR). by eexists.
  - apply HR.
Qed.

Lemma routes_insert M ρ a v :
  routes (<[ρ := (a, v)]> M) =
    if v =? NGX_RADIX_NO_VALUE then delete ρ (routes M) else <[ρ := v]> (routes M).
Proof.
  apply map_eq. intros ρ'. rewrite routes_lookup.
  destruct (decide (ρ = ρ')) as [<-|Hne].
  - rewrite lookup_insert_eq. cbn [mbind option_bind snd].
    destruct (v =? NGX_RADIX_NO_VALUE); [by rewrite lookup_delete_eq|by rewrite lookup_insert_eq].
  - rewrite lookup_insert_ne by done. rewrite <- routes_lookup.
    destruct (v =? NGX_RADIX_NO_VALUE); [by rewrite lookup_delete_ne|by rewrite lookup_insert_ne].
Qed.

(** ** Adding a node *)

Hypothesis page_holds_node : node_size <= pagesize.

Lemma node_size_pos : 0 < node_size.
Proof. unfold node_size. destruct ptr_bits_cases as [->| ->]; done. Qed.

Lemma alloc_spec t M F :
  Rep t M F ->
  exists p t1 F', ngx_radix_alloc t = Some (p, t1) /\ heap t1 = heap t /\ root t1 = root t
    /\ chain (heap t) (free t1) F' /\ NoDup (p :: F') /\ (forall a, a ∈ F' -> a ∈ F)
    /\ (forall ρ a v, M !! ρ = Some (a, v) -> a <> p)
    /\ (forall a, is_Some (heap t !! a) \/ a = p -> a < start t1)
    /\ 0 <= size t1 /\ start t1 + size t1 <= page t1.
Proof.
  intros HR. pose proof node_size_pos as Hs. unfold ngx_radix_alloc.
  pose proof (rep_free _ _ _ HR) as Hc. pose proof (rep_nodup _ _ _ HR) as Hn.
  pose proof (rep_apart _ _ _ HR) as Ha. pose proof (rep_page _ _ _ HR) as Hp.
  pose proof (rep_fresh _ _ _ HR) as Hf.
  destruct (free t) as [p|] eqn:Ef.
  - destruct F as [|p' F]; simpl in Hc; [done|]. destruct Hc as ([= ->] & n & Hh & Hc).
    rewrite Hh. cbn [mbind option_bind]. do 3 eexists. split_and!; try done; simpl; try lia.
    + intros a Ha'. by apply list_elem_of_further.
    + intros ρ a v Hr ->. apply (Ha _ _ _ Hr). apply list_elem_of_here.
    + intros a [Hx| ->]; [by apply Hf|]. apply Hf. by eexists.
  - assert (F = []) as -> by (destruct F; [done|by destruct Hc as [? _]]).
    assert (Hnew : forall s ρ a v, start t <= s -> M !! ρ = Some (a, v) -> a <> s).
    { intros s ρ a v Hle Hr ->. pose proof (rep_node _ _ _ HR _ _ _ Hr) as Hh.
      assert (s < start t) by (apply Hf; by eexists). lia. }
    destruct (Z.ltb_spec (size t) node_size); do 3 eexists; split_and!; try done; simpl; try lia;
      try (constructor; [apply not_elem_of_nil|constructor]).
    + intros ρ a v. apply Hnew. lia.
    + intros a [Hx| ->]; [apply Hf in Hx|]; lia.
    + intros ρ a v. apply Hnew. lia.
    + intros a [Hx| ->]; [apply Hf in Hx|]; lia.
Qed.

(** The children of a new node are missing, its parent is where it was put. *)
Lemma node_at_add M ρ b p v' ρ' w :
  M !! (b :: ρ) = None -> ρ' <> ρ -> ρ' <> b :: ρ ->
  (forall x, M !! (x :: b :: ρ) = None) -> is_Some (M !! ρ') ->
  node_at (<[b :: ρ := (p, v')]> M) ρ' w = node_at M ρ' w.
Proof.
  intros Hb H1 H2 Hx [av Hr]. unfold node_at.
  rewrite !addr_insert. do 2 (rewrite decide_False by congruence).
  f_equal. destruct ρ' as [|c ρ']; [done|]. rewrite addr_insert, decide_False; [done|].
  intros <-. rewrite Hx in Hr. done.
Qed.

(** [set_child] by the bit itself. *)
Definition link (b : bool) (p : option Z) (n : node) : node :=
  if b then set_right p n else set_left p n.

Lemma set_child_link key n p m :
  set_child key (bit_at n) p m = link (Z.testbit key (31 - Z.of_nat n)) p m.
Proof. unfold set_child. by rewrite bit_at_test, negb_involutive. Qed.

Lemma cons_cycle {A} (b : A) ρ : b :: ρ <> ρ.
Proof. intros E. apply (f_equal length) in E. simpl in E. lia. Qed.

Lemma cons2_cycle {A} (b c : A) ρ : b :: c :: ρ <> ρ.
Proof. intros E. apply (f_equal length) in E. simpl in E. lia. Qed.

Lemma node_at_linked M ρ b p w v :
  node_at (<[b :: ρ := (p, w)]> M) ρ v = link b (Some p) (node_at M ρ v).
Proof.
  unfold node_at. rewrite !addr_insert.
  assert (Ep : (match ρ with [] => None | _ :: ρ' => addr (<[b :: ρ := (p, w)]> M) ρ' end)
    = match ρ with [] => None | _ :: ρ' => addr M ρ' end).
  { destruct ρ as [|c ρ']; [done|]. rewrite addr_insert, decide_False; [done|]. apply cons2_cycle. }
  rewrite Ep. destruct b; [rewrite decide_True, decide_False by congruence|
    rewrite decide_False, decide_True by congruence]; done.
Qed.

Lemma node_at_new M ρ b p a v w :
  M !! ρ = Some (a, v) -> (forall x, M !! (x :: b :: ρ) = None) ->
  node_at (<[b :: ρ := (p, w)]> M) (b :: ρ) w = mkNode None None (Some a) w.
Proof.
  intros Hr Hx. unfold node_at. rewrite !addr_insert.
  rewrite !decide_False by (apply cons_cycle || (apply not_eq_sym; apply cons_cycle)).
  unfold addr. by rewrite !Hx, Hr.
Qed.

(** What a map with one more node still holds. *)
Lemma add_old {A} (M : gmap path A) ρ av ρ' x :
  ρ' <> ρ -> <[ρ := av]> M !! ρ' = Some x -> M !! ρ' = Some x.
Proof. intros Hn. by rewrite lookup_insert_ne. Qed.

Lemma rep_add t M F ρ a v b key n :
  Rep t M F -> M !! ρ = Some (a, v) -> M !! (b :: ρ) = None -> (length ρ < 32)%nat ->
  b = Z.testbit key (31 - Z.of_nat n) ->
  exists p t1 h F', ngx_radix_alloc t = Some (p, t1)
    /\ write a (set_child key (bit_at n) (Some p))
         (<[p := mkNode None None (Some a) NGX_RADIX_NO_VALUE]> (heap t1)) = Some h
    /\ Rep (set_heap h t1) (<[b :: ρ := (p, NGX_RADIX_NO_VALUE)]> M) F'.
Proof.
  intros HR Hr Hb Hl Eb.
  destruct (alloc_spec t M F HR) as (p & t1 & F' & Ea & Eh & Er & Hc & Hnd & Hsub & Hne & Hfr & Hpg).
  exists p, t1. pose proof (rep_node _ _ _ HR _ _ _ Hr) as Hh. pose proof (Hne _ _ _ Hr) as Hap.
  apply NoDup_cons in Hnd as [HpF Hnd].
  assert (Hx : forall x, M !! (x :: b :: ρ) = None).
  { intros x. destruct (M !! (x :: b :: ρ)) eqn:E; [|done].
    destruct (rep_up _ _ _ HR x (b :: ρ) ltac:(by eexists)) as [? ?]. congruence. }
  unfold write. rewrite Eh, lookup_insert_ne, Hh by done. do 2 eexists. split; [done|]. split; [done|].
  rewrite set_child_link, <- Eb. pose proof (cons_cycle b ρ) as Hcyc.
  constructor; simpl.
  - rewrite addr_insert, decide_False by done. rewrite Er. apply HR.
  - intros ρ' a' w Hw. destruct (decide (ρ' = b :: ρ)) as [->|Hn1].
    { rewrite lookup_insert_eq in Hw. injection Hw as <- <-.
      rewrite lookup_insert_ne, lookup_insert_eq by done. by erewrite node_at_new. }
    apply add_old in Hw; [|done]. destruct (decide (ρ' = ρ)) as [->|Hn2].
    { assert (Some (a, v) = Some (a', w)) as [= <- <-] by congruence.
      by rewrite lookup_insert_eq, node_at_linked. }
    rewrite node_at_add by (done || by eexists). rewrite !lookup_insert_ne.
    + exact (rep_node _ _ _ HR _ _ _ Hw).
    + intros E. by apply (Hne _ _ _ Hw).
    + intros ->. apply Hn2. exact (rep_inj _ _ _ HR _ _ _ _ _ Hw Hr).
  - intros c ρ' [[a' w] Hw]. destruct (decide (c :: ρ' = b :: ρ)) as [[= -> ->]|Hn1].
    + rewrite lookup_insert_ne by done. by eexists.
    + apply add_old in Hw; [|done]. apply lookup_insert_is_Some'. right.
      by apply (rep_up _ _ _ HR c ρ').
  - intros ρ1 ρ2 a' v1 v2 H1 H2. rewrite lookup_insert_Some in H1, H2.
    destruct H1 as [[<- [= <- <-]]|[_ H1]], H2 as [[<- [= <-]]|[_ H2]];
      [done|by apply Hne in H2|by apply Hne in H1|eauto using rep_inj].
  - intros ρ' Hw. apply lookup_insert_is_Some' in Hw as [<-|Hw]; [simpl; lia|]. by apply HR.
  - eapply chain_eq; [|exact Hc]. intros c HcF. rewrite !lookup_insert_ne; [done| |].
    + intros <-. done.
    + intros <-. apply (rep_apart _ _ _ HR _ _ _ Hr). by apply Hsub.
  - done.
  - intros ρ' a' w Hw HF. rewrite lookup_insert_Some in Hw. destruct Hw as [[<- [= <- <-]]|[_ Hw]]; [done|].
    apply (rep_apart _ _ _ HR _ _ _ Hw). by apply Hsub.
  - intros c Hc'. apply Hfr. destruct (decide (p = c)) as [->|]; [by right|left].
    destruct (decide (a = c)) as [<-|]; [by eexists|]. by rewrite !lookup_insert_ne in Hc' by done.
  - done.
Qed.

(** ** Inserting *)

Lemma insert_walk_spec t M F key mask n a v x fuel :
  Rep t M F -> M !! rp key n = Some (a, v) -> (n <= mask_len mask)%nat -> (34 - n <= fuel)%nat ->
  exists m b w nx, insert_walk fuel (heap t) key mask (bit_at n) a (Some x) = Some (bit_at m, b, nx)
    /\ (m <= mask_len mask)%nat /\ M !! rp key m = Some (b, w)
    /\ match nx with
       | Some _ => m = mask_len mask
       | None => (m < mask_len mask)%nat /\ M !! rp key (S m) = None
       end.
Proof.
  intros HR. pose proof (mask_len_le mask) as Hml.
  revert n a v x. induction fuel as [|fuel IH]; intros n a v x Hn Hle Hf; [lia|].
  cbn [insert_walk]. rewrite mask_test by done.
  destruct (decide (n = mask_len mask)) as [->|Hne].
  - rewrite bool_decide_true by done. by exists (mask_len mask), a, v, (Some x).
  - rewrite bool_decide_false by done. rewrite (rep_node _ _ _ HR _ _ _ Hn). cbn [mbind option_bind].
    rewrite child_at, bit_at_next.
    change (Z.testbit key (31 - Z.of_nat n) :: rp key n) with (rp key (S n)).
    destruct (addr M (rp key (S n))) as [a'|] eqn:Ea.
    + apply addr_some in Ea as [v' Ev']. apply (IH (S n) a' v' a'); [done|lia..].
    + apply addr_none in Ea. exists n, a, v, None. split_and!; (done || lia).
Qed.

Lemma insert_grow_spec key mask fuel : forall t M F n a v,
  Rep t M F -> M !! rp key n = Some (a, v) -> (n <= mask_len mask)%nat ->
  (forall j, (n < j <= mask_len mask)%nat -> M !! rp key j = None) -> (34 - n <= fuel)%nat ->
  exists t' b M' F' w, insert_grow fuel t key mask (bit_at n) a = Some (t', b) /\ Rep t' M' F'
    /\ M' !! net key mask = Some (b, w) /\ routes M' = routes M.
Proof.
  pose proof (mask_len_le mask) as Hml.
  induction fuel as [|fuel IH]; intros t M F n a v HR Hn Hle Hno Hf; [lia|].
  cbn [insert_grow]. rewrite mask_test by done.
  destruct (decide (n = mask_len mask)) as [->|Hne].
  - rewrite bool_decide_true by done. by exists t, a, M, F, v.
  - rewrite bool_decide_false by done.
    destruct (rep_add t M F (rp key n) a v (Z.testbit key (31 - Z.of_nat n)) key n)
      as (p & t1 & h & F' & Ea & Ew & HR'); [done|done|apply (Hno (S n)); lia|rewrite rp_length; lia|done|].
    rewrite Ea. cbn [mbind option_bind]. rewrite Ew. cbn [mbind option_bind]. rewrite bit_at_next.
    change (Z.testbit key (31 - Z.of_nat n) :: rp key n) with (rp key (S n)) in HR'.
    destruct (IH _ _ _ (S n) p NGX_RADIX_NO_VALUE HR') as (t' & b & M' & F2 & w & Eg & HR2 & Hb & Er).
    + by rewrite lookup_insert_eq.
    + lia.
    + intros j Hj. rewrite lookup_insert_ne; [apply Hno; lia|].
      intros E. apply (f_equal length) in E. rewrite !rp_length in E. lia.
    + lia.
    + exists t', b, M', F2, w. split_and!; [done..|]. rewrite Er, routes_insert, Z.eqb_refl.
      apply delete_id. rewrite routes_lookup. by rewrite (Hno (S n)) by lia.
Qed.

(** Entering a value in the map; [NGX_RADIX_NO_VALUE] is none. *)
Definition enter (ρ : path) (v : Z) (R : gmap path Z) : gmap path Z :=
  if v =? NGX_RADIX_NO_VALUE then delete ρ R else <[ρ := v]> R.

Lemma insert_spec t R key mask v :
  Stores t R ->
  exists t' rc, ngx_radix32tree_insert t key mask v = Some (t', rc)
    /\ match R !! net key mask with
       | Some _ => rc = NGX_BUSY /\ t' = t
       | None => rc = NGX_OK /\ Stores t' (enter (net key mask) v R)
       end.
Proof.
  intros (M & F & HR & <-). unfold ngx_radix32tree_insert.
  destruct (proj1 (addr_some M [] (root t)) (rep_root _ _ _ HR)) as [v0 H0].
  destruct (insert_walk_spec t M F key mask 0 (root t) v0 (root t) bits_fuel HR H0)
    as (m & b & w & nx & Ew & Hm & Hb & Hx); [lia|unfold bits_fuel; lia|].
  change 2147483648 with (bit_at 0). rewrite Ew. cbn [mbind option_bind]. destruct nx as [x|].
  - subst m. fold (net key mask) in Hb. rewrite (rep_node _ _ _ HR _ _ _ Hb). cbn [mbind option_bind].
    change (value (node_at M (net key mask) w)) with w. rewrite routes_lookup, Hb.
    cbn [mbind option_bind snd]. destruct (w =? NGX_RADIX_NO_VALUE) eqn:Ev; cbn [negb]; [|by do 2 eexists].
    destruct (rep_set_value t M F _ b w v HR Hb) as (h & Eh & HR').
    rewrite Eh. do 2 eexists. split; [done|]. split; [done|].
    exists (<[net key mask := (b, v)]> M), F. split; [done|]. apply routes_insert.
  - destruct Hx as [Hlt Hno].
    assert (Hall : forall j, (m < j <= mask_len mask)%nat -> M !! rp key j = None).
    { intros j Hj. replace j with (S m + (j - S m))%nat by lia. by apply (rep_below t M F). }
    assert (Hnet : M !! net key mask = None) by (apply Hall; lia).
    rewrite routes_lookup, Hnet. cbn [mbind option_bind].
    destruct (insert_grow_spec key mask bits_fuel t M F m b w HR Hb ltac:(lia) Hall)
      as (t' & b' & M' & F' & w' & Eg & HR' & Hb' & Er); [unfold bits_fuel; lia|].
    rewrite Eg. cbn [mbind option_bind].
    destruct (rep_set_value t' M' F' _ b' w' v HR' Hb') as (h & Eh & HR2).
    rewrite Eh. do 2 eexists. split; [done|]. split; [done|].
    exists (<[net key mask := (b', v)]> M'), F'. split; [done|]. rewrite routes_insert, Er. done.
Qed.

(** ** Deleting *)

Lemma delete_walk_spec t M F key mask n a v fuel :
  Rep t M F -> M !! rp key n = Some (a, v) -> (n <= mask_len mask)%nat -> (34 - n <= fuel)%nat ->
  delete_walk fuel (heap t) key mask (bit_at n) (Some a) = Some (addr M (net key mask)).
Proof.
  intros HR. pose proof (mask_len_le mask) as Hml.
  revert n a v. induction fuel as [|fuel IH]; intros n a v Hn Hle Hf; [lia|].
  cbn [delete_walk]. rewrite mask_test by done.
  destruct (decide (n = mask_len mask)) as [->|Hne].
  - rewrite bool_decide_true by done. f_equal. symmetry. apply addr_some. by exists v.
  - rewrite bool_decide_false by done. rewrite (rep_node _ _ _ HR _ _ _ Hn). cbn [mbind option_bind].
    rewrite child_at, bit_at_next.
    change (Z.testbit key (31 - Z.of_nat n) :: rp key n) with (rp key (S n)).
    destruct (addr M (rp key (S n))) as [a'|] eqn:Ea.
    + apply addr_some in Ea as [v' Ev']. apply (IH (S n) a' v'); [done|lia..].
    + destruct fuel as [|fuel]; [lia|]. cbn [delete_walk]. f_equal. symmetry. apply addr_none.
      apply addr_none in Ea. unfold net. replace (mask_len mask) with (S n + (mask_len mask - S n))%nat by lia.
      by apply (rep_below t M F).
Qed.

Lemma addr_delete M ρ ρ' :
  addr (delete ρ M) ρ' = if decide (ρ = ρ') then None else addr M ρ'.
Proof. unfold addr. destruct (decide (ρ = ρ')) as [->|]; [by rewrite lookup_delete_eq|by rewrite lookup_delete_ne]. Qed.

(** The nodes beside a deleted one. *)
Lemma node_at_delete M ρ b ρ' w :
  ρ' <> ρ -> ρ' <> b :: ρ -> (forall x, M !! (x :: b :: ρ) = None) -> is_Some (M !! ρ') ->
  node_at (delete (b :: ρ) M) ρ' w = node_at M ρ' w.
Proof.
  intros H1 H2 Hx [av Hr]. unfold node_at. rewrite !addr_delete.
  do 2 (rewrite decide_False by congruence). f_equal.
  destruct ρ' as [|c ρ']; [done|]. rewrite addr_delete, decide_False; [done|].
  intros <-. rewrite Hx in Hr. done.
Qed.

Lemma node_at_unlinked M ρ b v :
  node_at (delete (b :: ρ) M) ρ v = link b None (node_at M ρ v).
Proof.
  unfold node_at. rewrite !addr_delete.
  assert (Ep : (match ρ with [] => None | _ :: ρ' => addr (delete (b :: ρ) M) ρ' end)
    = match ρ with [] => None | _ :: ρ' => addr M ρ' end).
  { destruct ρ as [|c ρ']; [done|]. rewrite addr_delete, decide_False; [done|]. apply cons2_cycle. }
  rewrite Ep. destruct b; [rewrite decide_True, decide_False by congruence|
    rewrite decide_False, decide_True by congruence]; done.
Qed.

(** The test [node->parent->right == node] finds the side of the node. *)
Lemma unlink_side t M F ρ b a v p w :
  Rep t M F -> M !! ρ = Some (a, v) -> M !! (b :: ρ) = Some (p, w) ->
  (if bool_decide (right (node_at M ρ v) = Some p) then set_right None else set_left None) = link b None.
Proof.
  intros HR Hr Hb. unfold link. destruct b.
  - rewrite bool_decide_true; [done|]. apply addr_some. by exists w.
  - rewrite bool_decide_false; [done|]. intros E. apply addr_some in E as [w' E].
    by pose proof (rep_inj _ _ _ HR _ _ _ _ _ Hb E).
Qed.

(** Cutting off a node without children and putting it on the free list. *)
Lemma rep_delete t M F ρ b a v p w :
  Rep t M F -> M !! ρ = Some (a, v) -> M !! (b :: ρ) = Some (p, w) ->
  (forall x, M !! (x :: b :: ρ) = None) ->
  Rep (set_free (Some p) (set_heap
        (<[p := set_right (free t) (node_at M (b :: ρ) w)]> (<[a := link b None (node_at M ρ v)]> (heap t))) t))
    (delete (b :: ρ) M) (p :: F).
Proof.
  intros HR Hr Hb Hx. pose proof (cons_cycle b ρ) as Hcyc.
  assert (Hap : a <> p).
  { intros ->. apply Hcyc. exact (rep_inj _ _ _ HR _ _ _ _ _ Hb Hr). }
  constructor; simpl.
  - rewrite addr_delete, decide_False by done. apply HR.
  - intros ρ' a' w' Hw. rewrite lookup_delete_Some in Hw. destruct Hw as [Hn1 Hw].
    destruct (decide (ρ' = ρ)) as [->|Hn2].
    { assert (Some (a, v) = Some (a', w')) as [= <- <-] by congruence.
      by rewrite lookup_insert_ne, lookup_insert_eq, node_at_unlinked. }
    rewrite node_at_delete by (done || by eexists). rewrite !lookup_insert_ne.
    + exact (rep_node _ _ _ HR _ _ _ Hw).
    + intros ->. apply Hn2. exact (rep_inj _ _ _ HR _ _ _ _ _ Hw Hr).
    + intros ->. apply Hn1. exact (rep_inj _ _ _ HR _ _ _ _ _ Hb Hw).
  - intros c ρ' [x Hw]. rewrite lookup_delete_Some in Hw. destruct Hw as [Hn1 Hw].
    destruct (rep_up _ _ _ HR c ρ' ltac:(by eexists)) as [y Hy].
    rewrite lookup_delete_ne; [by eexists|]. intros <-. by rewrite Hx in Hw.
  - intros ρ1 ρ2 a' v1 v2 H1 H2. rewrite lookup_delete_Some in H1, H2.
    destruct H1 as [_ H1], H2 as [_ H2]. eauto using rep_inj.
  - intros ρ' [x Hw]. rewrite lookup_delete_Some in Hw. destruct Hw as [_ Hw]. apply HR. by eexists.
  - split; [done|]. eexists. split; [by rewrite lookup_insert_eq|]. simpl.
    eapply chain_eq; [|apply HR]. intros c HcF. rewrite !lookup_insert_ne; [done| |]; intros <-.
    + by apply (rep_apart _ _ _ HR _ _ _ Hr).
    + by apply (rep_apart _ _ _ HR _ _ _ Hb).
  - apply NoDup_cons. split; [|apply HR]. by apply (rep_apart _ _ _ HR _ _ _ Hb).
  - intros ρ' a' w' Hw HF. rewrite lookup_delete_Some in Hw. destruct Hw as [Hn1 Hw].
    apply elem_of_cons in HF as [->|HF]; [|by apply (rep_apart _ _ _ HR _ _ _ Hw)].
    apply Hn1. exact (rep_inj _ _ _ HR _ _ _ _ _ Hb Hw).
  - intros c Hc. apply (rep_fresh _ _ _ HR).
    destruct (decide (p = c)) as [<-|]; [rewrite (rep_node _ _ _ HR _ _ _ Hb); by eexists|].
    destruct (decide (a = c)) as [<-|]; [rewrite (rep_node _ _ _ HR _ _ _ Hr); by eexists|].
    by rewrite !lookup_insert_ne in Hc by done.
  - apply HR.
Qed.

Lemma routes_delete M ρ : routes (delete ρ M) = delete ρ (routes M).
Proof. apply omap_delete. Qed.

Lemma routes_absent M ρ a : M !! ρ = Some (a, NGX_RADIX_NO_VALUE) -> routes M !! ρ = None.
Proof. intros Hr. rewrite routes_lookup, Hr. cbn [mbind option_bind snd]. by rewrite Z.eqb_refl. Qed.

Lemma childless_spec M ρ v :
  childless (node_at M ρ v) = true <-> forall x, M !! (x :: ρ) = None.
Proof.
  unfold childless, node_at. simpl. split.
  - intros Hc x. apply addr_none. destruct (addr M (true :: ρ)) eqn:E1; [done|].
    destruct (addr M (false :: ρ)) eqn:E2; [done|]. by destruct x.
  - intros Hx. by rewrite !(proj2 (addr_none _ _)) by apply Hx.
Qed.

(** One turn of the loop. *)
Lemma delete_prune_turn b ρ t M F p w a v fuel :
  Rep t M F -> M !! (b :: ρ) = Some (p, w) -> M !! ρ = Some (a, v) ->
  (forall x, M !! (x :: b :: ρ) = None) ->
  exists t1, Rep t1 (delete (b :: ρ) M) (p :: F)
    /\ delete_prune (S fuel) t p =
       (if negb (childless (node_at (delete (b :: ρ) M) ρ v)) then Some t1
        else if negb (v =? NGX_RADIX_NO_VALUE) then Some t1
        else match ρ with [] => Some t1 | _ => delete_prune fuel t1 a end).
Proof.
  intros HR Hb Hr Hx. pose proof (rep_delete t M F ρ b a v p w HR Hr Hb Hx) as HR'.
  assert (Hap : a <> p) by (intros ->; apply (cons_cycle b ρ (rep_inj _ _ _ HR _ _ _ _ _ Hb Hr))).
  eexists. split; [exact HR'|].
  cbn [delete_prune]. rewrite (rep_node _ _ _ HR _ _ _ Hb). cbn [mbind option_bind].
  replace (parent (node_at M (b :: ρ) w)) with (Some a) by (symmetry; apply addr_some; by exists v).
  cbn [mbind option_bind]. rewrite (rep_node _ _ _ HR _ _ _ Hr). cbn [mbind option_bind].
  rewrite (unlink_side t M F _ b a v p w HR Hr Hb). unfold write.
  rewrite (rep_node _ _ _ HR _ _ _ Hr). cbn [mbind option_bind].
  rewrite lookup_insert_ne, (rep_node _ _ _ HR _ _ _ Hb) by done. cbn [mbind option_bind].
  set (t1 := set_free _ _) in *.
  assert (Hr1 : delete (b :: ρ) M !! ρ = Some (a, v)) by (by rewrite lookup_delete_ne by apply cons_cycle).
  rewrite (rep_node _ _ _ HR' _ _ _ Hr1). cbn [mbind option_bind].
  change (value (node_at _ ρ v)) with v. destruct (childless _); [|done].
  destruct (v =? NGX_RADIX_NO_VALUE); [|done]. destruct ρ as [|c ρ]; [done|].
  destruct (rep_up _ _ _ HR' c ρ ltac:(by eexists)) as [[a2 v2] H2].
  replace (parent (node_at _ (c :: ρ) v)) with (Some a2); [done|].
  symmetry. apply addr_some. by exists v2.
Qed.

Lemma delete_prune_spec ρ : forall b t M F p w fuel,
  Rep t M F -> M !! (b :: ρ) = Some (p, w) -> (forall x, M !! (x :: b :: ρ) = None) ->
  (length ρ < fuel)%nat ->
  exists t', delete_prune fuel t p = Some t' /\ Stores t' (delete (b :: ρ) (routes M)).
Proof.
  induction ρ as [|c ρ IH]; intros b t M F p w fuel HR Hb Hx Hf;
    (destruct fuel as [|fuel]; [simpl in Hf; lia|]);
    destruct (rep_up _ _ _ HR b _ ltac:(by eexists)) as [[a v] Hr];
    destruct (delete_prune_turn b _ t M F p w a v fuel HR Hb Hr Hx) as (t1 & HR1 & ->);
    match goal with |- context [delete ?r (routes M)] =>
      assert (Hs : Stores t1 (delete r (routes M)))
        by (exists (delete r M), (p :: F); split; [done|apply routes_delete]) end.
  - repeat case_test; eauto.
  - destruct (childless _) eqn:Ec; cbn [negb]; [|eauto].
    destruct (Z.eqb_spec v NGX_RADIX_NO_VALUE) as [->|]; cbn [negb]; [|eauto].
    pose proof (lookup_delete_ne M (b :: c :: ρ) (c :: ρ) (cons_cycle b _)) as Hr1. rewrite Hr in Hr1.
    destruct (IH c t1 _ (p :: F) a NGX_RADIX_NO_VALUE fuel HR1 Hr1) as (t' & E & Hs');
      [by eapply childless_spec|simpl in Hf; lia|].
    exists t'. split; [done|]. rewrite routes_delete, delete_id in Hs'; [done|].
    rewrite lookup_delete_ne by apply cons_cycle. by eapply routes_absent.
Qed.

(** ** Creating *)

Lemma radix_empty_spec first :
  0 <= first -> exists t, radix_empty first = Some t /\ Stores t ∅.
Proof.
  intros Hf. pose proof node_size_pos as Hs. unfold radix_empty, ngx_radix_alloc. simpl.
  rewrite (proj2 (Z.ltb_lt 0 node_size)) by done. cbn [mbind option_bind]. eexists. split; [done|].
  exists {[ [] := (first, NGX_RADIX_NO_VALUE) ]}, []. split.
  - constructor; simpl.
    + done.
    + intros ρ a v Hr. apply lookup_singleton_Some in Hr as [<- [= <- <-]].
      by rewrite lookup_insert_eq.
    + intros b ρ [x Hx]. by apply lookup_singleton_Some in Hx as [? _].
    + intros ρ1 ρ2 a v1 v2 H1 H2. apply lookup_singleton_Some in H1 as [<- _], H2 as [<- _]. done.
    + intros ρ [x Hx]. apply lookup_singleton_Some in Hx as [<- _]. simpl. lia.
    + done.
    + constructor.
    + intros ρ a v _. apply not_elem_of_nil.
    + intros a [x Hx]. apply lookup_insert_Some in Hx as [[<- _]|[_ Hx]]; [lia|by rewrite lookup_empty in Hx].
    + lia.
  - apply map_eq. intros ρ. rewrite routes_lookup, lookup_empty.
    destruct (decide (ρ = [])) as [->|]; [|by rewrite lookup_singleton_ne].
    rewrite lookup_singleton_eq. cbn [mbind option_bind snd]. by rewrite Z.eqb_refl.
Qed.

(** Preallocating nodes leaves an empty tree empty. *)
Lemma prealloc_keys_spec fuel : forall t key mask inc,
  Stores t ∅ -> 0 <= key < 4294967296 -> 0 < inc -> 4294967296 mod inc = 0 -> key mod inc = 0 ->
  (4294967296 - key) / inc < Z.of_nat fuel ->
  exists t', prealloc_keys fuel t key mask inc = Some (t', NGX_OK) /\ Stores t' ∅.
Proof.
  induction fuel as [|fuel IH]; intros t key mask inc Hs Hk Hi Hm Hkm Hf.
  { assert (0 <= (4294967296 - key) / inc) by (apply Z.div_pos; lia). lia. }
  cbn [prealloc_keys].
  destruct (insert_spec t ∅ key mask NGX_RADIX_NO_VALUE Hs) as (t1 & rc & E & Hr).
  rewrite lookup_empty in Hr. destruct Hr as [-> Hs1]. unfold enter in Hs1.
  rewrite Z.eqb_refl, delete_empty in Hs1. rewrite E. cbn [mbind option_bind Z.eqb negb].
  assert (Hle : key + inc <= 4294967296).
  { pose proof (Z.div_mod key inc ltac:(lia)) as E1. rewrite Hkm in E1.
    pose proof (Z.div_mod 4294967296 inc ltac:(lia)) as E2. rewrite Hm in E2.
    assert (key / inc < 4294967296 / inc) by (apply (Z.mul_lt_mono_pos_l inc); lia). nia. }
  destruct (Z.eq_dec (key + inc) 4294967296) as [Ee|Ne].
  - rewrite Ee. by exists t1.
  - unfold uint. rewrite (Z.mod_small (key + inc)) by (simpl; lia). rewrite (proj2 (Z.eqb_neq _ 0)) by lia.
    apply IH; [done|lia|done|done| |].
    + rewrite <- Zplus_mod_idemp_r, Z_mod_same_full, Z.add_0_r. done.
    + replace (4294967296 - key) with (4294967296 - (key + inc) + 1 * inc) in Hf by lia.
      rewrite Z.div_add in Hf by lia. lia.
Qed.

Lemma prealloc_loop_spec n : forall t mask k,
  Stores t ∅ -> 0 <= k <= 31 -> Z.of_nat n <= k + 1 ->
  exists t', prealloc_loop n t mask (2 ^ k) = Some (t', NGX_OK) /\ Stores t' ∅.
Proof.
  induction n as [|n IH]; intros t mask k Hs Hk Hn; cbn [prealloc_loop]; [by exists t|].
  assert (H32 : 4294967296 = 2 ^ (32 - k) * 2 ^ k) by (rewrite <- Z.pow_add_r by lia; by replace (32 - k + k) with 32 by lia).
  assert (Hp : 0 < 2 ^ k) by lia.
  destruct (prealloc_keys_spec (S (Z.to_nat (4294967296 / 2 ^ k))) t 0 (Z.lor (Z.shiftr mask 1) 2147483648) (2 ^ k))
    as (t1 & E & Hs1); [done|lia|done| |by apply Z.mod_0_l; lia| |].
  { rewrite H32. apply Z_mod_mult. }
  { rewrite Z.sub_0_r. assert (0 <= 4294967296 / 2 ^ k) by (apply Z.div_pos; lia). lia. }
  rewrite E. cbn [mbind option_bind Z.eqb negb]. destruct n as [|n]; [by exists t1|].
  rewrite (Z.shiftr_div_pow2 (2 ^ k)) by lia. change (2 ^ 1) with 2.
  replace (2 ^ k / 2) with (2 ^ (k - 1)).
  - apply IH; [done|lia..].
  - replace k with (k - 1 + 1) at 2 by lia. rewrite Z.pow_add_r, Z.pow_1_r, Z.div_mul by lia. done.
Qed.

(** ** Theorems *)

(** [ngx_radix_tree_create] makes an empty map, with any number of preallocated
    levels that a key has bits for. *)
Theorem radix_create_empty first preallocate :
  0 <= first -> -1 <= preallocate <= 32 ->
  exists t, ngx_radix_tree_create first preallocate = Some (t, NGX_OK) /\ Stores t ∅.
Proof.
  intros Hf Hp. unfold ngx_radix_tree_create.
  destruct (radix_empty_spec first Hf) as (t & -> & Hs). cbn [mbind option_bind].
  destruct (Z.eqb_spec preallocate 0); [by exists t|].
  apply (prealloc_loop_spec _ t 0 31); [done|lia|]. repeat case_test; lia.
Qed.

(** [ngx_radix32tree_insert] enters the value of a network into the map the tree
    stores, or returns [NGX_BUSY] and changes nothing when it has one; the heap never
    faults and the loops return. *)
Theorem radix_insert_refines t R key mask v :
  Stores t R -> 0 <= v < NGX_RADIX_NO_VALUE ->
  exists t' rc, ngx_radix32tree_insert t key mask v = Some (t', rc)
    /\ match R !! net key mask with
       | Some _ => rc = NGX_BUSY /\ t' = t
       | None => rc = NGX_OK /\ Stores t' (<[net key mask := v]> R)
       end.
Proof.
  intros Hs Hv. destruct (insert_spec t R key mask v Hs) as (t' & rc & E & Hr). exists t', rc.
  split; [done|]. unfold enter in Hr. by rewrite (proj2 (Z.eqb_neq v _)) in Hr by lia.
Qed.

(** [ngx_radix32tree_delete] of a network other than the whole address space takes
    it from the map the tree stores; it returns [NGX_ERROR] only if it was not there, and
    then changes nothing. *)
Theorem radix_delete_refines t R key mask :
  Stores t R -> net key mask <> [] ->
  exists t' rc, ngx_radix32tree_delete t key mask = Some (t', rc)
    /\ Stores t' (delete (net key mask) R)
    /\ (rc = NGX_OK \/ rc = NGX_ERROR /\ t' = t /\ R !! net key mask = None).
Proof.
  intros (M & F & HR & <-) Hnet. unfold ngx_radix32tree_delete.
  destruct (proj1 (addr_some M [] (root t)) (rep_root _ _ _ HR)) as [v0 H0].
  change 2147483648 with (bit_at 0).
  rewrite (delete_walk_spec t M F key mask 0 (root t) v0) by (done || lia || (unfold bits_fuel; lia)).
  cbn [mbind option_bind]. destruct (addr M (net key mask)) as [p|] eqn:Ea.
  - apply addr_some in Ea as [w Hp]. rewrite (rep_node _ _ _ HR _ _ _ Hp). cbn [mbind option_bind].
    destruct (childless (node_at M (net key mask) w)) eqn:Ec; cbn [negb].
    + pose proof (rep_len _ _ _ HR (net key mask) ltac:(by eexists)) as Hl.
      destruct (net key mask) as [|b ρ] eqn:En; [done|]. simpl in Hl.
      destruct (delete_prune_spec ρ b t M F p w bits_fuel HR Hp) as (t' & E & Hs);
        [by eapply childless_spec|unfold bits_fuel; lia|].
      rewrite E. cbn [mbind option_bind]. do 2 eexists. split; [done|]. split; [done|by left].
    + change (value (node_at M (net key mask) w)) with w.
      destruct (Z.eqb_spec w NGX_RADIX_NO_VALUE) as [->|Hw]; cbn [negb].
      * apply routes_absent in Hp. do 2 eexists. split; [done|]. split.
        -- exists M, F. split; [done|]. by rewrite delete_id.
        -- by right.
      * destruct (rep_set_value t M F _ p w NGX_RADIX_NO_VALUE HR Hp) as (h & Eh & HR').
        rewrite Eh. do 2 eexists. split; [done|]. split; [|by left].
        exists (<[net key mask := (p, NGX_RADIX_NO_VALUE)]> M), F. split; [done|].
        by rewrite routes_insert, Z.eqb_refl.
  - apply addr_none in Ea. do 2 eexists. split; [done|].
    assert (Hn : routes M !! net key mask = None) by (rewrite routes_lookup, Ea; done).
    split; [|by right]. exists M, F. split; [done|]. by rewrite delete_id.
Qed.

(** C37: [ngx_radix32tree_find] returns the value of the longest prefix of the key that
    the tree stores, [NGX_RADIX_NO_VALUE] if there is none. *)
Theorem radix_find_longest t R key :
  Stores t R -> ngx_radix32tree_find t key = Some (longest R key 32).
Proof.
  intros (M & F & HR & <-). unfold ngx_radix32tree_find.
  destruct (proj1 (addr_some M [] (root t)) (rep_root _ _ _ HR)) as [v0 H0].
  apply (find_loop_spec t M F key 0 bits_fuel (root t) v0); [done..|lia|unfold bits_fuel; lia].
Qed.

End Code.

Lemma radix_create_empty_witness :
  exists t, @ngx_radix_tree_create lp64 4096 65536 (-1) = Some (t, NGX_OK) /\ @Stores lp64 t ∅.
Proof. apply (@radix_create_empty lp64 4096); [done|lia..]. Defined.

(** ** Examples *)

(** An empty tree with two levels preallocated, and one with the networks 192.168.0.0/16
    and 192.168.1.0/24. *)
Definition sample : tree :=
  match @ngx_radix_tree_create lp64 4096 65536 2 with Some (t, _) => t | None => mkTree ∅ 0 None 0 0 0 end.

Lemma sample_stores : @Stores lp64 sample ∅.
Proof.
  destruct (@radix_empty_spec lp64 4096 ltac:(done) 65536) as (t & E & Hs); [lia|].
  destruct (@prealloc_loop_spec lp64 4096 ltac:(done) 2 t 0 31) as (t' & E' & Hs'); [done|lia..|].
  assert (Ec : @ngx_radix_tree_create lp64 4096 65536 2 = Some (t', NGX_OK))
    by (unfold ngx_radix_tree_create; rewrite E; exact E').
  unfold sample. by rewrite Ec.
Qed.

Definition sample2 : tree :=
  match @ngx_radix32tree_insert lp64 4096 sample 3232235520 4294901760 1 with
  | Some (t, _) =>
      match @ngx_radix32tree_insert lp64 4096 t 3232235776 4294967040 2 with
      | Some (t, _) => t | None => t end
  | None => sample
  end.

Lemma sample2_stores :
  @Stores lp64 sample2 (<[net 3232235776 4294967040 := 2]> (<[net 3232235520 4294901760 := 1]> ∅)).
Proof.
  destruct (@insert_spec lp64 4096 ltac:(done) sample ∅ 3232235520 4294901760 1 sample_stores)
    as (t & rc & E & Hr).
  rewrite lookup_empty in Hr. destruct Hr as [_ Hs].
  change (@enter lp64 (net 3232235520 4294901760) 1 ∅) with (<[net 3232235520 4294901760 := 1]> (∅ : gmap (list bool) Z)) in Hs.
  destruct (@insert_spec lp64 4096 ltac:(done) t _ 3232235776 4294967040 2 Hs) as (t' & rc' & E' & Hr').
  rewrite lookup_insert_ne, lookup_empty in Hr' by (intros E0; apply (f_equal length) in E0; vm_compute in E0; lia).
  destruct Hr' as [_ Hs']. unfold sample2. rewrite E, E'. exact Hs'.
Qed.

Lemma radix_insert_refines_witness :
  exists t' rc, @ngx_radix32tree_insert lp64 4096 sample 3232235520 4294901760 5 = Some (t', rc)
    /\ rc = NGX_OK /\ @Stores lp64 t' (<[net 3232235520 4294901760 := 5]> ∅).
Proof.
  apply (@radix_insert_refines lp64 4096 ltac:(done) sample ∅ 3232235520 4294901760 5 sample_stores).
  split; [lia|reflexivity].
Defined.

Lemma radix_delete_refines_witness :
  exists t' rc, @ngx_radix32tree_delete lp64 sample2 3232235776 4294967040 = Some (t', rc)
    /\ @Stores lp64 t' (delete (net 3232235776 4294967040)
         (<[net 3232235776 4294967040 := 2]> (<[net 3232235520 4294901760 := 1]> ∅)))
    /\ (rc = NGX_OK \/ rc = NGX_ERROR /\ t' = sample2
         /\ (<[net 3232235776 4294967040 := 2]> (<[net 3232235520 4294901760 := 1]> (∅ : gmap (list bool) Z)))
              !! net 3232235776 4294967040 = None).
Proof.
  apply (@radix_delete_refines lp64 sample2 _ 3232235776 4294967040 sample2_stores). done.
Defined.

Lemma radix_find_longest_witness : @ngx_radix32tree_find lp64 sample2 3232235777 = Some 2.
Proof. exact (@radix_find_longest lp64 sample2 _ 3232235777 sample2_stores). Defined.

(** A sequence of operations. *)
Inductive op := Insert (key mask v : Z) | Delete (key mask : Z) | Find (key : Z).

Definition run_op `{Arch} (pagesize : Z) (st : option (tree * list Z)) (o : op) : option (tree * list Z) :=
  '(t, out) ← st;
  match o with
  | Insert key mask v => '(t, rc) ← ngx_radix32tree_insert pagesize t key mask v; Some (t, rc :: out)
  | Delete key mask => '(t, rc) ← ngx_radix32tree_delete t key mask; Some (t, rc :: out)
  | Find key => v ← ngx_radix32tree_find t key; Some (t, v :: out)
  end.

Definition run `{Arch} (ops : list op) : option (list Z) :=
  '(t, rc) ← ngx_radix_tree_create 4096 4096 2;
  '(_, out) ← foldl (run_op 4096) (Some (t, [])) ops; Some (rev out).

Example radix_run :
  @run lp64 [Insert 3232235520 4294901760 1; Insert 3232235776 4294967040 2; Find 3232235777;
        Find 3232236033; Find 1; Delete 3232235776 4294967040; Find 3232235777;
        Delete 3232235776 4294967040; Insert 3232235520 4294901760 7]
    = Some [NGX_OK; NGX_OK; 2; 1; 2 ^ 64 - 1; NGX_OK; 1; NGX_ERROR; NGX_BUSY].
Proof. vm_compute. reflexivity. Qed.

(** The default network cannot be deleted from a tree that has nothing else: the loop
    that frees nodes starts with the root and goes through its NULL parent. *)
Theorem radix_delete_root_faults `{Arch} t M F key mask v :
  Rep t M F -> M = {[ [] := (root t, v) ]} -> mask_len mask = 0%nat ->
  ngx_radix32tree_delete t key mask = None.
Proof.
  intros HR -> Hm. unfold ngx_radix32tree_delete. change 2147483648 with (bit_at 0).
  rewrite (delete_walk_spec t _ F key mask 0 (root t) v) by (done || lia || (unfold bits_fuel; lia)).
  cbn [mbind option_bind]. unfold net. rewrite Hm. cbn [rp].
  assert (H0 : ({[ [] := (root t, v) ]} : gmap (list bool) (Z * Z)) !! [] = Some (root t, v)) by done.
  rewrite (proj2 (addr_some _ [] (root t))) by (by exists v).
  rewrite (rep_node _ _ _ HR _ _ _ H0). cbn [mbind option_bind].
  rewrite (proj2 (childless_spec _ [] v)) by (intros x; by rewrite lookup_singleton_ne).
  cbn [negb bits_fuel delete_prune]. by rewrite (rep_node _ _ _ HR _ _ _ H0).
Qed.

End Radix.
