(* ===== verification/NgxRbtree.v ===== *)
(** * The red-black tree

    The red-black tree of src/nginx-1.7.2/src/core/ngx_rbtree.c, which holds the
    timers, the caches and the zones of the modules.  The nodes are embedded in the
    structures of the callers and linked by [left], [right] and [parent]; every
    leaf is one shared sentinel.  The code runs on a heap, a map from addresses to
    nodes, in a state monad whose failure is the dereference of a bad pointer. *)

From stdpp Require Import gmap fin_maps.
From S2P Require Import Prelude.

Module Rbtree.

Abbreviation NULL := 0 (only parsing).

(** [ngx_rbtree_node_t]; [data] is the structure the node is embedded in. *)
Record node {A : Type} := mkNode {
  key : Z;
  left : Z;
  right : Z;
  parent : Z;
  color : Z;
  data : A
}.
Arguments node : clear implicits.

(** The nodes on the heap and the field [root] of the [ngx_rbtree_t]; its other two
    fields never change and are arguments. *)
Record rb {A : Type} := mkRb { cells : gmap Z (node A); root : Z }.
Arguments rb : clear implicits.

Section Code.
Context {A : Type}.
Implicit Types (n : node A) (s : rb A).

Definition set_key v n := mkNode A v (left n) (right n) (parent n) (color n) (data n).
Definition set_left q n := mkNode A (key n) q (right n) (parent n) (color n) (data n).
Definition set_right q n := mkNode A (key n) (left n) q (parent n) (color n) (data n).
Definition set_parent q n := mkNode A (key n) (left n) (right n) q (color n) (data n).
Definition set_color v n := mkNode A (key n) (left n) (right n) (parent n) v (data n).

Definition set_data v n := mkNode A (key n) (left n) (right n) (parent n) (color n) v.

(** ** The monad *)

Definition M (X : Type) : Type := rb A -> option (X * rb A).

#[global] Instance M_ret : MRet M := fun X x s => Some (x, s).
#[global] Instance M_bind : MBind M := fun X Y f m s =>
  match m s with Some (x, s') => f x s' | None => None end.

(** A loop that has run out of fuel. *)
Definition no_fuel {X} : M X := fun _ => None.

(** [p->f] *)
Definition rd {X} (p : Z) (f : node A -> X) : M X := fun s => n ← cells s !! p; Some (f n, s).

(** A write to a field of [*p]. *)
Definition upd (p : Z) (f : node A -> node A) : M unit :=
  fun s => n ← cells s !! p; Some (tt, mkRb A (<[p := f n]> (cells s)) (root s)).

Definition get_root : M Z := fun s => Some (root s, s).
Definition set_root (q : Z) : M unit := fun s => Some (tt, mkRb A (cells s) q).

(** Every loop visits each node at most once. *)
Definition loop_fuel : M nat := fun s => Some (S (S (size (cells s))), s).

(** ** The macros *)

Definition ngx_rbt_red (p : Z) : M unit := upd p (set_color 1).
Definition ngx_rbt_black (p : Z) : M unit := upd p (set_color 0).
Definition ngx_rbt_is_red (p : Z) : M bool := rd p (fun n => negb (color n =? 0)).
Definition ngx_rbt_is_black (p : Z) : M bool := r ← ngx_rbt_is_red p; mret (negb r).
Definition ngx_rbt_copy_color (p q : Z) : M unit := c ← rd q color; upd p (set_color c).

(** The code has each rotation and each half of the two loops twice, once for each
    hand; [side] is the hand. *)
Inductive side := Left | Right.

#[global] Instance side_eq_dec : EqDecision side.
Proof. solve_decision. Defined.

Definition opp (d : side) : side := match d with Left => Right | Right => Left end.

Definition child (d : side) n : Z := match d with Left => left n | Right => right n end.

Definition set_child (d : side) (q : Z) n : node A :=
  match d with Left => set_left q n | Right => set_right q n end.

(** The address of the sentinel, [tree->sentinel]. *)
Variable sentinel : Z.

(** [if (node == node->parent->d) node->parent->d = temp; else node->parent->(opp d)
    = temp;] *)
Definition relink (d : side) (node temp : Z) : M unit :=
  p ← rd node parent;
  l ← rd p (child d);
  if node =? l then upd p (set_child d temp) else upd p (set_child (opp d) temp).

(** [ngx_rbtree_left_rotate] and [ngx_rbtree_right_rotate] *)
Definition rotate (d : side) (node : Z) : M unit :=
  temp ← rd node (child (opp d));
  q ← rd temp (child d);
  upd node (set_child (opp d) q);;
  q ← rd temp (child d);
  (if q =? sentinel then mret tt else upd q (set_parent node));;
  p ← rd node parent;
  upd temp (set_parent p);;
  rt ← get_root;
  (if node =? rt then set_root temp else relink d node temp);;
  upd temp (set_child d node);;
  upd node (set_parent temp).

Definition ngx_rbtree_left_rotate : Z -> M unit := rotate Left.
Definition ngx_rbtree_right_rotate : Z -> M unit := rotate Right.

(** ** Insertion *)

(** What the insertion functions compare. *)
Definition lab n : Z * A := (key n, data n).

(** The walk down of the insertion functions, which differ in their comparison:
    [goes_left node temp] is the test that sends [node] to the left of [temp]. *)
Section Insert.
Variable goes_left : Z * A -> Z * A -> bool.

Fixpoint insert_walk (fuel : nat) (temp node : Z) : M (side * Z) :=
  match fuel with
  | O => no_fuel
  | S fuel' =>
      x ← rd node lab; y ← rd temp lab;
      let d := if goes_left x y then Left else Right in
      p ← rd temp (child d);
      if p =? sentinel then mret (d, temp) else insert_walk fuel' p node
  end.

Definition insert_leaf (temp node : Z) : M unit :=
  fuel ← loop_fuel;
  '(d, temp) ← insert_walk fuel temp node;
  upd temp (set_child d node);;
  upd node (set_parent temp);;
  upd node (set_left sentinel);;
  upd node (set_right sentinel);;
  ngx_rbt_red node.
End Insert.

Definition ngx_rbtree_insert_value : Z -> Z -> M unit :=
  insert_leaf (fun x y => x.1 <? y.1).

(** The difference of two keys as a signed number, so that timers may wrap around. *)
Definition ngx_rbtree_insert_timer_value `{Arch} : Z -> Z -> M unit :=
  insert_leaf (fun x y => sint ptr_bits (x.1 - y.1) <? 0).

(** One half of the body of the loop of [ngx_rbtree_insert], for a parent that is the
    [d] child of its parent; the result is the new [node]. *)
Definition insert_half (d : side) (node : Z) : M Z :=
  p ← rd node parent; g ← rd p parent;
  temp ← rd g (child (opp d));
  red ← ngx_rbt_is_red temp;
  if red : bool then
    ngx_rbt_black p;;
    ngx_rbt_black temp;;
    p ← rd node parent; g ← rd p parent;
    ngx_rbt_red g;;
    p ← rd node parent; rd p parent
  else
    q ← rd p (child (opp d));
    node ← (if node =? q then rotate d p;; mret p else mret node);
    p ← rd node parent;
    ngx_rbt_black p;;
    p ← rd node parent; g ← rd p parent;
    ngx_rbt_red g;;
    p ← rd node parent; g ← rd p parent;
    rotate (opp d) g;;
    mret node.

Fixpoint insert_fix (fuel : nat) (node : Z) : M unit :=
  match fuel with
  | O => no_fuel
  | S fuel' =>
      rt ← get_root;
      red ← (if node =? rt then mret false else p ← rd node parent; ngx_rbt_is_red p);
      if red : bool then
        p ← rd node parent; g ← rd p parent;
        l ← rd g left;
        node ← insert_half (if p =? l then Left else Right) node;
        insert_fix fuel' node
      else mret tt
  end.

(** [insert] is the field of the tree. *)
Definition ngx_rbtree_insert (insert : Z -> Z -> M unit) (node : Z) : M unit :=
  rt ← get_root;
  if rt =? sentinel then
    upd node (set_parent NULL);;
    upd node (set_left sentinel);;
    upd node (set_right sentinel);;
    ngx_rbt_black node;;
    set_root node
  else
    insert rt node;;
    fuel ← loop_fuel;
    insert_fix fuel node;;
    rt ← get_root;
    ngx_rbt_black rt.

(** ** Deletion *)

Fixpoint min_loop (fuel : nat) (node : Z) : M Z :=
  match fuel with
  | O => no_fuel
  | S fuel' =>
      l ← rd node left;
      if l =? sentinel then mret node else min_loop fuel' l
  end.

Definition ngx_rbtree_min (node : Z) : M Z := fuel ← loop_fuel; min_loop fuel node.

(** The choice of [subst], the node that leaves its place, and [temp], the node that
    takes it. *)
Definition delete_choose (node : Z) : M (Z * Z) :=
  l ← rd node left;
  if l =? sentinel then temp ← rd node right; mret (node, temp)
  else
    r ← rd node right;
    if r =? sentinel then temp ← rd node left; mret (node, temp)
    else
      subst ← ngx_rbtree_min r;
      l ← rd subst left;
      temp ← (if negb (l =? sentinel) then rd subst left else rd subst right);
      mret (subst, temp).

(** The fields set under "DEBUG stuff". *)
Definition delete_clear (node : Z) : M unit :=
  upd node (set_left NULL);;
  upd node (set_right NULL);;
  upd node (set_parent NULL);;
  upd node (set_key 0).

(** [if (q != sentinel) q->parent = subst;] *)
Definition adopt (q subst : Z) : M unit :=
  if negb (q =? sentinel) then upd q (set_parent subst) else mret tt.

(** [subst] takes the place of [node]. *)
Definition take_place (node subst : Z) : M unit :=
  l ← rd node left; upd subst (set_left l);;
  r ← rd node right; upd subst (set_right r);;
  p ← rd node parent; upd subst (set_parent p);;
  ngx_rbt_copy_color subst node;;
  rt ← get_root;
  (if node =? rt then set_root subst else relink Left node subst);;
  l ← rd subst left; adopt l subst;;
  r ← rd subst right; adopt r subst.

(** [temp] gets its new parent and, where [subst] is another node, [subst] the place of
    [node]. *)
Definition delete_move (node subst temp : Z) : M unit :=
  if subst =? node then
    p ← rd subst parent; upd temp (set_parent p)
  else
    p ← rd subst parent;
    (if p =? node then upd temp (set_parent subst)
     else p ← rd subst parent; upd temp (set_parent p));;
    take_place node subst.

(** One half of the body of the loop that restores the balance, for a [temp] that is
    the [d] child of its parent.  First, a red sibling is rotated away; the result is
    the sibling [w] after that. *)
Definition delete_sibling (d : side) (temp : Z) : M Z :=
  p ← rd temp parent;
  w ← rd p (child (opp d));
  red ← ngx_rbt_is_red w;
  if red : bool then
    ngx_rbt_black w;;
    p ← rd temp parent; ngx_rbt_red p;;
    p ← rd temp parent; rotate d p;;
    p ← rd temp parent; rd p (child (opp d))
  else mret w.

(** A sibling whose far child is black is rotated; the result is the new [w]. *)
Definition delete_far (d : side) (temp w : Z) : M Z :=
  q ← rd w (child (opp d));
  black ← ngx_rbt_is_black q;
  if black : bool then
    q ← rd w (child d); ngx_rbt_black q;;
    ngx_rbt_red w;;
    rotate (opp d) w;;
    p ← rd temp parent; rd p (child (opp d))
  else mret w.

(** The rest of the half; the result is the new [temp]. *)
Definition delete_rest (d : side) (temp w : Z) : M Z :=
  l ← rd w left;
  black ← ngx_rbt_is_black l;
  both ← (if black : bool then r ← rd w right; ngx_rbt_is_black r else mret false);
  if both : bool then
    ngx_rbt_red w;;
    rd temp parent
  else
    w ← delete_far d temp w;
    p ← rd temp parent; ngx_rbt_copy_color w p;;
    p ← rd temp parent; ngx_rbt_black p;;
    q ← rd w (child (opp d)); ngx_rbt_black q;;
    p ← rd temp parent; rotate d p;;
    get_root.

Definition delete_half (d : side) (temp : Z) : M Z :=
  w ← delete_sibling d temp; delete_rest d temp w.

Fixpoint delete_fix (fuel : nat) (temp : Z) : M unit :=
  match fuel with
  | O => no_fuel
  | S fuel' =>
      rt ← get_root;
      black ← (if temp =? rt then mret false else ngx_rbt_is_black temp);
      if black : bool then
        p ← rd temp parent;
        l ← rd p left;
        temp ← delete_half (if temp =? l then Left else Right) temp;
        delete_fix fuel' temp
      else ngx_rbt_black temp
  end.

Definition ngx_rbtree_delete (node : Z) : M unit :=
  '(subst, temp) ← delete_choose node;
  rt ← get_root;
  if subst =? rt then
    set_root temp;;
    ngx_rbt_black temp;;
    delete_clear node
  else
    red ← ngx_rbt_is_red subst;
    relink Left subst temp;;
    delete_move node subst temp;;
    delete_clear node;;
    if red : bool then mret tt
    else fuel ← loop_fuel; delete_fix fuel temp.

(** [ngx_rbtree_init] *)
Definition ngx_rbtree_init : M unit := ngx_rbt_black sentinel;; set_root sentinel.
End Code.
Arguments M : clear implicits.

End Rbtree.
