(* ===== verification/NgxRbtreeRep.v ===== *)
(** * The red-black tree: representation

    How a heap holds a tree: representation predicates for trees and for the context
    of a subtree, a weakest precondition for the monad of the code, and what the local
    operations of ngx_rbtree.c (recolouring, rotating, relinking) do to a represented
    tree. *)

From stdpp Require Import gmap fin_maps.
From S2P Require Import Prelude NgxRbtree.

Module RbRep.
Import Rbtree.

(** ** Trees *)

Inductive colour := Red | Black.

#[export] Instance colour_eq_dec : EqDecision colour.
Proof. solve_decision. Defined.

Definition col (c : colour) : Z := match c with Red => 1 | Black => 0 end.

Section Trees.
Context {A : Type}.

(** An element: the address of a node, its key and its data. *)
Abbreviation elt := (Z * (Z * A))%type.

Inductive tree :=
  | E
  | T (c : colour) (l : tree) (x : elt) (r : tree).

Fixpoint inorder (t : tree) : list elt :=
  match t with E => [] | T _ l x r => inorder l ++ x :: inorder r end.

Definition ptrs (t : tree) : list Z := (inorder t).*1.

(** A node seen from the side [d]: [a] is its [d] child. *)
Definition nd (d : side) (c : colour) (x : elt) (a b : tree) : tree :=
  match d with Left => T c a x b | Right => T c b x a end.

(** The path from a subtree up to the root: each frame is a node, the side on which the
    subtree hangs and the other child. *)
Record frame := mkFrame { f_side : side; f_col : colour; f_elt : elt; f_sib : tree }.

Abbreviation ctx := (list frame).

Definition plug1 (f : frame) (t : tree) : tree := nd (f_side f) (f_col f) (f_elt f) t (f_sib f).

Fixpoint plug (c : ctx) (t : tree) : tree :=
  match c with [] => t | f :: c' => plug c' (plug1 f t) end.

Fixpoint ptrs_c (c : ctx) : list Z :=
  match c with [] => [] | f :: c' => (f_elt f).1 :: ptrs (f_sib f) ++ ptrs_c c' end.

Lemma ptrs_nd d c x a b : ptrs (nd d c x a b) ≡ₚ x.1 :: ptrs a ++ ptrs b.
Proof. destruct d; unfold ptrs; simpl; rewrite fmap_app, fmap_cons; solve_Permutation. Qed.

Lemma ptrs_plug c t : ptrs (plug c t) ≡ₚ ptrs_c c ++ ptrs t.
Proof.
  revert t. induction c as [|f c IH]; intros t; simpl; [done|].
  rewrite IH. unfold plug1. rewrite ptrs_nd. solve_Permutation.
Qed.

(** ** Nodes *)

(** The node of the element [x] whose child on the side [d] is [a]. *)
Definition mk (d : side) (x : elt) (a b par : Z) (c : colour) : node A :=
  match d with
  | Left => mkNode A x.2.1 a b par (col c) x.2.2
  | Right => mkNode A x.2.1 b a par (col c) x.2.2
  end.

Lemma opp_opp d : opp (opp d) = d.
Proof. by destruct d. Qed.
Lemma nd_opp d c x a b : nd (opp d) c x a b = nd d c x b a.
Proof. by destruct d. Qed.
Lemma mk_opp d x a b p c : mk (opp d) x a b p c = mk d x b a p c.
Proof. by destruct d. Qed.
Lemma child_mk d x a b p c : child d (mk d x a b p c) = a.
Proof. by destruct d. Qed.
Lemma child_opp_mk d x a b p c : child (opp d) (mk d x a b p c) = b.
Proof. by destruct d. Qed.
Lemma parent_mk d x a b p c : parent (mk d x a b p c) = p.
Proof. by destruct d. Qed.
Lemma color_mk d x a b p c : color (mk d x a b p c) = col c.
Proof. by destruct d. Qed.
Lemma set_child_mk d x a b p c q : set_child d q (mk d x a b p c) = mk d x q b p c.
Proof. by destruct d. Qed.
Lemma set_child_opp_mk d x a b p c q : set_child (opp d) q (mk d x a b p c) = mk d x a q p c.
Proof. by destruct d. Qed.
Lemma set_parent_mk d x a b p c q : set_parent q (mk d x a b p c) = mk d x a b q c.
Proof. by destruct d. Qed.
Lemma set_color_mk d x a b p c c' : set_color (col c') (mk d x a b p c) = mk d x a b p c'.
Proof. by destruct d. Qed.
End Trees.
Arguments tree : clear implicits.
Arguments frame : clear implicits.

Create Rewrite HintDb rb.
#[export] Hint Rewrite @child_mk @child_opp_mk @parent_mk @color_mk @set_child_mk @set_child_opp_mk
  @set_parent_mk @set_color_mk @opp_opp : rb.

(** ** Weakest preconditions *)

Section Wp.
Context {A : Type}.
Implicit Types (s : rb A).

(** [m] returns, and its result and state are in [Q]. *)
Definition wp {X} (m : M A X) (s : rb A) (Q : X -> rb A -> Prop) : Prop :=
  exists x s', m s = Some (x, s') /\ Q x s'.

Lemma wp_bind {X Y} (m : M A X) (f : X -> M A Y) s Q :
  wp m s (fun x s' => wp (f x) s' Q) -> wp (m ≫= f) s Q.
Proof.
  intros (x & s1 & Em & y & s2 & Ef & HQ). exists y, s2. split; [|done].
  unfold mbind, M_bind. by rewrite Em.
Qed.

Lemma wp_mono {X} (m : M A X) s (Q Q' : X -> rb A -> Prop) :
  wp m s Q -> (forall x s', Q x s' -> Q' x s') -> wp m s Q'.
Proof. intros (x & s1 & Em & HQ) HQQ. exists x, s1. eauto. Qed.

Lemma wp_ret {X} (x : X) s (Q : X -> rb A -> Prop) : Q x s -> wp (mret x) s Q.
Proof. intros HQ. by exists x, s. Qed.

Lemma wp_rd {X} p (f : node A -> X) n s (Q : X -> rb A -> Prop) :
  cells s !! p = Some n -> Q (f n) s -> wp (rd p f) s Q.
Proof. intros Hp HQ. exists (f n), s. split; [|done]. unfold rd. by rewrite Hp. Qed.

Lemma wp_upd p f n s (Q : unit -> rb A -> Prop) :
  cells s !! p = Some n -> Q tt (mkRb A (<[p := f n]> (cells s)) (root s)) -> wp (upd p f) s Q.
Proof. intros Hp HQ. eexists _, _. split; [|done]. unfold upd. by rewrite Hp. Qed.

Lemma wp_get_root s (Q : Z -> rb A -> Prop) : Q (root s) s -> wp get_root s Q.
Proof. intros HQ. by exists (root s), s. Qed.

Lemma wp_set_root q s (Q : unit -> rb A -> Prop) : Q tt (mkRb A (cells s) q) -> wp (set_root q) s Q.
Proof. intros HQ. by eexists _, _. Qed.

Lemma wp_loop_fuel s (Q : nat -> rb A -> Prop) : Q (S (S (size (cells s)))) s -> wp loop_fuel s Q.
Proof. intros HQ. by eexists _, _. Qed.
End Wp.

(** Running a statement or a read whose node is known. *)
Ltac wp_look := first [eassumption | simplify_map_eq; reflexivity].
Ltac wp_step :=
  first
    [ apply wp_bind
    | eapply wp_rd; [wp_look|autorewrite with rb]
    | eapply wp_upd; [wp_look|autorewrite with rb]
    | apply wp_get_root | apply wp_set_root | apply wp_loop_fuel | apply wp_ret ].

(** Membership goals, from the membership facts alone. *)
Ltac apart :=
  repeat match goal with
  | H : ?P |- _ =>
      lazymatch P with
      | _ ∉ _ => fail
      | _ ∈ _ => fail
      | _ <> _ => fail
      | _ \/ _ => fail
      | forall _, _ ∈ _ -> _ ∉ _ => fail
      | _ => clear H
      end
  end; set_solver.

(** ** Representation *)

Section Rep.
Context {A : Type}.
Variable sentinel : Z.
Implicit Types (s : rb A) (t a b e : tree A) (c : list (frame A)) (d : side).

Definition ptr_of (t : tree A) : Z := match t with E => sentinel | T _ _ x _ => x.1 end.

(** The heap has the nodes of [t], whose root has the parent [par]. *)
Fixpoint Rep (s : rb A) (par : Z) (t : tree A) : Prop :=
  match t with
  | E => True
  | T c l x r =>
      cells s !! x.1 = Some (mk Left x (ptr_of l) (ptr_of r) par c) /\ Rep s x.1 l /\ Rep s x.1 r
  end.

(** The parent of what is in the hole of a context; [p0] is the parent field of the
    root, which the code leaves arbitrary. *)
Definition par_of (p0 : Z) (c : list (frame A)) : Z :=
  match c with [] => p0 | f :: _ => (f_elt f).1 end.

(** The heap has the nodes of the context, with the address [q] in its hole. *)
Fixpoint RepC (s : rb A) (p0 : Z) (c : list (frame A)) (q : Z) : Prop :=
  match c with
  | [] => root s = q
  | f :: c' =>
      cells s !! (f_elt f).1
        = Some (mk (f_side f) (f_elt f) q (ptr_of (f_sib f)) (par_of p0 c') (f_col f))
      /\ Rep s (f_elt f).1 (f_sib f) /\ RepC s p0 c' (f_elt f).1
  end.

(** The sentinel is black. *)
Definition sentinel_ok s : Prop := exists n, cells s !! sentinel = Some n /\ color n = 0.

(** The tree is [plug c t], its nodes are different from each other and from the
    sentinel. *)
Definition At (p0 : Z) c t s : Prop :=
  RepC s p0 c (ptr_of t) /\ Rep s (par_of p0 c) t /\ sentinel_ok s
  /\ NoDup (sentinel :: ptrs_c c ++ ptrs t).

(** Nothing but the nodes of [l] has changed. *)
Definition outside (l : list Z) s s' : Prop := forall z, z ∉ l -> cells s' !! z = cells s !! z.

Lemma outside_refl l s : outside l s s.
Proof. done. Qed.

Lemma outside_trans l s1 s2 s3 : outside l s1 s2 -> outside l s2 s3 -> outside l s1 s3.
Proof. intros H1 H2 z Hz. rewrite H2, H1; done. Qed.

Lemma outside_perm l l' s s' : l ≡ₚ l' -> outside l s s' -> outside l' s s'.
Proof. intros Hp Ho z Hz. apply Ho. by rewrite Hp. Qed.

Lemma rep_nd s par d cc x a b :
  Rep s par (nd d cc x a b) <->
  cells s !! x.1 = Some (mk d x (ptr_of a) (ptr_of b) par cc) /\ Rep s x.1 a /\ Rep s x.1 b.
Proof. destruct d; simpl; naive_solver. Qed.

Lemma ptr_nd d cc x a b : ptr_of (nd d cc x a b) = x.1.
Proof. by destruct d. Qed.

Lemma rep_agree s s' par t :
  (forall z, z ∈ ptrs t -> cells s' !! z = cells s !! z) -> Rep s par t -> Rep s' par t.
Proof.
  revert par. induction t as [|cc l IHl x r IHr]; intros par Hz; [done|].
  unfold ptrs in Hz. simpl in Hz. rewrite fmap_app, fmap_cons in Hz.
  intros (Hx & Hl & Hr). simpl. rewrite Hz by set_solver. split_and!; [done|apply IHl|apply IHr]; set_solver.
Qed.

Lemma repc_agree s s' p0 c q :
  root s' = root s -> (forall z, z ∈ ptrs_c c -> cells s' !! z = cells s !! z) -> RepC s p0 c q -> RepC s' p0 c q.
Proof.
  intros Hr. revert q. induction c as [|f c IH]; intros q Hz; simpl; [congruence|]. simpl in Hz.
  intros (Hx & Hs & Hc). rewrite Hz by set_solver. split_and!; [done| |apply IH; set_solver].
  apply (rep_agree s); [set_solver|done].
Qed.

(** Moving the focus. *)
Lemma at_up p0 f c t s : At p0 (f :: c) t s <-> At p0 c (plug1 f t) s.
Proof.
  unfold At, plug1. rewrite ptr_nd, rep_nd, ptrs_nd. simpl.
  assert (Hp : (f_elt f).1 :: (ptrs (f_sib f) ++ ptrs_c c) ++ ptrs t
               ≡ₚ ptrs_c c ++ (f_elt f).1 :: ptrs t ++ ptrs (f_sib f)) by solve_Permutation.
  rewrite Hp. naive_solver.
Qed.

Lemma at_plug p0 c t s : At p0 c t s <-> At p0 [] (plug c t) s.
Proof.
  revert t. induction c as [|f c IH]; intros t; [done|]. by rewrite at_up, IH.
Qed.
(** ** Local operations *)

(** Giving a subtree a new parent. *)
Lemma wp_adopt q t par s :
  Rep s par t -> NoDup (sentinel :: ptrs t) ->
  wp (if ptr_of t =? sentinel then mret tt else upd (ptr_of t) (set_parent q)) s (fun _ s' =>
    Rep s' q t /\ root s' = root s /\ outside (ptrs t) s s').
Proof.
  intros Ht Hnd. destruct t as [|cc l x r]; simpl.
  { rewrite Z.eqb_refl. by apply wp_ret. }
  unfold ptrs in Hnd. simpl in Hnd. rewrite fmap_app, fmap_cons in Hnd.
  apply NoDup_cons in Hnd as [Hs Hnd]. apply NoDup_app in Hnd as (_ & Hlr & Hnd). apply NoDup_cons in Hnd as [Hxr _].
  destruct (Z.eqb_spec x.1 sentinel); [set_solver|]. destruct Ht as (Hx & Hl & Hr).
  wp_step. simpl. rewrite lookup_insert_eq. unfold ptrs. simpl. rewrite fmap_app, fmap_cons.
  split_and!; [done| | |done|intros z Hz; simpl; rewrite lookup_insert_ne; set_solver];
    (eapply rep_agree; [|done]); intros z Hz; simpl; apply lookup_insert_ne; set_solver.
Qed.

Lemma wp_adopt_neg q t par s :
  Rep s par t -> NoDup (sentinel :: ptrs t) ->
  wp (adopt sentinel (ptr_of t) q) s (fun _ s' => Rep s' q t /\ root s' = root s /\ outside (ptrs t) s s').
Proof.
  intros Ht Hnd. pose proof (wp_adopt q t par s Ht Hnd) as Hw. unfold adopt.
  by destruct (ptr_of t =? sentinel).
Qed.

Lemma root_in s p0 f c q : RepC s p0 (f :: c) q -> root s ∈ ptrs_c (f :: c).
Proof.
  revert f q. induction c as [|g c IH]; intros f q (Hx & Hs & Hc).
  - simpl in Hc. simpl. set_solver.
  - specialize (IH _ _ Hc). simpl in IH |- *. set_solver.
Qed.

Lemma ptr_in_T cc l x r : ptr_of (T cc l x r) ∈ ptrs (T cc l x r).
Proof. unfold ptrs. simpl. rewrite fmap_app, fmap_cons. set_solver. Qed.

Lemma ptr_in t : ptr_of t = sentinel \/ ptr_of t ∈ ptrs t.
Proof. destruct t as [|cc l x r]; [by left|right; apply ptr_in_T]. Qed.

(** Putting another address into the hole of a context. *)
Lemma wp_relink d f c q q' p0 n s :
  RepC s p0 (f :: c) q -> cells s !! q = Some n -> parent n = (f_elt f).1 ->
  q ∉ sentinel :: ptrs_c (f :: c) -> NoDup (ptrs_c (f :: c)) ->
  wp (relink d q q') s (fun _ s' =>
    RepC s' p0 (f :: c) q' /\ root s' = root s /\ outside (ptrs_c (f :: c)) s s').
Proof.
  intros (Hx & Hs & Hc) Hq Hp Hni Hnd. simpl in Hni, Hnd. apply NoDup_cons in Hnd as [Hxn Hnd].
  pose proof (ptr_in (f_sib f)) as Hsib.
  assert (Hne : q <> ptr_of (f_sib f)) by set_solver.
  assert (Hw : wp (upd (f_elt f).1 (set_child (f_side f) q')) s (fun _ s' =>
    RepC s' p0 (f :: c) q' /\ root s' = root s /\ outside (ptrs_c (f :: c)) s s')).
  { wp_step. simpl. rewrite lookup_insert_eq.
    split_and!; [done| | |done|intros z Hz; simpl; rewrite lookup_insert_ne; set_solver].
    - eapply rep_agree; [|done]. intros z Hz. simpl. apply lookup_insert_ne. set_solver.
    - eapply repc_agree; [..|done]; [done|]. intros z Hz. simpl. apply lookup_insert_ne. set_solver. }
  unfold relink. do 2 wp_step. rewrite Hp. do 2 wp_step.
  destruct d, (f_side f); simpl in *; case_match; try done; lia.
Qed.

(** The same where the context may be empty. *)
Lemma wp_replace d c q q' p0 n s :
  RepC s p0 c q -> cells s !! q = Some n -> parent n = par_of p0 c ->
  q ∉ sentinel :: ptrs_c c -> NoDup (ptrs_c c) ->
  wp (if q =? root s then set_root q' else relink d q q') s (fun _ s' =>
    RepC s' p0 c q' /\ outside (ptrs_c c) s s').
Proof.
  intros Hc Hq Hp Hni Hnd. destruct c as [|f c].
  - simpl in Hc. rewrite Hc, Z.eqb_refl. by wp_step.
  - pose proof (root_in _ _ _ _ _ Hc) as Hr. destruct (Z.eqb_spec q (root s)); [subst; set_solver|].
    eapply wp_mono; [by eapply wp_relink|]. naive_solver.
Qed.

(** Recolouring the node in the focus. *)
Lemma wp_recolour p0 c d cc cc' x a b s :
  At p0 c (nd d cc x a b) s ->
  wp (upd x.1 (set_color (col cc'))) s (fun _ s' =>
    At p0 c (nd d cc' x a b) s' /\ outside [x.1] s s').
Proof.
  unfold At. rewrite !ptr_nd, !rep_nd, !ptrs_nd. intros (Hc & (Hx & Ha & Hb) & Hsn & Hnd).
  wp_step. rewrite rep_nd, ptrs_nd. simpl. rewrite lookup_insert_eq.
  assert (Hs : sentinel <> x.1) by (inversion Hnd; set_solver).
  apply NoDup_cons in Hnd as Hnd'. destruct Hnd' as [_ Hnd']. apply NoDup_app in Hnd' as (_ & Hd & Hnd').
  apply NoDup_cons in Hnd' as [Hxn _].
  split_and!; try done.
  - eapply repc_agree; [..|done]; [done|]. intros z Hz. simpl. apply lookup_insert_ne. set_solver.
  - eapply rep_agree; [|done]. intros z Hz. simpl. apply lookup_insert_ne. set_solver.
  - eapply rep_agree; [|done]. intros z Hz. simpl. apply lookup_insert_ne. set_solver.
  - destruct Hsn as (n & Hn & Hc0). exists n. split; [|done]. simpl. by rewrite lookup_insert_ne.
  - intros z Hz. simpl. apply lookup_insert_ne. set_solver.
Qed.
(** Rotating at the focus. *)
Lemma wp_rotate d p0 c cx cy x y a b e s :
  At p0 c (nd d cx x a (nd d cy y b e)) s ->
  wp (rotate sentinel d x.1) s (fun _ s' =>
    At p0 c (nd d cy y (nd d cx x a b) e) s' /\ outside (x.1 :: y.1 :: ptrs b ++ ptrs_c c) s s').
Proof.
  unfold At. rewrite !ptr_nd, !rep_nd, !ptrs_nd, ptr_nd. intros (Hc & (Hx & Ha & Hy & Hb & He) & Hsn & Hnd).
  assert (Hp : sentinel :: ptrs_c c ++ x.1 :: ptrs a ++ y.1 :: ptrs b ++ ptrs e
    ≡ₚ x.1 :: y.1 :: (sentinel :: ptrs b) ++ ptrs_c c ++ ptrs a ++ ptrs e) by solve_Permutation.
  pose proof Hnd as Hnd1. rewrite Hp in Hnd1. clear Hp.
  apply NoDup_cons in Hnd1 as [Hxn Hnd1]. apply NoDup_cons in Hnd1 as [Hyn Hnd1].
  apply NoDup_app in Hnd1 as (Hndb & Hbn & Hnd1). apply NoDup_app in Hnd1 as (Hndc & Hcn & Hnd1).
  apply NoDup_app in Hnd1 as (_ & Han & _).
  assert (Hxy : x.1 <> y.1) by apart. pose proof (proj1 (proj1 (NoDup_cons _ _) Hndb)) as Hsb.
  unfold rotate. do 8 wp_step. apply wp_bind.
  eapply wp_mono; [apply (wp_adopt _ b y.1); [|done]|].
  { eapply rep_agree; [|done]. intros z Hz. simpl. apply lookup_insert_ne. apart. }
  intros _ s2 (Hb2 & Hr2 & Ho2). simpl in Hr2.
  assert (Hx2 : cells s2 !! x.1 = Some (mk d x (ptr_of a) (ptr_of b) (par_of p0 c) cx))
    by (rewrite Ho2 by apart; simpl; apply lookup_insert_eq).
  assert (Hy2 : cells s2 !! y.1 = Some (mk d y (ptr_of b) (ptr_of e) x.1 cy))
    by (rewrite Ho2 by apart; simpl; by rewrite lookup_insert_ne).
  do 6 wp_step. apply wp_bind.
  eapply wp_mono; [eapply (wp_replace _ c x.1 y.1 p0); [| | | |done]|].
  { eapply repc_agree; [..|exact Hc]; [done|]. intros z Hz. simpl.
    rewrite lookup_insert_ne by apart. rewrite Ho2 by apart. simpl. apply lookup_insert_ne. apart. }
  { simpl. rewrite lookup_insert_ne by done. exact Hx2. }
  { by autorewrite with rb. }
  { apart. }
  intros _ s4 (Hc4 & Ho4). simpl in Ho4.
  assert (Hx4 : cells s4 !! x.1 = Some (mk d x (ptr_of a) (ptr_of b) (par_of p0 c) cx))
    by (rewrite Ho4 by apart; simpl; by rewrite lookup_insert_ne).
  assert (Hy4 : cells s4 !! y.1 = Some (mk d y (ptr_of b) (ptr_of e) (par_of p0 c) cy))
    by (rewrite Ho4 by apart; simpl; by rewrite lookup_insert_eq).
  do 3 wp_step.
  assert (Hz : forall z, z ∉ x.1 :: y.1 :: ptrs b ++ ptrs_c c ->
    <[x.1:=mk d x (ptr_of a) (ptr_of b) y.1 cx]> (<[y.1:=mk d y x.1 (ptr_of e) (par_of p0 c) cy]> (cells s4)) !! z
    = cells s !! z).
  { intros z Hz. rewrite !lookup_insert_ne by apart. rewrite Ho4 by apart. simpl.
    rewrite lookup_insert_ne by apart. rewrite Ho2 by apart. simpl. apply lookup_insert_ne. apart. }
  rewrite !rep_nd, !ptrs_nd, !ptr_nd. simpl. rewrite lookup_insert_eq, lookup_insert_ne, lookup_insert_eq by done.
  split_and!; try done.
  - eapply repc_agree; [..|exact Hc4]; [done|]. clear Hz. intros z Hz. simpl. rewrite !lookup_insert_ne; apart.
  - eapply rep_agree; [|exact Ha]. intros z Hz'. apply Hz. clear Hz. apart.
  - eapply rep_agree; [|exact Hb2]. clear Hz. intros z Hz. simpl. rewrite !lookup_insert_ne by apart.
    rewrite Ho4 by apart. simpl. rewrite lookup_insert_ne; apart.
  - eapply rep_agree; [|exact He]. intros z Hz'. apply Hz. clear Hz. apart.
  - destruct Hsn as (n & Hn & Hc0). exists n. split; [|done]. rewrite <- Hn. apply Hz. clear Hz. apart.
  - eapply NoDup_Permutation_proper; [|exact Hnd]. solve_Permutation.
Qed.
(** ** The tree at work *)

Lemma inorder_plug c t t' : inorder t = inorder t' -> inorder (plug c t) = inorder (plug c t').
Proof.
  revert t t'. induction c as [|f c IH]; intros t t' Ht; simpl; [done|]. apply IH.
  unfold plug1, nd. destruct (f_side f); simpl; by rewrite Ht.
Qed.

(** The heap has the tree [plug c t], whose elements are [L], and nothing but its nodes
    has changed since [s0]. *)
Definition holding (s0 : rb A) (L : list (Z * (Z * A))) (p0 : Z) c t s : Prop :=
  At p0 c t s /\ inorder (plug c t) = L /\ outside L.*1 s0 s.

Section Held.
Context {s0 : rb A} {L : list (Z * (Z * A))} {p0 : Z}.
Abbreviation held := (holding s0 L p0).

Lemma held_up f c t s : held (f :: c) t s <-> held c (plug1 f t) s.
Proof. unfold holding. by rewrite at_up. Qed.

(** The focus on either child. *)
Lemma held_near d cc x a b c s : held c (nd d cc x a b) s <-> held (mkFrame d cc x b :: c) a s.
Proof. by rewrite held_up. Qed.

Lemma held_far d cc x a b c s : held c (nd d cc x a b) s <-> held (mkFrame (opp d) cc x a :: c) b s.
Proof. rewrite held_up. unfold plug1. simpl. by rewrite nd_opp. Qed.

Lemma held_read c d cc x a b s :
  held c (nd d cc x a b) s -> cells s !! x.1 = Some (mk d x (ptr_of a) (ptr_of b) (par_of p0 c) cc).
Proof. intros ((_ & Hr & _) & _). by apply rep_nd in Hr as (Hx & _). Qed.

Lemma held_sentinel c t s : held c t s -> sentinel_ok s.
Proof. by intros ((_ & _ & Hs & _) & _). Qed.

Lemma held_root c t s : held c t s -> root s = ptr_of (plug c t).
Proof. intros (Ha & _). apply at_plug in Ha as (Hr & _). done. Qed.

Lemma held_in z c t s : held c t s -> z ∈ ptrs_c c \/ z ∈ ptrs t -> z ∈ L.*1.
Proof.
  intros (_ & <- & _) Hz. change (z ∈ ptrs (plug c t)). rewrite ptrs_plug. set_solver.
Qed.

Lemma held_step c t t' s s' l :
  held c t s -> inorder t' = inorder t -> At p0 c t' s' -> outside l s s' ->
  (forall z, z ∈ l -> z ∈ ptrs_c c \/ z ∈ ptrs t) -> held c t' s'.
Proof.
  intros Hh Hi Ha Ho Hl. pose proof Hh as (_ & HL & Ho0). split; [done|]. split.
  - rewrite <- HL. by apply inorder_plug.
  - intros z Hz. rewrite Ho; [by apply Ho0|]. intros Hz'. by apply Hz, (held_in z c t s), Hl.
Qed.

Lemma held_recolour cc' c d cc x a b s Q :
  held c (nd d cc x a b) s -> (forall s', held c (nd d cc' x a b) s' -> Q tt s') ->
  wp (upd x.1 (set_color (col cc'))) s Q.
Proof.
  intros Hh HQ. eapply wp_mono; [eapply wp_recolour, Hh|]. intros [] s' [Ha Ho]. apply HQ.
  eapply held_step; [done| |done..|].
  - by destruct d.
  - intros z Hz. right. rewrite ptrs_nd. set_solver.
Qed.

Lemma held_rotate c d cx cy x y a b e s Q :
  held c (nd d cx x a (nd d cy y b e)) s ->
  (forall s', held c (nd d cy y (nd d cx x a b) e) s' -> Q tt s') ->
  wp (rotate sentinel d x.1) s Q.
Proof.
  intros Hh HQ. eapply wp_mono; [eapply wp_rotate, Hh|]. intros [] s' [Ha Ho]. apply HQ.
  eapply held_step; [done| |done..|].
  - destruct d; simpl; by rewrite <- (assoc (++)).
  - intros z Hz. rewrite !ptrs_nd. set_solver.
Qed.

Lemma held_rotate_opp c d cx cy x y a b e s Q :
  held c (nd d cx x (nd d cy y e b) a) s ->
  (forall s', held c (nd d cy y e (nd d cx x b a)) s' -> Q tt s') ->
  wp (rotate sentinel (opp d) x.1) s Q.
Proof.
  intros Hh HQ. apply (held_rotate c (opp d) cx cy x y a b e); [by rewrite !nd_opp|].
  intros s'. rewrite !nd_opp. apply HQ.
Qed.

(** The colour of a subtree, as the code reads it. *)
Definition redb t : bool := match t with T Red _ _ _ => true | _ => false end.

Lemma held_is_red c t s Q : held c t s -> Q (redb t) s -> wp (ngx_rbt_is_red (ptr_of t)) s Q.
Proof.
  intros Hh HQ. unfold ngx_rbt_is_red. destruct t as [|cc l x r].
  - apply held_sentinel in Hh as (n & Hn & Hc). eapply wp_rd; [done|]. by rewrite Hc.
  - change (T cc l x r) with (nd Left cc x l r) in Hh. apply held_read in Hh. simpl.
    eapply wp_rd; [done|]. rewrite color_mk. by destruct cc.
Qed.

Lemma held_is_black c t s Q : held c t s -> Q (negb (redb t)) s -> wp (ngx_rbt_is_black (ptr_of t)) s Q.
Proof. intros Hh HQ. apply wp_bind. eapply held_is_red; [done|]. by apply wp_ret. Qed.

Lemma held_ne c d cc x a b s :
  held c (nd d cc x a b) s -> x.1 <> sentinel /\ x.1 <> ptr_of a /\ x.1 <> ptr_of b /\ (a <> E -> ptr_of a <> ptr_of b).
Proof.
  intros ((_ & _ & _ & Hnd) & _). rewrite ptrs_nd in Hnd.
  apply NoDup_cons in Hnd as [Hs Hnd]. apply NoDup_app in Hnd as (_ & _ & Hnd).
  apply NoDup_cons in Hnd as [Hx Hnd]. apply NoDup_app in Hnd as (_ & Hab & _).
  assert (Ha : a <> E -> ptr_of a ∈ ptrs a) by (destruct a; [done|intros _; apply ptr_in_T]).
  rewrite elem_of_app, elem_of_cons, elem_of_app in Hs. rewrite elem_of_app in Hx.
  split_and!; [naive_solver| | |].
  - intros Hq. destruct (ptr_in a) as [Hp|Hp]; rewrite <- Hq in Hp; naive_solver.
  - intros Hq. destruct (ptr_in b) as [Hp|Hp]; rewrite <- Hq in Hp; naive_solver.
  - intros HE%Ha Hq. destruct (ptr_in b) as [Hp|Hp]; rewrite <- Hq in Hp; [rewrite Hp in HE|]; naive_solver.
Qed.
(** A subtree under a node is not the root. *)
Lemma held_not_root f c t s : held (f :: c) t s -> ptr_of t <> root s.
Proof.
  intros ((Hc & _ & _ & Hnd) & _) He. apply root_in in Hc. rewrite <- He in Hc.
  apply NoDup_cons in Hnd as [Hs Hnd]. apply NoDup_app in Hnd as (_ & Hd & _).
  destruct (ptr_in t) as [Ht|Ht]; [|by apply (Hd _ Hc)].
  rewrite Ht in Hc. apply Hs, elem_of_app. by left.
Qed.

(** The test for the side of a child. *)
Lemma side_test d x q q' p cc : q <> q' -> (if q =? left (mk (A := A) d x q q' p cc) then Left else Right) = d.
Proof. intros Hq. destruct d; simpl; case_match; lia || done. Qed.
End Held.
End Rep.

#[export] Hint Rewrite @ptr_nd : rb.

(** The cells of all the nodes of the tree in [H] that are written out. *)
Ltac cells_of H :=
  let R := fresh "Hcell" in
  pose proof (held_read _ _ _ _ _ _ _ _ H) as R; rewrite ?ptr_nd in R; cbn [par_of f_elt] in R;
  let H1 := fresh in
  pose proof (proj1 (held_near _ _ _ _ _ _ _ _) H) as H1;
  lazymatch type of H1 with
  | holding _ _ _ _ _ (nd _ _ _ _ _) _ => cells_of H1
  | _ => idtac
  end;
  clear H1;
  pose proof (proj1 (held_far _ _ _ _ _ _ _ _) H) as H1;
  lazymatch type of H1 with
  | holding _ _ _ _ _ (nd _ _ _ _ _) _ => cells_of H1
  | _ => idtac
  end;
  clear H1.

End RbRep.
