(* ===== verification/NgxRbtreeInv.v ===== *)
(** * The red-black tree: invariants

    What makes a tree a red-black search tree: the colours and the black height, the
    order of its elements, and the height these allow.  The specification of an
    insertion is [ins], on the list of the elements in order. *)

From Stdlib Require Import Sorted.
From S2P Require Import Prelude NgxRbtree NgxRbtreeRep.

Module RbInv.
Import Rbtree RbRep.

Section Colours.
Context {A : Type}.
Implicit Types (t a b : tree A) (c : list (frame A)).

(** [rbt n t]: no red node of [t] has a red child, and every path down has [n] black
    nodes. *)
Inductive rbt : nat -> tree A -> Prop :=
  | rbt_E : rbt 0 E
  | rbt_R n l x r : rbt n l -> rbt n r -> redb l = false -> redb r = false -> rbt n (T Red l x r)
  | rbt_B n l x r : rbt n l -> rbt n r -> rbt (S n) (T Black l x r).

Lemma rbt_red n d x a b :
  rbt n (nd d Red x a b) <-> rbt n a /\ rbt n b /\ redb a = false /\ redb b = false.
Proof.
  destruct d; simpl; (split; [intros Hr; inversion Hr; subst; done|]); intros (? & ? & ? & ?); by constructor.
Qed.

Lemma rbt_black n d x a b : rbt n (nd d Black x a b) <-> exists m, n = S m /\ rbt m a /\ rbt m b.
Proof.
  destruct d; simpl; (split; [intros Hr; inversion Hr; subst; eauto|]); intros (m & -> & ? & ?); by constructor.
Qed.

Definition blacken t : tree A := match t with E => E | T _ l x r => T Black l x r end.

Lemma blacken_nd d cc x a b : blacken (nd d cc x a b) = nd d Black x a b.
Proof. by destruct d. Qed.

Lemma redb_nd d cc x a b : redb (nd d cc x a b) = bool_decide (cc = Red).
Proof. by destruct d, cc. Qed.

Lemma blacken_inorder t : inorder (blacken t) = inorder t.
Proof. by destruct t. Qed.

Lemma blacken_rbt n t : rbt n t -> exists m, rbt m (blacken t).
Proof. intros Ht. inversion Ht; subst; simpl; eexists; by constructor. Qed.

Lemma blacken_blk t : redb (blacken t) = false.
Proof. by destruct t. Qed.

Definition top_black c : Prop := match c with [] => False | f :: _ => f_col f = Black end.

(** The same for a context whose hole takes a tree of black height [n]; its root is
    black. *)
Fixpoint rbc (n : nat) c : Prop :=
  match c with
  | [] => True
  | f :: c' =>
      rbt n (f_sib f) /\
      match f_col f with
      | Red => redb (f_sib f) = false /\ top_black c' /\ rbc n c'
      | Black => rbc (S n) c'
      end
  end.

Lemma rbt_plug n c t :
  rbt n t -> rbc n c -> (redb t = true -> c = [] \/ top_black c) -> exists m, rbt m (plug c t).
Proof.
  revert n t. induction c as [|f c IH]; intros n t Ht Hc Hr; simpl; [by exists n|].
  destruct Hc as [Hs Hc]. unfold plug1. destruct (f_col f) eqn:Ec.
  - destruct Hc as (Hb & Htop & Hc). apply (IH n); [|done|by right]. apply rbt_red. split_and!; try done.
    destruct (redb t) eqn:Er; [|done]. destruct (Hr eq_refl) as [?|Htb]; [done|]. simpl in Htb. congruence.
  - apply (IH (S n)); [|done|by rewrite redb_nd]. apply rbt_black. by exists n.
Qed.

Lemma blk_plug n f c t : rbc n (f :: c) -> redb (plug (f :: c) t) = false.
Proof.
  revert n f t. induction c as [|g c IH]; intros n f t [Hs Hc]; simpl.
  - unfold plug1. rewrite redb_nd. destruct (f_col f) eqn:Ef; [|done]. by destruct Hc as (_ & [] & _).
  - destruct (f_col f); [apply (IH n)|apply (IH (S n))]; naive_solver.
Qed.

Lemma rbt_unplug n c t :
  rbt n (plug c t) -> redb (plug c t) = false ->
  exists k, rbt k t /\ rbc k c /\ (redb t = true -> top_black c).
Proof.
  revert t. induction c as [|f c IH]; intros t Ht Hr; simpl in *.
  - exists n. split_and!; [done|done|congruence].
  - destruct (IH _ Ht Hr) as (k & Hk & Hc & Htop). unfold plug1 in Hk, Htop. rewrite redb_nd in Htop.
    destruct (f_col f) eqn:Ef.
    + apply rbt_red in Hk as (H1 & H2 & H3 & H4). exists k. split_and!; try done; [by apply Htop|congruence].
    + apply rbt_black in Hk as (m & -> & H1 & H2). exists m. done.
Qed.

(** The elements do not matter. *)
Lemma rbc_elt n cs d cc x y l c : rbc n (cs ++ mkFrame d cc x l :: c) -> rbc n (cs ++ mkFrame d cc y l :: c).
Proof.
  revert n. induction cs as [|f cs IH]; intros n; simpl; [done|]. intros [Hs Hc]. split; [done|].
  destruct (f_col f); [|by apply IH]. destruct Hc as (Hb & Htop & Hc). split_and!; [done| |by apply IH].
  by destruct cs.
Qed.

(** ** Height *)

Fixpoint height t : nat := match t with E => 0 | T _ l _ r => S (Nat.max (height l) (height r)) end.

Lemma rbt_height n t : rbt n t -> (height t <= 2 * n + if redb t then 1 else 0)%nat.
Proof.
  induction 1 as [|n l x r Hl IHl Hr IHr El Er|n l x r Hl IHl Hr IHr]; simpl; [lia| |].
  - rewrite El in IHl. rewrite Er in IHr. lia.
  - destruct (redb l), (redb r); lia.
Qed.

Lemma rbt_size n t : rbt n t -> (2 ^ n <= S (length (inorder t)))%nat.
Proof. induction 1; simpl; rewrite ?length_app; simpl; lia. Qed.

Lemma height_size t : (height t <= length (inorder t))%nat.
Proof. induction t; simpl; rewrite ?length_app; simpl; lia. Qed.

(** A red-black tree of [n] elements has a height of at most [2 log2 (n + 1)]. *)
Lemma rbt_log n t :
  rbt n t -> redb t = false -> (height t <= 2 * Nat.log2 (S (length (inorder t))))%nat.
Proof.
  intros Ht Hr. pose proof (rbt_height n t Ht) as Hh. rewrite Hr in Hh. pose proof (rbt_size n t Ht) as Hs.
  apply Nat.log2_le_mono in Hs. rewrite Nat.log2_pow2 in Hs by lia. lia.
Qed.
End Colours.

(** ** Order *)

(** What is to the left and to the right of the hole of a context. *)
Fixpoint lft {A} (c : list (frame A)) : list (Z * (Z * A)) :=
  match c with
  | [] => []
  | f :: c' => match f_side f with Left => lft c' | Right => lft c' ++ inorder (f_sib f) ++ [f_elt f] end
  end.

Fixpoint rgt {A} (c : list (frame A)) : list (Z * (Z * A)) :=
  match c with
  | [] => []
  | f :: c' => match f_side f with Left => f_elt f :: inorder (f_sib f) ++ rgt c' | Right => rgt c' end
  end.

Lemma lft_app {A} (c c' : list (frame A)) : lft (c ++ c') = lft c' ++ lft c.
Proof.
  induction c as [|f c IH]; simpl; [by rewrite app_nil_r|]. destruct (f_side f); rewrite IH; [done|].
  by rewrite <- !(assoc (++)).
Qed.

Lemma rgt_app {A} (c c' : list (frame A)) : rgt (c ++ c') = rgt c ++ rgt c'.
Proof.
  induction c as [|f c IH]; simpl; [done|]. destruct (f_side f); rewrite IH; simpl; [|done].
  by rewrite <- !(assoc (++)).
Qed.

Lemma lft_left {A} (c : list (frame A)) : Forall (fun f => f_side f = Left) c -> lft c = [].
Proof. induction 1 as [|f c Hf _ IH]; simpl; [done|]. by rewrite Hf. Qed.

Lemma inorder_split {A} (c : list (frame A)) t : inorder (plug c t) = lft c ++ inorder t ++ rgt c.
Proof.
  revert t. induction c as [|f c IH]; intros t; simpl; [by rewrite app_nil_r|].
  rewrite IH. unfold plug1. destruct (f_side f); simpl; by rewrite <- !(assoc (++)).
Qed.

(** Every element is the root of a subtree. *)
Lemma split_at {A} (t : tree A) L1 x L2 :
  inorder t = L1 ++ x :: L2 ->
  exists c cc l r, t = plug c (T cc l x r) /\ L1 = lft c ++ inorder l /\ L2 = inorder r ++ rgt c.
Proof.
  revert L1 L2. induction t as [|cc l IHl y r IHr]; intros L1 L2 HL; simpl in HL; [by destruct L1|].
  assert (Hup : forall c f k a b, plug (c ++ [f]) (T k a x b) = plug1 f (plug c (T k a x b)))
    by (intros c f k a b; generalize (T k a x b); induction c; simpl; auto).
  apply app_eq_inv in HL as [(k & Hl & Hk)|(k & -> & Hk)].
  - destruct k as [|z k]; simpl in Hk; simplify_eq.
    + exists [], cc, l, r. rewrite !app_nil_r in *. by subst.
    + destruct (IHl L1 k) as (c & k' & a & b & -> & -> & ->); [done|].
      exists (c ++ [mkFrame Left cc y r]), k', a, b. rewrite Hup, lft_app, rgt_app. simpl.
      by rewrite app_nil_r, <- !(assoc (++)).
  - destruct k as [|z k]; simpl in Hk; simplify_eq.
    + exists [], cc, l, r. by rewrite !app_nil_r.
    + destruct (IHr k L2) as (c & k' & a & b & -> & -> & ->); [done|].
      exists (c ++ [mkFrame Right cc z l]), k', a, b. rewrite Hup, lft_app, rgt_app. simpl.
      by rewrite !app_nil_r, <- !(assoc (++)).
Qed.

(** What an insertion function must compare with, for the labels in [P]: a strict
    order in which being incomparable is an equivalence. *)
Class KeyOrder {B : Type} (less : B -> B -> bool) (P : B -> Prop) : Prop := {
  less_asym x y : P x -> P y -> less x y = true -> less y x = false;
  less_trans x y z : P x -> P y -> P z -> less x y = true -> less z y = false -> less x z = true
}.

Section Order.
Context {A : Type} (less : Z * A -> Z * A -> bool) (P : Z * A -> Prop) `{!KeyOrder less P}.
Implicit Types (x y : Z * (Z * A)) (L : list (Z * (Z * A))) (t : tree A) (c : list (frame A)).

Definition sorted L : Prop := StronglySorted (fun x y => less y.2 x.2 = false) L.

(** Insertion before the first element that is greater. *)
Fixpoint ins x L : list (Z * (Z * A)) :=
  match L with [] => [x] | y :: L' => if less x.2 y.2 then x :: y :: L' else y :: ins x L' end.

Lemma ins_perm x L : ins x L ≡ₚ x :: L.
Proof. induction L as [|y L IH]; simpl; [done|]. destruct (less x.2 y.2); [done|]. rewrite IH. constructor. Qed.

Lemma ins_Forall (Q : Z * (Z * A) -> Prop) x L : Q x -> Forall Q L -> Forall Q (ins x L).
Proof. intros Hx HL. rewrite ins_perm. by constructor. Qed.

Lemma ins_app_lt x y L1 L2 : less x.2 y.2 = true -> ins x (L1 ++ y :: L2) = ins x L1 ++ y :: L2.
Proof.
  intros Hy. induction L1 as [|z L1 IH]; simpl; [by rewrite Hy|].
  destruct (less x.2 z.2); [done|]. by rewrite IH.
Qed.

Lemma ins_app_ge x L1 L2 : Forall (fun z => less x.2 z.2 = false) L1 -> ins x (L1 ++ L2) = L1 ++ ins x L2.
Proof. intros H1. induction H1 as [|z L1 Hz _ IH]; simpl; [done|]. by rewrite Hz, IH. Qed.

Lemma sorted_cons x L : sorted (x :: L) <-> sorted L /\ Forall (fun y => less y.2 x.2 = false) L.
Proof. split; [apply StronglySorted_inv|intros []; by constructor]. Qed.

Lemma sorted_app_left L1 y L2 : sorted (L1 ++ y :: L2) -> Forall (fun z => less y.2 z.2 = false) L1.
Proof.
  induction L1 as [|z L1 IH]; simpl; [done|]. rewrite sorted_cons, Forall_app, Forall_cons. naive_solver.
Qed.

Lemma sorted_delete L1 y L2 : sorted (L1 ++ y :: L2) -> sorted (L1 ++ L2).
Proof.
  induction L1 as [|z L1 IH]; simpl; rewrite !sorted_cons; [naive_solver|].
  rewrite !Forall_app, Forall_cons. naive_solver.
Qed.

Lemma ins_sorted x L : P x.2 -> Forall (fun y => P y.2) L -> sorted L -> sorted (ins x L).
Proof.
  intros Hx HL. induction L as [|y L IH]; simpl; intros Hs; [repeat constructor|].
  apply sorted_cons in Hs as [Hs Hy]. inversion HL as [|? ? Py PL]; subst.
  destruct (less x.2 y.2) eqn:E.
  - rewrite !sorted_cons. split_and!; [done|done|]. constructor; [by apply less_asym|].
    rewrite Forall_forall in *. intros z Hz. apply less_asym; [done|by apply PL|].
    apply (less_trans x.2 y.2 z.2); [done|done|by apply PL|done|by apply Hy].
  - rewrite sorted_cons. split; [by apply IH|]. by apply ins_Forall.
Qed.

(** The place the walk down finds for [x] under the context [c]. *)
Fixpoint descend x t c : list (frame A) :=
  match t with
  | E => c
  | T cc l y r =>
      if less x.2 y.2 then descend x l (mkFrame Left cc y r :: c)
      else descend x r (mkFrame Right cc y l :: c)
  end.

Lemma plug_descend x t c : plug (descend x t c) E = plug c t.
Proof. revert c. induction t as [|cc l IHl y r IHr]; intros c; simpl; [done|]. destruct (less _ _); [by rewrite IHl|by rewrite IHr]. Qed.

Lemma descend_ins x t c u :
  inorder u = [x] -> P x.2 -> Forall (fun y => P y.2) (inorder t) -> sorted (inorder t) ->
  inorder (plug (descend x t c) u) = lft c ++ ins x (inorder t) ++ rgt c.
Proof.
  intros Hu Hx. revert c. induction t as [|cc l IHl y r IHr]; intros c HP Hs; simpl.
  - by rewrite inorder_split, Hu.
  - simpl in HP, Hs. pose proof HP as HP'. rewrite Forall_app, Forall_cons in HP'. destruct HP' as (Pl & Py & Pr).
    assert (Hsl : sorted (inorder l)) by (clear - Hs; induction (inorder l); simpl in *; [constructor|];
      rewrite sorted_cons, Forall_app in Hs; apply sorted_cons; naive_solver).
    assert (Hsr : sorted (inorder r)) by (clear - Hs; induction (inorder l); simpl in *;
      rewrite sorted_cons in Hs; naive_solver).
    destruct (less x.2 y.2) eqn:Exy.
    + rewrite IHl, ins_app_lt by done. simpl. by rewrite <- (assoc (++)).
    + rewrite IHr by done. simpl. rewrite ins_app_ge; [simpl; rewrite Exy, <- !(assoc (++)); done|].
      pose proof (sorted_app_left _ _ _ Hs) as Hyz. rewrite Forall_forall in *. intros z Hz.
      destruct (less x.2 z.2) eqn:Exz; [|done]. rewrite <- Exy. symmetry.
      apply (less_trans x.2 z.2 y.2); auto.
Qed.

Lemma descend_cons x cc l y r c : exists f c', descend x (T cc l y r) c = f :: c'.
Proof.
  assert (Hd : forall t f c, exists g c', descend x t (f :: c) = g :: c').
  { induction t as [|k l' IHl z r' IHr]; intros f c0; simpl; [eauto|]. destruct (less _ _); auto. }
  simpl. destruct (less _ _); apply Hd.
Qed.

Lemma descend_rbc n x t c :
  rbt n t -> rbc n c -> (redb t = true -> top_black c) -> rbc 0 (descend x t c).
Proof.
  intros Ht. revert c. induction Ht as [|n l y r Hl IHl Hr IHr El Er|n l y r Hl IHl Hr IHr]; intros c Hc Htop; simpl in *; [done| |].
  - specialize (Htop eq_refl). destruct (less _ _); [apply IHl|apply IHr]; simpl; split_and?; try done; by rewrite ?El, ?Er.
  - destruct (less _ _); [apply IHl|apply IHr]; simpl; split_and?; done.
Qed.

Lemma descend_length x t c : (length (descend x t c) <= height t + length c)%nat.
Proof.
  revert c. induction t as [|cc l IHl y r IHr]; intros c; simpl; [done|].
  destruct (less _ _); [specialize (IHl (mkFrame Left cc y r :: c))|specialize (IHr (mkFrame Right cc y l :: c))]; simpl in *; lia.
Qed.
(** ** The tree as its users see it *)

(** The heap holds a red-black search tree with the elements [L]. *)
Definition is_rbtree (sentinel : Z) (s : rb A) L : Prop :=
  exists p0 t n, At sentinel p0 [] t s /\ inorder t = L /\ rbt n t /\ redb t = false /\ sorted L.
End Order.

(** ** The orders of the insertion functions *)

Definition value_less {A} (x y : Z * A) : bool := x.1 <? y.1.
Definition timer_less {A} `{Arch} (x y : Z * A) : bool := sint ptr_bits (x.1 - y.1) <? 0.

#[export] Instance value_order A (P : Z * A -> Prop) : KeyOrder (@value_less A) P.
Proof. split; unfold value_less; intros; lia. Qed.

(** The keys of timers that are less than half of the range apart: [lo], taken without
    the wrapping, is the least. *)
Definition in_window {A} `{Arch} (lo : Z) (x : Z * A) : Prop :=
  exists k, lo <= k < lo + 2 ^ (ptr_bits - 1) /\ x.1 = uint ptr_bits k.

Lemma sint_diff w j k : 0 < w -> - 2 ^ (w - 1) <= j - k < 2 ^ (w - 1) -> sint w (uint w j - uint w k) = j - k.
Proof.
  intros Hw Hd. rewrite <- (sint_small w (j - k)) by done. unfold sint, uint. f_equal.
  rewrite <- Z.add_mod_idemp_l, <- Zminus_mod, Z.add_mod_idemp_l by lia. done.
Qed.

#[export] Instance timer_order A `{Arch} lo : KeyOrder (@timer_less A _) (in_window lo).
Proof.
  assert (Hw : 0 < ptr_bits) by (pose proof ptr_bits_cases; lia).
  split.
  - intros x y (j & Hj & Ex) (k & Hk & Ey). unfold timer_less. rewrite Ex, Ey, !sint_diff by lia. lia.
  - intros x y z (j & Hj & Ex) (k & Hk & Ey) (l & Hl' & Ez). unfold timer_less. rewrite Ex, Ey, Ez, !sint_diff by lia. lia.
Qed.

End RbInv.
