(* ===== verification/NgxRbtreeInsert.v ===== *)
(** * The red-black tree: insertion

    [ngx_rbtree_insert] on a heap that holds a red-black search tree: it returns, and
    the heap then holds a red-black search tree with the node inserted behind those
    that are not greater. *)

From stdpp Require Import gmap fin_maps.
From S2P Require Import Prelude NgxRbtree NgxRbtreeRep NgxRbtreeInv.

Module RbInsert.
Import Rbtree RbRep RbInv.

Section Spec.
Context {A : Type} (sentinel : Z).
Implicit Types (s : rb A) (t a b u : tree A) (c : list (frame A)) (x y : Z * (Z * A)).

(** ** The number of nodes *)

Lemma rep_dom s par t z : Rep sentinel s par t -> z ∈ ptrs t -> is_Some (cells s !! z).
Proof.
  revert par. induction t as [|cc l IHl x r IHr]; intros par; [intros _ Hz; by apply elem_of_nil in Hz|].
  intros (Hx & Hl & Hr). unfold ptrs. simpl. rewrite fmap_app, fmap_cons, elem_of_app, elem_of_cons.
  intros [Hz|[->|Hz]]; [by eapply IHl|by rewrite Hx|by eapply IHr].
Qed.

Lemma at_size p0 t s : At sentinel p0 [] t s -> (length (inorder t) < size (cells s))%nat.
Proof.
  intros (_ & Hr & (n & Hn & _) & Hnd). simpl in Hnd.
  assert (Hs : list_to_set (C := gset Z) (sentinel :: ptrs t) ⊆ dom (cells s)).
  { intros z. rewrite elem_of_list_to_set, elem_of_cons, elem_of_dom. intros [->|Hz]; [by rewrite Hn|].
    by eapply rep_dom. }
  apply subseteq_size in Hs. rewrite size_list_to_set, size_dom in Hs by done.
  unfold ptrs in Hs. simpl in Hs. rewrite length_fmap in Hs. lia.
Qed.

(** ** The walk down *)

Section Walk.
Context (less : Z * A -> Z * A -> bool).

Lemma wp_insert_walk fuel q n t c f c' p0 s x Q :
  cells s !! q = Some n -> lab n = x.2 -> At sentinel p0 c t s -> descend less x t c = f :: c' -> t <> E ->
  (height t <= fuel)%nat -> Q (f_side f, (f_elt f).1) s ->
  wp (insert_walk sentinel less fuel (ptr_of sentinel t) q) s Q.
Proof.
  intros Hq Hn Ha Hd Ht Hf HQ. revert fuel c Ha Hd Ht Hf.
  assert (Hgo : forall d cc y a b fuel c,
    (forall fuel c, At sentinel p0 c a s -> descend less x a c = f :: c' -> a <> E -> (height a <= fuel)%nat ->
       wp (insert_walk sentinel less fuel (ptr_of sentinel a) q) s Q) ->
    (if less x.2 y.2 then Left else Right) = d -> At sentinel p0 c (nd d cc y a b) s ->
    descend less x a (mkFrame d cc y b :: c) = f :: c' -> (height a <= fuel)%nat ->
    wp (insert_walk sentinel less (S fuel) y.1 q) s Q).
  { intros d cc y a b fuel c IH Hl Ha Hd Hf. change (nd d cc y a b) with (plug1 (mkFrame d cc y b) a) in Ha.
    apply at_up in Ha. pose proof Ha as (Hc & _ & _ & Hnd). destruct Hc as (Hy & _ & _). simpl in Hy.
    simpl. do 4 wp_step. rewrite Hn.
    assert (Hlab : lab (mk d y (ptr_of sentinel a) (ptr_of sentinel b) (par_of p0 c) cc) = y.2) by (destruct d, y as [? []]; done).
    rewrite Hlab, Hl. do 2 wp_step.
    destruct a as [|k l z r]; simpl in Hd |- *.
    - rewrite Z.eqb_refl. wp_step. simplify_eq. done.
    - destruct (Z.eqb_spec z.1 sentinel) as [Hz|Hz].
      { exfalso. apply NoDup_cons in Hnd as [Hni _]. apply Hni. rewrite elem_of_app. right. rewrite <- Hz.
        apply (ptr_in_T sentinel k l z r). }
      apply (IH fuel (mkFrame d cc y b :: c)); done. }
  induction t as [|cc l IHl y r IHr]; intros fuel c Ha Hd Ht Hf; [done|].
  simpl in Hd, Hf. destruct fuel as [|fuel]; [lia|]. simpl ptr_of. destruct (less x.2 y.2) eqn:Ex.
  - apply (Hgo Left cc y l r fuel c IHl); [by rewrite Ex|done|done|lia].
  - apply (Hgo Right cc y r l fuel c IHr); [by rewrite Ex|done|done|lia].
Qed.

(** The new leaf. *)
Lemma wp_insert_leaf q n t p0 s x Q :
  cells s !! q = Some n -> x = (q, lab n) -> At sentinel p0 [] t s -> t <> E -> q ∉ sentinel :: ptrs t ->
  (forall s', At sentinel p0 (descend less x t []) (T Red E x E) s' -> outside (q :: ptrs t) s s' -> Q tt s') ->
  wp (insert_leaf sentinel less (root s) q) s Q.
Proof.
  intros Hq -> Ha Ht Hni HQ. set (x := (q, lab n)) in *.
  destruct t as [|cc l y r]; [done|]. destruct (descend_cons less x cc l y r []) as (f & c & Hd).
  set (t := T cc l y r) in *.
  assert (Hr : root s = ptr_of sentinel t) by apply Ha.
  pose proof (at_size _ _ _ Ha) as Hsz. pose proof (height_size t) as Hh.
  assert (Ha' : At sentinel p0 (f :: c) E s).
  { rewrite at_plug, <- Hd, plug_descend. done. }
  destruct Ha' as ((Hf & Hs & Hc) & _ & Hsn & Hnd).
  assert (Hp : ptrs t ≡ₚ ptrs_c (f :: c)).
  { change t with (plug [] t). rewrite <- (plug_descend less x t []), Hd, ptrs_plug. by rewrite app_nil_r. }
  rewrite Hp in Hni. simpl in Hni, Hnd. rewrite app_nil_r in Hnd.
  apply NoDup_cons in Hnd as [Hsni Hnd]. apply NoDup_cons in Hnd as Hfn. destruct Hfn as [Hfn _].
  assert (Hqf : q <> (f_elt f).1) by set_solver.
  unfold insert_leaf. rewrite Hr. do 3 wp_step.
  eapply (wp_insert_walk _ q n t [] f c p0 s x); [done|done|done|done|done|lia|].
  do 8 wp_step. unfold ngx_rbt_red. wp_step.
  cbn [cells root]. set (h := <[q := _]> _).
  assert (Hh' : h = <[q := mk Left x sentinel sentinel (f_elt f).1 Red]>
    (<[(f_elt f).1 := mk (f_side f) (f_elt f) q (ptr_of sentinel (f_sib f)) (par_of p0 c) (f_col f)]> (cells s))).
  { unfold h. rewrite !insert_insert_eq. done. }
  clearbody h. subst h.
  assert (Hz : forall z, z <> q -> z <> (f_elt f).1 ->
    <[q := mk Left x sentinel sentinel (f_elt f).1 Red]>
      (<[(f_elt f).1 := mk (f_side f) (f_elt f) q (ptr_of sentinel (f_sib f)) (par_of p0 c) (f_col f)]> (cells s)) !! z
    = cells s !! z) by (intros z ? ?; by rewrite !lookup_insert_ne).
  apply HQ.
  - rewrite Hd. split_and!; simpl; split_and?; try done.
    + by rewrite lookup_insert_ne, lookup_insert_eq.
    + eapply rep_agree; [|done]. intros z Hz'. apply Hz; set_solver.
    + eapply repc_agree; [..|done]; [done|]. intros z Hz'. apply Hz; set_solver.
    + by rewrite lookup_insert_eq.
    + destruct Hsn as (m & Hm & Hc0). exists m. split; [|done]. rewrite <- Hm. apply Hz; set_solver.
    + change (NoDup (sentinel :: ptrs_c (f :: c) ++ [q])). rewrite (Permutation_app_comm _ [q]).
      apply NoDup_cons. split; [set_solver|]. apply NoDup_cons. split; [set_solver|done].
  - intros z Hz'. simpl. apply Hz; [set_solver|]. rewrite Hp in Hz'. set_solver.
Qed.
End Walk.

(** ** The balance *)

Section Balance.
Context {s0 : rb A} {L : list (Z * (Z * A))} {p0 : Z}.
Abbreviation held := (holding sentinel s0 L p0).

(** The uncle is red: only colours change. *)
Lemma wp_half_red d e f g p x v a b sb ul ur c s Q :
  held c (nd d Black g (nd e Red p (nd f Red x a b) sb) (nd Left Red v ul ur)) s ->
  (forall s', held c (nd d Red g (nd e Black p (nd f Red x a b) sb) (nd Left Black v ul ur)) s' -> Q g.1 s') ->
  wp (insert_half sentinel d x.1) s Q.
Proof.
  intros H HQ. cells_of H. unfold insert_half. do 6 wp_step. apply wp_bind.
  pose proof (proj1 (held_far _ _ _ _ _ _ _ _) H) as Hv.
  change v.1 with (ptr_of sentinel (nd Left Red v ul ur)).
  eapply held_is_red; [exact Hv|]. simpl redb. apply wp_bind.
  apply held_near in H. eapply (held_recolour _ Black); [exact H|]. intros s1 H1%held_near%held_far.
  apply wp_bind. eapply (held_recolour _ Black); [exact H1|]. intros s2 H2%held_far.
  cells_of H2. do 4 wp_step. apply wp_bind. eapply (held_recolour _ Red); [exact H2|].
  intros s3 H3. cells_of H3. do 3 wp_step. by apply HQ.
Qed.
(** The uncle is black and the node on the outside: one rotation. *)
Lemma wp_half_outer d f g p x a b sb u c s Q :
  held c (nd d Black g (nd d Red p (nd f Red x a b) sb) u) s -> redb u = false ->
  (forall s', held c (nd d Black p (nd f Red x a b) (nd d Red g sb u)) s' -> Q x.1 s') ->
  wp (insert_half sentinel d x.1) s Q.
Proof.
  intros H Hu HQ. cells_of H. unfold insert_half. do 6 wp_step. apply wp_bind.
  pose proof (proj1 (held_far _ _ _ _ _ _ _ _) H) as Hv.
  eapply held_is_red; [exact Hv|]. rewrite Hu. do 2 wp_step.
  pose proof (held_ne _ _ _ _ _ _ _ _ (proj1 (held_near _ _ _ _ _ _ _ _) H)) as (_ & _ & _ & Hne).
  rewrite ptr_nd in Hne. destruct (Z.eqb_spec x.1 (ptr_of sentinel sb)) as [He|_]; [by destruct f, Hne|].
  do 4 wp_step. apply wp_bind. apply held_near in H. eapply (held_recolour _ Black); [exact H|].
  intros s1 H1%held_near. cells_of H1. do 4 wp_step. apply wp_bind.
  eapply (held_recolour _ Red); [exact H1|]. intros s2 H2. cells_of H2. do 5 wp_step.
  eapply held_rotate_opp; [exact H2|]. intros s3 H3. wp_step. by apply HQ.
Qed.

(** The uncle is black and the node on the inside: two rotations. *)
Lemma wp_half_inner d g p x a b sb u c s Q :
  held c (nd d Black g (nd d Red p sb (nd d Red x a b)) u) s -> redb u = false ->
  (forall s', held c (nd d Black x (nd d Red p sb a) (nd d Red g b u)) s' -> Q p.1 s') ->
  wp (insert_half sentinel d x.1) s Q.
Proof.
  intros H Hu HQ. cells_of H. unfold insert_half. do 6 wp_step. apply wp_bind.
  pose proof (proj1 (held_far _ _ _ _ _ _ _ _) H) as Hv.
  eapply held_is_red; [exact Hv|]. rewrite Hu. do 2 wp_step. rewrite Z.eqb_refl.
  do 2 apply wp_bind. apply held_near in H. eapply held_rotate; [exact H|]. intros s1 H1. wp_step.
  cells_of H1. do 2 wp_step. apply wp_bind. eapply (held_recolour _ Black); [exact H1|].
  intros s2 H2%held_near. cells_of H2. do 4 wp_step. apply wp_bind.
  eapply (held_recolour _ Red); [exact H2|]. intros s3 H3. cells_of H3. do 5 wp_step.
  eapply held_rotate_opp; [exact H3|]. intros s4 H4. wp_step. by apply HQ.
Qed.
Lemma nd_any d d' cc x a b : exists a' b', nd d cc x a b = nd d' cc x a' b'.
Proof. destruct d, d'; simpl; eexists _, _; reflexivity. Qed.

Lemma nd_E d cc x a b : nd d cc x a b <> E.
Proof. by destruct d. Qed.

Lemma wp_insert_fix fuel n c d x a b s Q :
  held c (nd d Red x a b) s -> rbt n (nd d Red x a b) -> rbc n c -> (length c < fuel)%nat ->
  (forall s' W m, held [] W s' -> rbt m (blacken W) -> W <> E -> Q tt s') ->
  wp (insert_fix sentinel fuel x.1) s Q.
Proof.
  intros H Ht Hc Hf HQ. revert n c d x a b s H Ht Hc Hf.
  induction fuel as [|fuel IH]; intros n c d x a b s H Ht Hc Hf; [lia|].
  cells_of H. simpl insert_fix. do 2 wp_step. destruct c as [|f c].
  { pose proof (held_root _ _ _ _ H) as Hr. simpl in Hr. rewrite ptr_nd in Hr. rewrite Hr, Z.eqb_refl.
    do 3 wp_step. destruct (blacken_rbt _ _ Ht) as [m Hm]. by eapply HQ; [|exact Hm|apply nd_E]. }
  pose proof (held_not_root _ _ _ _ _ H) as Hr. rewrite ptr_nd in Hr.
  destruct (Z.eqb_spec x.1 (root s)); [done|]. do 3 wp_step.
  destruct f as [df cf p sb]. apply held_up in H as Hp. unfold plug1 in Hp. cbn [f_side f_col f_elt f_sib] in Hp.
  cbn [par_of f_elt]. rewrite <- (ptr_nd sentinel df cf p (nd d Red x a b) sb).
  eapply held_is_red; [exact Hp|]. rewrite redb_nd. destruct Hc as [Hsb Hc]. simpl in Hsb, Hc. destruct cf; simpl.
  2:{ wp_step. destruct (rbt_plug n (mkFrame df Black p sb :: c) (nd d Red x a b)) as [m Hm]; [done|done|by right|].
      destruct (blacken_rbt _ _ Hm) as [m' Hm']. eapply HQ; [|exact Hm'|].
      - destruct H as (Ha & HL). split; [exact (proj1 (at_plug _ _ _ _ _) Ha)|exact HL].
      - destruct (plug _ _) eqn:Ep; [|done]. exfalso. apply (f_equal inorder) in Ep. rewrite inorder_split in Ep.
        apply app_nil in Ep as [_ Ep]. apply app_nil in Ep as [Ep _].
        destruct d; simpl in Ep; symmetry in Ep; by apply app_cons_not_nil in Ep. }
  destruct Hc as (Rsb & Htop & Hc). destruct c as [|[dg cg g u] c]; [done|]. simpl in Htop. subst cg.
  destruct Hc as [Hu Hc]. simpl in Hu, Hc. apply held_up in Hp. unfold plug1 in Hp. cbn [f_side f_col f_elt f_sib] in Hp.
  cells_of Hp. do 6 wp_step. rewrite side_test.
  2:{ pose proof (held_ne _ _ _ _ _ _ _ _ Hp) as (_ & _ & _ & Hne). rewrite ptr_nd in Hne. by apply Hne, nd_E. }
  apply wp_bind. apply rbt_red in Ht as (Hta & Htb & Ra & Rb). simpl in Hf.
  destruct (redb u) eqn:Ru.
  { destruct u as [|[] ul v ur]; try done. eapply wp_half_red; [exact Hp|]. intros s' H'.
    inversion Hu; subst. eapply (IH (S n)); [exact H'| |done|lia].
    apply rbt_red. rewrite redb_nd. split_and!; [|constructor; done|done|done].
    apply rbt_black. exists n. split_and!; [done| |done]. by apply rbt_red. }
  destruct (decide (df = dg)) as [->|Hd].
  - eapply wp_half_outer; [exact Hp|done|]. intros s' H'%held_near.
    eapply (IH n); [exact H'|by apply rbt_red| |simpl; lia]. split; [by apply rbt_red|done].
  - assert (df = opp dg) as -> by (destruct df, dg; done).
    destruct (nd_any d dg Red x a b) as (a' & b' & He).
    assert (Ht' : rbt n (nd dg Red x a' b')) by (rewrite <- He; by apply rbt_red).
    apply rbt_red in Ht' as (Hta' & Htb' & Ra' & Rb'). rewrite He, nd_opp in Hp.
    eapply wp_half_inner; [exact Hp|done|]. intros s' H'%held_near.
    eapply (IH n); [exact H'|by apply rbt_red| |simpl; lia]. split; [by apply rbt_red|done].
Qed.
End Balance.

(** ** The interface to the insertion functions *)

(** What [ngx_rbtree_insert] relies on of the function in [tree->insert]: on a tree that
    is not empty it hangs the node, red and without children, where [descend] finds its
    place, and changes nothing else. *)
Class InsertPt (insert : Z -> Z -> M A unit) (less : Z * A -> Z * A -> bool) : Prop :=
  insert_pt q n t p0 s :
    cells s !! q = Some n -> At sentinel p0 [] t s -> t <> E -> q ∉ sentinel :: ptrs t ->
    wp (insert (root s) q) s (fun _ s' =>
      At sentinel p0 (descend less (q, lab n) t []) (T Red E (q, lab n) E) s' /\ outside (q :: ptrs t) s s').

#[global] Instance insert_leaf_pt less : InsertPt (insert_leaf sentinel less) less.
Proof. intros q n t p0 s Hq Ha Ht Hni. eapply wp_insert_leaf; eauto. Qed.

#[global] Instance insert_value_pt : InsertPt (ngx_rbtree_insert_value sentinel) value_less.
Proof. apply insert_leaf_pt. Qed.

#[global] Instance insert_timer_value_pt `{Arch} : InsertPt (ngx_rbtree_insert_timer_value sentinel) timer_less.
Proof. apply insert_leaf_pt. Qed.

(** Into an empty tree. *)
Lemma wp_insert_first insert q n p0 s :
  At sentinel p0 [] E s -> cells s !! q = Some n -> q <> sentinel ->
  wp (ngx_rbtree_insert sentinel insert q) s (fun _ s' =>
    At sentinel NULL [] (T Black E (q, lab n) E) s' /\ outside [q] s s').
Proof.
  intros (Hr & _ & (m & Hm & Hc) & _) Hq Hne. simpl in Hr. unfold ngx_rbtree_insert. do 2 wp_step.
  rewrite Hr, Z.eqb_refl. do 6 wp_step. apply wp_bind. unfold ngx_rbt_black. do 2 wp_step. cbn [cells root].
  rewrite !insert_insert_eq. split.
  - split_and!; simpl.
    + done.
    + by rewrite <- Hr, lookup_insert_eq.
    + exists m. split; [|done]. simpl. by rewrite lookup_insert_ne.
    + repeat constructor; set_solver.
  - intros z Hz. simpl. apply lookup_insert_ne. set_solver.
Qed.

Section Insert.
Context (insert : Z -> Z -> M A unit) (less : Z * A -> Z * A -> bool) (P : Z * A -> Prop).
Context `{!InsertPt insert less, !KeyOrder less P}.

Lemma wp_insert q n s l :
  is_rbtree less sentinel s l -> cells s !! q = Some n -> q ∉ sentinel :: l.*1 -> P (lab n) ->
  Forall (fun x => P x.2) l ->
  wp (ngx_rbtree_insert sentinel insert q) s (fun _ s' =>
    is_rbtree less sentinel s' (ins less (q, lab n) l) /\ outside (q :: l.*1) s s').
Proof.
  intros (p0 & t & k & Ha & <- & Ht & Rt & Hs) Hq Hni Hn HP. destruct t as [|cc tl y tr].
  { eapply wp_mono; [eapply wp_insert_first; [done|done|set_solver]|]. intros _ s' [Ha' Ho]. split; [|done].
    eexists _, _, 1%nat. split; [exact Ha'|]. split_and!; repeat constructor. }
  set (t := T cc tl y tr) in *. set (x := (q, lab n)).
  assert (Hr : root s = ptr_of sentinel t) by apply Ha.
  unfold ngx_rbtree_insert. do 2 wp_step. destruct (Z.eqb_spec (root s) sentinel) as [He|_].
  { exfalso. destruct Ha as (_ & _ & _ & Hnd). apply NoDup_cons in Hnd as [Hnd _]. apply Hnd. simpl.
    rewrite <- He, Hr. apply (ptr_in_T sentinel cc tl y tr). }
  apply wp_bind. eapply wp_mono; [by eapply insert_pt|]. intros [] s1 [Ha1 Ho1]. fold x in Ha1.
  assert (Hin : inorder (plug (descend less x t []) (T Red E x E)) = ins less x (inorder t)).
  { rewrite (descend_ins less P) by done. simpl. by rewrite app_nil_r. }
  assert (Hsz : (length (descend less x t []) < S (S (size (cells s1))))%nat).
  { apply at_plug, at_size in Ha1. rewrite Hin, ins_perm in Ha1. pose proof (descend_length less x t []).
    pose proof (height_size t). simpl in *. lia. }
  assert (Hh : holding sentinel s1 (ins less x (inorder t)) p0 (descend less x t []) (nd Left Red x E E) s1).
  { split; [done|]. split; [done|apply outside_refl]. }
  do 3 wp_step. change q with x.1. eapply wp_insert_fix; [exact Hh|by repeat constructor| |done|].
  { eapply descend_rbc; [done|done|]. by rewrite Rt. }
  intros s2 W m HW Hm HWE. do 2 wp_step. destruct W as [|cw wl w wr]; [done|].
  change (T cw wl w wr) with (nd Left cw w wl wr) in HW. pose proof (held_root _ _ _ _ HW) as ->.
  eapply (held_recolour _ Black); [exact HW|]. intros s3 (H3 & H3i & H3o). split.
  - exists p0, (nd Left Black w wl wr), m. split_and!; [done|exact H3i|exact Hm|done|by apply (ins_sorted less P)].
  - intros z Hz. rewrite H3o, Ho1; [done|exact Hz|]. intros Hz'. apply Hz.
    apply list_elem_of_fmap_1 in Hz'. destruct Hz' as (v & -> & Hv). rewrite ins_perm in Hv.
    apply elem_of_cons in Hv as [->|Hv]; [by left|right]. by apply (list_elem_of_fmap_2 fst).
Qed.
End Insert.

End Spec.

End RbInsert.
