(* ===== verification/NgxRbtreeDelete.v ===== *)
(** * The red-black tree: deletion

    [ngx_rbtree_delete] on a heap that holds a red-black search tree: it returns, and
    the heap then holds a red-black search tree of the other nodes. *)

From stdpp Require Import gmap fin_maps.
From S2P Require Import Prelude NgxRbtree NgxRbtreeRep NgxRbtreeInv NgxRbtreeInsert.

Module RbDelete.
Import Rbtree RbRep RbInv RbInsert.

Section Spec.
Context {A : Type} (sentinel : Z).
Implicit Types (s : rb A) (t a b u : tree A) (c : list (frame A)) (x y : Z * (Z * A)).

(** The parent field of a subtree, which is the sentinel's where it is empty. *)
Definition tpar u (q : Z) s : Prop := exists n, cells s !! ptr_of sentinel u = Some n /\ parent n = q.

(** ** The balance *)

Section Balance.
Context {s0 : rb A} {L : list (Z * (Z * A))} {p0 : Z}.
Abbreviation held := (holding sentinel s0 L p0).

(** The code leaves the sentinel alone here. *)
Lemma held_tpar d cc p u w c s :
  held c (nd d cc p u w) s -> (u = E -> tpar u p.1 s0) -> tpar u p.1 s.
Proof.
  intros H HE. destruct u as [|cu ul x ur].
  - destruct (HE eq_refl) as (n & Hn & Hp). exists n. split; [|done].
    destruct H as ((_ & _ & _ & Hnd) & HL & Ho). rewrite Ho; [done|]. rewrite <- HL.
    apply NoDup_cons in Hnd as [Hs _]. change (sentinel ∉ ptrs (plug c (nd d cc p E w))). by rewrite ptrs_plug.
  - apply held_near in H. change (T cu ul x ur) with (nd Left cu x ul ur) in H. apply held_read in H.
    eexists. split; [exact H|]. by rewrite parent_mk.
Qed.

Lemma wp_sibling_red d cp p u w a b c s Q :
  held c (nd d cp p u (nd d Red w a b)) s -> (u = E -> tpar u p.1 s0) ->
  (forall s', held c (nd d Black w (nd d Red p u a) b) s' -> Q (ptr_of sentinel a) s') ->
  wp (delete_sibling sentinel d (ptr_of sentinel u)) s Q.
Proof.
  intros H HE HQ. cells_of H. destruct (held_tpar _ _ _ _ _ _ _ H HE) as (n0 & Hn0 & Hp0).
  unfold delete_sibling. do 2 wp_step. rewrite Hp0. do 2 wp_step. apply wp_bind.
  pose proof (proj1 (held_far _ _ _ _ _ _ _ _) H) as Hw.
  rewrite <- (ptr_nd sentinel d Red w a b). eapply held_is_red; [exact Hw|]. rewrite redb_nd, ptr_nd. simpl.
  apply wp_bind. eapply (held_recolour _ Black); [exact Hw|]. intros s1 H1%held_far.
  destruct (held_tpar _ _ _ _ _ _ _ H1 HE) as (n1 & Hn1 & Hp1). do 2 wp_step. rewrite Hp1. apply wp_bind.
  eapply (held_recolour _ Red); [exact H1|]. intros s2 H2.
  destruct (held_tpar _ _ _ _ _ _ _ H2 HE) as (n2 & Hn2 & Hp2). do 2 wp_step. rewrite Hp2. apply wp_bind.
  eapply held_rotate; [exact H2|]. intros s3 H3. cells_of H3. apply held_near in H3 as H3'.
  destruct (held_tpar _ _ _ _ _ _ _ H3' HE) as (n3 & Hn3 & Hp3). do 2 wp_step. rewrite Hp3. wp_step. by apply HQ.
Qed.

Lemma wp_sibling_black d cp p u w c s Q :
  held c (nd d cp p u w) s -> (u = E -> tpar u p.1 s0) -> redb w = false ->
  Q (ptr_of sentinel w) s -> wp (delete_sibling sentinel d (ptr_of sentinel u)) s Q.
Proof.
  intros H HE Hw HQ. cells_of H. destruct (held_tpar _ _ _ _ _ _ _ H HE) as (n0 & Hn0 & Hp0).
  unfold delete_sibling. do 2 wp_step. rewrite Hp0. do 2 wp_step. apply wp_bind.
  apply held_far in H. eapply held_is_red; [exact H|]. rewrite Hw. by wp_step.
Qed.
(** The test of the children of the sibling. *)
Lemma wp_both d cw w a b c s (K : bool -> M A Z) Q :
  held c (nd d cw w a b) s -> wp (K (negb (redb a) && negb (redb b))) s Q ->
  wp (l ← rd w.1 left; black ← ngx_rbt_is_black l;
      both ← (if black : bool then r ← rd w.1 right; ngx_rbt_is_black r else mret false); K both) s Q.
Proof.
  intros H HQ. pose proof (proj1 (held_near _ _ _ _ _ _ _ _) H) as Ha.
  pose proof (proj1 (held_far _ _ _ _ _ _ _ _) H) as Hb. apply held_read in H.
  destruct d; do 2 wp_step; simpl; apply wp_bind.
  - eapply held_is_black; [exact Ha|]. destruct (redb a); simpl in *; [by do 2 wp_step|].
    apply wp_bind. do 2 wp_step. eapply held_is_black; [exact Hb|]. done.
  - eapply held_is_black; [exact Hb|]. destruct (redb b); simpl in *; rewrite ?andb_false_r, ?andb_true_r in HQ; [by do 2 wp_step|].
    apply wp_bind. do 2 wp_step. eapply held_is_black; [exact Ha|]. done.
Qed.

(** Both children of the sibling are black: it becomes red. *)
Lemma wp_rest_recolour d cp p u w a b c s Q :
  held c (nd d cp p u (nd d Black w a b)) s -> (u = E -> tpar u p.1 s0) -> redb a = false -> redb b = false ->
  (forall s', held c (nd d cp p u (nd d Red w a b)) s' -> Q p.1 s') ->
  wp (delete_rest sentinel d (ptr_of sentinel u) w.1) s Q.
Proof.
  intros H HE Ra Rb HQ. unfold delete_rest. apply held_far in H. eapply wp_both; [exact H|].
  rewrite Ra, Rb. simpl. apply wp_bind. eapply (held_recolour _ Red); [exact H|]. intros s1 H1%held_far.
  destruct (held_tpar _ _ _ _ _ _ _ H1 HE) as (n1 & Hn1 & Hp1). wp_step. rewrite Hp1. by apply HQ.
Qed.

(** The end of [delete_rest], with a red far child [v]. *)
Lemma wp_rest_rotate d cp p u w a v e1 e2 c s Q :
  held c (nd d cp p u (nd d Black w a (nd d Red v e1 e2))) s -> (u = E -> tpar u p.1 s0) ->
  (forall s', held c (nd d cp w (nd d Black p u a) (nd d Black v e1 e2)) s' -> Q (root s') s') ->
  wp (p ← rd (ptr_of sentinel u) parent; ngx_rbt_copy_color w.1 p;;
      p ← rd (ptr_of sentinel u) parent; ngx_rbt_black p;;
      q ← rd w.1 (child (opp d)); ngx_rbt_black q;;
      p ← rd (ptr_of sentinel u) parent; rotate sentinel d p;;
      get_root) s Q.
Proof.
  intros H HE HQ. cells_of H. destruct (held_tpar _ _ _ _ _ _ _ H HE) as (n0 & Hn0 & Hp0).
  do 2 wp_step. rewrite Hp0. unfold ngx_rbt_copy_color. do 3 wp_step.
  eapply (held_recolour _ cp); [exact (proj1 (held_far _ _ _ _ _ _ _ _) H)|]. intros s1 H1%held_far.
  destruct (held_tpar _ _ _ _ _ _ _ H1 HE) as (n1 & Hn1 & Hp1). do 2 wp_step. rewrite Hp1. apply wp_bind.
  eapply (held_recolour _ Black); [exact H1|]. intros s2 H2. cells_of H2. do 2 wp_step. apply wp_bind.
  eapply (held_recolour _ Black); [exact (proj1 (held_far _ _ _ _ _ _ _ _) (proj1 (held_far _ _ _ _ _ _ _ _) H2))|]. intros s3 H3%held_far%held_far.
  destruct (held_tpar _ _ _ _ _ _ _ H3 HE) as (n3 & Hn3 & Hp3). do 2 wp_step. rewrite Hp3. apply wp_bind.
  eapply held_rotate; [exact H3|]. intros s4 H4. wp_step. by apply HQ.
Qed.

Lemma wp_rest_far d cp p u w a v e1 e2 c s Q :
  held c (nd d cp p u (nd d Black w a (nd d Red v e1 e2))) s -> (u = E -> tpar u p.1 s0) ->
  (forall s', held c (nd d cp w (nd d Black p u a) (nd d Black v e1 e2)) s' -> Q (root s') s') ->
  wp (delete_rest sentinel d (ptr_of sentinel u) w.1) s Q.
Proof.
  intros H HE HQ. cells_of H. unfold delete_rest. pose proof (proj1 (held_far _ _ _ _ _ _ _ _) H) as Hw. eapply wp_both; [exact Hw|].
  rewrite redb_nd, andb_false_r. apply wp_bind. unfold delete_far. do 2 wp_step. apply wp_bind.
  rewrite <- (ptr_nd sentinel d Red v e1 e2). pose proof (proj1 (held_far _ _ _ _ _ _ _ _) Hw) as Hv. eapply held_is_black; [exact Hv|].
  rewrite redb_nd. simpl. wp_step. by eapply wp_rest_rotate.
Qed.

Lemma wp_rest_near d cp p u w v e1 e2 b c s Q :
  held c (nd d cp p u (nd d Black w (nd d Red v e1 e2) b)) s -> (u = E -> tpar u p.1 s0) -> redb b = false ->
  (forall s', held c (nd d cp v (nd d Black p u e1) (nd d Black w e2 b)) s' -> Q (root s') s') ->
  wp (delete_rest sentinel d (ptr_of sentinel u) w.1) s Q.
Proof.
  intros H HE Rb HQ. cells_of H. unfold delete_rest. pose proof (proj1 (held_far _ _ _ _ _ _ _ _) H) as Hw. eapply wp_both; [exact Hw|].
  rewrite redb_nd. simpl. apply wp_bind. unfold delete_far. do 2 wp_step. apply wp_bind.
  eapply held_is_black; [exact (proj1 (held_far _ _ _ _ _ _ _ _) Hw)|]. rewrite Rb. simpl. do 2 wp_step. apply wp_bind.
  eapply (held_recolour _ Black); [exact (proj1 (held_near _ _ _ _ _ _ _ _) Hw)|]. intros s1 H1%held_near. apply wp_bind.
  eapply (held_recolour _ Red); [exact H1|]. intros s2 H2. apply wp_bind.
  eapply held_rotate_opp; [exact H2|]. intros s3 H3%held_far. cells_of H3.
  destruct (held_tpar _ _ _ _ _ _ _ H3 HE) as (n3 & Hn3 & Hp3). do 2 wp_step. rewrite Hp3. wp_step.
  by eapply wp_rest_rotate.
Qed.
Lemma wp_blacken c t s Q :
  held c t s -> (forall s', held c (blacken t) s' -> Q tt s') -> wp (ngx_rbt_black (ptr_of sentinel t)) s Q.
Proof.
  intros H HQ. unfold ngx_rbt_black. destruct t as [|cc l x r].
  - destruct (held_sentinel _ _ _ _ H) as (n & Hn & Hc). simpl. eapply wp_upd; [exact Hn|].
    replace (set_color 0 n) with n by (destruct n; simpl in *; by subst). rewrite insert_id by done.
    destruct s. by apply HQ.
  - change (T cc l x r) with (nd Left cc x l r) in H. eapply (held_recolour _ Black); [exact H|]. exact HQ.
Qed.

(** A subtree that is one black node short for its place, or red where blackening it
    makes up for that. *)
Definition short (n : nat) u : Prop := if redb u then rbt (S n) (blacken u) else rbt n u.

Lemma held_plug c t s : held c t s -> held [] (plug c t) s.
Proof. intros (Ha & HL). split; [exact (proj1 (at_plug _ _ _ _ _) Ha)|exact HL]. Qed.

(** The loop ends at the root. *)
Lemma wp_fix_root fuel W m s Q :
  held [] W s -> rbt m W -> redb W = false ->
  (forall s' W m, held [] W s' -> rbt m W -> redb W = false -> Q tt s') ->
  wp (delete_fix sentinel (S fuel) (root s)) s Q.
Proof.
  intros H Hm Hr HQ. pose proof (held_root _ _ _ _ H) as Hroot. simpl in Hroot. simpl. do 2 wp_step.
  rewrite Z.eqb_refl. do 2 wp_step. rewrite Hroot. eapply wp_blacken; [exact H|]. intros s' H'.
  eapply HQ; [exact H'| |apply blacken_blk]. destruct W as [|[] ? ? ?]; done.
Qed.

Lemma wp_fix_done fuel n c t s Q :
  held c t s -> rbt n t -> rbc n c -> redb t = false \/ top_black c -> (c = [] -> redb t = false) ->
  (forall s' W m, held [] W s' -> rbt m W -> redb W = false -> Q tt s') ->
  wp (delete_fix sentinel (S fuel) (root s)) s Q.
Proof.
  intros H Ht Hc Hb Hn HQ. destruct (rbt_plug n c t) as [m Hm]; [done|done|naive_solver congruence|].
  eapply wp_fix_root; [exact (held_plug _ _ _ H)|exact Hm| |done].
  destruct c as [|f c]; [by apply Hn|]. by apply (blk_plug n).
Qed.

(** One turn for a black sibling; [k] is the colour of the parent. *)
Lemma wp_rest d k p u w n c s (Q : Z -> rb A -> Prop) :
  held c (nd d k p u w) s -> (u = E -> tpar u p.1 s0) -> rbt n u -> redb u = false ->
  rbt (S n) w -> redb w = false ->
  (forall s' t, held c t s' -> short (if decide (k = Red) then n else S n) t -> redb t = bool_decide (k = Red) -> t <> E ->
     Q (ptr_of sentinel t) s') ->
  (forall s' t, held c t s' -> redb t = bool_decide (k = Red) ->
     rbt (if decide (k = Red) then S n else S (S n)) t -> Q (root s') s') ->
  wp (delete_rest sentinel d (ptr_of sentinel u) (ptr_of sentinel w)) s Q.
Proof.
  intros H HE Hu Ru Hw Rw HQ1 HQ2. destruct w as [|kw a0 w b0]; [inversion Hw|]. destruct kw; [done|]. simpl ptr_of.
  destruct (nd_any Left d Black w a0 b0) as (a & b & Ew). simpl in Ew. rewrite Ew in H, Hw.
  apply rbt_black in Hw as (m & Hm & Ha & Hb). injection Hm as <-.
  destruct (redb b) eqn:Rb; [|destruct (redb a) eqn:Ra].
  - destruct b as [|[] b1 v b2]; try done. destruct (nd_any Left d Red v b1 b2) as (e1 & e2 & Ev). simpl in Ev.
    rewrite Ev in H, Hb. apply rbt_red in Hb as (He1 & He2 & _ & _).
    eapply wp_rest_far; [exact H|done|]. intros s' H'. eapply HQ2; [exact H'|apply redb_nd|].
    destruct k; simpl; [apply rbt_red; rewrite !redb_nd; split_and!; try done|apply rbt_black; exists (S n); split_and!; try done];
      apply rbt_black; eauto.
  - destruct a as [|[] a1 v a2]; try done. destruct (nd_any Left d Red v a1 a2) as (e1 & e2 & Ev). simpl in Ev.
    rewrite Ev in H, Ha. apply rbt_red in Ha as (He1 & He2 & _ & _).
    eapply wp_rest_near; [exact H|done|done|]. intros s' H'. eapply HQ2; [exact H'|apply redb_nd|].
    destruct k; simpl; [apply rbt_red; rewrite !redb_nd; split_and!; try done|apply rbt_black; exists (S n); split_and!; try done];
      apply rbt_black; eauto.
  - eapply wp_rest_recolour; [exact H|done|done|done|]. intros s' H'. rewrite <- (ptr_nd sentinel d k p u (nd d Red w a b)).
    apply HQ1; [done| |apply redb_nd|apply nd_E]. unfold short. rewrite redb_nd, blacken_nd. destruct k; simpl;
      apply rbt_black; exists n; split_and!; try done; by apply rbt_red.
Qed.
Lemma wp_delete_fix fuel n c u s Q :
  held c u s -> short n u -> rbc (S n) c -> (forall f c', c = f :: c' -> u = E -> tpar u (f_elt f).1 s0) ->
  (length c + (if redb u then 0 else 1) < fuel)%nat ->
  (forall s' W m, held [] W s' -> rbt m W -> redb W = false -> Q tt s') ->
  wp (delete_fix sentinel fuel (ptr_of sentinel u)) s Q.
Proof.
  intros H Hu Hc HE Hf HQ. revert n c u s H Hu Hc HE Hf.
  induction fuel as [|fuel IH]; intros n c u s H Hu Hc HE Hf; [lia|].
  assert (Hend : forall m, rbt m (blacken u) -> rbc m c -> wp (ngx_rbt_black (ptr_of sentinel u)) s Q).
  { intros m Hm Hcm. eapply wp_blacken; [exact H|]. intros s' H'.
    destruct (rbt_plug m c (blacken u)) as [k Hk]; [done|done|by rewrite blacken_blk|].
    eapply HQ; [exact (held_plug _ _ _ H')|exact Hk|]. destruct c as [|f c]; [apply blacken_blk|by apply (blk_plug m)]. }
  simpl delete_fix. do 2 wp_step. destruct c as [|f c].
  { pose proof (held_root _ _ _ _ H) as Hr. simpl in Hr. rewrite Hr, Z.eqb_refl. do 2 wp_step.
    unfold short in Hu. destruct (redb u); [by apply (Hend (S n))|]. destruct (blacken_rbt _ _ Hu) as [m Hm]. by apply (Hend m). }
  pose proof (held_not_root _ _ _ _ _ H) as Hr. destruct (Z.eqb_spec (ptr_of sentinel u) (root s)); [done|].
  apply wp_bind. eapply held_is_black; [exact H|]. unfold short in Hu. destruct (redb u) eqn:Ru; simpl; [by apply (Hend (S n))|].
  destruct f as [d k p w]. destruct Hc as [Hw Hc]. simpl in Hw, Hc. specialize (HE _ _ eq_refl). simpl in HE.
  apply held_up in H. unfold plug1 in H. cbn [f_side f_col f_elt f_sib] in H.
  destruct (held_tpar _ _ _ _ _ _ _ H HE) as (m0 & Hn0 & Hp0). cells_of H. do 2 wp_step. rewrite Hp0. do 2 wp_step.
  assert (HwE : w <> E) by (intros ->; inversion Hw).
  rewrite side_test.
  2:{ pose proof (held_ne sentinel (s0 := s0) (L := L) (p0 := p0) c (opp d) k p w u s) as Hne. rewrite nd_opp in Hne.
      destruct (Hne H) as (_ & _ & _ & Hne'). intros He. by apply Hne'. }
  apply wp_bind. unfold delete_half. apply wp_bind. simpl in Hf. rewrite Nat.add_1_r in Hf.
  destruct (redb w) eqn:Rw.
  - destruct w as [|[] a0 w b0]; try done. destruct k; [naive_solver|].
    destruct (nd_any Left d Red w a0 b0) as (a & b & Ew). simpl in Ew. rewrite Ew in H, Hw.
    apply rbt_red in Hw as (Ha & Hb & Ra & Rb). eapply wp_sibling_red; [exact H|done|]. intros s1 H1%held_near.
    assert (Hc1 : rbc (S n) (mkFrame d Black w b :: c)) by done.
    eapply wp_rest; [exact H1|done|done|done|done|done| |]; simpl.
    + intros s2 t H2 Ht Rt HtE. apply (IH n (mkFrame d Black w b :: c)); [done|done|done|done|]. rewrite Rt. simpl. lia.
    + intros s2 t H2 Rt Ht. destruct fuel; [lia|]. by eapply wp_fix_done; [exact H2|exact Ht|done|by right|..].
  - eapply wp_sibling_black; [exact H|done|done|]. eapply wp_rest; [exact H|done|done|done|done|done| |].
    + intros s2 t H2 Ht Rt HtE.
      apply (IH (if decide (k = Red) then n else S n) c); [done|done| |done|].
      * destruct k; simpl; [by destruct Hc as (_ & _ & Hc)|done].
      * rewrite Rt. destruct k; simpl; lia.
    + intros s2 t H2 Rt Ht. destruct fuel; [lia|].
      eapply wp_fix_done; [exact H2|exact Ht| | | |done].
      * destruct k; simpl; [by destruct Hc as (_ & _ & Hc)|done].
      * destruct k; simpl in *; [right; naive_solver|by left].
      * intros ->. destruct k; simpl in *; [naive_solver|done].
Qed.
End Balance.

(** ** Taking the node out *)

Lemma plug_app cs c t : plug (cs ++ c) t = plug c (plug cs t).
Proof. revert t. induction cs as [|f cs IH]; intros t; simpl; [done|]. apply IH. Qed.

Lemma ptrs_c_app cs c : ptrs_c (cs ++ c) = ptrs_c cs ++ ptrs_c c.
Proof. induction cs as [|f cs IH]; simpl; [done|]. by rewrite IH, <- (assoc (++)). Qed.

Lemma rep_split p0 cs c t s :
  RepC sentinel s p0 (cs ++ c) (ptr_of sentinel t) /\ Rep sentinel s (par_of p0 (cs ++ c)) t <->
  RepC sentinel s p0 c (ptr_of sentinel (plug cs t)) /\ Rep sentinel s (par_of p0 c) (plug cs t).
Proof.
  revert t. induction cs as [|f cs IH]; intros t; simpl; [done|]. rewrite <- IH. unfold plug1.
  rewrite ptr_nd, rep_nd. naive_solver.
Qed.

(** The minimum of a subtree. *)
Lemma wp_min_loop fuel t par s :
  Rep sentinel s par t -> t <> E -> sentinel ∉ ptrs t -> (height t <= fuel)%nat ->
  exists cs cm m mr, t = plug cs (T cm E m mr) /\ Forall (fun f => f_side f = Left) cs
    /\ forall Q : Z -> rb A -> Prop, Q m.1 s -> wp (min_loop sentinel fuel (ptr_of sentinel t)) s Q.
Proof.
  revert fuel par. induction t as [|cc l IHl x r _]; intros fuel par; [done|].
  intros (Hx & Hl & Hr) _ Hs Hf. simpl in Hf. destruct fuel as [|fuel]; [lia|].
  unfold ptrs in Hs. simpl in Hs. rewrite fmap_app, fmap_cons in Hs.
  destruct l as [|cl ll y lr].
  - exists [], cc, x, r. split_and!; [done|done|]. intros Q HQ. simpl. do 2 wp_step. simpl. rewrite Z.eqb_refl. by wp_step.
  - destruct (IHl fuel x.1) as (cs & cm & m & mr & Et & HF & HQ); [done|done|set_solver|simpl in *; lia|].
    exists (cs ++ [mkFrame Left cc x r]), cm, m, mr. rewrite plug_app, <- Et. split_and!; [done|by apply Forall_app; auto|].
    intros Q Hm. simpl min_loop. do 2 wp_step. simpl left.
    destruct (Z.eqb_spec y.1 sentinel) as [He|_]; [|by apply HQ].
    exfalso. apply Hs, elem_of_app. left. rewrite <- He at 1. apply (ptr_in_T sentinel cl ll y lr).
Qed.

(** Giving a subtree a parent, the sentinel included. *)
Lemma wp_set_parent q u par s :
  Rep sentinel s par u -> sentinel_ok sentinel s -> NoDup (sentinel :: ptrs u) ->
  wp (upd (ptr_of sentinel u) (set_parent q)) s (fun _ s' =>
    Rep sentinel s' q u /\ sentinel_ok sentinel s' /\ tpar u q s' /\ root s' = root s
    /\ outside (sentinel :: ptrs u) s s').
Proof.
  intros Hu (n & Hn & Hc) Hnd. destruct u as [|cc l x r].
  - simpl. wp_step. split_and!; [done| | |done|].
    + eexists. simpl. rewrite lookup_insert_eq. by split.
    + eexists. simpl. rewrite lookup_insert_eq. by split.
    + intros z Hz. simpl. apply lookup_insert_ne. set_solver.
  - pose proof (wp_adopt sentinel q (T cc l x r) par s Hu Hnd) as Hw.
    apply NoDup_cons in Hnd as [Hs _]. pose proof (ptr_in_T sentinel cc l x r) as Hin. simpl ptr_of in *.
    destruct (Z.eqb_spec x.1 sentinel) as [He|_]; [by rewrite He in Hin|].
    eapply wp_mono; [exact Hw|]. intros _ s' (Hr & Hroot & Ho). split_and!; [done| | |done|].
    + exists n. split; [|done]. by rewrite Ho.
    + destruct Hr as [Hx _]. eexists. split; [exact Hx|done].
    + intros z Hz. apply Ho. set_solver.
Qed.

(** What is left of a node. *)
Definition cleared x (cc : colour) : node A := mkNode A 0 NULL NULL NULL (col cc) x.2.2.

Lemma wp_delete_clear x n cc s (Q : unit -> rb A -> Prop) :
  cells s !! x.1 = Some n -> color n = col cc -> data n = x.2.2 ->
  Q tt (mkRb A (<[x.1 := cleared x cc]> (cells s)) (root s)) -> wp (delete_clear x.1) s Q.
Proof.
  intros Hx Hc Hd HQ. unfold delete_clear. do 7 wp_step. cbn [cells root]. rewrite !insert_insert_eq.
  unfold cleared in HQ. rewrite <- Hc, <- Hd in HQ. exact HQ.
Qed.

(** A node with an empty child leaves its place to the other child. *)
Lemma wp_splice_one p0 f c cn x l r u s (K : M A unit) Q :
  At sentinel p0 (f :: c) (T cn l x r) s -> l = E /\ u = r \/ r = E /\ u = l ->
  (forall s', At sentinel p0 (f :: c) u s' -> tpar u (f_elt f).1 s' ->
     outside (sentinel :: x.1 :: ptrs u ++ ptrs_c (f :: c)) s s' -> cells s' !! x.1 = Some (cleared x cn) -> wp K s' Q) ->
  wp (relink Left x.1 (ptr_of sentinel u);; delete_move sentinel x.1 x.1 (ptr_of sentinel u);; delete_clear x.1;; K) s Q.
Proof.
  intros (Hc & (Hx & Hl & Hr) & Hsn & Hnd) Hu HQ.
  assert (Hp : sentinel :: ptrs_c (f :: c) ++ ptrs (T cn l x r) ≡ₚ x.1 :: (sentinel :: ptrs u) ++ ptrs_c (f :: c)).
  { unfold ptrs. destruct Hu as [[-> ->]|[-> ->]]; simpl; rewrite ?fmap_app; simpl; solve_Permutation. }
  assert (Hru : Rep sentinel s x.1 u) by (by destruct Hu as [[_ ->]|[_ ->]]).
  rewrite Hp in Hnd. clear Hp Hu. apply NoDup_cons in Hnd as [Hxn Hnd]. apply NoDup_app in Hnd as (Hndu & Hun & Hndc).
  pose proof (proj1 (proj1 (NoDup_cons _ _) Hndu)) as Hsu. simpl ptr_of in Hc.
  apply wp_bind. eapply wp_mono; [eapply (wp_relink sentinel Left f c x.1 (ptr_of sentinel u) p0); [done|exact Hx| | |done]|].
  { done. }
  { apart. }
  intros _ s1 (Hc1 & Hr1 & Ho1).
  assert (Hx1 : cells s1 !! x.1 = cells s !! x.1) by (apply Ho1; apart). rewrite Hx in Hx1.
  apply wp_bind. unfold delete_move. rewrite Z.eqb_refl. do 2 wp_step.
  eapply wp_mono; [eapply (wp_set_parent _ u x.1); [| |done]|].
  { eapply rep_agree; [|exact Hru]. intros z Hz. apply Ho1. apart. }
  { destruct Hsn as (n & Hn & Hc0). exists n. split; [|done]. rewrite Ho1; [done|apart]. }
  intros _ s2 (Hu2 & Hs2 & Ht2 & Hr2 & Ho2). apply wp_bind.
  eapply wp_delete_clear; [rewrite Ho2; [exact Hx1|apart]|done|done|].
  assert (Hz : forall z, z <> x.1 -> <[x.1 := cleared x cn]> (cells s2) !! z = cells s2 !! z)
    by (intros; by rewrite lookup_insert_ne).
  apply HQ.
  - split_and!.
    + eapply repc_agree; [..|exact Hc1]; [simpl; congruence|]. intros z Hz'. simpl. rewrite Hz by apart. apply Ho2. apart.
    + eapply rep_agree; [|exact Hu2]. intros z Hz'. simpl. apply Hz. apart.
    + destruct Hs2 as (n & Hn & Hc0). exists n. split; [|done]. simpl. rewrite Hz; [done|apart].
    + eapply NoDup_Permutation_proper; [|apply NoDup_app; split_and!; [exact Hndu|exact Hun|exact Hndc]].
      solve_Permutation.
  - destruct Ht2 as (n & Hn & Hpn). exists n. split; [|done]. simpl. rewrite Hz; [done|].
    intros He. destruct (ptr_in sentinel u) as [Hs|Hs]; rewrite He in Hs; [rewrite Hs in Hxn|]; apart.
  - intros z Hz'. simpl. rewrite Hz by apart. rewrite Ho2, Ho1; [done|apart|apart].
  - simpl. by rewrite lookup_insert_eq.
Qed.
(** The node [m] takes the place of [x]. *)
Lemma wp_take_place p0 c cn x l m ql qr pm cm pr r s :
  cells s !! x.1 = Some (mk Left x (ptr_of sentinel l) (ptr_of sentinel r) (par_of p0 c) cn) ->
  cells s !! m.1 = Some (mk Left m ql qr pm cm) ->
  Rep sentinel s x.1 l -> Rep sentinel s pr r -> RepC sentinel s p0 c x.1 ->
  NoDup (x.1 :: m.1 :: sentinel :: ptrs l ++ ptrs r ++ ptrs_c c) ->
  wp (take_place sentinel x.1 m.1) s (fun _ s' =>
    RepC sentinel s' p0 c m.1 /\ Rep sentinel s' (par_of p0 c) (T cn l m r)
    /\ outside (m.1 :: ptrs l ++ ptrs r ++ ptrs_c c) s s').
Proof.
  intros Hx Hm Hl Hr Hc Hnd. apply NoDup_cons in Hnd as [Hxn Hnd]. apply NoDup_cons in Hnd as [Hmn Hnd].
  apply NoDup_cons in Hnd as [Hsn Hnd]. apply NoDup_app in Hnd as (Hnl & Hln & Hnd).
  apply NoDup_app in Hnd as (Hnr & Hrn & Hnc).
  assert (Hxm : x.1 <> m.1) by apart.
  unfold take_place, ngx_rbt_copy_color. do 4 wp_step. do 4 wp_step. do 4 wp_step. apply wp_bind. do 5 wp_step. cbn [cells root].
  rewrite !insert_insert_eq. set (s1 := mkRb A _ (root s)). apply wp_bind.
  assert (Hm1 : cells s1 !! m.1 = Some (mk Left m (ptr_of sentinel l) (ptr_of sentinel r) (par_of p0 c) cn))
    by (simpl; by rewrite lookup_insert_eq).
  assert (Hz1 : outside [m.1] s s1) by (intros z Hz; simpl; apply lookup_insert_ne; set_solver).
  change (root s) with (root s1). assert (Hr1 : root s1 = root s) by done. clearbody s1.
  eapply wp_mono; [eapply (wp_replace sentinel Left c x.1 m.1 p0); [| | | |exact Hnc]|].
  { eapply repc_agree; [..|exact Hc]; [done|]. intros z Hz. apply Hz1. apart. }
  { rewrite Hz1; [exact Hx|apart]. }
  { done. }
  { apart. }
  intros _ s2 (Hc2 & Ho2).
  assert (Hm2 : cells s2 !! m.1 = cells s1 !! m.1) by (apply Ho2; apart). rewrite Hm1 in Hm2.
  do 2 wp_step. simpl left. apply wp_bind.
  eapply wp_mono; [eapply (wp_adopt_neg sentinel m.1 l x.1)|].
  { eapply rep_agree; [|exact Hl]. intros z Hz. rewrite Ho2, Hz1; [done|apart|apart]. }
  { apply NoDup_cons. split; [apart|done]. }
  intros _ s3 (Hl3 & Hr3 & Ho3).
  assert (Hm3 : cells s3 !! m.1 = cells s2 !! m.1) by (apply Ho3; apart). rewrite Hm2 in Hm3.
  do 2 wp_step. simpl right.
  eapply wp_mono; [eapply (wp_adopt_neg sentinel m.1 r pr)|].
  { eapply rep_agree; [|exact Hr]. intros z Hz. rewrite Ho3, Ho2, Hz1; [done|apart..]. }
  { apply NoDup_cons. split; [apart|done]. }
  intros _ s4 (Hr4 & Hrt4 & Ho4).
  split_and!.
  - eapply repc_agree; [..|exact Hc2]; [congruence|]. intros z Hz. rewrite Ho4, Ho3; [done|apart|apart].
  - split; [rewrite Ho4 by apart; exact Hm3|]. split; [|exact Hr4].
    eapply rep_agree; [|exact Hl3]. intros z Hz. apply Ho4. apart.
  - intros z Hz. rewrite Ho4, Ho3, Ho2, Hz1; [done|apart..].
Qed.
(** A node with two children leaves its place to its successor [m], and that its place to
    its right child. *)
Lemma wp_splice_two p0 c cn cm x l cs m mr s (K : M A unit) Q :
  At sentinel p0 (cs ++ mkFrame Right cn x l :: c) (T cm E m mr) s ->
  (forall s', At sentinel p0 (cs ++ mkFrame Right cn m l :: c) mr s' ->
     tpar mr (par_of p0 (cs ++ mkFrame Right cn m l :: c)) s' ->
     outside (sentinel :: x.1 :: m.1 :: ptrs l ++ ptrs_c cs ++ ptrs mr ++ ptrs_c c) s s' ->
     cells s' !! x.1 = Some (cleared x cn) -> wp K s' Q) ->
  wp (relink Left m.1 (ptr_of sentinel mr);; delete_move sentinel x.1 m.1 (ptr_of sentinel mr);; delete_clear x.1;; K) s Q.
Proof.
  set (C := cs ++ mkFrame Right cn x l :: c). intros (Hc & (Hm & _ & Hmr) & Hsn & Hnd) HQ.
  assert (Hp : sentinel :: ptrs_c C ++ ptrs (T cm E m mr)
    ≡ₚ x.1 :: m.1 :: sentinel :: ptrs l ++ (ptrs_c cs ++ ptrs mr) ++ ptrs_c c).
  { unfold C. rewrite ptrs_c_app. simpl. unfold ptrs at 2. simpl. solve_Permutation. }
  assert (HndC : NoDup (ptrs_c C)) by (by apply NoDup_cons in Hnd as [_ Hnd]; apply NoDup_app in Hnd as (? & _)).
  rewrite Hp in Hnd. clear Hp. pose proof Hnd as Hnd0.
  apply NoDup_cons in Hnd as [Hxn Hnd]. apply NoDup_cons in Hnd as [Hmn Hnd]. apply NoDup_cons in Hnd as [Hsni Hnd].
  apply NoDup_app in Hnd as (Hnl & Hln & Hnd). apply NoDup_app in Hnd as (Hnr & Hrn & Hnc).
  apply NoDup_app in Hnr as (Hncs & Hcsn & Hnmr).
  assert (HC : forall z, z ∈ ptrs_c C <-> z = x.1 \/ z ∈ ptrs l \/ z ∈ ptrs_c cs \/ z ∈ ptrs_c c).
  { intros z. unfold C. rewrite ptrs_c_app, elem_of_app. simpl. rewrite elem_of_cons, elem_of_app. tauto. }
  assert (Hxm : x.1 <> m.1) by apart.
  assert (exists f0 c0, C = f0 :: c0) as (f0 & c0 & E0) by (unfold C; destruct cs; eauto).
  apply wp_bind. eapply wp_mono; [eapply (wp_relink sentinel Left f0 c0 m.1 (ptr_of sentinel mr) p0)|].
  { rewrite <- E0. exact Hc. }
  { exact Hm. }
  { by rewrite E0. }
  { rewrite <- E0, elem_of_cons, HC. apart. }
  { by rewrite <- E0. }
  intros _ s1 (Hc1 & Hr1 & Ho1). rewrite <- E0 in Hc1, Ho1. clear f0 c0 E0.
  assert (Hm1 : cells s1 !! m.1 = cells s !! m.1) by (apply Ho1; rewrite HC; apart). rewrite Hm in Hm1.
  assert (Hmr1 : Rep sentinel s1 m.1 mr).
  { eapply rep_agree; [|exact Hmr]. intros z Hz. apply Ho1. rewrite HC. apart. }
  assert (Hs1 : sentinel_ok sentinel s1).
  { destruct Hsn as (n & Hn & Hc0). exists n. split; [|done]. rewrite Ho1; [done|]. rewrite HC. apart. }
  apply wp_bind. unfold delete_move. destruct (Z.eqb_spec m.1 x.1); [congruence|]. do 2 wp_step. apply wp_bind.
  set (q := par_of p0 (cs ++ mkFrame Right cn m l :: c)) in *.
  assert (Hw : wp (if par_of p0 C =? x.1
      then upd (ptr_of sentinel mr) (set_parent m.1)
      else p ← rd m.1 parent; upd (ptr_of sentinel mr) (set_parent p)) s1 (fun _ s2 =>
    Rep sentinel s2 q mr /\ sentinel_ok sentinel s2 /\ tpar mr q s2 /\ root s2 = root s1 /\ outside (sentinel :: ptrs mr) s1 s2)).
  { assert (Hnd' : NoDup (sentinel :: ptrs mr)) by (apply NoDup_cons; split; [apart|done]).
    destruct cs as [|g cs]; simpl.
    - rewrite Z.eqb_refl. by eapply wp_set_parent.
    - simpl in Hxn. destruct (Z.eqb_spec (f_elt g).1 x.1) as [He|_]; [rewrite <- He in Hxn; apart|]. do 2 wp_step. by eapply wp_set_parent. }
  eapply wp_mono; [exact Hw|]. clear Hw.
  intros _ s2 (Hmr2 & Hs2 & Ht2 & Hr2 & Ho2).
  assert (HR : RepC sentinel s2 p0 (mkFrame Right cn x l :: c) (ptr_of sentinel (plug cs mr)) /\
    exists pr, Rep sentinel s2 pr (plug cs mr)).
  { assert (Hc2 : RepC sentinel s2 p0 C (ptr_of sentinel mr)).
    { eapply repc_agree; [..|exact Hc1]; [done|]. intros z Hz. apply Ho2. rewrite HC in Hz. apart. }
    destruct cs as [|g cs]; [by eauto|].
    destruct (proj1 (rep_split p0 (g :: cs) (mkFrame Right cn x l :: c) mr s2) (conj Hc2 Hmr2)); eauto. }
  destruct HR as ((Hx2 & Hl2 & Hc2) & pr & HR2). cbn [f_side f_col f_elt f_sib] in Hx2, Hl2, Hc2.
  assert (HRp : ptrs (plug cs mr) ≡ₚ ptrs_c cs ++ ptrs mr) by apply ptrs_plug.
  eapply wp_mono; [eapply (wp_take_place p0 c cn x l m); [exact Hx2| |exact Hl2|exact HR2|exact Hc2|]|].
  { rewrite Ho2 by apart. exact Hm1. }
  { by rewrite HRp. }
  intros _ s3 (Hc3 & Ht3 & Ho3).
  assert (Ho3' : outside (m.1 :: ptrs l ++ (ptrs_c cs ++ ptrs mr) ++ ptrs_c c) s2 s3).
  { eapply outside_perm; [|exact Ho3]. by rewrite HRp. }
  clear Ho3. apply wp_bind. eapply wp_delete_clear; [rewrite Ho3' by apart; exact Hx2|done|done|].
  set (s4 := mkRb A _ _). assert (Hz : outside [x.1] s3 s4) by (intros z Hz; simpl; apply lookup_insert_ne; set_solver).
  assert (Hx4 : cells s4 !! x.1 = Some (cleared x cn)) by (simpl; by rewrite lookup_insert_eq).
  assert (Hr4 : root s4 = root s3) by done. clearbody s4.
  assert (Ha4 : RepC sentinel s4 p0 (cs ++ mkFrame Right cn m l :: c) (ptr_of sentinel mr)
    /\ Rep sentinel s4 (par_of p0 (cs ++ mkFrame Right cn m l :: c)) mr).
  { apply rep_split. destruct Ht3 as (Hm3 & Hl3 & HR3). split; [split_and!|].
    - simpl. rewrite Hz by apart. exact Hm3.
    - eapply rep_agree; [|exact Hl3]. intros z Hz'. apply Hz. apart.
    - eapply repc_agree; [..|exact Hc3]; [done|]. intros z Hz'. apply Hz. apart.
    - eapply rep_agree; [|exact HR3]. intros z Hz'. apply Hz. rewrite HRp in Hz'. apart. }
  assert (Hs4 : cells s4 !! sentinel = cells s2 !! sentinel) by (rewrite Hz, Ho3'; [done|apart|apart]).
  destruct Ha4 as [Hc4 Hmr4]. apply HQ; [split_and!| | |]; try done.
  - destruct Hs2 as (n' & Hn & Hc0). exists n'. by rewrite Hs4.
  - rewrite ptrs_c_app. eapply (NoDup_Permutation_proper _ (m.1 :: sentinel :: ptrs l ++ (ptrs_c cs ++ ptrs mr) ++ ptrs_c c));
      [simpl; solve_Permutation|]. by apply NoDup_cons in Hnd0 as [_ Hnd0].
  - destruct mr as [|k a y b].
    + destruct Ht2 as (n' & Hn & Hpn). exists n'. simpl in *. by rewrite Hs4.
    + destruct Hmr4 as [Hy _]. eexists. split; [exact Hy|done].
  - intros z Hz'. rewrite Hz by apart. rewrite Ho3' by apart. rewrite Ho2 by apart. apply Ho1. rewrite HC. apart.
Qed.
(** ** The whole of it *)

Lemma wp_delete_choose p0 c cn l x r s (Q : Z * Z -> rb A -> Prop) :
  At sentinel p0 c (T cn l x r) s ->
  (forall u, l = E /\ u = r \/ r = E /\ u = l -> Q (x.1, ptr_of sentinel u) s) ->
  (forall cs cm m mr, r = plug cs (T cm E m mr) -> Forall (fun f => f_side f = Left) cs ->
     Q (m.1, ptr_of sentinel mr) s) ->
  wp (delete_choose sentinel x.1) s Q.
Proof.
  intros Ha HQ1 HQ2. pose proof Ha as (_ & (Hx & Hl & Hr) & _ & Hnd).
  assert (Hs : forall t k a y b, t = T k a y b -> (forall z, z ∈ ptrs t -> z ∈ ptrs (T cn l x r)) -> (y.1 =? sentinel) = false).
  { intros t k a y b -> Hin. apply Z.eqb_neq. intros He. apply NoDup_cons in Hnd as [Hs _]. apply Hs, elem_of_app. right.
    rewrite <- He. apply Hin, (ptr_in_T sentinel k a y b). }
  assert (Hinl : forall z, z ∈ ptrs l -> z ∈ ptrs (T cn l x r)) by (intros z; unfold ptrs; simpl; rewrite fmap_app; set_solver).
  assert (Hinr : forall z, z ∈ ptrs r -> z ∈ ptrs (T cn l x r)) by (intros z; unfold ptrs; simpl; rewrite fmap_app; set_solver).
  unfold delete_choose. do 2 wp_step. simpl left. destruct l as [|kl la ly lb] eqn:El; simpl ptr_of.
  { rewrite Z.eqb_refl. do 3 wp_step. apply (HQ1 r). by left. }
  rewrite (Hs _ _ _ _ _ eq_refl Hinl). do 2 wp_step. simpl right. destruct r as [|kr ra ry rb] eqn:Er; simpl ptr_of.
  { rewrite Z.eqb_refl. do 3 wp_step. simpl left. apply (HQ1 (T kl la ly lb)). by right. }
  rewrite (Hs _ _ _ _ _ eq_refl Hinr). rewrite <- Er in *.
  destruct (wp_min_loop (S (S (size (cells s)))) r x.1 s Hr) as (cs & cm & m & mr & Em & HF & Hmin); [by subst| | |].
  { intros He. apply NoDup_cons in Hnd as [Hs' _]. apply Hs', elem_of_app. right. by apply Hinr. }
  { apply at_plug, at_size in Ha. rewrite inorder_split, !length_app in Ha. pose proof (height_size r).
    simpl in Ha. rewrite length_app in Ha. simpl in Ha. lia. }
  apply wp_bind. unfold ngx_rbtree_min. do 2 wp_step. replace ry.1 with (ptr_of sentinel r) by (by subst r). apply Hmin.
  assert (Hm : exists par, Rep sentinel s par (T cm E m mr)).
  { rewrite Em in Hr. clear - Hr. revert Hr. generalize (T cm E m mr) x.1. induction cs as [|f cs IH]; intros t par Ht; [eauto|].
    simpl in Ht. destruct (IH _ _ Ht) as (p & Hp). apply rep_nd in Hp as (_ & Hp & _). eauto. }
  destruct Hm as (par & Hm & _). do 2 wp_step. simpl left. rewrite Z.eqb_refl. do 3 wp_step. by apply (HQ2 cs cm).
Qed.

(** The end of the deletion, where a node of colour [k] has been taken out above [u]. *)
Lemma wp_finish p0 f c u (k : colour) kn s :
  At sentinel p0 (f :: c) u s -> tpar u (f_elt f).1 s ->
  rbt kn u -> rbc (match k with Red => kn | Black => S kn end) (f :: c) -> (k = Red -> redb u = false) ->
  wp (if bool_decide (k = Red) then mret tt else fuel ← loop_fuel; delete_fix sentinel fuel (ptr_of sentinel u)) s
    (fun _ s' => exists W m, At sentinel p0 [] W s' /\ inorder W = inorder (plug (f :: c) u) /\ rbt m W
       /\ redb W = false /\ outside (ptrs (plug (f :: c) u)) s s').
Proof.
  intros Ha Ht Hu Hc Hk. destruct k; simpl.
  - wp_step. destruct (rbt_plug kn (f :: c) u) as [m Hm]; [done|done|by rewrite Hk|].
    exists (plug (f :: c) u), m. split_and!; [exact (proj1 (at_plug _ _ _ _ _) Ha)|done|done|by apply (blk_plug kn)|done].
  - do 2 wp_step. eapply (wp_delete_fix (s0 := s) (L := inorder (plug (f :: c) u)) (p0 := p0) _ kn (f :: c)).
    + split; [done|]. split; [done|apply outside_refl].
    + unfold short. destruct (redb u) eqn:Ru; [|done]. destruct u as [|[] a y b]; try done. inversion Hu; subst. by constructor.
    + done.
    + intros g c' [= <- <-] _. exact Ht.
    + apply at_plug, at_size in Ha. rewrite inorder_split, !length_app in Ha.
      assert (Hlen : forall c : list (frame A), (length c <= length (lft c) + length (rgt c))%nat).
      { clear. induction c as [|g c IH]; simpl; [lia|]. destruct (f_side g); simpl; rewrite ?length_app; simpl; rewrite ?length_app; lia. }
      specialize (Hlen (f :: c)). destruct (redb u); lia.
    + intros s' W m (HW & HI & Ho) Hm Hr. exists W, m. done.
Qed.
Lemma at_outside p0 c t l s s' :
  At sentinel p0 c t s -> root s' = root s -> outside l s s' ->
  (forall z, z ∈ l -> z ∉ sentinel :: ptrs_c c ++ ptrs t) -> At sentinel p0 c t s'.
Proof.
  intros (Hc & Ht & (n & Hn & Hc0) & Hnd) Hr Ho Hl.
  assert (Hz : forall z, z ∈ sentinel :: ptrs_c c ++ ptrs t -> cells s' !! z = cells s !! z)
    by (intros z Hz; apply Ho; intros Hz'; by apply (Hl z)).
  split_and!; [|..|done].
  - eapply repc_agree; [..|done]; [done|]. intros z Hz'. apply Hz. set_solver.
  - eapply rep_agree; [|done]. intros z Hz'. apply Hz. set_solver.
  - exists n. split; [|done]. rewrite Hz; [done|set_solver].
Qed.

(** The root, with an empty child. *)
Lemma wp_delete_root p0 cn l x r u s :
  At sentinel p0 [] (T cn l x r) s -> l = E /\ u = r \/ r = E /\ u = l ->
  wp (set_root (ptr_of sentinel u);; ngx_rbt_black (ptr_of sentinel u);; delete_clear x.1) s (fun _ s' =>
    At sentinel x.1 [] (blacken u) s' /\ outside (x.1 :: ptrs u) s s' /\ cells s' !! x.1 = Some (cleared x cn)).
Proof.
  intros (_ & (Hx & Hl & Hr) & Hsn & Hnd) Hu.
  assert (Hp : ptrs (T cn l x r) ≡ₚ x.1 :: ptrs u).
  { unfold ptrs. destruct Hu as [[-> ->]|[-> ->]]; simpl; rewrite ?fmap_app; simpl; solve_Permutation. }
  assert (Hru : Rep sentinel s x.1 u) by (by destruct Hu as [[_ ->]|[_ ->]]). simpl in Hnd. rewrite Hp in Hnd. clear Hp Hu.
  apply NoDup_cons in Hnd as [Hs Hnd]. apply NoDup_cons in Hnd as [Hxu Hnd].
  do 2 wp_step. set (s1 := mkRb A (cells s) (ptr_of sentinel u)). apply wp_bind.
  assert (H1 : holding sentinel s1 (inorder u) x.1 [] u s1).
  { split; [|split; [done|apply outside_refl]]. split_and!; [done| |done|apply NoDup_cons; split; [set_solver|done]].
    eapply rep_agree; [|exact Hru]. done. }
  eapply wp_blacken; [exact H1|]. intros s2 (Ha2 & HI & Ho2). change ((inorder u).*1) with (ptrs u) in Ho2.
  eapply wp_delete_clear; [rewrite Ho2 by done; exact Hx|done|done|]. split_and!.
  - eapply (at_outside _ _ _ [x.1]); [exact Ha2|done|intros z Hz; simpl; apply lookup_insert_ne; set_solver|].
    intros z ->%list_elem_of_singleton. unfold ptrs. rewrite blacken_inorder. change ((inorder u).*1) with (ptrs u). set_solver.
  - intros z Hz. simpl. rewrite lookup_insert_ne by set_solver. apply Ho2. set_solver.
  - simpl. by rewrite lookup_insert_eq.
Qed.

Section Delete.
Context (less : Z * A -> Z * A -> bool).

(** What a deletion of [x] leaves. *)
Definition deleted x (l : list (Z * (Z * A))) s s' : Prop :=
  is_rbtree less sentinel s' l /\ outside (sentinel :: x.1 :: l.*1) s s'
  /\ exists cc, cells s' !! x.1 = Some (cleared x cc).

(** The part of [ngx_rbtree_delete] that does not end at the root. *)
Lemma wp_delete_inner p0 reg cn x k n f c' u l s1 s :
  At sentinel p0 (f :: c') u s1 -> tpar u (f_elt f).1 s1 -> inorder (plug (f :: c') u) = l -> sorted less l ->
  (forall z, z ∈ reg -> z ∈ sentinel :: x.1 :: l.*1) -> outside reg s s1 -> cells s1 !! x.1 = Some (cleared x cn) -> x.1 ∉ l.*1 ->
  rbt n u -> rbc (match k with Red => n | Black => S n end) (f :: c') -> (k = Red -> redb u = false) ->
  wp (if bool_decide (k = Red) then mret tt else fuel ← loop_fuel; delete_fix sentinel fuel (ptr_of sentinel u)) s1
    (fun _ s' => deleted x l s s').
Proof.
  intros Ha Ht Hl Hs Hreg Ho Hx Hxl Hn Hcc Hk.
  eapply wp_mono; [by eapply wp_finish|]. intros _ s' (W & m & HW & HI & Hm & HR & Ho'). rewrite Hl in HI.
  change (ptrs (plug (f :: c') u)) with ((inorder (plug (f :: c') u)).*1) in Ho'. rewrite Hl in Ho'.
  split_and!.
  - exists p0, W, m. done.
  - intros z Hz. rewrite Ho' by set_solver. apply Ho. intros Hz'. by apply Hz, Hreg.
  - exists cn. by rewrite Ho'.
Qed.
(** A node with two children. *)
Lemma wp_delete_two p0 c cn x l cs cm m mr n s :
  let L := (lft c ++ inorder l) ++ inorder (plug cs (T cm E m mr)) ++ rgt c in
  At sentinel p0 c (T cn l x (plug cs (T cm E m mr))) s ->
  rbt n (plug c (T cn l x (plug cs (T cm E m mr)))) -> redb (plug c (T cn l x (plug cs (T cm E m mr)))) = false ->
  Forall (fun f => f_side f = Left) cs -> sorted less L -> x.1 ∉ L.*1 ->
  wp (rt ← get_root;
      if m.1 =? rt then
        set_root (ptr_of sentinel mr);; ngx_rbt_black (ptr_of sentinel mr);; delete_clear x.1
      else
        red ← ngx_rbt_is_red m.1;
        relink Left m.1 (ptr_of sentinel mr);;
        delete_move sentinel x.1 m.1 (ptr_of sentinel mr);;
        delete_clear x.1;;
        if red : bool then mret tt
        else fuel ← loop_fuel; delete_fix sentinel fuel (ptr_of sentinel mr)) s (fun _ s' => deleted x L s s').
Proof.
  intros L Ha Hn Hb HF Hs HxL. set (F := mkFrame Right cn x l).
  assert (HP : plug c (T cn l x (plug cs (T cm E m mr))) = plug (cs ++ F :: c) (T cm E m mr)) by (by rewrite plug_app).
  rewrite HP in Hn, Hb. apply at_plug in Ha. rewrite HP in Ha. apply at_plug in Ha.
  destruct (rbt_unplug _ _ _ Hn Hb) as (k & Hk & Hc & _). apply (rbc_elt _ _ _ _ _ m) in Hc.
  assert (HL : inorder (plug (cs ++ mkFrame Right cn m l :: c) mr) = L).
  { unfold L. rewrite !inorder_split, lft_app, rgt_app, (lft_left cs HF). simpl. rewrite app_nil_r.
    by rewrite <- !(assoc (++)). }
  assert (HPm : forall z, z ∈ sentinel :: x.1 :: m.1 :: ptrs l ++ ptrs_c cs ++ ptrs mr ++ ptrs_c c ->
    z ∈ sentinel :: x.1 :: L.*1).
  { rewrite <- HL. change ((inorder (plug ?c ?t)).*1) with (ptrs (plug c t)). intros z. rewrite !elem_of_cons, ptrs_plug, ptrs_c_app.
    simpl. rewrite !elem_of_app, !elem_of_cons, !elem_of_app. tauto. }
  assert (Hkm : rbt (match cm with Red => k | Black => pred k end) mr /\ (cm = Red -> redb mr = false)
    /\ (cm = Black -> k = S (pred k))) by (inversion Hk; subst; done).
  destruct Hkm as (Hkm & Hred & Hbl).
  assert (Hh : holding sentinel s (inorder (plug (cs ++ F :: c) (T cm E m mr))) p0 (cs ++ F :: c) (T cm E m mr) s)
    by (split; [done|split; [done|apply outside_refl]]).
  assert (Hne : m.1 <> root s) by (destruct cs; apply (held_not_root _ _ _ _ _ Hh)).
  do 2 wp_step. destruct (Z.eqb_spec m.1 (root s)); [done|]. apply wp_bind.
  change m.1 with (ptr_of sentinel (T cm E m mr)) at 1. eapply held_is_red; [exact Hh|]. simpl ptr_of.
  eapply wp_splice_two; [exact Ha|]. intros s1 Ha1 Ht1 Ho1 Hx1.
  replace (redb (T cm E m mr)) with (bool_decide (cm = Red)) by (by destruct cm).
  assert (exists f0 c0, cs ++ mkFrame Right cn m l :: c = f0 :: c0) as (f0 & c0 & E0) by (destruct cs; eauto).
  rewrite E0 in *.
  eapply (wp_delete_inner p0 _ cn x cm); [exact Ha1|exact Ht1|exact HL|exact Hs|exact HPm|exact Ho1|exact Hx1|exact HxL|exact Hkm| |exact Hred].
  destruct cm; [done|]. by rewrite <- Hbl.
Qed.

Lemma wp_delete l1 x l2 s :
  is_rbtree less sentinel s (l1 ++ x :: l2) ->
  wp (ngx_rbtree_delete sentinel x.1) s (fun _ s' => deleted x (l1 ++ l2) s s').
Proof.
  intros (p0 & t & n & Ha & HI & Hn & Hb & Hs). destruct (split_at _ _ _ _ HI) as (c & cn & l & r & -> & -> & ->).
  apply sorted_delete in Hs. apply at_plug in Ha. destruct (rbt_unplug _ _ _ Hn Hb) as (k & Hk & Hc & Htop).
  set (L := (lft c ++ inorder l) ++ inorder r ++ rgt c) in *.
  assert (HxL : x.1 ∉ L.*1).
  { pose proof Ha as (_ & _ & _ & Hnd). apply NoDup_cons in Hnd as [_ Hnd].
    rewrite <- ptrs_plug in Hnd. unfold ptrs in Hnd. rewrite HI, fmap_app, fmap_cons in Hnd.
    apply NoDup_app in Hnd as (_ & Hd & Hnd). apply NoDup_cons in Hnd as [Hnd _]. unfold L. rewrite fmap_app. set_solver. }
  unfold ngx_rbtree_delete. apply wp_bind. eapply wp_delete_choose; [exact Ha| |].
  - intros u Hu. assert (HL : inorder (plug c u) = L).
    { rewrite inorder_split. unfold L. destruct Hu as [[-> ->]|[-> ->]]; simpl; by rewrite ?app_nil_r, <- ?(assoc (++)). }
    assert (Hku : rbt (match cn with Red => k | Black => pred k end) u /\ (cn = Red -> redb u = false)
      /\ (cn = Black -> k = S (pred k))).
    { destruct Hu as [[_ ->]|[_ ->]]; inversion Hk; subst; done. }
    destruct Hku as (Hku & Hred & Hbl). do 2 wp_step. destruct c as [|f c].
    + pose proof Ha as (Hr & _). simpl in Hr. rewrite Hr, Z.eqb_refl.
      eapply wp_mono; [by eapply wp_delete_root|]. intros _ s' (Ha' & Ho' & Hx'). split_and!; [| |by exists cn].
      * destruct (blacken_rbt _ _ Hku) as [m Hm]. exists x.1, (blacken u), m.
        split_and!; [done|by rewrite blacken_inorder|done|apply blacken_blk|done].
      * intros z Hz. apply Ho'. rewrite <- HL in Hz. simpl in Hz. change ((inorder u).*1) with (ptrs u) in Hz. set_solver.
    + assert (Hh : holding sentinel s (inorder (plug (f :: c) (T cn l x r))) p0 (f :: c) (T cn l x r) s)
        by (split; [done|split; [done|apply outside_refl]]).
      pose proof (held_not_root _ _ _ _ _ Hh) as Hne. simpl in Hne. destruct (Z.eqb_spec x.1 (root s)); [done|].
      apply wp_bind. change x.1 with (ptr_of sentinel (T cn l x r)). eapply held_is_red; [exact Hh|]. simpl ptr_of.
      eapply wp_splice_one; [exact Ha|exact Hu|]. intros s1 Ha1 Ht1 Ho1 Hx1.
      replace (redb (T cn l x r)) with (bool_decide (cn = Red)) by (by destruct cn).
      eapply (wp_delete_inner p0 _ cn x cn); [exact Ha1|exact Ht1|exact HL|exact Hs| |exact Ho1|exact Hx1|exact HxL|exact Hku| |exact Hred].
      * intros z Hz. rewrite <- HL. change ((inorder (plug (f :: c) u)).*1) with (ptrs (plug (f :: c) u)).
        rewrite !elem_of_cons in Hz |- *. rewrite elem_of_app in Hz. rewrite ptrs_plug, elem_of_app. tauto.
      * destruct cn; [done|]. by rewrite <- Hbl.
  - intros cs cm m mr -> HF. by eapply wp_delete_two.
Qed.
(** ** Changing the data of a node

    The structure around a node may change while it is in the tree, if the order does
    not look at it. *)
Definition same_place (x y : Z * A) : Prop := forall z, less x z = less y z /\ less z x = less z y.

Lemma sorted_set_data l1 q k v w l2 :
  same_place (k, v) (k, w) -> sorted less (l1 ++ (q, (k, v)) :: l2) -> sorted less (l1 ++ (q, (k, w)) :: l2).
Proof.
  intros Hk. induction l1 as [|z l1 IH]; simpl; rewrite !sorted_cons.
  - intros [Hs HF]. split; [done|]. eapply Forall_impl; [exact HF|]. intros z. simpl. by rewrite (proj2 (Hk z.2)).
  - rewrite !Forall_app, !Forall_cons. simpl. rewrite (proj1 (Hk z.2)). naive_solver.
Qed.

Lemma rbtree_set_data l1 x l2 n d s :
  same_place x.2 (x.2.1, d) -> is_rbtree less sentinel s (l1 ++ x :: l2) -> cells s !! x.1 = Some n ->
  is_rbtree less sentinel (mkRb A (<[x.1 := set_data d n]> (cells s)) (root s)) (l1 ++ (x.1, (x.2.1, d)) :: l2).
Proof.
  intros Hko (p0 & t & m & Ha & HI & Hm & Hb & Hs) Hn.
  destruct (split_at _ _ _ _ HI) as (c & cc & l & r & -> & -> & ->). set (y := (x.1, (x.2.1, d))).
  apply at_plug in Ha. destruct (rbt_unplug _ _ _ Hm Hb) as (k & Hk & Hc & Htop).
  assert (Hky : rbt k (T cc l y r)) by (inversion Hk; subst; by constructor).
  assert (Hp : ptrs (T cc l y r) = ptrs (T cc l x r)) by (unfold ptrs; simpl; by rewrite !fmap_app).
  destruct Ha as (HcC & (Hx & Hl & Hr) & Hsn & Hnd). rewrite Hx in Hn. injection Hn as <-.
  assert (Hpp : ptrs (T cc l x r) ≡ₚ x.1 :: ptrs l ++ ptrs r) by apply (ptrs_nd Left).
  pose proof Hnd as Hnd'. rewrite Hpp in Hnd'. apply NoDup_cons in Hnd' as [Hs1 Hnd'].
  apply NoDup_app in Hnd' as (_ & Hcn & Hnd'). apply NoDup_cons in Hnd' as [Hxn _].
  destruct (rbt_plug k c (T cc l y r)) as [m' Hm'].
  { done. }
  { done. }
  { intros Hred. right. apply Htop. by destruct cc. }
  exists p0, (plug c (T cc l y r)), m'. split_and!; [apply (proj1 (at_plug _ _ _ _ _))| |done| |].
  - split_and!.
    + eapply repc_agree; [..|exact HcC]; [done|]. intros z Hz. simpl. apply lookup_insert_ne. apart.
    + simpl. rewrite lookup_insert_eq. split_and!; [done| |];
        (eapply rep_agree; [|done]); intros z Hz; simpl; apply lookup_insert_ne; apart.
    + destruct Hsn as (n0 & Hn0 & Hc0). exists n0. split; [|done]. simpl. rewrite lookup_insert_ne; [done|apart].
    + by rewrite Hp.
  - rewrite inorder_split. simpl. by rewrite <- !(assoc (++)).
  - destruct c as [|f c]; [by destruct cc|by apply (blk_plug k)].
  - destruct x as [q [kx a]]. by apply (sorted_set_data _ q kx a).
Qed.
End Delete.
End Spec.

End RbDelete.
