(* ===== verification/NgxRbtreeSpec.v ===== *)
(** * The red-black tree: what it promises

    The theorems about ngx_rbtree.c as its users rely on them: a tree on the heap is a
    list of nodes in the order of their keys, [ngx_rbtree_insert] and
    [ngx_rbtree_delete] are insertion and deletion in that list, [ngx_rbtree_min] is
    its head, and the balance bounds the steps of a search. *)

From stdpp Require Import gmap fin_maps.
From S2P Require Import Prelude NgxRbtree NgxRbtreeRep NgxRbtreeInv NgxRbtreeInsert NgxRbtreeDelete.

Module RbSpec.
Import Rbtree RbRep RbInv RbInsert RbDelete.

Section Theorems.
Context {A : Type} (sentinel : Z) (insert : Z -> Z -> M A unit) (less : Z * A -> Z * A -> bool).
Context (P : Z * A -> Prop) {Hpt : InsertPt sentinel insert less} {Hord : KeyOrder less P}.

(** C12: A node that is not in the tree is inserted, by any insertion function that does
    what [ngx_rbtree_insert] relies on, behind the nodes that are not greater; the call
    returns, the result is again a red-black search tree, and no other node is
    touched. *)
Theorem rbtree_insert_refines s l q n :
  is_rbtree less sentinel s l -> cells s !! q = Some n -> q ∉ sentinel :: l.*1 ->
  P (lab n) -> Forall (fun x => P x.2) l ->
  exists s', ngx_rbtree_insert sentinel insert q s = Some (tt, s')
    /\ is_rbtree less sentinel s' (ins less (q, lab n) l)
    /\ forall z, z ∉ q :: l.*1 -> cells s' !! z = cells s !! z.
Proof.
  intros Hs Hq Hni Hn Hl. destruct (wp_insert sentinel insert less P q n s l) as ([] & s' & E & Ht & Ho); try done.
  by exists s'.
Qed.

(** C13: Deleting a node of the tree, whichever it is, returns, leaves a red-black search
    tree of the other nodes in the same order, and clears the node's links and key; only
    nodes of the tree and the sentinel are touched. *)
Theorem rbtree_delete_refines s l1 x l2 :
  is_rbtree less sentinel s (l1 ++ x :: l2) ->
  exists s' c, ngx_rbtree_delete sentinel x.1 s = Some (tt, s')
    /\ is_rbtree less sentinel s' (l1 ++ l2)
    /\ cells s' !! x.1 = Some (mkNode A 0 NULL NULL NULL c x.2.2)
    /\ forall z, z ∉ sentinel :: x.1 :: (l1 ++ l2).*1 -> cells s' !! z = cells s !! z.
Proof.
  intros Hs. destruct (wp_delete sentinel less l1 x l2 s Hs) as ([] & s' & E & Ht & Ho & cc & Hx).
  by exists s', (col cc).
Qed.

(** The nodes of the tree are on the heap. *)
Lemma rbtree_cell s l x :
  is_rbtree less sentinel s l -> x ∈ l -> exists n, cells s !! x.1 = Some n /\ lab n = x.2.
Proof.
  intros (p0 & t & n & Ha & <- & _) Hx. apply list_elem_of_split in Hx as (l1 & l2 & HI).
  destruct (split_at _ _ _ _ HI) as (c & cc & a & b & -> & _). apply at_plug in Ha as (_ & (Hc & _) & _).
  eexists. split; [exact Hc|]. by destruct x as [? []].
Qed.

Lemma rbtree_nodup s l : is_rbtree less sentinel s l -> NoDup (sentinel :: l.*1).
Proof. intros (p0 & t & n & (_ & _ & _ & Hnd) & <- & _). exact Hnd. Qed.

Lemma rbtree_root s l : is_rbtree less sentinel s l -> root s = sentinel <-> l = [].
Proof.
  intros Hs. pose proof (rbtree_nodup _ _ Hs) as Hnd. destruct Hs as (p0 & t & n & (Hr & _) & <- & _). simpl in Hr.
  rewrite Hr. destruct t as [|cc a x b]; simpl; [done|]. split; [|by destruct (inorder a)]. intros He. exfalso.
  apply NoDup_cons in Hnd as [Hnd _]. apply Hnd. rewrite <- He. apply (ptr_in_T sentinel cc a x b).
Qed.

(** Changes elsewhere do not matter. *)
Lemma rbtree_frame s s' l :
  is_rbtree less sentinel s l -> root s' = root s ->
  (forall z, z ∈ sentinel :: l.*1 -> cells s' !! z = cells s !! z) -> is_rbtree less sentinel s' l.
Proof.
  intros (p0 & t & n & (Hr & Ht & (m & Hm & Hc) & Hnd) & <- & H) Hroot Hz. exists p0, t, n. split; [|done].
  split_and!; [simpl in *; congruence| |exists m; split; [rewrite Hz; [done|by left]|done]|done].
  eapply rep_agree; [|exact Ht]. intros z Hz'. apply Hz. by right.
Qed.

(** The node [ngx_rbtree_min] finds in the whole tree is the first. *)
Lemma rbtree_min s x l :
  is_rbtree less sentinel s (x :: l) -> ngx_rbtree_min sentinel (root s) s = Some (x.1, s).
Proof.
  intros (p0 & t & n & Ha & HI & Hn & Hb & Hs). pose proof (at_size _ _ _ _ Ha) as Hsz.
  pose proof Ha as (Hr & Ht & _ & Hnd). simpl in Hr, Hnd. rewrite Hr.
  destruct (wp_min_loop sentinel (S (S (size (cells s)))) t p0 s Ht) as (cs & cm & m & mr & -> & HF & Hw).
  - by intros ->.
  - by apply NoDup_cons in Hnd as [Hnd _].
  - pose proof (height_size t). lia.
  - rewrite inorder_split, (lft_left cs HF) in HI. simpl in HI. simplify_eq.
    destruct (Hw (fun q s' => q = x.1 /\ s' = s)) as (q & s' & E & -> & ->); [done|].
    unfold ngx_rbtree_min. unfold mbind, M_bind. simpl. exact E.
Qed.

(** A search visits at most [2 log2 (n + 1)] of [n] nodes: the walk down of an insertion
    does not need more fuel. *)
Lemma rbtree_walk_log s l q n :
  is_rbtree less sentinel s l -> l <> [] -> cells s !! q = Some n ->
  is_Some (insert_walk sentinel less (2 * Nat.log2 (S (length l))) (root s) q s).
Proof.
  intros (p0 & t & k & Ha & <- & Hk & Hb & Hs) Hl Hq. destruct t as [|cc a y b]; [done|].
  destruct (descend_cons less (q, lab n) cc a y b []) as (f & c & Hd). pose proof Ha as (Hr & _). simpl in Hr. rewrite Hr.
  destruct (wp_insert_walk sentinel less (2 * Nat.log2 (S (length (inorder (T cc a y b))))) q n (T cc a y b) [] f c p0 s
    (q, lab n) (fun _ _ => True)) as (r & s' & E & _); try done.
  by eapply rbt_log.
Qed.
End Theorems.

(** ** Searching

    A loop that walks down the tree by the sign of a comparison with what it looks for
    finds it; [good] is what is known of the labels. *)
Section Search.
Context {A X : Type} (sentinel : Z) (less : Z * A -> Z * A -> bool).

Lemma sorted_parts (l r : tree A) y :
  sorted less (inorder l ++ y :: inorder r) ->
  sorted less (inorder l) /\ sorted less (inorder r)
  /\ (forall x, x ∈ inorder l -> less y.2 x.2 = false) /\ (forall x, x ∈ inorder r -> less x.2 y.2 = false).
Proof.
  intros Hs. pose proof (sorted_app_left _ _ _ _ Hs) as Hl. rewrite Forall_forall in Hl.
  induction (inorder l) as [|z k IH]; simpl in Hs; apply sorted_cons in Hs as [Hs HF].
  - rewrite Forall_forall in HF. split_and!; [constructor|done|done|done].
  - destruct (IH Hs) as (H1 & H2 & _ & H4); [set_solver|]. split_and!; [|done|done|done].
    apply sorted_cons. split; [done|]. by apply Forall_app in HF as [HF _].
Qed.
Context (loop : nat -> Z -> M A X) (sign : Z * A -> Z) (good : Z * A -> Prop).

(** A turn of the loop goes where the sign says. *)
Context (turn_left : forall fuel y pl pr par cc s Q,
  cells s !! y.1 = Some (mk Left y pl pr par cc) -> y.1 <> sentinel -> good y.2 -> sign y.2 < 0 ->
  wp (loop fuel pl) s Q -> wp (loop (S fuel) y.1) s Q).
Context (turn_right : forall fuel y pl pr par cc s Q,
  cells s !! y.1 = Some (mk Left y pl pr par cc) -> y.1 <> sentinel -> good y.2 -> 0 < sign y.2 ->
  wp (loop fuel pr) s Q -> wp (loop (S fuel) y.1) s Q).

(** The order of the tree agrees with the sign. *)
Context (before : forall y z, good y -> good z -> sign y < 0 -> less z y = false -> sign z < 0).
Context (behind : forall y z, good y -> good z -> 0 < sign y -> less y z = false -> 0 < sign z).

Lemma wp_search fuel t par s Q :
  Rep sentinel s par t -> sentinel ∉ ptrs t -> sorted less (inorder t) -> Forall (fun x => good x.2) (inorder t) ->
  (height t < fuel)%nat ->
  ((forall x, x ∈ inorder t -> sign x.2 <> 0) -> forall fuel, wp (loop (S fuel) sentinel) s Q) ->
  (forall x fuel, x ∈ inorder t -> sign x.2 = 0 -> wp (loop (S fuel) x.1) s Q) ->
  wp (loop fuel (ptr_of sentinel t)) s Q.
Proof.
  revert fuel par Q. induction t as [|cc l IHl y r IHr]; intros fuel par Q Ht Hs Hsort Hg Hf HN HF.
  { destruct fuel; [lia|]. simpl. apply HN. intros x Hx. by apply elem_of_nil in Hx. }
  destruct fuel as [|fuel]; [lia|]. simpl in Hf, Hsort, HN, HF, Hg. destruct Ht as (Hy & Hl & Hr).
  apply sorted_parts in Hsort as (Sl & Sr & Ly & Ry). unfold ptrs in Hs. simpl in Hs. rewrite fmap_app, fmap_cons in Hs.
  apply Forall_app in Hg as [Gl [Gy Gr]%Forall_cons]. rewrite Forall_forall in Gl, Gr.
  simpl ptr_of. assert (Hys : y.1 <> sentinel) by set_solver. destruct (Z.lt_trichotomy (sign y.2) 0) as [Hv|[Hv|Hv]].
  - eapply turn_left; [exact Hy|done..|]. apply (IHl fuel y.1); [done|set_solver|done|by apply Forall_forall|lia| |].
    + intros Hno. apply HN. intros x. rewrite elem_of_app, elem_of_cons. intros [Hx|[->|Hx]]; [by apply Hno|lia|].
      enough (sign x.2 < 0) by lia. eapply (before y.2); eauto.
    + intros x f Hx. apply HF. set_solver.
  - apply HF; [set_solver|done].
  - eapply turn_right; [exact Hy|done..|]. apply (IHr fuel y.1); [done|set_solver|done|by apply Forall_forall|lia| |].
    + intros Hno. apply HN. intros x. rewrite elem_of_app, elem_of_cons. intros [Hx|[->|Hx]]; [|lia|by apply Hno].
      enough (0 < sign x.2) by lia. eapply (behind y.2); eauto.
    + intros x f Hx. apply HF. set_solver.
Qed.

(** From the root, with the fuel of the loops. *)
Lemma rbtree_search s L Q :
  is_rbtree less sentinel s L -> Forall (fun x => good x.2) L ->
  ((forall x, x ∈ L -> sign x.2 <> 0) -> forall fuel, wp (loop (S fuel) sentinel) s Q) ->
  (forall x fuel, x ∈ L -> sign x.2 = 0 -> wp (loop (S fuel) x.1) s Q) ->
  wp (loop (S (S (size (cells s)))) (root s)) s Q.
Proof.
  intros (p0 & t & n & Ha & <- & _ & _ & Hs) Hg HN HF. pose proof (at_size _ _ _ _ Ha) as Hsz.
  destruct Ha as (Hr & Ht & _ & Hnd). simpl in Hr, Hnd. apply NoDup_cons in Hnd as [Hni _]. rewrite Hr.
  eapply wp_search; try done. pose proof (height_size t). lia.
Qed.
End Search.

(** ** Examples *)

(** Nodes at 16, 32, ..., 16 n with the given keys, and a sentinel at 8. *)
Definition heap_of (keys : list Z) : gmap Z (node unit) :=
  <[8 := mkNode unit 0 0 0 0 0 tt]>
  (list_to_map (zip (map (fun i => 16 * Z.of_nat i) (seq 1 (length keys))) (map (fun k => mkNode unit k 0 0 0 7 tt) keys))).

Definition start (keys : list Z) : rb unit := mkRb unit (heap_of keys) 8.

Definition insert_all (qs : list Z) (s : rb unit) : option (rb unit) :=
  fold_left (fun o q => s ← o; '(_, s) ← ngx_rbtree_insert 8 (ngx_rbtree_insert_value 8) q s; Some s) qs (Some s).

Lemma start_rbtree keys : is_rbtree value_less 8 (start keys) [].
Proof.
  exists 0, E, 0%nat. split_and!; [split_and!|..]; try done; [| |constructor|constructor].
  - eexists. simpl. unfold heap_of. by rewrite lookup_insert_eq.
  - apply NoDup_singleton.
Qed.

(** Four nodes with the keys 5, 3, 8 and 4, three of them in the tree. *)
Definition three : rb unit := default (start []) (insert_all [16; 32; 48] (start [5; 3; 8; 4])).

Lemma three_rbtree :
  is_rbtree value_less 8 three [(32, (3, tt)); (16, (5, tt)); (48, (8, tt))].
Proof.
  exists 0, (T Black (T Red E (32, (3, tt)) E) (16, (5, tt)) (T Red E (48, (8, tt)) E)), 1%nat.
  split_and!; [split_and!| | | |]; try done; try (by repeat constructor).
  - by eexists.
  - by apply (bool_decide_unpack _).
Qed.

Lemma rbtree_insert_refines_witness :
  exists s', ngx_rbtree_insert 8 (ngx_rbtree_insert_value 8) 64 three = Some (tt, s')
    /\ is_rbtree value_less 8 s' [(32, (3, tt)); (64, (4, tt)); (16, (5, tt)); (48, (8, tt))]
    /\ forall z, z ∉ [64; 32; 16; 48] -> cells s' !! z = cells three !! z.
Proof.
  apply (rbtree_insert_refines 8 (ngx_rbtree_insert_value 8) value_less (fun _ => True) three
    [(32, (3, tt)); (16, (5, tt)); (48, (8, tt))] 64 (mkNode unit 4 0 0 0 7 tt)).
  - exact three_rbtree.
  - vm_compute. reflexivity.
  - by apply (bool_decide_unpack _).
  - done.
  - by repeat constructor.
Defined.

Lemma rbtree_delete_refines_witness :
  exists s' c, ngx_rbtree_delete 8 16 three = Some (tt, s')
    /\ is_rbtree value_less 8 s' [(32, (3, tt)); (48, (8, tt))]
    /\ cells s' !! 16 = Some (mkNode unit 0 NULL NULL NULL c tt)
    /\ forall z, z ∉ [8; 16; 32; 48] -> cells s' !! z = cells three !! z.
Proof.
  exact (rbtree_delete_refines 8 value_less three [(32, (3, tt))] (16, (5, tt)) [(48, (8, tt))] three_rbtree).
Defined.

End RbSpec.
