(* ===== verification/NgxEventTimer.v ===== *)
(** * Event timers

    The timers of src/nginx-1.7.2/src/event/ngx_event_timer.c and ngx_event_timer.h: a
    red-black tree of the times, in milliseconds, at which events are due.  The times
    wrap around (after 49 days where they have 32 bits), and the code compares them by
    the sign of their difference. *)

From stdpp Require Import gmap fin_maps.
From S2P Require Import Prelude NgxRbtree NgxRbtreeRep NgxRbtreeInv NgxRbtreeInsert NgxRbtreeDelete NgxRbtreeSpec.

Module Timers.
Import Rbtree RbInv.

(** The fields of [ngx_event_t] the timers use; the node is its field [timer]. *)
Record event := mkEvent { timer_set : bool; timedout : bool }.

Abbreviation NGX_TIMER_LAZY_DELAY := 300 (only parsing).

Section Code.
Context `{Arch}.
Variable sentinel : Z.

(** [ngx_current_msec] *)
Variable current_msec : Z.

(** [ev->timer_set = b] and [ev->timedout = 1] *)
Definition set_timer_set (b : bool) (ev : Z) : M event unit :=
  upd ev (fun n => set_data (mkEvent b (timedout (data n))) n).

(** [ngx_abs] of an [ngx_msec_int_t] *)
Definition ngx_abs (v : Z) : Z := if 0 <=? v then v else sint ptr_bits (- v).

Definition ngx_event_del_timer (ev : Z) : M event unit :=
  ngx_rbtree_delete sentinel ev;; set_timer_set false ev.

Definition ngx_event_add_timer (ev timer : Z) : M event unit :=
  let key' := uint ptr_bits (current_msec + timer) in
  let add :=
    upd ev (set_key key');;
    ngx_rbtree_insert sentinel (ngx_rbtree_insert_timer_value sentinel) ev;;
    set_timer_set true ev in
  e ← rd ev data;
  if timer_set e then
    k ← rd ev key;
    let diff := sint ptr_bits (key' - k) in
    if ngx_abs diff <? NGX_TIMER_LAZY_DELAY then mret tt
    else ngx_event_del_timer ev;; add
  else add.

(** [NGX_TIMER_INFINITE] *)
Definition NGX_TIMER_INFINITE : Z := uint ptr_bits (-1).

Definition ngx_event_find_timer : M event Z :=
  rt ← get_root;
  if rt =? sentinel then mret NGX_TIMER_INFINITE
  else
    node ← ngx_rbtree_min sentinel rt;
    k ← rd node key;
    let timer := sint ptr_bits (k - current_msec) in
    mret (uint ptr_bits (if 0 <? timer then timer else 0)).

(** [ev->handler(ev)], for any handlers; the result lists the events handled, in order. *)
Variable handler : Z -> M event unit.


End Code.

(** ** The specification

    The timers as a list of events with the times they are due, not wrapped around, in
    order. *)

Fixpoint tins (e : Z * Z) (l : list (Z * Z)) : list (Z * Z) :=
  match l with [] => [e] | e' :: l' => if e.2 <? e'.2 then e :: e' :: l' else e' :: tins e l' end.

Fixpoint time_of (q : Z) (l : list (Z * Z)) : option Z :=
  match l with [] => None | e :: l' => if e.1 =? q then Some e.2 else time_of q l' end.

Fixpoint tdel (q : Z) (l : list (Z * Z)) : list (Z * Z) :=
  match l with [] => [] | e :: l' => if e.1 =? q then l' else e :: tdel q l' end.

(** Setting the timer of [q] to [t]: one that is set already stays where it is if it
    would move by less than the lazy delay. *)
Definition tadd (q t : Z) (l : list (Z * Z)) : list (Z * Z) :=
  match time_of q l with
  | Some t' => if Z.abs (t - t') <? NGX_TIMER_LAZY_DELAY then l else tins (q, t) (tdel q l)
  | None => tins (q, t) l
  end.

Lemma time_of_Some q l t :
  time_of q l = Some t -> exists l1 l2, l = l1 ++ (q, t) :: l2 /\ tdel q l = l1 ++ l2.
Proof.
  induction l as [|e l IH]; simpl; [done|]. destruct (Z.eqb_spec e.1 q) as [He|He].
  - intros [= <-]. exists [], l. by destruct e as [? ?]; simpl in *; subst.
  - intros (l1 & l2 & -> & Hd)%IH. exists (e :: l1), l2. by rewrite Hd.
Qed.

Lemma time_of_None q l : time_of q l = None -> q ∉ l.*1.
Proof.
  induction l as [|e l IH]; cbn [time_of]; [set_solver|]. destruct (Z.eqb_spec e.1 q); [done|].
  rewrite fmap_cons. set_solver.
Qed.

Definition due (now : Z) (e : Z * Z) : Prop := e.2 <= now.

#[export] Instance due_dec now e : Decision (due now e).
Proof. unfold due. apply _. Defined.




Section Spec.
Import RbRep RbInsert RbDelete RbSpec.
Context `{Arch} (sentinel lo now : Z).

(** [lo] is the earliest time the timers may have; all of them, and the current time,
    are less than half of the range of times after it. *)
Definition in_range (t : Z) : Prop := lo <= t < lo + 2 ^ (ptr_bits - 1).

Context (Hnow : in_range now).

(** An element of the tree and a timer. *)
Definition rel (x : Z * (Z * event)) (e : Z * Z) : Prop :=
  x.1 = e.1 /\ x.2.1 = uint ptr_bits e.2 /\ timer_set x.2.2 = true /\ in_range e.2.

(** The tree holds the timers [l], and [timer_set] is set in exactly their events. *)
Definition timers (s : rb event) (l : list (Z * Z)) : Prop :=
  exists L, is_rbtree timer_less sentinel s L /\ Forall2 rel L l /\
    forall q n, q ∉ sentinel :: l.*1 -> cells s !! q = Some n -> timer_set (data n) = false.

Lemma width_pos : 0 < ptr_bits.
Proof. pose proof ptr_bits_cases. lia. Qed.

Lemma rel_fst L l : Forall2 rel L l -> L.*1 = l.*1.
Proof. induction 1 as [|x e L l (Hx & _) _ IH]; [done|]. by rewrite !fmap_cons, Hx, IH. Qed.

Lemma rel_diff x t : in_range t -> in_range x -> sint ptr_bits (uint ptr_bits x - uint ptr_bits t) = x - t.
Proof. intros Ht Hx. pose proof width_pos. apply sint_diff; unfold in_range in *; lia. Qed.

Lemma less_range {A} (x y : Z * A) t u :
  x.1 = uint ptr_bits t -> y.1 = uint ptr_bits u -> in_range t -> in_range u -> timer_less x y = (t <? u).
Proof. intros Hx Hy Ht Hu. unfold timer_less. rewrite Hx, Hy, rel_diff by done. lia. Qed.

Lemma ins_rel x e L l :
  Forall2 rel L l -> rel x e -> Forall2 rel (ins timer_less x L) (tins e l).
Proof.
  intros HL Hx. induction HL as [|y f L l Hy HL IH]; simpl; [by constructor|].
  rewrite (less_range x.2 y.2 e.2 f.2) by (apply Hx || apply Hy).
  destruct (e.2 <? f.2); constructor; try done. by constructor.
Qed.

Lemma ins_split q k (L : list (Z * (Z * event))) :
  exists L1 L2, L = L1 ++ L2 /\ forall d, ins timer_less (q, (k, d)) L = L1 ++ (q, (k, d)) :: L2.
Proof.
  induction L as [|y L (L1 & L2 & -> & IH)]; [by exists [], []|].
  assert (Hd : forall d, timer_less (k, d) y.2 = (sint ptr_bits (k - y.2.1) <? 0)) by done.
  destruct (sint ptr_bits (k - y.2.1) <? 0).
  - exists [], (y :: L1 ++ L2). split; [done|]. intros d. cbn [ins snd]. by rewrite Hd.
  - exists (y :: L1), L2. split; [done|]. intros d. cbn [ins snd]. rewrite Hd. simpl. by rewrite IH.
Qed.

Lemma rel_window L l : Forall2 rel L l -> Forall (fun x => in_window lo x.2) L.
Proof. induction 1 as [|x e L l (_ & Hx & _ & Hr) _ IH]; constructor; [by exists e.2|done]. Qed.

(** Changing the key of an event without a timer, or its flags. *)
Lemma wp_outside q f n s l Q :
  timers s l -> cells s !! q = Some n -> q ∉ sentinel :: l.*1 -> timer_set (data (f n)) = false ->
  (forall s', timers s' l -> cells s' !! q = Some (f n) -> Q tt s') -> wp (upd q f) s Q.
Proof.
  intros (L & Ht & HL & Hf) Hq Hni Hfn HQ. eapply wp_upd; [exact Hq|]. apply HQ.
  - exists L. split_and!; [|done|].
    + eapply rbtree_frame; [exact Ht|done|]. intros z Hz. simpl. apply lookup_insert_ne.
      rewrite (rel_fst _ _ HL) in Hz. set_solver.
    + intros z m Hz. simpl. destruct (decide (z = q)) as [->|Hzq].
      * rewrite lookup_insert_eq. by intros [= <-].
      * rewrite lookup_insert_ne by done. by apply Hf.
  - simpl. by rewrite lookup_insert_eq.
Qed.

Lemma wp_add q n t s l :
  timers s l -> cells s !! q = Some n -> q ∉ sentinel :: l.*1 -> key n = uint ptr_bits t -> in_range t ->
  wp (ngx_rbtree_insert sentinel (ngx_rbtree_insert_timer_value sentinel) q;; set_timer_set true q) s
    (fun _ s' => timers s' (tins (q, t) l)).
Proof.
  intros (L & Ht & HL & Hf) Hq Hni Hk Hr. apply wp_bind.
  eapply wp_mono; [eapply (wp_insert sentinel _ timer_less (in_window lo)); [exact Ht|exact Hq| | |]|].
  { by rewrite (rel_fst _ _ HL). }
  { by exists t. }
  { by eapply rel_window. }
  intros _ s1 [Ht1 Ho1]. destruct (ins_split q (key n) L) as (L1 & L2 & HL12 & Hins).
  set (d := mkEvent true (timedout (data n))).
  assert (Hl : Forall2 rel (L1 ++ (q, (key n, d)) :: L2) (tins (q, t) l)).
  { rewrite <- (Hins d). by apply ins_rel. }
  unfold lab in Ht1. rewrite (Hins (data n)) in Ht1.
  destruct (rbtree_cell _ _ _ _ (q, (key n, data n)) Ht1) as (n1 & Hn1 & Hlab); [set_solver|]. simpl in Hn1.
  injection Hlab as Hk1 Hd1. eapply wp_upd; [exact Hn1|].
  pose proof (rbtree_set_data sentinel timer_less L1 (q, (key n, data n)) L2 n1 d s1) as Hset. simpl in Hset.
  rewrite Hd1. eexists. split_and!; [apply Hset; done|exact Hl|].
  intros z m Hz. simpl. rewrite <- (rel_fst _ _ Hl) in Hz. rewrite fmap_app, fmap_cons in Hz. simpl in Hz.
  rewrite lookup_insert_ne by set_solver. intros Hm. rewrite Ho1 in Hm.
  - eapply Hf; [|exact Hm]. rewrite <- (rel_fst _ _ HL), HL12, fmap_app. set_solver.
  - rewrite HL12, fmap_app. set_solver.
Qed.

Lemma wp_del q t l1 l2 s (Q : unit -> rb event -> Prop) :
  timers s (l1 ++ (q, t) :: l2) ->
  (forall s' n, timers s' (l1 ++ l2) -> cells s' !! q = Some n -> q ∉ sentinel :: (l1 ++ l2).*1 ->
     timer_set (data n) = false -> Q tt s') ->
  wp (ngx_rbtree_delete sentinel q) s (fun _ s1 => wp (set_timer_set false q) s1 Q).
Proof.
  intros (L & Ht & HL & Hf) HQ. apply Forall2_app_inv_r in HL as (L1 & L2' & HL1 & HL2 & ->).
  apply Forall2_cons_inv_r in HL2 as (x & L2 & (Hx & Hk & Hset & Hr) & HL2 & ->). simpl in Hx. subst q.
  pose proof (rbtree_nodup _ _ _ _ Ht) as Hnd.
  assert (Hni : x.1 ∉ sentinel :: (L1 ++ L2).*1).
  { rewrite fmap_app, fmap_cons in Hnd. rewrite fmap_app. apply NoDup_cons in Hnd as [Hs Hnd].
    apply NoDup_app in Hnd as (_ & H12 & Hnd). apply NoDup_cons in Hnd as [Hx2 _]. set_solver. }
  assert (Hfst : (L1 ++ L2).*1 = (l1 ++ l2).*1) by (rewrite !fmap_app; by rewrite (rel_fst _ _ HL1), (rel_fst _ _ HL2)).
  eapply wp_mono; [by apply wp_delete|]. intros _ s1 (Ht1 & Ho1 & cc & Hx1). eapply wp_upd; [exact Hx1|]. eapply HQ.
  - exists (L1 ++ L2). split_and!; [|by apply Forall2_app|].
    + eapply rbtree_frame; [exact Ht1|done|]. intros z Hz. simpl. apply lookup_insert_ne. set_solver.
    + intros z m Hz. simpl. destruct (decide (z = x.1)) as [->|Hzx]; [rewrite lookup_insert_eq; by intros [= <-]|].
      rewrite lookup_insert_ne by done. rewrite <- Hfst in Hz. rewrite Ho1 by set_solver. apply Hf.
      rewrite !fmap_app, fmap_cons. rewrite Hfst, fmap_app in Hz. simpl. set_solver.
  - simpl. by rewrite lookup_insert_eq.
  - by rewrite <- Hfst.
  - done.
Qed.
Lemma wp_add_timer q n timer s l :
  timers s l -> cells s !! q = Some n -> q <> sentinel -> in_range (now + timer) ->
  wp (ngx_event_add_timer sentinel (uint ptr_bits now) q timer) s (fun _ s' => timers s' (tadd q (now + timer) l)).
Proof.
  intros Ht Hq Hs Hr. unfold ngx_event_add_timer.
  assert (Hkey : uint ptr_bits (uint ptr_bits now + timer) = uint ptr_bits (now + timer))
    by (unfold uint; by rewrite Z.add_mod_idemp_l by (pose proof width_pos; lia)).
  rewrite Hkey. do 2 wp_step. unfold tadd. destruct (time_of q l) as [t'|] eqn:Et.
  - apply time_of_Some in Et as (l1 & l2 & -> & Hd). rewrite Hd. pose proof Ht as (L & HtL & HL & _).
    apply Forall2_app_inv_r in HL as (L1 & L2' & HL1 & HL2 & ->).
    apply Forall2_cons_inv_r in HL2 as (x & L2 & (Hx & Hk & Hset & Hr') & HL2 & ->). simpl in Hx, Hk, Hr'.
    destruct (rbtree_cell _ _ _ _ x HtL) as (n' & Hn' & Hlab); [set_solver|].
    rewrite Hx, Hq in Hn'. injection Hn' as <-. rewrite <- Hlab in Hk, Hset. simpl in Hk, Hset. rewrite Hset.
    do 2 wp_step. rewrite Hk, rel_diff by done.
    replace (ngx_abs (now + timer - t')) with (Z.abs (now + timer - t')).
    2:{ unfold ngx_abs. destruct (0 <=? now + timer - t') eqn:E; [lia|]. unfold in_range in *.
        rewrite sint_small by (pose proof width_pos; lia). lia. }
    destruct (Z.abs _ <? _); [by wp_step|]. unfold ngx_event_del_timer. apply wp_bind.
    apply wp_bind. eapply wp_del; [exact Ht|]. intros s1 n' Ht1 Hn' Hni Hf. apply wp_bind.
    eapply wp_outside; [exact Ht1|exact Hn'|exact Hni|done|]. intros s2 Ht2 Hn2. by eapply wp_add.
  - pose proof (time_of_None _ _ Et) as Hni. assert (Hni' : q ∉ sentinel :: l.*1) by set_solver.
    pose proof Ht as (L & _ & _ & Hf). rewrite (Hf q n Hni' Hq). apply wp_bind.
    eapply wp_outside; [exact Ht|exact Hq|exact Hni'|by apply (Hf q n)|]. intros s2 Ht2 Hn2. by eapply wp_add.
Qed.
(** The first timer, as the code finds it. *)
Lemma first_timer s e l :
  timers s (e :: l) ->
  root s <> sentinel /\ ngx_rbtree_min sentinel (root s) s = Some (e.1, s) /\ Forall (fun e' => e.2 <= e'.2) l
  /\ in_range e.2 /\ exists n, cells s !! e.1 = Some n /\ key n = uint ptr_bits e.2.
Proof.
  intros (L & Ht & HL & _). apply Forall2_cons_inv_r in HL as (x & L' & (Hx & Hk & _ & Hr) & HL & ->).
  split_and!.
  - by intros ?%(rbtree_root _ _ _ _ Ht).
  - rewrite <- Hx. eapply rbtree_min, Ht.
  - destruct Ht as (_ & _ & _ & _ & _ & _ & _ & Hs). apply sorted_cons in Hs as [_ Hs]. clear - HL Hs Hk Hr Hnow.
    induction HL as [|y e' L l (Hy & Hky & _ & Hry) HL IH]; constructor; inversion Hs; subst; [|by apply IH].
    rewrite (less_range y.2 x.2 e'.2 e.2) in * by done. lia.
  - done.
  - destruct (rbtree_cell _ _ _ _ x Ht) as (n & Hn & Hlab); [set_solver|]. rewrite <- Hx. exists n. split; [done|].
    by rewrite <- Hk, <- Hlab.
Qed.

Lemma no_timer s : timers s [] -> root s = sentinel.
Proof. intros (L & Ht & HL & _). inversion HL; subst. by apply (rbtree_root _ _ _ _ Ht). Qed.




End Spec.

(** ** Theorems *)

Section Theorems.
Import RbRep RbSpec.
Context `{Arch} (sentinel lo now : Z).

(** [ngx_event_add_timer] puts the event into the order of times, or moves it there
    if its timer was set already and would move by the lazy delay or more; the flag
    [timer_set] says for every event whether it is in the tree, and the wrapping of the
    times does not matter. *)
Theorem add_timer_refines s l q n timer :
  in_range lo now -> timers sentinel lo s l -> cells s !! q = Some n -> q <> sentinel -> in_range lo (now + timer) ->
  exists s', ngx_event_add_timer sentinel (uint ptr_bits now) q timer s = Some (tt, s')
    /\ timers sentinel lo s' (tadd q (now + timer) l).
Proof.
  intros Hnow Ht Hq Hs Hr. destruct (wp_add_timer sentinel lo now Hnow q n timer s l) as ([] & s' & E & Ht'); try done.
  by exists s'.
Qed.

(** [ngx_event_find_timer] is the time until the first timer is due, zero if it is
    already, and infinite if there is none. *)
Theorem find_timer_exact s l :
  in_range lo now -> timers sentinel lo s l ->
  ngx_event_find_timer sentinel (uint ptr_bits now) s =
  Some (match l with [] => 2 ^ ptr_bits - 1 | e :: _ => Z.max 0 (e.2 - now) end, s)
  /\ match l with [] => True | e :: l' => Forall (fun e' => e.2 <= e'.2) l' end.
Proof.
  intros Hnow Ht. pose proof width_pos as Hw. assert (Hp : 2 ^ ptr_bits = 2 * 2 ^ (ptr_bits - 1))
    by (rewrite <- Z.pow_succ_r by lia; f_equal; lia).
  unfold ngx_event_find_timer, mbind, M_bind. simpl. destruct l as [|e l].
  - rewrite (no_timer _ _ _ Ht), Z.eqb_refl. split; [|done]. unfold mret, M_ret, NGX_TIMER_INFINITE, uint. do 2 f_equal.
    rewrite <- (Z.mod_unique (-1) (2 ^ ptr_bits) (-1) (2 ^ ptr_bits - 1)); lia.
  - destruct (first_timer _ _ _ Hnow _ _ _ Ht) as (Hr & Hmin & Hle & Hrange & n & Hn & Hk). split; [|done].
    destruct (Z.eqb_spec (root s) sentinel); [done|]. rewrite Hmin. unfold rd. rewrite Hn. simpl. rewrite Hk.
    rewrite (rel_diff lo) by done. unfold mret, M_ret. do 2 f_equal. unfold in_range in *.
    rewrite uint_small; destruct (0 <? e.2 - now) eqn:E; lia.
Qed.

End Theorems.

(** ** Examples

    Three timers around the moment the 32-bit time wraps, and an event without one. *)
Section Examples.
Import RbRep.
#[local] Existing Instance ilp32.

Definition wrap : Z := 2 ^ 32.

Definition events : rb event :=
  mkRb event (list_to_map (map (fun q => (q, mkNode event 0 0 0 0 0 (mkEvent false false))) [8; 16; 32; 48; 64])) 8.

Definition clock : rb event :=
  default events (snd <$> (ngx_event_add_timer 8 (uint 32 (wrap - 1000)) 32 1050;;
                           ngx_event_add_timer 8 (uint 32 (wrap - 1000)) 16 900;;
                           ngx_event_add_timer 8 (uint 32 (wrap - 1000)) 48 4000) events).

Definition clock_timers : list (Z * Z) := [(16, wrap - 100); (32, wrap + 50); (48, wrap + 3000)].

Lemma clock_ok : timers 8 (wrap - 1000) clock clock_timers.
Proof.
  pose (el := fun q t => (q, (uint 32 t, mkEvent true false)) : Z * (Z * event)).
  exists [el 16 (wrap - 100); el 32 (wrap + 50); el 48 (wrap + 3000)]. split_and!.
  - exists 0, (T Black (T Red E (el 16 (wrap - 100)) E) (el 32 (wrap + 50)) (T Red E (el 48 (wrap + 3000)) E)), 1%nat.
    split; [split_and!|split_and!].
    + vm_compute. reflexivity.
    + vm_compute. repeat split.
    + exists (default (mkNode event 0 0 0 0 0 (mkEvent false false)) (cells clock !! 8)). split; vm_compute; reflexivity.
    + vm_compute. by apply (bool_decide_unpack _).
    + reflexivity.
    + repeat constructor.
    + reflexivity.
    + repeat constructor; vm_compute; reflexivity.
  - repeat constructor; vm_compute; congruence.
  - intros q n Hq Hn.
    assert (Hall : map_Forall (fun q n => q ∈ [8; 16; 32; 48] \/ timer_set (data n) = false) (cells clock))
      by (apply (bool_decide_unpack _); by vm_compute).
    destruct (Hall q n Hn) as [Hin|Hf]; [|exact Hf]. exfalso. exact (Hq Hin).
Qed.

Lemma add_timer_refines_witness :
  exists s', ngx_event_add_timer 8 (uint 32 (wrap + 100)) 16 2000 clock = Some (tt, s')
    /\ timers 8 (wrap - 1000) s' [(32, wrap + 50); (16, wrap + 2100); (48, wrap + 3000)].
Proof.
  refine (add_timer_refines 8 (wrap - 1000) (wrap + 100) clock clock_timers 16 _ 2000 _ clock_ok _ _ _);
    [by vm_compute|by vm_compute|done|by vm_compute].
Defined.

Lemma find_timer_exact_witness :
  ngx_event_find_timer 8 (uint 32 (wrap - 300)) clock = Some (200, clock)
  /\ Forall (fun e' => wrap - 100 <= e'.2) [(32, wrap + 50); (48, wrap + 3000)].
Proof.
  refine (find_timer_exact 8 (wrap - 1000) (wrap - 300) clock clock_timers _ clock_ok). by vm_compute.
Defined.



End Examples.

End Timers.
