(* ===== verification/NgxQueue.v ===== *)
(** * Queues

    The doubly linked queues of src/nginx-1.7.2/src/core/ngx_queue.h and ngx_queue.c:
    a ring of links embedded in the structures of the callers, one of which is the
    header.  The code runs on a heap of links; a queue is a list of their addresses, and
    every operation is the operation on lists it stands for. *)

From stdpp Require Import gmap fin_maps.
From S2P Require Import Prelude.

Module Queue.

(** [ngx_queue_t] *)
Record link := mkLink { prev : Z; next : Z }.

Abbreviation heap := (gmap Z link).

(** ** The monad: the failure is the dereference of a bad pointer *)

Definition M (X : Type) : Type := heap -> option (X * heap).

#[export] Instance M_ret : MRet M := fun X x m => Some (x, m).
#[export] Instance M_bind : MBind M := fun X Y f k m =>
  match k m with Some (x, m') => f x m' | None => None end.

Definition no_fuel {X} : M X := fun _ => None.

Definition get_prev (p : Z) : M Z := fun m => n ← m !! p; Some (prev n, m).
Definition get_next (p : Z) : M Z := fun m => n ← m !! p; Some (next n, m).
Definition set_prev (p q : Z) : M unit := fun m => n ← m !! p; Some (tt, <[p := mkLink q (next n)]> m).
Definition set_next (p q : Z) : M unit := fun m => n ← m !! p; Some (tt, <[p := mkLink (prev n) q]> m).

(** A loop over a queue visits each link of the heap at most once. *)
Definition loop_fuel : M nat := fun m => Some (S (size m), m).

(** ** The macros *)

Definition ngx_queue_init (q : Z) : M unit := set_prev q q;; set_next q q.

Definition ngx_queue_empty (h : Z) : M bool := p ← get_prev h; mret (h =? p).

Definition ngx_queue_insert_head (h x : Z) : M unit :=
  hn ← get_next h; set_next x hn;;
  xn ← get_next x; set_prev xn x;;
  set_prev x h;;
  set_next h x.

Definition ngx_queue_insert_after : Z -> Z -> M unit := ngx_queue_insert_head.

Definition ngx_queue_insert_tail (h x : Z) : M unit :=
  hp ← get_prev h; set_prev x hp;;
  xp ← get_prev x; set_next xp x;;
  set_next x h;;
  set_prev h x.

Definition ngx_queue_head (h : Z) : M Z := get_next h.
Definition ngx_queue_last (h : Z) : M Z := get_prev h.
Definition ngx_queue_sentinel (h : Z) : Z := h.
Definition ngx_queue_next (q : Z) : M Z := get_next q.
Definition ngx_queue_prev (q : Z) : M Z := get_prev q.

(** [NGX_DEBUG] clears the links of the element that leaves. *)
Definition ngx_queue_remove (debug : bool) (x : Z) : M unit :=
  xn ← get_next x; xp ← get_prev x; set_prev xn xp;;
  xp ← get_prev x; xn ← get_next x; set_next xp xn;;
  if debug then set_prev x 0;; set_next x 0 else mret tt.

Definition ngx_queue_split (h q n : Z) : M unit :=
  hp ← get_prev h; set_prev n hp;;
  np ← get_prev n; set_next np n;;
  set_next n q;;
  qp ← get_prev q; set_prev h qp;;
  hp ← get_prev h; set_next hp h;;
  set_prev q n.

Definition ngx_queue_add (h n : Z) : M unit :=
  hp ← get_prev h; nn ← get_next n; set_next hp nn;;
  nn ← get_next n; hp ← get_prev h; set_prev nn hp;;
  np ← get_prev n; set_prev h np;;
  hp ← get_prev h; set_next hp h.

(** ** ngx_queue.c *)

Fixpoint middle_loop (fuel : nat) (queue middle next : Z) : M Z :=
  match fuel with
  | O => no_fuel
  | S fuel' =>
      middle ← ngx_queue_next middle;
      next ← ngx_queue_next next;
      last ← ngx_queue_last queue;
      if next =? last then mret middle
      else
        next ← ngx_queue_next next;
        last ← ngx_queue_last queue;
        if next =? last then mret middle
        else middle_loop fuel' queue middle next
  end.

Definition ngx_queue_middle (queue : Z) : M Z :=
  middle ← ngx_queue_head queue;
  last ← ngx_queue_last queue;
  if middle =? last then mret middle
  else
    next ← ngx_queue_head queue;
    fuel ← loop_fuel;
    middle_loop fuel queue middle next.

Section Sorting.
Variables (debug : bool) (cmp : Z -> Z -> Z).

(** The do loop that looks for the place of [q]. *)
Fixpoint place_loop (fuel : nat) (queue q prev : Z) : M Z :=
  match fuel with
  | O => no_fuel
  | S fuel' =>
      if cmp prev q <=? 0 then mret prev
      else
        prev ← ngx_queue_prev prev;
        if prev =? ngx_queue_sentinel queue then mret prev else place_loop fuel' queue q prev
  end.

Fixpoint sort_loop (fuel : nat) (queue q : Z) : M unit :=
  match fuel with
  | O => no_fuel
  | S fuel' =>
      if q =? ngx_queue_sentinel queue then mret tt
      else
        prev ← ngx_queue_prev q;
        next ← ngx_queue_next q;
        ngx_queue_remove debug q;;
        n ← loop_fuel;
        prev ← place_loop n queue q prev;
        ngx_queue_insert_after prev q;;
        sort_loop fuel' queue next
  end.

Definition ngx_queue_sort (queue : Z) : M unit :=
  q ← ngx_queue_head queue;
  last ← ngx_queue_last queue;
  if q =? last then mret tt
  else
    q ← ngx_queue_next q;
    fuel ← loop_fuel;
    sort_loop fuel queue q.
End Sorting.

(** ** Weakest preconditions *)

Definition wp {X} (k : M X) (m : heap) (Q : X -> heap -> Prop) : Prop :=
  exists x m', k m = Some (x, m') /\ Q x m'.

Definition nxt (m : heap) (p : Z) : option Z := next <$> m !! p.
Definition prv (m : heap) (p : Z) : option Z := prev <$> m !! p.

(** What a write changes. *)
Record wrote_next (p q : Z) (m m' : heap) : Prop := {
  wn_next z : nxt m' z = if z =? p then Some q else nxt m z;
  wn_prev z : prv m' z = prv m z;
  wn_else z : z <> p -> m' !! z = m !! z;
  wn_dom : dom m' = dom m
}.

Record wrote_prev (p q : Z) (m m' : heap) : Prop := {
  wv_prev z : prv m' z = if z =? p then Some q else prv m z;
  wv_next z : nxt m' z = nxt m z;
  wv_else z : z <> p -> m' !! z = m !! z;
  wv_dom : dom m' = dom m
}.

Lemma qwp_bind {X Y} (k : M X) (f : X -> M Y) m Q :
  wp k m (fun x m' => wp (f x) m' Q) -> wp (k ≫= f) m Q.
Proof.
  intros (x & m1 & Ek & y & m2 & Ef & HQ). exists y, m2. split; [|done]. unfold mbind, M_bind. by rewrite Ek.
Qed.

Lemma qwp_mono {X} (k : M X) m (Q Q' : X -> heap -> Prop) :
  wp k m Q -> (forall x m', Q x m' -> Q' x m') -> wp k m Q'.
Proof. intros (x & m1 & Ek & HQ) HQQ. exists x, m1. eauto. Qed.

Lemma qwp_ret {X} (x : X) m (Q : X -> heap -> Prop) : Q x m -> wp (mret x) m Q.
Proof. intros HQ. by exists x, m. Qed.

Lemma qwp_loop_fuel m (Q : nat -> heap -> Prop) : Q (S (size m)) m -> wp loop_fuel m Q.
Proof. intros HQ. by eexists _, _. Qed.

Lemma qwp_get_prev p q m (Q : Z -> heap -> Prop) : prv m p = Some q -> Q q m -> wp (get_prev p) m Q.
Proof.
  unfold prv. intros (n & Hn & ->)%fmap_Some HQ. exists (prev n), m. split; [|done]. unfold get_prev. by rewrite Hn.
Qed.

Lemma qwp_get_next p q m (Q : Z -> heap -> Prop) : nxt m p = Some q -> Q q m -> wp (get_next p) m Q.
Proof.
  unfold nxt. intros (n & Hn & ->)%fmap_Some HQ. exists (next n), m. split; [|done]. unfold get_next. by rewrite Hn.
Qed.

Lemma dom_upd (m : heap) p n n' : m !! p = Some n -> dom (<[p := n']> m) = dom m.
Proof. intros Hp. rewrite dom_insert_L. apply elem_of_dom_2 in Hp. set_solver. Qed.

Lemma qwp_set_next p q m (Q : unit -> heap -> Prop) :
  p ∈ dom m -> (forall m', wrote_next p q m m' -> Q tt m') -> wp (set_next p q) m Q.
Proof.
  intros [n Hn]%elem_of_dom HQ. eexists _, _. split; [unfold set_next; rewrite Hn; reflexivity|]. apply HQ.
  split; [| | |by eapply dom_upd]; intros z; unfold nxt, prv.
  - destruct (Z.eqb_spec z p) as [->|]; [by rewrite lookup_insert_eq|by rewrite lookup_insert_ne].
  - destruct (decide (z = p)) as [->|]; [by rewrite lookup_insert_eq, Hn|by rewrite lookup_insert_ne].
  - intros. by rewrite lookup_insert_ne.
Qed.

Lemma qwp_set_prev p q m (Q : unit -> heap -> Prop) :
  p ∈ dom m -> (forall m', wrote_prev p q m m' -> Q tt m') -> wp (set_prev p q) m Q.
Proof.
  intros [n Hn]%elem_of_dom HQ. eexists _, _. split; [unfold set_prev; rewrite Hn; reflexivity|]. apply HQ.
  split; [| | |by eapply dom_upd]; intros z; unfold nxt, prv.
  - destruct (Z.eqb_spec z p) as [->|]; [by rewrite lookup_insert_eq|by rewrite lookup_insert_ne].
  - destruct (decide (z = p)) as [->|]; [by rewrite lookup_insert_eq, Hn|by rewrite lookup_insert_ne].
  - intros. by rewrite lookup_insert_ne.
Qed.

Lemma nxt_dom m p q : nxt m p = Some q -> p ∈ dom m.
Proof. unfold nxt. intros (n & Hn & _)%fmap_Some. by eapply elem_of_dom_2. Qed.

Lemma prv_dom m p q : prv m p = Some q -> p ∈ dom m.
Proof. unfold prv. intros (n & Hn & _)%fmap_Some. by eapply elem_of_dom_2. Qed.

(** ** Rings *)

Definition linked (m : heap) (a b : Z) : Prop := nxt m a = Some b /\ prv m b = Some a.

Fixpoint chain (m : heap) (l : list Z) : Prop :=
  match l with
  | a :: (b :: _) as l' => linked m a b /\ chain m l'
  | _ => True
  end.

(** The links of [c], in a circle. *)
Definition ring (m : heap) (c : list Z) : Prop := NoDup c /\ chain m (c ++ take 1 c).

(** The queue with the header [h] and the elements [l]. *)
Definition is_queue (m : heap) (h : Z) (l : list Z) : Prop := ring m (h :: l).

Lemma chain_app m l1 x l2 : chain m (l1 ++ x :: l2) <-> chain m (l1 ++ [x]) /\ chain m (x :: l2).
Proof.
  induction l1 as [|a l1 IH]; [simpl; tauto|]. destruct l1 as [|b l1]; simpl in *; [tauto|]. rewrite IH. tauto.
Qed.

Lemma chain_frame m m' l :
  (forall z, z ∈ removelast l -> nxt m' z = nxt m z) -> (forall z, z ∈ tail l -> prv m' z = prv m z) ->
  chain m l -> chain m' l.
Proof.
  induction l as [|a [|b l] IH]; intros Hn Hp; [done..|]. intros [[H1 H2] Hc]. split.
  - split; [rewrite Hn; [done|by left]|rewrite Hp; [done|by left]].
  - apply IH; [| |done]; intros z Hz; [apply Hn; by right|apply Hp; by right].
Qed.

Lemma ring_rotate m a b : ring m (a ++ b) -> ring m (b ++ a).
Proof.
  intros [Hnd Hc]. split; [by rewrite (Permutation_app_comm b a)|].
  destruct a as [|x a]; [by rewrite !app_nil_r|]. destruct b as [|y b]; [by rewrite app_nil_r in Hc|].
  simpl in *. rewrite <- app_assoc in *. simpl in *.
  apply (chain_app m (x :: a)) in Hc as [H1 H2]. apply (chain_app m (y :: b)). done.
Qed.

Lemma ring_cons m x c :
  ring m (x :: c) <-> NoDup (x :: c) /\ chain m (x :: c ++ [x]).
Proof. done. Qed.

(** The neighbours of the first link. *)
Lemma ring_next m x c : ring m (x :: c) -> exists y k, c ++ [x] = y :: k /\ linked m x y /\ chain m (y :: k).
Proof.
  intros [_ Hc]. change (chain m (x :: c ++ [x])) in Hc.
  destruct (c ++ [x]) as [|y k] eqn:E; [by destruct c|]. destruct Hc as [Hl Hc].
  by exists y, k.
Qed.

Lemma ring_prev m x c : ring m (x :: c) -> exists k p, x :: c = k ++ [p] /\ linked m p x /\ chain m (k ++ [p]).
Proof.
  intros [_ Hc]. destruct (exists_last (l := x :: c)) as (k & p & E); [done|]. exists k, p. split; [done|].
  change (chain m ((x :: c) ++ [x])) in Hc. rewrite E, <- app_assoc in Hc. simpl in Hc.
  apply chain_app in Hc as [H1 [H2 _]]. done.
Qed.

Lemma ring_dom m c z : ring m c -> z ∈ c -> z ∈ dom m.
Proof.
  intros Hr Hz. apply list_elem_of_split in Hz as (a & b & ->). apply ring_rotate in Hr. simpl in Hr.
  apply ring_next in Hr as (y & k & _ & [Hn _] & _). by eapply nxt_dom.
Qed.

(** Only the links of a ring matter to it. *)
Lemma ring_frame m m' c : (forall z, z ∈ c -> m' !! z = m !! z) -> ring m c -> ring m' c.
Proof.
  intros Hz [Hnd Hc]. split; [done|]. eapply chain_frame; [| |exact Hc]; intros z Hin; unfold nxt, prv; rewrite Hz; try done.
  - destruct c as [|x c]; [by apply elem_of_nil in Hin|]. simpl take in Hin. rewrite removelast_last in Hin. done.
  - destruct c as [|x c]; [by apply elem_of_nil in Hin|]. simpl in Hin. set_solver.
Qed.

(** Nothing but the links of [l] has changed. *)
Definition only (l : list Z) (m m' : heap) : Prop :=
  dom m' = dom m /\ forall z, z ∉ l -> m' !! z = m !! z.

Lemma only_trans l m1 m2 m3 : only l m1 m2 -> only l m2 m3 -> only l m1 m3.
Proof. intros [D1 H1] [D2 H2]. split; [congruence|]. intros z Hz. by rewrite H2, H1. Qed.

Lemma only_weaken l l' m m' : only l m m' -> l ⊆ l' -> only l' m m'.
Proof. intros [D Hz] Hl. split; [done|]. intros z Hn. apply Hz. set_solver. Qed.

Lemma ring_only l m m' c : only l m m' -> (forall z, z ∈ c -> z ∉ l) -> ring m c -> ring m' c.
Proof. intros [_ Hz] Hl. apply ring_frame. intros z Hc. by apply Hz, Hl. Qed.

(** Links and domains after writes. *)
Ltac q_norm :=
  repeat match goal with
  | W : wrote_next _ _ _ ?m |- context [nxt ?m ?z] => rewrite (wn_next _ _ _ _ W z)
  | W : wrote_next _ _ _ ?m |- context [prv ?m ?z] => rewrite (wn_prev _ _ _ _ W z)
  | W : wrote_prev _ _ _ ?m |- context [prv ?m ?z] => rewrite (wv_prev _ _ _ _ W z)
  | W : wrote_prev _ _ _ ?m |- context [nxt ?m ?z] => rewrite (wv_next _ _ _ _ W z)
  | W : wrote_next _ _ _ ?m |- context [dom ?m] => rewrite (wn_dom _ _ _ _ W)
  | W : wrote_prev _ _ _ ?m |- context [dom ?m] => rewrite (wv_dom _ _ _ _ W)
  end.

Ltac q_look :=
  q_norm;
  repeat first
    [ rewrite Z.eqb_refl
    | match goal with |- context [?a =? ?b] => rewrite (proj2 (Z.eqb_neq a b)) by congruence end ];
  first [reflexivity | eassumption].

Ltac q_step :=
  first
    [ apply qwp_bind
    | apply qwp_ret
    | eapply qwp_get_next; [q_look|]
    | eapply qwp_get_prev; [q_look|]
    | eapply qwp_set_next; [q_norm; eassumption|intros ? ?]
    | eapply qwp_set_prev; [q_norm; eassumption|intros ? ?] ].

(** What is left after a run: links, frames and what has not changed. *)
Ltac q_cases := q_norm; repeat (case Z.eqb_spec; intros ?); subst; try congruence; try contradiction.

(** [z] is not one of the links written; only the places of those matter. *)
Ltac q_apart Hz :=
  let He := fresh in
  intros He; subst; apply Hz; clear Hz;
  repeat match goal with
  | H : ?P |- _ => lazymatch P with _ ∈ dom _ => clear H | _ ∈ _ => fail | _ => clear H end
  end; set_solver.

Ltac q_only :=
  split;
  [ by q_norm
  | let z := fresh "z" in let Hz := fresh "Hz" in
    intros z Hz;
    repeat match goal with
    | W : wrote_next _ _ _ ?m |- context [?m !! _] => rewrite (wn_else _ _ _ _ W) by (q_apart Hz)
    | W : wrote_prev _ _ _ ?m |- context [?m !! _] => rewrite (wv_else _ _ _ _ W) by (q_apart Hz)
    end; reflexivity ].

(** A chain [H] the writes did not touch; [E] is the list of its links with a successor. *)
Ltac q_chain E H :=
  refine (chain_frame _ _ _ _ _ H);
  [let z := fresh "z" in intros z; rewrite E; intros ?; q_cases | cbn [tail]; intros ? ?; q_cases].

Lemma qwp_queue_init q m : q ∈ dom m -> wp (ngx_queue_init q) m (fun _ m' => is_queue m' q [] /\ only [q] m m').
Proof.
  intros Hq. unfold ngx_queue_init. repeat q_step. split; [|q_only].
  split; [apply NoDup_singleton|]. simpl. split; [|done]. split; q_cases.
Qed.

Lemma qwp_insert_head h x c m :
  ring m (h :: c) -> x ∈ dom m -> x ∉ h :: c ->
  wp (ngx_queue_insert_head h x) m (fun _ m' => ring m' (h :: x :: c) /\ only (x :: h :: c) m m').
Proof.
  intros Hr Hx Hni. pose proof Hr as [Hnd _]. pose proof (ring_dom _ _ h Hr ltac:(set_solver)) as Hh.
  destruct (ring_next _ _ _ Hr) as (y & k & E & [Hn Hp] & Hc).
  assert (Hy : y ∈ h :: c) by (assert (y ∈ c ++ [h]) by (rewrite E; by left); set_solver).
  pose proof (ring_dom _ _ y Hr Hy) as Hyd.
  assert (Hnd' : NoDup (y :: k)) by (rewrite <- E; by rewrite <- Permutation_cons_append).
  assert (Hyk : y ∉ k) by (by apply NoDup_cons in Hnd' as [??]).
  assert (Hxy : x <> y) by set_solver. assert (Hxh : x <> h) by set_solver. assert (Hxc : x ∉ c) by set_solver.
  unfold ngx_queue_insert_head. repeat q_step. split; [|q_only].
  apply NoDup_cons in Hnd as [??]. apply ring_cons. split; [repeat apply NoDup_cons_2; set_solver|].
  assert (Erl : removelast (y :: k) = c) by (by rewrite <- E, removelast_last).
  assert (Hxk : x ∉ k) by (assert (x ∉ c ++ [h]) by set_solver; rewrite E in *; set_solver).
  simpl app. rewrite E. do 2 (split; [split; q_cases|]). q_chain Erl Hc.
Qed.

Lemma qwp_insert_tail h x c m :
  ring m (h :: c) -> x ∈ dom m -> x ∉ h :: c ->
  wp (ngx_queue_insert_tail h x) m (fun _ m' => ring m' (h :: c ++ [x]) /\ only (x :: h :: c) m m').
Proof.
  intros Hr Hx Hni. pose proof Hr as [Hnd _]. pose proof (ring_dom _ _ h Hr ltac:(set_solver)) as Hh.
  destruct (ring_prev _ _ _ Hr) as (k & p & E & [Hn Hp] & Hc).
  assert (Hy : p ∈ h :: c) by (rewrite E; set_solver). pose proof (ring_dom _ _ p Hr Hy) as Hyd.
  assert (Hpk : p ∉ k) by (rewrite E in Hnd; apply NoDup_app in Hnd; set_solver).
  assert (Hxp : x <> p) by set_solver. assert (Hxh : x <> h) by set_solver. assert (Hxc : x ∉ c) by set_solver. assert (Hxk : x ∉ k) by (rewrite E in Hni; set_solver).
  unfold ngx_queue_insert_tail. repeat q_step. split; [|q_only].
  apply NoDup_cons in Hnd as [??]. apply (ring_rotate _ [x] (h :: c)). apply ring_cons.
  split; [repeat apply NoDup_cons_2; set_solver|].
  assert (Erl : removelast (h :: c) = k) by (by rewrite E, removelast_last). rewrite <- E in Hc.
  change (x :: (h :: c) ++ [x]) with ((x :: h :: c) ++ [x]). rewrite E. rewrite app_comm_cons, <- app_assoc. apply chain_app.
  split; [rewrite <- app_comm_cons, <- E|split; [split; q_cases|done]]. split; [split; q_cases|]. q_chain Erl Hc.
Qed.

Lemma qwp_remove debug x c m :
  ring m (x :: c) -> c <> [] ->
  wp (ngx_queue_remove debug x) m (fun _ m' => ring m' c /\ only (x :: c) m m').
Proof.
  intros Hr Hne. pose proof Hr as [Hnd _]. pose proof (ring_dom _ _ x Hr ltac:(set_solver)) as Hx.
  destruct (ring_next _ _ _ Hr) as (y & k & E & [Hn Hp] & Hc).
  destruct (ring_prev _ _ _ Hr) as (k' & p & E' & [Hn' Hp'] & _).
  destruct c as [|y' c]; [done|]. simpl in E. injection E as -> <-. clear Hne.
  apply NoDup_cons in Hnd as [Hxc Hnd]. pose proof Hnd as [Hyc _]%NoDup_cons.
  assert (Hlast : exists j, y :: c = j ++ [p]) by (destruct k' as [|? k']; simpl in E'; simplify_eq; eauto).
  destruct Hlast as [j Ej]. assert (Hpin : p ∈ y :: c) by (rewrite Ej; set_solver).
  assert (Hxp : x <> p) by set_solver. assert (Hxy : x <> y) by set_solver.
  pose proof (ring_dom _ _ y Hr ltac:(set_solver)) as Hyd. pose proof (ring_dom _ _ p Hr ltac:(set_solver)) as Hpd.
  unfold ngx_queue_remove.
  change (y :: c ++ [x]) with ((y :: c) ++ [x]) in Hc. rewrite Ej, <- app_assoc in Hc.
  apply chain_app in Hc as [Hc _]. rewrite <- Ej in Hc.
  assert (Erl : removelast (y :: c) = j) by (by rewrite Ej, removelast_last).
  assert (Hpj : p ∉ j) by (rewrite Ej in Hnd; apply NoDup_app in Hnd; set_solver).
  assert (Hj : x ∉ j) by (rewrite Ej in Hxc; set_solver).
  assert (Hdone : forall m', (forall z, z ∈ y :: c -> nxt m' z = if z =? p then Some y else nxt m z) ->
    (forall z, z ∈ y :: c -> prv m' z = if z =? y then Some p else prv m z) -> ring m' (y :: c)).
  { intros m' Hn1 Hp1. split; [done|]. change ((y :: c) ++ take 1 (y :: c)) with ((y :: c) ++ [y]). rewrite Ej, <- app_assoc.
    apply chain_app. split.
    - rewrite <- Ej. refine (chain_frame _ _ _ _ _ Hc); intros z Hz.
      + rewrite Erl in Hz. rewrite Hn1 by (rewrite Ej; set_solver). q_cases.
      + simpl in Hz. rewrite Hp1 by set_solver. q_cases.
    - split; [|done]. split; [rewrite Hn1 by set_solver|rewrite Hp1 by set_solver]; by rewrite Z.eqb_refl. }
  destruct debug; repeat q_step; (split; [apply Hdone; intros z Hz; q_cases|q_only]).
Qed.

Lemma not_in_init (x p : Z) l j : l = j ++ [p] -> x ∉ l -> x ∉ j.
Proof. intros -> Hx. set_solver. Qed.

Lemma not_in_tail (x y : Z) l : x ∉ y :: l -> x ∉ l.
Proof. set_solver. Qed.

Lemma not_in_both (x : Z) (l k : list Z) : (forall z, z ∈ l -> z ∉ k) -> x ∈ k -> x ∉ l.
Proof. intros Hlk Hk Hl. by apply (Hlk x). Qed.

Lemma last_not_init (p : Z) l j : l = j ++ [p] -> NoDup l -> p ∉ j.
Proof. intros -> Hnd. apply NoDup_app in Hnd as (_ & H & _). intros Hp. apply (H _ Hp). by left. Qed.

(** A circle is a chain that is closed. *)
Lemma ring_close m k p x c : x :: c = k ++ [p] -> NoDup (x :: c) -> chain m (x :: c) -> linked m p x -> ring m (x :: c).
Proof.
  intros E Hnd Hc Hl. split; [done|]. change (chain m ((x :: c) ++ [x])). rewrite E, <- app_assoc. apply chain_app.
  rewrite <- E. split; [done|]. by split.
Qed.

Lemma qwp_split h a q b n m :
  ring m (h :: a ++ q :: b) -> n ∈ dom m -> n ∉ h :: a ++ q :: b ->
  wp (ngx_queue_split h q n) m (fun _ m' =>
    ring m' (h :: a) /\ ring m' (n :: q :: b) /\ only (n :: h :: a ++ q :: b) m m').
Proof.
  intros Hr Hn Hni. pose proof Hr as [Hnd Hc]. simpl in Hc.
  destruct (exists_last (l := h :: a)) as (ja & s & Ea); [done|].
  destruct (exists_last (l := q :: b)) as (jb & t & Eb); [done|].
  assert (Hpa : chain m (h :: a) /\ linked m s q /\ chain m (q :: b) /\ linked m t h).
  { change (chain m ((h :: a ++ q :: b) ++ [h])) in Hc. change (h :: a ++ q :: b) with ((h :: a) ++ q :: b) in Hc.
    rewrite Ea, <- !app_assoc in Hc. simpl in Hc. apply chain_app in Hc as [H1 [H2 H3]]. rewrite <- Ea in H1.
    change (chain m ((q :: b) ++ [h])) in H3. rewrite Eb, <- app_assoc in H3. apply chain_app in H3 as [H3 [H4 _]].
    by rewrite <- Eb in H3. }
  destruct Hpa as (Ca & [N1 P1] & Cb & [N2 P2]).
  change (h :: a ++ q :: b) with ((h :: a) ++ q :: b) in Hnd, Hni, Hr.
  apply NoDup_app in Hnd as (Hda & Hab & Hdb). apply not_elem_of_app in Hni as [Hna Hnb].
  assert (Hs : s ∈ h :: a) by (rewrite Ea; set_solver). assert (Ht : t ∈ q :: b) by (rewrite Eb; set_solver).
  assert (Hsj : s ∉ ja) by (rewrite Ea in Hda; apply NoDup_app in Hda; set_solver).
  assert (Htj : t ∉ jb) by (rewrite Eb in Hdb; apply NoDup_app in Hdb; set_solver).
  assert (Era : removelast (h :: a) = ja) by (by rewrite Ea, removelast_last).
  assert (Erb : removelast (q :: b) = jb) by (by rewrite Eb, removelast_last).
  assert (Hqa : q ∉ h :: a) by (eapply not_in_both; [exact Hab|by left]).
  assert (Hta : t ∉ h :: a) by (by eapply not_in_both). 
  assert (Hsb : s ∉ q :: b) by (by apply Hab). assert (Hhb : h ∉ q :: b) by (apply Hab; by left).
  assert (F1 : n ∉ ja /\ t ∉ ja /\ n ∉ jb /\ s ∉ jb) by (split_and!; eauto using not_in_init). destruct F1 as (?&?&?&?).
  assert (F2 : n ∉ a /\ q ∉ a /\ n ∉ b /\ h ∉ b) by (split_and!; eauto using not_in_tail). destruct F2 as (?&?&?&?).
  pose proof (ring_dom _ _ h Hr ltac:(set_solver)) as Hhd. pose proof (ring_dom _ _ q Hr ltac:(set_solver)) as Hqd.
  pose proof (ring_dom _ _ s Hr ltac:(set_solver)) as Hsd. pose proof (ring_dom _ _ t Hr ltac:(set_solver)) as Htd.
  assert (Hqh : q <> h) by (intros ->; apply (Hab h); set_solver).
  assert (Hqn : q <> n) by set_solver. assert (Hhn : h <> n) by set_solver.
  assert (Hst : s <> t) by (intros ->; by apply (Hab t)). assert (Hsn : s <> n) by set_solver. assert (Htn : t <> n) by set_solver.
  assert (Hha : h ∉ a) by (by apply NoDup_cons in Hda as [??]). assert (Hqb : q ∉ b) by (by apply NoDup_cons in Hdb as [??]).
  unfold ngx_queue_split. repeat q_step. split_and!; [| |q_only].
  - eapply ring_close; [exact Ea|done| |split; q_cases]. q_chain Era Ca.
  - apply (ring_close _ (n :: jb) t); [by rewrite Eb|constructor; set_solver| |split; q_cases].
    split; [split; q_cases|]. q_chain Erb Cb.
Qed.

Lemma qwp_add h a n b m :
  ring m (h :: a) -> ring m (n :: b) -> (forall z, z ∈ h :: a -> z ∉ n :: b) ->
  wp (ngx_queue_add h n) m (fun _ m' => ring m' (h :: a ++ b) /\ only (h :: a ++ n :: b) m m').
Proof.
  intros Hr Hr' Hab. pose proof Hr as [Hda _]. pose proof Hr' as [Hdb _].
  destruct (ring_prev _ _ _ Hr) as (ja & s & Ea & [N1 P1] & Ca). rewrite <- Ea in Ca.
  destruct (ring_prev _ _ _ Hr') as (jb & t & Eb & [N2 P2] & Cb). rewrite <- Eb in Cb.
  assert (Hs : s ∈ h :: a) by (rewrite Ea; set_solver). assert (Ht : t ∈ n :: b) by (rewrite Eb; set_solver).
  assert (Era : removelast (h :: a) = ja) by (by rewrite Ea, removelast_last).
  assert (Hsj : s ∉ ja) by (by eapply last_not_init).
  assert (Hha : h ∉ a) by (by apply NoDup_cons in Hda as [??]). assert (Hnb : n ∉ b) by (by apply NoDup_cons in Hdb as [??]).
  pose proof (ring_dom _ _ h Hr ltac:(set_solver)) as Hhd. pose proof (ring_dom _ _ s Hr ltac:(set_solver)) as Hsd.
  pose proof (ring_dom _ _ n Hr' ltac:(set_solver)) as Hnd. pose proof (ring_dom _ _ t Hr' ltac:(set_solver)) as Htd.
  assert (Hna : n ∉ h :: a) by (eapply not_in_both; [exact Hab|by left]).
  assert (Hta : t ∉ h :: a) by (by eapply not_in_both).
  assert (Hsb : s ∉ n :: b) by (by apply Hab). assert (Hhb : h ∉ n :: b) by (apply Hab; by left).
  assert (Hsn : n <> s) by set_solver. assert (Hhn : n <> h) by set_solver. assert (Hst : t <> s) by set_solver.
  assert (F1 : n ∉ ja /\ t ∉ ja) by (split_and!; eauto using not_in_init). destruct F1 as (?&?). 
  assert (F2 : n ∉ a /\ s ∉ b /\ h ∉ b) by (split_and!; eauto using not_in_tail). destruct F2 as (?&?&?).
  unfold ngx_queue_add. destruct b as [|y b].
  { destruct jb as [|? jb]; simpl in Eb; [|by destruct jb]. injection Eb as <-. repeat q_step. split; [|q_only].
    rewrite app_nil_r. eapply ring_close; [exact Ea|done| |split; q_cases]. q_chain Era Ca. }
  destruct jb as [|? jb]; simpl in Eb; [done|]. injection Eb as <- Eb. destruct Cb as [[N3 P3] Cb].
  assert (Ht' : t ∈ y :: b) by (rewrite Eb; set_solver). assert (Hyd : y ∈ dom m) by (by eapply prv_dom).
  assert (Erb : removelast (y :: b) = jb) by (by rewrite Eb, removelast_last).
  apply NoDup_cons in Hdb as [_ Hdb]. assert (Htj : t ∉ jb) by (by eapply last_not_init).
  assert (Hya : y ∉ h :: a) by (eapply not_in_both; [exact Hab|right; by left]).
  assert (Hyb : y ∉ b) by (by apply NoDup_cons in Hdb as [??]).
  assert (F3 : n ∉ jb /\ s ∉ jb /\ h ∉ b /\ y ∉ a) by (split_and!; eauto using not_in_init, not_in_tail). destruct F3 as (?&?&?&?).
  assert (Hyn : n <> y) by set_solver. assert (Hhy : h <> y) by set_solver.
  assert (Hsy : s <> y) by set_solver. assert (Htn : t <> n) by set_solver.
  repeat q_step. split; [|q_only].
  apply (ring_close _ (h :: a ++ jb) t); [simpl; by rewrite Eb, <- app_assoc| | |split; q_cases].
  - change (NoDup ((h :: a) ++ y :: b)). apply NoDup_app. split_and!; [done| |done]. intros z Hz. by apply Hab in Hz as ?%not_in_tail.
  - change (h :: a ++ y :: b) with ((h :: a) ++ y :: b). rewrite Ea, <- app_assoc. apply chain_app. rewrite <- Ea.
    split; [q_chain Era Ca|]. split; [split; q_cases|]. q_chain Erb Cb.
Qed.

End Queue.
