(* ===== verification/NgxQueueSpec.v ===== *)
(** * Queues: what they promise

    The walks over the queues of ngx_queue.c and the theorems about every operation, as
    operations on lists of addresses. *)

From stdpp Require Import gmap fin_maps.
From S2P Require Import Prelude NgxSort NgxQueue.

Module QueueSpec.
Import Queue.

(** ** Walks *)

Lemma chain_lookup m l i a b : chain m l -> l !! i = Some a -> l !! S i = Some b -> linked m a b.
Proof.
  revert i. induction l as [|x [|y l] IH]; intros i Hc Ha Hb; [done|by destruct i|]. destruct Hc as [Hl Hc].
  destruct i as [|i]; simpl in *; [by simplify_eq|]. by apply (IH i).
Qed.

Lemma queue_next m h c i a b : ring m (h :: c) -> c !! i = Some a -> (c ++ [h]) !! S i = Some b -> nxt m a = Some b.
Proof.
  intros [_ Hc] Ha Hb. apply (chain_lookup m (h :: c ++ [h]) (S i)); [done| |done]. simpl. by apply lookup_app_l_Some.
Qed.

Lemma queue_prev m h c i a b : ring m (h :: c) -> (h :: c) !! i = Some a -> c !! i = Some b -> prv m b = Some a.
Proof.
  intros [_ Hc] Ha Hb. apply (chain_lookup m (h :: c ++ [h]) i); [done| |].
  - change (h :: c ++ [h]) with ((h :: c) ++ [h]). by apply lookup_app_l_Some.
  - simpl. by apply lookup_app_l_Some.
Qed.

Lemma queue_head m h c b : ring m (h :: c) -> (c ++ [h]) !! O = Some b -> nxt m h = Some b.
Proof. intros [_ Hc] Hb. by apply (chain_lookup m (h :: c ++ [h]) 0). Qed.

Lemma queue_last m h c a : ring m (h :: c) -> (h :: c) !! length c = Some a -> prv m h = Some a.
Proof.
  intros [_ Hc] Ha. apply (chain_lookup m ((h :: c) ++ [h]) (length c)); [done|by apply lookup_app_l_Some|].
  simpl. by rewrite lookup_app_r, Nat.sub_diag.
Qed.

Lemma ring_size m c : ring m c -> (length c <= size m)%nat.
Proof.
  intros Hr. pose proof Hr as [Hnd _]. rewrite <- (size_list_to_set (C := gset Z)), <- size_dom by done.
  apply subseteq_size. intros z Hz. apply elem_of_list_to_set in Hz. by eapply ring_dom.
Qed.

(** An element is where it is only once. *)
Lemma nodup_index (c : list Z) i j a b : NoDup c -> c !! i = Some a -> c !! j = Some b -> (a =? b) = (i =? j)%nat.
Proof.
  intros Hnd Hi Hj. destruct (Nat.eqb_spec i j) as [->|Hn]; [rewrite Hj in Hi; simplify_eq; apply Z.eqb_refl|].
  apply Z.eqb_neq. intros ->. apply Hn. by eapply NoDup_lookup.
Qed.

Lemma qwp_middle_loop h c last k mid nx fuel m (Q : Z -> heap -> Prop) :
  ring m (h :: c) -> c !! (length c - 1)%nat = Some last -> (2 * k + 1 < length c)%nat ->
  c !! k = Some mid -> c !! (2 * k)%nat = Some nx -> (length c < fuel + 2 * k + 1)%nat ->
  (forall q, c !! (length c / 2)%nat = Some q -> Q q m) -> wp (middle_loop fuel h mid nx) m Q.
Proof.
  intros Hr Hl. assert (Hnd : NoDup c) by (destruct Hr as [Hnd _]; by apply NoDup_cons in Hnd as [_ ?]).
  assert (Hlast : prv m h = Some last).
  { eapply queue_last; [exact Hr|]. destruct c as [|x c]; [done|]. simpl in *. by rewrite Nat.sub_0_r in Hl. }
  assert (Hstep : forall i x y, c !! i = Some x -> c !! S i = Some y -> nxt m x = Some y).
  { intros i x y Hx Hy. eapply queue_next; [exact Hr|exact Hx|by apply lookup_app_l_Some]. }
  revert k mid nx. induction fuel as [|fuel IH]; intros k mid nx Hk Hm Hn Hf HQ; [lia|].
  destruct (lookup_lt_is_Some_2 c (S k)) as [m1 Hm1]; [lia|].
  destruct (lookup_lt_is_Some_2 c (S (2 * k))) as [n1 Hn1]; [lia|]. simpl. unfold ngx_queue_next, ngx_queue_last.
  q_step; eapply qwp_get_next; [by eapply Hstep|]. q_step; eapply qwp_get_next; [by eapply Hstep|]. do 2 q_step.
  rewrite (nodup_index c _ _ _ _ Hnd Hn1 Hl). destruct (Nat.eqb_spec (S (2 * k)) (length c - 1)) as [He|He].
  { q_step. apply HQ. replace (length c) with ((S k) * 2)%nat by lia. by rewrite Nat.div_mul. }
  destruct (lookup_lt_is_Some_2 c (S (S (2 * k)))) as [n2 Hn2]; [lia|].
  q_step; eapply qwp_get_next; [by eapply Hstep|]. do 2 q_step.
  rewrite (nodup_index c _ _ _ _ Hnd Hn2 Hl). destruct (Nat.eqb_spec (S (S (2 * k))) (length c - 1)) as [He2|He2].
  { q_step. apply HQ. replace (length c) with (1 + (S k) * 2)%nat by lia. rewrite Nat.div_add by done. done. }
  apply (IH (S k)); [lia|done|by replace (2 * S k)%nat with (S (S (2 * k))) by lia|lia|done].
Qed.

Lemma qwp_middle h c m :
  ring m (h :: c) -> wp (ngx_queue_middle h) m (fun q m' => m' = m /\ (c ++ [h]) !! (length c / 2)%nat = Some q).
Proof.
  intros Hr. assert (Hnd : NoDup c) by (destruct Hr as [Hnd _]; by apply NoDup_cons in Hnd as [_ ?]).
  pose proof (ring_size _ _ Hr) as Hs. simpl in Hs. unfold ngx_queue_middle, ngx_queue_head, ngx_queue_last.
  destruct (lookup_lt_is_Some_2 (c ++ [h]) 0) as [a Ha]; [rewrite length_app; simpl; lia|].
  destruct (lookup_lt_is_Some_2 (h :: c) (length c)) as [b Hb]; [simpl; lia|].
  pose proof (queue_head _ _ _ _ Hr Ha) as Hn. pose proof (queue_last _ _ _ _ Hr Hb) as Hp. do 4 q_step.
  destruct c as [|x c]; [simpl in *; simplify_eq; rewrite Z.eqb_refl; by q_step|]. simpl in Ha, Hb. injection Ha as <-.
  rewrite (nodup_index (x :: c) 0 (length c) x b) by done. destruct c as [|y c]; [by q_step|]. simpl Nat.eqb. cbv iota.
  do 3 q_step. apply qwp_loop_fuel. eapply (qwp_middle_loop h (x :: y :: c) b 0); try done; try (simpl in *; lia).
  intros q Hq. split; [done|]. by apply lookup_app_l_Some.
Qed.

Section SortProof.
Variables (debug : bool) (cmp : Z -> Z -> Z).

(** One turn of the inner loop of [ngx_sort]. *)
Lemma sort_inner_step q (a : list Z) y z b :
  sort_inner cmp q ((a ++ [y]) ++ z :: b) (length (a ++ [y])) =
  if 0 <? cmp y q then sort_inner cmp q (a ++ y :: y :: b) (length a) else (a ++ [y]) ++ q :: b.
Proof.
  rewrite length_app, Nat.add_comm. cbn [length Nat.add sort_inner].
  rewrite <- !app_assoc. cbn [app]. rewrite list_lookup_middle by done.
  replace (S (length a)) with (length a + 1)%nat by lia. rewrite !insert_app_r. done.
Qed.

(** The place of [q] behind [a]: where the inner loop of [ngx_sort] puts it. *)
Lemma qwp_place_loop h a b q y fuel m :
  ring m (h :: (a ++ [y]) ++ b) -> (length a < fuel)%nat ->
  wp (place_loop cmp fuel h q y) m (fun p m' => m' = m /\ exists a1 a2 k,
    a ++ [y] = a1 ++ a2 /\ h :: a1 = k ++ [p] /\
    forall z b', sort_inner cmp q ((a ++ [y]) ++ z :: b') (length (a ++ [y])) = a1 ++ q :: a2 ++ b').
Proof.
  revert y b fuel. induction a as [|w a IH] using rev_ind; intros y b fuel Hr Hf; (destruct fuel as [|fuel]; [lia|]);
    simpl place_loop; (destruct (Z.leb_spec (cmp y q) 0) as [Hle|Hgt];
      [q_step; split; [done|]; eexists _, [], (h :: _); split_and!; [by rewrite app_nil_r|done|];
       intros z b'; rewrite sort_inner_step, (proj2 (Z.ltb_ge 0 (cmp y q))) by lia; done|]);
    unfold ngx_queue_prev, ngx_queue_sentinel; q_step.
  - eapply qwp_get_prev; [by eapply (queue_prev _ _ _ 0 h y Hr)|].
    rewrite Z.eqb_refl. q_step. split; [done|]. exists [], [y], []. split_and!; [done..|].
    intros z b'. rewrite sort_inner_step, (proj2 (Z.ltb_lt 0 (cmp y q))) by lia. done.
  - eapply (qwp_get_prev _ w).
    { eapply (queue_prev _ _ _ (length (a ++ [w])) w y Hr).
      - rewrite length_app, Nat.add_comm. simpl. rewrite <- !app_assoc. simpl. by rewrite list_lookup_middle.
      - rewrite <- (app_assoc (a ++ [w])). simpl. by rewrite list_lookup_middle. }
    assert (Hwh : w <> h).
    { destruct Hr as [Hnd _]. apply NoDup_cons in Hnd as [Hnd _]. set_solver. }
    rewrite (proj2 (Z.eqb_neq w h)) by done. rewrite length_app in Hf. simpl in Hf.
    eapply qwp_mono; [apply (IH w ([y] ++ b)); [by rewrite <- !app_assoc in *|lia]|].
    intros p m' (-> & a1 & a2 & k & E1 & E2 & Hs). split; [done|]. exists a1, (a2 ++ [y]), k.
    split_and!; [by rewrite E1, <- app_assoc|done|]. intros z b'.
    rewrite sort_inner_step, (proj2 (Z.ltb_lt 0 (cmp y q))) by lia. rewrite Hs. by rewrite <- app_assoc.
Qed.

Lemma qwp_sort_loop h b : forall a fuel q m,
  ring m (h :: a ++ b) -> a <> [] -> (length b < fuel)%nat -> (b ++ [h]) !! 0%nat = Some q ->
  wp (sort_loop debug cmp fuel h q) m (fun _ m' =>
    ring m' (h :: sort_outer cmp (a ++ b) (length a) (length b)) /\ only (h :: a ++ b) m m').
Proof.
  induction b as [|q b IH]; intros a fuel q' m Hr Ha Hf Hq; (destruct fuel as [|fuel]; [simpl in Hf; lia|]);
    simpl in Hq; injection Hq as <-; simpl; unfold ngx_queue_sentinel.
  { rewrite Z.eqb_refl. q_step. done. }
  pose proof Hr as [Hnd _]. apply NoDup_cons in Hnd as [Hh Hnd].
  rewrite (proj2 (Z.eqb_neq q h)) by set_solver. destruct (exists_last Ha) as (a0 & y & ->).
  destruct (lookup_lt_is_Some_2 (b ++ [h]) 0) as [nx Hnx]; [rewrite length_app; simpl; lia|].
  unfold ngx_queue_prev, ngx_queue_next. q_step. eapply (qwp_get_prev _ y).
  { eapply (queue_prev _ _ _ (length (a0 ++ [y])) _ _ Hr); [|by rewrite list_lookup_middle].
    rewrite length_app, Nat.add_comm. simpl. rewrite <- app_assoc. simpl. by rewrite list_lookup_middle. }
  q_step. eapply (qwp_get_next _ nx).
  { eapply (queue_next _ _ _ (length (a0 ++ [y])) _ _ Hr); [by rewrite list_lookup_middle|].
    rewrite <- app_assoc. simpl. rewrite lookup_app_r by lia. by rewrite Nat.sub_succ_l, Nat.sub_diag by lia. }
  q_step. pose proof Hr as Hr1. apply (ring_rotate _ (h :: a0 ++ [y]) (q :: b)) in Hr1.
  eapply qwp_mono; [apply qwp_remove; [exact Hr1|by destruct b]|]. intros _ m1 [Hr2 Ho1].
  apply (ring_rotate _ b (h :: a0 ++ [y])) in Hr2. q_step. apply qwp_loop_fuel. q_step.
  pose proof (ring_size _ _ Hr2) as Hsz. simpl in Hsz. rewrite !length_app in Hsz.
  eapply qwp_mono; [apply (qwp_place_loop h a0 b q y); [exact Hr2|simpl in *; lia]|].
  intros p m' (-> & a1 & a2 & k & E1 & E2 & Hs). q_step. rewrite E1 in *.
  assert (Hr3 : ring m1 (p :: a2 ++ b ++ k)).
  { change (h :: (a1 ++ a2) ++ b) with ((h :: a1 ++ a2) ++ b) in Hr2. rewrite (app_comm_cons a1 a2 h), E2, <- !app_assoc in Hr2.
    apply (ring_rotate _ k) in Hr2. simpl in Hr2. by rewrite <- !app_assoc in Hr2. }
  assert (Hin : forall z, z ∈ p :: a2 ++ b ++ k <-> z ∈ h :: (a1 ++ a2) ++ b).
  { intros z. change (h :: (a1 ++ a2) ++ b) with ((h :: a1 ++ a2) ++ b). rewrite (app_comm_cons a1 a2 h), E2. set_solver. }
  eapply qwp_mono; [apply qwp_insert_head; [exact Hr3| |]|].
  { destruct Ho1 as [-> _]. eapply (ring_dom _ _ q Hr). set_solver. }
  { rewrite Hin. apply NoDup_app in Hnd as (_ & Hd & Hq2). apply NoDup_cons in Hq2 as [Hq2 _].
    assert (q ∉ a1 ++ a2) by (intros Hq3; apply (Hd q); [done|by left]). set_solver. }
  intros _ m2 [Hr4 Ho2].
  assert (Hr5 : ring m2 (h :: (a1 ++ q :: a2) ++ b)).
  { change (h :: (a1 ++ q :: a2) ++ b) with ((h :: a1 ++ q :: a2) ++ b).
    rewrite (app_comm_cons a1 (q :: a2) h), E2, <- !app_assoc. apply (ring_rotate _ (p :: q :: a2 ++ b) k).
    by rewrite <- !app_comm_cons, <- app_assoc. }
  eapply qwp_mono; [apply (IH (a1 ++ q :: a2)); [exact Hr5|by destruct a1|simpl in Hf; lia|exact Hnx]|].
  intros _ m3 [Hr6 Ho3]. rewrite list_lookup_middle by done. split.
  - rewrite Hs. rewrite <- app_assoc in Hr6. simpl in Hr6.
    replace (S (length (a1 ++ a2))) with (length (a1 ++ q :: a2)) by (rewrite !length_app; simpl; lia). done.
  - eapply only_trans; [eapply only_weaken; [exact Ho1|set_solver]|].
    eapply only_trans; (eapply only_weaken; [eassumption|]); [|set_solver].
    intros z Hz. apply elem_of_cons in Hz as [->|Hz]; [set_solver|]. apply Hin in Hz. set_solver.
Qed.

Lemma qwp_queue_sort h c m :
  ring m (h :: c) ->
  wp (ngx_queue_sort debug cmp h) m (fun _ m' => ring m' (h :: ngx_sort cmp true c) /\ only (h :: c) m m').
Proof.
  intros Hr. assert (Hnd : NoDup c) by (destruct Hr as [Hnd _]; by apply NoDup_cons in Hnd as [_ ?]).
  pose proof (ring_size _ _ Hr) as Hs. simpl in Hs. unfold ngx_queue_sort, ngx_queue_head, ngx_queue_last.
  destruct (lookup_lt_is_Some_2 (c ++ [h]) 0) as [a Ha]; [rewrite length_app; simpl; lia|].
  destruct (lookup_lt_is_Some_2 (h :: c) (length c)) as [b Hb]; [simpl; lia|].
  pose proof (queue_head _ _ _ _ Hr Ha) as Hn. pose proof (queue_last _ _ _ _ Hr Hb) as Hp. do 4 q_step.
  destruct c as [|x c]; [simpl in *; simplify_eq; rewrite Z.eqb_refl; by q_step|]. simpl in Ha, Hb. injection Ha as <-.
  rewrite (nodup_index (x :: c) 0 (length c) x b) by done. destruct c as [|y c]; [by q_step|]. simpl Nat.eqb. cbv iota.
  unfold ngx_queue_next. q_step. eapply (qwp_get_next _ y); [by eapply (queue_next _ _ _ 0 _ _ Hr)|]. q_step. apply qwp_loop_fuel.
  eapply qwp_mono; [apply (qwp_sort_loop h (y :: c) [x]); try done; simpl in *; lia|]. intros _ m' [Hr' Ho]. split; [|done].
  unfold ngx_sort. cbn [length Nat.sub] in Hr' |- *. exact Hr'.
Qed.
End SortProof.

(** ** The queue as a list *)

(** What the callers do with a queue. *)
Inductive op := InsertHead (x : Z) | InsertTail (x : Z) | Remove (x : Z) | Sort | Split (q n : Z) | Add (n : Z).

(** The queues of a program: the lists of their elements, by their headers. *)
Abbreviation queues := (gmap Z (list Z)).

(** The links in use: headers and elements. *)
Definition used (qs : queues) (z : Z) : Prop := exists h l, qs !! h = Some l /\ z ∈ h :: l.

Section Run.
Variables (debug : bool) (cmp : Z -> Z -> Z).

(** An operation on the queue with the header [h]. *)
Definition exec (h : Z) (o : op) : M unit :=
  match o with
  | InsertHead x => ngx_queue_insert_head h x
  | InsertTail x => ngx_queue_insert_tail h x
  | Remove x => ngx_queue_remove debug x
  | Sort => ngx_queue_sort debug cmp h
  | Split q n => ngx_queue_split h q n
  | Add n => ngx_queue_add h n
  end.

Fixpoint execs (ops : list (Z * op)) : M unit :=
  match ops with [] => mret tt | ho :: ops' => exec ho.1 ho.2;; execs ops' end.

(** What it does to the lists; what a caller must see to is a premise. *)
Inductive step (qs : queues) (h : Z) : op -> queues -> Prop :=
  | step_head x l : qs !! h = Some l -> ~ used qs x -> step qs h (InsertHead x) (<[h := x :: l]> qs)
  | step_tail x l : qs !! h = Some l -> ~ used qs x -> step qs h (InsertTail x) (<[h := l ++ [x]]> qs)
  | step_remove x a b : qs !! h = Some (a ++ x :: b) -> step qs h (Remove x) (<[h := a ++ b]> qs)
  | step_sort l : qs !! h = Some l -> step qs h Sort (<[h := ngx_sort cmp true l]> qs)
  | step_split a q b n : qs !! h = Some (a ++ q :: b) -> ~ used qs n ->
      step qs h (Split q n) (<[n := q :: b]> (<[h := a]> qs))
  | step_add n a b : qs !! h = Some a -> qs !! n = Some b -> n <> h ->
      step qs h (Add n) (<[h := a ++ b]> (delete n qs)).

Inductive steps : queues -> list (Z * op) -> queues -> Prop :=
  | steps_nil qs : steps qs [] qs
  | steps_cons qs h o qs1 ops qs2 : step qs h o qs1 -> steps qs1 ops qs2 -> steps qs ((h, o) :: ops) qs2.

(** The heap holds the queues, no two of which share a link. *)
Definition holds (m : heap) (qs : queues) : Prop :=
  map_Forall (fun h l => is_queue m h l) qs /\
  forall h h' l l' z, qs !! h = Some l -> qs !! h' = Some l' -> h <> h' -> z ∈ h :: l -> z ∉ h' :: l'.

(** An operation that touches the links [T] leaves the queues without such a link alone;
    the others are in their place. *)
Lemma holds_touched T m m' qs qs' :
  holds m qs -> only T m m' ->
  (forall k l, qs' !! k = Some l ->
     (qs !! k = Some l /\ forall z, z ∈ k :: l -> z ∉ T) \/ (ring m' (k :: l) /\ forall z, z ∈ k :: l -> z ∈ T)) ->
  (forall k1 k2 l1 l2 z, qs' !! k1 = Some l1 -> qs' !! k2 = Some l2 -> k1 <> k2 -> z ∈ T ->
     z ∈ k1 :: l1 -> z ∉ k2 :: l2) ->
  holds m' qs'.
Proof.
  intros [Hm Hd] Ho Hcase HT. split.
  - intros k l Hk. destruct (Hcase k l Hk) as [[Hq Hz]|[Hr _]]; [|done]. eapply ring_only; [exact Ho|exact Hz|by apply Hm].
  - intros k1 k2 l1 l2 z H1 H2 Hne Hz Hz2. destruct (decide (z ∈ T)) as [HzT|HzT]; [by apply (HT k1 k2 l1 l2 z)|].
    destruct (Hcase k1 l1 H1) as [[Hq1 _]|[_ HT1]]; [|by apply HzT, HT1].
    destruct (Hcase k2 l2 H2) as [[Hq2 _]|[_ HT2]]; [|by apply HzT, HT2]. by apply (Hd k1 k2 l1 l2 z).
Qed.

(** The other queues have no link of this one, and no link that is not used. *)
Lemma holds_other m qs h l k lk z :
  holds m qs -> qs !! h = Some l -> qs !! k = Some lk -> k <> h -> z ∈ k :: lk -> z ∉ h :: l.
Proof. intros [_ Hd] Hh Hk Hne Hz. by eapply (Hd k h). Qed.

Lemma used_not qs k lk z x : qs !! k = Some lk -> ~ used qs x -> z ∈ k :: lk -> z <> x.
Proof. intros Hk Hx Hz ->. apply Hx. by exists k, lk. Qed.

Lemma holds_update T m m' qs h l l' :
  holds m qs -> qs !! h = Some l -> ring m' (h :: l') -> only T m m' ->
  (forall z, z ∈ T -> z ∈ h :: l \/ ~ used qs z) -> (forall z, z ∈ h :: l' -> z ∈ T) ->
  holds m' (<[h := l']> qs).
Proof.
  intros Hh Hl Hr Ho HT Hl'. eapply holds_touched; [exact Hh|exact Ho| |].
  - intros k lk Hk. destruct (decide (k = h)) as [->|Hkh]; [rewrite lookup_insert_eq in Hk; simplify_eq; by right|].
    rewrite lookup_insert_ne in Hk by done. left. split; [done|]. intros z Hz HzT.
    destruct (HT z HzT) as [Hz2|Hz2]; [by eapply (holds_other m qs h l k lk z)|]. apply Hz2. by exists k, lk.
  - intros k1 k2 l1 l2 z H1 H2 Hne HzT Hz1 Hz2. destruct (decide (k1 = h)) as [->|H1h], (decide (k2 = h)) as [->|H2h]; try done;
      rewrite ?lookup_insert_eq, ?lookup_insert_ne in * by done.
    + destruct (HT z HzT) as [Hz|Hz]; [by eapply (holds_other m qs h l k2 l2 z)|]. apply Hz. by exists k2, l2.
    + destruct (HT z HzT) as [Hz|Hz]; [by eapply (holds_other m qs h l k1 l1 z)|]. apply Hz. by exists k1, l1.
    + destruct (HT z HzT) as [Hz|Hz]; [by eapply (holds_other m qs h l k1 l1 z)|]. apply Hz. by exists k1, l1.
Qed.

Lemma holds_split m m' qs h a q b n :
  holds m qs -> qs !! h = Some (a ++ q :: b) -> ~ used qs n -> ring m' (h :: a) -> ring m' (n :: q :: b) ->
  only (n :: h :: a ++ q :: b) m m' -> holds m' (<[n := q :: b]> (<[h := a]> qs)).
Proof.
  intros Hh Hl Hn Ha Hb Ho. assert (Hnh : n <> h) by (intros ->; apply Hn; exists h; eexists; split; [done|by left]).
  assert (Hni : n ∉ h :: a ++ q :: b) by (intros Hi; apply Hn; by exists h, (a ++ q :: b)).
  assert (Hap : forall z, z ∈ h :: a -> z ∉ n :: q :: b).
  { destruct Hh as [Hm _]. destruct (Hm h _ Hl) as [Hnd _]. change (NoDup ((h :: a) ++ q :: b)) in Hnd.
    apply NoDup_app in Hnd as (_ & Hnd & _). intros z Hz. specialize (Hnd z Hz). set_solver. }
  assert (Hold : forall k lk z, qs !! k = Some lk -> k <> h -> z ∈ k :: lk -> z ∉ n :: h :: a ++ q :: b).
  { intros k lk z Hk Hkh Hz. apply not_elem_of_cons. split; [by eapply used_not|by eapply holds_other]. }
  assert (Hget : forall k lk, <[n := q :: b]> (<[h := a]> qs) !! k = Some lk ->
    (k = n /\ lk = q :: b) \/ (k = h /\ lk = a) \/ (k <> h /\ qs !! k = Some lk)).
  { intros k lk Hk. destruct (decide (k = n)) as [->|Hkn]; [rewrite lookup_insert_eq in Hk; naive_solver|].
    rewrite lookup_insert_ne in Hk by done.
    destruct (decide (k = h)) as [->|Hkh]; [rewrite lookup_insert_eq in Hk|rewrite lookup_insert_ne in Hk by done]; naive_solver. }
  eapply holds_touched; [exact Hh|exact Ho| |].
  - intros k lk [[-> ->]|[[-> ->]|[Hkh Hk]]]%Hget; [right; set_solver|right; set_solver|].
    left. split; [done|]. intros z. by apply Hold.
  - intros k1 k2 l1 l2 z [[-> ->]|[[-> ->]|[H1h H1]]]%Hget [[-> ->]|[[-> ->]|[H2h H2]]]%Hget Hne HzT Hz1 Hz2; try done;
      first [by apply (Hap z) | by eapply Hold; [exact H1|..] | by eapply Hold; [exact H2|..]].
Qed.

Lemma holds_add m m' qs h a n b :
  holds m qs -> qs !! h = Some a -> qs !! n = Some b -> n <> h -> ring m' (h :: a ++ b) ->
  only (h :: a ++ n :: b) m m' -> holds m' (<[h := a ++ b]> (delete n qs)).
Proof.
  intros Hh Ha Hb Hnh Hr Ho.
  assert (Hold : forall k lk z, qs !! k = Some lk -> k <> h -> k <> n -> z ∈ k :: lk -> z ∉ h :: a ++ n :: b).
  { intros k lk z Hk Hkh Hkn Hz. pose proof (holds_other _ _ _ _ _ _ z Hh Ha Hk Hkh Hz).
    pose proof (holds_other _ _ _ _ _ _ z Hh Hb Hk Hkn Hz). set_solver. }
  assert (Hget : forall k lk, <[h := a ++ b]> (delete n qs) !! k = Some lk -> k <> h -> k <> n /\ qs !! k = Some lk).
  { intros k lk Hk Hkh. rewrite lookup_insert_ne, lookup_delete_Some in Hk by done. naive_solver. }
  eapply holds_touched; [exact Hh|exact Ho| |].
  - intros k lk Hk. destruct (decide (k = h)) as [->|Hkh]; [rewrite lookup_insert_eq in Hk; simplify_eq; right; set_solver|].
    destruct (Hget k lk Hk Hkh) as [Hkn Hk']. left. split; [done|]. intros z. by apply Hold.
  - intros k1 k2 l1 l2 z H1 H2 Hne HzT Hz1 Hz2. destruct (decide (k1 = h)) as [->|H1h].
    + destruct (Hget k2 l2 H2 (not_eq_sym Hne)) as [Hkn Hk']. by eapply (Hold k2).
    + destruct (Hget k1 l1 H1 H1h) as [Hkn Hk']. by eapply (Hold k1).
Qed.

(** [ngx_sort] only moves elements, whatever the callback says. *)
Lemma sort_outer_perm (b : list Z) : forall a, sort_outer cmp (a ++ b) (length a) (length b) ≡ₚ a ++ b.
Proof.
  induction b as [|p b IH]; intros a; simpl; [done|]. rewrite list_lookup_middle by done.
  destruct (sort_inner_split cmp p a p b) as (a1 & a2 & -> & -> & _).
  replace (S (length (a1 ++ a2))) with (length (a1 ++ p :: a2)) by (rewrite !length_app; simpl; lia).
  rewrite (app_comm_cons a2 b p), app_assoc, IH, <- !app_assoc. simpl. apply Permutation_app_head, Permutation_middle.
Qed.

Lemma ngx_sort_perm (l : list Z) : ngx_sort cmp true l ≡ₚ l.
Proof.
  unfold ngx_sort. destruct l as [|x l]; [done|]. cbn [length]. rewrite Nat.sub_succ, Nat.sub_0_r. apply (sort_outer_perm l [x]).
Qed.

(** The links an operation brings into a queue. *)
Definition news (o : op) : list Z :=
  match o with InsertHead x | InsertTail x => [x] | Split _ n => [n] | _ => [] end.

Lemma exec_step m qs h o qs' :
  holds m qs -> step qs h o qs' -> Forall (fun x => x ∈ dom m) (news o) ->
  exists m', exec h o m = Some (tt, m') /\ holds m' qs' /\ dom m' = dom m.
Proof.
  intros Hh Hs Hx. pose proof Hh as [Hm _].
  assert (Hfin : forall T, wp (exec h o) m (fun _ m' => holds m' qs' /\ only T m m') ->
    exists m', exec h o m = Some (tt, m') /\ holds m' qs' /\ dom m' = dom m).
  { intros T ([] & m' & E & H1 & H2 & _). by exists m'. }
  destruct Hs as [x l Hl Hu|x l Hl Hu|x a b Hl|l Hl|a q b n Hl Hu|n a b Ha Hb Hn];
    (try pose proof (Hm _ _ Hl) as Hr; try (assert (Hni : x ∉ h :: l) by (intros Hi; apply Hu; by exists h, l));
     eapply Hfin; simpl exec).
  - eapply qwp_mono; [apply qwp_insert_head; [exact Hr|by inversion Hx|exact Hni]|]. intros _ m' [Hr' Ho].
    split; [|exact Ho]. eapply holds_update; [exact Hh|exact Hl|exact Hr'|exact Ho| |set_solver].
    intros z [->|?]%elem_of_cons; [by right|by left].
  - eapply qwp_mono; [apply qwp_insert_tail; [exact Hr|by inversion Hx|exact Hni]|]. intros _ m' [Hr' Ho].
    split; [|exact Ho]. eapply holds_update; [exact Hh|exact Hl|exact Hr'|exact Ho| |set_solver].
    intros z [->|?]%elem_of_cons; [by right|by left].
  - apply (ring_rotate _ (h :: a) (x :: b)) in Hr. eapply qwp_mono; [apply qwp_remove; [exact Hr|by destruct b]|].
    intros _ m' [Hr' Ho]. split; [|exact Ho]. apply (ring_rotate _ b (h :: a)) in Hr'.
    eapply holds_update; [exact Hh|exact Hl|exact Hr'|exact Ho|set_solver|set_solver].
  - eapply qwp_mono; [apply qwp_queue_sort; exact Hr|]. intros _ m' [Hr' Ho]. split; [|exact Ho].
    eapply holds_update; [exact Hh|exact Hl|exact Hr'|exact Ho|by left|]. intros z. by rewrite ngx_sort_perm.
  - eapply qwp_mono; [apply qwp_split; [exact Hr|by inversion Hx|]|].
    { intros Hi. apply Hu. by eexists _, _. }
    intros _ m' (H1 & H2 & Ho). split; [|exact Ho]. by eapply holds_split.
  - eapply qwp_mono; [apply qwp_add; [by apply Hm|by apply Hm|]|]. { intros z. by eapply (proj2 Hh). }
    intros _ m' [Hr' Ho]. split; [|exact Ho]. by eapply holds_add.
Qed.

(** C35: Every sequence of insertions at the head or the tail, removals, sorts, splits and
    additions on any number of queues returns and does to the queues what the
    operations on lists do, whichever links are next to each other: nothing is lost, no
    two queues ever share a link, and no link of the heap appears or disappears. *)
Theorem queue_refines ops qs qs' m :
  holds m qs -> steps qs ops qs' -> Forall (fun ho => Forall (fun x => x ∈ dom m) (news ho.2)) ops ->
  exists m', execs ops m = Some (tt, m') /\ holds m' qs' /\ dom m' = dom m.
Proof.
  intros Hh Hs. revert m Hh. induction Hs as [qs|qs h o qs1 ops qs2 Ho Hs IH]; intros m Hh HF; [by exists m|].
  apply Forall_cons in HF as [Hx HF]. destruct (exec_step m qs h o qs1) as (m1 & E1 & H1 & D1); [done..|].
  destruct (IH m1 H1) as (m2 & E2 & H2 & D2); [by rewrite D1|]. exists m2. simpl. unfold mbind, M_bind. rewrite E1, E2.
  split_and!; [done..|congruence].
Qed.

(** When the callback is a total preorder, [ngx_queue_sort] returns with the elements
    in increasing order, those that compare as equal in the order they had: the comment
    "the stable insertion sort" holds.  No link outside the queue changes. *)
Theorem queue_sort_stable h c m :
  (forall x y, 0 < cmp y x -> cmp x y <= 0) -> (forall x y z, cmp x y <= 0 -> cmp y z <= 0 -> cmp x z <= 0) ->
  is_queue m h c ->
  exists m' l, ngx_queue_sort debug cmp h m = Some (tt, m') /\ is_queue m' h l /\ sorted_stable cmp c l
    /\ only (h :: c) m m'.
Proof.
  intros Htot Htrans Hr. destruct (qwp_queue_sort debug cmp h c m Hr) as ([] & m' & E & Hr' & Ho).
  exists m', (ngx_sort cmp true c). split_and!; [done..| |done]. unfold ngx_sort. destruct c as [|x c]; [by repeat split; constructor|].
  cbn [length]. rewrite Nat.sub_succ, Nat.sub_0_r. destruct (sort_outer_sorted cmp Htot Htrans [x] [x] c) as (d & E' & Hd).
  { split; [done|]. split; [repeat constructor|done]. }
  simpl app in E'. cbn [length] in E'. by rewrite E'.
Qed.
End Run.

(** [ngx_queue_middle] returns the element in the middle, the first of the second half
    where the number of elements is even, and the header of an empty queue. *)
Theorem queue_middle h c m :
  is_queue m h c -> exists q, ngx_queue_middle h m = Some (q, m) /\ (c ++ [h]) !! (length c / 2)%nat = Some q.
Proof. intros Hr. destruct (qwp_middle h c m Hr) as (q & m' & E & -> & Hq). by exists q. Qed.

(** ** Examples *)

(** The links 1, ..., 8; the queue of 1 has the elements 2, 3 and 4. *)
Definition links : heap :=
  list_to_map [(1, mkLink 4 2); (2, mkLink 1 3); (3, mkLink 2 4); (4, mkLink 3 1);
               (5, mkLink 0 0); (6, mkLink 0 0); (7, mkLink 0 0); (8, mkLink 0 0)].

Lemma links_queue : is_queue links 1 [2; 3; 4].
Proof. split; [by apply (bool_decide_unpack _)|]. simpl. unfold linked. split_and!; reflexivity. Qed.

Lemma links_hold : holds links {[1 := [2; 3; 4]]}.
Proof.
  split; [apply map_Forall_singleton; exact links_queue|].
  intros h h' l l' z [<- <-]%lookup_singleton_Some [<- <-]%lookup_singleton_Some. done.
Qed.

(** 5 to the head, 6 to the tail, 3 out, the rest from 4 on to the queue of 7. *)
Lemma queue_refines_witness :
  exists m', execs true Z.sub [(1, InsertHead 5); (1, InsertTail 6); (1, Remove 3); (1, Split 4 7)] links = Some (tt, m')
    /\ holds m' (<[7 := [4; 6]]> (<[1 := [5; 2]]> (<[1 := [5; 2; 4; 6]]> (<[1 := [5; 2; 3; 4; 6]]>
         (<[1 := [5; 2; 3; 4]]> {[1 := [2; 3; 4]]})))))
    /\ dom m' = dom links.
Proof.
  assert (Hu : forall (qs : queues) x, map_Forall (fun h k => x ∉ h :: k) qs -> ~ used qs x)
    by (intros qs x HF (h & k & Hk & Hin); by apply (HF h k)).
  apply queue_refines with (qs := {[1 := [2; 3; 4]]}).
  - exact links_hold.
  - eapply steps_cons; [apply step_head; [reflexivity|apply Hu; by apply (bool_decide_unpack _)]|].
    eapply steps_cons; [apply (step_tail _ _ _ _ [5; 2; 3; 4]); [reflexivity|apply Hu; by apply (bool_decide_unpack _)]|].
    eapply steps_cons; [apply (step_remove _ _ _ 3 [5; 2] [4; 6]); reflexivity|].
    eapply steps_cons; [apply (step_split _ _ _ [5; 2] 4 [6] 7); [reflexivity|apply Hu; by apply (bool_decide_unpack _)]|].
    apply steps_nil.
  - by apply (bool_decide_unpack _).
Defined.

Lemma queue_sort_stable_witness :
  exists m' l, ngx_queue_sort false (fun x y => y - x) 1 links = Some (tt, m') /\ is_queue m' 1 l
    /\ sorted_stable (fun x y => y - x) [2; 3; 4] l /\ only [1; 2; 3; 4] links m'.
Proof. apply queue_sort_stable; [intros; lia|intros; lia|exact links_queue]. Defined.

Lemma queue_middle_witness : exists q, ngx_queue_middle 1 links = Some (q, links) /\ [2; 3; 4; 1] !! 1%nat = Some q.
Proof. exact (queue_middle 1 [2; 3; 4] links links_queue). Defined.

End QueueSpec.
