(* ===== verification/NgxStrTree.v ===== *)
(** * The string tree

    The red-black tree of strings of src/nginx-1.7.2/src/core/ngx_string.c
    ([ngx_str_rbtree_insert_value] and [ngx_str_rbtree_lookup]), ordered by a hash, then
    by length, then by the bytes: its insertion function keeps the promise
    [ngx_rbtree_insert] relies on, and the lookup finds exactly what is in the tree. *)

From stdpp Require Import gmap fin_maps.
From S2P Require Import Prelude NgxString NgxRbtree NgxRbtreeRep NgxRbtreeInv NgxRbtreeInsert NgxRbtreeSpec.

Module StrTree.
Import Rbtree RbRep RbInv RbInsert RbSpec.

(** [ngx_str_node_t] is a node with a string. *)
Abbreviation str := (list Z).

(** The comparison of [ngx_str_rbtree_insert_value].  The strings compared by [ngx_memcmp]
    have the same length. *)
Definition str_less (n t : Z * str) : bool :=
  if negb (n.1 =? t.1) then n.1 <? t.1
  else if negb (length n.2 =? length t.2)%nat then (length n.2 <? length t.2)%nat
  else match ngx_memcmp n.2 t.2 (length n.2) with Some rc => rc <? 0 | None => false end.

Definition ngx_str_rbtree_insert_value (sentinel : Z) : Z -> Z -> M str unit :=
  insert_leaf sentinel str_less.

(** A read by the C library; [None] is a read outside the string. *)
Definition lift {A X} (o : option X) : M A X := fun s => x ← o; Some (x, s).

Section Code.
Variable sentinel : Z.

Fixpoint lookup_loop (fuel : nat) (val : str) (hash node : Z) : M str Z :=
  match fuel with
  | O => no_fuel
  | S fuel' =>
      if node =? sentinel then mret NULL
      else
        k ← rd node key;
        if negb (hash =? k) then
          q ← rd node (child (if hash <? k then Left else Right));
          lookup_loop fuel' val hash q
        else
          n ← rd node data;
          if negb (length val =? length n)%nat then
            q ← rd node (child (if (length val <? length n)%nat then Left else Right));
            lookup_loop fuel' val hash q
          else
            rc ← lift (ngx_memcmp val n (length val));
            if rc <? 0 then q ← rd node left; lookup_loop fuel' val hash q
            else if 0 <? rc then q ← rd node right; lookup_loop fuel' val hash q
            else mret node
  end.

Definition ngx_str_rbtree_lookup (val : str) (hash : Z) : M str Z :=
  fuel ← loop_fuel; rt ← get_root; lookup_loop fuel val hash rt.
End Code.

(** ** The order *)

(** The bytes, compared as numbers in an order of their own. *)
Lemma memcmp_total (a b : str) :
  length a = length b -> exists r, ngx_memcmp a b (length a) = Some r /\ ngx_memcmp b a (length a) = Some (- r)
    /\ (r = 0 <-> a = b).
Proof.
  intros Hl. destruct (ngx_memcmp_0 a b (length a)) as (r & H1 & H2 & Hr); [lia..|]. exists r. split_and!; [done..|].
  rewrite Hr, Hl at 1. rewrite Hl, !take_ge by lia. done.
Qed.

Lemma memcmp_trans n (a b c : str) r1 r2 r3 :
  ngx_memcmp a b n = Some r1 -> ngx_memcmp c b n = Some r2 -> ngx_memcmp a c n = Some r3 ->
  r1 < 0 -> 0 <= r2 -> r3 < 0.
Proof.
  revert a b c. induction n as [|n IH]; intros a b c; simpl; [intros; simplify_eq; lia|].
  destruct a as [|x a], b as [|y b], c as [|z c]; try done.
  destruct (Z.eqb_spec x y), (Z.eqb_spec z y), (Z.eqb_spec x z); intros; simplify_eq; try lia. by eapply IH.
Qed.

#[export] Instance str_order P : KeyOrder str_less P.
Proof.
  split.
  - intros x y _ _. unfold str_less.
    destruct (Z.eqb_spec x.1 y.1) as [->|Hk]; simpl; [rewrite Z.eqb_refl; simpl|].
    2:{ rewrite (proj2 (Z.eqb_neq y.1 x.1)) by lia. simpl. lia. }
    destruct (Nat.eqb_spec (length x.2) (length y.2)) as [Hl|Hl]; simpl.
    2:{ rewrite (proj2 (Nat.eqb_neq (length y.2) (length x.2))) by lia. simpl.
        destruct (Nat.ltb_spec (length x.2) (length y.2)); [|done]. intros _. apply Nat.ltb_ge. lia. }
    rewrite <- Hl, Nat.eqb_refl. simpl. destruct (memcmp_total _ _ Hl) as (r & -> & -> & _). lia.
  - intros x y z _ _ _. unfold str_less.
    destruct (Z.eqb_spec x.1 y.1), (Z.eqb_spec z.1 y.1), (Z.eqb_spec x.1 z.1); simpl; try lia.
    destruct (Nat.eqb_spec (length x.2) (length y.2)), (Nat.eqb_spec (length z.2) (length y.2)),
      (Nat.eqb_spec (length x.2) (length z.2)); simpl; rewrite ?Nat.ltb_lt, ?Nat.ltb_ge; try lia.
    destruct (memcmp_total x.2 y.2) as (r1 & H1 & _); [done|]. destruct (memcmp_total z.2 y.2) as (r2 & H2 & _); [done|].
    destruct (memcmp_total x.2 z.2) as (r3 & H3 & _); [done|].
    replace (length z.2) with (length x.2) in * by lia. rewrite H1, H2, H3. intros Hr1 Hr2.
    pose proof (memcmp_trans _ _ _ _ _ _ _ H1 H2 H3). lia.
Qed.

#[export] Instance str_insert_pt sentinel : InsertPt sentinel (ngx_str_rbtree_insert_value sentinel) str_less.
Proof. apply insert_leaf_pt. Qed.

(** ** The lookup *)

Lemma str_less_cases (v y : Z * str) : v = y \/ str_less v y = true \/ str_less y v = true.
Proof.
  destruct v as [h v], y as [k y]. unfold str_less. simpl.
  destruct (Z.eqb_spec h k) as [->|Hk]; simpl; [rewrite Z.eqb_refl; simpl|rewrite (proj2 (Z.eqb_neq k h)) by lia; simpl; lia].
  destruct (Nat.eqb_spec (length v) (length y)) as [Hl|Hl]; simpl.
  - rewrite <- Hl, Nat.eqb_refl. simpl. destruct (memcmp_total _ _ Hl) as (r & -> & -> & Hr).
    destruct (Z.lt_trichotomy r 0) as [?|[->|?]]; [right; left; lia|left; by rewrite (proj1 Hr)|right; right; lia].
  - rewrite (proj2 (Nat.eqb_neq (length y) (length v))) by lia. simpl. rewrite !Nat.ltb_lt. lia.
Qed.

(** Where a lookup of [v] goes at a node [y]. *)
Definition sign_of (v y : Z * str) : Z := if str_less v y then -1 else if str_less y v then 1 else 0.

Lemma sign_left v y : sign_of v y < 0 -> str_less v y = true.
Proof. unfold sign_of. by do 2 destruct str_less. Qed.

Lemma sign_right v y : 0 < sign_of v y -> str_less y v = true.
Proof. unfold sign_of. by do 2 destruct str_less. Qed.

Lemma sign_zero v y : sign_of v y = 0 <-> v = y.
Proof.
  unfold sign_of. destruct (str_less_cases v y) as [->|Hl].
  - destruct (str_less y y) eqn:E; [|done]. by rewrite (less_asym (P := fun _ => True) y y I I E) in E.
  - split; [by destruct Hl as [->| ->]; [|destruct str_less]|]. intros ->. pose proof (less_asym (P := fun _ => True) y y I I).
    destruct Hl; destruct (str_less y y); intuition congruence.
Qed.

Lemma sign_before v y z : True -> True -> sign_of v y < 0 -> str_less z y = false -> sign_of v z < 0.
Proof. intros _ _ Hv Hz. unfold sign_of. by rewrite (less_trans (P := fun _ => True) v y z I I I (sign_left _ _ Hv) Hz). Qed.

Lemma sign_behind v y z : True -> True -> 0 < sign_of v y -> str_less y z = false -> 0 < sign_of v z.
Proof.
  intros _ _ Hv%sign_right Hz. destruct (str_less_cases z v) as [->|[Hl|Hl]]; [congruence| |].
  - unfold sign_of. by rewrite Hl, (less_asym (P := fun _ => True) z v I I Hl).
  - pose proof (less_asym (P := fun _ => True) y v I I Hv) as Ha. pose proof (less_trans (P := fun _ => True) v z y I I I Hl Hz). congruence.
Qed.

Section Lookup.
Variable sentinel : Z.

(** One turn of the loop, at a node that is not the one looked for. *)
Lemma lookup_turn d (val : str) hash fuel y pl pr par cc s Q :
  cells s !! y.1 = Some (mk Left y pl pr par cc) -> y.1 <> sentinel ->
  (if d is Left then str_less (hash, val) y.2 else str_less y.2 (hash, val)) = true ->
  wp (lookup_loop sentinel fuel val hash (if d is Left then pl else pr)) s Q ->
  wp (lookup_loop sentinel (S fuel) val hash y.1) s Q.
Proof.
  intros Hy Hs Hd HQ. destruct y as [q [k n]]. unfold str_less in Hd. simpl in *. rewrite (proj2 (Z.eqb_neq q sentinel)) by done.
  do 2 wp_step. simpl. rewrite (Z.eqb_sym k hash), (Nat.eqb_sym (length n)) in Hd.
  destruct (Z.eqb_spec hash k) as [->|Hk]; simpl in *.
  2:{ do 2 wp_step. destruct d; [by rewrite Hd|]. by rewrite (proj2 (Z.ltb_ge hash k)) by lia. }
  do 2 wp_step. simpl. destruct (Nat.eqb_spec (length val) (length n)) as [Hlen|Hlen]; simpl in *.
  2:{ do 2 wp_step. destruct d; [by rewrite Hd|]. apply Nat.ltb_lt in Hd. by rewrite (proj2 (Nat.ltb_ge _ _)) by lia. }
  destruct (memcmp_total _ _ Hlen) as (rc & H1 & H2 & H0). rewrite <- Hlen, H1, H2 in Hd. rewrite H1.
  apply wp_bind. exists rc, s. split; [done|]. destruct d.
  - rewrite Hd. by do 2 wp_step.
  - rewrite (proj2 (Z.ltb_ge rc 0)), (proj2 (Z.ltb_lt 0 rc)) by lia. by do 2 wp_step.
Qed.

Lemma lookup_hit (val : str) hash fuel q n s Q :
  cells s !! q = Some n -> q <> sentinel -> lab n = (hash, val) -> Q q s ->
  wp (lookup_loop sentinel (S fuel) val hash q) s Q.
Proof.
  intros Hq Hs [= Hk Hd] HQ. simpl. rewrite (proj2 (Z.eqb_neq q sentinel)) by done. do 2 wp_step. rewrite Hk, Z.eqb_refl. simpl.
  do 2 wp_step. rewrite Hd, Nat.eqb_refl. simpl. destruct (memcmp_total val val eq_refl) as (rc & H1 & _ & H0).
  apply wp_bind. exists rc, s. split; [by unfold lift; rewrite H1|]. rewrite (proj2 H0 eq_refl). simpl. by wp_step.
Qed.

(** [ngx_str_rbtree_lookup] returns, for a hash and a string, a node of the tree that
    has both, and NULL exactly when there is none. *)
Theorem str_rbtree_lookup s L val hash :
  is_rbtree str_less sentinel s L -> NULL ∉ L.*1 ->
  exists q, ngx_str_rbtree_lookup sentinel val hash s = Some (q, s)
    /\ (q = NULL <-> forall x, x ∈ L -> x.2 <> (hash, val))
    /\ (q <> NULL -> (q, (hash, val)) ∈ L).
Proof.
  intros Ht Hnull. pose proof (rbtree_nodup _ _ _ _ Ht) as [Hni _]%NoDup_cons.
  destruct (rbtree_search sentinel str_less (fun fuel => lookup_loop sentinel fuel val hash) (sign_of (hash, val)) (fun _ => True))
    with (s := s) (L := L) (Q := fun q s' => s' = s /\ (q = NULL <-> forall x, x ∈ L -> x.2 <> (hash, val)) /\
      (q <> NULL -> (q, (hash, val)) ∈ L)) as (q & s' & E & -> & H1 & H2); try done.
  - intros fuel y pl pr par cc s' Q Hy Hys _ Hv HQ. by eapply (lookup_turn Left); [exact Hy|done|apply sign_left|].
  - intros fuel y pl pr par cc s' Q Hy Hys _ Hv HQ. by eapply (lookup_turn Right); [exact Hy|done|apply sign_right|].
  - apply sign_before.
  - apply sign_behind.
  - by apply Forall_forall.
  - intros Hno fuel. simpl. rewrite Z.eqb_refl. wp_step. split_and!; [done| |done]. split; [|done]. intros _ x Hx He.
    apply (Hno x Hx), sign_zero. done.
  - intros x fuel Hx Hv%sign_zero. destruct (rbtree_cell _ _ _ _ x Ht Hx) as (n & Hn & Hlab).
    assert (Hx1 : x.1 ∈ L.*1) by (by apply list_elem_of_fmap_2).
    eapply lookup_hit; [exact Hn|by intros <-|congruence|]. split_and!; [done| |].
    + split; [|intros Hno; by destruct (Hno x)]. intros H0. exfalso. apply Hnull. by rewrite <- H0.
    + intros _. rewrite Hv. by destruct x.
  - exists q. split; [|done]. unfold ngx_str_rbtree_lookup, mbind, M_bind. simpl. exact E.
Qed.
End Lookup.

(** Three strings, two of them with the same hash. *)
Definition words : rb str :=
  let s := mkRb str (list_to_map [(8, mkNode str 0 0 0 0 0 []); (16, mkNode str 7 0 0 0 0 (lit "ab"));
    (32, mkNode str 7 0 0 0 0 (lit "aa")); (48, mkNode str 9 0 0 0 0 (lit "c"))]) 8 in
  default s (fold_left (fun o q => s ← o; '(_, s) ← ngx_rbtree_insert 8 (ngx_str_rbtree_insert_value 8) q s; Some s)
    [16; 32; 48] (Some s)).

Lemma str_rbtree_lookup_witness :
  exists q, ngx_str_rbtree_lookup 8 (lit "aa") 7 words = Some (q, words)
    /\ (q = NULL <-> forall x, x ∈ [(32, (7, lit "aa")); (16, (7, lit "ab")); (48, (9, lit "c"))] -> x.2 <> (7, lit "aa"))
    /\ (q <> NULL -> (q, (7, lit "aa")) ∈ [(32, (7, lit "aa")); (16, (7, lit "ab")); (48, (9, lit "c"))]).
Proof.
  apply str_rbtree_lookup.
  - exists 0, (T Black (T Red E (32, (7, lit "aa")) E) (16, (7, lit "ab")) (T Red E (48, (9, lit "c")) E)), 1%nat.
    split; [split_and!|split_and!]; try done; try (by repeat constructor).
    + by eexists.
    + by apply (bool_decide_unpack _).
  - by apply (bool_decide_unpack _).
Defined.

End StrTree.
