(* ===== verification/NgxCrc.v ===== *)
(** * Checksums

    The CRC-32 of src/nginx-1.7.2/src/core/ngx_crc32.h and its tables in ngx_crc32.c.  The
    two table-driven loops are proved equal to the division by the polynomial one bit
    at a time. *)

From S2P Require Import Prelude.

Module Crc.

Definition ngx_crc32_table16 : list Z :=
  [0; 498536548; 997073096; 651767980; 1994146192; 1802195444;
   1303535960; 1342533948; 3988292384; 4027552580; 3604390888; 3412177804;
   2607071920; 2262029012; 2685067896; 3183342108].

Definition ngx_crc32_table256 : list Z :=
  [0; 1996959894; 3993919788; 2567524794; 124634137; 1886057615;
   3915621685; 2657392035; 249268274; 2044508324; 3772115230; 2547177864;
   162941995; 2125561021; 3887607047; 2428444049; 498536548; 1789927666;
   4089016648; 2227061214; 450548861; 1843258603; 4107580753; 2211677639;
   325883990; 1684777152; 4251122042; 2321926636; 335633487; 1661365465;
   4195302755; 2366115317; 997073096; 1281953886; 3579855332; 2724688242;
   1006888145; 1258607687; 3524101629; 2768942443; 901097722; 1119000684;
   3686517206; 2898065728; 853044451; 1172266101; 3705015759; 2882616665;
   651767980; 1373503546; 3369554304; 3218104598; 565507253; 1454621731;
   3485111705; 3099436303; 671266974; 1594198024; 3322730930; 2970347812;
   795835527; 1483230225; 3244367275; 3060149565; 1994146192; 31158534;
   2563907772; 4023717930; 1907459465; 112637215; 2680153253; 3904427059;
   2013776290; 251722036; 2517215374; 3775830040; 2137656763; 141376813;
   2439277719; 3865271297; 1802195444; 476864866; 2238001368; 4066508878;
   1812370925; 453092731; 2181625025; 4111451223; 1706088902; 314042704;
   2344532202; 4240017532; 1658658271; 366619977; 2362670323; 4224994405;
   1303535960; 984961486; 2747007092; 3569037538; 1256170817; 1037604311;
   2765210733; 3554079995; 1131014506; 879679996; 2909243462; 3663771856;
   1141124467; 855842277; 2852801631; 3708648649; 1342533948; 654459306;
   3188396048; 3373015174; 1466479909; 544179635; 3110523913; 3462522015;
   1591671054; 702138776; 2966460450; 3352799412; 1504918807; 783551873;
   3082640443; 3233442989; 3988292384; 2596254646; 62317068; 1957810842;
   3939845945; 2647816111; 81470997; 1943803523; 3814918930; 2489596804;
   225274430; 2053790376; 3826175755; 2466906013; 167816743; 2097651377;
   4027552580; 2265490386; 503444072; 1762050814; 4150417245; 2154129355;
   426522225; 1852507879; 4275313526; 2312317920; 282753626; 1742555852;
   4189708143; 2394877945; 397917763; 1622183637; 3604390888; 2714866558;
   953729732; 1340076626; 3518719985; 2797360999; 1068828381; 1219638859;
   3624741850; 2936675148; 906185462; 1090812512; 3747672003; 2825379669;
   829329135; 1181335161; 3412177804; 3160834842; 628085408; 1382605366;
   3423369109; 3138078467; 570562233; 1426400815; 3317316542; 2998733608;
   733239954; 1555261956; 3268935591; 3050360625; 752459403; 1541320221;
   2607071920; 3965973030; 1969922972; 40735498; 2617837225; 3943577151;
   1913087877; 83908371; 2512341634; 3803740692; 2075208622; 213261112;
   2463272603; 3855990285; 2094854071; 198958881; 2262029012; 4057260610;
   1759359992; 534414190; 2176718541; 4139329115; 1873836001; 414664567;
   2282248934; 4279200368; 1711684554; 285281116; 2405801727; 4167216745;
   1634467795; 376229701; 2685067896; 3608007406; 1308918612; 956543938;
   2808555105; 3495958263; 1231636301; 1047427035; 2932959818; 3654703836;
   1088359270; 936918000; 2847714899; 3736837829; 1202900863; 817233897;
   3183342108; 3401237130; 1404277552; 615818150; 3134207493; 3453421203;
   1423857449; 601450431; 3009837614; 3294710456; 1567103746; 711928724;
   3020668471; 3272380065; 1510334235; 755167117].

(** The loop of [ngx_crc32_short], four bits at a time. *)
Definition short_step (crc c : Z) : Z :=
  let crc := Z.lxor (nth (Z.to_nat (Z.land (Z.lxor crc (Z.land c 15)) 15)) ngx_crc32_table16 0)
    (Z.shiftr crc 4) in
  Z.lxor (nth (Z.to_nat (Z.land (Z.lxor crc (Z.shiftr c 4)) 15)) ngx_crc32_table16 0) (Z.shiftr crc 4).

Definition ngx_crc32_short (p : list Z) : Z :=
  Z.lxor (fold_left short_step p 4294967295) 4294967295.

(** The loop of [ngx_crc32_long] and [ngx_crc32_update], eight bits at a time. *)
Definition long_step (crc c : Z) : Z :=
  Z.lxor (nth (Z.to_nat (Z.land (Z.lxor crc c) 255)) ngx_crc32_table256 0) (Z.shiftr crc 8).

Definition ngx_crc32_long (p : list Z) : Z :=
  Z.lxor (fold_left long_step p 4294967295) 4294967295.

Definition ngx_crc32_init : Z := 4294967295.
Definition ngx_crc32_update (crc : Z) (p : list Z) : Z := fold_left long_step p crc.
Definition ngx_crc32_final (crc : Z) : Z := Z.lxor crc 4294967295.

(** ** The polynomial *)

(** One bit of the division by the CRC-32 polynomial, with the bits reflected. *)
Definition bit_step (crc : Z) : Z :=
  if Z.odd crc then Z.lxor (Z.shiftr crc 1) 3988292384 else Z.shiftr crc 1.

Fixpoint bit_steps (n : nat) (crc : Z) : Z :=
  match n with O => crc | S n' => bit_step (bit_steps n' crc) end.

Definition byte_step (crc c : Z) : Z := bit_steps 8 (Z.lxor crc c).

Definition crc32_spec (p : list Z) : Z := Z.lxor (fold_left byte_step p 4294967295) 4294967295.

Example crc32_check : crc32_spec (lit "123456789") = 3421780262.
Proof. vm_compute. reflexivity. Qed.

(** ** The tables *)

Lemma bit_step_lxor a b : bit_step (Z.lxor a b) = Z.lxor (bit_step a) (bit_step b).
Proof.
  unfold bit_step. rewrite <- !Z.bit0_odd, Z.lxor_spec, Z.shiftr_lxor.
  apply Z.bits_inj. intros i.
  destruct (Z.testbit a 0), (Z.testbit b 0); cbn [xorb]; rewrite ?Z.lxor_spec;
    destruct (Z.testbit (Z.shiftr a 1) i), (Z.testbit (Z.shiftr b 1) i), (Z.testbit 3988292384 i); done.
Qed.

Lemma iter_bit_lxor n a b :
  bit_steps n (Z.lxor a b) = Z.lxor (bit_steps n a) (bit_steps n b).
Proof. induction n as [|n IH]; [done|]. simpl. rewrite IH. apply bit_step_lxor. Qed.

(** Low bits that are zero are shifted out. *)
Lemma iter_bit_shiftl n y : bit_steps n (Z.shiftl y (Z.of_nat n)) = y.
Proof.
  revert y. induction n as [|n IH]; intros y; [apply Z.shiftl_0_r|].
  rewrite Nat2Z.inj_succ. simpl.
  replace (Z.shiftl y (Z.succ (Z.of_nat n))) with (Z.shiftl (Z.shiftl y 1) (Z.of_nat n))
    by (rewrite Z.shiftl_shiftl by lia; f_equal; lia).
  rewrite IH. unfold bit_step.
  rewrite <- Z.bit0_odd, Z.shiftl_spec_low by lia.
  rewrite Z.shiftr_shiftl_l by lia. apply Z.shiftl_0_r.
Qed.

Lemma split_low x k : 0 <= k -> x = Z.lxor (Z.shiftl (Z.shiftr x k) k) (Z.land x (2 ^ k - 1)).
Proof.
  intros Hk. apply Z.bits_inj'. intros i Hi. rewrite Z.lxor_spec, Z.land_spec.
  rewrite Z.sub_1_r, <- Z.ones_equiv.
  rewrite Z.testbit_ones_nonneg by lia.
  destruct (Z.ltb_spec i k).
  - rewrite Z.shiftl_spec_low by lia. by destruct (Z.testbit x i).
  - rewrite Z.shiftl_spec_high, Z.shiftr_spec by lia. replace (i - k + k) with i by lia.
    by destruct (Z.testbit x i).
Qed.

(** [n] bits at once: a table entry for the low bits, and the high bits. *)
Lemma iter_bit_table n table x :
  0 <= x -> (forall lo, 0 <= lo < 2 ^ Z.of_nat n -> bit_steps n lo = nth (Z.to_nat lo) table 0) ->
  bit_steps n x =
    Z.lxor (nth (Z.to_nat (Z.land x (2 ^ Z.of_nat n - 1))) table 0) (Z.shiftr x (Z.of_nat n)).
Proof.
  intros Hx Ht. rewrite (split_low x (Z.of_nat n)) at 1 by lia.
  rewrite iter_bit_lxor, iter_bit_shiftl, Z.lxor_comm. f_equal. apply Ht.
  rewrite land_low by lia. apply Z.mod_pos_bound. lia.
Qed.

(** A finite table, checked entry by entry. *)
Lemma table_check n table :
  forallb (fun i => bit_steps n (Z.of_nat i) =? nth i table 0) (seq 0 (2 ^ n)) = true ->
  forall lo, 0 <= lo < 2 ^ Z.of_nat n -> bit_steps n lo = nth (Z.to_nat lo) table 0.
Proof.
  intros Hc lo Hlo. rewrite forallb_forall in Hc.
  specialize (Hc (Z.to_nat lo)). rewrite Z2Nat.id in Hc by lia. apply Z.eqb_eq, Hc.
  apply in_seq. split; [lia|]. rewrite Nat.add_0_l. apply Nat2Z.inj_lt.
  rewrite Z2Nat.id, Nat2Z.inj_pow by lia. apply Hlo.
Qed.

Lemma iter4_table x : 0 <= x ->
  bit_steps 4 x = Z.lxor (nth (Z.to_nat (Z.land x 15)) ngx_crc32_table16 0) (Z.shiftr x 4).
Proof. intros Hx. apply (iter_bit_table 4 ngx_crc32_table16 x Hx), table_check. vm_compute. reflexivity. Qed.

Lemma iter8_table x : 0 <= x ->
  bit_steps 8 x = Z.lxor (nth (Z.to_nat (Z.land x 255)) ngx_crc32_table256 0) (Z.shiftr x 8).
Proof. intros Hx. apply (iter_bit_table 8 ngx_crc32_table256 x Hx), table_check. vm_compute. reflexivity. Qed.

(** ** Both loops *)

Lemma nth_nonneg table i : Forall (fun x => 0 <= x) table -> 0 <= nth i table 0.
Proof.
  intros Ht. destruct (Nat.lt_ge_cases i (length table)) as [Hi|Hi]; [|by rewrite nth_overflow].
  rewrite List.Forall_forall in Ht. apply Ht. by apply nth_In.
Qed.

Lemma table16_nonneg : Forall (fun x => 0 <= x) ngx_crc32_table16.
Proof. by apply (bool_decide_unpack _). Qed.

Lemma table256_nonneg : Forall (fun x => 0 <= x) ngx_crc32_table256.
Proof. by apply (bool_decide_unpack _). Qed.

Lemma long_step_spec crc c : 0 <= crc -> 0 <= c < 256 -> long_step crc c = byte_step crc c /\ 0 <= byte_step crc c.
Proof.
  intros Hcrc Hc. unfold long_step, byte_step.
  assert (Hx : 0 <= Z.lxor crc c) by (apply Z.lxor_nonneg; lia).
  rewrite iter8_table by done. split.
  - f_equal. rewrite Z.shiftr_lxor, (Z.shiftr_div_pow2 c), (Z.div_small c) by (simpl; lia).
    by rewrite Z.lxor_0_r.
  - apply Z.lxor_nonneg. rewrite Z.shiftr_nonneg. pose proof (nth_nonneg _
      (Z.to_nat (Z.land (Z.lxor crc c) 255)) table256_nonneg). lia.
Qed.

Lemma bit_steps_add n m x : bit_steps (n + m) x = bit_steps n (bit_steps m x).
Proof. induction n as [|n IH]; simpl; congruence. Qed.

(** The low four bits of the byte first, then the high ones on what is left. *)
Lemma short_step_spec crc c : 0 <= crc -> 0 <= c < 256 -> short_step crc c = byte_step crc c.
Proof.
  intros Hcrc Hc. unfold short_step, byte_step. change 8%nat with (4 + 4)%nat. rewrite bit_steps_add.
  assert (Hlo : 0 <= Z.land c 15) by (apply Z.land_nonneg; lia).
  assert (Hhi : 0 <= Z.shiftr c 4) by (apply Z.shiftr_nonneg; lia).
  assert (E1 : Z.lxor (nth (Z.to_nat (Z.land (Z.lxor crc (Z.land c 15)) 15)) ngx_crc32_table16 0) (Z.shiftr crc 4)
    = bit_steps 4 (Z.lxor crc (Z.land c 15))).
  { rewrite iter4_table by (apply Z.lxor_nonneg; lia). f_equal.
    rewrite Z.shiftr_lxor, Z.shiftr_land. change (Z.shiftr 15 4) with 0. by rewrite Z.land_0_r, Z.lxor_0_r. }
  rewrite E1. set (crc1 := bit_steps 4 (Z.lxor crc (Z.land c 15))).
  assert (H1 : 0 <= crc1).
  { unfold crc1. rewrite <- E1. apply Z.lxor_nonneg. rewrite Z.shiftr_nonneg.
    pose proof (nth_nonneg _ (Z.to_nat (Z.land (Z.lxor crc (Z.land c 15)) 15)) table16_nonneg). lia. }
  assert (E2 : bit_steps 4 (Z.lxor crc c) = Z.lxor crc1 (Z.shiftr c 4)).
  { rewrite (split_low c 4) at 1 by lia. rewrite (Z.lxor_comm (Z.shiftl _ _)), <- Z.lxor_assoc, iter_bit_lxor.
    change 4 with (Z.of_nat 4) at 1. by rewrite iter_bit_shiftl. }
  rewrite E2, iter4_table by (apply Z.lxor_nonneg; lia). f_equal.
  rewrite Z.shiftr_lxor, Z.shiftr_shiftr by lia. change (4 + 4) with 8.
  rewrite (Z.shiftr_div_pow2 c 8), (Z.div_small c) by (simpl; lia). by rewrite Z.lxor_0_r.
Qed.

Lemma fold_steps p crc :
  bytes_ok p -> 0 <= crc ->
  fold_left long_step p crc = fold_left byte_step p crc
  /\ fold_left short_step p crc = fold_left byte_step p crc /\ 0 <= fold_left byte_step p crc.
Proof.
  intros Hp. revert crc. induction Hp as [|c p Hc _ IH]; intros crc Hcrc; [done|]. simpl.
  destruct (long_step_spec crc c Hcrc Hc) as [-> Hn]. rewrite short_step_spec by done. by apply IH.
Qed.

(** ** Theorems *)

(** C38: The CRCs with the table of 16 and with the table of 256 entries are the same
    function, the CRC-32 of the polynomial; and it can be computed piece by piece with
    [ngx_crc32_init], [ngx_crc32_update] and [ngx_crc32_final]. *)
Theorem crc32_correct pieces :
  Forall bytes_ok pieces ->
  let p := concat pieces in
  ngx_crc32_long p = crc32_spec p /\ ngx_crc32_short p = crc32_spec p
  /\ ngx_crc32_final (foldl ngx_crc32_update ngx_crc32_init pieces) = crc32_spec p.
Proof.
  intros Hp p. assert (Hb : bytes_ok p) by (unfold p; by apply Forall_concat).
  destruct (fold_steps p 4294967295 Hb) as (E1 & E2 & _); [lia|].
  unfold ngx_crc32_long, ngx_crc32_short, crc32_spec, ngx_crc32_final, ngx_crc32_init.
  rewrite E1, E2. split_and!; [done..|]. f_equal. rewrite <- E1. unfold p. clear.
  generalize 4294967295 as crc. induction pieces as [|q pieces IH]; intros crc; [done|].
  simpl. rewrite IH, fold_left_app. done.
Qed.

Lemma crc32_correct_witness :
  ngx_crc32_short (lit "123456789") = 3421780262
  /\ ngx_crc32_final (ngx_crc32_update (ngx_crc32_update ngx_crc32_init (lit "1234")) (lit "56789")) = 3421780262.
Proof.
  destruct (crc32_correct [lit "1234"; lit "56789"]) as (_ & H2 & H3).
  - repeat (apply List.Forall_cons; [by apply (bool_decide_unpack _)|]). apply List.Forall_nil.
  - split; [exact H2|exact H3].
Defined.

End Crc.
