(* ===== verification/NgxInet.v ===== *)
(** * Addresses

    [ngx_inet_addr], [ngx_inet_ntop] and [ngx_ptocidr] for IPv4, of
    src/nginx-1.7.2/src/core/ngx_inet.c (the recorded build has no IPv6).  An
    [in_addr_t] holds the bytes of the address in memory order; the target is
    little-endian. *)

From S2P Require Import Prelude NgxString NgxNumber HttpArgs.

Module Inet.

Definition INADDR_NONE : Z := 4294967295.

(** [htonl] of a little-endian target; [ntohl] is the same. *)
Definition htonl (x : Z) : Z :=
  Z.lor (Z.shiftl (Z.land x 255) 24)
    (Z.lor (Z.shiftl (Z.land (Z.shiftr x 8) 255) 16)
      (Z.lor (Z.shiftl (Z.land (Z.shiftr x 16) 255) 8) (Z.land (Z.shiftr x 24) 255))).

(** [((u_char * ) &addr)[i]] *)
Definition addr_byte (addr : Z) (i : Z) : Z := Z.land (Z.shiftr addr (8 * i)) 255.

(** The loop of [ngx_inet_addr]; [None] is its [return INADDR_NONE]. *)
Fixpoint addr_loop `{Arch} (text : list Z) (addr octet n : Z) : option (Z * Z * Z) :=
  match text with
  | [] => Some (addr, octet, n)
  | c :: text' =>
      if c_0 <=? c <=? c_9 then addr_loop text' addr (uint ptr_bits (octet * 10 + (c - c_0))) n
      else if (c =? cDOT) && (octet <? 256) then
        addr_loop text' (uint 32 (uint 32 (Z.shiftl addr 8) + octet)) 0 (uint ptr_bits (n + 1))
      else None
  end.

Definition ngx_inet_addr `{Arch} (text : list Z) : Z :=
  match addr_loop text 0 0 0 with
  | Some (addr, octet, n) =>
      if (n =? 3) && (octet <? 256) then htonl (uint 32 (uint 32 (Z.shiftl addr 8) + octet))
      else INADDR_NONE
  | None => INADDR_NONE
  end.

(** [ngx_inet_ntop(AF_INET, &addr, text, len)]: the bytes written. *)
Definition ngx_inet_ntop `{Arch} (addr len : Z) : option (list Z) :=
  ngx_snprintf len (lit "%ud.%ud.%ud.%ud")
    [AInt (addr_byte addr 0); AInt (addr_byte addr 1); AInt (addr_byte addr 2); AInt (addr_byte addr 3)].

(** [ngx_in_cidr_t] *)
Record cidr := mkCidr { c_addr : Z; c_mask : Z }.

(** [ngx_ptocidr]: the return code and, unless it is [NGX_ERROR], the network. *)
Definition ngx_ptocidr `{Arch} (text : list Z) : Z * cidr :=
  let mask := HttpArgs.ngx_strlchr text cSLASH in
  let len := match mask with Some i => i | None => length text end in
  let addr := ngx_inet_addr (take len text) in
  if addr =? INADDR_NONE then (NGX_ERROR, mkCidr addr 0)
  else
    match mask with
    | None => (NGX_OK, mkCidr addr 4294967295)
    | Some i =>
        let shift := ngx_atoi (drop (S i) text) in
        if shift =? NGX_ERROR then (NGX_ERROR, mkCidr addr 0)
        else if 32 <? shift then (NGX_ERROR, mkCidr addr 0)
        else
          let mask :=
            if negb (shift =? 0) then htonl (uint 32 (Z.shiftl 4294967295 (32 - shift))) else 0 in
          if addr =? Z.land addr mask then (NGX_OK, mkCidr addr mask)
          else (NGX_DONE, mkCidr (Z.land addr mask) mask)
    end.

(** ** Byte order *)

(** The address with the bytes [a], [b], [c], [d], in host order and as an [in_addr_t]. *)
Definition host (a b c d : Z) : Z := a * 2 ^ 24 + b * 2 ^ 16 + c * 2 ^ 8 + d.
Definition in_addr (a b c d : Z) : Z := host d c b a.

Lemma land_255 x : Z.land x 255 = x mod 256.
Proof. apply (land_low x 8). lia. Qed.

Lemma htonl_arith x :
  htonl x = host (x mod 256) (x / 2 ^ 8 mod 256) (x / 2 ^ 16 mod 256) (x / 2 ^ 24 mod 256).
Proof.
  unfold htonl. rewrite !land_255, !Z.shiftr_div_pow2 by lia.
  pose proof (Z.mod_pos_bound x 256 ltac:(lia)). pose proof (Z.mod_pos_bound (x / 2 ^ 8) 256 ltac:(lia)).
  pose proof (Z.mod_pos_bound (x / 2 ^ 16) 256 ltac:(lia)). pose proof (Z.mod_pos_bound (x / 2 ^ 24) 256 ltac:(lia)).
  change (2 ^ 8) with 256 in *. change (2 ^ 16) with 65536 in *. change (2 ^ 24) with 16777216 in *.
  rewrite (lor_disjoint _ _ 8) by (change (2 ^ 8) with 256; lia).
  change (2 ^ 8) with 256. rewrite (lor_disjoint _ _ 16) by (change (2 ^ 16) with 65536; lia).
  change (2 ^ 16) with 65536. rewrite (lor_disjoint _ _ 24) by (change (2 ^ 24) with 16777216; lia).
  unfold host. change (2 ^ 24) with 16777216. change (2 ^ 16) with 65536. change (2 ^ 8) with 256. lia.
Qed.

Lemma host_bytes a b c d :
  byte_ok a -> byte_ok b -> byte_ok c -> byte_ok d ->
  host a b c d mod 256 = d /\ host a b c d / 2 ^ 8 mod 256 = c
  /\ host a b c d / 2 ^ 16 mod 256 = b /\ host a b c d / 2 ^ 24 mod 256 = a.
Proof.
  unfold byte_ok, host. intros. change (2 ^ 24) with 16777216. change (2 ^ 16) with 65536. change (2 ^ 8) with 256.
  Z.to_euclidean_division_equations. lia.
Qed.

Lemma htonl_host a b c d :
  byte_ok a -> byte_ok b -> byte_ok c -> byte_ok d -> htonl (host a b c d) = in_addr a b c d.
Proof.
  intros Ha Hb Hc Hd. rewrite htonl_arith. destruct (host_bytes a b c d) as (-> & -> & -> & ->); done.
Qed.

(** Every 32-bit integer is made of its bytes. *)
Lemma host_split x :
  0 <= x < 2 ^ 32 -> exists a b c d, byte_ok a /\ byte_ok b /\ byte_ok c /\ byte_ok d /\ x = host a b c d.
Proof.
  intros Hx. change (2 ^ 32) with 4294967296 in Hx.
  exists (x / 16777216), (x / 65536 mod 256), (x / 256 mod 256), (x mod 256).
  unfold byte_ok, host. change (2 ^ 24) with 16777216. change (2 ^ 16) with 65536. change (2 ^ 8) with 256.
  Z.to_euclidean_division_equations. lia.
Qed.

Lemma htonl_involutive x : 0 <= x < 2 ^ 32 -> htonl (htonl x) = x.
Proof.
  intros Hx. destruct (host_split x Hx) as (a & b & c & d & Ha & Hb & Hc & Hd & ->).
  rewrite htonl_host by done. unfold in_addr. by rewrite htonl_host.
Qed.

Lemma htonl_range x : 0 <= htonl x < 2 ^ 32.
Proof.
  rewrite htonl_arith. unfold host. change (2 ^ 32) with 4294967296. change (2 ^ 24) with 16777216.
  change (2 ^ 16) with 65536. change (2 ^ 8) with 256. Z.to_euclidean_division_equations. lia.
Qed.

(** Masking commutes with the change of the byte order. *)
Lemma htonl_land x y : htonl (Z.land x y) = Z.land (htonl x) (htonl y).
Proof.
  assert (E : forall j, Z.testbit 255 j = (0 <=? j) && (j <? 8)).
  { intros j. change 255 with (Z.ones 8). destruct (Z.leb_spec 0 j).
    - by rewrite Z.testbit_ones_nonneg by lia.
    - by rewrite Z.testbit_neg_r by lia. }
  apply Z.bits_inj'. intros i Hi. unfold htonl.
  rewrite !Z.shiftr_land, !Z.lor_spec, !Z.land_spec, !Z.lor_spec, !Z.shiftl_spec, !Z.land_spec, !E by lia.
  destruct (Z.leb_spec 0 (i - 24)), (Z.leb_spec 0 (i - 16)), (Z.leb_spec 0 (i - 8)), (Z.leb_spec 0 i);
    try lia;
    destruct (Z.ltb_spec (i - 24) 8), (Z.ltb_spec (i - 16) 8), (Z.ltb_spec (i - 8) 8), (Z.ltb_spec i 8);
    try lia; cbn [andb orb]; rewrite ?andb_false_r, ?andb_true_r, ?orb_false_r, ?orb_false_l; done.
Qed.

(** Clearing the low bits of a 32-bit integer with a mask of leading ones. *)
Lemma land_mask x k :
  0 <= x < 2 ^ 32 -> 0 <= k <= 32 -> Z.land x (2 ^ 32 - 2 ^ k) = x - x mod 2 ^ k.
Proof.
  intros Hx Hk.
  assert (E : 2 ^ 32 - 2 ^ k = Z.shiftl (Z.ones (32 - k)) k).
  { rewrite Z.shiftl_mul_pow2, Z.ones_equiv, <- Z.sub_1_r, Z.mul_sub_distr_r, <- Z.pow_add_r by lia.
    replace (32 - k + k) with 32 by lia. lia. }
  rewrite E.
  assert (E2 : x - x mod 2 ^ k = Z.shiftl (Z.shiftr x k) k).
  { rewrite Z.shiftl_mul_pow2, Z.shiftr_div_pow2 by lia. pose proof (Z.div_mod x (2 ^ k) ltac:(lia)). lia. }
  rewrite E2. apply Z.bits_inj'. intros i Hi. rewrite Z.land_spec, !Z.shiftl_spec by lia.
  destruct (Z.leb_spec k i).
  - rewrite Z.shiftr_spec, Z.testbit_ones_nonneg by lia. replace (i - k + k) with i by lia.
    destruct (Z.ltb_spec (i - k) (32 - k)); [by rewrite andb_true_r|]. rewrite andb_false_r.
    destruct (Z.eq_dec x 0) as [->|]; [by rewrite Z.bits_0|].
    rewrite Z.bits_above_log2; [done|lia|]. apply Z.log2_lt_pow2; [lia|].
    apply Z.lt_le_trans with (2 ^ 32); [lia|]. apply Z.pow_le_mono_r; lia.
  - rewrite !(Z.testbit_neg_r _ (i - k)) by lia. apply andb_false_r.
Qed.

(** ** Dotted text *)

Definition digits (ds : list Z) : list Z := map (fun d => d + c_0) ds.

Definition dotted (d0 d1 d2 d3 : list Z) : list Z :=
  digits d0 ++ cDOT :: digits d1 ++ cDOT :: digits d2 ++ cDOT :: digits d3.

(** The digits of an octet: they may be missing, and have to fit an [ngx_uint_t]. *)
Definition octet_ok `{Arch} (ds : list Z) : Prop :=
  Forall (fun d => 0 <= d < 10) ds /\ num_value 10 ds < 2 ^ ptr_bits.

Section Code.
Context `{Arch}.

Lemma addr_loop_digits ds rest addr octet n :
  Forall (fun d => 0 <= d < 10) ds -> 0 <= octet ->
  fold_left (fun v d => v * 10 + d) ds octet < 2 ^ ptr_bits ->
  addr_loop (digits ds ++ rest) addr octet n =
    addr_loop rest addr (fold_left (fun v d => v * 10 + d) ds octet) n.
Proof.
  revert octet. induction ds as [|d ds IH]; intros octet Hd Ho Hlt; [done|].
  apply Forall_cons in Hd as [Hd Hds]. simpl in Hlt.
  assert (octet * 10 + d <= fold_left (fun v d => v * 10 + d) ds (octet * 10 + d)).
  { rewrite num_value_acc. pose proof (num_value_range 10 ds ltac:(lia) Hds).
    assert (1 <= 10 ^ Z.of_nat (length ds)) by (apply (Z.pow_le_mono_r 10 0); lia). nia. }
  cbn [digits map app addr_loop fold_left].
  rewrite (proj2 (Z.leb_le 48 _)), (proj2 (Z.leb_le _ 57)) by lia. cbn [andb].
  replace (d + 48 - 48) with d by lia. rewrite uint_small by lia.
  apply IH; [done|lia|done].
Qed.

(** One octet and its dot. *)
Lemma addr_loop_octet ds rest addr n :
  octet_ok ds -> 0 <= addr < 2 ^ 24 -> 0 <= n < 4 ->
  addr_loop (digits ds ++ cDOT :: rest) addr 0 n =
    (if num_value 10 ds <? 256 then addr_loop rest (addr * 256 + num_value 10 ds) 0 (n + 1) else None).
Proof.
  intros [Hd Hv] Ha Hn. rewrite addr_loop_digits by (done || lia). cbn [addr_loop Z.eqb Z.leb Pos.eqb Z.compare
    Pos.compare Pos.compare_cont andb]. change (fold_left _ ds 0) with (num_value 10 ds).
  destruct (Z.ltb_spec (num_value 10 ds) 256); [|done].
  pose proof (num_value_range 10 ds ltac:(lia) Hd). change (2 ^ 24) with 16777216 in Ha.
  rewrite Z.shiftl_mul_pow2 by lia. change (2 ^ 8) with 256.
  rewrite (uint_small 32 (addr * 256)) by (simpl; lia). rewrite uint_small by (simpl; lia).
  rewrite uint_small by (pose proof ptr_pow_32; simpl in *; lia). done.
Qed.

(** A dotted address is its four bytes in memory order; an octet over 255 is refused. *)
Lemma inet_addr_dotted d0 d1 d2 d3 :
  octet_ok d0 -> octet_ok d1 -> octet_ok d2 -> octet_ok d3 ->
  ngx_inet_addr (dotted d0 d1 d2 d3) =
    (if (num_value 10 d0 <? 256) && (num_value 10 d1 <? 256) && (num_value 10 d2 <? 256)
        && (num_value 10 d3 <? 256)
     then in_addr (num_value 10 d0) (num_value 10 d1) (num_value 10 d2) (num_value 10 d3)
     else INADDR_NONE).
Proof.
  intros H0 H1 H2 H3. unfold ngx_inet_addr, dotted.
  pose proof (num_value_range 10 d0 ltac:(lia) (proj1 H0)). pose proof (num_value_range 10 d1 ltac:(lia) (proj1 H1)).
  pose proof (num_value_range 10 d2 ltac:(lia) (proj1 H2)). pose proof (num_value_range 10 d3 ltac:(lia) (proj1 H3)).
  rewrite addr_loop_octet by (done || lia). destruct (Z.ltb_spec (num_value 10 d0) 256); [|done].
  rewrite addr_loop_octet by (done || simpl; lia). destruct (Z.ltb_spec (num_value 10 d1) 256); [|done].
  rewrite addr_loop_octet by (done || simpl; lia). destruct (Z.ltb_spec (num_value 10 d2) 256); [|done].
  rewrite <- (app_nil_r (digits d3)), addr_loop_digits by (apply H3 || lia).
  change (fold_left _ d3 0) with (num_value 10 d3). cbn [addr_loop].
  change (0 + 1 + 1 + 1 =? 3) with true. cbn [andb]. destruct (Z.ltb_spec (num_value 10 d3) 256); [|done].
  rewrite Z.shiftl_mul_pow2 by lia. change (2 ^ 8) with 256.
  rewrite (uint_small 32 (_ * 256)) by (simpl; lia). rewrite uint_small by (simpl; lia).
  rewrite <- htonl_host by (unfold byte_ok; lia). f_equal. unfold host. simpl. lia.
Qed.

(** *** Printing *)

(** At most three digits for a byte. *)
Lemma byte_digits b :
  byte_ok b -> exists ds, num_digits b 0 = Some (digits ds) /\ octet_ok ds /\ num_value 10 ds = b
    /\ (1 <= length ds <= 3)%nat.
Proof.
  intros Hb. destruct (num_digits_dec b) as (ds & Hd & H10 & Hv & Hl & _).
  { unfold byte_ok in Hb. simpl. lia. }
  exists ds. split; [done|]. split.
  { split; [done|]. rewrite Hv. pose proof ptr_pow_32. unfold byte_ok in Hb. simpl in *. lia. }
  split; [done|]. split; [lia|].
  assert (Hs : match num_digits b 0 with Some p => (length p <=? 3)%nat | None => false end = true)
    by (revert b Hb Hd Hv; intros b Hb _ _; apply (byte_forall (fun b => match num_digits b 0 with
          Some p => (length p <=? 3)%nat | None => false end)); [vm_compute; reflexivity|done]).
  rewrite Hd in Hs. rewrite length_map in Hs. by apply Nat.leb_le.
Qed.

Lemma directive_ud room rest b ds args :
  byte_ok b -> num_digits b 0 = Some (digits ds) -> Z.of_nat (length ds) <= room ->
  fmt_directive (117 :: 100 :: rest) room (AInt b :: args) = Some (rest, args, digits ds).
Proof.
  intros Hb Hd Hl. unfold fmt_directive. cbn -[print_number sint uint]. unfold print_number.
  cbn -[ngx_sprintf_num uint sint]. unfold byte_ok in Hb.
  rewrite (uint_small 32 b) by (simpl; lia). rewrite (sprintf_num_fits _ _ _ _ _ _ Hd).
  - unfold digits. by rewrite length_map, Z2Nat.nonpos by lia.
  - unfold digits. rewrite length_map. lia.
Qed.

Lemma addr_byte_in_addr a b c d :
  byte_ok a -> byte_ok b -> byte_ok c -> byte_ok d ->
  addr_byte (in_addr a b c d) 0 = a /\ addr_byte (in_addr a b c d) 1 = b
  /\ addr_byte (in_addr a b c d) 2 = c /\ addr_byte (in_addr a b c d) 3 = d.
Proof.
  intros Ha Hb Hc Hd. unfold addr_byte, in_addr. rewrite !land_255, !Z.shiftr_div_pow2 by lia.
  destruct (host_bytes d c b a) as (H1 & H2 & H3 & H4); [done..|].
  change (8 * 1) with 8. change (8 * 2) with 16. change (8 * 3) with 24. change (2 ^ (8 * 0)) with 1.
  rewrite Z.div_1_r. done.
Qed.

Lemma inet_ntop_text a b c d len :
  byte_ok a -> byte_ok b -> byte_ok c -> byte_ok d -> 15 <= len ->
  exists d0 d1 d2 d3, ngx_inet_ntop (in_addr a b c d) len = Some (dotted d0 d1 d2 d3)
    /\ (octet_ok d0 /\ num_value 10 d0 = a) /\ (octet_ok d1 /\ num_value 10 d1 = b)
    /\ (octet_ok d2 /\ num_value 10 d2 = c) /\ (octet_ok d3 /\ num_value 10 d3 = d)
    /\ (length (dotted d0 d1 d2 d3) <= 15)%nat.
Proof.
  intros Ha Hb Hc Hd Hl. unfold ngx_inet_ntop.
  destruct (addr_byte_in_addr a b c d) as (-> & -> & -> & ->); [done..|].
  destruct (byte_digits a Ha) as (d0 & E0 & O0 & V0 & L0), (byte_digits b Hb) as (d1 & E1 & O1 & V1 & L1),
    (byte_digits c Hc) as (d2 & E2 & O2 & V2 & L2), (byte_digits d Hd) as (d3 & E3 & O3 & V3 & L3).
  exists d0, d1, d2, d3. unfold ngx_snprintf. eval_lit.
  assert (Hdl : forall ds, length (digits ds) = length ds) by (intros ds; apply length_map).
  do 4 (erewrite vslprintf_directive;
    [| |eapply directive_ud; [eassumption|eassumption|lia]]; [|lia]; rewrite Hdl;
    try rewrite vslprintf_char by lia).
  rewrite vslprintf_nil. cbn [fmap option_fmap option_map]. unfold dotted. rewrite app_nil_r.
  split_and!; try done. repeat (rewrite length_app || rewrite length_cons). rewrite !Hdl. lia.
Qed.

End Code.

(** ** Theorems *)

(** An address printed by [ngx_inet_ntop] takes at most 15 bytes and is read back by
    [ngx_inet_addr]. *)
Theorem inet_roundtrip `{Arch} addr len :
  0 <= addr < 2 ^ 32 -> 15 <= len ->
  exists out, ngx_inet_ntop addr len = Some out /\ (length out <= 15)%nat /\ ngx_inet_addr out = addr.
Proof.
  intros Ha Hl. destruct (host_split addr Ha) as (d & c & b & a & Hd & Hc & Hb & Ha' & ->).
  change (host d c b a) with (in_addr a b c d).
  destruct (inet_ntop_text a b c d len) as (d0 & d1 & d2 & d3 & E & [O0 V0] & [O1 V1] & [O2 V2] & [O3 V3] & L);
    [done..|].
  exists (dotted d0 d1 d2 d3). split; [done|]. split; [done|].
  rewrite inet_addr_dotted, V0, V1, V2, V3 by done. unfold byte_ok in *.
  by rewrite !(proj2 (Z.ltb_lt _ 256)) by lia.
Qed.

Lemma inet_roundtrip_witness :
  exists out, @ngx_inet_ntop ilp32 16777343 15 = Some out /\ (length out <= 15)%nat
    /\ @ngx_inet_addr ilp32 out = 16777343.
Proof. apply (@inet_roundtrip ilp32); [split; [lia|reflexivity]|lia]. Defined.

(** The first slash of a text whose part before it has none. *)
Lemma strlchr_first s rest :
  ~ In cSLASH s -> HttpArgs.ngx_strlchr (s ++ cSLASH :: rest) cSLASH = Some (length s).
Proof.
  induction s as [|x s IH]; intros Hn; [done|]. cbn [app HttpArgs.ngx_strlchr length].
  rewrite (proj2 (Z.eqb_neq x 47)) by (intros ->; apply Hn; by left).
  rewrite IH; [done|]. intros Hi. apply Hn. by right.
Qed.

Lemma dotted_no_slash d0 d1 d2 d3 : Forall (Forall (fun d => 0 <= d < 10)) [d0; d1; d2; d3] -> ~ In cSLASH (dotted d0 d1 d2 d3).
Proof.
  intros Hd. assert (Hn : forall ds, ds ∈ [d0; d1; d2; d3] -> ~ In cSLASH (digits ds)).
  { intros ds Hds Hi. unfold digits in Hi. apply in_map_iff in Hi as (d & E & Hi).
    rewrite Forall_forall in Hd. specialize (Hd ds Hds). rewrite List.Forall_forall in Hd.
    specialize (Hd d Hi). lia. }
  unfold dotted. rewrite !in_app_iff. simpl. rewrite !in_app_iff. simpl. rewrite !in_app_iff. simpl.
  intros Hx. decompose [or] Hx; try lia; eapply Hn; try eassumption; rewrite !elem_of_cons; tauto.
Qed.

(** The mask of a prefix length. *)
Lemma cidr_mask n :
  0 <= n <= 32 ->
  (if negb (n =? 0) then htonl (uint 32 (Z.shiftl 4294967295 (32 - n))) else 0) = htonl (2 ^ 32 - 2 ^ (32 - n)).
Proof.
  intros Hn. destruct (Z.eqb_spec n 0) as [->|Hne]; [done|]. cbn [negb]. f_equal.
  rewrite Z.shiftl_mul_pow2 by lia. unfold uint. change 4294967295 with (2 ^ 32 - 1).
  assert (2 ^ (32 - n) < 2 ^ 32) by (apply Z.pow_lt_mono_r; lia).
  replace ((2 ^ 32 - 1) * 2 ^ (32 - n)) with (2 ^ 32 - 2 ^ (32 - n) + (2 ^ (32 - n) - 1) * 2 ^ 32) by ring.
  rewrite Z_mod_plus_full. apply Z.mod_small. lia.
Qed.

Lemma htonl_eqb x y : 0 <= x < 2 ^ 32 -> 0 <= y < 2 ^ 32 -> (htonl x =? htonl y) = (x =? y).
Proof.
  intros Hx Hy. destruct (Z.eqb_spec x y) as [->|Hne]; [apply Z.eqb_refl|]. apply Z.eqb_neq.
  intros E. apply Hne. rewrite <- (htonl_involutive x), <- (htonl_involutive y), E by done. done.
Qed.

(** [ngx_ptocidr] on an address with a prefix length: the mask has that many leading
    ones, the address is cut to the network, and the code tells whether it already was
    the network; a length over 32 is an error.  All in host byte order. *)
Theorem ptocidr_network `{Arch} d0 d1 d2 d3 ds :
  octet_ok d0 -> octet_ok d1 -> octet_ok d2 -> octet_ok d3 ->
  num_value 10 d0 < 256 -> num_value 10 d1 < 256 -> num_value 10 d2 < 256 -> num_value 10 d3 < 256 ->
  in_addr (num_value 10 d0) (num_value 10 d1) (num_value 10 d2) (num_value 10 d3) <> INADDR_NONE ->
  Forall (fun d => 0 <= d < 10) ds -> ds <> [] -> num_value 10 ds < 2 ^ (ptr_bits - 1) ->
  let h := host (num_value 10 d0) (num_value 10 d1) (num_value 10 d2) (num_value 10 d3) in
  let k := 32 - num_value 10 ds in
  let '(rc, c) := ngx_ptocidr (dotted d0 d1 d2 d3 ++ cSLASH :: digits ds) in
  if num_value 10 ds <=? 32 then
    rc = (if h mod 2 ^ k =? 0 then NGX_OK else NGX_DONE)
    /\ htonl (c_mask c) = 2 ^ 32 - 2 ^ k /\ htonl (c_addr c) = h - h mod 2 ^ k
  else rc = NGX_ERROR.
Proof.
  intros O0 O1 O2 O3 V0 V1 V2 V3 Hnone Hd Hne Hv h k. unfold ngx_ptocidr.
  rewrite strlchr_first by (apply dotted_no_slash; repeat (apply List.Forall_cons; [apply O0 || apply O1 || apply O2 || apply O3|]); constructor).
  rewrite take_app_length, inet_addr_dotted by done.
  rewrite !(proj2 (Z.ltb_lt _ 256)) by done. cbn [andb].
  pose proof (num_value_range 10 d0 ltac:(lia) (proj1 O0)). pose proof (num_value_range 10 d1 ltac:(lia) (proj1 O1)).
  pose proof (num_value_range 10 d2 ltac:(lia) (proj1 O2)). pose proof (num_value_range 10 d3 ltac:(lia) (proj1 O3)).
  pose proof (num_value_range 10 ds ltac:(lia) Hd).
  rewrite <- htonl_host in * by (unfold byte_ok; lia). fold h in Hnone |- *.
  rewrite (proj2 (Z.eqb_neq (htonl h) _)) by done.
  rewrite drop_app_ge by lia. replace (S (length (dotted d0 d1 d2 d3)) - length (dotted d0 d1 d2 d3))%nat with 1%nat by lia.
  cbn [drop]. rewrite drop_0. unfold ngx_atoi, digits.
  rewrite atoi_loop_num by (done || (pose proof ptr_bits_pos; lia) || (destruct ds; [done|simpl; lia])).
  rewrite (proj2 (Z.eqb_neq (num_value 10 ds) _)) by lia.
  destruct (Z.ltb_spec 32 (num_value 10 ds)), (Z.leb_spec (num_value 10 ds) 32); try lia.
  assert (Hh : 0 <= h < 2 ^ 32) by (unfold h, host; change (2 ^ 32) with 4294967296; change (2 ^ 24) with 16777216;
    change (2 ^ 16) with 65536; change (2 ^ 8) with 256; lia).
  rewrite cidr_mask, <- htonl_land, land_mask by lia. fold k.
  pose proof (Z.mod_pos_bound h (2 ^ k) ltac:(unfold k; lia)) as Hr.
  assert (0 <= h - h mod 2 ^ k <= h) by (split; [apply Z.le_0_sub, Z.mod_le; unfold k; lia|lia]).
  rewrite htonl_eqb by lia.
  assert (E : (h =? h - h mod 2 ^ k) = (h mod 2 ^ k =? 0))
    by (destruct (Z.eqb_spec h (h - h mod 2 ^ k)), (Z.eqb_spec (h mod 2 ^ k) 0); (done || lia)).
  rewrite E. assert (Hm : 0 <= 2 ^ 32 - 2 ^ k < 2 ^ 32).
  { assert (2 ^ k <= 2 ^ 32) by (apply Z.pow_le_mono_r; unfold k; lia). unfold k in *. lia. }
  destruct (Z.eqb_spec (h mod 2 ^ k) 0) as [E0|]; cbn [c_mask c_addr]; rewrite !htonl_involutive by lia;
    split_and!; (done || lia).
Qed.

Lemma ptocidr_network_witness :
  @ngx_ptocidr ilp32 (dotted [1; 9; 2] [1; 6; 8] [1] [5] ++ cSLASH :: digits [1; 6]) = (NGX_DONE, mkCidr 43200 65535)
  /\ htonl 65535 = 2 ^ 32 - 2 ^ 16 /\ htonl 43200 = host 192 168 1 5 - host 192 168 1 5 mod 2 ^ 16.
Proof.
  split; [vm_compute; reflexivity|].
  destruct (@ptocidr_network ilp32 [1; 9; 2] [1; 6; 8] [1] [5] [1; 6]) as (_ & H2 & H3);
    try (split; [by apply (bool_decide_unpack _)|reflexivity]); try reflexivity; try done;
    try (by apply (bool_decide_unpack _)).
Defined.

(** An octet may be missing, and one that wraps around is accepted. *)
Theorem inet_addr_lenient :
  @ngx_inet_addr ilp32 (lit "...") = 0
  /\ @ngx_inet_addr ilp32 (lit "4294967423.0.0.1") = @ngx_inet_addr ilp32 (lit "127.0.0.1").
Proof. split; vm_compute; reflexivity. Qed.

Example inet_ex :
  @ngx_inet_addr ilp32 (lit "127.0.0.1") = 16777343
  /\ @ngx_inet_ntop ilp32 16777343 15 = Some (lit "127.0.0.1")
  /\ @ngx_ptocidr ilp32 (lit "192.168.1.5/16") = (NGX_DONE, mkCidr 43200 65535)
  /\ @ngx_inet_addr ilp32 (lit "...") = 0.
Proof. repeat split; vm_compute; reflexivity. Qed.

End Inet.
