(* ===== verification/HttpRoundRobin.v ===== *)
(** * Round robin balancing

    The smooth weighted round robin of
    src/nginx-1.7.2/src/http/ngx_http_upstream_round_robin.c: choosing a peer for a
    request, trying the others when one fails, going to the backup servers when all
    have failed, and the weights a peer loses by failing and wins back. *)

From S2P Require Import Prelude.

Module RoundRobin.

(** [ngx_http_upstream_rr_peer_t], without the addresses. *)
Record peer := mkPeer {
  current_weight : Z;
  effective_weight : Z;
  weight : Z;
  fails : Z;
  accessed : Z;
  checked : Z;
  max_fails : Z;
  fail_timeout : Z;
  down : Z
}.

(** [ngx_http_upstream_rr_peers_t]: the peers, and whether there is only one. *)
Record group := mkGroup { single : bool; peers : list peer }.

(** [ngx_http_upstream_rr_peer_data_t]: the group in use counts the fields [next] that
    were followed.  [tries] is of the [ngx_peer_connection_t]. *)
Record data := mkData { at_group : nat; current : nat; tried : list Z; tries : Z }.

Definition set_current_weight v p :=
  mkPeer v (effective_weight p) (weight p) (fails p) (accessed p) (checked p) (max_fails p) (fail_timeout p) (down p).
Definition set_effective_weight v p :=
  mkPeer (current_weight p) v (weight p) (fails p) (accessed p) (checked p) (max_fails p) (fail_timeout p) (down p).
Definition set_fails v p :=
  mkPeer (current_weight p) (effective_weight p) (weight p) v (accessed p) (checked p) (max_fails p) (fail_timeout p) (down p).
Definition set_accessed v p :=
  mkPeer (current_weight p) (effective_weight p) (weight p) (fails p) v (checked p) (max_fails p) (fail_timeout p) (down p).
Definition set_checked v p :=
  mkPeer (current_weight p) (effective_weight p) (weight p) (fails p) (accessed p) v (max_fails p) (fail_timeout p) (down p).

Section Code.
Context `{Arch}.

(** ** Creation *)

(** A [server] of the configuration, for one of its addresses. *)
Record server := mkServer {
  s_weight : Z; s_max_fails : Z; s_fail_timeout : Z; s_down : Z; s_backup : bool; s_naddrs : nat
}.

Definition init_peer (s : server) : peer :=
  mkPeer 0 (s_weight s) (s_weight s) 0 0 0 (s_max_fails s) (s_fail_timeout s) (s_down s).

(** The peers of the servers that are ([backup]) or are not backup servers. *)
Definition init_peers (backup : bool) (servers : list server) : list peer :=
  concat (map (fun s => replicate (s_naddrs s) (init_peer s)) (filter (fun s => s_backup s = backup) servers)).

(** The peer of an address of an upstream that no [upstream] block defines. *)
Definition implicit_peer : peer := mkPeer 0 1 1 0 0 0 1 10 0.

(** [None] is NGX_ERROR: an upstream without servers, without port, or whose host is not
    resolved.  [resolved] is the number of addresses that [ngx_inet_resolve_host] gives. *)
Definition ngx_http_upstream_init_round_robin (us_servers : option (list server)) (port : Z) (resolved : option nat) :
    option (list group) :=
  match us_servers with
  | Some servers =>
      let ps := init_peers false servers in
      let backup := init_peers true servers in
      match ps with
      | [] => None
      | _ =>
          match backup with
          | [] => Some [mkGroup (length ps =? 1)%nat ps]
          | _ => Some [mkGroup false ps; mkGroup false backup]
          end
      end
  | None =>
      if port =? 0 then None
      else n ← resolved; Some [mkGroup (n =? 1)%nat (replicate n implicit_peer)]
  end.

(** The words of the set of peers tried, for [n] peers. *)
Definition tried_words (n : nat) : nat := Z.to_nat ((Z.of_nat n + (ptr_bits - 1)) / ptr_bits).

Definition ngx_http_upstream_init_round_robin_peer (gs : list group) : data :=
  let n0 := match gs with g :: _ => length (peers g) | [] => 0%nat end in
  let n := match gs with _ :: g :: _ => Nat.max n0 (length (peers g)) | _ => n0 end in
  mkData 0 0 (replicate (if Z.of_nat n <=? ptr_bits then 1%nat else tried_words n) 0) (Z.of_nat n0).

(** ** The set of peers tried *)

(** [rrp->tried[n] & m]; [None] is a read outside the array. *)
Definition tried_bit (t : list Z) (i : nat) : option bool :=
  w ← t !! Z.to_nat (Z.of_nat i / ptr_bits);
  Some (negb (Z.land w (Z.shiftl 1 (Z.of_nat i mod ptr_bits)) =? 0)).

(** [rrp->tried[n] |= m] *)
Definition set_tried (t : list Z) (i : nat) : option (list Z) :=
  let n := Z.to_nat (Z.of_nat i / ptr_bits) in
  w ← t !! n;
  Some (<[n := Z.lor w (Z.shiftl 1 (Z.of_nat i mod ptr_bits))]> t).

(** ** Choosing a peer *)

Section Get.
(** [ngx_time()] *)
Variable now : Z.

(** The peer is down, or has failed too often too recently. *)
Definition unusable (p : peer) : bool :=
  negb (down p =? 0)
  || negb (max_fails p =? 0) && (max_fails p <=? fails p) && (sint ptr_bits (now - checked p) <=? fail_timeout p).

(** The new weights of a peer that takes part. *)
Definition raise (p : peer) : peer :=
  let p := set_current_weight (sint ptr_bits (current_weight p + effective_weight p)) p in
  if effective_weight p <? weight p then set_effective_weight (effective_weight p + 1) p else p.

(** The loop over the peers from [i] on: the peers, the best of them and the total. *)
Fixpoint get_loop (n i : nat) (t : list Z) (ps : list peer) (best : option nat) (total : Z) :
    option (list peer * option nat * Z) :=
  match n with
  | O => Some (ps, best, total)
  | S n' =>
      b ← tried_bit t i;
      if b : bool then get_loop n' (S i) t ps best total
      else
        p ← ps !! i;
        if unusable p then get_loop n' (S i) t ps best total
        else
          let total := sint ptr_bits (total + effective_weight p) in
          let p := raise p in
          let ps := <[i := p]> ps in
          best ← match best with
                 | None => Some i
                 | Some j => q ← ps !! j; Some (if current_weight q <? current_weight p then i else j)
                 end;
          get_loop n' (S i) t ps (Some best) total
  end.

(** The result is the peer chosen, NULL being [None], with the peers, [current] and
    [tried]. *)
Definition ngx_http_upstream_get_peer (ps : list peer) (d : data) : option (option nat * list peer * data) :=
  '(ps, best, total) ← get_loop (length ps) 0 (tried d) ps None 0;
  match best with
  | None => Some (None, ps, d)
  | Some i =>
      t ← set_tried (tried d) i;
      p ← ps !! i;
      let p := set_current_weight (sint ptr_bits (current_weight p - total)) p in
      let p := if fail_timeout p <? sint ptr_bits (now - checked p) then set_checked now p else p in
      Some (Some i, <[i := p]> ps, mkData (at_group d) i t (tries d))
  end.

(** The field [next] leads to the groups after [g]; the recursion is on them.  The result
    is the return code, with the index of the peer used. *)
Fixpoint get_rr (before : list group) (g : group) (next : list group) (d : data) :
    option (Z * nat * list group * data) :=
  r ← (if single g then
         p ← peers g !! 0%nat;
         Some (if negb (down p =? 0) then None else Some 0%nat, peers g, d)
       else ngx_http_upstream_get_peer (peers g) d);
  match r with
  | (Some i, ps, d) =>
      let tries := if (tries d =? 1) then match next with
                     | g' :: _ => uint ptr_bits (tries d + Z.of_nat (length (peers g')))
                     | [] => tries d
                     end else tries d in
      Some (NGX_OK, i, before ++ mkGroup (single g) ps :: next, mkData (at_group d) (current d) (tried d) tries)
  | (None, ps, d) =>
      let failed d gs := Some (NGX_BUSY, 0%nat, before ++ mkGroup (single g) (map (set_fails 0) ps) :: gs, d) in
      match next with
      | [] => failed d []
      | g' :: next' =>
          let n := tried_words (length (peers g')) in
          (* a write outside the array would be a fault *)
          _ ← guard (n <= length (tried d))%nat;
          let d := mkData (S (at_group d)) (current d) (replicate n 0 ++ drop n (tried d)) (Z.of_nat (length (peers g'))) in
          '(rc, i, gs, d) ← get_rr [] g' next' d;
          if negb (rc =? NGX_BUSY) then Some (rc, i, before ++ mkGroup (single g) ps :: gs, d)
          else failed d gs
      end
  end.

Definition ngx_http_upstream_get_round_robin_peer (gs : list group) (d : data) : option (Z * nat * list group * data) :=
  match drop (at_group d) gs with
  | [] => None
  | g :: next => get_rr (take (at_group d) gs) g next d
  end.

(** ** Freeing a peer *)

(** [failed] is [state & NGX_PEER_FAILED]; [None] is a division by zero or a bad index. *)
Definition free_peer (failed : bool) (p : peer) : peer :=
  if failed then
    let p := set_checked now (set_accessed now (set_fails (uint ptr_bits (fails p + 1)) p)) in
    let p := if negb (max_fails p =? 0)
             then set_effective_weight (sint ptr_bits (effective_weight p - uint ptr_bits (weight p) / max_fails p)) p else p in
    if effective_weight p <? 0 then set_effective_weight 0 p else p
  else if accessed p <? checked p then set_fails 0 p else p.

Definition ngx_http_upstream_free_round_robin_peer (failed : bool) (gs : list group) (d : data) :
    option (list group * data) :=
  g ← gs !! at_group d;
  if single g then Some (gs, mkData (at_group d) (current d) (tried d) 0)
  else
    p ← peers g !! current d;
    let g := mkGroup (single g) (<[current d := free_peer failed p]> (peers g)) in
    let tries := if negb (tries d =? 0) then tries d - 1 else tries d in
    Some (<[at_group d := g]> gs, mkData (at_group d) (current d) (tried d) tries).
End Get.

(** ** Requests *)

(** A request that is served by the first peer it is given. *)
Definition request (now : Z) (gs : list group) : option (nat * list group) :=
  '(rc, i, gs, d) ← ngx_http_upstream_get_round_robin_peer now gs (ngx_http_upstream_init_round_robin_peer gs);
  if negb (rc =? NGX_OK) then None
  else '(gs, _) ← ngx_http_upstream_free_round_robin_peer now false gs d; Some (i, gs).

(** Requests one after the other, at the given times: the peers that served them. *)
Fixpoint requests (nows : list Z) (gs : list group) : option (list nat * list group) :=
  match nows with
  | [] => Some ([], gs)
  | now :: nows' => '(i, gs) ← request now gs; '(js, gs) ← requests nows' gs; Some (i :: js, gs)
  end.
End Code.

(** ** Sums *)

Definition Zsum {A} (f : A -> Z) (l : list A) : Z := foldr (fun x a => f x + a) 0 l.

Lemma Zsum_cons {A} (f : A -> Z) x l : Zsum f (x :: l) = f x + Zsum f l.
Proof. done. Qed.

Lemma Zsum_app {A} (f : A -> Z) l l' : Zsum f (l ++ l') = Zsum f l + Zsum f l'.
Proof. induction l as [|x l IH]; simpl; [done|]. rewrite IH. lia. Qed.

Lemma Zsum_nonneg {A} (f : A -> Z) l : Forall (fun x => 0 <= f x) l -> 0 <= Zsum f l.
Proof. induction 1; simpl; lia. Qed.

Lemma Zsum_ext {A B} (f : A -> Z) (g : B -> Z) l l' : Forall2 (fun x y => f x = g y) l l' -> Zsum f l = Zsum g l'.
Proof. induction 1; simpl; lia. Qed.

Lemma Zsum_plus {A} (f g : A -> Z) l : Zsum (fun x => f x + g x) l = Zsum f l + Zsum g l.
Proof. induction l; simpl; lia. Qed.

Lemma Zsum_le_length {A} (f : A -> Z) l m : Forall (fun x => f x <= m) l -> Zsum f l <= Z.of_nat (length l) * m.
Proof. induction 1; simpl; lia. Qed.

Lemma Zsum_insert {A} (f : A -> Z) l i x y : l !! i = Some x -> Zsum f (<[i := y]> l) = Zsum f l - f x + f y.
Proof.
  revert i. induction l as [|z l IH]; intros [|i] Hi; simpl in *; simplify_eq; [lia|]. rewrite (IH i) by done. lia.
Qed.

Lemma Zsum_elem_le {A} (f : A -> Z) l x : Forall (fun x => 0 <= f x) l -> x ∈ l -> f x <= Zsum f l.
Proof.
  intros Hl Hx. apply list_elem_of_split in Hx as (l1 & l2 & ->). apply Forall_app in Hl as [H1 H2].
  inversion H2; subst. rewrite Zsum_app, Zsum_cons. pose proof (Zsum_nonneg f l1 H1). pose proof (Zsum_nonneg f l2 ltac:(done)). lia.
Qed.

Lemma Zsum_zero_all {A} (f : A -> Z) l : Forall (fun x => f x = 0) l -> Zsum f l = 0.
Proof. induction 1; simpl; lia. Qed.

Lemma Zsum_shift {A B} (f : A -> Z) (g : B -> Z) l l' b c :
  length l' = length l -> (b < length l)%nat ->
  (forall j x y, l !! j = Some x -> l' !! j = Some y -> g y = f x - (if decide (j = b) then c else 0)) ->
  Zsum g l' = Zsum f l - c.
Proof.
  revert l' b. induction l as [|x l IH]; intros [|y l'] b Hl Hb Hf; simpl in *; try lia.
  pose proof (Hf 0%nat x y eq_refl eq_refl) as H0. fold (Zsum f l). fold (Zsum g l'). destruct b as [|b].
  - rewrite decide_True in H0 by done. enough (Zsum g l' = Zsum f l) by lia.
    apply Zsum_ext, Forall2_same_length_lookup_2; [lia|]. intros j y' x' Hy Hx.
    rewrite (Hf (S j) x' y' Hx Hy). rewrite decide_False by lia. lia.
  - rewrite decide_False in H0 by lia. rewrite (IH l' b); [lia|lia|lia|]. intros j x' y' Hx Hy.
    rewrite (Hf (S j) x' y' Hx Hy). repeat case_decide; lia.
Qed.

Lemma Zsum_zero {A} (l : list A) : Zsum (fun _ => 0) l = 0.
Proof. by induction l. Qed.

(** Every one of [picks] is counted at its place. *)
Lemma Zsum_count n picks :
  Forall (fun i => (i < n)%nat) picks ->
  Zsum (fun i => Z.of_nat (count_occ Nat.eq_dec picks i)) (seq 0 n) = Z.of_nat (length picks).
Proof.
  induction 1 as [|i picks Hi _ IH]; [by apply Zsum_zero|].
  transitivity (Zsum (fun j => (if decide (j = i) then 1 else 0) + Z.of_nat (count_occ Nat.eq_dec picks j)) (seq 0 n)).
  { apply Zsum_ext, Forall_Forall2_diag, Forall_true. intros j. simpl. destruct (Nat.eq_dec i j), (decide (j = i)); subst; lia || done. }
  rewrite Zsum_plus, IH. simpl length.
  assert (H1 : forall m k, Zsum (fun j => if decide (j = i) then 1 else 0) (seq m k) = if decide (m <= i < m + k)%nat then 1 else 0).
  { clear. intros m k. revert m. induction k as [|k IH]; intros m; simpl; [case_decide; lia|]. rewrite IH. repeat case_decide; lia. }
  rewrite H1. case_decide; lia.
Qed.

(** ** A round of requests to peers that do not fail *)

Section Fair.
Context `{Arch}.
Implicit Types (p q : peer) (ps : list peer).

Lemma width_cases : 2 ^ (ptr_bits - 1) >= 2 ^ 31 /\ 0 < ptr_bits.
Proof. destruct ptr_bits_cases as [-> | ->]; lia. Qed.

(** Peers that are up and have their full weight. *)
Definition up p : Prop :=
  down p = 0 /\ fails p = 0 /\ 0 <= max_fails p /\ effective_weight p = weight p /\ 0 < weight p.

Lemma up_weight p : up p -> 0 <= weight p.
Proof. intros (_ & _ & _ & _ & ?). lia. Qed.

(** The current weight, and what [raise] makes of it, fit an [ngx_int_t]. *)
Definition fits p : Prop :=
  - 2 ^ (ptr_bits - 1) <= current_weight p /\ current_weight p + weight p < 2 ^ (ptr_bits - 1).

Definition bump p : peer := set_current_weight (current_weight p + weight p) p.

Lemma raise_up p : up p -> fits p -> raise p = bump p.
Proof.
  intros (_ & _ & _ & He & Hw) [Hl Hh]. unfold raise, bump. simpl. rewrite He, Z.ltb_irrefl.
  rewrite sint_small by (pose proof width_cases; lia). done.
Qed.

Lemma usable_up now p : up p -> unusable now p = false.
Proof.
  intros (Hd & Hf & Hm & _). unfold unusable. rewrite Hd, Hf. simpl.
  destruct (Z.eqb_spec (max_fails p) 0); simpl; [done|]. destruct (Z.leb_spec (max_fails p) 0); [lia|done].
Qed.

(** The best of the peers before [i]. *)
Definition best_of (i : nat) ps (best : option nat) : Prop :=
  match best with
  | None => i = 0%nat
  | Some b => (b < i)%nat /\ forall j p q, (j < i)%nat -> ps !! j = Some p -> ps !! b = Some q ->
                current_weight p <= current_weight q
  end.

Lemma get_loop_up now n i t ps best total :
  (forall j, (j < length ps)%nat -> tried_bit t j = Some false) -> (i + n = length ps)%nat ->
  (forall j p, (i <= j)%nat -> ps !! j = Some p -> up p /\ fits p) -> best_of i ps best ->
  0 <= total -> total + Zsum weight (drop i ps) < 2 ^ (ptr_bits - 1) ->
  exists ps' best', get_loop now n i t ps best total = Some (ps', best', total + Zsum weight (drop i ps))
    /\ length ps' = length ps /\ best_of (length ps) ps' best'
    /\ forall j, ps' !! j = if decide (j < i)%nat then ps !! j else bump <$> ps !! j.
Proof.
  intros Ht. revert i ps best total Ht. induction n as [|n IH]; intros i ps best total Ht Hn Hup Hb H0 Hlt.
  { simpl. rewrite drop_ge by lia. simpl. rewrite Z.add_0_r. exists ps, best. replace (length ps) with i by lia.
    split_and!; [done|done|done|]. intros j. case_decide; [done|]. by rewrite lookup_ge_None_2 by lia. }
  simpl. rewrite Ht by lia. simpl. destruct (lookup_lt_is_Some_2 ps i ltac:(lia)) as [p Hp]. rewrite Hp. simpl.
  destruct (Hup i p ltac:(lia) Hp) as [Hu Hf]. rewrite (usable_up now p Hu), (raise_up p Hu Hf).
  assert (Hd : drop i ps = p :: drop (S i) ps) by (by apply drop_S). rewrite Hd, Zsum_cons in Hlt |- *.
  pose proof Hu as (_ & _ & _ & He & Hw). rewrite He.
  assert (Hs : 0 <= Zsum weight (drop (S i) ps)).
  { apply Zsum_nonneg, Forall_forall. intros q Hq. apply list_elem_of_lookup in Hq as [k Hk]. rewrite lookup_drop in Hk.
    destruct (Hup (S i + k)%nat q ltac:(lia) Hk) as [(_ & _ & _ & _ & ?) _]. lia. }
  rewrite (sint_small ptr_bits) by (pose proof width_cases; lia).
  set (ps1 := <[i := bump p]> ps).
  assert (Hi : ps1 !! i = Some (bump p)) by (apply list_lookup_insert_eq; lia).
  assert (Hne : forall j, j <> i -> ps1 !! j = ps !! j) by (intros j Hj; by apply list_lookup_insert_ne).
  assert (Hbest : exists b, match best with
     | None => Some i
     | Some j => q ← ps1 !! j; Some (if current_weight q <? current_weight (bump p) then i else j)
     end = Some b /\ best_of (S i) ps1 (Some b)).
  { destruct best as [b|]; simpl in Hb.
    - destruct Hb as [Hb1 Hb2]. rewrite Hne by lia. destruct (lookup_lt_is_Some_2 ps b ltac:(lia)) as [q Hq]. rewrite Hq. simpl.
      eexists. split; [done|]. destruct (Z.ltb_spec (current_weight q) (current_weight p + weight p)) as [Hlt'|Hge]; simpl.
      + split; [lia|]. intros j p' q' Hj Hp' Hq'. rewrite Hi in Hq'. injection Hq' as <-. destruct (decide (j = i)) as [->|Hji].
        * rewrite Hi in Hp'. by injection Hp' as <-.
        * rewrite Hne in Hp' by done. specialize (Hb2 j p' q ltac:(lia) Hp' Hq). simpl. lia.
      + split; [lia|]. intros j p' q' Hj Hp' Hq'. rewrite Hne, Hq in Hq' by lia. injection Hq' as <-.
        destruct (decide (j = i)) as [->|Hji].
        * rewrite Hi in Hp'. injection Hp' as <-. simpl. lia.
        * rewrite Hne in Hp' by done. by apply (Hb2 j p' q); [lia|..].
    - exists i. split; [done|]. subst i. split; [lia|]. intros j p' q' Hj Hp' Hq'. replace j with 0%nat in Hp' by lia. rewrite Hp' in Hq'. injection Hq' as <-. lia. }
  destruct Hbest as (b & -> & Hb'). simpl.
  destruct (IH (S i) ps1 (Some b) (total + weight p)) as (ps' & best' & E & Hl' & Hbo & Hps').
  - intros j Hj. unfold ps1 in Hj. rewrite length_insert in Hj. by apply Ht.
  - unfold ps1. rewrite length_insert. lia.
  - intros j q Hj Hq. rewrite Hne in Hq by lia. by apply (Hup j); [lia|].
  - done.
  - lia.
  - unfold ps1. rewrite drop_insert_lt by lia. lia.
  - subst ps1. rewrite drop_insert_lt in E by lia. rewrite length_insert in Hl', Hbo. rewrite E.
    exists ps', best'. split_and!; [do 2 f_equal; lia|done|done|]. intros j. rewrite Hps'.
    repeat case_decide; try lia; [by rewrite list_lookup_insert_ne by lia| |by rewrite list_lookup_insert_ne by lia].
    replace j with i by lia. by rewrite list_lookup_insert_eq, Hp by lia.
Qed.
(** A request begins with no peers tried. *)
Lemma tried_fresh k i : (i < Z.to_nat (Z.of_nat k * ptr_bits))%nat -> tried_bit (replicate k 0) i = Some false.
Proof.
  intros Hi. pose proof width_cases. unfold tried_bit.
  assert (Hl : replicate k 0 !! Z.to_nat (Z.of_nat i / ptr_bits) = Some 0).
  { apply lookup_replicate_2.
    assert (Z.of_nat i / ptr_bits < Z.of_nat k) by (apply Z.div_lt_upper_bound; lia).
    pose proof (Z.div_pos (Z.of_nat i) ptr_bits). lia. }
  rewrite Hl. done.
Qed.

Lemma init_tried gs g gs' i :
  gs = g :: gs' -> (i < length (peers g))%nat ->
  tried_bit (tried (ngx_http_upstream_init_round_robin_peer gs)) i = Some false.
Proof.
  intros -> Hi. pose proof width_cases. unfold ngx_http_upstream_init_round_robin_peer. simpl tried.
  set (n := match gs' with [] => length (peers g) | g' :: _ => Nat.max (length (peers g)) (length (peers g')) end). assert (Hn : (length (peers g) <= n)%nat) by (subst n; destruct gs'; lia).
  apply tried_fresh. destruct (Z.leb_spec (Z.of_nat n) ptr_bits); [lia|]. unfold tried_words.
  pose proof (Z.div_mod (Z.of_nat n + (ptr_bits - 1)) ptr_bits). pose proof (Z.mod_pos_bound (Z.of_nat n + (ptr_bits - 1)) ptr_bits).
  pose proof (Z.div_pos (Z.of_nat n + (ptr_bits - 1)) ptr_bits). lia.
Qed.

Lemma Zsum_elem_bound {A} (f : A -> Z) l m x :
  Forall (fun x => - m <= f x) l -> x ∈ l -> f x <= Zsum f l + (Z.of_nat (length l) - 1) * m.
Proof.
  intros Hl Hx. apply list_elem_of_split in Hx as (l1 & l2 & ->). apply Forall_app in Hl as [H1 H2].
  inversion H2 as [|? ? _ H2']; subst. rewrite Zsum_app, Zsum_cons, length_app. simpl.
  assert (Hb : forall k, Forall (fun x => - m <= f x) k -> - (Z.of_nat (length k) * m) <= Zsum f k)
    by (induction 1; simpl; lia).
  pose proof (Hb _ H1). pose proof (Hb _ H2'). lia.
Qed.

(** The state between the requests of a round: [W] is the total weight. *)
Definition round_ok (W : Z) ps : Prop :=
  Forall (fun p => up p /\ - W < current_weight p) ps /\ Zsum current_weight ps = 0 /\ Zsum weight ps = W
  /\ Z.of_nat (length ps) * W < 2 ^ (ptr_bits - 1) /\ ps <> [].

Lemma round_fits W ps p : round_ok W ps -> p ∈ ps -> up p /\ fits p.
Proof.
  intros (Hp & Hs & HW & Hb & Hne) Hin. rewrite Forall_forall in Hp. destruct (Hp p Hin) as [Hu Hc]. split; [done|].
  assert (Hwp : weight p <= W).
  { rewrite <- HW. apply Zsum_elem_le; [|done]. apply Forall_forall. intros q Hq. by apply up_weight, Hp. }
  assert (Hup : current_weight p <= 0 + (Z.of_nat (length ps) - 1) * W).
  { rewrite <- Hs. apply Zsum_elem_bound; [|done]. apply Forall_forall. intros q Hq. destruct (Hp q Hq). lia. }
  destruct Hu as (_ & _ & _ & _ & Hw). assert (Hl : 1 <= Z.of_nat (length ps)) by (destruct ps; simpl in *; [done|lia]).
  split; nia.
Qed.

Lemma set_tried_some t i b : tried_bit t i = Some b -> exists t', set_tried t i = Some t'.
Proof. unfold tried_bit, set_tried. destruct (t !! _); simpl; [by eauto|done]. Qed.

(** The best of the raised peers has a positive current weight. *)
Lemma best_positive W ps b q :
  round_ok W ps -> best_of (length ps) (bump <$> ps) (Some b) -> ps !! b = Some q ->
  0 < current_weight q + weight q.
Proof.
  intros (Hp & Hs & HW & _ & _) [_ Hb] Hq. rewrite Forall_forall in Hp.
  destruct (Z.lt_ge_cases 0 (current_weight q + weight q)) as [|Hle]; [done|exfalso].
  assert (HWp : 0 < W).
  { pose proof (list_elem_of_lookup_2 _ _ _ Hq) as Hin. destruct (Hp q Hin) as [(_ & _ & _ & _ & ?) _].
    enough (weight q <= W) by lia. rewrite <- HW. apply Zsum_elem_le; [|done].
    apply Forall_forall. intros p Hp'. by apply up_weight, Hp. }
  pose proof (Zsum_le_length (fun p => current_weight p + weight p) ps 0) as Hz.
  rewrite Zsum_plus in Hz. enough (Forall (fun p => current_weight p + weight p <= 0) ps) by (specialize (Hz ltac:(done)); lia).
  apply Forall_forall. intros p Hin. apply list_elem_of_lookup in Hin as [j Hj].
  specialize (Hb j (bump p) (bump q)). rewrite !list_lookup_fmap, Hj, Hq in Hb.
  specialize (Hb (lookup_lt_Some _ _ _ Hj) eq_refl eq_refl). simpl in Hb. lia.
Qed.

(** What a request that [b] serves does to the peers. *)
Definition served (W : Z) (b : nat) ps ps' : Prop :=
  length ps' = length ps /\
  forall j p, ps !! j = Some p -> exists p', ps' !! j = Some p' /\ up p' /\ weight p' = weight p
    /\ current_weight p' = current_weight p + weight p - (if decide (j = b) then W else 0).

Lemma get_peer_round now W ps d :
  round_ok W ps -> (forall j, (j < length ps)%nat -> tried_bit (tried d) j = Some false) ->
  exists b q ps' t, ngx_http_upstream_get_peer now ps d = Some (Some b, ps', mkData (at_group d) b t (tries d))
    /\ ps !! b = Some q /\ 0 < current_weight q + weight q /\ served W b ps ps'.
Proof.
  intros Hr Ht. pose proof Hr as (Hp & Hs & HW & Hlen & Hne). pose proof width_cases. rewrite Forall_forall in Hp.
  assert (Hel : forall j p, ps !! j = Some p -> p ∈ ps) by (intros; by eapply list_elem_of_lookup_2).
  assert (HWn : 0 <= W). { rewrite <- HW. apply Zsum_nonneg, Forall_forall. intros q Hq. by apply up_weight, Hp. }
  assert (HWb : W < 2 ^ (ptr_bits - 1)) by (assert (1 <= Z.of_nat (length ps)) by (destruct ps; simpl in *; [done|lia]); nia).
  destruct (get_loop_up now (length ps) 0 (tried d) ps None 0) as (ps1 & best & E & Hl & Hb & Hps); try done.
  { intros j p _ Hj. apply (round_fits W ps); eauto. }
  { by rewrite drop_0, HW. }
  assert (ps1 = bump <$> ps) as -> by (apply list_eq; intros j; rewrite Hps, list_lookup_fmap; by rewrite decide_False by lia).
  destruct best as [b|]; [|simpl in Hb; destruct ps; simpl in *; [done|lia]].
  unfold ngx_http_upstream_get_peer. rewrite E, drop_0, HW. simpl.
  destruct (lookup_lt_is_Some_2 ps b (proj1 Hb)) as [q Hq].
  destruct (set_tried_some _ _ _ (Ht b (proj1 Hb))) as [t ->]. simpl. rewrite list_lookup_fmap, Hq. simpl.
  pose proof (best_positive W ps b q Hr Hb Hq) as Hpos. destruct (round_fits W ps q Hr (Hel _ _ Hq)) as [Hu [Hf1 Hf2]].
  do 4 eexists. split; [done|]. split; [done|]. split; [done|].
  split; [by rewrite length_insert, length_fmap|]. intros j p Hj. destruct (decide (j = b)) as [->|Hjb].
  - rewrite list_lookup_insert_eq by (rewrite length_fmap; by apply lookup_lt_Some in Hj). eexists. split; [done|].
    rewrite Hq in Hj. injection Hj as <-.
    rewrite (sint_small _ (_ - (0 + W))) by lia. repeat case_match; split_and!; simpl; try done; lia.
  - rewrite list_lookup_insert_ne, list_lookup_fmap, Hj by done. eexists. split; [done|].
    destruct (Hp p (Hel _ _ Hj)) as [Hup _]. split_and!; simpl; [done|done|lia].
Qed.

Lemma served_round W b ps ps' q :
  round_ok W ps -> ps !! b = Some q -> 0 < current_weight q + weight q -> served W b ps ps' -> round_ok W ps'.
Proof.
  intros (Hp & Hs & HW & Hlen & Hne) Hq Hpos [Hl Hsv]. rewrite Forall_lookup in Hp.
  assert (Hback : forall j p', ps' !! j = Some p' -> exists p, ps !! j = Some p /\ up p' /\ weight p' = weight p
     /\ current_weight p' = current_weight p + weight p - (if decide (j = b) then W else 0)).
  { intros j p' Hj. destruct (lookup_lt_is_Some_2 ps j) as [p Hpj]; [apply lookup_lt_Some in Hj; lia|].
    destruct (Hsv j p Hpj) as (p2 & E & ?). rewrite Hj in E. injection E as <-. eauto. }
  split_and!.
  - apply Forall_lookup. intros j p' Hj. destruct (Hback j p' Hj) as (p & Hpj & Hu & _ & ->). split; [done|].
    destruct (Hp j p Hpj) as [(_ & _ & _ & _ & ?) ?]. case_decide; [|lia]. subst. rewrite Hq in Hpj. injection Hpj as <-. lia.
  - rewrite (Zsum_shift (fun p => current_weight p + weight p) current_weight ps ps' b W); [|done|by apply lookup_lt_Some in Hq|].
    + rewrite Zsum_plus. lia.
    + intros j p p' Hj Hj'. destruct (Hback j p' Hj') as (p2 & E & _ & _ & ->). rewrite Hj in E. by injection E as <-.
  - rewrite <- HW. apply Zsum_ext, Forall2_same_length_lookup_2; [done|]. intros j p' p Hj' Hj.
    destruct (Hback j p' Hj') as (p2 & E & _ & ? & _). rewrite Hj in E. by injection E as <-.
  - by rewrite Hl.
  - destruct ps, ps'; done.
Qed.

Lemma get_rr_found now before ps next d i ps' d' :
  ngx_http_upstream_get_peer now ps d = Some (Some i, ps', d') ->
  exists tr, get_rr now before (mkGroup false ps) next d
    = Some (NGX_OK, i, before ++ mkGroup false ps' :: next, mkData (at_group d') (current d') (tried d') tr).
Proof. intros E. destruct next; cbn [get_rr single peers]; rewrite E; eexists; reflexivity. Qed.

(** A request to a group of several peers, whatever the backup groups are. *)
Lemma request_round now W ps next :
  round_ok W ps ->
  exists b q ps', request now (mkGroup false ps :: next) = Some (b, mkGroup false ps' :: next)
    /\ ps !! b = Some q /\ 0 < current_weight q + weight q /\ served W b ps ps'.
Proof.
  intros Hr. unfold request. set (d := ngx_http_upstream_init_round_robin_peer _).
  destruct (get_peer_round now W ps d Hr) as (b & q & ps' & t & E & Hq & Hpos & Hsv).
  { intros j Hj. by apply (init_tried (mkGroup false ps :: next) (mkGroup false ps) next). }
  exists b, q. unfold ngx_http_upstream_get_round_robin_peer. change (at_group d) with 0%nat in E |- *.
  destruct (get_rr_found now [] ps next d b ps' _ E) as [tr E2]. cbn [drop take]. rewrite E2. simpl.
  destruct Hsv as [Hl Hsv]. destruct (Hsv b q Hq) as (q' & Hq' & Huq & Hw & Hc).
  unfold ngx_http_upstream_free_round_robin_peer. cbn [at_group current lookup list_lookup single peers mbind option_bind].
  rewrite Hq'. cbn [mbind option_bind].
  assert (Hf : free_peer now false q' = q').
  { unfold free_peer. destruct Huq as (_ & Hf & _). destruct (accessed q' <? checked q'); [|done].
    unfold set_fails. rewrite <- Hf. by destruct q'. }
  rewrite Hf, (list_insert_id ps' b q' Hq'). exists ps'. split; [done|]. by split_and!.
Qed.

Lemma requests_round nows W ps next :
  round_ok W ps ->
  exists picks ps', requests nows (mkGroup false ps :: next) = Some (picks, mkGroup false ps' :: next)
    /\ round_ok W ps' /\ length picks = length nows /\ Forall (fun i => (i < length ps)%nat) picks
    /\ forall j p, ps !! j = Some p -> exists p', ps' !! j = Some p'
         /\ current_weight p' = current_weight p + Z.of_nat (length nows) * weight p
                                - W * Z.of_nat (count_occ Nat.eq_dec picks j).
Proof.
  revert ps. induction nows as [|now nows IH]; intros ps Hr.
  { exists [], ps. split_and!; try done. intros j p Hj. exists p. split; [done|]. simpl. lia. }
  destruct (request_round now W ps next Hr) as (b & q & ps1 & E & Hq & Hpos & Hsv).
  pose proof (served_round W b ps ps1 q Hr Hq Hpos Hsv) as Hr1. destruct Hsv as [Hl Hsv].
  destruct (IH ps1 Hr1) as (picks & ps2 & E2 & Hr2 & Hlp & Hfp & Hc).
  exists (b :: picks), ps2. simpl. rewrite E. simpl. rewrite E2. simpl. split_and!; [done|done|lia| |].
  - constructor; [by apply lookup_lt_Some in Hq|]. by rewrite <- Hl.
  - intros j p Hj. destruct (Hsv j p Hj) as (p1 & Hj1 & _ & Hw & Hc1). destruct (Hc j p1 Hj1) as (p2 & Hj2 & Hc2).
    exists p2. split; [done|]. rewrite Hc2, Hc1, Hw. destruct (Nat.eq_dec b j), (decide (j = b)); subst; lia || done.
Qed.

(** Numbers that are at most others with the same sum are equal to them. *)
Lemma Zsum_tight {A} (f g : A -> Z) l : Forall (fun x => f x <= g x) l -> Zsum g l <= Zsum f l -> Forall (fun x => f x = g x) l.
Proof.
  induction 1 as [|x l Hx Hl IH]; [done|]. rewrite !Zsum_cons. intros Hs.
  assert (Zsum f l <= Zsum g l) by (clear -Hl; induction Hl; simpl; lia).
  constructor; [lia|]. apply IH. lia.
Qed.

Lemma Zsum_scale {A} k (f : A -> Z) l : Zsum (fun x => k * f x) l = k * Zsum f l.
Proof. induction l; simpl; lia. Qed.

Lemma Zsum_seq {A} (f : A -> Z) l : Zsum (fun i => from_option f 0 (l !! i)) (seq 0 (length l)) = Zsum f l.
Proof.
  apply Zsum_ext, Forall2_same_length_lookup_2; [by rewrite length_seq|]. intros i j x Hi Hx.
  apply lookup_seq in Hi as [-> _]. simpl. by rewrite Hx.
Qed.

Lemma Zsum_tight_seq {A} (f : nat -> Z) (g : A -> Z) l i x :
  (forall j y, l !! j = Some y -> f j <= g y) -> Zsum g l <= Zsum f (seq 0 (length l)) -> l !! i = Some x -> f i = g x.
Proof.
  intros Hle Hs Hx. pose proof (Zsum_tight f (fun j => from_option g 0 (l !! j)) (seq 0 (length l))) as Ht.
  rewrite Zsum_seq in Ht. transitivity (from_option g 0 (l !! i)); [|by rewrite Hx].
  refine (proj1 (Forall_forall _ _) (Ht _ Hs) i _).
  - apply Forall_forall. intros j Hj. apply elem_of_seq in Hj. destruct (lookup_lt_is_Some_2 l j ltac:(lia)) as [y Hy].
    rewrite Hy. by apply Hle.
  - apply elem_of_seq. apply lookup_lt_Some in Hx. lia.
Qed.

(** The servers of a configuration that are up, with room for the sums of weights. *)
Definition healthy (servers : list server) : Prop :=
  Forall (fun s => s_down s = 0 /\ 0 < s_weight s /\ 0 <= s_max_fails s) servers
  /\ Z.of_nat (length (init_peers false servers)) * Zsum weight (init_peers false servers) < 2 ^ (ptr_bits - 1).

Lemma healthy_round servers :
  healthy servers -> init_peers false servers <> [] ->
  round_ok (Zsum weight (init_peers false servers)) (init_peers false servers)
  /\ Forall (fun p => current_weight p = 0) (init_peers false servers).
Proof.
  intros [Hs Hb] Hne. assert (Hp : Forall (fun p => up p /\ current_weight p = 0) (init_peers false servers)).
  { apply Forall_concat, Forall_map, Forall_forall. intros s Hin. apply list_elem_of_filter in Hin as [_ Hin].
    rewrite Forall_forall in Hs. destruct (Hs s Hin) as (Hd & Hw & Hm). apply Forall_replicate. by split_and!. }
  assert (HW : 0 < Zsum weight (init_peers false servers)).
  { revert Hp Hne. generalize (init_peers false servers). intros [|p l] Hp; [done|]. intros _. rewrite Zsum_cons.
    inversion Hp as [|? ? [(_ & _ & _ & _ & ?) _] Hl]; subst. enough (0 <= Zsum weight l) by lia.
    apply Zsum_nonneg. eapply Forall_impl; [exact Hl|]. intros ? [? _]. by apply up_weight. }
  split; [split_and!; try done|].
  - eapply Forall_impl; [exact Hp|]. intros p [Hu Hc]. split; [done|lia].
  - apply (Zsum_zero_all current_weight). eapply Forall_impl; [exact Hp|]. by intros ? [].
  - eapply Forall_impl; [exact Hp|]. by intros ? [].
Qed.

Lemma count_replicate n (i : nat) : count_occ Nat.eq_dec (replicate n i) i = n.
Proof. induction n as [|n IH]; simpl; [done|]. destruct (Nat.eq_dec i i); [by rewrite IH|done]. Qed.

(** The only peer serves every request. *)
Lemma requests_single nows p gs :
  down p = 0 -> gs = [mkGroup true [p]] -> requests nows gs = Some (replicate (length nows) 0%nat, gs).
Proof.
  intros Hd ->. induction nows as [|now nows IH]; [done|]. cbn [requests length].
  assert (E : request now [mkGroup true [p]] = Some (0%nat, [mkGroup true [p]])).
  { unfold request, ngx_http_upstream_get_round_robin_peer. simpl. by rewrite Hd. }
  rewrite E. simpl. by rewrite IH.
Qed.

(** C15: round robin is fair.  Requests one after the other, at any times, to an upstream
    whose servers are up all find a peer; at every moment no peer is a whole request ahead
    of its share of the weights, and after [k] rounds (as many requests as [k] times the
    total weight) every peer has served exactly [k] times its weight. *)
Theorem rr_fair servers port resolved gs nows :
  ngx_http_upstream_init_round_robin (Some servers) port resolved = Some gs -> healthy servers ->
  let ps := init_peers false servers in
  let W := Zsum weight ps in
  exists picks gs', requests nows gs = Some (picks, gs') /\ length picks = length nows
    /\ forall i p, ps !! i = Some p ->
         let served := Z.of_nat (count_occ Nat.eq_dec picks i) in
         W * served < Z.of_nat (length nows) * weight p + W
         /\ forall k, Z.of_nat (length nows) = k * W -> served = k * weight p.
Proof.
  intros Hi Hh ps W. simpl in Hi. fold ps in Hi. assert (Hne : ps <> []) by (by destruct ps).
  destruct (healthy_round servers Hh Hne) as [Hr Hz]. fold ps W in Hr, Hz.
  assert (Hg : exists p, ps = [p] /\ gs = [mkGroup true ps] \/ exists next, gs = mkGroup false ps :: next).
  { destruct ps as [|p [|p2 l]]; [done|..]; exists p; destruct (init_peers true servers); simplify_eq; eauto. }
  destruct Hg as (p0 & [[Hps ->] | [next ->]]).
  - assert (Hd : down p0 = 0). { destruct Hr as (Hp & _). rewrite Hps in Hp. by inversion Hp as [|? ? [[? _] _]]. }
    rewrite Hps. exists (replicate (length nows) 0%nat), [mkGroup true [p0]]. rewrite (requests_single nows p0) by done.
    split; [done|]. split; [by rewrite length_replicate|]. intros [|i] p Hp; [|done]. injection Hp as <-. subst W.
    rewrite Hps. simpl. rewrite count_replicate. destruct Hr as (Hp & _). rewrite Hps in Hp.
    inversion Hp as [|? ? [(_ & _ & _ & _ & ?) _]]. split; [nia|]. intros k ->. nia.
  - destruct (requests_round nows W ps next Hr) as (picks & ps' & E & Hr' & Hlp & Hfp & Hc).
    exists picks, (mkGroup false ps' :: next). split; [done|]. split; [done|].
    assert (Hahead : forall i p, ps !! i = Some p ->
      W * Z.of_nat (count_occ Nat.eq_dec picks i) < Z.of_nat (length nows) * weight p + W).
    { intros i p Hp. destruct (Hc i p Hp) as (p' & Hp' & Hcw). destruct Hr' as (Hf & _). rewrite Forall_lookup in Hf, Hz.
      destruct (Hf i p' Hp') as [_ Hlow]. rewrite (Hz i p Hp) in Hcw. lia. }
    intros i p Hp. split; [by apply Hahead|]. intros k Hk.
    apply (Zsum_tight_seq (fun i => Z.of_nat (count_occ Nat.eq_dec picks i)) (fun p => k * weight p) ps); [| |done].
    + intros j q Hq. specialize (Hahead j q Hq). rewrite Hk in Hahead.
      assert (0 <= W) by (apply Zsum_nonneg, Forall_lookup; intros ? ? ?; destruct Hr as (Hf & _); rewrite Forall_lookup in Hf; eapply up_weight, Hf; eauto).
      nia.
    + rewrite Zsum_count by done. rewrite Hlp, Hk, Zsum_scale. fold W. lia.
Qed.
End Fair.

(** Three servers of weights 5, 1 and 1, and a backup server: seven requests. *)
Definition fair_servers : list server :=
  [mkServer 5 1 10 0 false 1; mkServer 1 1 10 0 false 1; mkServer 3 0 10 0 true 1; mkServer 1 0 10 0 false 1].

Lemma rr_fair_witness :
  exists picks gs', @requests lp64 (replicate 7 1000) (default [] (ngx_http_upstream_init_round_robin (Some fair_servers) 0 None))
      = Some (picks, gs') /\ length picks = 7%nat /\ picks = [0; 0; 1; 0; 2; 0; 0]%nat
    /\ Z.of_nat (count_occ Nat.eq_dec picks 0%nat) = 5.
Proof.
  destruct (@rr_fair lp64 fair_servers 0 None (default [] (ngx_http_upstream_init_round_robin (Some fair_servers) 0 None))
    (replicate 7 1000)) as (picks & gs' & E & Hl & Hp).
  - reflexivity.
  - split; [repeat constructor; vm_compute; congruence|vm_compute; reflexivity].
  - exists picks, gs'. split; [exact E|]. split; [exact Hl|].
    split; [vm_compute in E; injection E as <- <-; reflexivity|].
    destruct (Hp 0%nat (init_peer (mkServer 5 1 10 0 false 1)) eq_refl) as [_ Hk].
    rewrite (Hk 1); reflexivity.
Defined.

End RoundRobin.
