(* ===== verification/HttpUpstreamPeers.v ===== *)
(** * Requests that share an upstream

    The connections of src/nginx-1.7.2/src/http/ngx_http_upstream.c that take their peers
    from one round robin upstream: the groups of peers are shared, every request has its
    own set of peers tried.  The steps are those of the requests, in any order: a request
    begins, gets a peer, gives it back with or without failure, ends. *)

From S2P Require Import Prelude HttpRoundRobin.
Import RoundRobin.

Module Peers.

(** A request: its [ngx_http_upstream_rr_peer_data_t], whether [peer.sockaddr] is set, and
    the peers it was given, a group and an index each, the last one first. *)
Record session := mkSession { rrp : data; sockaddr : bool; given : list (nat * nat) }.

Section Steps.
Context `{Arch}.

(** [ngx_event_connect_peer] of a request whose [sockaddr] is NULL, up to the socket. *)
Definition connect (now : Z) (gs : list group) (s : session) : option (Z * list group * session) :=
  '(rc, i, gs, d) ← ngx_http_upstream_get_round_robin_peer now gs (rrp s);
  Some (rc, gs, if rc =? NGX_OK then mkSession d true ((at_group d, i) :: given s)
                else mkSession d (sockaddr s) (given s)).

(** The call of [peer.free] by [ngx_http_upstream_next] and
    [ngx_http_upstream_finalize_request]. *)
Definition release (now : Z) (failed : bool) (gs : list group) (s : session) : option (list group * session) :=
  if sockaddr s then
    '(gs, d) ← ngx_http_upstream_free_round_robin_peer now failed gs (rrp s);
    Some (gs, mkSession d false (given s))
  else Some (gs, s).

Inductive reach (us : option (list server)) (port : Z) (resolved : option nat) : list group -> list session -> Prop :=
  | reach_start gs :
      ngx_http_upstream_init_round_robin us port resolved = Some gs -> reach us port resolved gs []
  | reach_new gs ss :
      reach us port resolved gs ss ->
      reach us port resolved gs (mkSession (ngx_http_upstream_init_round_robin_peer gs) false [] :: ss)
  | reach_connect gs ss k s now rc gs' s' :
      reach us port resolved gs ss -> ss !! k = Some s -> sockaddr s = false ->
      connect now gs s = Some (rc, gs', s') -> reach us port resolved gs' (<[k := s']> ss)
  | reach_release gs ss k s now failed gs' s' :
      reach us port resolved gs ss -> ss !! k = Some s ->
      release now failed gs s = Some (gs', s') -> reach us port resolved gs' (<[k := s']> ss)
  | reach_end gs ss k :
      reach us port resolved gs ss -> reach us port resolved gs (delete k ss).
End Steps.

(** ** The set of peers tried *)

Section Tried.
Context `{Arch}.

(** The array has a bit for each of [n] peers. *)
Definition covers (t : list Z) (n : nat) : Prop := Z.of_nat n <= Z.of_nat (length t) * ptr_bits.

Lemma word_bits_pos : 0 < ptr_bits.
Proof. apply width_cases. Qed.

Lemma tried_bit_testbit t i :
  tried_bit t i = (fun w => Z.testbit w (Z.of_nat i mod ptr_bits)) <$> t !! Z.to_nat (Z.of_nat i / ptr_bits).
Proof.
  unfold tried_bit. destruct (t !! _) as [w|]; simpl; [|done]. f_equal.
  pose proof (Z.mod_pos_bound (Z.of_nat i) ptr_bits word_bits_pos) as Hm. set (k := Z.of_nat i mod ptr_bits) in *.
  rewrite Z.shiftl_1_l. destruct (Z.testbit w k) eqn:E.
  - apply negb_true_iff, Z.eqb_neq. intros H0.
    assert (Hb : Z.testbit (Z.land w (2 ^ k)) k = false) by (by rewrite H0, Z.bits_0).
    by rewrite Z.land_spec, E, Z.pow2_bits_true in Hb by lia.
  - apply negb_false_iff, Z.eqb_eq, Z.bits_inj'. intros m _. rewrite Z.land_spec, Z.bits_0, Z.pow2_bits_eqb by lia.
    destruct (Z.eqb_spec k m) as [<-|]; [by rewrite E|by rewrite andb_false_r].
Qed.

Lemma word_of t n i : covers t n -> (i < n)%nat -> (Z.to_nat (Z.of_nat i / ptr_bits) < length t)%nat.
Proof.
  unfold covers. intros Hc Hi. pose proof word_bits_pos.
  assert (Z.of_nat i / ptr_bits < Z.of_nat (length t)) by (apply Z.div_lt_upper_bound; lia).
  pose proof (Z.div_pos (Z.of_nat i) ptr_bits). lia.
Qed.

Lemma tried_bit_covered t n i : covers t n -> (i < n)%nat -> is_Some (tried_bit t i).
Proof.
  intros Hc Hi. rewrite tried_bit_testbit. destruct (lookup_lt_is_Some_2 _ _ (word_of t n i Hc Hi)) as [w ->]. by eexists.
Qed.

(** [set_tried] sets the bit of [i] and no other. *)
Lemma set_tried_spec t i b :
  tried_bit t i = Some b ->
  exists t', set_tried t i = Some t' /\ length t' = length t
    /\ forall j, tried_bit t' j = if decide (j = i) then Some true else tried_bit t j.
Proof.
  intros Hb. unfold set_tried. rewrite tried_bit_testbit in Hb. pose proof word_bits_pos as Hpos.
  destruct (t !! Z.to_nat (Z.of_nat i / ptr_bits)) as [w|] eqn:Ew; simpl in *; [|done].
  eexists. split; [done|]. split; [by rewrite length_insert|]. intros j. rewrite !tried_bit_testbit.
  pose proof (Z.mod_pos_bound (Z.of_nat i) ptr_bits Hpos). pose proof (Z.mod_pos_bound (Z.of_nat j) ptr_bits Hpos).
  pose proof (Z.div_mod (Z.of_nat i) ptr_bits). pose proof (Z.div_mod (Z.of_nat j) ptr_bits).
  pose proof (Z.div_pos (Z.of_nat i) ptr_bits). pose proof (Z.div_pos (Z.of_nat j) ptr_bits).
  destruct (decide (Z.to_nat (Z.of_nat j / ptr_bits) = Z.to_nat (Z.of_nat i / ptr_bits))) as [Eq|Ne].
  - rewrite Eq, list_lookup_insert_eq, Ew by (by apply lookup_lt_Some in Ew). simpl.
    rewrite Z.lor_spec, Z.shiftl_1_l, Z.pow2_bits_eqb by lia.
    destruct (Z.eqb_spec (Z.of_nat i mod ptr_bits) (Z.of_nat j mod ptr_bits)) as [Em|Nm]; case_decide as Hd.
    + by rewrite orb_true_r.
    + exfalso. apply Hd. assert (Z.of_nat j / ptr_bits = Z.of_nat i / ptr_bits) by lia. nia.
    + subst. done.
    + by rewrite orb_false_r.
  - rewrite list_lookup_insert_ne by done. case_decide; [by subst|done].
Qed.

End Tried.

(** ** Choosing a peer *)

Section Choice.
Context `{Arch}.
Implicit Types (p : peer) (ps : list peer).

(** The weight a peer has left is at most the one it was configured with. *)
Definition weights_ok p : Prop :=
  0 <= effective_weight p <= weight p /\ weight p < 2 ^ (ptr_bits - 1) /\ 0 <= max_fails p.

Lemma raise_ok p : weights_ok p -> weights_ok (raise p).
Proof.
  intros (He & Hw & Hm). unfold raise. simpl. destruct (Z.ltb_spec (effective_weight p) (weight p)); split_and!; simpl; lia.
Qed.

Lemma raise_unusable now p : unusable now (raise p) = unusable now p.
Proof. unfold raise. simpl. by destruct (_ <? _). Qed.

(** What is not choosable: a peer tried before, or one that is down or has failed. *)
Definition passed_over (now : Z) (t : list Z) ps (j : nat) : Prop :=
  tried_bit t j = Some true \/ (unusable now <$> ps !! j) = Some true.

Definition choosable (now : Z) (t : list Z) ps (j : nat) : Prop :=
  tried_bit t j = Some false /\ (unusable now <$> ps !! j) = Some false.

(** Two states of a group in which the same peers can be chosen. *)
Definition alike (now : Z) ps ps' : Prop := forall j, (unusable now <$> ps' !! j) = (unusable now <$> ps !! j).

Lemma alike_length now ps ps' : alike now ps ps' -> length ps' = length ps.
Proof.
  intros Ha. assert (E : (unusable now <$> ps') = (unusable now <$> ps)) by (apply list_eq; intros j; by rewrite !list_lookup_fmap).
  apply (f_equal length) in E. by rewrite !length_fmap in E.
Qed.

Lemma alike_insert now ps i p p' :
  ps !! i = Some p -> unusable now p' = unusable now p -> alike now ps (<[i := p']> ps).
Proof.
  intros Hp Hu j. destruct (decide (j = i)) as [->|].
  - rewrite list_lookup_insert_eq, Hp by (by apply lookup_lt_Some in Hp). simpl. by rewrite Hu.
  - by rewrite list_lookup_insert_ne.
Qed.

Lemma get_loop_spec now n i t ps best total :
  covers t (length ps) -> (i + n = length ps)%nat -> (forall b, best = Some b -> (b < length ps)%nat) ->
  exists ps' best' total', get_loop now n i t ps best total = Some (ps', best', total')
    /\ alike now ps ps' /\ (Forall weights_ok ps -> Forall weights_ok ps')
    /\ match best' with
       | None => best = None /\ forall j, (i <= j < length ps)%nat -> passed_over now t ps j
       | Some b => best = Some b \/ choosable now t ps b
       end.
Proof.
  revert i ps best total. induction n as [|n IH]; intros i ps best total Hc Hn Hb.
  { exists ps, best, total. split_and!; try done. destruct best; [by left|]. split; [done|lia]. }
  simpl. destruct (tried_bit_covered t (length ps) i Hc ltac:(lia)) as [tb Ht]. rewrite Ht. simpl.
  destruct (lookup_lt_is_Some_2 ps i ltac:(lia)) as [p Hp].
  assert (Hskip : passed_over now t ps i ->
    exists ps' best' total', get_loop now n (S i) t ps best total = Some (ps', best', total')
    /\ alike now ps ps' /\ (Forall weights_ok ps -> Forall weights_ok ps')
    /\ match best' with
       | None => best = None /\ forall j, (i <= j < length ps)%nat -> passed_over now t ps j
       | Some b => best = Some b \/ choosable now t ps b
       end).
  { intros Hpo. destruct (IH (S i) ps best total Hc ltac:(lia) Hb) as (ps' & best' & total' & E & Ha & Hw & Hm).
    exists ps', best', total'. split_and!; try done. destruct best' as [b|]; [done|]. destruct Hm as [-> Hj].
    split; [done|]. intros j Hlt. destruct (decide (j = i)) as [->|]; [done|]. apply Hj. lia. }
  destruct tb; [by apply Hskip; left|]. rewrite Hp. simpl.
  destruct (unusable now p) eqn:Hun; [apply Hskip; right; by rewrite Hp; simpl; rewrite Hun|]. clear Hskip.
  set (ps1 := <[i := raise p]> ps).
  assert (Ha1 : alike now ps ps1) by (apply (alike_insert now ps i p); [done|apply raise_unusable]).
  assert (Hch : choosable now t ps i) by (split; [done|by rewrite Hp; simpl; rewrite Hun]).
  assert (Hl1 : length ps1 = length ps) by apply length_insert.
  assert (Hbest : exists b, match best with
     | None => Some i
     | Some j => q ← ps1 !! j; Some (if current_weight q <? current_weight (raise p) then i else j)
     end = Some b /\ (b = i \/ best = Some b)).
  { destruct best as [b|]; [|eauto]. destruct (lookup_lt_is_Some_2 ps1 b) as [q ->]; [rewrite Hl1; by apply Hb|]. simpl.
    eexists. split; [done|]. destruct (_ <? _); eauto. }
  destruct Hbest as (b & -> & Hbb). cbn [mbind option_bind].
  destruct (IH (S i) ps1 (Some b) (sint ptr_bits (total + effective_weight p))) as (ps' & best' & total' & E & Ha & Hw & Hm).
  - by rewrite Hl1.
  - lia.
  - intros b' [= <-]. rewrite Hl1. destruct Hbb as [->|Hbb]; [lia|by apply Hb].
  - exists ps', best', total'. split_and!; [done|by intros j; rewrite Ha|..].
    + intros Hok. apply Hw, Forall_insert; [done|]. apply raise_ok. rewrite Forall_lookup in Hok. eauto.
    + destruct best' as [b'|]; [|by destruct Hm]. destruct Hm as [[= <-]|[H1 H2]].
      * destruct Hbb as [->|]; auto.
      * right. split; [done|]. by rewrite <- Ha1.
Qed.

Lemma get_peer_spec now ps d :
  covers (tried d) (length ps) ->
  exists r ps' d', ngx_http_upstream_get_peer now ps d = Some (r, ps', d')
    /\ length ps' = length ps /\ (Forall weights_ok ps -> Forall weights_ok ps')
    /\ at_group d' = at_group d /\ length (tried d') = length (tried d)
    /\ match r with
       | None => d' = d /\ forall j, (j < length ps)%nat -> passed_over now (tried d) ps j
       | Some i => choosable now (tried d) ps i /\ current d' = i
           /\ forall j, tried_bit (tried d') j = if decide (j = i) then Some true else tried_bit (tried d) j
       end.
Proof.
  intros Hc. destruct (get_loop_spec now (length ps) 0 (tried d) ps None 0 Hc) as (ps' & best & total & E & Ha & Hw & Hm); [done..|].
  unfold ngx_http_upstream_get_peer. rewrite E. simpl. pose proof (alike_length now ps ps' Ha) as Hl. destruct best as [b|].
  - destruct Hm as [Hm|Hch]; [done|]. destruct (set_tried_spec (tried d) b false (proj1 Hch)) as (t' & -> & Hlt & Ht'). simpl.
    assert (Hb : (b < length ps')%nat). { rewrite Hl. destruct Hch as [_ Hu]. destruct (ps !! b) eqn:Eb; [|done]. by apply lookup_lt_Some in Eb. }
    destruct (lookup_lt_is_Some_2 ps' b Hb) as [q Hq]. rewrite Hq. simpl.
    do 3 eexists. split; [done|]. split_and!; simpl; try done; [by rewrite length_insert|].
    intros Hok. specialize (Hw Hok). apply Forall_insert; [done|]. rewrite Forall_lookup in Hw. specialize (Hw b q Hq).
    destruct (_ <? _); apply Hw.
  - exists None, ps', d. split_and!; try done. intros j Hj. apply Hm. lia.
Qed.

(** ** Moving to the backup servers *)

Definition shape (gs : list group) : list (bool * nat) := map (fun g => (single g, length (peers g))) gs.

Definition group_fits (t : list Z) (g : group) : Prop :=
  covers t (length (peers g)) /\ (single g = true -> peers g <> []).

Definition group_ok (g : group) : Prop := Forall weights_ok (peers g).

(** No peer of the group can be given to a request that has tried [t]. *)
Definition exhausted (now : Z) (t : list Z) (g : group) : Prop :=
  if single g then forall p, peers g !! 0%nat = Some p -> down p <> 0
  else forall j, (j < length (peers g))%nat -> passed_over now t (peers g) j.

(** The peer [i] of the group can take a request. *)
Definition usable (now : Z) (g : group) (i : nat) : Prop :=
  exists p, peers g !! i = Some p /\ if single g then down p = 0 else unusable now p = false.

(** A peer [i] is given, of the group that is [a] groups after the one of [d]. *)
Definition picked (now : Z) (gs : list group) (d : data) (i : nat) (d' : data) (a : nat) (g : group) : Prop :=
  gs !! a = Some g /\ at_group d' = (at_group d + a)%nat /\ usable now g i
  /\ (single g = false -> current d' = i /\ tried_bit (tried d') i = Some true
        /\ (a = 0%nat -> tried_bit (tried d) i = Some false)
        /\ forall j, (j < length (peers g))%nat -> j <> i ->
             tried_bit (tried d') j = if decide (a = 0%nat) then tried_bit (tried d) j else Some false).

(** No peer is given: [failed] of the source for every group. *)
Definition busy (now : Z) (g : group) (next : list group) (d : data) (gs' : list group) (d' : data) : Prop :=
  at_group d' = (at_group d + length next)%nat /\ exhausted now (tried d) g /\ Forall (exhausted now []) next
  /\ (next = [] -> tried d' = tried d)
  /\ (forall g' j, last next = Some g' -> (j < length (peers g'))%nat -> tried_bit (tried d') j = Some false)
  /\ Forall (fun g => Forall (fun p => fails p = 0) (peers g)) gs'.

Lemma tried_words_le t m : covers t m -> (tried_words m <= length t)%nat.
Proof.
  unfold covers, tried_words. intros Hc. pose proof word_bits_pos.
  assert ((Z.of_nat m + (ptr_bits - 1)) / ptr_bits < Z.of_nat (length t) + 1) by (apply Z.div_lt_upper_bound; lia).
  pose proof (Z.div_pos (Z.of_nat m + (ptr_bits - 1)) ptr_bits). lia.
Qed.

Lemma wiped_bit t m j : (j < m)%nat -> tried_bit (replicate (tried_words m) 0 ++ drop (tried_words m) t) j = Some false.
Proof.
  intros Hj. rewrite tried_bit_testbit. pose proof word_bits_pos as Hp.
  assert (Hlt : (Z.to_nat (Z.of_nat j / ptr_bits) < tried_words m)%nat).
  { unfold tried_words. pose proof (Z.div_mod (Z.of_nat m + (ptr_bits - 1)) ptr_bits).
    pose proof (Z.mod_pos_bound (Z.of_nat m + (ptr_bits - 1)) ptr_bits Hp). pose proof (Z.div_pos (Z.of_nat j) ptr_bits).
    assert (Z.of_nat j / ptr_bits < (Z.of_nat m + (ptr_bits - 1)) / ptr_bits) by (apply Z.div_lt_upper_bound; nia). lia. }
  rewrite lookup_app_l, lookup_replicate_2 by (rewrite ?length_replicate; done). simpl. by rewrite Z.bits_0.
Qed.

Lemma wiped_length t m : covers t m -> length (replicate (tried_words m) 0 ++ drop (tried_words m) t) = length t.
Proof. intros Hc. apply tried_words_le in Hc. rewrite length_app, length_replicate, length_drop. lia. Qed.

Lemma exhausted_wiped now t g :
  exhausted now (replicate (tried_words (length (peers g))) 0 ++ drop (tried_words (length (peers g))) t) g -> exhausted now [] g.
Proof.
  unfold exhausted. destruct (single g); [done|]. intros He j Hj. destruct (He j Hj) as [Hb|Hu]; [|by right].
  by rewrite wiped_bit in Hb.
Qed.

(** The part of [get_rr] that looks at one group. *)
Definition get_here (now : Z) (g : group) (d : data) : option (option nat * list peer * data) :=
  if single g then
    p ← peers g !! 0%nat;
    Some (if negb (down p =? 0) then None else Some 0%nat, peers g, d)
  else ngx_http_upstream_get_peer now (peers g) d.

Lemma get_here_spec now g d :
  group_fits (tried d) g ->
  exists r ps' d', get_here now g d = Some (r, ps', d') /\ length ps' = length (peers g)
    /\ (group_ok g -> Forall weights_ok ps') /\ length (tried d') = length (tried d)
    /\ match r with
       | None => d' = d /\ exhausted now (tried d) g
       | Some i => forall next, picked now (g :: next) d i d' 0 g
       end.
Proof.
  intros [Hc Hs]. unfold get_here, picked, exhausted, usable, group_ok. destruct (single g).
  - destruct (peers g) as [|p ps]; [by destruct (Hs eq_refl)|]. simpl. do 3 eexists. split; [done|]. split_and!; try done.
    destruct (Z.eqb_spec (down p) 0); simpl.
    + intros next. split_and!; [done|lia|by exists p|done].
    + split; [done|]. by intros p' [= <-].
  - destruct (get_peer_spec now (peers g) d Hc) as (r & ps' & d' & E & Hl & Hw & Ha & Ht & Hm).
    exists r, ps', d'. split_and!; try done. destruct r as [i|]; [|done]. destruct Hm as ([H1 H2] & H3 & H4). intros next.
    destruct (peers g !! i) as [p|] eqn:Ep; [|done]. simpl in H2. injection H2 as H2.
    split_and!; [done|lia|by exists p|]. intros _. split_and!; [done|by rewrite H4, decide_True|done|].
    intros j _ Hj. by rewrite H4, decide_False, decide_True.
Qed.

Lemma get_rr_spec now next before g d :
  Forall (group_fits (tried d)) (g :: next) ->
  exists rc i gs' d', get_rr now before g next d = Some (rc, i, before ++ gs', d')
    /\ shape gs' = shape (g :: next) /\ (Forall group_ok (g :: next) -> Forall group_ok gs')
    /\ length (tried d') = length (tried d)
    /\ (rc = NGX_OK /\ (exists a ga, picked now (g :: next) d i d' a ga) \/ rc = NGX_BUSY /\ busy now g next d gs' d').
Proof.
  revert before g d. induction next as [|g' next IH]; intros before g d Hf; inversion Hf as [|? ? Hg Hn]; subst;
    destruct (get_here_spec now g d Hg) as (r & ps' & d1 & E & Hl & Hw & Ht & Hm).
  - cbn [get_rr]. unfold get_here in E. rewrite E. cbn [mbind option_bind]. destruct r as [i|].
    + do 4 eexists. split; [done|]. split_and!; [by simpl; rewrite Hl| |done|].
      * intros Hok. inversion Hok; subst. constructor; [by apply Hw|done].
      * left. split; [done|]. exists 0%nat, g. specialize (Hm []). unfold picked in *. simpl. destruct (tries d1 =? 1); done.
    + destruct Hm as [-> He]. do 4 eexists. split; [done|]. split_and!; [by simpl; rewrite length_map, Hl| |done|].
      * intros Hok. inversion Hok; subst. constructor; [|done]. apply Forall_map. eapply Forall_impl; [by apply Hw|]. done.
      * right. split; [done|]. split_and!; [simpl; lia|done|done|done|done|]. constructor; [|done]. apply Forall_map, Forall_true. done.
  - cbn [get_rr]. unfold get_here in E. rewrite E. cbn [mbind option_bind]. destruct r as [i|].
    + do 4 eexists. split; [done|]. split_and!; [by simpl; rewrite Hl| |done|].
      * intros Hok. inversion Hok; subst. constructor; [by apply Hw|done].
      * left. split; [done|]. exists 0%nat, g. specialize (Hm (g' :: next)). unfold picked in *. simpl. done.
    + destruct Hm as [-> He]. inversion Hn as [|? ? [Hc' Hs'] Hn']; subst.
      rewrite option_guard_True by (by apply tried_words_le).
      set (d1 := mkData _ _ _ _). destruct (IH [] g' d1) as (rc & i & gs' & d' & E' & Hsh & Hok' & Hlt & Hcase).
      { eapply Forall_impl; [exact Hn|]. intros h [Hh1 Hh2]. split; [|done]. unfold covers, d1. simpl. by rewrite wiped_length. }
      cbn [mbind option_bind]. rewrite E'. cbn [mbind option_bind app].
      assert (Hlt' : length (tried d') = length (tried d)) by (rewrite Hlt; unfold d1; simpl; by rewrite wiped_length).
      destruct Hcase as [[-> (a & ga & Hp)] | [-> Hb]]; simpl negb.
      * exists NGX_OK, i, (mkGroup (single g) ps' :: gs'), d'. split; [done|]. split_and!; [by simpl; rewrite Hl, Hsh| |done|].
        { intros Hok. inversion Hok; subst. constructor; [by apply Hw|by apply Hok']. }
        left. split; [done|]. exists (S a), ga. destruct Hp as (H1 & H2 & H3 & H4). simpl in H2.
        split_and!; [done|lia|done|]. intros Hs. destruct (H4 Hs) as (? & ? & _ & H5). split_and!; [done..|].
        intros j Hj Hji. rewrite (H5 j Hj Hji). destruct (decide (a = 0%nat)) as [->|]; [|done].
        injection H1 as <-. unfold d1. simpl. by apply wiped_bit.
      * exists NGX_BUSY, 0%nat, (mkGroup (single g) (map (set_fails 0) ps') :: gs'), d'.
        split; [done|]. split_and!; [by simpl; rewrite length_map, Hl, Hsh| |done|].
        { intros Hok. inversion Hok; subst. constructor; [|by apply Hok']. apply Forall_map. eapply Forall_impl; [by apply Hw|]. done. }
        right. split; [done|]. destruct Hb as (H1 & H2 & H3 & H4 & H5 & H6). simpl in H1. split_and!; [simpl; lia|done| |done| |].
        { constructor; [by apply (exhausted_wiped now (tried d))|done]. }
        { intros h j Hh Hj. destruct next as [|h2 next]; [|by apply (H5 h)]. injection Hh as <-. rewrite H4 by done.
          unfold d1. simpl. by apply wiped_bit. }
        constructor; [|done]. apply Forall_map, Forall_true. done.
Qed.
End Choice.

(** ** The invariant of the requests *)

Section Invariant.
Context `{Arch}.
Implicit Types (gs : list group) (s : session) (sh : list (bool * nat)).

(** What holds of a request, in terms of the sizes of the groups only: what the other
    requests do to the peers does not matter. *)
Record sess_ok sh s : Prop := {
  so_group : (at_group (rrp s) < length sh)%nat;
  so_fits : forall a b n, sh !! a = Some (b, n) -> covers (tried (rrp s)) n /\ (b = true -> n <> 0%nat);
  so_current : forall n, sockaddr s = true -> sh !! at_group (rrp s) = Some (false, n) -> (current (rrp s) < n)%nat;
  so_given : forall a i, (a, i) ∈ given s -> (a <= at_group (rrp s))%nat /\ exists b n, sh !! a = Some (b, n) /\ (i < n)%nat;
  so_tried : forall n i, sh !! at_group (rrp s) = Some (false, n) -> (i < n)%nat ->
               ((at_group (rrp s), i) ∈ given s <-> tried_bit (tried (rrp s)) i = Some true);
  so_once : (forall a b n, sh !! a = Some (b, n) -> b = false) -> NoDup (given s)
}.

Lemma shape_lookup gs a : shape gs !! a = (fun g => (single g, length (peers g))) <$> gs !! a.
Proof. apply list_lookup_fmap. Qed.

Lemma sess_fits gs s : sess_ok (shape gs) s -> Forall (group_fits (tried (rrp s))) gs.
Proof.
  intros Hs. apply Forall_lookup. intros a g Hg. destruct (so_fits _ _ Hs a (single g) (length (peers g))) as [H1 H2].
  { by rewrite shape_lookup, Hg. }
  split; [done|]. intros Hsg. specialize (H2 Hsg). by destruct (peers g).
Qed.

(** What a connect gives to a request. *)
Definition gives (now : Z) gs s s' : Prop :=
  exists a i g, sockaddr s' = true /\ given s' = (a, i) :: given s /\ gs !! a = Some g /\ usable now g i
    /\ (single g = false -> (a, i) ∉ given s).

(** No peer is left for the request in its group and the groups after it, and their peers
    are marked live. *)
Definition refuses (now : Z) gs s gs' s' : Prop :=
  sockaddr s' = sockaddr s /\ given s' = given s
  /\ forall a g, (at_group (rrp s) <= a)%nat -> gs !! a = Some g ->
       (forall i p, peers g !! i = Some p ->
          if single g then i = 0%nat -> down p <> 0 else (a, i) ∈ given s \/ unusable now p = true)
       /\ exists g', gs' !! a = Some g' /\ Forall (fun p => fails p = 0) (peers g').

Lemma shape_app gs gs2 : shape (gs ++ gs2) = shape gs ++ shape gs2.
Proof. apply map_app. Qed.

Lemma sess_picked now gs s i d' a ga :
  sess_ok (shape gs) s -> length (tried d') = length (tried (rrp s)) ->
  picked now (drop (at_group (rrp s)) gs) (rrp s) i d' a ga ->
  sess_ok (shape gs) (mkSession d' true ((at_group d', i) :: given s))
  /\ gives now gs s (mkSession d' true ((at_group d', i) :: given s)).
Proof.
  intros Hs Hlt (Hg & Ha & (p & Hp & Hu) & Hm). rewrite lookup_drop in Hg. set (k := at_group (rrp s)) in *.
  assert (Hsh : shape gs !! (k + a)%nat = Some (single ga, length (peers ga))) by (by rewrite shape_lookup, Hg).
  assert (Hi : (i < length (peers ga))%nat) by (by apply lookup_lt_Some in Hp).
  assert (Hnew : single ga = false -> ((k + a)%nat, i) ∉ given s).
  { intros Hsg Hin. destruct (Hm Hsg) as (_ & _ & H0 & _). rewrite Hsg in Hsh. destruct (decide (a = 0%nat)) as [->|Hna].
    - rewrite Nat.add_0_r in *. apply (so_tried _ _ Hs _ _ Hsh Hi) in Hin. by rewrite H0 in Hin.
    - apply (so_given _ _ Hs) in Hin as [Hle _]. unfold k in Hle. lia. }
  split.
  - split; simpl; rewrite ?Ha.
    + apply lookup_lt_Some in Hsh. done.
    + intros a' b n Hl. destruct (so_fits _ _ Hs a' b n Hl). split; [|done]. unfold covers in *. by rewrite Hlt.
    + intros n _ Hl. rewrite Hsh in Hl. injection Hl as Hsg <-. by destruct (Hm Hsg) as (-> & _).
    + intros a' j Hin. apply elem_of_cons in Hin as [[= -> ->]|Hin]; [split; [done|by eauto]|].
      destruct (so_given _ _ Hs a' j Hin) as [Hle ?]. split; [|done]. unfold k. lia.
    + intros n j Hl Hj. rewrite Hsh in Hl. injection Hl as Hsg <-. destruct (Hm Hsg) as (_ & Ht & _ & Hrest).
      destruct (decide (j = i)) as [->|Hji]; [split; [done|intros _; apply elem_of_cons; by left]|].
      rewrite (Hrest j Hj Hji). rewrite elem_of_cons. rewrite Hsg in Hsh. destruct (decide (a = 0%nat)) as [->|Hna].
      * rewrite Nat.add_0_r in *. rewrite <- (so_tried _ _ Hs _ _ Hsh Hj). naive_solver.
      * split; [|done]. intros [[=]|Hin]; [done|]. apply (so_given _ _ Hs) in Hin as [Hle _]. unfold k in Hle. lia.
    + intros Hall. apply NoDup_cons. split; [apply Hnew; by eapply Hall|by apply (so_once _ _ Hs)].
  - exists (k + a)%nat, i, ga. simpl. rewrite Ha. split_and!; try done. by exists p.
Qed.

Lemma sess_busy now gs s g gs' d' :
  let k := at_group (rrp s) in
  sess_ok (shape gs) s -> sockaddr s = false -> length (tried d') = length (tried (rrp s)) -> gs !! k = Some g ->
  shape gs' = shape (drop k gs) -> busy now g (drop (S k) gs) (rrp s) gs' d' ->
  sess_ok (shape gs) (mkSession d' (sockaddr s) (given s))
  /\ refuses now gs s (take k gs ++ gs') (mkSession d' (sockaddr s) (given s)).
Proof.
  intros k Hs Hsa Hlt Hg Hsh (Ha & He & Hnext & Hsame & Hwiped & Hfails). fold k in Ha.
  pose proof (lookup_lt_Some _ _ _ Hg) as Hk. rewrite length_drop in Ha.
  assert (Hlen : length (shape gs) = length gs) by apply length_map. split.
  - split; simpl; rewrite ?Ha.
    + lia.
    + intros a' b n Hl. destruct (so_fits _ _ Hs a' b n Hl). split; [|done]. unfold covers in *. by rewrite Hlt.
    + by rewrite Hsa.
    + intros a' j Hin. destruct (so_given _ _ Hs a' j Hin) as [Hle ?]. split; [|done]. fold k in Hle. lia.
    + intros n j Hl Hj. destruct (decide (k + (length gs - S k) = k)%nat) as [E|Hne].
      * rewrite E in *. rewrite Hsame by (apply length_zero_iff_nil; rewrite length_drop; lia). by apply (so_tried _ _ Hs n).
      * rewrite shape_lookup in Hl. destruct (gs !! (k + (length gs - S k))%nat) as [gl|] eqn:Egl; [|done].
        simpl in Hl. injection Hl as Hsg <-. rewrite (Hwiped gl j); [|by rewrite last_lookup, lookup_drop, length_drop, <- Egl; f_equal; lia|done].
        split; [|done]. intros Hin. apply (so_given _ _ Hs) in Hin as [Hle _]. fold k in Hle. lia.
    + apply (so_once _ _ Hs).
  - split_and!; [done|done|]. intros a h Hka Hh. fold k in Hka. split.
    + intros i p Hp. pose proof (lookup_lt_Some _ _ _ Hp) as Hi. destruct (decide (a = k)) as [->|Hne].
      * rewrite Hg in Hh. injection Hh as <-. unfold exhausted in He. destruct (single g) eqn:Hsg; [by intros ->; apply He|].
        destruct (He i Hi) as [Ht|Hu]; [left|right].
        -- apply (so_tried _ _ Hs (length (peers g))); [|done|done]. fold k. by rewrite shape_lookup, Hg; simpl; rewrite Hsg.
        -- rewrite Hp in Hu. by injection Hu.
      * rewrite Forall_lookup in Hnext. specialize (Hnext (a - S k)%nat h). rewrite lookup_drop in Hnext.
        replace (S k + (a - S k))%nat with a in Hnext by lia. specialize (Hnext Hh). unfold exhausted in Hnext.
        destruct (single h); [by intros ->; apply Hnext|]. destruct (Hnext i Hi) as [Ht|Hu]; [done|].
        right. rewrite Hp in Hu. by injection Hu.
    + assert (Hl' : length gs' = length (drop k gs)) by (apply (f_equal length) in Hsh; unfold shape in Hsh; by rewrite !length_map in Hsh).
      rewrite lookup_app_r, length_take by (rewrite length_take; lia).
      destruct (lookup_lt_is_Some_2 gs' (a - k `min` length gs)%nat) as [g' Hg'].
      { rewrite Hl', length_drop. apply lookup_lt_Some in Hh. lia. }
      exists g'. split; [done|]. rewrite Forall_lookup in Hfails. by eapply Hfails.
Qed.

Lemma connect_spec now gs s :
  sess_ok (shape gs) s -> sockaddr s = false ->
  exists rc gs' s', connect now gs s = Some (rc, gs', s') /\ shape gs' = shape gs
    /\ (Forall group_ok gs -> Forall group_ok gs') /\ sess_ok (shape gs) s'
    /\ (rc = NGX_OK /\ gives now gs s s' \/ rc = NGX_BUSY /\ refuses now gs s gs' s').
Proof.
  intros Hs Hsa. pose proof (sess_fits gs s Hs) as Hf. set (k := at_group (rrp s)).
  assert (Hk : (k < length gs)%nat) by (pose proof (so_group _ _ Hs) as Hk; unfold shape in Hk; by rewrite length_map in Hk).
  destruct (lookup_lt_is_Some_2 gs k Hk) as [g Hg]. pose proof (drop_S gs g k Hg) as Hd. set (next := drop (S k) gs) in *.
  assert (Hgs : gs = take k gs ++ g :: next) by (by rewrite <- Hd, take_drop).
  assert (Hlk : forall a, gs !! (k + a)%nat = (g :: next) !! a) by (intros a; by rewrite <- Hd, lookup_drop).
  destruct (get_rr_spec now next (take k gs) g (rrp s)) as (rc & i & gs' & d' & E & Hsh & Hok & Hlt & Hcase).
  { rewrite Hgs in Hf. by apply Forall_app in Hf as [_ Hf]. }
  assert (Hshape : shape (take k gs ++ gs') = shape gs) by (by rewrite shape_app, Hsh, <- shape_app, <- Hgs).
  assert (Hgok : Forall group_ok gs -> Forall group_ok (take k gs ++ gs')).
  { rewrite Hgs at 1. rewrite !Forall_app. naive_solver. }
  unfold connect, ngx_http_upstream_get_round_robin_peer. fold k. rewrite Hd, E. cbn [mbind option_bind].
  rewrite <- Hd in Hcase, Hsh. destruct Hcase as [[-> (a & ga & Hp)] | [-> Hb]]; simpl (_ =? _); cbv iota.
  - destruct (sess_picked now gs s i d' a ga Hs Hlt Hp) as [H1 H2]. do 3 eexists. split; [done|]. split_and!; try done. by left.
  - destruct (sess_busy now gs s g gs' d' Hs Hsa Hlt Hg Hsh Hb) as [H1 H2]. do 3 eexists. split; [done|]. split_and!; try done. by right.
Qed.

Lemma free_ok now failed p : weights_ok p -> weights_ok (free_peer now failed p).
Proof.
  intros (He & Hw & Hm). unfold free_peer. destruct failed; [|destruct (_ <? _); split_and!; simpl; lia]. simpl.
  assert (Hq : 0 < max_fails p -> 0 <= uint ptr_bits (weight p) / max_fails p <= weight p).
  { intros Hpos. pose proof width_cases. assert (Hpw : 2 ^ ptr_bits = 2 * 2 ^ (ptr_bits - 1)) by (rewrite <- Z.pow_succ_r by lia; f_equal; lia).
    rewrite uint_small by lia. split; [apply Z.div_pos; lia|apply Z.div_le_upper_bound; nia]. }
  destruct (Z.eqb_spec (max_fails p) 0) as [Hz|Hz]; simpl.
  - destruct (Z.ltb_spec (effective_weight p) 0); split_and!; simpl; lia.
  - pose proof width_cases. specialize (Hq ltac:(lia)). rewrite sint_small by lia.
    case_match; simpl in *; split_and!; simpl; lia.
Qed.

Lemma sess_freed sh s tr :
  sess_ok sh s ->
  sess_ok sh (mkSession (mkData (at_group (rrp s)) (current (rrp s)) (tried (rrp s)) tr) false (given s)).
Proof. intros []. by split. Qed.

Lemma shape_insert gs k g g' :
  gs !! k = Some g -> single g' = single g -> length (peers g') = length (peers g) -> shape (<[k := g']> gs) = shape gs.
Proof.
  intros Hg Hs Hl. unfold shape. rewrite list_fmap_insert. apply list_insert_id.
  rewrite list_lookup_fmap, Hg. simpl. by rewrite Hs, Hl.
Qed.

Lemma release_spec now failed gs s :
  sess_ok (shape gs) s ->
  exists gs' s', release now failed gs s = Some (gs', s') /\ shape gs' = shape gs
    /\ (Forall group_ok gs -> Forall group_ok gs') /\ sess_ok (shape gs) s' /\ given s' = given s.
Proof.
  intros Hs. unfold release. destruct (sockaddr s) eqn:Hsa; [|by eauto 10].
  unfold ngx_http_upstream_free_round_robin_peer. pose proof (so_group _ _ Hs) as Hk. unfold shape in Hk. rewrite length_map in Hk.
  destruct (lookup_lt_is_Some_2 gs _ Hk) as [g Hg]. rewrite Hg. cbn [mbind option_bind]. destruct (single g) eqn:Hsg.
  { do 2 eexists. split; [done|]. split_and!; [done|done|by apply sess_freed|done]. }
  assert (Hc : (current (rrp s) < length (peers g))%nat).
  { apply (so_current _ _ Hs); [done|]. by rewrite shape_lookup, Hg; simpl; rewrite Hsg. }
  destruct (lookup_lt_is_Some_2 (peers g) _ Hc) as [p Hp]. rewrite Hp. cbn [mbind option_bind].
  do 2 eexists. split; [done|]. split_and!; [| |by apply sess_freed|done].
  - eapply shape_insert; [done|done|apply length_insert].
  - intros Hok. apply Forall_insert; [done|]. rewrite Forall_lookup in Hok. specialize (Hok _ _ Hg).
    apply Forall_insert; [done|]. unfold group_ok in Hok. rewrite Forall_lookup in Hok. apply free_ok. by eapply Hok.
Qed.

(** The weights of a configuration. *)
Definition config_ok (us : option (list server)) : Prop :=
  forall servers, us = Some servers ->
    Forall (fun sv => 0 <= s_weight sv < 2 ^ (ptr_bits - 1) /\ 0 <= s_max_fails sv) servers.

(** At most one group of backup servers; a group marked single is alone and has a peer. *)
Definition groups_ok gs : Prop :=
  (1 <= length gs <= 2)%nat /\ Forall (fun g => single g = true -> length (peers g) = 1%nat /\ length gs = 1%nat) gs.

Lemma init_peers_ok b servers :
  Forall (fun sv => 0 <= s_weight sv < 2 ^ (ptr_bits - 1) /\ 0 <= s_max_fails sv) servers ->
  Forall weights_ok (init_peers b servers).
Proof.
  intros Hc. apply Forall_concat, Forall_map, Forall_forall. intros s Hin. apply list_elem_of_filter in Hin as [_ Hin].
  rewrite Forall_forall in Hc. destruct (Hc s Hin) as [Hw Hm]. apply Forall_replicate. split_and!; simpl; lia.
Qed.

Lemma init_groups us port resolved gs :
  ngx_http_upstream_init_round_robin us port resolved = Some gs -> config_ok us -> Forall group_ok gs /\ groups_ok gs.
Proof.
  unfold ngx_http_upstream_init_round_robin. intros E Hc. destruct us as [servers|].
  - specialize (Hc servers eq_refl). pose proof (init_peers_ok false servers Hc) as H1. pose proof (init_peers_ok true servers Hc) as H2.
    destruct (init_peers false servers) as [|p ps] eqn:Ep; [done|]. destruct (init_peers true servers) as [|q qs]; injection E as <-.
    + split; [by constructor|]. split; [simpl; lia|]. constructor; [|done]. simpl. intros Hs%Nat.eqb_eq. lia.
    + split; [by constructor; [|constructor]|]. split; [simpl; lia|]. by constructor; [|constructor].
  - destruct (port =? 0); [done|]. destruct resolved as [n|]; [|done]. injection E as <-. split.
    + constructor; [|done]. apply Forall_replicate. pose proof width_cases. split_and!; simpl; lia.
    + split; [simpl; lia|]. constructor; [|done]. simpl. intros ->%Nat.eqb_eq. done.
Qed.

Lemma groups_ok_shape gs gs' : shape gs' = shape gs -> groups_ok gs -> groups_ok gs'.
Proof.
  intros Hsh [Hl Hg]. assert (E : length gs' = length gs) by (apply (f_equal length) in Hsh; unfold shape in Hsh; by rewrite !length_map in Hsh).
  split; [lia|]. rewrite E. apply Forall_lookup. intros a g' Hg' Hs. rewrite Forall_lookup in Hg.
  assert (Ha : shape gs' !! a = Some (single g', length (peers g'))) by (by rewrite shape_lookup, Hg').
  rewrite Hsh, shape_lookup in Ha. destruct (gs !! a) as [g|] eqn:Eg; [|done]. injection Ha as Ha1 Ha2.
  destruct (Hg a g Eg) as [H1 H2]; [congruence|]. lia.
Qed.

(** The array of a new request has room for the largest group. *)
Lemma init_covers gs m :
  (m <= match gs with g :: g' :: _ => Nat.max (length (peers g)) (length (peers g')) | [g] => length (peers g) | [] => 0 end)%nat ->
  covers (tried (ngx_http_upstream_init_round_robin_peer gs)) m.
Proof.
  intros Hm. unfold covers, ngx_http_upstream_init_round_robin_peer. simpl. rewrite length_replicate.
  set (n := match gs with _ :: g' :: _ => Nat.max match gs with g :: _ => length (peers g) | [] => 0%nat end (length (peers g'))
            | _ => match gs with g :: _ => length (peers g) | [] => 0%nat end end).
  assert (Hn : (m <= n)%nat) by (subst n; destruct gs as [|? [|]]; done). pose proof word_bits_pos as Hp.
  destruct (Z.leb_spec (Z.of_nat n) ptr_bits); [lia|]. unfold tried_words.
  pose proof (Z.div_mod (Z.of_nat n + (ptr_bits - 1)) ptr_bits). pose proof (Z.mod_pos_bound (Z.of_nat n + (ptr_bits - 1)) ptr_bits Hp).
  pose proof (Z.div_pos (Z.of_nat n + (ptr_bits - 1)) ptr_bits). lia.
Qed.

Lemma new_session gs : groups_ok gs -> sess_ok (shape gs) (mkSession (ngx_http_upstream_init_round_robin_peer gs) false []).
Proof.
  intros [Hl Hg]. split; simpl.
  - unfold shape. rewrite length_map. lia.
  - intros a b n Hs. rewrite shape_lookup in Hs. destruct (gs !! a) as [g|] eqn:Eg; [|done]. injection Hs as <- <-. split.
    + apply init_covers. destruct gs as [|g0 [|g1 [|]]], a as [|[|]]; simpl in *; simplify_eq; lia.
    + intros Hsg. rewrite Forall_lookup in Hg. destruct (Hg a g Eg Hsg). lia.
  - done.
  - by intros a i Hin%not_elem_of_nil.
  - intros n i Hs Hi. split; [by intros ?%not_elem_of_nil|]. intros Hb.
    destruct gs as [|g gs]; [done|]. injection Hs as _ <-. by pose proof (eq_trans (eq_sym Hb) (init_tried (g :: gs) g gs i eq_refl Hi)).
  - intros _. constructor.
Qed.

(** What holds of the groups and the requests at any time. *)
Lemma reach_inv us port resolved gs ss :
  config_ok us -> reach us port resolved gs ss -> Forall group_ok gs /\ groups_ok gs /\ Forall (sess_ok (shape gs)) ss.
Proof.
  intros Hc. induction 1 as [gs E|gs ss _ IH|gs ss k s now rc gs' s' _ IH Hk Hsa E|gs ss k s now failed gs' s' _ IH Hk E|gs ss k _ IH].
  - destruct (init_groups us port resolved gs E Hc). by split_and!.
  - destruct IH as (H1 & H2 & H3). split_and!; try done. constructor; [by apply new_session|done].
  - destruct IH as (H1 & H2 & H3). rewrite Forall_lookup in H3. pose proof (H3 k s Hk) as Hs.
    destruct (connect_spec now gs s Hs Hsa) as (rc' & gs2 & s2 & E2 & Hsh & Hok & Hs' & _). rewrite E in E2. injection E2 as <- <- <-.
    rewrite Hsh. split_and!; [by apply Hok|by apply (groups_ok_shape gs)|]. apply Forall_insert; [|done]. by apply Forall_lookup.
  - destruct IH as (H1 & H2 & H3). rewrite Forall_lookup in H3. pose proof (H3 k s Hk) as Hs.
    destruct (release_spec now failed gs s Hs) as (gs2 & s2 & E2 & Hsh & Hok & Hs' & _). rewrite E in E2. injection E2 as <- <-.
    rewrite Hsh. split_and!; [by apply Hok|by apply (groups_ok_shape gs)|]. apply Forall_insert; [|done]. by apply Forall_lookup.
  - destruct IH as (H1 & H2 & H3). split_and!; try done. by apply Forall_delete.
Qed.

(** All peers of the groups. *)
Definition all_peers gs : list (nat * nat) :=
  concat (imap (fun a g => pair a <$> seq 0 (length (peers g))) gs).

Lemma all_peers_length gs : length (all_peers gs) = sum_list (map (fun g => length (peers g)) gs).
Proof.
  unfold all_peers. rewrite length_concat. f_equal. apply list_eq. intros a.
  rewrite !list_lookup_fmap, list_lookup_imap. destruct (gs !! a); simpl; [|done]. by rewrite length_fmap, length_seq.
Qed.

Lemma elem_all_peers gs a i g : gs !! a = Some g -> (i < length (peers g))%nat -> (a, i) ∈ all_peers gs.
Proof.
  intros Hg Hi. apply list_elem_of_In, in_concat. exists (pair a <$> seq 0 (length (peers g))). split.
  - apply list_elem_of_In. eapply list_elem_of_lookup_2. by rewrite list_lookup_imap, Hg.
  - apply list_elem_of_In, list_elem_of_fmap. exists i. split; [done|]. apply elem_of_seq. lia.
Qed.

Lemma given_bound gs s :
  sess_ok (shape gs) s -> Forall (fun g => single g = false) gs ->
  NoDup (given s) /\ (length (given s) <= sum_list (map (fun g => length (peers g)) gs))%nat.
Proof.
  intros Hs Hns. rewrite <- all_peers_length. assert (Hnd : NoDup (given s)).
  { apply (so_once _ _ Hs). intros a b n Hl. rewrite shape_lookup in Hl. rewrite Forall_lookup in Hns.
    destruct (gs !! a) as [g|] eqn:Eg; [|done]. injection Hl as <- _. by eapply Hns. }
  split; [done|]. apply submseteq_length, NoDup_submseteq; [done|]. intros [a i] Hin.
  destruct (so_given _ _ Hs a i Hin) as [_ (b & n & Hl & Hi)]. rewrite shape_lookup in Hl.
  destruct (gs !! a) as [g|] eqn:Eg; [|done]. injection Hl as _ <-. by apply (elem_all_peers gs a i g).
Qed.
End Invariant.

(** ** Theorems *)


(** C17: where no group of the upstream has a single peer only, a request is given no peer
    twice, however it interleaves with others; so it is given at most as many as there
    are. *)
Theorem rr_given_once `{Arch} us port resolved gs ss s :
  config_ok us -> reach us port resolved gs ss -> s ∈ ss -> Forall (fun g => single g = false) gs ->
  NoDup (given s) /\ (length (given s) <= sum_list (map (fun g => length (peers g)) gs))%nat.
Proof.
  intros Hc Hr Hin. destruct (reach_inv us port resolved gs ss Hc Hr) as (_ & _ & Hs). rewrite Forall_forall in Hs.
  by apply given_bound, Hs.
Qed.

(** the weight that a peer has left is never negative and never more than the weight of
    its configuration, and giving a peer back always succeeds. *)
Theorem rr_weights `{Arch} us port resolved gs ss :
  config_ok us -> reach us port resolved gs ss ->
  (forall g p, g ∈ gs -> p ∈ peers g -> 0 <= effective_weight p <= weight p)
  /\ forall now failed s, s ∈ ss -> is_Some (release now failed gs s).
Proof.
  intros Hc Hr. destruct (reach_inv us port resolved gs ss Hc Hr) as (Hg & _ & Hs). split.
  - intros g p Hin Hp. rewrite Forall_forall in Hg. specialize (Hg g Hin). unfold group_ok in Hg.
    rewrite Forall_forall in Hg. apply (Hg p Hp).
  - intros now failed s Hin. rewrite Forall_forall in Hs.
    destruct (release_spec now failed gs s (Hs s Hin)) as (gs' & s' & -> & _). by eexists.
Qed.

(** *** Witnesses *)

(** Two servers and a backup server; the first has failed once. *)
Definition sample_servers : list server :=
  [mkServer 5 1 10 0 false 1; mkServer 1 1 10 0 false 1; mkServer 1 1 10 0 true 1].

Definition no_session : session := mkSession (mkData 0 0 [] 0) false [].

Definition sample_start : list group := default [] (ngx_http_upstream_init_round_robin (Some sample_servers) 0 None).
Definition sample_new : session := mkSession (@ngx_http_upstream_init_round_robin_peer lp64 sample_start) false [].
Definition sample_connected : Z * list group * session :=
  default (0, [], no_session) (@connect lp64 1000 sample_start sample_new).
Definition sample_released : list group * session :=
  default ([], no_session) (@release lp64 1001 true (snd (fst sample_connected)) (snd sample_connected)).
Definition sample_gs : list group := Eval vm_compute in fst sample_released.
Definition sample_s : session := Eval vm_compute in snd sample_released.

Lemma sample_reach : @reach lp64 (Some sample_servers) 0 None sample_gs [sample_s].
Proof.
  apply (@reach_release lp64 (Some sample_servers) 0 None (snd (fst sample_connected)) [snd sample_connected] 0%nat
           (snd sample_connected) 1001 true sample_gs sample_s); [|reflexivity|vm_compute; reflexivity].
  apply (@reach_connect lp64 (Some sample_servers) 0 None sample_start [sample_new] 0%nat sample_new 1000 NGX_OK
           (snd (fst sample_connected)) (snd sample_connected)); [|reflexivity|reflexivity|vm_compute; reflexivity].
  apply reach_new, reach_start. vm_compute. reflexivity.
Defined.

Lemma sample_config : @config_ok lp64 (Some sample_servers).
Proof. intros servers [= <-]. repeat constructor; vm_compute; congruence. Defined.


Lemma rr_given_once_witness : NoDup (given sample_s) /\ (length (given sample_s) <= 3)%nat.
Proof.
  apply (@rr_given_once lp64 (Some sample_servers) 0 None sample_gs [sample_s] sample_s sample_config sample_reach);
    [constructor|]. vm_compute. repeat constructor.
Defined.

Lemma rr_weights_witness :
  Forall (fun g => Forall (fun p => 0 <= effective_weight p <= weight p) (peers g)) sample_gs.
Proof.
  apply Forall_forall. intros g Hg. apply Forall_forall. intros p Hp.
  exact (proj1 (@rr_weights lp64 (Some sample_servers) 0 None sample_gs [sample_s] sample_config sample_reach) g p Hg Hp).
Defined.
End Peers.
