(* ===== verification/HttpLimitReq.v ===== *)
(** * Limiting the rate of requests

    src/nginx-1.7.2/src/http/modules/ngx_http_limit_req_module.c: every zone is a shared
    memory with a node for each key it has seen of late, in a red-black tree to find them
    and in a queue, the most recently used first, to expire them.  A node is a leaky
    bucket: [excess] is its level, in thousandths of a request, at the time [last]. *)

From stdpp Require Import gmap fin_maps.
From S2P Require Import Prelude NgxString NgxCrc NgxRbtree NgxQueue NgxEventTimer.

(** ** The slab allocator

    What the zones rely on of ngx_slab.c: [live] is the blocks in use, by their
    addresses, with their sizes. *)
Class SlabPool := {
  slab : Type;
  live : slab -> gmap Z Z;
  ngx_slab_alloc_locked : Z -> slab -> Z * slab;
  ngx_slab_free_locked : Z -> slab -> slab;
  slab_alloc_null size s s' :
    ngx_slab_alloc_locked size s = (0, s') -> live s' = live s;
  slab_alloc_block size s s' p :
    0 < size -> ngx_slab_alloc_locked size s = (p, s') -> p <> 0 ->
    live s' = <[p := size]> (live s) /\
    map_Forall (fun q n => p + size <= q \/ q + n <= p) (live s);
  slab_free_block p n s : live s !! p = Some n -> live (ngx_slab_free_locked p s) = delete p (live s)
}.

Module LimitReq.
Import Rbtree.

(** [ngx_http_limit_req_node_t]; the links of its [queue] are on the heap of the queues.
    [bytes] is the array [data]. *)
Record lr := mkLr { len : Z; last : Z; excess : Z; count : Z; bytes : list Z }.

Definition set_len v n := mkLr v (last n) (excess n) (count n) (bytes n).
Definition set_last v n := mkLr (len n) v (excess n) (count n) (bytes n).
Definition set_excess v n := mkLr (len n) (last n) v (count n) (bytes n).
Definition set_count v n := mkLr (len n) (last n) (excess n) v (bytes n).
Definition set_bytes v n := mkLr (len n) (last n) (excess n) (count n) v.

(** The configuration of a [limit_req], with the [rate] of its zone. *)
Record limit := mkLimit { rate : Z; burst : Z; nodelay : bool }.

Section Code.
Context {arch : Arch} {slabs : SlabPool}.

(** The addresses of [sh->sentinel] and [sh->queue]. *)
Variables sentinel header : Z.

(** What is in memory that has just been allocated. *)
Variables (junk : node lr) (junk_link : Queue.link).

(** [NGX_DEBUG] *)
Variable debug : bool.

(** The tree, the queue and the pool of a zone. *)
Record zone := mkZone { tree : rb lr; links : Queue.heap; pool : slab }.

(** ** The monad: the failure is an access to memory that is not allocated *)

Definition ZM (X : Type) : Type := zone -> option (X * zone).

#[global] Instance ZM_ret : MRet ZM := fun X x z => Some (x, z).
#[global] Instance ZM_bind : MBind ZM := fun X Y f k z =>
  match k z with Some (x, z') => f x z' | None => None end.

Definition on_tree {X} (k : M lr X) : ZM X :=
  fun z => match k (tree z) with Some (x, t) => Some (x, mkZone t (links z) (pool z)) | None => None end.

Definition on_queue {X} (k : Queue.M X) : ZM X :=
  fun z => match k (links z) with Some (x, q) => Some (x, mkZone (tree z) q (pool z)) | None => None end.

(** [lr->f] and writes to it *)
Definition get {X} (p : Z) (f : lr -> X) : ZM X := on_tree (rd p (fun n => f (data n))).
Definition put (p : Z) (f : lr -> lr) : ZM unit := on_tree (upd p (fun n => set_data (f (data n)) n)).

(** [offsetof(ngx_rbtree_node_t, color)] is four words; [queue] is in the second word
    from there, [data] behind six of them. *)
Definition word : Z := ptr_bits / 8.
Definition queue_offset : Z := 4 * word + word.
Definition node_size (n : Z) : Z := 4 * word + 6 * word + n.

(** [&lr->queue] and [ngx_queue_data]; a node is known by the address of its tree node. *)
Definition queue_of (node : Z) : Z := node + queue_offset.
Definition ngx_queue_data (q : Z) : Z := q - queue_offset.

Definition slab_alloc (size : Z) : ZM Z := fun z =>
  let '(p, s) := ngx_slab_alloc_locked size (pool z) in
  if p =? 0 then Some (p, mkZone (tree z) (links z) s)
  else Some (p, mkZone (mkRb lr (<[p := junk]> (cells (tree z))) (root (tree z)))
                       (<[queue_of p := junk_link]> (links z)) s).

Definition slab_free (p : Z) : ZM unit := fun z =>
  Some (tt, mkZone (mkRb lr (delete p (cells (tree z))) (root (tree z)))
                   (delete (queue_of p) (links z)) (ngx_slab_free_locked p (pool z))).

(** [now] of the seconds and milliseconds of [ngx_timeofday()]. *)
Definition now_of (sec msec : Z) : Z := uint ptr_bits (sint ptr_bits (sec * 1000) + msec).

(** ** The order of the tree *)

(** [ngx_memn2cmp] of the bytes of two nodes; [None] is a read behind them. *)
Definition lr_cmp (a b : lr) : option Z :=
  ngx_memn2cmp (bytes a) (bytes b) (Z.to_nat (len a)) (Z.to_nat (len b)).

Definition lr_less (n t : Z * lr) : bool :=
  if n.1 <? t.1 then true
  else if t.1 <? n.1 then false
  else match lr_cmp n.2 t.2 with Some rc => rc <? 0 | None => false end.

Definition ngx_http_limit_req_rbtree_insert_value : Z -> Z -> M lr unit := insert_leaf sentinel lr_less.

(** The walk of [ngx_http_limit_req_lookup]: the node of the key, or the sentinel. *)
Fixpoint find_loop (fuel : nat) (hash : Z) (key_data : list Z) (node : Z) : M lr Z :=
  match fuel with
  | O => no_fuel
  | S fuel' =>
      if node =? sentinel then mret node
      else
        k ← rd node key;
        if hash <? k then q ← rd node left; find_loop fuel' hash key_data q
        else if k <? hash then q ← rd node right; find_loop fuel' hash key_data q
        else
          n ← rd node data;
          rc ← (fun s => r ← ngx_memn2cmp key_data (bytes n) (length key_data) (Z.to_nat (len n)); Some (r, s)) : M lr Z;
          if rc =? 0 then mret node
          else q ← rd node (child (if rc <? 0 then Left else Right)); find_loop fuel' hash key_data q
  end.

(** ** Buckets *)

(** [ms = (ngx_msec_int_t) (now - lr->last)], without its sign *)
Definition elapsed (now : Z) (n : lr) : Z := Timers.ngx_abs (sint ptr_bits (now - last n)).

(** [lr->excess - ctx->rate * ngx_abs(ms) / 1000 + plus] *)
Definition level (rate now : Z) (n : lr) (plus : Z) : Z :=
  sint ptr_bits (excess n - uint ptr_bits (rate * uint ptr_bits (elapsed now n)) / 1000 + plus).

(** With one more request, and not less than empty. *)
Definition new_excess (rate now : Z) (n : lr) : Z :=
  let e := level rate now n 1000 in if e <? 0 then 0 else e.

(** [ngx_http_limit_req_expire]: [fuel] is the turns left until [n] is 3. *)
Fixpoint expire_loop (rate now : Z) (fuel : nat) (n : Z) : ZM unit :=
  match fuel with
  | O => mret tt
  | S fuel' =>
      if negb (n <? 3) then mret tt
      else
        empty ← on_queue (Queue.ngx_queue_empty header);
        if empty : bool then mret tt
        else
          q ← on_queue (Queue.ngx_queue_last header);
          let node := ngx_queue_data q in
          c ← get node count;
          if negb (c =? 0) then mret tt
          else
            keep ← (if negb (n =? 0) then
                      e ← get node (elapsed now);
                      if e <? 60000 then mret true
                      else l ← get node (fun a => level rate now a 0); mret (0 <? l)
                    else mret false);
            if keep : bool then mret tt
            else
              on_queue (Queue.ngx_queue_remove debug q);;
              on_tree (ngx_rbtree_delete sentinel node);;
              slab_free node;;
              expire_loop rate now fuel' (n + 1)
  end.

Definition ngx_http_limit_req_expire (rate now n : Z) : ZM unit := expire_loop rate now 3 n.

(** The outcome of a lookup: the return code, [*ep], and the node [ctx->node] is set to,
    where it is set. *)
Record found := mkFound { rc : Z; ep : Z; ctx_node : option Z }.

(** The node of the key is there. *)
Definition lookup_hit_node (lim : limit) (now : Z) (account : bool) (node : Z) : ZM found :=
  on_queue (Queue.ngx_queue_remove debug (queue_of node));;
  on_queue (Queue.ngx_queue_insert_head header (queue_of node));;
  e ← get node (new_excess (rate lim) now);
  if burst lim <? uint ptr_bits e then mret (mkFound NGX_BUSY e None)
  else if account then
    put node (set_excess e);;
    put node (set_last now);;
    mret (mkFound NGX_OK e None)
  else
    put node (fun n => set_count (uint ptr_bits (count n + 1)) n);;
    mret (mkFound NGX_AGAIN e (Some node)).

(** The node that was allocated becomes the node of the key. *)
Definition lookup_new_node (now : Z) (account : bool) (hash : Z) (key_data : list Z) (node : Z) : ZM found :=
  on_tree (upd node (set_key hash));;
  put node (set_len (uint 8 (Z.of_nat (length key_data))));;
  put node (set_excess 0);;
  put node (set_bytes key_data);;
  on_tree (ngx_rbtree_insert sentinel ngx_http_limit_req_rbtree_insert_value node);;
  on_queue (Queue.ngx_queue_insert_head header (queue_of node));;
  if account then
    put node (set_last now);;
    put node (set_count 0);;
    mret (mkFound NGX_OK 0 None)
  else
    put node (set_last 0);;
    put node (set_count 1);;
    mret (mkFound NGX_AGAIN 0 (Some node)).

Definition ngx_http_limit_req_lookup (lim : limit) (now hash : Z) (key_data : list Z) (account : bool) : ZM found :=
  node ← on_tree (fuel ← loop_fuel; rt ← get_root; find_loop fuel hash key_data rt);
  if negb (node =? sentinel) then lookup_hit_node lim now account node
  else
    let size := node_size (Z.of_nat (length key_data)) in
    ngx_http_limit_req_expire (rate lim) now 1;;
    node ← slab_alloc size;
    if node =? 0 then
      ngx_http_limit_req_expire (rate lim) now 0;;
      node ← slab_alloc size;
      if node =? 0 then mret (mkFound NGX_ERROR 0 None)
      else lookup_new_node now account hash key_data node
    else lookup_new_node now account hash key_data node.

(** What [ngx_http_limit_req_account] does to the node of one limit: the new excess. *)
Definition account_node (rate now node : Z) : ZM Z :=
  e ← get node (new_excess rate now);
  put node (set_last now);;
  put node (set_excess e);;
  put node (fun n => set_count (uint ptr_bits (count n - 1)) n);;
  mret e.

(** What the handler does to it when another limit rejects the request. *)
Definition release_node (node : Z) : ZM unit :=
  put node (fun n => set_count (uint ptr_bits (count n - 1)) n).

(** [excess * 1000 / ctx->rate]; [None] is a division by zero. *)
Definition delay_of (rate e : Z) : option Z :=
  if rate =? 0 then None else Some (uint ptr_bits (sint ptr_bits (e * 1000)) / rate).
End Code.
Arguments zone {slabs}.

(** ** The handler *)

(** A [limit_req] of the location, with the addresses of its zone. *)
Record conf := mkConf { lim : limit; sentinel_of : Z; header_of : Z }.

(** What the handler decides: to go on, to answer with [status_code], to delay the request
    by some milliseconds, or to answer 500 because the read event cannot be set. *)
Inductive outcome := Pass | Reject | Delay (ms : Z) | Fault.

Section Handler.
Context {arch : Arch} {slabs : SlabPool}.
Variables (junk : node lr) (junk_link : Queue.link) (debug : bool).

(** The limits of the location, the values of their variables ([None] for one that is not
    found), the time, and whether [ngx_handle_read_event] succeeds. *)
Variables (limits : list conf) (vals : list (option (list Z))) (now : Z) (read_ok : bool).

(** The zones, in the order of the limits. *)
Definition HM (X : Type) : Type := list zone -> option (X * list zone).

#[global] Instance HM_ret : MRet HM := fun X x zs => Some (x, zs).
#[global] Instance HM_bind : MBind HM := fun X Y f k zs =>
  match k zs with Some (x, zs') => f x zs' | None => None end.

Definition failure {X} : HM X := fun _ => None.

(** [n] is the index of a limit; what happens under the lock of its zone. *)
Definition with_zone {X} (n : nat) (k : ZM X) : HM X := fun zs =>
  z ← zs !! n; '(x, z') ← k z; Some (x, <[n := z']> zs).

(** The loop over the limits: the return code, [n] and [excess] after it, and the
    [ctx->node] of every limit. *)
Fixpoint handler_loop (todo n : nat) (code excess : Z) (nodes : list (option Z)) : HM (Z * nat * Z * list (option Z)) :=
  match todo with
  | O => mret (code, n, excess, nodes)
  | S todo' =>
      match vals !! n, limits !! n with
      | Some (Some k), Some c =>
          if (length k =? 0)%nat then handler_loop todo' (S n) code excess nodes
          else if 65535 <? Z.of_nat (length k) then handler_loop todo' (S n) code excess nodes
          else
            r ← with_zone n (ngx_http_limit_req_lookup (sentinel_of c) (header_of c) junk junk_link debug (lim c) now
                               (Crc.ngx_crc32_short k) k (n =? length limits - 1)%nat);
            let nodes := match ctx_node r with Some p => <[n := Some p]> nodes | None => nodes end in
            if negb (rc r =? NGX_AGAIN) then mret (rc r, n, ep r, nodes)
            else handler_loop todo' (S n) (rc r) (ep r) nodes
      | _, _ => handler_loop todo' (S n) code excess nodes
      end
  end.

(** The loop that gives the nodes back. *)
Fixpoint release_loop (n : nat) (nodes : list (option Z)) : HM (list (option Z)) :=
  match n with
  | O => mret nodes
  | S n' =>
      match nodes !! n' with
      | Some (Some p) => with_zone n' (release_node p);; release_loop n' (<[n' := None]> nodes)
      | _ => release_loop n' nodes
      end
  end.

(** The loop of [ngx_http_limit_req_account]. *)
Fixpoint account_loop (n : nat) (max_delay : Z) (nodes : list (option Z)) : HM (Z * list (option Z)) :=
  match n with
  | O => mret (max_delay, nodes)
  | S n' =>
      match nodes !! n', limits !! n' with
      | Some (Some p), Some c =>
          e ← with_zone n' (account_node (rate (lim c)) now p);
          let nodes := <[n' := None]> nodes in
          if nodelay (lim c) then account_loop n' max_delay nodes
          else
            match delay_of (rate (lim c)) e with
            | None => failure
            | Some delay => account_loop n' (if max_delay <? delay then delay else max_delay) nodes
            end
      | _, _ => account_loop n' max_delay nodes
      end
  end.

(** [at_] is the index of [*limit]. *)
Definition ngx_http_limit_req_account (n : nat) (e : Z) (at_ : nat) (nodes : list (option Z)) : HM (Z * list (option Z)) :=
  if e =? 0 then account_loop n 0 nodes
  else
    match limits !! at_ with
    | None => failure
    | Some c =>
        if nodelay (lim c) then account_loop n 0 nodes
        else match delay_of (rate (lim c)) e with None => failure | Some d => account_loop n d nodes end
    end.

(** The outcome, [r->main->limit_req_set], and the [ctx->node] of the limits. *)
Definition ngx_http_limit_req_handler (limit_req_set : bool) (nodes : list (option Z)) :
    HM (outcome * bool * list (option Z)) :=
  if limit_req_set then mret (Pass, limit_req_set, nodes)
  else
    '(code, n, excess, nodes) ← handler_loop (length limits) 0 NGX_DECLINED 0 nodes;
    if code =? NGX_DECLINED then mret (Pass, limit_req_set, nodes)
    else if (code =? NGX_BUSY) || (code =? NGX_ERROR) then
      nodes ← release_loop n nodes;
      mret (Reject, true, nodes)
    else
      let excess := if code =? NGX_AGAIN then 0 else excess in
      '(delay, nodes) ← ngx_http_limit_req_account n excess n nodes;
      if delay =? 0 then mret (Pass, true, nodes)
      else if read_ok then mret (Delay delay, true, nodes) else mret (Fault, true, nodes).
End Handler.

End LimitReq.
