(* ===== verification/HttpLimitReqZone.v ===== *)
(** * Limiting the rate of requests: the zone

    The tree, the queue and the memory of a zone together are one list of nodes, the
    most recently used first; the walk finds the node of a key, and every operation of
    ngx_http_limit_req_module.c on the zone is an operation on the list. *)

From stdpp Require Import gmap fin_maps.
From S2P Require Import Prelude NgxString NgxRbtree NgxRbtreeRep NgxRbtreeInv NgxRbtreeInsert NgxRbtreeDelete NgxRbtreeSpec NgxQueue NgxQueueSpec HttpLimitReq.

Module LimitZone.
Import Rbtree RbRep RbInv RbInsert RbDelete RbSpec LimitReq.

(** ** Keys

    [ngx_memn2cmp] is the lexicographic order. *)
Fixpoint lex_cmp (a b : list Z) : Z :=
  match a, b with
  | [], [] => 0
  | [], _ => -1
  | _, [] => 1
  | x :: a', y :: b' => if x =? y then lex_cmp a' b' else x - y
  end.

Lemma memn2cmp_lex a b a' b' :
  ngx_memn2cmp (a ++ a') (b ++ b') (length a) (length b) = Some (lex_cmp a b).
Proof.
  unfold ngx_memn2cmp. revert b. induction a as [|x a IH]; intros [|y b]; [done..|]. specialize (IH b). simpl in *.
  destruct (Z.eqb_spec x y) as [->|Hne].
  - destruct (length a <=? length b)%nat eqn:E; simpl in *; rewrite Z.eqb_refl; exact IH.
  - destruct (length a <=? length b)%nat eqn:E; simpl in *; rewrite (proj2 (Z.eqb_neq x y)) by done; simpl;
      by rewrite (proj2 (Z.eqb_neq (x - y) 0)) by lia.
Qed.

Lemma lex_zero a b : lex_cmp a b = 0 <-> a = b.
Proof.
  revert b. induction a as [|x a IH]; intros [|y b]; simpl; try done.
  destruct (Z.eqb_spec x y) as [->|]; [rewrite IH; naive_solver|]. split; [lia|naive_solver].
Qed.

Lemma lex_swap a b : Z.sgn (lex_cmp b a) = - Z.sgn (lex_cmp a b).
Proof.
  revert b. induction a as [|x a IH]; intros [|y b]; simpl; try done. rewrite (Z.eqb_sym y x).
  destruct (x =? y); [apply IH|lia].
Qed.

Lemma lex_trans a b c : lex_cmp a b < 0 -> 0 <= lex_cmp c b -> lex_cmp a c < 0.
Proof.
  revert b c. induction a as [|x a IH]; intros [|y b] [|z c]; simpl; try lia.
  destruct (Z.eqb_spec x y), (Z.eqb_spec z y), (Z.eqb_spec x z); subst; try lia. eauto.
Qed.

(** The key a node has, and what a node must have to be read. *)
Definition lr_key (n : lr) : list Z := take (Z.to_nat (len n)) (bytes n).

Definition good (x : Z * lr) : Prop := (Z.to_nat (len x.2) <= length (bytes x.2))%nat /\ len x.2 < 256.

Lemma lr_key_length n h : good (h, n) -> length (lr_key n) = Z.to_nat (len n).
Proof. unfold good, lr_key. simpl. rewrite length_take. lia. Qed.

Lemma lr_cmp_lex h a k b : good (h, a) -> good (k, b) -> lr_cmp a b = Some (lex_cmp (lr_key a) (lr_key b)).
Proof.
  intros Ha Hb. unfold lr_cmp. rewrite <- (lr_key_length a h), <- (lr_key_length b k) by done.
  rewrite <- (take_drop (Z.to_nat (len a)) (bytes a)) at 1. rewrite <- (take_drop (Z.to_nat (len b)) (bytes b)) at 1.
  apply memn2cmp_lex.
Qed.

(** Where the walk for a hash and a key goes at a node. *)
Definition sign (hash : Z) (k : list Z) (y : Z * lr) : Z :=
  if hash <? y.1 then -1 else if y.1 <? hash then 1 else lex_cmp k (lr_key y.2).

Lemma lr_less_sign x y : good x -> good y -> lr_less x y = (sign x.1 (lr_key x.2) y <? 0).
Proof.
  destruct x as [h a], y as [k b]. intros Ha Hb. unfold lr_less, sign. simpl. rewrite (lr_cmp_lex h a k b) by done.
  by destruct (h <? k), (k <? h).
Qed.

Lemma lr_sign_zero hash k y : sign hash k y = 0 <-> y.1 = hash /\ lr_key y.2 = k.
Proof.
  unfold sign. destruct (Z.ltb_spec hash y.1); [split; [done|lia]|]. destruct (Z.ltb_spec y.1 hash); [split; [done|lia]|].
  rewrite lex_zero. split; [intros ->; split; [lia|done]|by intros [_ ->]].
Qed.

Lemma lr_sign_before hash k y z : good y -> good z -> sign hash k y < 0 -> lr_less z y = false -> sign hash k z < 0.
Proof.
  intros Hy Hz. rewrite lr_less_sign by done. unfold sign.
  destruct (Z.ltb_spec hash y.1), (Z.ltb_spec y.1 hash), (Z.ltb_spec z.1 y.1), (Z.ltb_spec y.1 z.1), (Z.ltb_spec hash z.1),
    (Z.ltb_spec z.1 hash); try lia.
  rewrite Z.ltb_ge. apply lex_trans.
Qed.

Lemma lr_sign_behind hash k y z : good y -> good z -> 0 < sign hash k y -> lr_less y z = false -> 0 < sign hash k z.
Proof.
  intros Hy Hz. rewrite lr_less_sign by done. unfold sign.
  destruct (Z.ltb_spec hash y.1), (Z.ltb_spec y.1 hash), (Z.ltb_spec z.1 y.1), (Z.ltb_spec y.1 z.1), (Z.ltb_spec hash z.1),
    (Z.ltb_spec z.1 hash); try lia.
  rewrite Z.ltb_ge. intros Hk Hyz. pose proof (lex_swap k (lr_key y.2)). pose proof (lex_swap k (lr_key z.2)).
  destruct (Z.lt_trichotomy 0 (lex_cmp k (lr_key z.2))) as [|[E|E]]; [done| |]; exfalso.
  - symmetry in E. apply lex_zero in E as ->. lia.
  - pose proof (lex_trans _ _ _ E Hyz). lia.
Qed.

#[export] Instance lr_order : KeyOrder lr_less good.
Proof.
  split.
  - intros x y Hx Hy. rewrite !lr_less_sign by done. unfold sign. destruct (Z.ltb_spec x.1 y.1), (Z.ltb_spec y.1 x.1); try lia.
    pose proof (lex_swap (lr_key x.2) (lr_key y.2)). lia.
  - intros x y z Hx Hy Hz Hl Hg. rewrite lr_less_sign in * by done. apply Z.ltb_lt in Hl. apply Z.ltb_lt.
    eapply lr_sign_before; [exact Hy|done..|]. by rewrite lr_less_sign.
Qed.

#[export] Instance lr_insert_pt sentinel : InsertPt sentinel (ngx_http_limit_req_rbtree_insert_value sentinel) lr_less.
Proof. apply insert_leaf_pt. Qed.

(** ** The walk *)

Section Walk.
Variable sentinel : Z.

Lemma wp_memn2cmp (k : list Z) h n s Q :
  good (h, n) -> Q (lex_cmp k (lr_key n)) s ->
  wp ((fun s => r ← ngx_memn2cmp k (bytes n) (length k) (Z.to_nat (len n)); Some (r, s)) : M lr Z) s Q.
Proof.
  intros Hg HQ. eexists _, s. split; [|exact HQ]. rewrite <- (lr_key_length n h) by done.
  rewrite <- (app_nil_r k) at 1. rewrite <- (take_drop (Z.to_nat (len n)) (bytes n)) at 1. unfold lr_key at 1.
  by rewrite memn2cmp_lex.
Qed.

Lemma lr_find_turn d hash k fuel y pl pr par cc s Q :
  cells s !! y.1 = Some (mk Left y pl pr par cc) -> y.1 <> sentinel -> good y.2 ->
  (if d is Left then sign hash k y.2 < 0 else 0 < sign hash k y.2) ->
  wp (find_loop sentinel fuel hash k (if d is Left then pl else pr)) s Q ->
  wp (find_loop sentinel (S fuel) hash k y.1) s Q.
Proof.
  intros Hy Hs Hg Hd HQ. destruct y as [q [h n]]. unfold sign in Hd. simpl in *. rewrite (proj2 (Z.eqb_neq q sentinel)) by done.
  do 2 wp_step. simpl. destruct (hash <? h); [destruct d; [by do 2 wp_step|lia]|].
  destruct (h <? hash); [destruct d; [lia|by do 2 wp_step]|]. do 2 wp_step. simpl.
  apply wp_bind. eapply (wp_memn2cmp k h); [done|].
  rewrite (proj2 (Z.eqb_neq (lex_cmp k (lr_key n)) 0)) by (destruct d; lia). do 2 wp_step.
  destruct d; [by rewrite (proj2 (Z.ltb_lt _ _))|by rewrite (proj2 (Z.ltb_ge _ _)) by lia].
Qed.

Lemma lr_find_hit hash k fuel q n s (Q : Z -> rb lr -> Prop) :
  cells s !! q = Some n -> q <> sentinel -> good (lab n) -> sign hash k (lab n) = 0 -> Q q s ->
  wp (find_loop sentinel (S fuel) hash k q) s Q.
Proof.
  intros Hq Hs Hg [Hk Hd]%lr_sign_zero HQ. simpl. rewrite (proj2 (Z.eqb_neq q sentinel)) by done. do 2 wp_step.
  simpl in Hk. rewrite Hk, Z.ltb_irrefl. do 2 wp_step. apply wp_bind. eapply (wp_memn2cmp k (key n)); [done|].
  simpl in Hd. rewrite Hd, (proj2 (lex_zero k k) eq_refl). by wp_step.
Qed.

Lemma wp_lr_find s L hash k (Q : Z -> rb lr -> Prop) :
  is_rbtree lr_less sentinel s L -> Forall (fun x => good x.2) L ->
  ((forall x, x ∈ L -> sign hash k x.2 <> 0) -> Q sentinel s) ->
  (forall x, x ∈ L -> sign hash k x.2 = 0 -> Q x.1 s) ->
  wp (fuel ← loop_fuel; rt ← get_root; find_loop sentinel fuel hash k rt) s Q.
Proof.
  intros Ht Hg HN HF. do 4 wp_step. pose proof (rbtree_nodup _ _ _ _ Ht) as [Hni _]%NoDup_cons.
  eapply (rbtree_search sentinel lr_less (fun fuel => find_loop sentinel fuel hash k) (sign hash k) good); [..|exact Ht|exact Hg| |].
  - intros fuel y pl pr par cc s' Q' Hy Hys Hgy Hv HQ. by eapply (lr_find_turn Left); [exact Hy|..].
  - intros fuel y pl pr par cc s' Q' Hy Hys Hgy Hv HQ. by eapply (lr_find_turn Right); [exact Hy|..].
  - apply lr_sign_before.
  - apply lr_sign_behind.
  - intros Hno fuel. simpl. rewrite Z.eqb_refl. wp_step. by apply HN.
  - intros x fuel Hx Hv. destruct (rbtree_cell _ _ _ _ x Ht Hx) as (n & Hn & Hlab).
    assert (Hx1 : x.1 ∈ L.*1) by (by apply list_elem_of_fmap_2).
    rewrite Forall_forall in Hg. eapply lr_find_hit; [exact Hn|by intros <-|rewrite Hlab; by apply Hg|by rewrite Hlab|by apply HF].
Qed.
End Walk.

(** ** Zones *)

Section Zone.
Context {arch : Arch} {slabs : SlabPool}.
Variables (sentinel header : Z) (junk : node lr) (junk_link : Queue.link) (debug : bool).

(** An element of the list: the address of a node, its hash and the rest. *)
Abbreviation elt := (Z * (Z * lr))%type.
Implicit Types (z : zone) (L T : list elt).

(** The link of a node. *)
Definition link_of (x : elt) : Z := queue_of x.1.

(** The zone holds the nodes [L], the most recently used first: they are in the tree and
    in the queue, and their memory is allocated; [sh] is the block of the sentinel and
    of the header of the queue. *)
Record zone_ok (z : zone) (L : list elt) : Prop := {
  zo_tree : exists T, is_rbtree lr_less sentinel (tree z) T /\ T ≡ₚ L;
  zo_queue : Queue.is_queue (links z) header (map link_of L);
  zo_live : Forall (fun x => exists n, live (pool z) !! x.1 = Some n /\ queue_offset < n) L;
  zo_good : Forall (fun x => good x.2) L;
  zo_sh : exists sh n, live (pool z) !! sh = Some n /\ sh ∉ L.*1
    /\ sh <= sentinel < sh + n /\ sh <= header < sh + n
}.

Definition zwp {X} (k : ZM X) (z : zone) (Q : X -> zone -> Prop) : Prop :=
  exists x z', k z = Some (x, z') /\ Q x z'.

Lemma zwp_bind {X Y} (k : ZM X) (f : X -> ZM Y) z Q : zwp k z (fun x z' => zwp (f x) z' Q) -> zwp (k ≫= f) z Q.
Proof.
  intros (x & z1 & Ek & y & z2 & Ef & HQ). exists y, z2. split; [|done]. unfold mbind, ZM_bind. by rewrite Ek.
Qed.

Lemma zwp_mono {X} (k : ZM X) z (Q Q' : X -> zone -> Prop) :
  zwp k z Q -> (forall x z', Q x z' -> Q' x z') -> zwp k z Q'.
Proof. intros (x & z1 & Ek & HQ) HQQ. exists x, z1. eauto. Qed.

Lemma zwp_ret {X} (x : X) z (Q : X -> zone -> Prop) : Q x z -> zwp (mret x) z Q.
Proof. intros HQ. by exists x, z. Qed.

Lemma zwp_tree {X} (k : M lr X) z (Q : X -> zone -> Prop) :
  wp k (tree z) (fun x t => Q x (mkZone t (links z) (pool z))) -> zwp (on_tree k) z Q.
Proof. intros (x & t & E & HQ). eexists _, _. split; [|exact HQ]. unfold on_tree. by rewrite E. Qed.

Lemma zwp_queue {X} (k : Queue.M X) z (Q : X -> zone -> Prop) :
  Queue.wp k (links z) (fun x q => Q x (mkZone (tree z) q (pool z))) -> zwp (on_queue k) z Q.
Proof. intros (x & q & E & HQ). eexists _, _. split; [|exact HQ]. unfold on_queue. by rewrite E. Qed.

Lemma zone_cell z L (x : elt) : zone_ok z L -> x ∈ L -> exists n, cells (tree z) !! x.1 = Some n /\ lab n = x.2.
Proof. intros [(T & Ht & HT) _ _ _ _] Hx. rewrite <- HT in Hx. by eapply rbtree_cell. Qed.

Lemma zone_nodup z L : zone_ok z L -> NoDup (sentinel :: L.*1).
Proof. intros [(T & Ht & HT) _ _ _ _]. rewrite <- HT. by eapply rbtree_nodup. Qed.

Lemma zwp_get {X} z L (x : elt) (f : lr -> X) (Q : X -> zone -> Prop) :
  zone_ok z L -> x ∈ L -> Q (f x.2.2) z -> zwp (get x.1 f) z Q.
Proof.
  intros Hz Hx HQ. destruct (zone_cell z L x Hz Hx) as (n & Hn & Hl). apply zwp_tree. eapply wp_rd; [exact Hn|].
  destruct z. simpl in *. change (data n) with (lab n).2. by rewrite Hl.
Qed.

(** What a write to a node does, when the key stays. *)
Definition edit (f : lr -> lr) (x : elt) : elt := (x.1, (x.2.1, f x.2.2)).

Definition keeps_key (f : lr -> lr) : Prop := forall n, len (f n) = len n /\ bytes (f n) = bytes n.

Lemma link_edit f (x : elt) : link_of (edit f x) = link_of x.
Proof. done. Qed.

Lemma zwp_put z L1 (x : elt) L2 f (Q : unit -> zone -> Prop) :
  keeps_key f -> zone_ok z (L1 ++ x :: L2) -> (forall z', zone_ok z' (L1 ++ edit f x :: L2) -> Q tt z') ->
  zwp (put x.1 f) z Q.
Proof.
  intros Hf Hz HQ. assert (Hx : x ∈ L1 ++ x :: L2) by set_solver.
  destruct (zone_cell _ _ x Hz Hx) as (n & Hn & Hl). pose proof Hz as [(T & Ht & HT) Hq Hlv Hg Hsh].
  apply zwp_tree. eapply wp_upd; [exact Hn|]. apply HQ. change (data n) with (lab n).2. rewrite Hl.
  assert (Hx' : x ∈ T) by (by rewrite HT). apply list_elem_of_split in Hx' as (T1 & T2 & ->).
  rewrite Forall_app, Forall_cons in Hlv, Hg. destruct Hg as (G1 & Gx & G2). destruct Hlv as (V1 & Vx & V2).
  assert (Hge : good (edit f x).2) by (unfold good in *; simpl; destruct (Hf x.2.2) as [-> ->]; done).
  assert (Hsp : same_place lr_less x.2 (x.2.1, f x.2.2)).
  { intros y. unfold lr_less, lr_cmp. simpl. destruct (Hf x.2.2) as [-> ->]. done. }
  split.
  - exists (T1 ++ edit f x :: T2). split; [by apply (rbtree_set_data sentinel lr_less)|].
    rewrite <- !Permutation_middle in HT |- *. apply Permutation_cons_inv in HT. by constructor.
  - simpl. rewrite map_app in *. exact Hq.
  - rewrite Forall_app, Forall_cons. done.
  - rewrite Forall_app, Forall_cons. done.
  - destruct Hsh as (sh & m & H1 & H2 & H3). exists sh, m. split_and!; [done| |tauto..]. rewrite fmap_app, fmap_cons in *. done.
Qed.

Lemma queue_of_inj p q : queue_of p = queue_of q -> p = q.
Proof. unfold queue_of. lia. Qed.

(** The two statements that move a node to the head of the queue. *)
Lemma zwp_bump z L1 (x : elt) L2 (K : ZM found) (Q : found -> zone -> Prop) :
  zone_ok z (L1 ++ x :: L2) -> (forall z', zone_ok z' (x :: L1 ++ L2) -> zwp K z' Q) ->
  zwp (on_queue (Queue.ngx_queue_remove debug (queue_of x.1));;
       on_queue (Queue.ngx_queue_insert_head header (queue_of x.1));; K) z Q.
Proof.
  intros [(T & Ht & HT) Hq Hlv Hg Hsh] HK. rewrite map_app in Hq. simpl in Hq.
  pose proof Hq as [Hnd _]. assert (Hd : queue_of x.1 ∈ dom (links z)) by (eapply Queue.ring_dom; [exact Hq|set_solver]).
  unfold Queue.is_queue in Hq. apply (Queue.ring_rotate _ (header :: map link_of L1) (link_of x :: map link_of L2)) in Hq.
  apply zwp_bind, zwp_queue. eapply Queue.qwp_mono; [apply Queue.qwp_remove; [exact Hq|by destruct L2]|].
  intros _ m1 [Hr1 [D1 _]]. apply (Queue.ring_rotate _ (map link_of L2) (header :: map link_of L1)) in Hr1.
  apply zwp_bind, zwp_queue. eapply Queue.qwp_mono; [apply Queue.qwp_insert_head; [exact Hr1|by simpl; rewrite D1|]|].
  { change (NoDup ((header :: map link_of L1) ++ link_of x :: map link_of L2)) in Hnd.
    rewrite <- Permutation_middle in Hnd. by apply NoDup_cons in Hnd as [Hnd _]. }
  intros _ m2 [Hr2 _]. apply HK. split.
  - exists T. split; [done|]. by rewrite HT, Permutation_middle.
  - simpl. by rewrite map_app.
  - by rewrite Permutation_middle.
  - by rewrite Permutation_middle.
  - destruct Hsh as (sh & n & H1 & H2 & H3). exists sh, n. split_and!; [done| |tauto..]. by rewrite Permutation_middle.
Qed.

(** The three statements that delete a node. *)
Lemma zwp_drop z L1 (x : elt) L2 (K : ZM unit) (Q : unit -> zone -> Prop) :
  zone_ok z (L1 ++ x :: L2) -> (forall z', zone_ok z' (L1 ++ L2) -> zwp K z' Q) ->
  zwp (on_queue (Queue.ngx_queue_remove debug (queue_of x.1));;
       on_tree (ngx_rbtree_delete sentinel x.1);;
       slab_free x.1;; K) z Q.
Proof.
  intros Hz HK. pose proof (zone_nodup _ _ Hz) as Hnd. destruct Hz as [(T & Ht & HT) Hq Hlv Hg Hsh].
  rewrite map_app in Hq. simpl in Hq. pose proof Hq as [Hndq _].
  unfold Queue.is_queue in Hq. apply (Queue.ring_rotate _ (header :: map link_of L1) (link_of x :: map link_of L2)) in Hq.
  apply zwp_bind, zwp_queue. eapply Queue.qwp_mono; [apply Queue.qwp_remove; [exact Hq|by destruct L2]|].
  intros _ m1 [Hr1 _]. apply (Queue.ring_rotate _ (map link_of L2) (header :: map link_of L1)) in Hr1.
  assert (Hx : x ∈ T) by (rewrite HT; set_solver). apply list_elem_of_split in Hx as (T1 & T2 & ->).
  apply zwp_bind, zwp_tree. eapply wp_mono; [by eapply wp_delete|]. intros _ t (Ht' & _ & _). apply zwp_bind.
  eexists _, _. split; [reflexivity|]. apply HK. simpl.
  rewrite <- !Permutation_middle in HT. apply Permutation_cons_inv in HT.
  rewrite fmap_app, fmap_cons, <- Permutation_middle, <- fmap_app in Hnd.
  apply NoDup_cons in Hnd as [Hs Hnd]. apply NoDup_cons in Hnd as [Hx Hnd]. rewrite not_elem_of_cons in Hs.
  rewrite <- Permutation_middle, Forall_cons in Hlv, Hg.
  destruct Hlv as [(n & Hn & _) Hlv]. destruct Hg as [_ Hg]. split; simpl.
  - exists (T1 ++ T2). split; [|done]. eapply rbtree_frame; [exact Ht'|done|]. intros q Hq'. simpl.
    apply lookup_delete_ne. intros <-. rewrite HT, elem_of_cons in Hq'. destruct Hq' as [E|Hq']; [by destruct Hs|done].
  - rewrite map_app. unfold Queue.is_queue. eapply Queue.ring_frame; [|exact Hr1]. intros q Hq'. apply lookup_delete_ne. intros <-.
    change (NoDup ((header :: map link_of L1) ++ link_of x :: map link_of L2)) in Hndq.
    rewrite <- Permutation_middle in Hndq. by apply NoDup_cons in Hndq as [Hndq _].
  - rewrite Forall_forall in Hlv |- *. intros y Hy. destruct (Hlv y Hy) as (m & Hm & Hle). exists m. split; [|done].
    rewrite (slab_free_block _ n) by done. rewrite lookup_delete_ne; [done|]. intros E. apply Hx. rewrite E.
    by apply list_elem_of_fmap_2.
  - done.
  - destruct Hsh as (sh & m & H1 & H2 & H3). rewrite fmap_app, fmap_cons in H2. exists sh, m. rewrite (slab_free_block _ n) by done.
    split_and!; [rewrite lookup_delete_ne; [done|set_solver]|rewrite fmap_app; set_solver|tauto..].
Qed.

(** A node [p] with the contents [n] that is allocated and neither in the tree nor in the
    queue. *)
Record fresh_node (z : zone) L (p : Z) (n : node lr) : Prop := {
  fn_zone : zone_ok z L;
  fn_cell : cells (tree z) !! p = Some n;
  fn_tree : p ∉ sentinel :: L.*1;
  fn_link : queue_of p ∈ dom (links z);
  fn_queue : queue_of p ∉ header :: map link_of L;
  fn_live : exists m, live (pool z) !! p = Some m /\ queue_offset < m;
  fn_sh : exists sh m, live (pool z) !! sh = Some m /\ sh ∉ p :: L.*1
    /\ sh <= sentinel < sh + m /\ sh <= header < sh + m
}.

Lemma word_pos : 0 < word.
Proof. unfold word. destruct ptr_bits_cases as [-> | ->]; done. Qed.

Lemma link_elem (p : Z) L : queue_of p ∈ map link_of L <-> p ∈ L.*1.
Proof.
  induction L as [|y L IH]; simpl; [by rewrite !elem_of_nil|]. rewrite !elem_of_cons, IH. unfold link_of.
  split; (intros [E|E]; [left|by right]); [by apply queue_of_inj|by rewrite E].
Qed.

Lemma zwp_slab_alloc z L k (Q : Z -> zone -> Prop) :
  zone_ok z L ->
  (forall z', (ngx_slab_alloc_locked (node_size (Z.of_nat k)) (pool z)).1 = 0 -> zone_ok z' L -> Q 0 z') ->
  (forall z' p, p <> 0 -> fresh_node z' L p junk -> Q p z') ->
  zwp (slab_alloc junk junk_link (node_size (Z.of_nat k))) z Q.
Proof.
  intros Hz H0' HQ. pose proof Hz as [(T & Ht & HT) Hq Hlv Hg Hsh]. pose proof word_pos as Hw.
  assert (Hsz : queue_offset < node_size (Z.of_nat k)) by (unfold queue_offset, node_size; lia).
  assert (Hoff : 0 < queue_offset) by (unfold queue_offset; lia). set (size := node_size (Z.of_nat k)) in *.
  unfold zwp, slab_alloc. destruct (ngx_slab_alloc_locked size (pool z)) as [p s] eqn:E.
  destruct (Z.eqb_spec p 0) as [->|Hp]; (eexists _, _; split; [reflexivity|]).
  { apply H0'; [done|]. pose proof (slab_alloc_null _ _ _ E) as El. split; simpl; rewrite ?El; try done. by exists T. }
  destruct (slab_alloc_block size (pool z) s p) as [El Hap]; [lia|done..|].
  assert (Hin : forall q n a, live (pool z) !! q = Some n -> q <= a < q + n -> ~ p <= a < p + size).
  { intros q n a Hqn Ha Hpa. pose proof (Hap q n Hqn) as Hd. simpl in Hd. lia. }
  assert (Hkeep : forall q n, live (pool z) !! q = Some n -> 0 < n -> q <> p).
  { intros q n Hqn Hn ->. apply (Hin p n p Hqn); lia. }
  destruct Hsh as (sh & m & Hsh & Hshn & Hsen & Hhd).
  assert (Hpn : p ∉ sentinel :: L.*1).
  { rewrite not_elem_of_cons. split; [intros ->; eapply (Hin sh m sentinel); [done|lia|lia]|].
    intros (x & -> & Hx)%list_elem_of_fmap_1. rewrite Forall_forall in Hlv. destruct (Hlv x Hx) as (n & Hn & Hle).
    apply (Hkeep x.1 n); [done|lia|done]. }
  assert (Hpq : queue_of p ∉ header :: map link_of L).
  { rewrite not_elem_of_cons, link_elem. split; [|set_solver]. intros Eh. eapply (Hin sh m header); [done|lia|].
    unfold queue_of in Eh. lia. }
  assert (Hshp : sh <> p) by (apply (Hkeep sh m); [done|lia]).
  apply HQ; [done|]. split; simpl.
  - split; simpl.
    + exists T. split; [|done]. eapply rbtree_frame; [exact Ht|done|]. intros q Hq'. simpl. apply lookup_insert_ne.
      intros <-. apply Hpn. by rewrite <- HT.
    + unfold Queue.is_queue. eapply Queue.ring_frame; [|exact Hq]. intros q Hq'. apply lookup_insert_ne. by intros <-.
    + rewrite El. eapply Forall_impl; [exact Hlv|]. intros x (n & Hn & Hle). exists n. split; [|done].
      rewrite lookup_insert_ne; [done|]. apply not_eq_sym. apply (Hkeep _ n); [done|lia].
    + done.
    + exists sh, m. rewrite El, lookup_insert_ne by done. done.
  - by rewrite lookup_insert_eq.
  - done.
  - rewrite dom_insert_L. set_solver.
  - done.
  - exists size. by rewrite El, lookup_insert_eq.
  - exists sh, m. rewrite El, lookup_insert_ne by done. rewrite not_elem_of_cons. done.
Qed.

Lemma zwp_fresh_upd z L p n f (Q : unit -> zone -> Prop) :
  fresh_node z L p n -> (forall z', fresh_node z' L p (f n) -> Q tt z') -> zwp (on_tree (upd p f)) z Q.
Proof.
  intros Hf HQ. pose proof Hf as [[(T & Ht & HT) Hq Hlv Hg Hsh] Hc Hpn Hl Hpq Hv Hs].
  apply zwp_tree. eapply wp_upd; [exact Hc|]. apply HQ. split; simpl; try done; [split; simpl; try done|by rewrite lookup_insert_eq].
  exists T. split; [|done]. eapply rbtree_frame; [exact Ht|done|]. intros q Hq'. simpl. apply lookup_insert_ne.
  intros <-. apply Hpn. by rewrite <- HT.
Qed.

Lemma zwp_fresh_put z L p n f (Q : unit -> zone -> Prop) :
  fresh_node z L p n -> (forall z', fresh_node z' L p (set_data (f (data n)) n) -> Q tt z') -> zwp (put p f) z Q.
Proof. intros Hf HQ. unfold put. by eapply (zwp_fresh_upd z L p n). Qed.

(** The two statements that make a node one of the zone. *)
Lemma zwp_enter z L p n (K : ZM found) (Q : found -> zone -> Prop) :
  fresh_node z L p n -> good (lab n) -> (forall z', zone_ok z' ((p, lab n) :: L) -> zwp K z' Q) ->
  zwp (on_tree (ngx_rbtree_insert sentinel (ngx_http_limit_req_rbtree_insert_value sentinel) p);;
       on_queue (Queue.ngx_queue_insert_head header (queue_of p));; K) z Q.
Proof.
  intros [[(T & Ht & HT) Hq Hlv Hg Hsh] Hc Hpn Hl Hpq Hv Hs] Hgn HK.
  apply zwp_bind, zwp_tree. eapply wp_mono; [eapply (wp_insert sentinel _ lr_less good p n); [exact Ht|done| |done|by rewrite HT]|].
  { by rewrite HT. }
  intros _ t [Ht' _]. apply zwp_bind, zwp_queue. eapply Queue.qwp_mono; [apply Queue.qwp_insert_head; [exact Hq|done|done]|].
  intros _ m [Hr _]. apply HK. split; simpl.
  - eexists. split; [exact Ht'|]. by rewrite ins_perm, HT.
  - exact Hr.
  - constructor; [done|done].
  - constructor; [done|done].
  - destruct Hs as (sh & k & H1 & H2 & H3). exists sh, k. split_and!; [done|done|tauto..].
Qed.
End Zone.
End LimitZone.
