(* ===== verification/HttpLimitReqSpec.v ===== *)
(** * Limiting the rate of requests: what the zone promises

    The lookup and the expiry of ngx_http_limit_req_module.c as operations on the list of
    the nodes of a zone; the nodes a request still holds are never freed, however the
    requests of several workers interleave. *)

From stdpp Require Import gmap fin_maps.
From S2P Require Import Prelude NgxString NgxCrc NgxRbtree NgxQueue NgxQueueSpec HttpLimitReq HttpLimitReqZone.

Module LimitSpec.
Import Rbtree LimitReq LimitZone.

Section Spec.
Context {arch : Arch} {slabs : SlabPool}.
Variables (sentinel header : Z) (junk : node lr) (junk_link : Queue.link) (debug : bool).

Abbreviation elt := (Z * (Z * lr))%type.
Implicit Types (z : zone) (L : list elt).

Abbreviation zok := (zone_ok sentinel header).

(** ** Expiry

    The nodes at the end of the list leave, at most two of those that are idle, and the
    first one unconditionally when [n] is 0, unless a request holds the node. *)
Fixpoint expire_list (rate now : Z) (fuel : nat) (n : Z) (L : list elt) : list elt :=
  match fuel with
  | O => L
  | S fuel' =>
      if negb (n <? 3) then L
      else
        match list.last L with
        | None => L
        | Some x =>
            if negb (count x.2.2 =? 0) then L
            else if negb (n =? 0) && ((elapsed now x.2.2 <? 60000) || (0 <? level rate now x.2.2 0)) then L
            else expire_list rate now fuel' (n + 1) (removelast L)
        end
  end.

Lemma queue_last_elt z L x : zok z (L ++ [x]) -> Queue.prv (links z) header = Some (queue_of x.1).
Proof.
  intros [_ Hq _ _ _]. eapply QueueSpec.queue_last; [exact Hq|]. rewrite map_app, length_app. simpl.
  rewrite Nat.add_comm. simpl. by rewrite list_lookup_middle.
Qed.

Lemma zwp_expire rate now fuel n z L :
  zok z L -> zwp (expire_loop sentinel header debug rate now fuel n) z (fun _ z' => zok z' (expire_list rate now fuel n L)).
Proof.
  revert n z L. induction fuel as [|fuel IH]; intros n z L Hz; simpl; [by apply zwp_ret|].
  destruct (negb (n <? 3)); [by apply zwp_ret|]. destruct L as [|x L _] using rev_ind.
  - apply zwp_bind, zwp_queue. unfold Queue.ngx_queue_empty. apply Queue.qwp_bind.
    eapply (Queue.qwp_get_prev _ header); [by eapply (QueueSpec.queue_last _ _ _ _ (zo_queue _ _ _ _ Hz))|].
    apply Queue.qwp_ret. rewrite Z.eqb_refl. apply zwp_ret. by destruct z.
  - pose proof (queue_last_elt _ _ _ Hz) as Hp. rewrite last_snoc, removelast_last.
    assert (Hne : header <> queue_of x.1).
    { destruct Hz as [_ [Hnd _] _ _ _]. rewrite map_app in Hnd. apply NoDup_cons in Hnd as [Hnd _]. set_solver. }
    assert (Hx : x ∈ L ++ [x]) by set_solver.
    apply zwp_bind, zwp_queue. unfold Queue.ngx_queue_empty. apply Queue.qwp_bind.
    eapply Queue.qwp_get_prev; [exact Hp|]. apply Queue.qwp_ret. rewrite (proj2 (Z.eqb_neq _ _)) by done.
    apply zwp_bind, zwp_queue. eapply Queue.qwp_get_prev; [exact Hp|]. replace (mkZone _ _ _) with z by (by destruct z).
    replace (ngx_queue_data (queue_of x.1)) with x.1 by (unfold ngx_queue_data, queue_of; lia).
    apply zwp_bind. eapply zwp_get; [exact Hz|done|]. destruct (negb (count x.2.2 =? 0)); [by apply zwp_ret|].
    assert (Hdrop : zwp (on_queue (Queue.ngx_queue_remove debug (queue_of x.1));;
        on_tree (ngx_rbtree_delete sentinel x.1);; slab_free x.1;; expire_loop sentinel header debug rate now fuel (n + 1)) z
      (fun _ z' => zok z' (expire_list rate now fuel (n + 1) L))).
    { eapply zwp_drop; [exact Hz|]. rewrite app_nil_r. intros z'. apply IH. }
    apply zwp_bind. destruct (negb (n =? 0)); [|by apply zwp_ret].
    apply zwp_bind. eapply zwp_get; [exact Hz|done|]. destruct (elapsed now x.2.2 <? 60000); [by do 2 apply zwp_ret|].
    apply zwp_bind. eapply zwp_get; [exact Hz|done|]. apply zwp_ret. simpl. destruct (0 <? level rate now x.2.2 0); [by apply zwp_ret|done].
Qed.

(** ** The lookup *)

(** The node of the key and its hash. *)
Definition of_key (hash : Z) (k : list Z) (x : elt) : Prop := x.2.1 = hash /\ lr_key x.2.2 = k.

(** The node made for a key. *)
Definition new_node (now : Z) (account : bool) (k : list Z) : lr :=
  mkLr (uint 8 (Z.of_nat (length k))) (if account then now else 0) 0 (if account then 0 else 1) k.

(** Whether the lookup finds the pool short of memory: the key has no node, and after idle
    nodes have been freed the allocation of one returns null. *)
Definition short_of_memory (lim : limit) (now hash : Z) (k : list Z) : ZM bool :=
  node ← on_tree (fuel ← loop_fuel; rt ← get_root; find_loop sentinel fuel hash k rt);
  if negb (node =? sentinel) then mret false
  else
    ngx_http_limit_req_expire sentinel header debug (rate lim) now 1;;
    ((fun z => Some ((ngx_slab_alloc_locked (node_size (Z.of_nat (length k))) (pool z)).1 =? 0, z)) : ZM bool).

(** What a lookup may return, and the nodes after it; [null] is that the allocation of a
    node has returned null. *)
Inductive lookup_step (null : Prop) (lim : limit) (now hash : Z) (k : list Z) (account : bool) (L : list elt) : found -> list elt -> Prop :=
  | step_busy L1 x L2 :
      L = L1 ++ x :: L2 -> of_key hash k x -> burst lim < new_excess (rate lim) now x.2.2 ->
      lookup_step null lim now hash k account L (mkFound NGX_BUSY (new_excess (rate lim) now x.2.2) None) (x :: L1 ++ L2)
  | step_ok L1 x L2 :
      L = L1 ++ x :: L2 -> of_key hash k x -> new_excess (rate lim) now x.2.2 <= burst lim -> account = true ->
      lookup_step null lim now hash k account L (mkFound NGX_OK (new_excess (rate lim) now x.2.2) None)
        (edit (set_last now) (edit (set_excess (new_excess (rate lim) now x.2.2)) x) :: L1 ++ L2)
  | step_again L1 x L2 :
      L = L1 ++ x :: L2 -> of_key hash k x -> new_excess (rate lim) now x.2.2 <= burst lim -> account = false ->
      lookup_step null lim now hash k account L (mkFound NGX_AGAIN (new_excess (rate lim) now x.2.2) (Some x.1))
        (edit (fun n => set_count (uint ptr_bits (count n + 1)) n) x :: L1 ++ L2)
  | step_new p (forced : bool) L' :
      (forall x, x ∈ L -> ~ of_key hash k x) -> p <> 0 -> p ∉ L'.*1 ->
      L' = (if forced then expire_list (rate lim) now 3 0 (expire_list (rate lim) now 3 1 L) else expire_list (rate lim) now 3 1 L) ->
      (forced = true -> null) ->
      lookup_step null lim now hash k account L
        (if account then mkFound NGX_OK 0 None else mkFound NGX_AGAIN 0 (Some p)) ((p, (hash, new_node now account k)) :: L')
  | step_error :
      (forall x, x ∈ L -> ~ of_key hash k x) ->
      null ->
      lookup_step null lim now hash k account L (mkFound NGX_ERROR 0 None)
        (expire_list (rate lim) now 3 0 (expire_list (rate lim) now 3 1 L)).

Lemma new_excess_range rt now n : 0 <= new_excess rt now n < 2 ^ (ptr_bits - 1).
Proof.
  unfold new_excess, level. pose proof ptr_bits_pos. destruct (Z.ltb_spec (sint ptr_bits (excess n - uint ptr_bits (rt * uint ptr_bits (elapsed now n)) / 1000 + 1000)) 0); [lia|].
  pose proof (sint_range ptr_bits (excess n - uint ptr_bits (rt * uint ptr_bits (elapsed now n)) / 1000 + 1000)). lia.
Qed.

Lemma uint_excess rt now n : uint ptr_bits (new_excess rt now n) = new_excess rt now n.
Proof.
  pose proof (new_excess_range rt now n). pose proof ptr_bits_pos. apply uint_small.
  assert (2 ^ (ptr_bits - 1) < 2 ^ ptr_bits) by (apply Z.pow_lt_mono_r; lia). lia.
Qed.

Lemma keeps_last v : keeps_key (set_last v). Proof. done. Qed.
Lemma keeps_excess v : keeps_key (set_excess v). Proof. done. Qed.
Lemma keeps_count f : keeps_key (fun n => set_count (f n) n). Proof. done. Qed.

Lemma zwp_hit null lim now hash k account z L1 x L2 :
  zok z (L1 ++ x :: L2) -> of_key hash k x ->
  zwp (lookup_hit_node header debug lim now account x.1) z (fun r z' => exists L',
    zok z' L' /\ lookup_step null lim now hash k account (L1 ++ x :: L2) r L').
Proof.
  intros Hz Hk. eapply zwp_bump; [exact Hz|]. intros z1 H1. apply zwp_bind. eapply zwp_get; [exact H1|by left|].
  rewrite uint_excess. destruct (Z.ltb_spec (burst lim) (new_excess (rate lim) now x.2.2)) as [Hb|Hb].
  { apply zwp_ret. eexists. split; [exact H1|]. by eapply step_busy. }
  destruct account.
  - apply zwp_bind. eapply (zwp_put _ _ _ [] x); [apply keeps_excess|exact H1|]. intros z2 H2.
    apply zwp_bind. eapply (zwp_put _ _ _ [] (edit _ x)); [apply keeps_last|exact H2|]. intros z3 H3. apply zwp_ret.
    eexists. split; [exact H3|]. by eapply step_ok.
  - apply zwp_bind. eapply (zwp_put _ _ _ [] x); [apply keeps_count|exact H1|]. intros z2 H2. apply zwp_ret.
    eexists. split; [exact H2|]. by eapply step_again.
Qed.

Lemma zwp_new now account hash k p z L :
  fresh_node sentinel header z L p junk ->
  zwp (lookup_new_node sentinel header now account hash k p) z (fun r z' =>
    zok z' ((p, (hash, new_node now account k)) :: L) /\ r = if account then mkFound NGX_OK 0 None else mkFound NGX_AGAIN 0 (Some p)).
Proof.
  intros Hf. unfold lookup_new_node. apply zwp_bind. eapply zwp_fresh_upd; [exact Hf|]. clear z Hf. intros z Hf.
  do 3 (apply zwp_bind; eapply zwp_fresh_put; [exact Hf|]; clear z Hf; intros z Hf).
  eapply zwp_enter; [exact Hf| |]; clear z Hf.
  { unfold good. simpl. unfold uint. pose proof (Z.mod_le (Z.of_nat (length k)) (2 ^ 8)).
    pose proof (Z.mod_pos_bound (Z.of_nat (length k)) (2 ^ 8)). lia. }
  intros z Hz. unfold lab in Hz. simpl in Hz. destruct account.
  - apply zwp_bind. eapply (zwp_put _ _ _ [] (p, _)); [apply keeps_last|exact Hz|]. intros z2 H2.
    apply zwp_bind. eapply (zwp_put _ _ _ [] (p, _)); [apply (keeps_count (fun _ => 0))|exact H2|]. intros z3 H3. by apply zwp_ret.
  - apply zwp_bind. eapply (zwp_put _ _ _ [] (p, _)); [apply keeps_last|exact Hz|]. intros z2 H2.
    apply zwp_bind. eapply (zwp_put _ _ _ [] (p, _)); [apply (keeps_count (fun _ => 1))|exact H2|]. intros z3 H3. by apply zwp_ret.
Qed.

Lemma ZM_bind_some {X Y} (c : ZM X) (f : X -> ZM Y) z x z' : c z = Some (x, z') -> (c ≫= f) z = f x z'.
Proof. intros E. unfold mbind, ZM_bind. by rewrite E. Qed.

(** The walk down the tree. *)
Lemma zwp_find hash k z L :
  zok z L ->
  zwp (on_tree (fuel ← loop_fuel; rt ← get_root; find_loop sentinel fuel hash k rt)) z (fun p z' => z' = z /\
    (p = sentinel /\ (forall x, x ∈ L -> ~ of_key hash k x) \/
     exists L1 x L2, L = L1 ++ x :: L2 /\ of_key hash k x /\ p = x.1 /\ p <> sentinel)).
Proof.
  intros Hz. pose proof Hz as [(T & Ht & HT) _ _ Hg _]. pose proof (zone_nodup _ _ _ _ Hz) as [Hs _]%NoDup_cons.
  apply zwp_tree. eapply wp_lr_find; [exact Ht|by rewrite HT| |].
  - intros Hno. split; [by destruct z|]. left. split; [done|]. intros x Hx [Hk Hd]. rewrite <- HT in Hx. by apply (Hno x Hx), lr_sign_zero.
  - intros x Hx Hk%lr_sign_zero. rewrite HT in Hx. split; [by destruct z|]. right.
    assert (Hne : x.1 <> sentinel) by (intros E; apply Hs; rewrite <- E; by apply list_elem_of_fmap_2).
    apply list_elem_of_split in Hx as (L1 & L2 & ->). by exists L1, x, L2.
Qed.

Lemma zwp_lookup lim now hash k account z L :
  zok z L ->
  zwp (ngx_http_limit_req_lookup sentinel header junk junk_link debug lim now hash k account) z (fun r z' => exists L',
    zok z' L' /\ lookup_step (fst <$> short_of_memory lim now hash k z = Some true) lim now hash k account L r L').
Proof.
  intros Hz. set (null := _ = Some true).
  destruct (zwp_find hash k z L Hz) as (p0 & z0 & Ef & -> & [[-> Hno]|(L1 & x & L2 & -> & Hk & -> & Hns)]);
    unfold ngx_http_limit_req_lookup; apply zwp_bind; (eexists _, _; split; [exact Ef|]).
  2: { rewrite (proj2 (Z.eqb_neq x.1 sentinel)) by done. by apply zwp_hit. }
  rewrite Z.eqb_refl. simpl negb. cbv iota.
  destruct (zwp_expire (rate lim) now 3 1 z L Hz) as ([] & z1 & Ee & H1).
  assert (Hnull : (ngx_slab_alloc_locked (node_size (Z.of_nat (length k))) (pool z1)).1 = 0 -> null).
  { intros E. unfold null, short_of_memory. rewrite (ZM_bind_some _ _ _ _ _ Ef), Z.eqb_refl. change (negb true) with false. cbv iota.
    rewrite (ZM_bind_some (ngx_http_limit_req_expire _ _ _ _ _ _) _ _ _ _ Ee). simpl. by rewrite E. }
  clearbody null.
  assert (Hnew : forall p (forced : bool) L' z', p <> 0 -> fresh_node sentinel header z' L' p junk ->
    L' = (if forced then expire_list (rate lim) now 3 0 (expire_list (rate lim) now 3 1 L) else expire_list (rate lim) now 3 1 L) ->
    (forced = true -> null) ->
    zwp (lookup_new_node sentinel header now account hash k p) z' (fun r z' => exists L', zok z' L' /\ lookup_step null lim now hash k account L r L')).
  { intros p forced L' z' Hp Hf HL' Hfo. eapply zwp_mono; [by eapply zwp_new|]. intros r z2 [H2 ->]. eexists. split; [exact H2|].
    eapply (step_new _ _ _ _ _ _ _ p forced L'); try done. pose proof (fn_tree _ _ _ _ _ _ Hf). set_solver. }
  apply zwp_bind. exists tt, z1. split; [exact Ee|].
  apply zwp_bind. eapply zwp_slab_alloc; [exact H1| |].
  - intros z2 Hn H2. rewrite Z.eqb_refl. apply zwp_bind. eapply zwp_mono; [by apply zwp_expire|]. intros [] z3 H3. cbv beta in H3.
    apply zwp_bind. eapply zwp_slab_alloc; [exact H3| |].
    + intros z4 _ H4. rewrite Z.eqb_refl. apply zwp_ret. eexists. split; [exact H4|]. apply step_error; auto.
    + intros z4 p Hp Hf. rewrite (proj2 (Z.eqb_neq p 0)) by done. by eapply (Hnew p true); [..|intros _; apply Hnull].
  - intros z2 p Hp Hf. rewrite (proj2 (Z.eqb_neq p 0)) by done. by eapply (Hnew p false).
Qed.

(** ** Held nodes

    A lookup that does not account holds the node until the request is accounted for in
    all its zones, or rejected by one of them; meanwhile other workers use the zone. *)

Inductive op :=
  | Lookup (lim : limit) (now hash : Z) (k : list Z) (account : bool)
  | Account (i : nat) (rate now : Z)
  | Release (i : nat).

(** [held] lists the [ctx->node] of the workers; an operation on a node names its place. *)
Definition exec (o : op) (held : list Z) : ZM (list Z) :=
  match o with
  | Lookup lim now hash k account =>
      r ← ngx_http_limit_req_lookup sentinel header junk junk_link debug lim now hash k account;
      mret (match ctx_node r with Some p => p :: held | None => held end)
  | Account i rate now =>
      match held !! i with
      | Some p => account_node rate now p;; mret (delete i held)
      | None => mret held
      end
  | Release i =>
      match held !! i with
      | Some p => release_node p;; mret (delete i held)
      | None => mret held
      end
  end.

Fixpoint execs (ops : list op) (held : list Z) : ZM (list Z) :=
  match ops with [] => mret held | o :: ops' => held ← exec o held; execs ops' held end.

Definition times (p : Z) (held : list Z) : Z := Z.of_nat (count_occ Z.eq_dec held p).

(** [count] is the number of workers that hold the node, and the nodes held are there. *)
Definition held_ok (L : list elt) (held : list Z) : Prop :=
  Forall (fun x => count x.2.2 = times x.1 held) L /\ Forall (fun p => p ∈ L.*1) held.

Lemma held_perm L L' held : L ≡ₚ L' -> held_ok L held -> held_ok L' held.
Proof. intros HL [H1 H2]. split; [by rewrite <- HL|]. eapply Forall_impl; [exact H2|]. intros q. simpl. by rewrite HL. Qed.

Lemma held_edit f x L held :
  (forall n, count (f n) = count n) -> held_ok (x :: L) held -> held_ok (edit f x :: L) held.
Proof.
  intros Hf [H1 H2]. apply Forall_cons in H1 as [Hx H1]. split; [constructor; [simpl; by rewrite Hf|done]|done].
Qed.

Lemma times_0 p held : times p held = 0 <-> p ∉ held.
Proof. unfold times. rewrite list_elem_of_In, (count_occ_not_In Z.eq_dec). lia. Qed.

Lemma times_cons p q held : times p (q :: held) = times p held + if q =? p then 1 else 0.
Proof.
  unfold times. simpl. destruct (Z.eq_dec q p) as [->|]; [rewrite Z.eqb_refl; lia|]. rewrite (proj2 (Z.eqb_neq q p)) by done. lia.
Qed.

Lemma times_delete p q i held : held !! i = Some q -> times p held = times p (delete i held) + if q =? p then 1 else 0.
Proof.
  intros Hi. rewrite <- times_cons. unfold times. f_equal. apply Permutation_count_occ. by apply delete_Permutation.
Qed.

Lemma times_length p held : 0 <= times p held <= Z.of_nat (length held).
Proof. unfold times. pose proof (count_occ_bound Z.eq_dec p held). lia. Qed.

(** The nodes that expire are held by nobody. *)
Lemma expire_prefix rt now fuel n L :
  exists R, L = expire_list rt now fuel n L ++ R /\ Forall (fun x => count x.2.2 = 0) R.
Proof.
  revert n L. induction fuel as [|fuel IH]; intros n L; simpl; [exists []; by rewrite app_nil_r|].
  destruct (negb (n <? 3)); [exists []; by rewrite app_nil_r|].
  destruct L as [|x L _] using rev_ind; [by exists []|]. rewrite last_snoc, removelast_last.
  destruct (Z.eqb_spec (count x.2.2) 0) as [Hc|]; simpl; [|exists []; by rewrite app_nil_r].
  destruct (negb (n =? 0) && _); [exists []; by rewrite app_nil_r|]. destruct (IH (n + 1) L) as (R & HR & H0').
  exists (R ++ [x]). split; [rewrite app_assoc; by f_equal|]. apply Forall_app. by split; [|constructor].
Qed.

Lemma held_prefix L R held : held_ok (L ++ R) held -> Forall (fun x => count x.2.2 = 0) R -> held_ok L held.
Proof.
  intros [H1 H2] HR. apply Forall_app in H1 as [H1 H1']. split; [done|].
  rewrite Forall_forall in H1'. rewrite Forall_forall in H2. rewrite Forall_forall in HR. apply Forall_forall. intros p Hp.
  specialize (H2 p Hp). rewrite fmap_app, elem_of_app in H2. destruct H2 as [|(x & -> & Hx)%list_elem_of_fmap_1]; [done|].
  specialize (H1' x Hx). simpl in H1'. rewrite (HR x Hx) in H1'. symmetry in H1'. by apply times_0 in H1'.
Qed.

Lemma held_expire rt now fuel n L held : held_ok L held -> held_ok (expire_list rt now fuel n L) held.
Proof. intros Hh. destruct (expire_prefix rt now fuel n L) as (R & HR & H0'). rewrite HR in Hh. by eapply held_prefix. Qed.

Lemma held_lookup null lim now hash k account L r L' held :
  lookup_step null lim now hash k account L r L' -> NoDup L.*1 -> held_ok L held -> Z.of_nat (length held) + 1 < 2 ^ ptr_bits ->
  held_ok L' (match ctx_node r with Some p => p :: held | None => held end).
Proof.
  intros Hs Hnd Hh Hlen. destruct Hs as [L1 x L2 -> Hk Hb|L1 x L2 -> Hk Hb ->|L1 x L2 -> Hk Hb ->|p forced L' Hno Hp Hni HL' _|Hno _]; cbn [ctx_node].
  - eapply held_perm; [|exact Hh]. by rewrite Permutation_middle.
  - apply held_edit; [done|]. apply held_edit; [done|]. eapply held_perm; [|exact Hh]. by rewrite Permutation_middle.
  - rewrite <- Permutation_middle in Hnd. simpl in Hnd. apply NoDup_cons in Hnd as [Hx _].
    eapply held_perm in Hh; [|symmetry; apply Permutation_middle]. destruct Hh as [H1 H2]. apply Forall_cons in H1 as [Hc H1].
    pose proof (times_length x.1 held). split.
    + constructor; [simpl; rewrite times_cons, Z.eqb_refl, Hc; apply uint_small; lia|].
      rewrite Forall_forall in H1. apply Forall_forall. intros y Hy. simpl. rewrite times_cons, (H1 y Hy).
      rewrite (proj2 (Z.eqb_neq x.1 y.1)); [lia|]. intros E. apply Hx. rewrite E. by apply list_elem_of_fmap_2.
    + simpl. constructor; [by left|]. exact H2.
  - assert (Hh' : held_ok L' held) by (rewrite HL'; destruct forced; [by apply held_expire, held_expire|by apply held_expire]).
    destruct Hh' as [H1 H2]. assert (Hph : p ∉ held) by (rewrite Forall_forall in H2; intros Hi; by apply Hni, H2).
    assert (H2' : Forall (fun q => q ∈ p :: L'.*1) held) by (eapply Forall_impl; [exact H2|]; intros; by right).
    destruct account; simpl; split; simpl.
    + constructor; [simpl; by rewrite (proj2 (times_0 p held))|done].
    + exact H2'.
    + constructor; [simpl; by rewrite times_cons, Z.eqb_refl, (proj2 (times_0 p held))|]. rewrite Forall_forall in H1. apply Forall_forall. intros y Hy.
      rewrite times_cons, (H1 y Hy). rewrite (proj2 (Z.eqb_neq p y.1)); [lia|]. intros ->. apply Hni. by apply list_elem_of_fmap_2.
    + constructor; [by left|exact H2'].
  - by apply held_expire, held_expire.
Qed.

(** Giving a node back. *)
Lemma held_release i p L1 x L2 f held :
  held !! i = Some p -> x.1 = p -> (forall n, count (f n) = uint ptr_bits (count n - 1)) -> NoDup (L1 ++ x :: L2).*1 ->
  held_ok (L1 ++ x :: L2) held -> Z.of_nat (length held) < 2 ^ ptr_bits -> held_ok (L1 ++ edit f x :: L2) (delete i held).
Proof.
  intros Hi <- Hf Hnd Hh Hlen. rewrite <- Permutation_middle in Hnd. simpl in Hnd. apply NoDup_cons in Hnd as [Hx _].
  eapply held_perm in Hh; [|symmetry; apply Permutation_middle]. destruct Hh as [H1 H2]. apply Forall_cons in H1 as [Hc H1].
  eapply held_perm; [apply Permutation_middle|]. split.
  - constructor.
    + simpl. rewrite Hf, Hc, (times_delete x.1 _ _ _ Hi), Z.eqb_refl. pose proof (times_length x.1 (delete i held)).
      rewrite length_delete in * by done. rewrite uint_small; lia.
    + rewrite Forall_forall in H1. apply Forall_forall. intros y Hy. rewrite (H1 y Hy), (times_delete y.1 _ _ _ Hi).
      rewrite (proj2 (Z.eqb_neq x.1 y.1)); [lia|]. intros E. apply Hx. rewrite E. by apply list_elem_of_fmap_2.
  - simpl in *. by apply Forall_delete.
Qed.

Lemma zwp_account rt now z L1 x L2 :
  zok z (L1 ++ x :: L2) ->
  zwp (account_node rt now x.1) z (fun e z' => e = new_excess rt now x.2.2 /\
    zok z' (L1 ++ edit (fun n => set_count (uint ptr_bits (count n - 1)) (set_excess e (set_last now n))) x :: L2)).
Proof.
  intros Hz. unfold account_node. apply zwp_bind. eapply zwp_get; [exact Hz|set_solver|].
  apply zwp_bind. eapply zwp_put; [apply keeps_last|exact Hz|]. intros z1 H1.
  apply zwp_bind. eapply (zwp_put _ _ _ _ (edit _ x)); [apply keeps_excess|exact H1|]. intros z2 H2.
  apply zwp_bind. eapply (zwp_put _ _ _ _ (edit _ (edit _ x))); [apply keeps_count|exact H2|]. intros z3 H3. by apply zwp_ret.
Qed.

Lemma zwp_release z L1 x L2 :
  zok z (L1 ++ x :: L2) ->
  zwp (release_node x.1) z (fun _ z' => zok z' (L1 ++ edit (fun n => set_count (uint ptr_bits (count n - 1)) n) x :: L2)).
Proof. intros Hz. eapply zwp_put; [apply keeps_count|exact Hz|]. done. Qed.

Lemma held_node_in L held i p : held_ok L held -> held !! i = Some p -> exists L1 x L2, L = L1 ++ x :: L2 /\ x.1 = p.
Proof.
  intros [_ H2] Hi. rewrite Forall_forall in H2. specialize (H2 p (list_elem_of_lookup_2 _ _ _ Hi)).
  apply list_elem_of_fmap_1 in H2 as (x & -> & (L1 & L2 & ->)%list_elem_of_split). by exists L1, x, L2.
Qed.

Lemma zwp_exec o held z L :
  zok z L -> held_ok L held -> Z.of_nat (length held) + 1 < 2 ^ ptr_bits ->
  zwp (exec o held) z (fun held' z' => (length held' <= S (length held))%nat /\ exists L', zok z' L' /\ held_ok L' held').
Proof.
  intros Hz Hh Hlen. pose proof (zone_nodup _ _ _ _ Hz) as [_ Hnd]%NoDup_cons. destruct o as [lim now hash k account|i rt now|i]; simpl.
  - apply zwp_bind. eapply zwp_mono; [by apply zwp_lookup|]. intros r z' (L' & Hz' & Hs). apply zwp_ret.
    split; [by destruct (ctx_node r); simpl; lia|]. exists L'. split; [done|]. by eapply held_lookup.
  - destruct (held !! i) as [p|] eqn:Hi; [|by apply zwp_ret; eauto]. destruct (held_node_in _ _ _ _ Hh Hi) as (L1 & x & L2 & -> & <-).
    apply zwp_bind. eapply zwp_mono; [by apply zwp_account|]. intros e z' [_ Hz']. apply zwp_ret.
    split; [rewrite length_delete by done; lia|]. eexists. split; [exact Hz'|]. eapply held_release; try done. lia.
  - destruct (held !! i) as [p|] eqn:Hi; [|by apply zwp_ret; eauto]. destruct (held_node_in _ _ _ _ Hh Hi) as (L1 & x & L2 & -> & <-).
    apply zwp_bind. eapply zwp_mono; [by apply zwp_release|]. intros [] z' Hz'. apply zwp_ret.
    split; [rewrite length_delete by done; lia|]. eexists. split; [exact Hz'|]. eapply held_release; try done. lia.
Qed.

Lemma execs_safe ops held z L :
  zok z L -> held_ok L held -> Z.of_nat (length held) + Z.of_nat (length ops) < 2 ^ ptr_bits ->
  exists held' z' L', execs ops held z = Some (held', z') /\ zok z' L' /\ held_ok L' held'.
Proof.
  revert held z L. induction ops as [|o ops IH]; intros held z L Hz Hh Hlen; [by exists held, z, L|]. simpl in Hlen.
  destruct (zwp_exec o held z L Hz Hh) as (h1 & z1 & E1 & Hl1 & L1 & Hz1 & Hh1); [lia|].
  destruct (IH h1 z1 L1 Hz1 Hh1) as (h2 & z2 & L2 & E2 & H2); [lia|]. exists h2, z2, L2. split; [|done].
  simpl. unfold mbind, ZM_bind. by rewrite E1.
Qed.

(** C26: However the lookups, the accountings and the rejections of the requests of any
    number of workers interleave in a zone, for any keys, hashes, rates and times and
    whenever the memory runs out, every one of them returns: a node a request still
    holds is never freed, so [ctx->node] never dangles; [count] is exactly the number
    of requests that hold the node, and the tree, the queue and the memory of the zone
    stay consistent. *)
Theorem limit_req_held_safe ops held z L :
  zok z L -> held_ok L held -> Z.of_nat (length held) + Z.of_nat (length ops) < 2 ^ ptr_bits ->
  exists held' z' L', execs ops held z = Some (held', z') /\ zok z' L' /\ held_ok L' held'.
Proof. apply execs_safe. Qed.
End Spec.

(** ** An example

    A pool that allocates behind everything in use, up to [cap]. *)
Definition top (m : gmap Z Z) : Z := foldr (fun b acc => Z.max acc (b.1 + b.2)) 16 (map_to_list m).

Lemma top_above m : 16 <= top m /\ map_Forall (fun q n => q + n <= top m) m.
Proof.
  unfold top. assert (Hl : forall l : list (Z * Z), 16 <= foldr (fun b acc => Z.max acc (b.1 + b.2)) 16 l
    /\ forall b, b ∈ l -> b.1 + b.2 <= foldr (fun b acc => Z.max acc (b.1 + b.2)) 16 l).
  { induction l as [|c l [IH1 IH2]]; simpl; [split; [done|]; intros b Hb; by apply elem_of_nil in Hb|].
    split; [lia|]. intros b [->|Hb]%elem_of_cons; [lia|]. specialize (IH2 b Hb). lia. }
  destruct (Hl (map_to_list m)) as [H1 H2]. split; [done|]. intros q n Hq. apply (H2 (q, n)). by apply elem_of_map_to_list.
Qed.

Definition bump_alloc (cap : option Z) (size : Z) (m : gmap Z Z) : Z * gmap Z Z :=
  let p := top m in
  if (if cap is Some c then c <? p + size else false) then (0, m) else (p, <[p := size]> m).

#[export] Program Instance bump_pool (cap : option Z) : SlabPool := {|
  slab := gmap Z Z;
  live := fun m => m;
  ngx_slab_alloc_locked := bump_alloc cap;
  ngx_slab_free_locked := fun p m => delete p m
|}.
Next Obligation.
  intros cap size s s'. unfold bump_alloc. destruct (top_above s) as [Ht _]. case_match; intros; simplify_eq; [done|lia].
Qed.
Next Obligation.
  intros cap size s s' p Hs. unfold bump_alloc. destruct (top_above s) as [_ Ht]. case_match; intros; simplify_eq.
  split; [done|]. intros q n Hq. specialize (Ht q n Hq). simpl in Ht. lia.
Qed.
Next Obligation. done. Qed.

(** A zone without nodes: the block at 4096 has the sentinel and the header. *)
Definition blank : node lr := mkNode lr 7 7 7 7 7 (mkLr 7 7 7 7 []).

Definition empty_zone (cap : option Z) : zone (slabs := bump_pool cap) :=
  mkZone (slabs := bump_pool cap) (mkRb lr {[4112 := mkNode lr 0 0 0 0 0 (mkLr 0 0 0 0 [])]} 4112)
    {[4160 := Queue.mkLink 4160 4160]} {[4096 := 80]}.

Lemma empty_zone_ok `{Arch} cap : zone_ok (slabs := bump_pool cap) 4112 4160 (empty_zone cap) [].
Proof.
  split.
  - exists []. split; [|done]. exists 0, NgxRbtreeRep.RbRep.E, 0%nat. split_and!; [split_and!|..]; try done; [| |constructor|constructor].
    + eexists. split; [apply lookup_singleton_eq|done].
    + apply NoDup_singleton.
  - split; [apply NoDup_singleton|]. simpl. split; [|done]. split; reflexivity.
  - constructor.
  - constructor.
  - exists 4096, 80. simpl. split_and!; [apply lookup_singleton_eq|by apply not_elem_of_nil|lia..].
Qed.

Lemma limit_req_held_safe_witness :
  exists held' z' L',
    execs (arch := lp64) (slabs := bump_pool (Some 4400)) 4112 4160 blank (Queue.mkLink 0 0) true
      [Lookup (mkLimit 1000 0 false) 500000 7 (lit "a") false; Lookup (mkLimit 1000 0 false) 500000 8 (lit "b") false;
       Account 1 1000 500100; Lookup (mkLimit 1000 0 false) 700000 9 (lit "c") true; Release 0] [] (empty_zone (Some 4400))
      = Some (held', z')
    /\ zone_ok (arch := lp64) (slabs := bump_pool (Some 4400)) 4112 4160 z' L' /\ held_ok L' held'.
Proof.
  eapply (limit_req_held_safe (arch := lp64) (slabs := bump_pool (Some 4400)) 4112 4160 blank (Queue.mkLink 0 0) true).
  - apply (@empty_zone_ok lp64).
  - by split; constructor.
  - reflexivity.
Defined.
End LimitSpec.
