(* ===== verification/HttpLimitReqRate.v ===== *)
(** * Limiting the rate of requests: the rate

    How many requests with one key a zone of ngx_http_limit_req_module.c lets through:
    the level of the bucket bounds them by the rate and the burst, for keys of up to 255
    bytes; longer ones are not limited at all. *)

From stdpp Require Import gmap fin_maps.
From Stdlib Require Import Sorted.
From S2P Require Import Prelude NgxString NgxCrc NgxRbtree NgxQueue NgxEventTimer HttpLimitReq HttpLimitReqZone HttpLimitReqSpec.

Module LimitRate.
Import Crc Rbtree LimitReq LimitZone LimitSpec.

Section Rate.
Context {arch : Arch} {slabs : SlabPool}.
Variables (sentinel header : Z) (junk : node lr) (junk_link : Queue.link) (debug : bool).
Variable lim : limit.

Abbreviation elt := (Z * (Z * lr))%type.
Implicit Types (L R : list elt) (rs : list (Z * list Z)).
Abbreviation zok := (zone_ok sentinel header).

(** Requests one after the other, each with its time and its key, as the handler looks
    them up for the only limit, or the last; the results are the return codes. *)
Fixpoint serve rs : ZM (list Z) :=
  match rs with
  | [] => mret []
  | (now, k) :: rs' =>
      r ← ngx_http_limit_req_lookup sentinel header junk junk_link debug lim now (ngx_crc32_short k) k true;
      codes ← serve rs'; mret (rc r :: codes)
  end.

(** None of the requests finds the pool short of memory, so the nodes that leave the zone
    are idle. *)
Fixpoint has_room rs z : bool :=
  match rs with
  | [] => true
  | (now, k) :: rs' =>
      match short_of_memory sentinel header debug lim now (ngx_crc32_short k) k z,
            ngx_http_limit_req_lookup sentinel header junk junk_link debug lim now (ngx_crc32_short k) k true z with
      | Some (short, _), Some (_, z') => negb short && has_room rs' z'
      | _, _ => false
      end
  end.

(** The requests with the key [k] that are let through. *)
Fixpoint passed (k : list Z) rs (codes : list Z) : Z :=
  match rs, codes with
  | (_, k') :: rs', c :: codes' => (if bool_decide (k' = k) && (c =? NGX_OK) then 1 else 0) + passed k rs' codes'
  | _, _ => 0
  end.

(** ** One key *)

Section Key.
Variables (k : list Z) (t0 : Z).

Definition mine (x : elt) : Prop := of_key (ngx_crc32_short k) k x.
Definition none L : Prop := forall x, x ∈ L -> ~ mine x.

(** The level of the bucket after [a] requests since [t0]. *)
Definition bucket (a now : Z) (n : lr) : Prop :=
  t0 <= last n <= now /\ 0 <= excess n <= burst lim /\ 1000000 * (a - 1) <= 1000 * excess n + rate lim * (last n - t0).

(** The zone has at most one node with the key, and after a request was let through it
    has one. *)
Definition inv (a now : Z) L : Prop :=
  (a = 0 /\ none L) \/ exists x R, L ≡ₚ x :: R /\ none R /\ mine x /\ 0 < a /\ bucket a now x.2.2.

Lemma inv_perm a now L L' : L ≡ₚ L' -> inv a now L -> inv a now L'.
Proof.
  intros HL [[Ha Hn]|(x & R & Hx & Hi)]; [left; split; [done|]; intros y; rewrite <- HL; apply Hn|].
  right. exists x, R. by rewrite <- HL.
Qed.

Lemma inv_later a now now' L : now <= now' -> inv a now L -> inv a now' L.
Proof.
  intros Hle [Hl|(x & R & Hx & Hn & Hm & Ha & Hb & Hr)]; [by left|]. right. exists x, R. split_and!; try done. split; [lia|done].
Qed.

(** Another node may come, change or go. *)
Lemma inv_cons a now y L : ~ mine y -> inv a now L -> inv a now (y :: L).
Proof.
  intros Hy [[Ha Hn]|(x & R & Hx & Hn & Hi)].
  - left. split; [done|]. intros w [->|Hw]%elem_of_cons; [done|by apply Hn].
  - right. exists x, (y :: R). split; [rewrite Hx; apply perm_swap|]. split; [|done].
    intros w [->|Hw]%elem_of_cons; [done|by apply Hn].
Qed.

Lemma inv_uncons a now y L : ~ mine y -> inv a now (y :: L) -> inv a now L.
Proof.
  intros Hy [[Ha Hn]|(x & R & Hx & Hn & Hm & Ha & Hb)].
  - left. split; [done|]. intros w Hw. apply Hn. by right.
  - assert (Hin : y ∈ x :: R) by (rewrite <- Hx; by left). apply elem_of_cons in Hin as [->|Hin]; [done|].
    apply list_elem_of_split in Hin as (R1 & R2 & ->). right. exists x, (R1 ++ R2). split_and!; try done.
    + rewrite (app_comm_cons R1), <- Permutation_middle in Hx. by apply Permutation_cons_inv in Hx.
    + intros w Hw. apply Hn. set_solver.
Qed.

Lemma inv_prefix a now L R : none R -> inv a now (L ++ R) -> inv a now L.
Proof.
  intros HR. induction R as [|y R IH]; [by rewrite app_nil_r|]. intros Hi. apply IH.
  - intros w Hw. apply HR. by right.
  - eapply (inv_uncons _ _ y); [apply HR; by left|]. eapply inv_perm; [|exact Hi]. by rewrite Permutation_middle.
Qed.

(** The node of the key, once found. *)
Lemma inv_mine a now L1 x L2 :
  inv a now (L1 ++ x :: L2) -> mine x -> none (L1 ++ L2) /\ 0 < a /\ bucket a now x.2.2.
Proof.
  intros [[Ha Hn]|(y & R & Hy & Hn & Hm & Ha & Hb)] Hx; [destruct (Hn x); [set_solver|done]|].
  assert (Hin : x ∈ y :: R) by (rewrite <- Hy; set_solver). apply elem_of_cons in Hin as [->|Hin]; [|by destruct (Hn x)].
  rewrite <- Permutation_middle in Hy. apply Permutation_cons_inv in Hy. split; [|done]. intros w. rewrite Hy. apply Hn.
Qed.

Lemma mine_edit f x : keeps_key f -> mine (edit f x) <-> mine x.
Proof. intros Hf. unfold mine, of_key, lr_key. simpl. destruct (Hf x.2.2) as [-> ->]. done. Qed.

(** ** Levels *)

Context (Hburst : 0 <= burst lim /\ burst lim + 1000 < 2 ^ (ptr_bits - 1)) (Hrate : 0 <= rate lim).

(** Times of the same minute. *)
Lemma elapsed_diff now n :
  t0 <= last n <= now -> now < t0 + 60000 -> elapsed now n = now - last n.
Proof.
  intros Hl Hn. unfold elapsed. pose proof ptr_bits_pos. pose proof ptr_pow_31. rewrite sint_small by lia.
  unfold Timers.ngx_abs. by rewrite (proj2 (Z.leb_le _ _)) by lia.
Qed.

(** A request more: the level is not less than what has leaked out since. *)
Lemma bucket_add a now n :
  bucket a now n -> now < t0 + 60000 -> new_excess (rate lim) now n <= burst lim ->
  bucket (a + 1) now (set_last now (set_excess (new_excess (rate lim) now n) n)).
Proof.
  intros (Hl & He & Hb) Hn Hle. unfold bucket. simpl. split; [lia|].
  pose proof (new_excess_range (rate lim) now n) as Hr. split; [lia|].
  unfold new_excess, level in *. rewrite elapsed_diff in * by done.
  pose proof ptr_bits_pos. pose proof ptr_pow_31 as H31. pose proof ptr_pow_32 as H32.
  assert (Hw : 2 ^ ptr_bits = 2 * 2 ^ (ptr_bits - 1)) by (rewrite <- Z.pow_succ_r by lia; f_equal; lia).
  set (d := now - last n) in *. rewrite (uint_small _ d) in * by lia.
  assert (Hq : 0 <= uint ptr_bits (rate lim * d) / 1000 /\ 1000 * (uint ptr_bits (rate lim * d) / 1000) <= rate lim * d
    /\ uint ptr_bits (rate lim * d) / 1000 < 2 ^ (ptr_bits - 1)).
  { pose proof (uint_range ptr_bits (rate lim * d)). assert (0 <= rate lim * d) by nia.
    assert (uint ptr_bits (rate lim * d) <= rate lim * d) by (unfold uint; apply Z.mod_le; lia).
    pose proof (Z.mul_div_le (uint ptr_bits (rate lim * d)) 1000). split_and!; [apply Z.div_pos; lia|lia|].
    apply Z.div_lt_upper_bound; lia. }
  set (q := uint ptr_bits (rate lim * d) / 1000) in *. rewrite sint_small in * by lia.
  assert (E : rate lim * (now - t0) = rate lim * (last n - t0) + rate lim * d) by (unfold d; lia).
  destruct (Z.ltb_spec (excess n - q + 1000) 0); lia.
Qed.

(** The node is not idle. *)
Lemma expire_keeps a now n L :
  inv a now L -> 1 <= n -> now < t0 + 60000 -> inv a now (expire_list (rate lim) now 3 n L).
Proof.
  intros Hi Hn1 Hn. generalize 3%nat as fuel. intros fuel. revert n Hn1 L Hi.
  induction fuel as [|fuel IH]; intros n Hn1 L Hi; simpl; [done|]. destruct (negb (n <? 3)); [done|].
  destruct L as [|x L _] using rev_ind; [done|]. rewrite last_snoc, removelast_last. destruct (negb (count x.2.2 =? 0)); [done|].
  rewrite (proj2 (Z.eqb_neq n 0)) by lia. simpl. destruct (Z.ltb_spec (elapsed now x.2.2) 60000) as [|Hel]; [done|]. simpl.
  destruct (0 <? level (rate lim) now x.2.2 0); [done|]. apply IH; [lia|]. eapply (inv_prefix _ _ L [x]); [|exact Hi].
  intros y ->%list_elem_of_singleton Hm. apply inv_mine in Hi as (_ & _ & Hb & _); [|done]. rewrite elapsed_diff in Hel by done. lia.
Qed.

(** A key of up to 255 bytes is stored as it is. *)
Lemma new_key now k' : Z.of_nat (length k') < 256 -> lr_key (new_node now true k') = k'.
Proof. intros Hl. unfold lr_key. simpl. rewrite uint_small by lia. rewrite Nat2Z.id. by apply take_ge. Qed.

Context (Hk : Z.of_nat (length k) < 256).

Lemma inv_step null a now k' L r L' :
  lookup_step null lim now (ngx_crc32_short k') k' true L r L' -> ~ null -> inv a now L -> Z.of_nat (length k') < 256 ->
  t0 <= now < t0 + 60000 ->
  inv (a + if bool_decide (k' = k) && (rc r =? NGX_OK) then 1 else 0) now L'.
Proof.
  intros Hs Hnull Hi Hk' Ht.
  assert (Hsame : forall x, of_key (ngx_crc32_short k') k' x -> mine x -> k' = k) by (by intros x [_ E1] [_ E2]; rewrite <- E1, E2).
  destruct Hs as [L1 x L2 -> Hx Hb|L1 x L2 -> Hx Hb _|L1 x L2 -> Hx Hb E|p forced L' Hno Hp Hni HL' Hf|Hno E];
    [..|done| |done]; cbn [rc].
  - rewrite andb_false_r, Z.add_0_r. eapply inv_perm; [|exact Hi]. by rewrite Permutation_middle.
  - rewrite andb_true_r. case_bool_decide as Hkk.
    + subst k'. destruct (inv_mine _ _ _ _ _ Hi Hx) as (Hn & Ha & Hbk). right. eexists _, (L1 ++ L2).
      split; [reflexivity|]. split_and!; [done| |lia|by apply bucket_add; try lia].
      apply mine_edit; [apply keeps_last|]. by apply mine_edit; [apply keeps_excess|].
    + assert (Hm : ~ mine x) by (intros Hm; by apply Hkk, (Hsame x)). rewrite Z.add_0_r. apply inv_cons.
      { by rewrite !mine_edit by (apply keeps_last || apply keeps_excess). }
      eapply inv_uncons; [exact Hm|]. eapply inv_perm; [|exact Hi]. by rewrite Permutation_middle.
  - assert (forced = false) as -> by (destruct forced; [|done]; by destruct (Hnull (Hf eq_refl))).
    assert (Hi' : inv a now L') by (rewrite HL'; by apply expire_keeps; try lia). cbn [rc]. rewrite andb_true_r. case_bool_decide as Hkk.
    + subst k'. destruct Hi' as [[-> Hn]|(x & R & Hx & _)].
      * right. eexists _, L'. split; [reflexivity|]. split_and!; [done| |lia|].
        { split; [done|by apply new_key]. }
        { unfold bucket. simpl. nia. }
      * destruct (expire_prefix (rate lim) now 3 1 L) as (R' & HR' & _). destruct Hi as [[-> Hn]|(y & Ry & Hy & _ & Hm & _)].
        { right. eexists _, L'. split; [reflexivity|]. split_and!; [|split; [done|by apply new_key]|lia|unfold bucket; simpl; nia].
          intros w Hw. apply Hn. rewrite HR', <- HL'. set_solver. }
        destruct (Hno y); [rewrite Hy; by left|done].
    + rewrite Z.add_0_r. apply inv_cons; [|done]. intros [_ E]. apply Hkk. rewrite <- E. simpl. by rewrite new_key.
Qed.

Lemma zwp_serve T rs : forall a now z L,
  zok z L -> inv a now L -> t0 <= now <= t0 + T -> T < 60000 -> has_room rs z = true ->
  Forall (fun r => now <= r.1 <= t0 + T /\ Z.of_nat (length r.2) < 256) rs -> StronglySorted (fun r r' => r.1 <= r'.1) rs ->
  zwp (serve rs) z (fun codes z' => exists L', zok z' L' /\ inv (a + passed k rs codes) (t0 + T) L').
Proof.
  induction rs as [|[t k'] rs IH]; intros a now z L Hz Hi H0' HT Hroom HF Hs; simpl.
  { apply zwp_ret. exists L. rewrite Z.add_0_r. split; [done|]. eapply inv_later; [|exact Hi]. lia. }
  apply Forall_cons in HF as [[Ht Hk'] HF]. simpl in Ht, Hk'. apply StronglySorted_inv in Hs as [Hs Hle].
  destruct (zwp_lookup sentinel header junk junk_link debug lim t (ngx_crc32_short k') k' true z L Hz) as (r & z1 & E & L1 & Hz1 & Hst).
  simpl in Hroom. rewrite E in Hroom.
  destruct (short_of_memory _ _ _ lim t (ngx_crc32_short k') k' z) as [[short zs]|]; [|done].
  apply andb_true_iff in Hroom as [Hshort%negb_true_iff Hroom]. subst short.
  eapply inv_step in Hst; [|done|eapply inv_later; [|exact Hi]; lia|done|lia].
  apply zwp_bind. exists r, z1. split; [exact E|].
  apply zwp_bind. eapply zwp_mono; [eapply (IH _ t); [exact Hz1|exact Hst|lia|done|exact Hroom| |done]|].
  { rewrite Forall_forall in HF. rewrite Forall_forall in Hle. apply Forall_forall. intros r' Hr'.
    destruct (HF r' Hr') as [? ?]. specialize (Hle r' Hr'). simpl in Hle. lia. }
  intros codes z2 (L2 & Hz2 & Hi2). apply zwp_ret. exists L2. split; [done|]. by rewrite Z.add_assoc.
Qed.
End Key.

(** C33: In less than a minute, a zone that has no node of the key at first and does not
    run short of memory for these requests, all with keys of up to 255 bytes, lets through
    at most one request with a given key, plus the burst, plus the rate times the time, whatever
    requests with other keys come in between: with [a] requests let through in [T]
    milliseconds, [1000000 (a - 1) <= 1000 burst + rate T], rate and burst in thousandths
    of a request.  The bound also holds where the product of the rate and the time
    overflows. *)
Theorem limit_req_rate k t0 T rs z L :
  zok z L -> none k L -> has_room rs z = true -> Z.of_nat (length k) < 256 ->
  0 <= burst lim /\ burst lim + 1000 < 2 ^ (ptr_bits - 1) -> 0 <= rate lim -> 0 <= T < 60000 ->
  Forall (fun r => t0 <= r.1 <= t0 + T /\ Z.of_nat (length r.2) < 256) rs -> StronglySorted (fun r r' => r.1 <= r'.1) rs ->
  exists codes z', serve rs z = Some (codes, z') /\ length codes = length rs /\
    1000000 * (passed k rs codes - 1) <= 1000 * burst lim + rate lim * T.
Proof.
  intros Hz Hn Hroom Hk Hb Hr HT HF Hs.
  destruct (zwp_serve k t0 Hb Hr Hk T rs 0 t0 z L) as (codes & z' & E & L' & Hz' & Hi); try done; [by left|lia|lia|].
  exists codes, z'. split; [done|]. split.
  { clear - E. revert z codes z' E. induction rs as [|[t k'] rs IH]; intros z codes z'; simpl; [by intros [= <- _]|].
    unfold mbind, ZM_bind. destruct (ngx_http_limit_req_lookup _ _ _ _ _ _ _ _ _ _ z) as [[r z1]|]; [|done].
    destruct (serve rs z1) as [[cs z2]|] eqn:E2; [|done]. intros [= <- _]. simpl. f_equal. by eapply IH. }
  rewrite Z.add_0_l in Hi. destruct Hi as [[-> _]|(x & R & _ & _ & _ & Ha & (Hl & He & Hbk))]; nia.
Qed.

(** The length of a key is stored in 8 bits, [lr->len = (u_char) len], though keys of
    up to 65535 bytes are looked up: requests whose keys have more than 255 bytes are
    never rejected for their rate, however many there are at whatever times. *)
Theorem limit_req_long_keys rs z L :
  zok z L -> Forall (fun r => (255 < length r.2)%nat) rs ->
  exists codes z', serve rs z = Some (codes, z') /\ length codes = length rs /\ NGX_BUSY ∉ codes.
Proof.
  intros Hz HF. revert z L Hz. induction HF as [|[t k] rs Hk HF IH]; intros z L Hz.
  { exists [], z. split_and!; [done..|]. by apply not_elem_of_nil. }
  simpl in Hk. destruct (zwp_lookup sentinel header junk junk_link debug lim t (ngx_crc32_short k) k true z L Hz) as (r & z1 & E & L1 & Hz1 & Hs).
  destruct (IH z1 L1 Hz1) as (codes & z2 & E2 & Hl & Hb). exists (rc r :: codes), z2. simpl. unfold mbind, ZM_bind. rewrite E, E2.
  split_and!; [done|by rewrite Hl|]. apply not_elem_of_cons. split; [|done].
  destruct Hs as [M1 x M2 -> [_ Hx] _|? x ? _ _ _ _|? x ? _ _ _ _|? ? ? _ _ _ _ _|_ _]; try done.
  pose proof (zo_good _ _ _ _ Hz) as Hg. apply Forall_app in Hg as [_ [Hg _]%Forall_cons]. apply (f_equal length) in Hx.
  destruct x as [q [h n]]. simpl in *. rewrite (lr_key_length n h) in Hx by done. destruct Hg as [_ Hg]. simpl in Hg. lia.
Qed.
End Rate.

(** ** Examples *)

(** Six requests with the key "a" in a second at one request per second and a burst of
    two, and one with another key. *)
Definition six : list (Z * list Z) :=
  [(500000, lit "a"); (500000, lit "a"); (500100, lit "a"); (500100, lit "a"); (500100, lit "b"); (500900, lit "a"); (501000, lit "a")].

(** The bound is reached: four of the six pass. *)
Example six_codes :
  fst <$> serve (arch := lp64) (slabs := bump_pool None) 4112 4160 blank (Queue.mkLink 0 0) true (mkLimit 1000 2000 true) six
    (empty_zone None) = Some [NGX_OK; NGX_OK; NGX_OK; NGX_BUSY; NGX_OK; NGX_BUSY; NGX_OK].
Proof. vm_compute. reflexivity. Qed.

(** Three requests at once with the same key of 300 bytes, and no burst. *)
Definition long_key : list Z := repeat 97 300.

Lemma limit_req_long_keys_witness :
  exists codes z',
    serve (arch := lp64) (slabs := bump_pool None) 4112 4160 blank (Queue.mkLink 0 0) true (mkLimit 1000 0 true)
      [(500000, long_key); (500000, long_key); (500000, long_key)] (empty_zone None) = Some (codes, z')
    /\ length codes = 3%nat /\ NGX_BUSY ∉ codes.
Proof.
  apply (limit_req_long_keys (arch := lp64) (slabs := bump_pool None) 4112 4160 blank (Queue.mkLink 0 0) true (mkLimit 1000 0 true)
    [(500000, long_key); (500000, long_key); (500000, long_key)] (empty_zone None) []).
  - apply (@empty_zone_ok lp64).
  - repeat constructor; simpl; lia.
Defined.
End LimitRate.
