(* ===== verification/HttpLimitReqHandler.v ===== *)
(** * Limiting the rate of requests: the handler

    [ngx_http_limit_req_handler] over all the zones of a location: it returns, gives back
    every node it held, and a request that one zone rejects is not charged to the
    others. *)

From stdpp Require Import gmap fin_maps.
From S2P Require Import Prelude NgxString NgxCrc NgxRbtree NgxQueue HttpLimitReq HttpLimitReqZone HttpLimitReqSpec.

Module LimitHandler.
Import Rbtree LimitReq LimitZone LimitSpec.

Section Handler.
Context {arch : Arch} {slabs : SlabPool}.
Variables (junk : node lr) (junk_link : Queue.link) (debug : bool).
Variables (limits : list conf) (vals : list (option (list Z))) (now : Z) (read_ok : bool).

Abbreviation elt := (Z * (Z * lr))%type.
Implicit Types (zs : list zone) (Ls : nat -> list elt) (nodes : list (option Z)).

(** The nodes other requests hold, by zone. *)
Variable others : nat -> list Z.

Context (Hothers : forall i, Z.of_nat (length (others i)) + 1 < 2 ^ ptr_bits).

Definition held_at nodes (i : nat) : list Z :=
  match nodes !! i with Some (Some p) => p :: others i | _ => others i end.

(** Every zone is in order, with the nodes [Ls]. *)
Definition all_ok zs nodes Ls : Prop :=
  forall i c, limits !! i = Some c ->
    exists z, zs !! i = Some z /\ zone_ok (sentinel_of c) (header_of c) z (Ls i) /\ held_ok (Ls i) (held_at nodes i).

(** Nobody was charged: the buckets that are left are as they were, the new ones empty. *)
Definition uncharged (L L' : list elt) : Prop :=
  Forall (fun x' => (exists x, x ∈ L /\ x.1 = x'.1 /\ x.2.1 = x'.2.1 /\ lr_key x.2.2 = lr_key x'.2.2
      /\ last x.2.2 = last x'.2.2 /\ excess x.2.2 = excess x'.2.2) \/ (last x'.2.2 = 0 /\ excess x'.2.2 = 0)) L'.

Lemma uncharged_refl L : uncharged L L.
Proof. apply Forall_forall. intros x Hx. left. by exists x. Qed.

Lemma uncharged_trans L1 L2 L3 : uncharged L1 L2 -> uncharged L2 L3 -> uncharged L1 L3.
Proof.
  intros H1 H2. unfold uncharged in *. rewrite Forall_forall in H1. eapply Forall_impl; [exact H2|]. simpl.
  intros x [(y & Hy & E1 & E2 & E3 & E4 & E5)|]; [|by right]. destruct (H1 y Hy) as [(w & Hw & F1 & F2 & F3 & F4 & F5)|[F1 F2]].
  - left. exists w. split; [done|]. split_and!; congruence.
  - right. split; congruence.
Qed.

Lemma uncharged_sub L L' : (forall x, x ∈ L' -> x ∈ L) -> uncharged L L'.
Proof. intros Hs. apply Forall_forall. intros x Hx. left. exists x. split; [by apply Hs|done]. Qed.

Lemma uncharged_edit L1 x L2 f :
  (forall n, len (f n) = len n /\ bytes (f n) = bytes n /\ last (f n) = last n /\ excess (f n) = excess n) ->
  uncharged (L1 ++ x :: L2) (L1 ++ edit f x :: L2).
Proof.
  intros Hf. destruct (Hf x.2.2) as (F1 & F2 & F3 & F4). apply Forall_forall. intros y Hy. left.
  apply elem_of_app in Hy as [Hy|[->|Hy]%elem_of_cons]; [exists y; set_solver| |exists y; set_solver].
  exists x. split; [set_solver|]. unfold lr_key. simpl. by rewrite F1, F2, F3, F4.
Qed.

Lemma lookup_uncharged null l hash k account L r L' :
  lookup_step null l now hash k account L r L' -> rc r <> NGX_OK -> uncharged L L'.
Proof.
  assert (Hex : forall rt n M x, x ∈ expire_list rt now 3 n M -> x ∈ M).
  { intros rt n M x Hx. destruct (expire_prefix rt now 3 n M) as (R & HR & _). rewrite HR. set_solver. }
  intros [L1 x L2 -> _ _|L1 x L2 -> _ _ _|L1 x L2 -> _ _ _|p forced M _ _ _ -> _|_ _] Hrc; try done.
  - apply uncharged_sub. set_solver.
  - eapply uncharged_trans; [apply (uncharged_sub _ (x :: L1 ++ L2)); set_solver|].
    apply (uncharged_edit [] x (L1 ++ L2)). done.
  - destruct account; [done|]. constructor; [by right|]. apply uncharged_sub. intros x Hx. destruct forced; eauto.
  - apply uncharged_sub. intros x Hx. eauto.
Qed.

(** ** Weakest preconditions *)

Definition hwp {X} (k : HM X) zs (Q : X -> list zone -> Prop) : Prop := exists x zs', k zs = Some (x, zs') /\ Q x zs'.

Lemma hwp_bind {X Y} (k : HM X) (f : X -> HM Y) zs Q : hwp k zs (fun x zs' => hwp (f x) zs' Q) -> hwp (k ≫= f) zs Q.
Proof.
  intros (x & z1 & Ek & y & z2 & Ef & HQ). exists y, z2. split; [|done]. unfold mbind, HM_bind. by rewrite Ek.
Qed.

Lemma hwp_mono {X} (k : HM X) zs (Q Q' : X -> list zone -> Prop) :
  hwp k zs Q -> (forall x zs', Q x zs' -> Q' x zs') -> hwp k zs Q'.
Proof. intros (x & z1 & Ek & HQ) HQQ. exists x, z1. eauto. Qed.

Lemma hwp_ret {X} (x : X) zs (Q : X -> list zone -> Prop) : Q x zs -> hwp (mret x) zs Q.
Proof. intros HQ. by exists x, zs. Qed.

(** The other zones do not change. *)
Definition fset {X} (f : nat -> X) (n : nat) (v : X) : nat -> X := fun i => if (i =? n)%nat then v else f i.

Lemma hwp_zone {X} n c (k : ZM X) zs nodes Ls (Q : X -> list zone -> Prop) :
  all_ok zs nodes Ls -> limits !! n = Some c ->
  (forall z, zone_ok (sentinel_of c) (header_of c) z (Ls n) -> held_ok (Ls n) (held_at nodes n) ->
     zwp k z (fun x z' => exists L' nodes', zone_ok (sentinel_of c) (header_of c) z' L' /\ held_ok L' (held_at nodes' n)
       /\ (forall i, i <> n -> held_at nodes' i = held_at nodes i)
       /\ forall zs', all_ok zs' nodes' (fset Ls n L') -> Q x zs')) ->
  hwp (with_zone n k) zs Q.
Proof.
  intros Ha Hn Hk. destruct (Ha n c Hn) as (z & Hz & Hok & Hh). destruct (Hk z Hok Hh) as (x & z' & E & L' & nodes' & Hok' & Hh' & Hne & HQ).
  exists x, (<[n := z']> zs). split; [unfold with_zone; by rewrite Hz; simpl; rewrite E|]. apply HQ. intros i ci Hi. unfold fset.
  destruct (Nat.eqb_spec i n) as [->|Hin].
  - rewrite Hn in Hi. injection Hi as <-. exists z'. split; [|done]. apply list_lookup_insert_eq. by eapply lookup_lt_Some.
  - destruct (Ha i ci Hi) as (w & Hw & Hokw & Hhw). exists w. rewrite list_lookup_insert_ne by done. by rewrite Hne.
Qed.

(** ** The loops *)

Definition free nodes (i : nat) : Prop := forall p, nodes !! i <> Some (Some p).

Lemma held_free nodes i : free nodes i -> held_at nodes i = others i.
Proof. unfold free, held_at. intros Hf. destruct (nodes !! i) as [[p|]|]; [by destruct (Hf p)|done|done]. Qed.

Lemma held_set nodes n v i : i <> n -> held_at (<[n := v]> nodes) i = held_at nodes i.
Proof. intros Hi. unfold held_at. by rewrite list_lookup_insert_ne. Qed.

Lemma held_hold nodes n p : (n < length nodes)%nat -> held_at (<[n := Some p]> nodes) n = p :: others n.
Proof. intros Hn. unfold held_at. by rewrite list_lookup_insert_eq. Qed.

Lemma held_clear nodes n : (n < length nodes)%nat -> held_at (<[n := None]> nodes) n = others n.
Proof. intros Hn. unfold held_at. by rewrite list_lookup_insert_eq. Qed.

Lemma free_set nodes n v i : i <> n -> free nodes i -> free (<[n := v]> nodes) i.
Proof. intros Hi Hf p. rewrite list_lookup_insert_ne by done. apply Hf. Qed.

Lemma uncharged_set Ls n L' i : uncharged (Ls n) L' -> uncharged (Ls i) (fset Ls n L' i).
Proof. intros Hu. unfold fset. destruct (Nat.eqb_spec i n) as [->|]; [done|apply uncharged_refl]. Qed.

Lemma lookup_code null l hash k account L r L' :
  lookup_step null l now hash k account L r L' ->
  (rc r = NGX_OK \/ rc r = NGX_AGAIN \/ rc r = NGX_BUSY \/ rc r = NGX_ERROR) /\ (rc r <> NGX_AGAIN -> ctx_node r = None).
Proof. intros [| | |? ? ? _ _ _ _ _|]; simpl; [split; [tauto|done]..| |split; [tauto|done]]. destruct account; simpl; split; tauto || done. Qed.

Definition looked nodes Ls (code : Z) : Z * nat * Z * list (option Z) -> list zone -> Prop :=
  fun '(code', n', _, nodes') zs' => exists Ls',
    all_ok zs' nodes' Ls' /\ length nodes' = length nodes /\ (n' <= length limits)%nat /\ (forall i, (n' <= i)%nat -> free nodes' i)
    /\ (code' = NGX_DECLINED -> code = NGX_DECLINED /\ nodes' = nodes) /\ (code' <> NGX_OK -> forall i, uncharged (Ls i) (Ls' i))
    /\ (code' = code \/ (n' < length limits)%nat \/ code' = NGX_AGAIN).

Lemma hwp_handler_loop todo : forall n code e nodes zs Ls,
  all_ok zs nodes Ls -> length nodes = length limits -> (todo + n = length limits)%nat ->
  (forall i, (n <= i)%nat -> free nodes i) -> code <> NGX_OK ->
  hwp (handler_loop junk junk_link debug limits vals now todo n code e nodes) zs (looked nodes Ls code).
Proof.
  induction todo as [|todo IH]; intros n code e nodes zs Ls Ha Hlen Hn Hfree Hcode; simpl.
  { apply hwp_ret. exists Ls. split_and!; try done; [lia|intros; apply uncharged_refl|by left]. }
  assert (Hskip : hwp (handler_loop junk junk_link debug limits vals now todo (S n) code e nodes) zs (looked nodes Ls code)).
  { apply IH; try done; [lia|]. intros i Hi. apply Hfree. lia. }
  destruct (vals !! n) as [[k|]|]; [|done..]. destruct (limits !! n) as [c|] eqn:Hc; [|done].
  destruct (length k =? 0)%nat; [done|]. destruct (65535 <? Z.of_nat (length k)); [done|].
  assert (Hlt : (n < length nodes)%nat) by (rewrite Hlen; by eapply lookup_lt_Some).
  apply hwp_bind. eapply hwp_zone; [exact Ha|exact Hc|]. intros z Hz Hh. rewrite (held_free nodes n) in Hh by (by apply Hfree).
  pose proof (zone_nodup _ _ _ _ Hz) as [_ Hnd]%NoDup_cons.
  eapply zwp_mono; [by apply zwp_lookup|]. intros r z' (L' & Hz' & Hs). pose proof (lookup_code _ _ _ _ _ _ _ _ Hs) as [Hrc Hno].
  pose proof (held_lookup _ _ _ _ _ _ _ _ _ _ Hs Hnd Hh (Hothers n)) as Hh'.
  set (nodes' := match ctx_node r with Some p => <[n := Some p]> nodes | None => nodes end).
  exists L', nodes'. split; [done|]. unfold nodes'. split.
  { destruct (ctx_node r); [by rewrite held_hold|]. by rewrite held_free by (by apply Hfree). }
  split; [intros i Hi; destruct (ctx_node r); [by apply held_set|done]|]. intros zs' Ha'. fold nodes' in Ha' |- *.
  assert (Hl' : length nodes' = length nodes) by (unfold nodes'; destruct (ctx_node r); by rewrite ?length_insert).
  assert (Hf' : forall i, (S n <= i)%nat -> free nodes' i).
  { intros i Hi. unfold nodes'. destruct (ctx_node r); [apply free_set; [lia|]|]; apply Hfree; lia. }
  destruct (Z.eqb_spec (rc r) NGX_AGAIN) as [Hag|Hag]; simpl.
  - eapply hwp_mono; [apply (IH (S n) (rc r)); try done; [lia|lia|lia]|]. intros [[[code' n'] e'] nodes2] zs2 (Ls2 & A1 & A2 & A0 & A3 & A4 & A5 & A6).
    exists Ls2. split_and!; try done; [lia| | |].
    + intros [E _]%A4. lia.
    + intros Hne i. eapply uncharged_trans; [apply (uncharged_set Ls n L')|by apply A5].
      eapply lookup_uncharged; [exact Hs|lia].
    + destruct A6 as [->|[|]]; auto.
  - apply hwp_ret. eexists. split; [exact Ha'|]. split_and!; [done|lia| |lia| |right; left; lia].
    + intros i Hi. destruct (decide (i = n)) as [->|]; [|apply Hf'; lia].
      unfold nodes'. rewrite Hno by done. by apply Hfree.
    + intros Hne i. apply uncharged_set. eapply lookup_uncharged; [exact Hs|done].
Qed.

Lemma hwp_release_loop n : forall nodes zs Ls,
  all_ok zs nodes Ls -> length nodes = length limits -> (n <= length limits)%nat -> (forall i, (n <= i)%nat -> free nodes i) ->
  hwp (release_loop n nodes) zs (fun nodes' zs' => exists Ls', all_ok zs' nodes' Ls' /\ (forall i, free nodes' i)
    /\ forall i, uncharged (Ls i) (Ls' i)).
Proof.
  induction n as [|n IH]; intros nodes zs Ls Ha Hlen Hn Hfree; simpl.
  { apply hwp_ret. exists Ls. split_and!; [done|intros; apply Hfree; lia|intros; apply uncharged_refl]. }
  destruct (nodes !! n) as [[p|]|] eqn:Hp.
  2,3: apply IH; try done; [lia|]; intros i Hi; destruct (decide (i = n)) as [->|]; [intros q; rewrite Hp; done|apply Hfree; lia].
  destruct (lookup_lt_is_Some_2 limits n) as [c Hc]; [lia|]. apply hwp_bind. eapply hwp_zone; [exact Ha|exact Hc|]. intros z Hz Hh.
  pose proof (zone_nodup _ _ _ _ Hz) as [_ Hnd]%NoDup_cons. assert (Eh : held_at nodes n = p :: others n) by (unfold held_at; by rewrite Hp).
  rewrite Eh in Hh. destruct (held_node_in _ _ 0 p Hh eq_refl) as (L1 & x & L2 & HL & <-). rewrite HL in *.
  eapply zwp_mono; [by apply zwp_release|]. intros [] z' Hz'. eexists _, (<[n := None]> nodes). split; [exact Hz'|]. split_and!.
  - rewrite held_clear by lia. eapply (held_release 0 x.1 L1 x L2 _ (x.1 :: others n)); try done. simpl. specialize (Hothers n). lia.
  - intros i Hi. by apply held_set.
  - intros zs' Ha'. eapply hwp_mono; [apply (IH _ _ _ Ha'); [by rewrite length_insert|lia|]|].
    + intros i Hi. destruct (decide (i = n)) as [->|]; [|apply free_set; [done|apply Hfree; lia]].
      intros q. by rewrite list_lookup_insert_eq by lia.
    + intros nodes' zs2 (Ls' & A1 & A2 & A3). exists Ls'. split_and!; [done..|]. intros i. eapply uncharged_trans; [|apply A3].
      apply uncharged_set. rewrite HL. by apply uncharged_edit.
Qed.

Context (Hrates : forall i c, limits !! i = Some c -> rate (lim c) <> 0).

Lemma delay_some rt e : rt <> 0 -> exists d, delay_of rt e = Some d.
Proof. intros Hr. unfold delay_of. rewrite (proj2 (Z.eqb_neq rt 0)) by done. eauto. Qed.

Lemma hwp_account_loop n : forall d nodes zs Ls,
  all_ok zs nodes Ls -> length nodes = length limits -> (n <= length limits)%nat -> (forall i, (n <= i)%nat -> free nodes i) ->
  hwp (account_loop limits now n d nodes) zs (fun r zs' => exists Ls', all_ok zs' r.2 Ls' /\ forall i, free r.2 i).
Proof.
  induction n as [|n IH]; intros d nodes zs Ls Ha Hlen Hn Hfree; simpl.
  { apply hwp_ret. exists Ls. split; [done|intros; apply Hfree; lia]. }
  destruct (lookup_lt_is_Some_2 limits n) as [c Hc]; [lia|]. rewrite Hc. destruct (nodes !! n) as [[p|]|] eqn:Hp.
  2,3: apply (IH d nodes zs Ls); try done; [lia|]; intros i Hi; destruct (decide (i = n)) as [->|]; [intros q; rewrite Hp; done|apply Hfree; lia].
  apply hwp_bind. eapply hwp_zone; [exact Ha|exact Hc|]. intros z Hz Hh.
  pose proof (zone_nodup _ _ _ _ Hz) as [_ Hnd]%NoDup_cons. assert (Eh : held_at nodes n = p :: others n) by (unfold held_at; by rewrite Hp).
  rewrite Eh in Hh. destruct (held_node_in _ _ 0 p Hh eq_refl) as (L1 & x & L2 & HL & <-). rewrite HL in *.
  eapply zwp_mono; [by apply zwp_account|]. intros e z' [_ Hz']. eexists _, (<[n := None]> nodes). split; [exact Hz'|]. split_and!.
  - rewrite held_clear by lia. eapply (held_release 0 x.1 L1 x L2 _ (x.1 :: others n)); try done. simpl. specialize (Hothers n). lia.
  - intros i Hi. by apply held_set.
  - intros zs' Ha'. assert (Hfree' : forall i, (n <= i)%nat -> free (<[n := None]> nodes) i).
    { intros i Hi. destruct (decide (i = n)) as [->|]; [|apply free_set; [done|apply Hfree; lia]].
      intros q. by rewrite list_lookup_insert_eq by lia. }
    destruct (nodelay (lim c)); [by apply (IH _ _ _ _ Ha'); [rewrite length_insert|lia|]|].
    destruct (delay_some (rate (lim c)) e (Hrates n c Hc)) as [d' ->]. by apply (IH _ _ _ _ Ha'); [rewrite length_insert|lia|].
Qed.

Lemma hwp_account n e nodes zs Ls :
  all_ok zs nodes Ls -> length nodes = length limits -> (n <= length limits)%nat -> (forall i, (n <= i)%nat -> free nodes i) ->
  e = 0 \/ (n < length limits)%nat ->
  hwp (ngx_http_limit_req_account limits now n e n nodes) zs (fun r zs' => exists Ls', all_ok zs' r.2 Ls' /\ forall i, free r.2 i).
Proof.
  intros Ha Hlen Hn Hfree He. unfold ngx_http_limit_req_account. destruct (Z.eqb_spec e 0) as [|Hne]; [by eapply hwp_account_loop|].
  destruct He as [|Hlt]; [done|]. destruct (lookup_lt_is_Some_2 limits n Hlt) as [c Hc]. rewrite Hc.
  destruct (nodelay (lim c)); [by eapply hwp_account_loop|].
  destruct (delay_some (rate (lim c)) e (Hrates n c Hc)) as [d ->]. by eapply hwp_account_loop.
Qed.

(** C34: The handler returns, whatever the values of the variables, the limits (of which
    none has the rate 0) and the nodes other requests hold: every zone is in order
    after it, it has given back every node it held, and a request that is rejected is
    charged to none of the zones.  A request that was seen before is not looked at. *)
Theorem limit_req_handler_balanced seen nodes zs Ls :
  all_ok zs nodes Ls -> length nodes = length limits -> (forall i, free nodes i) ->
  exists out seen' nodes' zs' Ls',
    ngx_http_limit_req_handler junk junk_link debug limits vals now read_ok seen nodes zs = Some ((out, seen', nodes'), zs')
    /\ all_ok zs' nodes' Ls' /\ (forall i, free nodes' i)
    /\ (out = Reject -> forall i, uncharged (Ls i) (Ls' i)) /\ (seen = true -> out = Pass /\ zs' = zs).
Proof.
  intros Ha Hlen Hfree. unfold ngx_http_limit_req_handler. destruct seen; [by exists Pass, true, nodes, zs, Ls|].
  assert (Hw : hwp (ngx_http_limit_req_handler junk junk_link debug limits vals now read_ok false nodes) zs (fun r zs' => exists Ls',
    all_ok zs' r.2 Ls' /\ (forall i, free r.2 i) /\ (r.1.1 = Reject -> forall i, uncharged (Ls i) (Ls' i)))).
  { unfold ngx_http_limit_req_handler. apply hwp_bind.
    eapply hwp_mono; [apply (hwp_handler_loop (length limits) 0 NGX_DECLINED 0 nodes zs Ls); try done; lia|].
    intros [[[code n] e] nodes1] zs1 (Ls1 & A1 & A2 & A0 & A3 & A4 & A5 & A6).
    destruct (Z.eqb_spec code NGX_DECLINED) as [Ed|Ed].
    { destruct (A4 Ed) as [_ ->]. apply hwp_ret. by exists Ls1. }
    destruct ((code =? NGX_BUSY) || (code =? NGX_ERROR)) eqn:Eb.
    { apply hwp_bind. eapply hwp_mono; [apply (hwp_release_loop n nodes1 zs1 Ls1 A1); [lia|done|done]|].
      intros nodes2 zs2 (Ls2 & B1 & B2 & B3). apply hwp_ret. exists Ls2. split_and!; [done..|]. intros _ i.
      eapply uncharged_trans; [apply A5; lia|apply B3]. }
    apply hwp_bind. eapply hwp_mono; [apply (hwp_account n _ nodes1 zs1 Ls1 A1); [lia|done|done|]|].
    { destruct (Z.eqb_spec code NGX_AGAIN); [by left|]. right. destruct A6 as [|[|]]; done. }
    intros [d nodes2] zs2 (Ls2 & B1 & B2). destruct (d =? 0); [|destruct read_ok]; apply hwp_ret; by exists Ls2. }
  destruct Hw as ([[out seen'] nodes'] & zs' & E & Ls' & H1 & H2 & H3). by exists out, seen', nodes', zs', Ls'.
Qed.
End Handler.

(** Two limits, the second without a burst. *)
Definition two : list conf := [mkConf (mkLimit 1000 5000 false) 4112 4160; mkConf (mkLimit 10000 0 true) 4112 4160].

Lemma limit_req_handler_balanced_witness :
  exists out seen' nodes' zs' Ls',
    ngx_http_limit_req_handler (arch := lp64) (slabs := bump_pool None) blank (Queue.mkLink 0 0) true two [Some (lit "a"); Some (lit "b")]
      500000 true false [None; None] [empty_zone None; empty_zone None] = Some ((out, seen', nodes'), zs')
    /\ all_ok (arch := lp64) (slabs := bump_pool None) two (fun _ => []) zs' nodes' Ls' /\ (forall i, free nodes' i)
    /\ (out = Reject -> forall i, uncharged [] (Ls' i)) /\ (false = true -> out = Pass /\ zs' = [empty_zone None; empty_zone None]).
Proof.
  apply (limit_req_handler_balanced (arch := lp64) (slabs := bump_pool None) blank (Queue.mkLink 0 0) true two
    [Some (lit "a"); Some (lit "b")] 500000 true (fun _ => [])) with (Ls := fun _ => []).
  - intros i. reflexivity.
  - intros [|[|i]] c Hc; simpl in Hc; simplify_eq; done.
  - intros [|[|i]] c Hc; simpl in Hc; simplify_eq; (exists (empty_zone None); split; [done|]; split;
      [apply (@empty_zone_ok lp64)|by split; constructor]).
  - reflexivity.
  - intros [|[|i]] p; done.
Defined.

(** Four requests at once: the first passes, the second is delayed by a second for the
    first zone, the third is rejected by the second zone, and the fourth has no key for
    the first one. *)
Example two_outcomes :
  (let run := ngx_http_limit_req_handler (arch := lp64) (slabs := bump_pool None) blank (Queue.mkLink 0 0) true two in
   let go zs vals now := r ← run vals now true false [None; None] zs; Some (r.1.1.1, r.2) in
   '(o1, zs) ← go [empty_zone None; empty_zone None] [Some (lit "a"); Some (lit "b")] 500000;
   '(o2, zs) ← go zs [Some (lit "a"); Some (lit "c")] 500000;
   '(o3, zs) ← go zs [Some (lit "a"); Some (lit "b")] 500000;
   '(o4, zs) ← go zs [None; Some (lit "d")] 500000;
   Some [o1; o2; o3; o4]) = Some [Pass; Delay 1000; Reject; Pass].
Proof. vm_compute. reflexivity. Qed.
End LimitHandler.
