(* ===== verification/HttpLimitReqConf.v ===== *)
(** * Limiting the rate of requests: the configuration

    The directives [limit_req_zone] and [limit_req] of ngx_http_limit_req_module.c: how
    their parameters become the rate of a zone and the burst of a limit, in thousandths
    of a request; and [ngx_http_limit_req_init_zone], which makes an empty zone. *)

From stdpp Require Import gmap fin_maps.
From S2P Require Import Prelude NgxString NgxNumber NgxParse NgxRbtree NgxRbtreeRep NgxQueue HttpLimitReq HttpLimitReqZone HttpLimitReqSpec.

Module LimitConf.
Import Parse LimitReq.

(** The parameters of a directive are strings that end with a NUL. *)
Definition starts_with (v : list Z) (p : string) : bool :=
  match ngx_strncmp (v ++ [0]) (lit p ++ [0]) (length (lit p)) with Some r => r =? 0 | None => false end.

(** What the loop over the parameters has found: the name and the size of the zone, the
    rate and its scale, and the variable with its index. *)
Record zone_args := mkArgs {
  za_name : list Z;
  za_size : Z;
  za_rate : Z;
  za_scale : Z;
  za_var : option (list Z * Z)
}.

(** The messages of the two directives. *)
Inductive conf_error :=
  | InvalidZoneSize | ZoneTooSmall | InvalidRate | InvalidParameter | NoVariableIndex | MustHaveZone | NoVariable
  | AlreadyBound | InvalidBurst | UnknownZone | Duplicate | NoMemory.

Section Code.
Context {arch : Arch}.

(** [ngx_pagesize], and [ngx_http_get_variable_index] of a name. *)
Variables (ngx_pagesize : Z) (variable_index : list Z -> Z).

(** [ngx_parse_size] of what follows the colon; with nothing there the byte before is the
    colon itself, which is not a unit. *)
Definition zone_size (s : list Z) : Z := match s with [] => NGX_ERROR | _ => default NGX_ERROR (ngx_parse_size s) end.

Definition zone_param (a : zone_args) (v : list Z) : zone_args + conf_error :=
  let name := drop 5 v in
  match list_find (fun c => c = cCOLON) name with
  | None => inr InvalidZoneSize
  | Some (i, _) =>
      let size := zone_size (drop (S i) name) in
      if size =? NGX_ERROR then inr InvalidZoneSize
      else if size <? sint ptr_bits (8 * ngx_pagesize) then inr ZoneTooSmall
      else inl (mkArgs (take i name) size (za_rate a) (za_scale a) (za_var a))
  end.

Definition rate_param (a : zone_args) (v : list Z) : zone_args + conf_error :=
  let len := length v in
  let unit := drop (len - 3) v in
  let '(len, scale) :=
    if starts_with unit "r/s" then ((len - 3)%nat, 1)
    else if starts_with unit "r/m" then ((len - 3)%nat, 60)
    else (len, za_scale a) in
  let rate := ngx_atoi (take (len - 5) (drop 5 v)) in
  if rate <=? 0 then inr InvalidRate
  else inl (mkArgs (za_name a) (za_size a) rate scale (za_var a)).

Definition zone_arg (a : zone_args) (v : list Z) : zone_args + conf_error :=
  if starts_with v "zone=" then zone_param a v
  else if starts_with v "rate=" then rate_param a v
  else
    match v with
    | 36 (* '$' *) :: var =>
        let index := variable_index var in
        if index =? NGX_ERROR then inr NoVariableIndex
        else inl (mkArgs (za_name a) (za_size a) (za_rate a) (za_scale a) (Some (var, index)))
    | _ => inr InvalidParameter
    end.

Fixpoint zone_args_loop (a : zone_args) (values : list (list Z)) : zone_args + conf_error :=
  match values with
  | [] => inl a
  | v :: values' => match zone_arg a v with inl a' => zone_args_loop a' values' | inr e => inr e end
  end.

(** [ctx->rate] *)
Definition ctx_rate (a : zone_args) : Z :=
  uint ptr_bits (Z.quot (sint ptr_bits (za_rate a * 1000)) (za_scale a)).

(** [bound] is whether [ngx_shared_memory_add] gives the zone, and whether it has data
    already; the result is what the zone is bound to. *)
Definition ngx_http_limit_req_zone (bound : option bool) (values : list (list Z)) : (zone_args * Z) + conf_error :=
  match zone_args_loop (mkArgs [] 0 1 1 None) values with
  | inr e => inr e
  | inl a =>
      if (length (za_name a) =? 0)%nat then inr MustHaveZone
      else
        match za_var a, bound with
        | None, _ => inr NoVariable
        | Some _, None => inr NoMemory
        | Some _, Some true => inr AlreadyBound
        | Some _, Some false => inl (a, ctx_rate a)
        end
  end.

(** ** limit_req *)

(** What [ngx_shared_memory_add] returns for a name: the zone and whether it has data. *)
Variable shared_memory_add : list Z -> option (Z * bool).

(** The zone, the burst and [nodelay] found so far. *)
Definition limit_arg (a : option (Z * bool) * Z * bool) (v : list Z) : (option (Z * bool) * Z * bool) + conf_error :=
  let '(zone, burst, nodelay) := a in
  if starts_with v "zone=" then
    match shared_memory_add (drop 5 v) with Some z => inl (Some z, burst, nodelay) | None => inr NoMemory end
  else if starts_with v "burst=" then
    let burst := ngx_atoi (drop 6 v) in
    if burst <=? 0 then inr InvalidBurst else inl (zone, burst, nodelay)
  else if bool_decide (v = lit "nodelay") then inl (zone, burst, true)
  else inr InvalidParameter.

Fixpoint limit_args_loop (a : option (Z * bool) * Z * bool) (values : list (list Z)) : (option (Z * bool) * Z * bool) + conf_error :=
  match values with
  | [] => inl a
  | v :: values' => match limit_arg a v with inl a' => limit_args_loop a' values' | inr e => inr e end
  end.

(** [zones] are the zones of the limits the location has already; the result is the new
    limit's zone, burst and [nodelay]. *)
Definition ngx_http_limit_req (zones : list Z) (values : list (list Z)) : (Z * Z * bool) + conf_error :=
  match limit_args_loop (None, 0, false) values with
  | inr e => inr e
  | inl (None, _, _) => inr MustHaveZone
  | inl (Some (_, false), _, _) => inr UnknownZone
  | inl (Some (z, true), burst, nodelay) =>
      if existsb (Z.eqb z) zones then inr Duplicate
      else inl (z, uint ptr_bits (sint ptr_bits (burst * 1000)), nodelay)
  end.
End Code.

(** ** Theorems *)

Section Theorems.
Context {arch : Arch}.

(** The unit of a rate and its scale. *)
Inductive rate_unit := per_second | per_minute.

Definition unit_text (u : rate_unit) : list Z := match u with per_second => lit "r/s" | per_minute => lit "r/m" end.
Definition unit_scale (u : rate_unit) : Z := match u with per_second => 1 | per_minute => 60 end.

(** A rate of [n] requests per second or per minute is read as such, and the zone gets
    [n] times 1000, or that divided by 60, rounded down, where it does not overflow. *)
Theorem limit_req_rate_value a ds u :
  Forall (fun d => 0 <= d < 10) ds -> 0 < num_value 10 ds -> num_value 10 ds * 1000 < 2 ^ (ptr_bits - 1) ->
  exists a', rate_param a (lit "rate=" ++ map (fun d => d + c_0) ds ++ unit_text u) = inl a'
    /\ ctx_rate a' = num_value 10 ds * 1000 / unit_scale u /\ ctx_rate a' <> 0
    /\ za_name a' = za_name a /\ za_size a' = za_size a /\ za_var a' = za_var a.
Proof.
  intros Hd Hpos Hfit. assert (Hl : (1 <= length ds)%nat) by (destruct ds; [by vm_compute in Hpos|simpl; lia]).
  pose proof ptr_bits_pos. set (n := num_value 10 ds) in *. set (digits := map (fun d => d + c_0) ds).
  assert (Hlu : length (unit_text u) = 3%nat) by (by destruct u).
  assert (Hs : 1 <= unit_scale u <= 60) by (by destruct u).
  unfold rate_param. set (v := lit "rate=" ++ digits ++ unit_text u).
  assert (Hlen : length v = (5 + length digits + 3)%nat) by (unfold v; rewrite !length_app, Hlu; change (length (lit "rate=")) with 5%nat; lia).
  assert (Hu : drop (length v - 3) v = unit_text u).
  { unfold v at 2. rewrite app_assoc, drop_app_length'; [done|]. rewrite Hlen, length_app. simpl. lia. }
  assert (Ht : take (length v - 3 - 5) (drop 5 v) = digits).
  { unfold v at 2. rewrite drop_app_length' by done. apply take_app_length'. rewrite Hlen. lia. }
  assert (Ha : ngx_atoi digits = n) by (apply atoi_loop_num; try done; [lia|fold n; lia]).
  assert (Hq : sint ptr_bits (n * 1000) = n * 1000) by (apply sint_small; lia).
  rewrite Hu. exists (mkArgs (za_name a) (za_size a) n (unit_scale u) (za_var a)).
  assert (Hr : ctx_rate (mkArgs (za_name a) (za_size a) n (unit_scale u) (za_var a)) = n * 1000 / unit_scale u).
  { unfold ctx_rate. simpl. rewrite Hq, Z.quot_div_nonneg by lia. apply uint_small.
    assert (2 ^ (ptr_bits - 1) < 2 ^ ptr_bits) by (apply Z.pow_lt_mono_r; lia).
    pose proof (Z.div_le_upper_bound (n * 1000) (unit_scale u) (n * 1000)). pose proof (Z.div_pos (n * 1000) (unit_scale u)). nia. }
  split_and!; try done.
  - replace (if starts_with (unit_text u) "r/s" then _ else _) with ((length v - 3)%nat, unit_scale u) by (by destruct u).
    cbv iota beta zeta. rewrite Ht, Ha. by rewrite (proj2 (Z.leb_gt n 0)) by lia.
  - rewrite Hr. assert (1 <= n * 1000 / unit_scale u) by (apply Z.div_le_lower_bound; nia). lia.
Qed.

(** The products with 1000 are not checked: a rate of 2^61 requests per second is accepted
    and makes the rate of the zone 0, by which the handler then divides; a burst of 2^61
    is no burst. *)
Theorem limit_req_rate_wraps :
  (exists a, zone_args_loop (arch := lp64) 4096 (fun _ => 0) (mkArgs [] 0 1 1 None)
     [lit "$x"; lit "zone=one:10m"; lit "rate=2305843009213693952r/s"] = inl a /\ ctx_rate (arch := lp64) a = 0
     /\ forall e, delay_of (arch := lp64) (ctx_rate (arch := lp64) a) e = None)
  /\ ngx_http_limit_req (arch := lp64) (fun _ => Some (1, true)) [] [lit "zone=one"; lit "burst=2305843009213693952"] = inl (1, 0, false).
Proof. split; [|vm_compute; reflexivity]. eexists. split; [vm_compute; reflexivity|]. split; vm_compute; reflexivity. Qed.
End Theorems.

Lemma limit_req_rate_value_witness :
  exists a', rate_param (arch := lp64) (mkArgs [] 0 1 1 None) (lit "rate=" ++ map (fun d => d + c_0) [3; 0] ++ unit_text per_minute) = inl a'
    /\ ctx_rate (arch := lp64) a' = 500 /\ ctx_rate (arch := lp64) a' <> 0
    /\ za_name a' = [] /\ za_size a' = 0 /\ za_var a' = None.
Proof.
  apply (limit_req_rate_value (arch := lp64) (mkArgs [] 0 1 1 None) [3; 0] per_minute);
    [by apply (bool_decide_unpack _)|reflexivity|reflexivity].
Defined.

Example zone_directive :
  ngx_http_limit_req_zone (arch := ilp32) 4096 (fun _ => 7) (Some false) [lit "$binary_remote_addr"; lit "zone=one:10m"; lit "rate=2r/s"]
    = inl (mkArgs (lit "one") 10485760 2 1 (Some (lit "binary_remote_addr", 7)), 2000)
  /\ ngx_http_limit_req_zone (arch := ilp32) 4096 (fun _ => 7) (Some false) [lit "$x"; lit "zone=one:16k"; lit "rate=2r/s"] = inr ZoneTooSmall
  /\ ngx_http_limit_req_zone (arch := ilp32) 4096 (fun _ => 7) (Some false) [lit "$x"; lit "zone=one:"; lit "rate=2r/s"] = inr InvalidZoneSize
  /\ ngx_http_limit_req_zone (arch := ilp32) 4096 (fun _ => 7) (Some false) [lit "$x"; lit "zone=one:1m"; lit "rate=0r/s"] = inr InvalidRate.
Proof. vm_compute. done. Qed.

(** ** The zone *)

Import Rbtree LimitZone.

(** What becomes of the memory of a zone: an error, the zone of the old configuration, the
    one the memory has already, or a new one at [sh]. *)
Inductive init {slabs : SlabPool} := InitError | Inherited | Attached | Created (sh : Z) (z : zone).

Section Init.
Context {arch : Arch} {slabs : SlabPool}.
Variables (junk : node lr) (junk_link : Queue.link).

(** [ngx_http_limit_req_shctx_t] is an [ngx_rbtree_t] of three words, a node of five and a
    link of two. *)
Definition shctx_size : Z := 10 * word.
Definition sentinel_at (sh : Z) : Z := sh + 3 * word.
Definition header_at (sh : Z) : Z := sh + 8 * word.

(** [octx] is the variable of the zone of the old configuration, where there is one;
    [name] is the name of the zone. *)
Definition ngx_http_limit_req_init_zone (octx : option (list Z)) (var : list Z) (shm_exists : bool) (name : list Z) (s : slab) : init :=
  match octx with
  | Some old => if bool_decide (var = old) then Inherited else InitError
  | None =>
      if shm_exists then Attached
      else
        let '(sh, s) := ngx_slab_alloc_locked shctx_size s in
        if sh =? 0 then InitError
        else
          match ngx_rbtree_init (sentinel_at sh) (mkRb lr {[sentinel_at sh := junk]} 0),
                Queue.ngx_queue_init (header_at sh) {[header_at sh := junk_link]} with
          | Some (_, tree), Some (_, links) =>
              let '(log, s) := ngx_slab_alloc_locked (Z.of_nat (length (lit " in limit_req zone ") + 3 + length name)) s in
              if log =? 0 then InitError else Created sh (mkZone tree links s)
          | _, _ => InitError
          end
  end.

(** A new zone is one without nodes: the lookups may start. *)
Theorem limit_req_init_zone_ok var name s sh z :
  ngx_http_limit_req_init_zone None var false name s = Created sh z ->
  zone_ok (sentinel_at sh) (header_at sh) z [].
Proof.
  unfold ngx_http_limit_req_init_zone. destruct (ngx_slab_alloc_locked shctx_size s) as [p s1] eqn:E1.
  destruct (Z.eqb_spec p 0) as [|Hp]; [done|]. pose proof word_pos as Hw.
  destruct (slab_alloc_block shctx_size s s1 p) as [El1 _]; [unfold shctx_size; lia|done..|].
  unfold ngx_rbtree_init, ngx_rbt_black, upd, mbind, M_bind. simpl. rewrite lookup_singleton_eq. simpl.
  unfold Queue.ngx_queue_init, Queue.set_prev, Queue.set_next, mbind, Queue.M_bind. simpl.
  rewrite lookup_singleton_eq. simpl. rewrite lookup_insert_eq. simpl.
  destruct (ngx_slab_alloc_locked _ s1) as [q s2] eqn:E2. destruct (Z.eqb_spec q 0) as [|Hq]; [done|]. intros [= <- <-].
  destruct (slab_alloc_block (Z.of_nat (22 + length name)) s1 s2 q) as [El2 Hap]; [lia|exact E2|done|].
  assert (Hlive : live s1 !! p = Some shctx_size) by (by rewrite El1, lookup_insert_eq).
  split; simpl.
  - exists []. split; [|done]. exists 0, RbRep.E, 0%nat. split_and!; [split_and!|..]; try done; [| |constructor|constructor].
    + eexists. simpl. rewrite lookup_insert_eq. done.
    + apply NoDup_singleton.
  - split; [apply NoDup_singleton|]. simpl. unfold Queue.linked, Queue.nxt, Queue.prv. by rewrite !lookup_insert_eq.
  - constructor.
  - constructor.
  - exists p, shctx_size. rewrite El2. split; [|split; [by apply not_elem_of_nil|unfold shctx_size, sentinel_at, header_at; lia]].
    rewrite lookup_insert_ne; [done|]. intros ->. specialize (Hap p shctx_size Hlive). unfold shctx_size in *. simpl in Hap. lia.
Qed.
End Init.

Lemma limit_req_init_zone_ok_witness :
  match ngx_http_limit_req_init_zone (arch := lp64) (slabs := LimitSpec.bump_pool (Some 4096)) LimitSpec.blank (Queue.mkLink 7 7)
    None (lit "x") false (lit "one") ∅ with
  | Created sh z => zone_ok (arch := lp64) (slabs := LimitSpec.bump_pool (Some 4096)) (sentinel_at (arch := lp64) sh) (header_at (arch := lp64) sh) z []
  | _ => False
  end.
Proof.
  destruct (ngx_http_limit_req_init_zone _ _ _ _ _ _ _) as [| | |sh z] eqn:E; [vm_compute in E; discriminate..|].
  exact (limit_req_init_zone_ok (arch := lp64) (slabs := LimitSpec.bump_pool (Some 4096)) _ _ _ _ _ _ _ E).
Defined.

End LimitConf.
