(* ===== verification/NgxSlab.v ===== *)
(** * The slab allocator

    src/nginx-1.7.2/src/core/ngx_slab.c and ngx_slab.h: the allocator of the shared
    memory zones.  A pool is a header, an array of lists ([slots], one for each size of
    chunks), an array of page descriptors and the pages.  A descriptor is one of
    - a run of free pages, in the list [free] of the pool;
    - a run of allocated pages;
    - a page cut in chunks of a power of two, whose bitmap is at the start of the page
      ([NGX_SLAB_SMALL]), in the field [slab] ([NGX_SLAB_EXACT]) or in its upper half
      ([NGX_SLAB_BIG]); it is in the list of its slot unless all chunks are in use.
    The two low bits of the field [prev] of a descriptor are its type. *)

From stdpp Require Import gmap fin_maps.
From S2P Require Import Prelude.

(** The page of memory: [ngx_pagesize] is the power of two of this shift. *)
Class Paging := { ngx_pagesize_shift : Z }.

Definition ngx_pagesize `{Paging} : Z := Z.shiftl 1 ngx_pagesize_shift.

Definition page_4k : Paging := {| ngx_pagesize_shift := 12 |}.

(** The layout of [ngx_slab_pool_t]: its size and the place of [free]. *)
Class SlabLayout `{Arch} := {
  sizeof_pool : Z;
  offset_free : Z;
  layout_free : 0 < offset_free /\ offset_free + 3 * (ptr_bits / 8) <= sizeof_pool <= 4096;
  layout_aligned : sizeof_pool mod (ptr_bits / 8) = 0 /\ offset_free mod (ptr_bits / 8) = 0
}.

Module Slab.

Definition NGX_SLAB_PAGE_MASK : Z := 3.
Definition NGX_SLAB_PAGE : Z := 0.
Definition NGX_SLAB_BIG : Z := 1.
Definition NGX_SLAB_EXACT : Z := 2.
Definition NGX_SLAB_SMALL : Z := 3.

Definition NGX_SLAB_PAGE_FREE : Z := 0.
Definition NGX_SLAB_SHIFT_MASK : Z := 15.

Section Constants.
Context {arch : Arch} {paging : Paging}.

Definition NGX_SLAB_PAGE_BUSY : Z := if ptr_bits =? 32 then 0xffffffff else 0xffffffffffffffff.
Definition NGX_SLAB_PAGE_START : Z := if ptr_bits =? 32 then 0x80000000 else 0x8000000000000000.
Definition NGX_SLAB_MAP_MASK : Z := if ptr_bits =? 32 then 0xffff0000 else 0xffffffff00000000.
Definition NGX_SLAB_MAP_SHIFT : Z := if ptr_bits =? 32 then 16 else 32.
Definition NGX_SLAB_BUSY : Z := if ptr_bits =? 32 then 0xffffffff else 0xffffffffffffffff.

(** [sizeof(uintptr_t)] and [sizeof(ngx_slab_page_t)] *)
Definition sizeof_uintptr : Z := ptr_bits / 8.
Definition sizeof_page : Z := 3 * sizeof_uintptr.

(** [for ( ; s >>= 1; shift++)]; a word has [ptr_bits] bits to shift out. *)
Fixpoint shift_loop (fuel : nat) (s shift : Z) : Z :=
  match fuel with
  | O => shift
  | S fuel' => let s := Z.shiftr s 1 in if s =? 0 then shift else shift_loop fuel' s (shift + 1)
  end.

Definition ngx_slab_max_size : Z := ngx_pagesize / 2.
Definition ngx_slab_exact_size : Z := ngx_pagesize / (8 * sizeof_uintptr).
Definition ngx_slab_exact_shift : Z := shift_loop (Z.to_nat ptr_bits) ngx_slab_exact_size 0.
End Constants.

(** [ngx_slab_pool_t], but for [free], which is in the memory, and what only the lock and
    the messages use; [addr] is the address of the pool. *)
Record ngx_slab_pool_t := mkPool {
  addr : Z;
  min_size : Z;
  min_shift : Z;
  pages : Z;
  last : Z;
  start : Z;
  end_ : Z;
  log_nomem : bool
}.

(** The texts of [ngx_slab_error]. *)
Inductive error := OutsideOfPool | WrongChunk | ChunkAlreadyFree | PageAlreadyFree | WrongPage | NoMemory.

(** The memory: the fields [slab], [next] and [prev] of the [ngx_slab_page_t] at an
    address, the words of the pages and the messages of the log, the last one first. *)
Record mem := mkMem { slab : Z -> Z; next : Z -> Z; prev : Z -> Z; word : Z -> Z; log : list error }.

Definition upd (f : Z -> Z) (a v : Z) : Z -> Z := fun z => if z =? a then v else f z.

Definition put_slab (p v : Z) (m : mem) : mem := mkMem (upd (slab m) p v) (next m) (prev m) (word m) (log m).
Definition put_next (p v : Z) (m : mem) : mem := mkMem (slab m) (upd (next m) p v) (prev m) (word m) (log m).
Definition put_prev (p v : Z) (m : mem) : mem := mkMem (slab m) (next m) (upd (prev m) p v) (word m) (log m).
Definition put_word (p v : Z) (m : mem) : mem := mkMem (slab m) (next m) (prev m) (upd (word m) p v) (log m).

(** ** The monad: the failure is an access outside of the arrays and the pages *)

Definition M (X : Type) : Type := mem -> option (X * mem).

#[export] Instance M_ret : MRet M := fun X x m => Some (x, m).
#[export] Instance M_bind : MBind M := fun X Y f k m =>
  match k m with Some (x, m') => f x m' | None => None end.

Definition no_fuel {X} : M X := fun _ => None.

Definition ngx_slab_error (text : error) : M unit :=
  fun m => Some (tt, mkMem (slab m) (next m) (prev m) (word m) (text :: log m)).

Section Code.
Context {arch : Arch} {paging : Paging} {layout : SlabLayout}.
Variable pool : ngx_slab_pool_t.

(** [&pool->free], [slots] and [&slots[i]], [&pool->pages[n]], [&page[n]] *)
Definition free_at : Z := addr pool + offset_free.
Definition slots : Z := addr pool + sizeof_pool.
Definition slot_at (i : Z) : Z := slots + i * sizeof_page.
Definition page_at (n : Z) : Z := pages pool + n * sizeof_page.
Definition page_add (page n : Z) : Z := page + n * sizeof_page.

(** [page - pool->pages] *)
Definition page_index (page : Z) : Z := (page - pages pool) / sizeof_page.

(** The descriptors are [free], the slots and the pages. *)
Definition in_array (base limit a : Z) : bool :=
  (base <=? a) && (a <? limit) && ((a - base) mod sizeof_page =? 0).

Definition valid (a : Z) : bool :=
  (a =? free_at) || in_array slots (slot_at (ngx_pagesize_shift - min_shift pool)) a
  || in_array (pages pool) (last pool) a.

Definition valid_word (a : Z) : bool :=
  (start pool <=? a) && (a + sizeof_uintptr <=? end_ pool) && (a mod sizeof_uintptr =? 0).

Definition guarded {X} (b : bool) (k : M X) : M X := if b then k else fun _ => None.

Definition get_slab (p : Z) : M Z := guarded (valid p) (fun m => Some (slab m p, m)).
Definition get_next (p : Z) : M Z := guarded (valid p) (fun m => Some (next m p, m)).
Definition get_prev (p : Z) : M Z := guarded (valid p) (fun m => Some (prev m p, m)).
Definition get_word (p : Z) : M Z := guarded (valid_word p) (fun m => Some (word m p, m)).
Definition set_slab (p v : Z) : M unit := guarded (valid p) (fun m => Some (tt, put_slab p v m)).
Definition set_next (p v : Z) : M unit := guarded (valid p) (fun m => Some (tt, put_next p v m)).
Definition set_prev (p v : Z) : M unit := guarded (valid p) (fun m => Some (tt, put_prev p v m)).
Definition set_word (p v : Z) : M unit := guarded (valid_word p) (fun m => Some (tt, put_word p v m)).

(** A list has at most the descriptors of all pages. *)
Definition list_fuel : nat := S (Z.to_nat (page_index (last pool))).

Definition untag (prev : Z) : Z := Z.land prev (Z.lnot NGX_SLAB_PAGE_MASK).

(** [prev->next = page->next; page->next->prev = page->prev], the five times the code
    takes a page out of a list. *)
Definition unlink (page : Z) : M unit :=
  pp ← get_prev page;
  let prev := untag pp in
  pn ← get_next page; set_next prev pn;;
  pn ← get_next page; pp ← get_prev page; set_prev pn pp.

(** ** Pages *)

(** [ngx_memzero] of [n] descriptors *)
Fixpoint zero_pages (p : Z) (n : nat) : M unit :=
  match n with
  | O => mret tt
  | S n' => set_slab p 0;; set_next p 0;; set_prev p 0;; zero_pages (page_add p 1) n'
  end.

Fixpoint busy_pages (p : Z) (n : nat) : M unit :=
  match n with
  | O => mret tt
  | S n' =>
      set_slab p NGX_SLAB_PAGE_BUSY;; set_next p 0;; set_prev p NGX_SLAB_PAGE;;
      busy_pages (page_add p 1) n'
  end.

(** The body of the loop of [ngx_slab_alloc_pages] at the first run that is long enough. *)
Definition take_pages (page n : Z) : M Z :=
  s ← get_slab page;
  (if s >? n then
     s ← get_slab page; set_prev (page_add page (s - 1)) (page_add page n);;
     s ← get_slab page; set_slab (page_add page n) (s - n);;
     pn ← get_next page; set_next (page_add page n) pn;;
     pp ← get_prev page; set_prev (page_add page n) pp;;
     p ← get_prev page; set_next p (page_add page n);;
     pn ← get_next page; set_prev pn (page_add page n)
   else
     p ← get_prev page; pn ← get_next page; set_next p pn;;
     pn ← get_next page; pp ← get_prev page; set_prev pn pp);;
  set_slab page (Z.lor n NGX_SLAB_PAGE_START);;
  set_next page 0;;
  set_prev page NGX_SLAB_PAGE;;
  let n := n - 1 in
  if n =? 0 then mret page
  else busy_pages (page_add page 1) (Z.to_nat n);; mret page.

Fixpoint alloc_pages_loop (fuel : nat) (page n : Z) : M (option Z) :=
  match fuel with
  | O => no_fuel
  | S fuel' =>
      if page =? free_at then mret None
      else
        s ← get_slab page;
        if s >=? n then p ← take_pages page n; mret (Some p)
        else pn ← get_next page; alloc_pages_loop fuel' pn n
  end.

Definition ngx_slab_alloc_pages (n : Z) : M Z :=
  page ← get_next free_at;
  r ← alloc_pages_loop list_fuel page n;
  match r with
  | Some page => mret page
  | None => (if log_nomem pool then ngx_slab_error NoMemory else mret tt);; mret 0
  end.

(** The three steps of [ngx_slab_free_pages]: joining the run after the page, joining the
    run before it ([join_into] is the second half of that), and the list of free runs.  [n] is the variable [pages]. *)
Definition join_next (page n : Z) : M Z :=
  s ← get_slab page;
  let join := page_add page s in
  if join <? last pool then
    jp ← get_prev join;
    if Z.land jp NGX_SLAB_PAGE_MASK =? NGX_SLAB_PAGE then
      jn ← get_next join;
      if negb (jn =? 0) then
        js ← get_slab join;
        s ← get_slab page; set_slab page (s + js);;
        unlink join;;
        set_slab join NGX_SLAB_PAGE_FREE;;
        set_next join 0;;
        set_prev join NGX_SLAB_PAGE;;
        mret (n + js)
      else mret n
    else mret n
  else mret n.

Definition join_into (join page n : Z) : M (Z * Z) :=
  jn ← get_next join;
  if negb (jn =? 0) then
    js ← get_slab join;
    s ← get_slab page; set_slab join (js + s);;
    unlink join;;
    set_slab page NGX_SLAB_PAGE_FREE;;
    set_next page 0;;
    set_prev page NGX_SLAB_PAGE;;
    mret (join, n + js)
  else mret (page, n).

Definition join_prev (page n : Z) : M (Z * Z) :=
  if page >? pages pool then
    let join := page_add page (-1) in
    jp ← get_prev join;
    if Z.land jp NGX_SLAB_PAGE_MASK =? NGX_SLAB_PAGE then
      js ← get_slab join;
      if js =? NGX_SLAB_PAGE_FREE then jp ← get_prev join; join_into (untag jp) page n
      else join_into join page n
    else mret (page, n)
  else mret (page, n).

Definition push_free (page n : Z) : M unit :=
  (if negb (n =? 0) then set_prev (page_add page n) page else mret tt);;
  set_prev page free_at;;
  fn ← get_next free_at; set_next page fn;;
  pn ← get_next page; set_prev pn page;;
  set_next free_at page.

Definition ngx_slab_free_pages (page n : Z) : M unit :=
  set_slab page n;;
  let n := n - 1 in
  (if negb (n =? 0) then zero_pages (page_add page 1) (Z.to_nat n) else mret tt);;
  pn ← get_next page;
  (if negb (pn =? 0) then unlink page else mret tt);;
  n ← join_next page n;
  '(page, n) ← join_prev page n;
  push_free page n.

(** ** Chunks *)

(** [for (m, i = 0; go m; m <<= 1, i++) { if (v & m) continue; ... }]: the first clear bit
    and its number.  After [ptr_bits] steps [m] is zero. *)
Fixpoint clear_bit (fuel : nat) (go : Z -> bool) (v m i : Z) : option (Z * Z) :=
  match fuel with
  | O => None
  | S fuel' =>
      if go m then
        if negb (Z.land v m =? 0) then clear_bit fuel' go v (uint ptr_bits (Z.shiftl m 1)) (i + 1)
        else Some (m, i)
      else None
  end.

Definition bit_fuel : nat := S (Z.to_nat ptr_bits).

Definition nonzero (m : Z) : bool := negb (m =? 0).

(** A page all of whose chunks are in use leaves its list. *)
Definition unlink_full (page type : Z) : M unit :=
  unlink page;; set_next page 0;; set_prev page type.

(** [map], the words of the bitmap of a page of small chunks *)
Definition map_words (shift : Z) : Z :=
  Z.shiftl 1 (ngx_pagesize_shift - shift) / (sizeof_uintptr * 8).

(** [n], the chunks the bitmap itself takes *)
Definition map_chunks (shift : Z) : Z :=
  let n := Z.shiftl 1 (ngx_pagesize_shift - shift) / 8 / Z.shiftl 1 shift in
  if n =? 0 then 1 else n.

Definition bitmap_at (bitmap n : Z) : Z := bitmap + n * sizeof_uintptr.

(** Whether one of the [k] words from [n] on has a clear bit. *)
Fixpoint more_clear (bitmap n : Z) (k : nat) : M bool :=
  match k with
  | O => mret false
  | S k' =>
      v ← get_word (bitmap_at bitmap n);
      if negb (v =? NGX_SLAB_BUSY) then mret true else more_clear bitmap (n + 1) k'
  end.

(** The loop over the words of a bitmap, from [n] on; the result is the chunk. *)
Fixpoint alloc_small (page bitmap shift n : Z) (k : nat) : M (option Z) :=
  match k with
  | O => mret None
  | S k' =>
      v ← get_word (bitmap_at bitmap n);
      match (if negb (v =? NGX_SLAB_BUSY) then clear_bit bit_fuel nonzero v 1 0 else None) with
      | None => alloc_small page bitmap shift (n + 1) k'
      | Some (m, i) =>
          set_word (bitmap_at bitmap n) (Z.lor v m);;
          let i := Z.shiftl (n * sizeof_uintptr * 8) shift + Z.shiftl i shift in
          v ← get_word (bitmap_at bitmap n);
          if v =? NGX_SLAB_BUSY then
            more ← more_clear bitmap (n + 1) k';
            (if more : bool then mret tt else unlink_full page NGX_SLAB_SMALL);;
            mret (Some (bitmap + i))
          else mret (Some (bitmap + i))
      end
  end.

Definition alloc_small_page (shift page : Z) : M (option Z) :=
  let p := Z.shiftl (page_index page) ngx_pagesize_shift in
  alloc_small page (start pool + p) shift 0 (Z.to_nat (map_words shift)).

Definition alloc_exact_page (shift page : Z) : M (option Z) :=
  s ← get_slab page;
  match (if negb (s =? NGX_SLAB_BUSY) then clear_bit bit_fuel nonzero s 1 0 else None) with
  | None => mret None
  | Some (m, i) =>
      set_slab page (Z.lor s m);;
      s ← get_slab page;
      (if s =? NGX_SLAB_BUSY then unlink_full page NGX_SLAB_EXACT else mret tt);;
      let p := Z.shiftl (page_index page) ngx_pagesize_shift in
      mret (Some (p + Z.shiftl i shift + start pool))
  end.

Definition alloc_big_page (shift mask page : Z) : M (option Z) :=
  s ← get_slab page;
  match (if negb (Z.land s NGX_SLAB_MAP_MASK =? mask)
         then clear_bit bit_fuel (fun m => nonzero (Z.land m mask)) s (Z.shiftl 1 NGX_SLAB_MAP_SHIFT) 0
         else None) with
  | None => mret None
  | Some (m, i) =>
      set_slab page (Z.lor s m);;
      s ← get_slab page;
      (if Z.land s NGX_SLAB_MAP_MASK =? mask then unlink_full page NGX_SLAB_BIG else mret tt);;
      let p := Z.shiftl (page_index page) ngx_pagesize_shift in
      mret (Some (p + Z.shiftl i shift + start pool))
  end.

(** [do { ... page = page->next; } while (page);] *)
Fixpoint do_pages (fuel : nat) (body : Z -> M (option Z)) (page : Z) : M (option Z) :=
  match fuel with
  | O => no_fuel
  | S fuel' =>
      r ← body page;
      match r with
      | Some p => mret (Some p)
      | None =>
          page ← get_next page;
          if negb (page =? 0) then do_pages fuel' body page else mret None
      end
  end.

(** A page that has just been allocated is the only one of its slot. *)
Definition slot_first (slot page type : Z) : M unit :=
  set_next page (slot_at slot);;
  set_prev page (Z.lor (slot_at slot) type);;
  set_next (slot_at slot) page.

Fixpoint zero_words (bitmap i : Z) (k : nat) : M unit :=
  match k with
  | O => mret tt
  | S k' => set_word (bitmap_at bitmap i) 0;; zero_words bitmap (i + 1) k'
  end.

(** The second half of [ngx_slab_alloc_locked]: a new page of chunks. *)
Definition alloc_fresh (shift slot : Z) : M Z :=
  page ← ngx_slab_alloc_pages 1;
  if page =? 0 then mret 0
  else if shift <? ngx_slab_exact_shift then
    let p := Z.shiftl (page_index page) ngx_pagesize_shift in
    let bitmap := start pool + p in
    let s := Z.shiftl 1 shift in
    let n := map_chunks shift in
    set_word (bitmap_at bitmap 0) (Z.shiftl 2 n - 1);;
    zero_words bitmap 1 (Z.to_nat (map_words shift - 1));;
    set_slab page shift;;
    slot_first slot page NGX_SLAB_SMALL;;
    mret (Z.shiftl (page_index page) ngx_pagesize_shift + s * n + start pool)
  else if shift =? ngx_slab_exact_shift then
    set_slab page 1;;
    slot_first slot page NGX_SLAB_EXACT;;
    mret (Z.shiftl (page_index page) ngx_pagesize_shift + start pool)
  else
    set_slab page (Z.lor (Z.shiftl 1 NGX_SLAB_MAP_SHIFT) shift);;
    slot_first slot page NGX_SLAB_BIG;;
    mret (Z.shiftl (page_index page) ngx_pagesize_shift + start pool).

(** [shift] and [slot] of a size *)
Definition size_class (size : Z) : Z * Z :=
  if size >? min_size pool then
    let shift := shift_loop (Z.to_nat ptr_bits) (size - 1) 1 in (shift, shift - min_shift pool)
  else (min_shift pool, 0).

Definition ngx_slab_alloc_locked (size : Z) : M Z :=
  if size >=? ngx_slab_max_size then
    page ← ngx_slab_alloc_pages (Z.shiftr size ngx_pagesize_shift
                                 + (if size mod ngx_pagesize =? 0 then 0 else 1));
    if page =? 0 then mret 0
    else mret (Z.shiftl (page_index page) ngx_pagesize_shift + start pool)
  else
    let '(shift, slot) := size_class size in
    page ← get_next (slot_at slot);
    pn ← get_next page;
    r ← (if negb (pn =? page) then
           if shift <? ngx_slab_exact_shift then do_pages list_fuel (alloc_small_page shift) page
           else if shift =? ngx_slab_exact_shift then do_pages list_fuel (alloc_exact_page shift) page
           else
             s ← get_slab page;
             let n := ngx_pagesize_shift - Z.land s NGX_SLAB_SHIFT_MASK in
             let n := Z.shiftl 1 n in
             let n := uint ptr_bits (Z.shiftl 1 n - 1) in
             let mask := uint ptr_bits (Z.shiftl n NGX_SLAB_MAP_SHIFT) in
             do_pages list_fuel (alloc_big_page shift mask) page
         else mret None);
    match r with
    | Some p => mret p
    | None => alloc_fresh shift slot
    end.

(** A page whose chunks were all in use enters its list. *)
Definition link_slot (slot page type : Z) : M unit :=
  hn ← get_next (slot_at slot); set_next page hn;;
  set_next (slot_at slot) page;;
  set_prev page (Z.lor (slot_at slot) type);;
  pn ← get_next page; set_prev pn (Z.lor page type).

(** Whether one of the [k] words from [n] on has a bit set. *)
Fixpoint more_set (bitmap n : Z) (k : nat) : M bool :=
  match k with
  | O => mret false
  | S k' =>
      v ← get_word (bitmap_at bitmap n);
      if negb (v =? 0) then mret true else more_set bitmap (n + 1) k'
  end.

(** The cases of the switch of [ngx_slab_free_locked]. *)
Definition free_small (page s p : Z) : M unit :=
  let shift := Z.land s NGX_SLAB_SHIFT_MASK in
  let size := Z.shiftl 1 shift in
  if negb (Z.land p (size - 1) =? 0) then ngx_slab_error WrongChunk
  else
    let n := Z.shiftr (Z.land p (ngx_pagesize - 1)) shift in
    let m := Z.shiftl 1 (Z.land n (sizeof_uintptr * 8 - 1)) in
    let n := n / (sizeof_uintptr * 8) in
    let bitmap := Z.land p (Z.lnot (ngx_pagesize - 1)) in
    v ← get_word (bitmap_at bitmap n);
    if negb (Z.land v m =? 0) then
      pn ← get_next page;
      (if pn =? 0 then link_slot (shift - min_shift pool) page NGX_SLAB_SMALL else mret tt);;
      v ← get_word (bitmap_at bitmap n);
      set_word (bitmap_at bitmap n) (Z.land v (Z.lnot m));;
      v ← get_word (bitmap_at bitmap 0);
      if negb (Z.land v (Z.lnot (Z.shiftl 1 (map_chunks shift) - 1)) =? 0) then mret tt
      else
        more ← more_set bitmap 1 (Z.to_nat (map_words shift - 1));
        if more : bool then mret tt else ngx_slab_free_pages page 1
    else ngx_slab_error ChunkAlreadyFree.

Definition free_exact (page s p : Z) : M unit :=
  let m := Z.shiftl 1 (Z.shiftr (Z.land p (ngx_pagesize - 1)) ngx_slab_exact_shift) in
  let size := ngx_slab_exact_size in
  if negb (Z.land p (size - 1) =? 0) then ngx_slab_error WrongChunk
  else if negb (Z.land s m =? 0) then
    (if s =? NGX_SLAB_BUSY then link_slot (ngx_slab_exact_shift - min_shift pool) page NGX_SLAB_EXACT
     else mret tt);;
    s ← get_slab page; set_slab page (Z.land s (Z.lnot m));;
    s ← get_slab page;
    if negb (s =? 0) then mret tt else ngx_slab_free_pages page 1
  else ngx_slab_error ChunkAlreadyFree.

Definition free_big (page s p : Z) : M unit :=
  let shift := Z.land s NGX_SLAB_SHIFT_MASK in
  let size := Z.shiftl 1 shift in
  if negb (Z.land p (size - 1) =? 0) then ngx_slab_error WrongChunk
  else
    let m := Z.shiftl 1 (Z.shiftr (Z.land p (ngx_pagesize - 1)) shift + NGX_SLAB_MAP_SHIFT) in
    if negb (Z.land s m =? 0) then
      pn ← get_next page;
      (if pn =? 0 then link_slot (shift - min_shift pool) page NGX_SLAB_BIG else mret tt);;
      s ← get_slab page; set_slab page (Z.land s (Z.lnot m));;
      s ← get_slab page;
      if negb (Z.land s NGX_SLAB_MAP_MASK =? 0) then mret tt else ngx_slab_free_pages page 1
    else ngx_slab_error ChunkAlreadyFree.

Definition free_page (s p : Z) : M unit :=
  if negb (Z.land p (ngx_pagesize - 1) =? 0) then ngx_slab_error WrongChunk
  else if s =? NGX_SLAB_PAGE_FREE then ngx_slab_error PageAlreadyFree
  else if s =? NGX_SLAB_PAGE_BUSY then ngx_slab_error WrongPage
  else
    let n := Z.shiftr (p - start pool) ngx_pagesize_shift in
    let size := Z.land s (Z.lnot NGX_SLAB_PAGE_START) in
    ngx_slab_free_pages (page_at n) size.

Definition ngx_slab_free_locked (p : Z) : M unit :=
  if (p <? start pool) || (p >? end_ pool) then ngx_slab_error OutsideOfPool
  else
    let n := Z.shiftr (p - start pool) ngx_pagesize_shift in
    let page := page_at n in
    s ← get_slab page;
    pp ← get_prev page;
    let type := Z.land pp NGX_SLAB_PAGE_MASK in
    if type =? NGX_SLAB_SMALL then free_small page s p
    else if type =? NGX_SLAB_EXACT then free_exact page s p
    else if type =? NGX_SLAB_BIG then free_big page s p
    else free_page s p.
End Code.

(** ** The pool of a new zone *)

Section Init.
Context {arch : Arch} {paging : Paging} {layout : SlabLayout}.

Fixpoint init_slots (slot : Z) (n : nat) (m : mem) : mem :=
  match n with
  | O => m
  | S n' =>
      let m := put_slab slot 0 m in
      let m := put_next slot slot m in
      let m := put_prev slot 0 m in
      init_slots (page_add slot 1) n' m
  end.

Fixpoint init_pages (p : Z) (n : nat) (m : mem) : mem :=
  match n with
  | O => m
  | S n' => init_pages (page_add p 1) n' (put_prev p 0 (put_next p 0 (put_slab p 0 m)))
  end.

(** [ngx_align_ptr(p, a)] *)
Definition ngx_align_ptr (p a : Z) : Z := Z.land (uint ptr_bits (p + (a - 1))) (Z.lnot (a - 1)).

(** The fields that are set before: [addr], [min_shift] and [end]. *)
Definition ngx_slab_init (pool : ngx_slab_pool_t) (m : mem) : ngx_slab_pool_t * mem :=
  let min_size := Z.shiftl 1 (min_shift pool) in
  let p := addr pool + sizeof_pool in
  let size := uint ptr_bits (end_ pool - p) in
  let slots := p in
  let n := ngx_pagesize_shift - min_shift pool in
  let m := init_slots slots (Z.to_nat n) m in
  let p := p + n * sizeof_page in
  let pages := size / (ngx_pagesize + sizeof_page) in
  let m := init_pages p (Z.to_nat pages) m in
  let free := addr pool + offset_free in
  let m := put_prev free 0 m in
  let m := put_next free p m in
  let m := put_slab p pages m in
  let m := put_next p free m in
  let m := put_prev p free m in
  let start := ngx_align_ptr (p + pages * sizeof_page) ngx_pagesize in
  let k := sint ptr_bits (pages - uint ptr_bits (end_ pool - start) / ngx_pagesize) in
  let '(pages, m) := if k >? 0 then (pages - k, put_slab p (pages - k) m) else (pages, m) in
  (mkPool (addr pool) min_size (min_shift pool) p (page_add p pages) start (end_ pool) true, m).
End Init.

End Slab.
