(* ===== verification/NgxSlabRep.v ===== *)
(** * The pool of the slab allocator

    What the memory of a pool of NgxSlab.v stands for: the pages are tiled by runs, the
    free ones and the pages with free chunks are in the lists of their headers.  Every
    operation replaces some runs and changes at most one list; [run_step] is what such a
    step has to keep. *)

From stdpp Require Import gmap fin_maps.
From S2P Require Import Prelude NgxSlab.

Module SlabRep.
Import Slab.

(** ** Weakest preconditions *)

Definition wp {X} (k : M X) (m : mem) (Q : X -> mem -> Prop) : Prop :=
  exists x m', k m = Some (x, m') /\ Q x m'.

Lemma swp_bind {X Y} (k : M X) (f : X -> M Y) m Q :
  wp k m (fun x m' => wp (f x) m' Q) -> wp (k ≫= f) m Q.
Proof.
  intros (x & m1 & Ek & y & m2 & Ef & HQ). exists y, m2. split; [|done]. unfold mbind, M_bind. by rewrite Ek.
Qed.

Lemma swp_mono {X} (k : M X) m (Q Q' : X -> mem -> Prop) :
  wp k m Q -> (forall x m', Q x m' -> Q' x m') -> wp k m Q'.
Proof. intros (x & m1 & Ek & HQ) HQQ. exists x, m1. eauto. Qed.

Lemma swp_ret {X} (x : X) m (Q : X -> mem -> Prop) : Q x m -> wp (mret x) m Q.
Proof. intros HQ. by exists x, m. Qed.

Section Access.
Context {arch : Arch} {paging : Paging} {layout : SlabLayout}.
Variable pool : ngx_slab_pool_t.

Lemma swp_get_slab p v m (Q : Z -> mem -> Prop) :
  valid pool p = true -> slab m p = v -> Q v m -> wp (get_slab pool p) m Q.
Proof. intros Hv <- HQ. unfold get_slab. rewrite Hv. by eexists _, _. Qed.

Lemma swp_get_next p v m (Q : Z -> mem -> Prop) :
  valid pool p = true -> next m p = v -> Q v m -> wp (get_next pool p) m Q.
Proof. intros Hv <- HQ. unfold get_next. rewrite Hv. by eexists _, _. Qed.

Lemma swp_get_prev p v m (Q : Z -> mem -> Prop) :
  valid pool p = true -> prev m p = v -> Q v m -> wp (get_prev pool p) m Q.
Proof. intros Hv <- HQ. unfold get_prev. rewrite Hv. by eexists _, _. Qed.

Lemma swp_get_word p v m (Q : Z -> mem -> Prop) :
  valid_word pool p = true -> word m p = v -> Q v m -> wp (get_word pool p) m Q.
Proof. intros Hv <- HQ. unfold get_word. rewrite Hv. by eexists _, _. Qed.

Lemma swp_set_slab p v m (Q : unit -> mem -> Prop) :
  valid pool p = true -> Q tt (put_slab p v m) -> wp (set_slab pool p v) m Q.
Proof. intros Hv HQ. unfold set_slab. rewrite Hv. by eexists _, _. Qed.

Lemma swp_set_next p v m (Q : unit -> mem -> Prop) :
  valid pool p = true -> Q tt (put_next p v m) -> wp (set_next pool p v) m Q.
Proof. intros Hv HQ. unfold set_next. rewrite Hv. by eexists _, _. Qed.

Lemma swp_set_prev p v m (Q : unit -> mem -> Prop) :
  valid pool p = true -> Q tt (put_prev p v m) -> wp (set_prev pool p v) m Q.
Proof. intros Hv HQ. unfold set_prev. rewrite Hv. by eexists _, _. Qed.

Lemma swp_set_word p v m (Q : unit -> mem -> Prop) :
  valid_word pool p = true -> Q tt (put_word p v m) -> wp (set_word pool p v) m Q.
Proof. intros Hv HQ. unfold set_word. rewrite Hv. by eexists _, _. Qed.

Lemma swp_error e m (Q : unit -> mem -> Prop) :
  Q tt (mkMem (slab m) (next m) (prev m) (word m) (e :: log m)) -> wp (ngx_slab_error e) m Q.
Proof. intros HQ. by eexists _, _. Qed.
End Access.

Lemma upd_eq f a v : upd f a v a = v.
Proof. unfold upd. by rewrite Z.eqb_refl. Qed.

Lemma upd_ne f a v z : z <> a -> upd f a v z = f z.
Proof. intros Hz. unfold upd. by rewrite (proj2 (Z.eqb_neq z a)). Qed.

(** ** Lists *)

(** The descriptors of [l] from [a] on, up to [b]; the fields [prev] have the tag [t]. *)
Fixpoint seg (m : mem) (t a : Z) (l : list Z) (b : Z) : Prop :=
  match l with
  | [] => next m a = b
  | x :: l' => next m a = x /\ prev m x = Z.lor a t /\ seg m t x l' b
  end.

(** The list with the header [h]; the field [prev] of the header is not used. *)
Definition lst (m : mem) (t h : Z) (l : list Z) : Prop := NoDup (h :: l) /\ seg m t h l h.

Lemma seg_app m t a l x k b :
  seg m t a (l ++ x :: k) b <-> seg m t a l x /\ prev m x = Z.lor (List.last l a) t /\ seg m t x k b.
Proof.
  revert a. induction l as [|y l IH]; intros a; simpl; [tauto|]. rewrite IH. 
  assert (E : match l with [] => y | _ :: _ => List.last l a end = List.last l y) by (clear; destruct l as [|z l]; [done|]; revert z; induction l; intros z; simpl in *; auto).
  rewrite E. tauto.
Qed.

Lemma seg_frame m m' t a l b :
  (forall z, z ∈ a :: l -> next m' z = next m z) -> (forall z, z ∈ l -> prev m' z = prev m z) ->
  seg m t a l b -> seg m' t a l b.
Proof.
  revert a. induction l as [|x l IH]; intros a Hn Hp; simpl; [rewrite Hn; [done|by left]|].
  intros (H1 & H2 & H3). split_and!; [rewrite Hn; [done|by left]|rewrite Hp; [done|by left]|].
  apply IH; [|intros z Hz; apply Hp; by right|done]. intros z Hz. apply Hn. by right.
Qed.

Lemma lst_frame m m' t h l :
  (forall z, z ∈ h :: l -> next m' z = next m z /\ prev m' z = prev m z) -> lst m t h l -> lst m' t h l.
Proof.
  intros Hz [Hnd Hs]. split; [done|]. eapply seg_frame; [| |exact Hs]; intros z Hin; apply Hz; [done|by right].
Qed.

(** The segments of two lists, one after the other. *)
Lemma seg_join m t a l k b :
  seg m t a (l ++ k) b <->
  seg m t a l (List.hd b k) /\ (k <> [] -> prev m (List.hd b k) = Z.lor (List.last l a) t /\ seg m t (List.hd b k) (tail k) b).
Proof. destruct k as [|x k]; simpl; [rewrite app_nil_r; naive_solver|rewrite seg_app; naive_solver]. Qed.

Lemma last_in (l : list Z) (h : Z) : List.last l h ∈ h :: l.
Proof. destruct l as [|x l _] using rev_ind; [by left|]. rewrite last_last. set_solver. Qed.

(** The end of a segment can be moved. *)
Lemma seg_end m m' t a l b b' :
  NoDup (a :: l) -> next m' (List.last l a) = b' ->
  (forall z, z ∈ a :: l -> z <> List.last l a -> next m' z = next m z) -> (forall z, z ∈ l -> prev m' z = prev m z) ->
  seg m t a l b -> seg m' t a l b'.
Proof.
  intros Hnd Hb Hn Hp. destruct l as [|x l _] using rev_ind; [done|]. rewrite last_last in *. rewrite !seg_app.
  intros (Hs & Hx & _). split_and!; [|rewrite Hp; [done|set_solver]|done].
  assert (Hxa : x ∉ a :: l) by (apply NoDup_cons in Hnd as [? Hnd]; apply NoDup_app in Hnd; set_solver).
  eapply seg_frame; [| |exact Hs]; intros z Hz; [apply Hn; set_solver|apply Hp; set_solver].
Qed.

(** What is between [l1] and [l2] can be replaced. *)
Lemma lst_splice m m' t h l1 mid l2 new :
  lst m t h (l1 ++ mid ++ l2) -> NoDup (h :: l1 ++ new ++ l2) ->
  seg m' t (List.last l1 h) new (List.hd h l2) ->
  (l2 <> [] -> prev m' (List.hd h l2) = Z.lor (List.last new (List.last l1 h)) t) ->
  (forall z, z ∈ h :: l1 -> z <> List.last l1 h -> next m' z = next m z) -> (forall z, z ∈ l1 -> prev m' z = prev m z) ->
  (forall z, z ∈ l2 -> next m' z = next m z) -> (forall z, z ∈ tail l2 -> prev m' z = prev m z) ->
  lst m' t h (l1 ++ new ++ l2).
Proof.
  intros [_ Hs] Hnd Hnew H2 Hn1 Hp1 Hn2 Hp2. split; [done|].
  apply seg_join in Hs as [Hs1 Hs]. apply seg_join.
  assert (Hseg2 : l2 <> [] -> seg m' t (List.hd h l2) (tail l2) h).
  { intros Hl2. eapply (seg_frame m).
    - intros z Hz. apply Hn2. by destruct l2.
    - exact Hp2.
    - destruct mid as [|y mid]; [by apply Hs|]. destruct Hs as [_ Hs]; [done|]. simpl in Hs. apply seg_join in Hs as [_ Hs]. by apply Hs. }
  split.
  - eapply seg_end; [| |exact Hn1|exact Hp1|exact Hs1].
    + rewrite app_comm_cons in Hnd. by apply NoDup_app in Hnd as [? _].
    + destruct new as [|y new]; simpl in *; [done|]. apply Hnew.
  - intros Hne. destruct new as [|y new]; simpl in *; [by split; auto|]. destruct Hnew as (_ & ? & Hnew).
    split; [done|]. apply seg_join. split; [done|]. intros Hl2. split; [|auto].
    rewrite H2 by done. f_equal. destruct new as [|u new]; [done|]. clear. revert u. induction new as [|v new IH]; intros u; [done|apply (IH v)].
Qed.

Lemma hd_in (l : list Z) (h : Z) : List.hd h l ∈ h :: l.
Proof. destruct l; set_solver. Qed.

(** The same, for the writes of the code: [next] of what is before and [prev] of what is
    after the new part. *)
Lemma lst_replace m m' t h l1 mid l2 new :
  lst m t h (l1 ++ mid ++ l2) -> NoDup new -> (forall z, z ∈ new -> z ∉ h :: l1 ++ l2) ->
  seg m' t (List.last l1 h) new (List.hd h l2) ->
  (l2 <> [] -> prev m' (List.hd h l2) = Z.lor (List.last new (List.last l1 h)) t) ->
  (forall z, z ∈ h :: l1 ++ l2 -> z <> List.last l1 h -> next m' z = next m z) ->
  (forall z, z ∈ h :: l1 ++ l2 -> z <> List.hd h l2 -> prev m' z = prev m z) ->
  lst m' t h (l1 ++ new ++ l2).
Proof.
  intros Hl Hnn Hnew Hs Hy Hn Hp. pose proof Hl as [Hnd _].
  assert (Hnd2 : NoDup ((h :: l1) ++ l2)).
  { rewrite (Permutation_app_comm mid l2), app_assoc, app_comm_cons in Hnd. by apply NoDup_app in Hnd as [? _]. }
  apply NoDup_app in Hnd2 as (Hnd1 & H12 & Hnd2). pose proof (last_in l1 h) as Hq. 
  apply (lst_splice m m' t h l1 mid l2 new Hl); [|done|done|..].
  - apply (NoDup_app (h :: l1)). split_and!; [done| |].
    + intros z Hz Hz'. apply elem_of_app in Hz' as [Hz'|Hz']; [apply (Hnew z Hz')|by apply (H12 z)]. 
      rewrite app_comm_cons. apply elem_of_app. by left.
    + apply NoDup_app. split_and!; [done| |done]. intros z Hz Hz'. apply (Hnew z Hz). rewrite app_comm_cons. apply elem_of_app. by right.
  - intros z Hz Hzq. apply Hn; [|done]. rewrite app_comm_cons. apply elem_of_app. by left.
  - intros z Hz. apply Hp.
    + rewrite app_comm_cons. apply elem_of_app. left. by right.
    + intros ->. apply NoDup_cons in Hnd1 as [Hh _]. destruct l2 as [|y l2]; simpl in *; [done|]. apply (H12 y); set_solver.
  - intros z Hz. apply Hn.
    + rewrite app_comm_cons. apply elem_of_app. by right.
    + intros ->. by apply (H12 (List.last l1 h)).
  - intros z Hz. destruct l2 as [|y l2]; simpl in *; [by apply elem_of_nil in Hz|]. apply Hp.
    + rewrite app_comm_cons. apply elem_of_app. right. by right.
    + intros ->. by apply NoDup_cons in Hnd2 as [? _].
Qed.

Lemma lst_push m m' t h l x :
  lst m t h l -> x ∉ h :: l ->
  next m' x = List.hd h l -> next m' h = x -> prev m' x = Z.lor h t ->
  (l <> [] -> prev m' (List.hd h l) = Z.lor x t) ->
  (forall z, z ∈ l -> next m' z = next m z) -> (forall z, z ∈ l -> z <> List.hd h l -> prev m' z = prev m z) ->
  lst m' t h (x :: l).
Proof.
  intros Hl Hx Hnx Hnh Hpx Hpl Hn Hp. destruct l as [|y l].
  - split; [apply NoDup_cons_2; [|apply NoDup_singleton]|simpl in *; auto].
    intros ->%list_elem_of_singleton. apply Hx. by left.
  - destruct Hl as [Hnd (_ & _ & Hs)]. simpl in *. apply NoDup_cons in Hnd as [? Hnd].
    rewrite !not_elem_of_cons in *. split.
    { apply NoDup_cons_2; [rewrite !not_elem_of_cons; naive_solver|]. apply NoDup_cons_2; [rewrite !not_elem_of_cons; tauto|done]. }
    simpl. split_and!; auto.
    apply NoDup_cons in Hnd as [Hy _].
    eapply seg_frame; [| |exact Hs]; intros z Hz; [by apply Hn|apply Hp; [by right|by intros ->]].
Qed.

(** Only the links of the descriptors of [T] have changed. *)
Record links_only (T : list Z) (m m' : mem) : Prop := {
  lo_slab : slab m' = slab m;
  lo_word : word m' = word m;
  lo_log : log m' = log m;
  lo_links z : z ∉ T -> next m' z = next m z /\ prev m' z = prev m z
}.

(** ** Tags *)

Lemma lor_low a t : a mod 4 = 0 -> 0 <= t < 4 -> Z.lor a t = a + t.
Proof.
  intros Ha Ht. rewrite (Z.div_mod a 4), Ha, Z.add_0_r by lia. rewrite Z.mul_comm. change 4 with (2 ^ 2) at 2 4.
  rewrite <- Z.shiftl_mul_pow2 by lia. symmetry. rewrite Z.add_nocarry_lxor, Z.lxor_lor; [done| |]; apply land_shiftl_low; lia.
Qed.

Lemma untag_mod a : untag a = a - a mod 4.
Proof.
  unfold untag. change (Z.lnot NGX_SLAB_PAGE_MASK) with (Z.lnot (Z.ones 2)). rewrite <- Z.ldiff_land, Z.ldiff_ones_r, Z.shiftl_mul_pow2, Z.shiftr_div_pow2 by lia.
  change (2 ^ 2) with 4. pose proof (Z.div_mod a 4). lia.
Qed.

Lemma mask_mod a : Z.land a NGX_SLAB_PAGE_MASK = a mod 4.
Proof. apply (Z.land_ones a 2). lia. Qed.

Lemma untag_tag a t : a mod 4 = 0 -> 0 <= t < 4 -> untag (Z.lor a t) = a.
Proof. intros Ha Ht. rewrite lor_low, untag_mod by done. Z.to_euclidean_division_equations; lia. Qed.

Lemma mask_tag a t : a mod 4 = 0 -> 0 <= t < 4 -> Z.land (Z.lor a t) NGX_SLAB_PAGE_MASK = t.
Proof. intros Ha Ht. rewrite lor_low, mask_mod by done. Z.to_euclidean_division_equations; lia. Qed.

Create HintDb slab discriminated.

(** Running the code: reads see through the writes before them. *)
Ltac s_look :=
  cbn [slab next prev word put_slab put_next put_prev put_word];
  repeat first [rewrite upd_eq | rewrite upd_ne by (first [assumption | congruence])];
  first [eassumption | reflexivity].

Ltac s_step :=
  first
    [ apply swp_bind
    | apply swp_ret
    | eapply swp_get_slab; [eauto with slab|s_look|]
    | eapply swp_get_next; [eauto with slab|s_look|]
    | eapply swp_get_prev; [eauto with slab|s_look|]
    | eapply swp_set_slab; [solve [eauto with slab]|]
    | eapply swp_set_next; [solve [eauto with slab]|]
    | eapply swp_set_prev; [solve [eauto with slab]|] ].

(** ** The addresses *)

Section Pool.
Context {arch : Arch} {layout : SlabLayout}.
#[local] Existing Instance page_4k.
Variable pool : ngx_slab_pool_t.

(** The number of pages *)
Definition npages : Z := page_index pool (last pool).

(** The number of slots: chunks have 2^3 to 2^11 bytes. *)
Definition nslots : Z := 9.

(** The places of the arrays and the pages of a pool. *)
Record geometry : Prop := {
  g_shift : min_shift pool = 3;
  g_size : min_size pool = 8;
  g_addr : 0 < addr pool;
  g_aligned : addr pool mod sizeof_uintptr = 0;
  g_pages : pages pool = slot_at pool nslots;
  g_count : 0 <= npages;
  g_last : last pool = page_at pool npages;
  g_start : last pool <= start pool;
  g_start_aligned : start pool mod 4096 = 0;
  g_end : start pool + npages * 4096 <= end_ pool < 2 ^ ptr_bits
}.

Lemma widths : (ptr_bits = 32 /\ sizeof_uintptr = 4 /\ sizeof_page = 12)
  \/ (ptr_bits = 64 /\ sizeof_uintptr = 8 /\ sizeof_page = 24).
Proof. unfold sizeof_page, sizeof_uintptr. destruct ptr_bits_cases as [-> | ->]; [by left|by right]. Qed.

Context (geo : geometry).

(** The equations of the addresses of the arrays, for [lia]. *)
Lemma places :
  free_at pool = addr pool + offset_free /\ slots pool = addr pool + sizeof_pool /\
  pages pool = slots pool + nslots * sizeof_page /\ last pool = pages pool + npages * sizeof_page /\
  0 < addr pool /\ 0 < offset_free /\ offset_free + sizeof_page <= sizeof_pool /\
  0 <= npages /\ last pool <= start pool /\ addr pool mod 4 = 0 /\ offset_free mod 4 = 0 /\ sizeof_pool mod 4 = 0.
Proof.
  destruct geo. pose proof layout_free as [Ho [Hs _]]. pose proof layout_aligned as [Ha Hb].
  split_and!; try done.
  all: unfold sizeof_page; fold sizeof_uintptr in *; destruct widths as [(_ & E & _)|(_ & E & _)]; rewrite E in *; Z.to_euclidean_division_equations; lia.
Qed.

Ltac addr_lia :=
  pose proof places as (? & ? & ? & ? & ? & ? & ? & ? & ? & ? & ? & ?);
  unfold slot_at, page_at, page_add, nslots in *;
  destruct widths as [(_ & ? & Es)|(_ & ? & Es)]; rewrite Es in *; Z.to_euclidean_division_equations; lia.

Lemma page_at_inj i j : page_at pool i = page_at pool j -> i = j.
Proof. addr_lia. Qed.

Lemma slot_at_inj i j : slot_at pool i = slot_at pool j -> i = j.
Proof. addr_lia. Qed.

Lemma page_not_slot i s : 0 <= i -> 0 <= s < nslots -> page_at pool i <> slot_at pool s.
Proof. intros. addr_lia. Qed.

Lemma page_not_free i : 0 <= i -> page_at pool i <> free_at pool.
Proof. intros. addr_lia. Qed.

Lemma slot_not_free s : 0 <= s -> slot_at pool s <> free_at pool.
Proof. intros. addr_lia. Qed.

Lemma page_add_at i n : page_add (page_at pool i) n = page_at pool (i + n).
Proof. unfold page_add, page_at. lia. Qed.

Lemma page_index_at i : page_index pool (page_at pool i) = i.
Proof.
  unfold page_index, page_at. replace (pages pool + i * sizeof_page - pages pool) with (i * sizeof_page) by lia.
  apply Z.div_mul. destruct widths as [(_ & _ & ->)|(_ & _ & ->)]; lia.
Qed.

Lemma valid_free : valid pool (free_at pool) = true.
Proof. unfold valid. by rewrite Z.eqb_refl. Qed.

Lemma valid_slot s : 0 <= s < nslots -> valid pool (slot_at pool s) = true.
Proof.
  intros Hs. unfold valid, in_array. apply orb_true_iff. left. apply orb_true_iff. right.
  change ngx_pagesize_shift with 12. rewrite (g_shift geo).
  assert (E : slot_at pool s - slots pool = s * sizeof_page) by (unfold slot_at; lia). rewrite E, Z.mod_mul.
  - rewrite !andb_true_iff. split_and!; [apply Z.leb_le|apply Z.ltb_lt|done]; addr_lia.
  - destruct widths as [(_ & _ & ->)|(_ & _ & ->)]; lia.
Qed.

Lemma valid_page i : 0 <= i < npages -> valid pool (page_at pool i) = true.
Proof.
  intros Hs. unfold valid, in_array. apply orb_true_iff. right.
  assert (E : page_at pool i - pages pool = i * sizeof_page) by (unfold page_at; lia). rewrite E, Z.mod_mul.
  - rewrite !andb_true_iff. split_and!; [apply Z.leb_le|apply Z.ltb_lt|done]; addr_lia.
  - destruct widths as [(_ & _ & ->)|(_ & _ & ->)]; lia.
Qed.

(** Descriptors are at multiples of four, and not at the null pointer. *)
Lemma valid_aligned a : valid pool a = true -> 0 < a /\ a mod 4 = 0.
Proof.
  unfold valid, in_array. rewrite !orb_true_iff, !andb_true_iff, !Z.leb_le, !Z.ltb_lt, !Z.eqb_eq.
  intros [[->|[[? _] ?]]|[[? _] ?]]; addr_lia.
Qed.

(** ** The operations on lists *)

(** The place of [x] in its list. *)
Lemma lst_at m t h l1 x l2 :
  lst m t h (l1 ++ x :: l2) ->
  prev m x = Z.lor (List.last l1 h) t /\ next m x = List.hd h l2 /\ List.last l1 h <> x.
Proof.
  intros [Hnd Hs]. apply seg_app in Hs as (_ & Hp & Hs). split_and!; [done|by destruct l2; apply Hs|].
  intros <-. rewrite app_comm_cons in Hnd. apply NoDup_app in Hnd as (_ & Hnd & _). apply (Hnd (List.last l1 h)); [apply last_in|by left].
Qed.

Lemma swp_unlink t h l1 x l2 m :
  0 <= t < 4 -> lst m t h (l1 ++ x :: l2) -> (forall z, z ∈ h :: l1 ++ x :: l2 -> valid pool z = true) ->
  wp (unlink pool x) m (fun _ m' => lst m' t h (l1 ++ l2) /\ links_only (h :: l1 ++ l2) m m').
Proof.
  intros Ht Hl Hv. destruct (lst_at _ _ _ _ _ _ Hl) as (Hp & Hn & Hqx). pose proof (last_in l1 h) as Hq. pose proof (hd_in l2 h) as Hy.
  set (q := List.last l1 h) in *. set (y := List.hd h l2) in *.
  assert (valid pool x = true) by (apply Hv; set_solver).
  assert (valid pool q = true) by (apply Hv; set_solver). assert (valid pool y = true) by (apply Hv; set_solver).
  assert (Hu : untag (Z.lor q t) = q) by (apply untag_tag; [by eapply valid_aligned|done]).
  unfold unlink. repeat s_step. rewrite Hu. repeat s_step. split.
  - apply (lst_replace m _ t h l1 [x] l2 []); try done; [constructor|set_solver|..]; fold q y; cbn [next prev put_next put_prev].
    + apply upd_eq.
    + intros _. apply upd_eq.
    + intros z _ Hz. by apply upd_ne.
    + intros z _ Hz. by apply upd_ne.
  - split; try done. intros z Hz. cbn [next prev put_next put_prev]. split; apply upd_ne; set_solver.
Qed.

Lemma swp_link_slot t s l x m :
  lst m t (slot_at pool s) l -> x ∉ slot_at pool s :: l -> (forall z, z ∈ x :: slot_at pool s :: l -> valid pool z = true) ->
  wp (link_slot pool s x t) m (fun _ m' => lst m' t (slot_at pool s) (x :: l) /\ links_only (x :: slot_at pool s :: l) m m').
Proof.
  intros Hl Hx Hv. set (h := slot_at pool s) in *. pose proof Hl as [_ Hs].
  assert (Hn : next m h = List.hd h l) by (by destruct l; apply Hs). pose proof (hd_in l h) as Hy. set (y := List.hd h l) in *.
  assert (valid pool x = true) by (apply Hv; set_solver). assert (valid pool h = true) by (apply Hv; set_solver).
  assert (valid pool y = true) by (apply Hv; set_solver).
  assert (x <> h) by set_solver. assert (x <> y) by set_solver. assert (h <> x) by done.
  unfold link_slot. fold h. repeat s_step. split.
  - eapply lst_push; [exact Hl|done|..]; fold y; try s_look.
    + intros z Hz. assert (z <> h) by (destruct Hl as [Hnd _]; apply NoDup_cons in Hnd; set_solver). assert (z <> x) by set_solver. s_look.
    + intros z Hz ?. assert (z <> x) by set_solver. s_look.
  - split; try done. intros z Hz. rewrite !not_elem_of_cons in Hz. destruct Hz as (? & ? & Hz).
    assert (z <> y) by set_solver. split; s_look.
Qed.

Lemma swp_slot_first t s x m :
  lst m t (slot_at pool s) [] -> x <> slot_at pool s -> valid pool x = true -> valid pool (slot_at pool s) = true ->
  wp (slot_first pool s x t) m
    (fun _ m' => lst m' t (slot_at pool s) [x] /\ links_only [x; slot_at pool s] m m').
Proof.
  intros Hl Hx Hvx Hv. set (h := slot_at pool s) in *. assert (h <> x) by done.
  unfold slot_first. fold h. repeat s_step. split.
  - eapply lst_push; [exact Hl|set_solver|..]; simpl List.hd; try s_look; set_solver.
  - split; try done. intros z Hz. rewrite !not_elem_of_cons in Hz. destruct Hz as (? & ? & _). split; s_look.
Qed.
End Pool.

End SlabRep.
