(* ===== verification/NgxSlabInv.v ===== *)
(** * The invariant of the slab allocator

    The runs of pages and the lists of NgxSlabRep.v together: [inv] is what the memory of
    a pool has to satisfy between two operations, and [run_step] how one replaces some of
    the runs and one of the lists. *)

From stdpp Require Import gmap fin_maps.
From S2P Require Import Prelude NgxSlab NgxSlabRep.

Module SlabInv.
Import Slab SlabRep.

(** A run of free pages, of allocated pages, of pages that are being freed, and a page of
    chunks of 2^[sh] bytes, of which the bits of [B] say which are in use. *)
Inductive run := RFree (k : Z) | RBusy (k : Z) | RLoose (k : Z) | RSlab (sh B : Z).

Definition len (r : run) : Z := match r with RFree k | RBusy k | RLoose k => k | RSlab _ _ => 1 end.

(** The runs of [rs], with their first pages, are the pages from [i] to [j]. *)
Fixpoint tiles (i : Z) (rs : list (Z * run)) (j : Z) : Prop :=
  match rs with
  | [] => i = j
  | (k, r) :: rs' => k = i /\ 0 < len r /\ tiles (i + len r) rs' j
  end.

(** The bits of word [n] of a bitmap. *)
Definition word_of `{Arch} (B n : Z) : Z := Z.shiftr B (n * ptr_bits) mod 2 ^ ptr_bits.

Section Inv.
Context {arch : Arch} {layout : SlabLayout}.
#[local] Existing Instance page_4k.
Variable pool : ngx_slab_pool_t.

(** The type of the pages with chunks of 2^[sh] bytes, how many chunks they have and how
    many of them the bitmap takes. *)
Definition type_of (sh : Z) : Z :=
  if sh <? ngx_slab_exact_shift then NGX_SLAB_SMALL
  else if sh =? ngx_slab_exact_shift then NGX_SLAB_EXACT else NGX_SLAB_BIG.

Definition chunks (sh : Z) : Z := 2 ^ (12 - sh).
Definition resv (sh : Z) : Z := if sh <? ngx_slab_exact_shift then map_chunks sh else 0.
Definition full (sh B : Z) : bool := B =? Z.ones (chunks sh).

(** The address of page [i] *)
Definition base (i : Z) : Z := start pool + i * 4096.

(** Where the bits are. *)
Definition occ (m : mem) (i sh B : Z) : Prop :=
  if sh <? ngx_slab_exact_shift then
    slab m (page_at pool i) = sh /\
    forall n, 0 <= n < map_words sh -> word m (bitmap_at (base i) n) = word_of B n
  else if sh =? ngx_slab_exact_shift then slab m (page_at pool i) = B
  else slab m (page_at pool i) = Z.lor (Z.shiftl B NGX_SLAB_MAP_SHIFT) sh.

(** The last page of a free run is how the run is found from the page after it. *)
Definition run_ok (m : mem) (i : Z) (r : run) : Prop :=
  match r with
  | RFree k =>
      slab m (page_at pool i) = k /\
      (1 < k -> slab m (page_at pool (i + k - 1)) = 0 /\
                (i + k < npages pool -> prev m (page_at pool (i + k - 1)) = page_at pool i))
  | RBusy k =>
      slab m (page_at pool i) = Z.lor k NGX_SLAB_PAGE_START /\
      next m (page_at pool i) = 0 /\ prev m (page_at pool i) = 0 /\
      (1 < k -> slab m (page_at pool (i + k - 1)) = NGX_SLAB_PAGE_BUSY /\
                next m (page_at pool (i + k - 1)) = 0 /\ prev m (page_at pool (i + k - 1)) = 0)
  | RLoose k => slab m (page_at pool i) = k /\ (1 < k -> slab m (page_at pool (i + k - 1)) = 0)
  | RSlab sh B =>
      3 <= sh <= 11 /\ 0 <= B < 2 ^ chunks sh /\ (forall c, 0 <= c < resv sh -> Z.testbit B c = true) /\
      occ m i sh B /\
      (full sh B = true -> next m (page_at pool i) = 0 /\ prev m (page_at pool i) = type_of sh)
  end.

(** ** The lists: -1 is the list of the free runs, the others are the slots *)

Definition hdr (q : Z) : Z := if q =? -1 then free_at pool else slot_at pool q.
Definition tag (q : Z) : Z := if q =? -1 then NGX_SLAB_PAGE else type_of (q + 3).

Definition queue_of (r : run) : option Z :=
  match r with
  | RFree _ => Some (-1)
  | RSlab sh B => if full sh B then None else Some (sh - 3)
  | _ => None
  end.

Definition members (q : Z) (rs : list (Z * run)) : list Z :=
  (fun x => page_at pool x.1) <$> filter (fun x => queue_of x.2 = Some q) rs.

Record inv (rs : list (Z * run)) (m : mem) : Prop := {
  inv_tiles : tiles 0 rs (npages pool);
  inv_runs i r : (i, r) ∈ rs -> run_ok m i r;
  inv_lists q : -1 <= q < nslots -> exists l, lst m (tag q) (hdr q) l /\ l ≡ₚ members q rs
}.

(** ** Tilings *)

Lemma runs_app i rs1 rs2 j : tiles i (rs1 ++ rs2) j <-> exists k, tiles i rs1 k /\ tiles k rs2 j.
Proof.
  revert i. induction rs1 as [|[a r] rs1 IH]; intros i; simpl; [naive_solver|]. rewrite IH. naive_solver.
Qed.

Lemma tiles_le i rs j : tiles i rs j -> i <= j.
Proof.
  revert i. induction rs as [|[a r] rs IH]; intros i; simpl; [lia|]. intros (-> & Hl & Ht). apply IH in Ht. lia.
Qed.

Lemma tiles_in i rs j a r : tiles i rs j -> (a, r) ∈ rs -> i <= a /\ 0 < len r /\ a + len r <= j.
Proof.
  revert i. induction rs as [|[b r'] rs IH]; intros i; simpl; [by intros _ ?%elem_of_nil|].
  intros (-> & Hl & Ht) [E|Hin]%elem_of_cons.
  - simplify_eq. apply tiles_le in Ht. lia.
  - specialize (IH _ Ht Hin). lia.
Qed.

(** Two runs with a page in common are the same. *)
Lemma tiles_inj i rs j a r b r' x :
  tiles i rs j -> (a, r) ∈ rs -> (b, r') ∈ rs -> a <= x < a + len r -> b <= x < b + len r' -> a = b /\ r = r'.
Proof.
  revert i. induction rs as [|[c r''] rs IH]; intros i; simpl; [by intros _ ?%elem_of_nil|].
  intros (-> & Hl & Ht) [E|Hin]%elem_of_cons [E'|Hin']%elem_of_cons Ha Hb.
  - by simplify_eq.
  - simplify_eq. pose proof (tiles_in _ _ _ _ _ Ht Hin'). lia.
  - simplify_eq. pose proof (tiles_in _ _ _ _ _ Ht Hin). lia.
  - by eapply IH.
Qed.

(** ** Members *)

Lemma members_app q rs1 rs2 : members q (rs1 ++ rs2) = members q rs1 ++ members q rs2.
Proof. unfold members. by rewrite filter_app, fmap_app. Qed.

Lemma members_cons q i r rs :
  members q ((i, r) :: rs) = (if decide (queue_of r = Some q) then [page_at pool i] else []) ++ members q rs.
Proof. unfold members. rewrite filter_cons. simpl. by case_decide. Qed.

Lemma elem_of_members q rs a :
  a ∈ members q rs <-> exists i r, (i, r) ∈ rs /\ queue_of r = Some q /\ a = page_at pool i.
Proof.
  unfold members. rewrite list_elem_of_fmap. split.
  - intros ([i r] & -> & [Hq Hin]%list_elem_of_filter). by exists i, r.
  - intros (i & r & Hin & Hq & ->). exists (i, r). split; [done|]. by apply list_elem_of_filter.
Qed.

(** ** One step *)

Context (geo : geometry pool).

Lemma exact_shift_val : (ptr_bits = 32 /\ ngx_slab_exact_shift = 7) \/ (ptr_bits = 64 /\ ngx_slab_exact_shift = 6).
Proof.
  unfold ngx_slab_exact_shift, ngx_slab_exact_size, sizeof_uintptr. destruct ptr_bits_cases as [-> | ->]; [by left|by right].
Qed.

(** A fact about the sizes of chunks is a fact about a few shifts. *)
Lemma shift_cases (P : Z -> Prop) : P 3 -> P 4 -> P 5 -> P 6 -> P 7 -> P 8 -> P 9 -> P 10 -> P 11 ->
  forall sh, 3 <= sh <= 11 -> P sh.
Proof.
  intros. assert (sh = 3 \/ sh = 4 \/ sh = 5 \/ sh = 6 \/ sh = 7 \/ sh = 8 \/ sh = 9 \/ sh = 10 \/ sh = 11) by lia.
  naive_solver.
Qed.

Lemma map_words_bounds sh : 3 <= sh <= 11 -> 0 <= map_words sh * sizeof_uintptr <= 64.
Proof.
  unfold map_words. destruct widths as [(_ & -> & _)|(_ & -> & _)]; revert sh; apply shift_cases; split; by apply Z.leb_le.
Qed.

Lemma bitmap_in_page i sh n :
  3 <= sh <= 11 -> 0 <= n < map_words sh ->
  base i <= bitmap_at (base i) n /\ bitmap_at (base i) n + sizeof_uintptr <= base i + 64.
Proof.
  intros Hs Hn. pose proof (map_words_bounds sh Hs). unfold bitmap_at.
  destruct widths as [(_ & E & _)|(_ & E & _)]; rewrite E in *; lia.
Qed.

Lemma run_ok_frame m m' i r :
  0 < len r ->
  (forall j, i <= j < i + len r -> slab m' (page_at pool j) = slab m (page_at pool j)) ->
  (forall w, base i <= w < base i + 4096 -> word m' w = word m w) ->
  (forall j, i <= j < i + len r -> queue_of r = None \/ j <> i ->
             next m' (page_at pool j) = next m (page_at pool j) /\ prev m' (page_at pool j) = prev m (page_at pool j)) ->
  run_ok m i r -> run_ok m' i r.
Proof.
  intros Hlen Hs Hw Hl. destruct r as [k|k|k|sh B]; simpl in *.
  - intros [H1 H2]. split; [rewrite Hs by lia; done|]. intros Hk. rewrite Hs by lia.
    destruct (Hl (i + k - 1)) as [_ ->]; [lia|right; lia|]. auto.
  - intros (H1 & H2 & H3 & H4). destruct (Hl i) as [-> ->]; [lia|by left|]. rewrite Hs by lia. split_and!; try done.
    intros Hk. destruct (Hl (i + k - 1)) as [-> ->]; [lia|by left|]. rewrite Hs by lia. auto.
  - intros [H1 H2]. split; [rewrite Hs by lia; done|]. intros Hk. rewrite Hs by lia. auto.
  - intros (H1 & H2 & H3 & H4 & H5). split_and!; try done; [by apply H1|by apply H1|by apply H2|by apply H2| |].
    + unfold occ in *. rewrite Hs by lia. destruct (sh <? ngx_slab_exact_shift); [|done]. destruct H4 as [? H4]. split; [done|].
      intros n Hn. rewrite Hw; [auto|]. pose proof (bitmap_in_page i sh n H1 Hn). destruct widths as [(_ & ? & _)|(_ & ? & _)]; lia.
    + intros Hf. rewrite Hf in Hl. destruct (Hl i) as [-> ->]; [lia|by left|]. auto.
Qed.

Lemma hdr_inj q q' : -1 <= q < nslots -> -1 <= q' < nslots -> hdr q = hdr q' -> q = q'.
Proof.
  unfold hdr. intros Hq Hq'. case Z.eqb_spec; case Z.eqb_spec; intros ? ? E; try congruence.
  - exfalso. by apply (slot_not_free pool geo q'); [lia|].
  - exfalso. by apply (slot_not_free pool geo q); [lia|].
  - by apply (slot_at_inj pool geo).
Qed.

Lemma page_not_hdr i q : 0 <= i -> -1 <= q < nslots -> page_at pool i <> hdr q.
Proof.
  unfold hdr. intros Hi Hq. case Z.eqb_spec; intros ?; [by apply page_not_free|apply page_not_slot; [done..|lia]].
Qed.

Lemma queue_range m i r q : run_ok m i r -> queue_of r = Some q -> -1 <= q < nslots.
Proof.
  unfold nslots. destruct r as [k|k|k|sh B]; simpl; try done; [intros _ [= <-]; lia|]. intros (? & _) Hq. case_match; simplify_eq. lia.
Qed.

(** A page in a list is the first page of a run of that list. *)
Lemma listed_page rs m q l j i r :
  inv rs m -> -1 <= q < nslots -> l ≡ₚ members q rs -> (i, r) ∈ rs -> i <= j < i + len r ->
  page_at pool j ∈ hdr q :: l -> j = i /\ queue_of r = Some q.
Proof.
  intros Hi Hq Hl Hin Hj [E|Hm]%elem_of_cons.
  - exfalso. eapply page_not_hdr; [|exact Hq|exact E]. pose proof (tiles_in _ _ _ _ _ (inv_tiles _ _ Hi) Hin). lia.
  - rewrite Hl in Hm. apply elem_of_members in Hm as (i' & r' & Hin' & Hq' & E). apply (page_at_inj pool geo) in E as <-.
    destruct (tiles_in _ _ _ _ _ (inv_tiles _ _ Hi) Hin') as (_ & Hlen & _).
    destruct (tiles_inj _ _ _ i r j r' j (inv_tiles _ _ Hi) Hin Hin') as [-> ->]; [lia|lia|]. done.
Qed.

Lemma run_step r1 old r2 new a b q0 l0 l0' m m' :
  inv (r1 ++ old ++ r2) m -> tiles 0 r1 a -> tiles a old b -> tiles b r2 (npages pool) -> tiles a new b ->
  -1 <= q0 < nslots -> l0 ≡ₚ members q0 (r1 ++ old ++ r2) ->
  lst m' (tag q0) (hdr q0) l0' -> l0' ≡ₚ members q0 (r1 ++ new ++ r2) ->
  (forall i r, (i, r) ∈ new -> run_ok m' i r) ->
  (forall i r, (i, r) ∈ old ++ new -> queue_of r = None \/ queue_of r = Some q0) ->
  (forall j, 0 <= j < npages pool -> ~ (a <= j < b) -> slab m' (page_at pool j) = slab m (page_at pool j)) ->
  (forall w, ~ (base a <= w < base b) -> word m' w = word m w) ->
  (forall z, z ∉ hdr q0 :: l0 -> (forall j, a <= j < b -> z <> page_at pool j) ->
             next m' z = next m z /\ prev m' z = prev m z) ->
  inv (r1 ++ new ++ r2) m'.
Proof.
  intros Hi T1 To T2 Tn Hq0 Hl0 Hlst Hl0' Hnew Hqs Hslab Hword Hlinks.
  assert (Hout : forall i r, (i, r) ∈ r1 \/ (i, r) ∈ r2 -> (i, r) ∈ r1 ++ old ++ r2 /\ 0 <= i /\ 0 < len r /\ i + len r <= npages pool /\ (i + len r <= a \/ b <= i)).
  { pose proof (tiles_le _ _ _ T1). pose proof (tiles_le _ _ _ To). pose proof (tiles_le _ _ _ T2).
    intros i r [Hin|Hin]; [pose proof (tiles_in _ _ _ _ _ T1 Hin)|pose proof (tiles_in _ _ _ _ _ T2 Hin)]; rewrite !elem_of_app; split_and!; auto; lia. }
  split.
  - rewrite !runs_app. exists a. split; [done|]. rewrite runs_app. by exists b.
  - intros i r. rewrite !elem_of_app. intros [Hin|[Hin|Hin]]; [|by apply Hnew|]; (eapply (run_ok_frame m)).
    all: destruct (Hout i r) as (Hr & ? & ? & ? & ?); [by auto|].
    all: first [done | by eapply inv_runs | intros j Hj; apply Hslab; lia | intros w Hw; apply Hword; unfold base in *; lia | idtac].
    all: intros j Hj Hc; apply Hlinks; [|intros j' Hj' E; apply (page_at_inj pool geo) in E; lia].
    all: intros Hm; destruct (listed_page _ _ _ _ j i r Hi Hq0 Hl0 Hr Hj Hm) as [-> Hq]; rewrite Hq in Hc; naive_solver.
  - intros q Hq. destruct (decide (q = q0)) as [->|Hne]; [by exists l0'|].
    assert (Hno : forall rs, (forall i r, (i, r) ∈ rs -> (i, r) ∈ old ++ new) -> members q rs = []).
    { intros rs Hrs. destruct (members q rs) as [|x l] eqn:E; [done|]. exfalso. assert (Hx : x ∈ members q rs) by (rewrite E; by left).
      apply elem_of_members in Hx as (i & r & Hin & Hqr & _). destruct (Hqs i r (Hrs i r Hin)); congruence. }
    destruct (inv_lists _ _ Hi q Hq) as (l & Hl & Hp). exists l. rewrite !members_app in *.
    rewrite (Hno old) in Hp by (intros; rewrite elem_of_app; auto). rewrite (Hno new) by (intros; rewrite elem_of_app; auto).
    split; [|done]. eapply (lst_frame m); [|exact Hl]. intros z Hz.
    assert (Hzz : z = hdr q \/ exists i r, (i, r) ∈ r1 ++ old ++ r2 /\ 0 <= i /\ 0 < len r /\ (i + len r <= a \/ b <= i) /\ queue_of r = Some q /\ z = page_at pool i).
    { apply elem_of_cons in Hz as [->|Hz]; [by left|]. right. rewrite Hp in Hz. simpl in Hz. rewrite elem_of_app, !elem_of_members in Hz.
      destruct Hz as [(i & r & Hin & Hqr & ->)|(i & r & Hin & Hqr & ->)]; exists i, r; destruct (Hout i r) as (Hr & ? & ? & ? & ?); auto 10. }
    apply Hlinks.
    + intros Hz0. destruct Hzz as [->|(i & r & Hr & ? & ? & _ & Hqr & ->)].
      * apply elem_of_cons in Hz0 as [E|Hz0]; [by apply hdr_inj in E|]. rewrite Hl0, <- !members_app in Hz0.
        apply elem_of_members in Hz0 as (i & r & Hin & _ & E). eapply page_not_hdr; [|exact Hq|by symmetry].
        pose proof (tiles_in _ _ _ _ _ (inv_tiles _ _ Hi) Hin). lia.
      * rewrite <- !members_app in Hl0. destruct (listed_page _ _ _ _ i i r Hi Hq0 Hl0 Hr ltac:(lia) Hz0) as [_ Hq']. congruence.
    + intros j Hj ->. destruct Hzz as [E|(i & r & Hr & ? & ? & ? & Hqr & E)].
      * eapply page_not_hdr; [|exact Hq|exact E]. pose proof (tiles_le _ _ _ T1). lia.
      * apply (page_at_inj pool geo) in E. lia.
Qed.
End Inv.
End SlabInv.
