(* ===== verification/NgxSlabPages.v ===== *)
(** * Runs of pages

    [ngx_slab_alloc_pages] and [ngx_slab_free_pages] of NgxSlab.v: the first free run that
    is long enough is cut, and a run that is freed is joined with the free runs before and
    after it. *)

From stdpp Require Import gmap fin_maps.
From S2P Require Import Prelude NgxSlab NgxSlabRep NgxSlabInv.

Module SlabPages.
Import Slab SlabRep SlabInv.

Section Pages.
Context {arch : Arch} {layout : SlabLayout}.
#[local] Existing Instance page_4k.
Variable pool : ngx_slab_pool_t.
Context (geo : geometry pool).

#[local] Hint Extern 1 (valid _ (page_at _ _) = true) => apply (valid_page pool geo); lia : slab.
#[local] Hint Extern 1 (valid _ (slot_at _ _) = true) => apply (valid_slot pool geo); unfold nslots; lia : slab.
#[local] Hint Extern 1 (valid _ (free_at _) = true) => apply valid_free : slab.

(** ** Filling descriptors *)

(** The pages from [i] on, [c] of them, have the field [slab] [v] and no links. *)
Record filled (v i c : Z) (m m' : mem) : Prop := {
  f_in j : i <= j < i + c -> slab m' (page_at pool j) = v /\ next m' (page_at pool j) = 0 /\ prev m' (page_at pool j) = 0;
  f_out z : (forall j, i <= j < i + c -> z <> page_at pool j) ->
            slab m' z = slab m z /\ next m' z = next m z /\ prev m' z = prev m z;
  f_word : word m' = word m;
  f_log : log m' = log m
}.

Lemma filled_0 v i m : filled v i 0 m m.
Proof. split; try done. lia. Qed.

Lemma filled_S v i c m m' :
  0 <= c -> filled v (i + 1) c (put_prev (page_at pool i) 0 (put_next (page_at pool i) 0 (put_slab (page_at pool i) v m))) m' ->
  filled v i (c + 1) m m'.
Proof.
  intros Hc [Hin Hout Hw Hg]. split; try done.
  - intros j Hj. destruct (decide (j = i)) as [->|]; [|apply Hin; lia].
    destruct (Hout (page_at pool i)) as (-> & -> & ->); [intros j Hj' E; apply (page_at_inj pool geo) in E; lia|].
    cbn. by rewrite !upd_eq.
  - intros z Hz. destruct (Hout z) as (-> & -> & ->); [intros j Hj; apply Hz; lia|]. cbn.
    rewrite !upd_ne by (apply Hz; lia). done.
Qed.

Lemma swp_busy_pages (c : nat) i m :
  0 <= i -> i + Z.of_nat c <= npages pool ->
  wp (busy_pages pool (page_at pool i) c) m (fun _ m' => filled NGX_SLAB_PAGE_BUSY i (Z.of_nat c) m m').
Proof.
  revert i m. induction c as [|c IH]; intros i m Hi Hc; [by apply swp_ret, filled_0|].
  cbn [busy_pages]. repeat s_step. rewrite page_add_at by done. eapply swp_mono; [apply IH; lia|]. intros [] m' H'. simpl in H'.
  rewrite Nat2Z.inj_succ. by apply filled_S; [lia|].
Qed.

Lemma swp_zero_pages (c : nat) i m :
  0 <= i -> i + Z.of_nat c <= npages pool ->
  wp (zero_pages pool (page_at pool i) c) m (fun _ m' => filled 0 i (Z.of_nat c) m m').
Proof.
  revert i m. induction c as [|c IH]; intros i m Hi Hc; [by apply swp_ret, filled_0|].
  cbn [zero_pages]. repeat s_step. rewrite page_add_at by done. eapply swp_mono; [apply IH; lia|]. intros [] m' H'. simpl in H'.
  rewrite Nat2Z.inj_succ. by apply filled_S; [lia|].
Qed.

(** ** The list of the free runs *)

Lemma member_valid rs m q l z :
  inv pool rs m -> -1 <= q < nslots -> l ≡ₚ members pool q rs -> z ∈ hdr pool q :: l -> valid pool z = true.
Proof.
  intros Hi Hq Hl [->|Hz]%elem_of_cons.
  - unfold hdr. case Z.eqb_spec; intros ?; eauto with slab. apply (valid_slot pool geo). lia.
  - rewrite Hl in Hz. apply elem_of_members in Hz as (i & r & Hin & _ & ->).
    pose proof (tiles_in _ _ _ _ _ (inv_tiles _ _ _ Hi) Hin). eauto with slab.
Qed.

(** The list in which a run is, split at it. *)
Lemma member_split r1 i r r2 q m :
  inv pool (r1 ++ [(i, r)] ++ r2) m -> queue_of r = Some q ->
  -1 <= q < nslots /\
  exists l1 l2, lst m (tag q) (hdr pool q) (l1 ++ page_at pool i :: l2)
    /\ l1 ++ page_at pool i :: l2 ≡ₚ members pool q (r1 ++ [(i, r)] ++ r2)
    /\ l1 ++ l2 ≡ₚ members pool q r1 ++ members pool q r2.
Proof.
  intros Hi Hq. assert (Hin : (i, r) ∈ r1 ++ [(i, r)] ++ r2) by (rewrite !elem_of_app; right; left; by left).
  assert (Hr : -1 <= q < nslots) by (eapply queue_range; [|exact Hq]; by eapply inv_runs). split; [done|].
  destruct (inv_lists _ _ _ Hi q Hr) as (l & Hl & Hp).
  assert (Hx : page_at pool i ∈ l) by (rewrite Hp; apply elem_of_members; by exists i, r).
  apply list_elem_of_split in Hx as (l1 & l2 & ->). exists l1, l2. split_and!; [done|done|].
  rewrite members_app in Hp. cbn [app] in Hp. rewrite members_cons in Hp. rewrite decide_True in Hp by done. simpl in Hp.
  by apply Permutation_app_inv in Hp.
Qed.

(** The places of the runs around [mid]. *)
Lemma inv_places r1 mid r2 m :
  inv pool (r1 ++ mid ++ r2) m -> exists a b, tiles 0 r1 a /\ tiles a mid b /\ tiles b r2 (npages pool).
Proof.
  intros [Ht _ _]. apply runs_app in Ht as (a & T1 & Ht). apply runs_app in Ht as (b & T2 & T3). eauto.
Qed.

(** A run after its first [n] pages are allocated. *)
Definition cut (i n k : Z) : list (Z * run) := (i, RBusy n) :: if k =? n then [] else [(i + n, RFree (k - n))].

Lemma tiles_cut i n k : 1 <= n <= k -> tiles i (cut i n k) (i + k).
Proof. intros Hn. unfold cut. simpl. split_and!; [done|lia|]. case Z.eqb_spec; simpl; intros; [lia|]. split_and!; lia. Qed.

(** The allocated pages, after the list has been changed. *)
Definition mark_pages (page n : Z) : M Z :=
  set_slab pool page (Z.lor n NGX_SLAB_PAGE_START);;
  set_next pool page 0;;
  set_prev pool page NGX_SLAB_PAGE;;
  let n := n - 1 in
  if n =? 0 then mret page
  else busy_pages pool (page_add page 1) (Z.to_nat n);; mret page.

Record marked (i n : Z) (m m' : mem) : Prop := {
  m_busy : run_ok pool m' i (RBusy n);
  m_out z : (forall j, i <= j < i + n -> z <> page_at pool j) ->
            slab m' z = slab m z /\ next m' z = next m z /\ prev m' z = prev m z;
  m_word : word m' = word m;
  m_log : log m' = log m
}.

Lemma swp_mark_pages i n m :
  0 <= i -> 1 <= n -> i + n <= npages pool ->
  wp (mark_pages (page_at pool i) n) m (fun p m' => p = page_at pool i /\ marked i n m m').
Proof.
  intros Hi Hn Hin. unfold mark_pages. repeat s_step. cbv zeta. set (m1 := put_prev _ _ _).
  assert (Hm1 : slab m1 (page_at pool i) = Z.lor n NGX_SLAB_PAGE_START /\ next m1 (page_at pool i) = 0 /\ prev m1 (page_at pool i) = 0)
    by (unfold m1; cbn; by rewrite !upd_eq).
  assert (Hout : forall z, z <> page_at pool i -> slab m1 z = slab m z /\ next m1 z = next m z /\ prev m1 z = prev m z)
    by (intros z Hz; unfold m1; cbn; by rewrite !upd_ne).
  case Z.eqb_spec; intros Hn1.
  - apply swp_ret. split; [done|]. split; try done; [|intros z Hz; apply Hout, Hz; lia].
    destruct Hm1 as (? & ? & ?). split_and!; try done. lia.
  - apply swp_bind. rewrite page_add_at by done. eapply swp_mono; [apply swp_busy_pages; lia|]. intros [] m' [Fin Fout Fw Fg].
    apply swp_ret. split; [done|]. rewrite Z2Nat.id in * by lia.
    assert (E : slab m' (page_at pool i) = slab m1 (page_at pool i) /\ next m' (page_at pool i) = next m1 (page_at pool i) /\ prev m' (page_at pool i) = prev m1 (page_at pool i)).
    { apply Fout. intros j Hj E. apply (page_at_inj pool geo) in E. lia. }
    split; [| |done|done].
    + destruct E as (E1 & E2 & E3), Hm1 as (? & ? & ?). split_and!; [congruence..|]. intros _. apply Fin. lia.
    + intros z Hz. destruct (Fout z) as (-> & -> & ->); [intros j Hj; apply Hz; lia|]. apply Hout, Hz. lia.
Qed.

Definition rest_of (i n k : Z) : list Z := if k =? n then [] else [page_at pool (i + n)].

Lemma members_cut i n k : members pool (-1) (cut i n k) = rest_of i n k.
Proof. unfold cut, rest_of. rewrite members_cons, decide_False by done. case_match; [done|]. by rewrite members_cons, decide_True. Qed.

(** The run at [i] with its list, when its first [n] pages are about to be allocated. *)
Record at_free (r1 : list (Z * run)) (i k : Z) (r2 : list (Z * run)) (l1 l2 : list Z) (m : mem) : Prop := {
  af_inv : inv pool (r1 ++ [(i, RFree k)] ++ r2) m;
  af_lst : lst m 0 (free_at pool) (l1 ++ page_at pool i :: l2);
  af_mem : l1 ++ page_at pool i :: l2 ≡ₚ members pool (-1) (r1 ++ [(i, RFree k)] ++ r2);
  af_rest : l1 ++ l2 ≡ₚ members pool (-1) r1 ++ members pool (-1) r2;
  af_before : tiles 0 r1 i;
  af_after : tiles (i + k) r2 (npages pool);
  af_len : 0 < k;
  af_in : 0 <= i /\ i + k <= npages pool;
  af_ok : run_ok pool m i (RFree k);
  af_valid z : z ∈ free_at pool :: l1 ++ page_at pool i :: l2 -> valid pool z = true;
  af_body j : i < j < i + k -> page_at pool j ∉ free_at pool :: l1 ++ page_at pool i :: l2;
  af_first : page_at pool i ∉ free_at pool :: l1 ++ l2
}.

Lemma at_free_intro r1 i k r2 m : inv pool (r1 ++ [(i, RFree k)] ++ r2) m -> exists l1 l2, at_free r1 i k r2 l1 l2 m.
Proof.
  intros Hi. destruct (member_split r1 i (RFree k) r2 (-1) m Hi eq_refl) as (Hq & l1 & l2 & Hl & Hp & Hpr). exists l1, l2.
  destruct (inv_places _ _ _ _ Hi) as (a & b & T1 & (-> & Hk & <-) & T2). simpl in Hk, T2.
  pose proof (tiles_le _ _ _ T1). pose proof (tiles_le _ _ _ T2).
  assert (Hin : (a, RFree k) ∈ r1 ++ [(a, RFree k)] ++ r2) by (rewrite !elem_of_app; right; left; by left).
  split; try done.
  - by eapply inv_runs.
  - intros z Hz. by eapply member_valid.
  - intros j Hj Hjn. destruct (listed_page pool geo _ _ (-1) _ j a (RFree k) Hi Hq Hp Hin) as [-> _]; [simpl; lia|done|lia].
  - destruct Hl as [Hnd _]. rewrite <- Permutation_middle in Hnd. intros Hx. rewrite !NoDup_cons in Hnd. set_solver.
Qed.

(** The list is changed: the pages are marked. *)
Lemma swp_take_rest r1 i k r2 n l1 l2 m m1 :
  at_free r1 i k r2 l1 l2 m -> 1 <= n <= k ->
  lst m1 0 (free_at pool) (l1 ++ rest_of i n k ++ l2) -> (n < k -> run_ok pool m1 (i + n) (RFree (k - n))) ->
  (forall j, ~ (i <= j < i + k) -> slab m1 (page_at pool j) = slab m (page_at pool j)) ->
  word m1 = word m -> log m1 = log m ->
  (forall z, z ∉ free_at pool :: l1 ++ page_at pool i :: l2 -> (forall j, i <= j < i + k -> z <> page_at pool j) ->
             next m1 z = next m z /\ prev m1 z = prev m z) ->
  wp (mark_pages (page_at pool i) n) m1
    (fun p m' => p = page_at pool i /\ inv pool (r1 ++ cut i n k ++ r2) m' /\ word m' = word m /\ log m' = log m).
Proof.
  intros F Hn Hl1 Hfree Hs1 Hw1 Hg1 Hk1. destruct F as [Hi Hl Hp Hpr T1 T2 Hk [Ha Hb] _ _ Hbody Hfirst].
  eapply swp_mono; [apply swp_mark_pages; lia|]. intros p m' [-> [Mb Mo Mw Mg]].
  split; [done|]. split; [|split; congruence].
  assert (Hpg : forall u z, z = page_at pool u -> ~ (i <= u < i + n) -> slab m' z = slab m1 z /\ next m' z = next m1 z /\ prev m' z = prev m1 z).
  { intros u z -> Hu. apply Mo. intros j Hj E. apply (page_at_inj pool geo) in E. lia. }
  eapply (run_step pool geo r1 [(i, RFree k)] r2 (cut i n k) i (i + k) (-1) _ (l1 ++ rest_of i n k ++ l2) m).
  - done.
  - done.
  - simpl. lia.
  - done.
  - by apply tiles_cut.
  - done.
  - exact Hp.
  - eapply (lst_frame m1); [|done]. intros z Hz. apply Mo. intros j Hj ->.
    change (hdr pool (-1)) with (free_at pool) in Hz.
    assert (Hz' : page_at pool j ∈ free_at pool :: l1 ++ l2 \/ page_at pool j ∈ rest_of i n k).
    { rewrite !elem_of_cons, !elem_of_app in Hz. rewrite elem_of_cons, elem_of_app. tauto. }
    destruct Hz' as [Hz'|Hz'].
    + destruct (decide (j = i)) as [->|]; [done|]. apply (Hbody j); [lia|]. set_solver.
    + unfold rest_of in Hz'. case_match; [by apply elem_of_nil in Hz'|]. apply list_elem_of_singleton, (page_at_inj pool geo) in Hz'. lia.
  - rewrite !members_app, members_cut, (Permutation_app_swap_app l1), Hpr. apply Permutation_app_swap_app.
  - intros j r [E|Hin]%elem_of_cons; [by simplify_eq|]. case (Z.eqb_spec k n) in *; [by apply elem_of_nil in Hin|].
    apply list_elem_of_singleton in Hin. simplify_eq. destruct Hfree as [F1 F2]; [lia|].
    split; [destruct (Hpg (i + n) _ eq_refl) as (-> & _ & _); [lia|done]|]. intros Hk2. destruct (F2 Hk2) as [F3 F4].
    destruct (Hpg (i + n + (k - n) - 1) _ eq_refl) as (-> & _ & ->); [lia|]. done.
  - intros j r Hin. apply elem_of_app in Hin as [Hin|Hin].
    + apply list_elem_of_singleton in Hin. simplify_eq. by right.
    + unfold cut in Hin. apply elem_of_cons in Hin as [E|Hin]; [simplify_eq; by left|]. case_match; [by apply elem_of_nil in Hin|].
      apply list_elem_of_singleton in Hin. simplify_eq. by right.
  - intros j Hj Hout. destruct (Hpg j _ eq_refl) as (-> & _ & _); [lia|]. by apply Hs1.
  - intros w _. congruence.
  - intros z Hz Hpz. destruct (Mo z) as (_ & -> & ->); [intros j Hj; apply Hpz; lia|]. by apply Hk1.
Qed.

Lemma swp_take_pages r1 i k r2 n m :
  inv pool (r1 ++ [(i, RFree k)] ++ r2) m -> 1 <= n <= k ->
  wp (take_pages pool (page_at pool i) n) m
    (fun p m' => p = page_at pool i /\ inv pool (r1 ++ cut i n k ++ r2) m' /\ word m' = word m /\ log m' = log m).
Proof.
  intros Hi Hn. destruct (at_free_intro _ _ _ _ _ Hi) as (l1 & l2 & F). pose proof F as [_ Hl Hp Hpr T1 T2 Hk [Ha Hb] [Hs Hlast] Hv Hbody Hfirst].
  destruct (lst_at _ _ _ _ _ _ Hl) as (Hpx & Hnx & Hqx). rewrite Z.lor_0_r in Hpx.
  pose proof (last_in l1 (free_at pool)) as Hqin. pose proof (hd_in l2 (free_at pool)) as Hyin.
  set (q := List.last l1 (free_at pool)) in *. set (y := List.hd (free_at pool) l2) in *. set (x := page_at pool i) in *.
  assert (Hincl : forall z, z ∈ free_at pool :: l1 ++ l2 -> z ∈ free_at pool :: l1 ++ x :: l2)
    by (intros z; rewrite !elem_of_cons, !elem_of_app, elem_of_cons; tauto).
  assert (Hq' : q ∈ free_at pool :: l1 ++ l2) by (revert Hqin; rewrite !elem_of_cons, elem_of_app; tauto).
  assert (Hy' : y ∈ free_at pool :: l1 ++ l2) by (revert Hyin; rewrite !elem_of_cons, elem_of_app; tauto).
  assert (Hvq : valid pool q = true) by auto. assert (Hvy : valid pool y = true) by auto.
  assert (Hvx : valid pool x = true) by (apply Hv; rewrite elem_of_cons, elem_of_app; right; right; by left).
  assert (Hqy : x <> y) by (intros E; apply Hfirst; by rewrite E).
  assert (Hz' : forall z, z ∉ free_at pool :: l1 ++ x :: l2 -> z <> q /\ z <> y /\ z <> x /\ z ∉ free_at pool :: l1 ++ l2).
  { intros z Hz. split_and!; [intros ->; auto..|intros ->|auto]. apply Hz. rewrite elem_of_cons, elem_of_app. right; right; by left. }
  unfold take_pages. s_step. s_step. s_step. fold (mark_pages x n).
  pose proof (fun m1 => swp_take_rest r1 i k r2 n l1 l2 m m1 F Hn) as HK. fold x in HK.
  set (K := mark_pages x n) in *. clearbody K.
  rewrite Z.gtb_ltb. case Z.ltb_spec; intros Hkn.
  - set (u := page_at pool (i + n)). assert (Eu : page_add x n = u) by (by apply page_add_at).
    set (e := page_at pool (i + k - 1)). assert (Ee : page_add x (k - 1) = e) by (unfold e, x; rewrite page_add_at by done; f_equal; lia).
    assert (Hu : u ∉ free_at pool :: l1 ++ x :: l2) by (apply Hbody; lia). assert (He : e ∉ free_at pool :: l1 ++ x :: l2) by (apply Hbody; lia).
    destruct (Hz' u Hu) as (? & ? & ? & Hu'), (Hz' e He) as (? & ? & ? & He').
    assert (x <> u) by done. assert (x <> e) by done. assert (q <> u) by done. assert (y <> u) by done.
    assert (q <> e) by done. assert (y <> e) by done.
    assert (Hvu : valid pool u = true) by (unfold u; eauto with slab). assert (Hve : valid pool e = true) by (unfold e; eauto with slab).
    repeat (first [s_step | rewrite Eu | rewrite Ee]).
    apply HK.
    + unfold rest_of. rewrite (proj2 (Z.eqb_neq k n)) by lia. fold u.
      apply (lst_replace m _ 0 (free_at pool) l1 [x] l2 [u]); fold q y.
      * done.
      * apply NoDup_singleton.
      * by intros z ->%list_elem_of_singleton.
      * cbn [seg]. rewrite Z.lor_0_r. split_and!; s_look.
      * intros _. rewrite Z.lor_0_r. s_look.
      * intros z Hz Hzq. assert (z <> u) by (by intros ->). s_look.
      * intros z Hz Hzq. assert (z <> u) by (by intros ->). assert (z <> e) by (by intros ->). s_look.
    + intros _. split; [s_look|]. intros Hk1. replace (i + n + (k - n) - 1) with (i + k - 1) by lia. fold e u.
      assert (e <> u) by (intros E; apply (page_at_inj pool geo) in E; lia). split; [|intros _; s_look].
      cbn. rewrite upd_ne by done. apply Hlast. lia.
    + intros j Hj. cbn. apply upd_ne. intros E. apply (page_at_inj pool geo) in E. lia.
    + done.
    + done.
    + intros z Hz Hpz. assert (z <> u) by (apply Hpz; lia). assert (z <> e) by (apply Hpz; lia).
      destruct (Hz' z Hz) as (? & ? & _). split; s_look.
  - repeat s_step. assert (k = n) as -> by lia. apply HK; try done.
    + unfold rest_of. rewrite Z.eqb_refl. apply (lst_replace m _ 0 (free_at pool) l1 [x] l2 []); fold q y; try done.
      * apply NoDup_nil_2.
      * by intros z ?%elem_of_nil.
      * cbn [seg]. s_look.
      * intros _. cbn. rewrite Z.lor_0_r. apply upd_eq.
      * intros z Hz Hzq. s_look.
      * intros z Hz Hzq. s_look.
    + lia.
    + intros z Hz Hpz. destruct (Hz' z Hz) as (? & ? & _). split; s_look.
Qed.

(** ** Allocating pages *)

Lemma tiles_length i rs j : tiles i rs j -> i + Z.of_nat (length rs) <= j.
Proof.
  revert i. induction rs as [|[a r] rs IH]; intros i; simpl; [lia|]. intros (-> & Hl & Ht). apply IH in Ht. lia.
Qed.

(** What [ngx_slab_alloc_pages] does to the runs: nothing if no free run has [n] pages. *)
Definition pages_taken (rs : list (Z * run)) (n : Z) (m : mem) (p : Z) (m' : mem) : Prop :=
  exists r1 i k r2, rs = r1 ++ [(i, RFree k)] ++ r2 /\ n <= k /\ p = page_at pool i
    /\ inv pool (r1 ++ cut i n k ++ r2) m' /\ word m' = word m /\ log m' = log m.

Lemma free_split rs m x :
  inv pool rs m -> x ∈ members pool (-1) rs ->
  exists r1 i k r2, rs = r1 ++ [(i, RFree k)] ++ r2 /\ x = page_at pool i /\ slab m x = k /\ 0 <= i.
Proof.
  intros Hi Hx. apply elem_of_members in Hx as (i & r & Hin & Hq & ->). pose proof (inv_runs _ _ _ Hi i r Hin) as Hr.
  pose proof (tiles_in _ _ _ _ _ (inv_tiles _ _ _ Hi) Hin) as (? & _).
  destruct r as [k|k|k|sh B]; simpl in Hq; try done.
  - apply list_elem_of_split in Hin as (r1 & r2 & ->). exists r1, i, k, r2. by destruct Hr.
  - exfalso. destruct Hr as (? & _). case_match; simplify_eq. lia.
Qed.

Lemma swp_alloc_pages_loop rs n m (fuel : nat) l1 l2 :
  inv pool rs m -> 1 <= n -> lst m 0 (free_at pool) (l1 ++ l2) -> l1 ++ l2 ≡ₚ members pool (-1) rs ->
  (length l2 < fuel)%nat ->
  wp (alloc_pages_loop pool fuel (List.hd (free_at pool) l2) n) m
    (fun r m' => match r with
                 | Some p => pages_taken rs n m p m'
                 | None => m' = m /\ forall x, x ∈ l2 -> slab m x < n
                 end).
Proof.
  intros Hi Hn. revert l1 l2. induction fuel as [|fuel IH]; intros l1 l2 Hl Hp Hf; [lia|]. cbn [alloc_pages_loop].
  destruct l2 as [|x l2]; simpl List.hd.
  - rewrite Z.eqb_refl. apply swp_ret. split; [done|]. by intros x ?%elem_of_nil.
  - assert (Hx : x ∈ members pool (-1) rs) by (rewrite <- Hp, elem_of_app; right; by left).
    destruct (free_split _ _ _ Hi Hx) as (r1 & i & k & r2 & E & Ex & Hk & Hi0).
    rewrite (proj2 (Z.eqb_neq x (free_at pool))) by (subst x; by apply page_not_free).
    assert (Hv : valid pool x = true) by (eapply (member_valid rs m (-1)); [done|unfold nslots; lia|exact Hp|rewrite elem_of_cons, elem_of_app; right; right; by left]).
    s_step. s_step. rewrite Z.geb_leb. case Z.leb_spec; intros Hkn.
    + s_step. subst rs x. eapply swp_mono; [apply (swp_take_pages r1 i k r2); [done|lia]|]. intros p m' (-> & Hi' & Hw & Hg).
      apply swp_ret. exists r1, i, k, r2. done.
    + s_step. destruct (lst_at _ _ _ _ _ _ Hl) as (_ & Hnx & _). s_step.
      eapply swp_mono; [apply (IH (l1 ++ [x]) l2)|].
      * by rewrite <- app_assoc.
      * by rewrite <- app_assoc.
      * simpl in Hf. lia.
      * intros [p|] m' H'; [done|]. destruct H' as [-> H']. split; [done|]. intros z [->|Hz]%elem_of_cons; [lia|auto].
Qed.

Lemma swp_alloc_pages rs n m :
  inv pool rs m -> 1 <= n ->
  wp (ngx_slab_alloc_pages pool n) m
    (fun p m' => pages_taken rs n m p m' \/
       (p = 0 /\ (forall i k, (i, RFree k) ∈ rs -> k < n) /\
        m' = mkMem (slab m) (next m) (prev m) (word m) ((if log_nomem pool then [NoMemory] else []) ++ log m))).
Proof.
  intros Hi Hn. unfold ngx_slab_alloc_pages.
  destruct (inv_lists _ _ _ Hi (-1)) as (l & Hl & Hp); [unfold nslots; lia|].
  change (tag (-1)) with 0 in Hl. change (hdr pool (-1)) with (free_at pool) in Hl.
  assert (Hh : next m (free_at pool) = List.hd (free_at pool) l) by (destruct Hl as [_ Hs]; by destruct l; apply Hs).
  s_step. s_step. s_step. eapply swp_mono; [apply (swp_alloc_pages_loop rs n m (list_fuel pool) [] l Hi Hn Hl Hp)|].
  - rewrite Hp. unfold members. rewrite length_fmap. unfold list_fuel. fold (npages pool).
    pose proof (tiles_length _ _ _ (inv_tiles _ _ _ Hi)). pose proof (length_filter (fun x : Z * run => queue_of x.2 = Some (-1)) rs). lia.
  - intros [p|] m'; [intros H'; apply swp_ret; by left|]. intros [-> Hall]. apply swp_bind.
    assert (Hno : forall i k, (i, RFree k) ∈ rs -> k < n).
    { intros i k Hin. destruct (inv_runs _ _ _ Hi i (RFree k) Hin) as [E _]. rewrite <- E at 1. apply Hall. rewrite Hp. apply elem_of_members. by exists i, (RFree k). }
    destruct (log_nomem pool); [apply swp_error|apply swp_ret]; apply swp_ret; right; split_and!; try done. by destruct m.
Qed.

(** The log does not matter. *)
Lemma inv_log rs m g : inv pool rs m -> inv pool rs (mkMem (slab m) (next m) (prev m) (word m) g).
Proof.
  intros [H1 H2 H3]. split; [done| |].
  - intros i r Hin. apply (run_ok_frame pool m); [by apply (tiles_in _ _ _ _ _ H1 Hin)|done..|by apply H2].
  - intros q Hq. destruct (H3 q Hq) as (l & Hl & Hp). exists l. split; [|done]. apply (lst_frame m); done.
Qed.

(** ** Freeing pages *)

Definition solid (rs : list (Z * run)) : Prop := forall i k, (i, RLoose k) ∉ rs.

Lemma type_of_range sh : 1 <= type_of sh <= 3.
Proof. unfold type_of, NGX_SLAB_SMALL, NGX_SLAB_EXACT, NGX_SLAB_BIG. repeat case_match; lia. Qed.

Lemma tag_range q : 0 <= tag q < 4.
Proof. unfold tag, NGX_SLAB_PAGE. case_match; [lia|]. pose proof (type_of_range (q + 3)). lia. Qed.

(** A page in a list has a successor. *)
Lemma listed_next rs m i r q :
  inv pool rs m -> (i, r) ∈ rs -> queue_of r = Some q ->
  next m (page_at pool i) <> 0 /\ Z.land (prev m (page_at pool i)) NGX_SLAB_PAGE_MASK = tag q.
Proof.
  intros Hi Hin Hq. apply list_elem_of_split in Hin as (r1 & r2 & ->).
  destruct (member_split r1 i r r2 q m Hi Hq) as (Hr & l1 & l2 & Hl & Hp & _).
  destruct (lst_at _ _ _ _ _ _ Hl) as (Hpx & Hnx & _). split.
  - assert (Hv : valid pool (List.hd (hdr pool q) l2) = true).
    { eapply (member_valid _ _ q); [exact Hi|done|exact Hp|]. pose proof (hd_in l2 (hdr pool q)) as Hh.
      revert Hh. rewrite !elem_of_cons, elem_of_app, elem_of_cons. tauto. }
    apply (valid_aligned pool geo) in Hv. lia.
  - assert (Hv : valid pool (List.last l1 (hdr pool q)) = true).
    { eapply (member_valid _ _ q); [exact Hi|done|exact Hp|]. pose proof (last_in l1 (hdr pool q)) as Hh.
      revert Hh. rewrite !elem_of_cons, elem_of_app. tauto. }
    rewrite Hpx. apply mask_tag; [apply (valid_aligned pool geo _ Hv)|apply tag_range].
Qed.

(** The type of the first page of a run. *)
Lemma first_page rs m i r :
  inv pool rs m -> (i, r) ∈ rs ->
  match r with
  | RFree _ => Z.land (prev m (page_at pool i)) NGX_SLAB_PAGE_MASK = NGX_SLAB_PAGE /\ next m (page_at pool i) <> 0
  | RBusy _ => Z.land (prev m (page_at pool i)) NGX_SLAB_PAGE_MASK = NGX_SLAB_PAGE /\ next m (page_at pool i) = 0
  | RLoose _ => True
  | RSlab sh B => Z.land (prev m (page_at pool i)) NGX_SLAB_PAGE_MASK = type_of sh
                  /\ (next m (page_at pool i) = 0 <-> full sh B = true)
  end.
Proof.
  intros Hi Hin. pose proof (inv_runs _ _ _ Hi i r Hin) as Hr. destruct r as [k|k|k|sh B]; [| |done|].
  - destruct (listed_next _ _ _ _ (-1) Hi Hin eq_refl). done.
  - destruct Hr as (_ & -> & -> & _). done.
  - destruct (full sh B) eqn:Ef.
    + destruct Hr as (_ & _ & _ & _ & Hfull). destruct (Hfull Ef) as [-> ->]. split; [|done].
      pose proof (type_of_range sh). rewrite mask_mod. apply Z.mod_small. lia.
    + destruct (listed_next _ _ _ _ (sh - 3) Hi Hin) as [Hn ->]; [simpl; by rewrite Ef|]. split; [|done].
      unfold tag. destruct Hr as (? & _). rewrite (proj2 (Z.eqb_neq (sh - 3) (-1))) by lia. f_equal. lia.
Qed.

(** A step that only moves a run out of its list or leaves the lists alone. *)
Lemma inv_loosen r1 i r k r2 m m' l1 l2 q :
  inv pool (r1 ++ [(i, r)] ++ r2) m -> queue_of r = Some q -> len r = k ->
  l1 ++ page_at pool i :: l2 ≡ₚ members pool q (r1 ++ [(i, r)] ++ r2) -> l1 ++ l2 ≡ₚ members pool q r1 ++ members pool q r2 ->
  lst m' (tag q) (hdr pool q) (l1 ++ l2) -> run_ok pool m' i (RLoose k) ->
  (forall j, ~ (i <= j < i + k) -> slab m' (page_at pool j) = slab m (page_at pool j)) -> word m' = word m ->
  (forall z, z ∉ hdr pool q :: l1 ++ page_at pool i :: l2 -> next m' z = next m z /\ prev m' z = prev m z) ->
  inv pool (r1 ++ [(i, RLoose k)] ++ r2) m'.
Proof.
  intros Hi Hq Hk Hp Hpr Hl Hr Hs Hw Hlinks.
  destruct (inv_places _ _ _ _ Hi) as (a & b & T1 & To & T2). pose proof To as (E & Hlen & Eb). simpl in Eb. subst.
  eapply (run_step pool geo r1 [(a, r)] r2 [(a, RLoose (len r))] a (a + len r) q _ (l1 ++ l2) m); try done.
  - eapply queue_range; [|exact Hq]. eapply inv_runs; [exact Hi|]. rewrite !elem_of_app. right; left; by left.
  - rewrite members_app. cbn [app]. by rewrite members_cons, decide_False by done.
  - intros j r' Hin. apply list_elem_of_singleton in Hin. by simplify_eq.
  - intros j r' [Hin|Hin]%elem_of_app; apply list_elem_of_singleton in Hin; simplify_eq; [by right|by left].
  - intros j _. apply Hs.
  - intros. congruence.
  - intros z Hz _. by apply Hlinks.
Qed.

(** The memory after the run at [i] has left the list of the free runs, its first page
    cleared and its length added to that of the page [p]. *)
Record absorbed (l : list Z) (p v c : Z) (m m' : mem) : Prop := {
  ab_lst : lst m' 0 (free_at pool) l;
  ab_slab : slab m' = upd (upd (slab m) (page_at pool p) v) (page_at pool c) 0;
  ab_word : word m' = word m;
  ab_log : log m' = log m;
  ab_links z : z ∉ free_at pool :: l -> z <> page_at pool c -> next m' z = next m z /\ prev m' z = prev m z
}.

Lemma swp_absorb {X} r1 i k r2 l1 l2 m p v c (K : M X) Q :
  at_free r1 i k r2 l1 l2 m -> 0 <= p < npages pool -> 0 <= c < npages pool ->
  page_at pool c ∉ free_at pool :: l1 ++ l2 ->
  (forall m', absorbed (l1 ++ l2) p v c m m' -> wp K m' Q) ->
  wp (set_slab pool (page_at pool p) v;; unlink pool (page_at pool i);;
      set_slab pool (page_at pool c) NGX_SLAB_PAGE_FREE;; set_next pool (page_at pool c) 0;;
      set_prev pool (page_at pool c) NGX_SLAB_PAGE;; K) m Q.
Proof.
  intros F Hp Hc Hcn HK. apply swp_bind. apply swp_set_slab; [eauto with slab|].
  apply swp_bind. eapply swp_mono; [apply (swp_unlink pool geo 0 (free_at pool) l1 _ l2); [lia| |apply (af_valid _ _ _ _ _ _ _ F)]|].
  - eapply (lst_frame m); [done|apply (af_lst _ _ _ _ _ _ _ F)].
  - intros [] m1 [Hl1 [Es Ew Eg Elinks]]. do 6 s_step. apply HK. split.
    + eapply (lst_frame m1); [|done]. intros z Hz. assert (z <> page_at pool c) by (by intros ->). split; s_look.
    + cbn. by rewrite Es.
    + cbn. by rewrite Ew.
    + cbn. by rewrite Eg.
    + intros z Hz Hzc. cbn [next prev put_slab put_next put_prev]. rewrite !upd_ne by done. by apply Elinks.
Qed.

(** The new run in place of two. *)
Lemma inv_absorb r1 old r2 i j k' k m m' l1 l2 a1 a2 :
  at_free a1 j k' a2 l1 l2 m -> a1 ++ [(j, RFree k')] ++ a2 = r1 ++ old ++ r2 ->
  tiles 0 r1 i -> tiles i old (i + k) -> tiles (i + k) r2 (npages pool) -> i <= j < i + k ->
  (forall b r, (b, r) ∈ old -> queue_of r = None \/ queue_of r = Some (-1)) ->
  l1 ++ l2 ≡ₚ members pool (-1) r1 ++ members pool (-1) r2 ->
  lst m' 0 (free_at pool) (l1 ++ l2) -> run_ok pool m' i (RLoose k) ->
  (forall b, ~ (i <= b < i + k) -> slab m' (page_at pool b) = slab m (page_at pool b)) -> word m' = word m ->
  (forall z, z ∉ free_at pool :: l1 ++ l2 -> (forall b, i <= b < i + k -> z <> page_at pool b) ->
             next m' z = next m z /\ prev m' z = prev m z) ->
  inv pool (r1 ++ [(i, RLoose k)] ++ r2) m'.
Proof.
  intros F E T1 To T2 Hj Hq Hpr Hl Hr Hs Hw Hlinks. destruct F as [Hi _ Hp]. rewrite E in Hi, Hp.
  eapply (run_step pool geo r1 old r2 [(i, RLoose k)] i (i + k) (-1) _ (l1 ++ l2) m); try done.
  - simpl. lia.
  - rewrite members_app. cbn [app]. by rewrite members_cons, decide_False by done.
  - intros b r Hin. apply list_elem_of_singleton in Hin. by simplify_eq.
  - intros b r [Hin|Hin]%elem_of_app; [by eapply Hq|]. apply list_elem_of_singleton in Hin. simplify_eq. by left.
  - intros b _. apply Hs.
  - intros. congruence.
  - intros z Hz Hb. apply Hlinks; [|done]. change (hdr pool (-1)) with (free_at pool) in Hz. revert Hz.
    rewrite !elem_of_cons, !elem_of_app, elem_of_cons. tauto.
Qed.

Definition join_after (k : Z) (rs : list (Z * run)) : Z * list (Z * run) :=
  match rs with (_, RFree k') :: rs' => (k + k', rs') | _ => (k, rs) end.

Lemma swp_join_next r1 i k r2 m :
  inv pool (r1 ++ [(i, RLoose k)] ++ r2) m -> solid r2 ->
  wp (join_next pool (page_at pool i) (k - 1)) m
    (fun n m' => let '(k', r2') := join_after k r2 in
       n = k' - 1 /\ inv pool (r1 ++ [(i, RLoose k')] ++ r2') m' /\ word m' = word m /\ log m' = log m).
Proof.
  intros Hi Hsol. destruct (inv_places _ _ _ _ Hi) as (a & b & T1 & (-> & Hk & <-) & T2). simpl in Hk, T2.
  pose proof (tiles_le _ _ _ T1). pose proof (tiles_le _ _ _ T2).
  destruct (inv_runs _ _ _ Hi a (RLoose k)) as [Hs Hlast]; [rewrite !elem_of_app; right; left; by left|].
  assert (Hva : valid pool (page_at pool a) = true) by (apply (valid_page pool geo); lia).
  unfold join_next. s_step. s_step. rewrite page_add_at by done.
  assert (Elt : (page_at pool (a + k) <? last pool) = (a + k <? npages pool)).
  { rewrite (g_last pool geo). unfold page_at. destruct widths as [(_ & _ & ->)|(_ & _ & ->)]; case Z.ltb_spec; case Z.ltb_spec; lia. }
  rewrite Elt. destruct r2 as [|[j r] r2]; simpl in T2.
  { rewrite (proj2 (Z.ltb_ge _ _)) by lia. apply swp_ret. done. }
  destruct T2 as (-> & Hr & T2). pose proof (tiles_le _ _ _ T2). rewrite (proj2 (Z.ltb_lt _ _)) by lia.
  assert (Hin : (a + k, r) ∈ r1 ++ [(a, RLoose k)] ++ (a + k, r) :: r2) by (rewrite !elem_of_app; right; right; by left).
  assert (Hv : valid pool (page_at pool (a + k)) = true) by (apply (valid_page pool geo); lia).
  pose proof (first_page _ _ _ _ Hi Hin) as Hf. s_step. s_step.
  destruct r as [k'|k'|k'|sh B].
  - destruct Hf as [-> Hn]. rewrite Z.eqb_refl. s_step. s_step. rewrite (proj2 (Z.eqb_neq _ _)) by done. simpl negb. cbv iota.
    destruct (inv_runs _ _ _ Hi _ _ Hin) as [Hs' Hlast']. cbn [len] in *. do 4 s_step.
    assert (E : r1 ++ [(a, RLoose k)] ++ (a + k, RFree k') :: r2 = (r1 ++ [(a, RLoose k)]) ++ [(a + k, RFree k')] ++ r2) by (by rewrite <- app_assoc).
    rewrite E in Hi. destruct (at_free_intro _ _ _ _ _ Hi) as (l1 & l2 & F).
    eapply (swp_absorb _ _ _ _ _ _ _ _ _ _ _ _ F); [lia|lia|apply (af_first _ _ _ _ _ _ _ F)|]. intros m' [Hl Es Ew Eg Elinks].
    apply swp_ret. simpl. split; [lia|]. split; [|done].
    eapply (inv_absorb r1 [(a, RLoose k); (a + k, RFree k')] r2 a (a + k) k' (k + k') m m' l1 l2 _ _ F).
    + by rewrite <- app_assoc.
    + done.
    + simpl. split_and!; lia.
    + by rewrite Z.add_assoc.
    + lia.
    + intros b r. rewrite !elem_of_cons. intros [?|[?|?%elem_of_nil]]; simplify_eq; auto.
    + rewrite (af_rest _ _ _ _ _ _ _ F), members_app, (members_cons pool), decide_False by done. by rewrite !app_nil_r.
    + done.
    + unfold run_ok. rewrite Es. split.
      * rewrite upd_ne by (intros Ea; apply (page_at_inj pool geo) in Ea; lia). apply upd_eq.
      * intros _. unfold upd. case Z.eqb_spec; intros Ha; [done|]. case Z.eqb_spec; intros Hb; [apply (page_at_inj pool geo) in Hb; lia|].
        destruct (decide (k' = 1)) as [->|]; [exfalso; apply Ha; f_equal; lia|].
        replace (a + (k + k') - 1) with (a + k + k' - 1) by lia. apply Hlast'. lia.
    + intros b Hb. rewrite Es. rewrite !upd_ne by (intros Ea; apply (page_at_inj pool geo) in Ea; lia). done.
    + done.
    + intros z Hz Hb. apply Elinks; [done|]. apply Hb. lia.
  - destruct Hf as [-> Hn]. rewrite Z.eqb_refl. s_step. s_step. simpl. by apply swp_ret.
  - exfalso. apply (Hsol (a + k) k'). by left.
  - destruct Hf as [-> _]. pose proof (type_of_range sh). rewrite (proj2 (Z.eqb_neq _ _)) by (unfold NGX_SLAB_PAGE; lia). by apply swp_ret.
Qed.

Definition join_before (rs : list (Z * run)) (i k : Z) : list (Z * run) * Z * Z :=
  match list_basics.list.last rs with Some (j, RFree k') => (removelast rs, j, k' + k) | _ => (rs, i, k) end.

Lemma swp_join_into r1 j k' i k r2 m :
  inv pool ((r1 ++ [(j, RFree k')]) ++ [(i, RLoose k)] ++ r2) m ->
  wp (join_into pool (page_at pool j) (page_at pool i) (k - 1)) m
    (fun x m' => x = (page_at pool j, k' + k - 1) /\ inv pool (r1 ++ [(j, RLoose (k' + k))] ++ r2) m' /\ word m' = word m /\ log m' = log m).
Proof.
  intros Hi. destruct (inv_places _ _ _ _ Hi) as (a & b & T1 & (-> & Hk & <-) & T2). cbn [len] in *.
  apply runs_app in T1 as (j' & T1 & (-> & Hk' & T1')). cbn in T1', Hk'. subst a.
  pose proof (tiles_le _ _ _ T1). pose proof (tiles_le _ _ _ T2).
  destruct (inv_runs _ _ _ Hi (j' + k') (RLoose k)) as [Hs Hlast]; [rewrite !elem_of_app; right; left; by left|].
  assert (Hin : (j', RFree k') ∈ (r1 ++ [(j', RFree k')]) ++ [(j' + k', RLoose k)] ++ r2) by (rewrite !elem_of_app; left; right; by left).
  destruct (first_page _ _ _ _ Hi Hin) as [_ Hn]. destruct (inv_runs _ _ _ Hi _ _ Hin) as [Hs' _].
  assert (Hva : valid pool (page_at pool (j' + k')) = true) by (apply (valid_page pool geo); lia).
  assert (Hvj : valid pool (page_at pool j') = true) by (apply (valid_page pool geo); lia).
  unfold join_into. s_step. s_step. rewrite (proj2 (Z.eqb_neq _ _)) by done. simpl negb. cbv iota. do 4 s_step.
  pose proof Hi as Hi2. rewrite <- (app_assoc r1) in Hi2. destruct (at_free_intro _ _ _ _ _ Hi2) as (l1 & l2 & F).
  assert (Hjk : page_at pool (j' + k') ∉ free_at pool :: l1 ++ l2).
  { intros Hx. assert (Hx' : page_at pool (j' + k') ∈ hdr pool (-1) :: l1 ++ page_at pool j' :: l2)
      by (revert Hx; change (hdr pool (-1)) with (free_at pool); rewrite !elem_of_cons, !elem_of_app, elem_of_cons; tauto).
    destruct (listed_page pool geo _ _ (-1) _ (j' + k') (j' + k') (RLoose k) Hi2 ltac:(unfold nslots; lia) (af_mem _ _ _ _ _ _ _ F)) as [_ ?]; [|simpl; lia|done|done].
    rewrite !elem_of_app. right; right; left; by left. }
  eapply (swp_absorb _ _ _ _ _ _ _ _ _ _ _ _ F); [lia|lia|done|]. intros m' [Hl Es Ew Eg Elinks].
  apply swp_ret. split; [f_equal; lia|]. split; [|done].
  eapply (inv_absorb r1 [(j', RFree k'); (j' + k', RLoose k)] r2 j' j' k' (k' + k) m m' l1 l2 _ _ F).
  - done.
  - done.
  - simpl. split_and!; lia.
  - by rewrite Z.add_assoc.
  - lia.
  - intros b r. rewrite !elem_of_cons. intros [?|[?|?%elem_of_nil]]; simplify_eq; auto.
  - rewrite (af_rest _ _ _ _ _ _ _ F). cbn [app]. by rewrite (members_cons pool), decide_False by done.
  - done.
  - unfold run_ok. rewrite Es. split.
    + rewrite upd_ne by (intros Ea; apply (page_at_inj pool geo) in Ea; lia). rewrite upd_eq. lia.
    + intros _. unfold upd. case Z.eqb_spec; intros Ha; [done|]. case Z.eqb_spec; intros Hb; [apply (page_at_inj pool geo) in Hb; lia|].
      destruct (decide (k = 1)) as [->|]; [exfalso; apply Ha; f_equal; lia|].
      rewrite Z.add_assoc. apply Hlast. lia.
  - intros b Hb. rewrite Es. rewrite !upd_ne by (intros Ea; apply (page_at_inj pool geo) in Ea; lia). done.
  - done.
  - intros z Hz Hb. apply Elinks; [done|]. apply Hb. lia.
Qed.

Lemma swp_join_prev r1 i k r2 m :
  inv pool (r1 ++ [(i, RLoose k)] ++ r2) m -> solid r1 ->
  wp (join_prev pool (page_at pool i) (k - 1)) m
    (fun '(p, n) m' => let '(r1', i', k') := join_before r1 i k in
       p = page_at pool i' /\ n = k' - 1 /\ inv pool (r1' ++ [(i', RLoose k')] ++ r2) m' /\ word m' = word m /\ log m' = log m).
Proof.
  intros Hi Hsol. destruct (inv_places _ _ _ _ Hi) as (a & b & T1 & (-> & Hk & <-) & T2). simpl in Hk, T2.
  pose proof (tiles_le _ _ _ T1). pose proof (tiles_le _ _ _ T2).
  destruct (inv_runs _ _ _ Hi a (RLoose k)) as [Hs Hlast]; [rewrite !elem_of_app; right; left; by left|].
  assert (Hva : valid pool (page_at pool a) = true) by (apply (valid_page pool geo); lia).
  unfold join_prev, join_before.
  assert (Egt : (page_at pool a >? pages pool) = (0 <? a)).
  { unfold page_at. rewrite Z.gtb_ltb. destruct widths as [(_ & _ & ->)|(_ & _ & ->)]; case Z.ltb_spec; case Z.ltb_spec; lia. }
  rewrite Egt. destruct r1 as [|[j r] r1 _] using rev_ind; simpl in T1.
  { rewrite (proj2 (Z.ltb_ge 0 a)) by lia. apply swp_ret. done. }
  rewrite last_snoc, removelast_last. apply runs_app in T1 as (j' & T1 & (-> & Hr & T1')). simpl in T1'.
  pose proof (tiles_le _ _ _ T1). rewrite (proj2 (Z.ltb_lt 0 a)) by lia. rewrite page_add_at by done. change (a + -1) with (a - 1).
  assert (Hin : (j', r) ∈ (r1 ++ [(j', r)]) ++ [(a, RLoose k)] ++ r2) by (rewrite !elem_of_app; left; right; by left).
  assert (Hv : valid pool (page_at pool (a - 1)) = true) by (apply (valid_page pool geo); lia).
  assert (Hvj : valid pool (page_at pool j') = true) by (apply (valid_page pool geo); lia).
  pose proof (first_page _ _ _ _ Hi Hin) as Hf. pose proof (inv_runs _ _ _ Hi _ _ Hin) as Hok.
  destruct r as [k'|k'|k'|sh B]; cbn [len] in *.
  - assert (Hgo : wp (join_into pool (page_at pool j') (page_at pool a) (k - 1)) m
      (fun '(p, n) m' => p = page_at pool j' /\ n = k' + k - 1 /\ inv pool (r1 ++ [(j', RLoose (k' + k))] ++ r2) m' /\ word m' = word m /\ log m' = log m)).
    { eapply swp_mono; [by apply swp_join_into|]. by intros [p n] m' ([= -> ->] & ?). }
    destruct Hok as [Hs' Hl']. s_step. s_step. destruct (decide (k' = 1)) as [->|].
    + assert (j' = a - 1) as -> by lia. destruct Hf as [-> _]. rewrite Z.eqb_refl. s_step. s_step. done.
    + destruct Hl' as [Hl1 Hl2]; [lia|]. replace (j' + k' - 1) with (a - 1) in * by lia. specialize (Hl2 ltac:(lia)).
      pose proof (valid_aligned pool geo _ Hvj) as [_ Hal]. rewrite Hl2, mask_mod, Hal. simpl. do 4 s_step.
      rewrite untag_mod, Hal, Z.sub_0_r. done.
  - destruct Hok as (Hs' & Hn' & Hp' & Hl'). s_step. s_step.
    assert (Hlast1 : slab m (page_at pool (a - 1)) <> 0 /\ next m (page_at pool (a - 1)) = 0 /\ prev m (page_at pool (a - 1)) = 0).
    { destruct (decide (k' = 1)) as [->|].
      - assert (j' = a - 1) as -> by lia. split_and!; try done. rewrite Hs'. unfold NGX_SLAB_PAGE_START. by case_match.
      - destruct Hl' as (B1 & B2 & B3); [lia|]. replace (j' + k' - 1) with (a - 1) in * by lia. split_and!; try done. rewrite B1.
        unfold NGX_SLAB_PAGE_BUSY. by case_match. }
    destruct Hlast1 as (B1 & B2 & ->). simpl. s_step. s_step. rewrite (proj2 (Z.eqb_neq _ _)) by done.
    unfold join_into. s_step. s_step. simpl. by apply swp_ret.
  - exfalso. apply (Hsol j' k'). rewrite elem_of_app. right. by left.
  - assert (j' = a - 1) as -> by lia. destruct Hf as [Hf _]. s_step. s_step. rewrite Hf. pose proof (type_of_range sh). rewrite (proj2 (Z.eqb_neq _ _)) by (unfold NGX_SLAB_PAGE; lia). by apply swp_ret.
Qed.

Lemma swp_push_free r1 i k r2 m :
  inv pool (r1 ++ [(i, RLoose k)] ++ r2) m ->
  wp (push_free pool (page_at pool i) (k - 1)) m
    (fun _ m' => inv pool (r1 ++ [(i, RFree k)] ++ r2) m' /\ word m' = word m /\ log m' = log m).
Proof.
  intros Hi. destruct (inv_places _ _ _ _ Hi) as (a & b & T1 & (-> & Hk & <-) & T2). cbn [len] in *.
  pose proof (tiles_le _ _ _ T1). pose proof (tiles_le _ _ _ T2).
  assert (Hin : (a, RLoose k) ∈ r1 ++ [(a, RLoose k)] ++ r2) by (rewrite !elem_of_app; right; left; by left).
  destruct (inv_runs _ _ _ Hi a (RLoose k) Hin) as [Hs Hlast].
  destruct (inv_lists _ _ _ Hi (-1)) as (l & Hl & Hp); [unfold nslots; lia|].
  change (tag (-1)) with 0 in Hl. change (hdr pool (-1)) with (free_at pool) in Hl.
  assert (Hh : next m (free_at pool) = List.hd (free_at pool) l) by (destruct Hl as [_ Hsg]; by destruct l; apply Hsg).
  assert (Hno : forall j, a <= j < a + k -> page_at pool j ∉ free_at pool :: l).
  { intros j Hj Hjn. by destruct (listed_page pool geo _ _ (-1) _ j a (RLoose k) Hi ltac:(unfold nslots; lia) Hp Hin Hj Hjn). }
  assert (Hv : forall z, z ∈ free_at pool :: l -> valid pool z = true) by (intros z Hz; eapply (member_valid _ _ (-1)); [exact Hi|unfold nslots; lia|exact Hp|done]).
  set (x := page_at pool a) in *. pose proof (hd_in l (free_at pool)) as Hy. set (y := List.hd (free_at pool) l) in *.
  assert (Hx : x ∉ free_at pool :: l) by (apply Hno; lia).
  assert (Hvx : valid pool x = true) by (apply (valid_page pool geo); lia). assert (Hvy : valid pool y = true) by auto.
  assert (Hvf : valid pool (free_at pool) = true) by (apply valid_free).
  assert (x <> y) by (intros E; apply Hx; by rewrite E). assert (x <> free_at pool) by (intros E; apply Hx; rewrite E; by left).
  assert (free_at pool <> x) by done.
  set (e := page_at pool (a + k - 1)). assert (Ee : page_add x (k - 1) = e) by (unfold e, x; rewrite page_add_at by done; f_equal; lia).
  assert (Hve : valid pool e = true) by (apply (valid_page pool geo); lia). assert (He : e ∉ free_at pool :: l) by (apply Hno; lia).
  assert (e <> y) by (intros E; apply He; by rewrite E).
  unfold push_free. rewrite Ee. s_step.
  assert (Hgo : forall m1, slab m1 = slab m -> next m1 = next m -> word m1 = word m -> log m1 = log m ->
    (forall z, z <> e -> prev m1 z = prev m z) -> (1 < k -> prev m1 e = x) ->
    wp (set_prev pool x (free_at pool);; fn ← get_next pool (free_at pool); set_next pool x fn;; pn ← get_next pool x; set_prev pool pn x;; set_next pool (free_at pool) x) m1
      (fun _ m' => inv pool (r1 ++ [(a, RFree k)] ++ r2) m' /\ word m' = word m /\ log m' = log m)).
  { intros m1 Es En Ew Eg Eprev Elast. rewrite <- En in Hh. repeat s_step. split; [|done].
    eapply (run_step pool geo r1 [(a, RLoose k)] r2 [(a, RFree k)] a (a + k) (-1) l (x :: l) m).
    - done.
    - done.
    - simpl. lia.
    - done.
    - simpl. lia.
    - unfold nslots; lia.
    - done.
    - change (hdr pool (-1)) with (free_at pool). change (tag (-1)) with 0. apply (lst_push m); fold y; try rewrite Z.lor_0_r; try done; try s_look.
      + intros z Hz. assert (z <> free_at pool) by (destruct Hl as [Hnd _]; apply NoDup_cons in Hnd as [? _]; by intros ->).
        assert (z <> x) by (intros ->; apply Hx; by right). cbn. rewrite !upd_ne by done. by rewrite En.
      + intros z Hz Hzy. assert (z <> x) by (intros ->; apply Hx; by right). cbn. rewrite !upd_ne by done. apply Eprev. intros ->. apply He. by right.
    - rewrite Hp, !members_app. cbn [app]. rewrite !(members_cons pool), decide_False, decide_True by done. simpl. apply Permutation_middle.
    - intros j r Hr. apply list_elem_of_singleton in Hr as [= -> ->]. split; [cbn; by rewrite Es|]. intros Hk1. cbn. rewrite Es. fold e. split; [by apply Hlast|].
      intros _. assert (e <> x) by (intros E; apply (page_at_inj pool geo) in E; lia). rewrite !upd_ne by done. by apply Elast.
    - intros j r. rewrite elem_of_app, !list_elem_of_singleton. intros [?|?]; simplify_eq; [by left|by right].
    - intros j _ _. cbn. by rewrite Es.
    - intros w _. cbn. by rewrite Ew.
    - intros z Hz Hb. change (hdr pool (-1)) with (free_at pool) in Hz. assert (z <> x) by (apply Hb; lia). assert (z <> e) by (apply Hb; lia).
      assert (z <> free_at pool) by (intros ->; apply Hz; by left). assert (z <> y) by (intros ->; done).
      cbn. rewrite !upd_ne by done. split; [by rewrite En|auto]. }
  destruct (Z.eqb_spec (k - 1) 0); simpl negb; cbv iota.
  - apply swp_ret. apply Hgo; try done. lia.
  - apply swp_set_prev; [done|]. apply Hgo; try done.
    + intros z Hz. cbn. by apply upd_ne.
    + intros _. apply upd_eq.
Qed.

(** The runs after [k] pages at [i] are freed. *)
Definition freed (r1 : list (Z * run)) (i k : Z) (r2 : list (Z * run)) : list (Z * run) :=
  let '(k, r2) := join_after k r2 in
  let '(r1, i, k) := join_before r1 i k in
  r1 ++ [(i, RFree k)] ++ r2.

(** An allocated run leaves no trace in its descriptors. *)
Lemma inv_loosen_busy r1 i k r2 m m1 m' :
  inv pool (r1 ++ [(i, RBusy k)] ++ r2) m -> m1 = put_slab (page_at pool i) k m ->
  filled 0 (i + 1) (k - 1) m1 m' ->
  inv pool (r1 ++ [(i, RLoose k)] ++ r2) m' /\ next m' (page_at pool i) = 0.
Proof.
  intros Hi -> [Fin Fout Fw Fg]. destruct (inv_places _ _ _ _ Hi) as (a & b & T1 & (-> & Hk & <-) & T2). cbn [len] in *.
  pose proof (tiles_le _ _ _ T1). pose proof (tiles_le _ _ _ T2).
  assert (Hin : (a, RBusy k) ∈ r1 ++ [(a, RBusy k)] ++ r2) by (rewrite !elem_of_app; right; left; by left).
  destruct (inv_runs _ _ _ Hi _ _ Hin) as (Hs & Hn & Hp & _).
  destruct (inv_lists _ _ _ Hi (-1)) as (l & Hl & Hm); [unfold nslots; lia|].
  assert (Hno : forall j, a <= j < a + k -> page_at pool j ∉ hdr pool (-1) :: l).
  { intros j Hj Hjn. by destruct (listed_page pool geo _ _ (-1) _ j a (RBusy k) Hi ltac:(unfold nslots; lia) Hm Hin Hj Hjn). }
  assert (Ha : forall j, a + 1 <= j < a + 1 + (k - 1) -> page_at pool a <> page_at pool j) by (intros j Hj E; apply (page_at_inj pool geo) in E; lia).
  destruct (Fout _ Ha) as (F1 & F2 & F3). cbn in F1, F2, F3. rewrite upd_eq in F1. split; [|congruence].
  eapply (run_step pool geo r1 [(a, RBusy k)] r2 [(a, RLoose k)] a (a + k) (-1) l l m); try done.
  - eapply (lst_frame m); [|exact Hl]. intros z Hz. destruct (Fout z) as (_ & -> & ->); [|done]. intros j Hj ->. apply (Hno j); [lia|done].
  - rewrite Hm, !members_app. cbn [app]. by rewrite !(members_cons pool), !decide_False by done.
  - intros j r Hr. apply list_elem_of_singleton in Hr as [= -> ->]. split; [done|]. intros Hk1. apply Fin. lia.
  - intros j r. rewrite elem_of_app, !list_elem_of_singleton. intros [?|?]; simplify_eq; by left.
  - intros j _ Hj. destruct (Fout (page_at pool j)) as (-> & _ & _); [intros u Hu E; apply (page_at_inj pool geo) in E; lia|].
    cbn. apply upd_ne. intros E. apply (page_at_inj pool geo) in E. lia.
  - intros w _. by rewrite Fw.
  - intros z Hz Hb. destruct (Fout z) as (_ & -> & ->); [intros j Hj; apply Hb; lia|done].
Qed.

Lemma swp_free_loose r1 i k r2 m :
  inv pool (r1 ++ [(i, RLoose k)] ++ r2) m -> solid r1 -> solid r2 ->
  wp (n ← join_next pool (page_at pool i) (k - 1); '(page, n) ← join_prev pool (page_at pool i) n; push_free pool page n) m
    (fun _ m' => inv pool (freed r1 i k r2) m' /\ word m' = word m /\ log m' = log m).
Proof.
  intros Hi S1 S2. unfold freed. apply swp_bind. eapply swp_mono; [by apply swp_join_next|]. intros n m1.
  destruct (join_after k r2) as [k1 r2']. intros (-> & Hi1 & Ew1 & Eg1).
  apply swp_bind. eapply swp_mono; [by apply swp_join_prev|]. intros [p n] m2. destruct (join_before r1 i k1) as [[r1' i'] k2].
  intros (-> & -> & Hi2 & Ew2 & Eg2). eapply swp_mono; [by apply swp_push_free|]. intros [] m3 (Hi3 & Ew3 & Eg3). split; [done|]. split; congruence.
Qed.

Lemma swp_free_busy r1 i k r2 m :
  inv pool (r1 ++ [(i, RBusy k)] ++ r2) m -> solid r1 -> solid r2 ->
  wp (ngx_slab_free_pages pool (page_at pool i) k) m
    (fun _ m' => inv pool (freed r1 i k r2) m' /\ word m' = word m /\ log m' = log m).
Proof.
  intros Hi S1 S2. destruct (inv_places _ _ _ _ Hi) as (a & b & T1 & (-> & Hk & <-) & T2). cbn [len] in *.
  pose proof (tiles_le _ _ _ T1). pose proof (tiles_le _ _ _ T2).
  unfold ngx_slab_free_pages. apply swp_bind, swp_set_slab; [eauto with slab|]. apply swp_bind.
  set (m1 := put_slab _ _ _). eapply (swp_mono _ _ (fun _ m' => filled 0 (a + 1) (k - 1) m1 m')).
  { case Z.eqb_spec; intros; simpl.
    - apply swp_ret. replace (k - 1) with 0 by lia. apply filled_0.
    - rewrite page_add_at by done. pose proof (swp_zero_pages (Z.to_nat (k - 1)) (a + 1) m1) as Hz. rewrite Z2Nat.id in Hz by lia. apply Hz; lia. }
  intros [] m2 F. destruct (inv_loosen_busy _ _ _ _ _ _ _ Hi eq_refl F) as [Hi2 Hn2].
  apply swp_bind. eapply swp_get_next; [eauto with slab|exact Hn2|]. simpl. apply swp_bind, swp_ret.
  eapply swp_mono; [by apply swp_free_loose|]. intros [] m3 (Hi3 & Ew & Eg). split; [done|].
  rewrite Ew, Eg, (f_word _ _ _ _ _ F), (f_log _ _ _ _ _ F). done.
Qed.

Lemma swp_free_slab r1 i sh B r2 m :
  inv pool (r1 ++ [(i, RSlab sh B)] ++ r2) m -> full sh B = false -> solid r1 -> solid r2 ->
  wp (ngx_slab_free_pages pool (page_at pool i) 1) m
    (fun _ m' => inv pool (freed r1 i 1 r2) m' /\ word m' = word m /\ log m' = log m).
Proof.
  intros Hi Hf S1 S2. assert (Hq : queue_of (RSlab sh B) = Some (sh - 3)) by (simpl; by rewrite Hf).
  destruct (inv_places _ _ _ _ Hi) as (a & b & T1 & (-> & _ & <-) & T2). cbn [len] in *.
  pose proof (tiles_le _ _ _ T1). pose proof (tiles_le _ _ _ T2).
  destruct (member_split _ _ _ _ _ _ Hi Hq) as (Hqr & l1 & l2 & Hl & Hp & Hpr).
  assert (Hin : (a, RSlab sh B) ∈ r1 ++ [(a, RSlab sh B)] ++ r2) by (rewrite !elem_of_app; right; left; by left).
  destruct (listed_next _ _ _ _ _ Hi Hin Hq) as [Hn _].
  unfold ngx_slab_free_pages. apply swp_bind, swp_set_slab; [eauto with slab|]. simpl. apply swp_bind, swp_ret. apply swp_bind.
  eapply swp_get_next; [eauto with slab|reflexivity|]. cbn [next put_slab]. rewrite (proj2 (Z.eqb_neq _ _)) by done. simpl. apply swp_bind.
  eapply swp_mono; [apply (swp_unlink pool geo (tag (sh - 3)) (hdr pool (sh - 3)) l1 _ l2)|].
  - apply tag_range.
  - by apply (lst_frame m).
  - intros z Hz. by eapply member_valid.
  - intros [] m2 [Hl2 [Es Ew Eg Elinks]]. eapply swp_mono; [apply (swp_free_loose r1 a 1 r2); [|done|done]|].
    + eapply (inv_loosen r1 a (RSlab sh B) 1 r2 m m2 l1 l2 (sh - 3)); try done.
      * split; [rewrite Es; cbn; apply upd_eq|lia].
      * intros j Hj. rewrite Es. cbn. apply upd_ne. intros E. apply (page_at_inj pool geo) in E. lia.
      * intros z Hz. apply (Elinks z). revert Hz. rewrite !elem_of_cons, !elem_of_app, elem_of_cons. tauto.
    + intros [] m3 (Hi3 & Ew3 & Eg3). split; [done|]. by rewrite Ew3, Eg3, Ew, Eg.
Qed.
End Pages.
End SlabPages.
