(* ===== verification/NgxSlabBits.v ===== *)
(** * The bitmaps of the slab allocator

    A bitmap is an integer [B] with a bit for each chunk of a page; the code of NgxSlab.v
    has it in one word, in half of a word or in an array of words. *)

From stdpp Require Import gmap fin_maps.
From S2P Require Import Prelude NgxSlab NgxSlabRep NgxSlabInv.

Module SlabBits.
Import Slab SlabRep SlabInv.

Lemma testbit_pow2 k i : 0 <= k -> Z.testbit (2 ^ k) i = (i =? k).
Proof.
  intros Hk. destruct (Z.eqb_spec i k) as [->|Hne]; [by apply Z.pow2_bits_true|by apply Z.pow2_bits_false].
Qed.

Lemma land_pow2 v k : 0 <= k -> (Z.land v (2 ^ k) =? 0) = negb (Z.testbit v k).
Proof.
  intros Hk. destruct (Z.testbit v k) eqn:E; simpl; [apply Z.eqb_neq|apply Z.eqb_eq].
  - intros H0. apply (f_equal (fun x => Z.testbit x k)) in H0. by rewrite Z.land_spec, testbit_pow2, Z.eqb_refl, E, Z.bits_0 in H0.
  - apply Z.bits_inj'. intros i Hi. rewrite Z.land_spec, testbit_pow2, Z.bits_0 by done.
    destruct (Z.eqb_spec i k) as [->|]; [by rewrite E|apply andb_false_r].
Qed.

Lemma bits_high v w i : 0 <= v < 2 ^ w -> 0 <= w <= i -> Z.testbit v i = false.
Proof.
  intros Hv Hi. rewrite <- (Z.mod_small v (2 ^ w)) by done. apply Z.mod_pow2_bits_high. lia.
Qed.

(** Numbers of [w] bits are equal when these bits are. *)
Lemma bits_eq w a b :
  0 <= w -> 0 <= a < 2 ^ w -> 0 <= b < 2 ^ w -> (forall i, 0 <= i < w -> Z.testbit a i = Z.testbit b i) -> a = b.
Proof.
  intros Hw Ha Hb H. apply Z.bits_inj'. intros i Hi. destruct (Z.ltb_spec i w); [apply H; lia|].
  rewrite !(bits_high _ w) by lia. done.
Qed.

Lemma ones_bound w : 0 <= w -> 0 <= Z.ones w < 2 ^ w.
Proof. intros. rewrite Z.ones_equiv. lia. Qed.

Lemma ones_iff w v :
  0 <= w -> 0 <= v < 2 ^ w -> v = Z.ones w <-> forall i, 0 <= i < w -> Z.testbit v i = true.
Proof.
  intros Hw Hv. split.
  - intros -> i Hi. by apply Z.ones_spec_low.
  - intros H. apply (bits_eq w); [done|done|by apply ones_bound|]. intros i Hi. rewrite H by done. by rewrite Z.ones_spec_low.
Qed.

(** A number that is not all ones has a clear bit. *)
Lemma clear_exists w v : 0 <= w -> 0 <= v < 2 ^ w -> v <> Z.ones w -> exists i, 0 <= i < w /\ Z.testbit v i = false.
Proof.
  intros Hw Hv Hne. destruct (decide (Forall (fun i => Z.testbit v (Z.of_nat i) = true) (seq 0 (Z.to_nat w)))) as [Hf|Hf].
  - exfalso. apply Hne, ones_iff; [done..|]. intros i Hi. rewrite Forall_forall in Hf.
    specialize (Hf (Z.to_nat i)). rewrite Z2Nat.id in Hf by lia. apply Hf. apply elem_of_seq. lia.
  - apply not_Forall_Exists in Hf; [|apply _]. apply Exists_exists in Hf as (i & Hi & Hb). apply elem_of_seq in Hi.
    exists (Z.of_nat i). split; [lia|]. by apply not_true_is_false.
Qed.

Lemma setbit_bounds w v c : 0 <= c < w -> 0 <= v < 2 ^ w -> 0 <= Z.setbit v c < 2 ^ w.
Proof.
  intros Hc Hv. assert (E : Z.setbit v c = Z.setbit v c mod 2 ^ w).
  { apply Z.bits_inj'. intros i Hi. destruct (Z.ltb_spec i w).
    - by rewrite Z.mod_pow2_bits_low.
    - rewrite Z.mod_pow2_bits_high, Z.setbit_neq, (bits_high v w) by lia. done. }
  rewrite E. apply Z.mod_pos_bound. lia.
Qed.

Lemma clearbit_bounds w v c : 0 <= c -> 0 <= w -> 0 <= v < 2 ^ w -> 0 <= Z.clearbit v c < 2 ^ w.
Proof.
  intros Hc Hw Hv. assert (E : Z.clearbit v c = Z.clearbit v c mod 2 ^ w).
  { apply Z.bits_inj'. intros i Hi. destruct (Z.ltb_spec i w).
    - by rewrite Z.mod_pow2_bits_low.
    - rewrite Z.mod_pow2_bits_high by lia. rewrite Z.clearbit_eqb, (bits_high v w) by lia. done. }
  rewrite E. apply Z.mod_pos_bound. lia.
Qed.

Lemma setbit_test v c i : 0 <= c -> 0 <= i -> Z.testbit (Z.setbit v c) i = (i =? c) || Z.testbit v i.
Proof. intros. rewrite Z.setbit_eqb by done. by rewrite Z.eqb_sym. Qed.

Lemma clearbit_test v c i : 0 <= c -> 0 <= i -> Z.testbit (Z.clearbit v c) i = negb (i =? c) && Z.testbit v i.
Proof. intros. rewrite Z.clearbit_eqb. rewrite Z.eqb_sym, andb_comm. done. Qed.

Lemma lor_setbit v c : 0 <= c -> Z.lor v (2 ^ c) = Z.setbit v c.
Proof. intros. by rewrite Z.setbit_spec'. Qed.

Lemma land_clearbit v c : 0 <= c -> Z.land v (Z.lnot (2 ^ c)) = Z.clearbit v c.
Proof. intros. by rewrite Z.clearbit_spec', Z.ldiff_land. Qed.

Section Bits.
Context {arch : Arch} {layout : SlabLayout}.
#[local] Existing Instance page_4k.

(** The loop finds the first clear bit from bit [o] on. *)
Lemma clear_bit_find go v o lim (fuel : nat) i :
  0 <= o -> 0 <= i -> o + lim <= ptr_bits -> (forall c, 0 <= c < lim -> go (2 ^ (o + c)) = true) ->
  (exists c, i <= c < lim /\ Z.testbit v (o + c) = false) -> lim - i <= Z.of_nat fuel ->
  exists c, clear_bit fuel go v (2 ^ (o + i)) i = Some (2 ^ (o + c), c) /\ i <= c < lim /\ Z.testbit v (o + c) = false.
Proof.
  intros Ho. revert i. induction fuel as [|fuel IH]; intros i Hi Hlim Hgo (c & Hc & Hb) Hf; [lia|]. cbn [clear_bit].
  rewrite Hgo by lia. rewrite land_pow2, negb_involutive by lia. destruct (Z.testbit v (o + i)) eqn:E.
  - assert (i <> c) by congruence.
    assert (Eu : uint ptr_bits (Z.shiftl (2 ^ (o + i)) 1) = 2 ^ (o + (i + 1))).
    { rewrite Z.shiftl_mul_pow2, <- Z.pow_add_r by lia. rewrite uint_small; [f_equal; lia|]. split; [lia|]. apply Z.pow_lt_mono_r; lia. }
    rewrite Eu. destruct (IH (i + 1)) as (d & Hd & Hd' & Hdb); [lia|lia|done| |lia|].
    + exists c. split; [lia|done].
    + exists d. split; [done|]. split; [lia|done].
  - exists i. split; [done|]. split; [lia|done].
Qed.

(** The words of a bitmap. *)
Lemma word_of_bit B n i : 0 <= n -> 0 <= i < ptr_bits -> Z.testbit (word_of B n) i = Z.testbit B (n * ptr_bits + i).
Proof.
  intros Hn Hi. unfold word_of. rewrite Z.mod_pow2_bits_low by lia. rewrite Z.shiftr_spec by lia. f_equal. lia.
Qed.

Lemma word_of_bounds B n : 0 <= word_of B n < 2 ^ ptr_bits.
Proof. pose proof ptr_bits_pos. unfold word_of. apply Z.mod_pos_bound. lia. Qed.

Lemma busy_ones : NGX_SLAB_BUSY = Z.ones ptr_bits.
Proof. unfold NGX_SLAB_BUSY. by destruct ptr_bits_cases as [-> | ->]. Qed.

Lemma word_of_setbit B n i n' :
  0 <= n -> 0 <= n' -> 0 <= i < ptr_bits ->
  word_of (Z.setbit B (n * ptr_bits + i)) n' = if n' =? n then Z.setbit (word_of B n) i else word_of B n'.
Proof.
  intros Hn Hn' Hi. assert (0 <= n * ptr_bits) by (apply Z.mul_nonneg_nonneg; lia). assert (0 <= n' * ptr_bits) by (apply Z.mul_nonneg_nonneg; lia).
  apply (bits_eq ptr_bits); [lia|apply word_of_bounds| |].
  { case_match; [apply setbit_bounds; [lia|]|]; apply word_of_bounds. }
  intros j Hj. rewrite word_of_bit, setbit_test by lia. destruct (Z.eqb_spec n' n) as [->|Hne].
  - rewrite setbit_test, word_of_bit by lia. f_equal. case Z.eqb_spec; case Z.eqb_spec; lia.
  - rewrite word_of_bit by lia. rewrite (proj2 (Z.eqb_neq _ _)); [done|nia].
Qed.

Lemma word_of_clearbit B n i n' :
  0 <= n -> 0 <= n' -> 0 <= i < ptr_bits ->
  word_of (Z.clearbit B (n * ptr_bits + i)) n' = if n' =? n then Z.clearbit (word_of B n) i else word_of B n'.
Proof.
  intros Hn Hn' Hi. assert (0 <= n * ptr_bits) by (apply Z.mul_nonneg_nonneg; lia). assert (0 <= n' * ptr_bits) by (apply Z.mul_nonneg_nonneg; lia).
  apply (bits_eq ptr_bits); [lia|apply word_of_bounds| |].
  { case_match; [apply clearbit_bounds; [lia|lia|]|]; apply word_of_bounds. }
  intros j Hj. rewrite word_of_bit, clearbit_test by lia. destruct (Z.eqb_spec n' n) as [->|Hne].
  - rewrite clearbit_test, word_of_bit by lia. f_equal. f_equal. case Z.eqb_spec; case Z.eqb_spec; lia.
  - rewrite word_of_bit by lia. rewrite (proj2 (Z.eqb_neq _ _)); [done|nia].
Qed.

(** Bitmaps of [k] words. *)
Lemma words_eq A B k :
  0 <= A < 2 ^ (k * ptr_bits) -> 0 <= B < 2 ^ (k * ptr_bits) -> 0 <= k ->
  (forall n, 0 <= n < k -> word_of A n = word_of B n) -> A = B.
Proof.
  intros HA HB Hk H. pose proof ptr_bits_pos. apply (bits_eq (k * ptr_bits)); [lia|done|done|]. intros i Hi.
  rewrite (Z.div_mod i ptr_bits), Z.mul_comm by lia. assert (0 <= i mod ptr_bits < ptr_bits) by (apply Z.mod_pos_bound; lia).
  assert (0 <= i / ptr_bits < k) by (split; [apply Z.div_pos; lia|apply Z.div_lt_upper_bound; lia]).
  rewrite <- !word_of_bit by lia. by rewrite H.
Qed.

Lemma word_of_ones k n : 0 <= n < k -> word_of (Z.ones (k * ptr_bits)) n = NGX_SLAB_BUSY.
Proof.
  intros Hn. pose proof ptr_bits_pos. rewrite busy_ones. apply (bits_eq ptr_bits); [lia|apply word_of_bounds|apply ones_bound; lia|].
  intros i Hi. rewrite word_of_bit by lia. rewrite !Z.ones_spec_low; [done|lia|nia].
Qed.
End Bits.
End SlabBits.
