(* ===== verification/NgxSlabChunks.v ===== *)
(** * Pages of chunks

    The chunks of the pages of NgxSlab.v: a chunk is taken or given back by the bit it has
    in the bitmap of its page; a page enters the list of its slot with its first free chunk
    and leaves it with the last, and is freed when no chunk is in use. *)

From stdpp Require Import gmap fin_maps.
From S2P Require Import Prelude NgxSlab NgxSlabRep NgxSlabInv NgxSlabPages NgxSlabBits.

Module SlabChunks.
Import Slab SlabRep SlabInv SlabPages SlabBits.

Section Chunks.
Context {arch : Arch} {layout : SlabLayout}.
#[local] Existing Instance page_4k.
Variable pool : ngx_slab_pool_t.
Context (geo : geometry pool).

(** ** A page of chunks and its list *)

(** The memory but for the field [slab] and the words of page [i]. *)
Record rewritten (i : Z) (m m' : mem) : Prop := {
  rw_slab z : z <> page_at pool i -> slab m' z = slab m z;
  rw_word w : ~ (base pool i <= w < base pool (i + 1)) -> word m' w = word m w;
  rw_next : next m' = next m;
  rw_prev : prev m' = prev m;
  rw_log : log m' = log m
}.

Lemma slot_hdr sh : 3 <= sh -> hdr pool (sh - 3) = slot_at pool (sh - 3).
Proof. intros. unfold hdr. by rewrite (proj2 (Z.eqb_neq _ _)) by lia. Qed.

Lemma slot_tag sh : 3 <= sh -> tag (sh - 3) = type_of sh.
Proof. intros. unfold tag. rewrite (proj2 (Z.eqb_neq _ _)) by lia. f_equal. lia. Qed.

(** The facts of a page of chunks. *)
Record at_slab (r1 : list (Z * run)) (i sh B : Z) (r2 : list (Z * run)) (m : mem) : Prop := {
  as_inv : inv pool (r1 ++ [(i, RSlab sh B)] ++ r2) m;
  as_before : tiles 0 r1 i;
  as_after : tiles (i + 1) r2 (npages pool);
  as_in : 0 <= i /\ i + 1 <= npages pool;
  as_shift : 3 <= sh <= 11;
  as_ok : run_ok pool m i (RSlab sh B);
  as_valid : valid pool (page_at pool i) = true
}.

Lemma at_slab_intro r1 i sh B r2 m : inv pool (r1 ++ [(i, RSlab sh B)] ++ r2) m -> at_slab r1 i sh B r2 m.
Proof.
  intros Hi. destruct (inv_places _ _ _ _ _ Hi) as (a & b & T1 & (-> & _ & <-) & T2). cbn [len] in *.
  pose proof (tiles_le _ _ _ T1). pose proof (tiles_le _ _ _ T2).
  assert (Hr : run_ok pool m a (RSlab sh B)) by (eapply inv_runs; [done|rewrite !elem_of_app; right; left; by left]).
  split; try done; [by destruct Hr|]. apply (valid_page pool geo). lia.
Qed.

(** What a new state of the page must satisfy. *)
Definition slab_ok (m : mem) (i sh B : Z) : Prop :=
  0 <= B < 2 ^ chunks sh /\ (forall c, 0 <= c < resv sh -> Z.testbit B c = true) /\ occ pool m i sh B.

Lemma inv_slab_step r1 i sh B B' r2 l l' m m1 m2 :
  at_slab r1 i sh B r2 m -> l ≡ₚ members pool (sh - 3) (r1 ++ [(i, RSlab sh B)] ++ r2) ->
  (forall z, z ∉ hdr pool (sh - 3) :: l -> z <> page_at pool i -> next m1 z = next m z /\ prev m1 z = prev m z) ->
  slab m1 = slab m -> word m1 = word m -> rewritten i m1 m2 ->
  lst m1 (tag (sh - 3)) (hdr pool (sh - 3)) l' -> l' ≡ₚ members pool (sh - 3) (r1 ++ [(i, RSlab sh B')] ++ r2) ->
  slab_ok m2 i sh B' ->
  (full sh B' = true -> next m1 (page_at pool i) = 0 /\ prev m1 (page_at pool i) = type_of sh) ->
  inv pool (r1 ++ [(i, RSlab sh B')] ++ r2) m2.
Proof.
  intros [Hi T1 T2 Hin Hsh _ _] Hl Hlinks Es Ew [Rs Rw Rn Rp _] Hl' Hp' (Hb & Hres & Hocc) Hfull.
  eapply (run_step pool geo r1 [(i, RSlab sh B)] r2 [(i, RSlab sh B')] i (i + 1) (sh - 3) l l' m); try done.
  - unfold nslots. lia.
  - eapply (lst_frame m1); [|done]. intros z _. by rewrite Rn, Rp.
  - intros j r Hr. apply list_elem_of_singleton in Hr as [= -> ->]. unfold run_ok. rewrite Rn, Rp. split_and!; try done; lia.
  - intros j r. rewrite elem_of_app, !list_elem_of_singleton. intros [?|?]; simplify_eq; simpl; case_match; auto.
  - intros j Hj Hji. rewrite Rs by (intros E; apply (page_at_inj pool geo) in E; lia). by rewrite Es.
  - intros w Hw. rewrite Rw by done. by rewrite Ew.
  - intros z Hz Hzi. rewrite Rn, Rp. apply Hlinks; [done|]. apply Hzi. lia.
Qed.

(** The members of a slot do not depend on the bits of a page with free chunks. *)
Lemma members_listed r1 i sh B r2 :
  full sh B = false ->
  members pool (sh - 3) (r1 ++ [(i, RSlab sh B)] ++ r2) = members pool (sh - 3) r1 ++ page_at pool i :: members pool (sh - 3) r2.
Proof. intros Hf. rewrite members_app. cbn [app]. rewrite members_cons. simpl. rewrite Hf. by rewrite decide_True. Qed.

Lemma members_full r1 i sh B r2 :
  full sh B = true ->
  members pool (sh - 3) (r1 ++ [(i, RSlab sh B)] ++ r2) = members pool (sh - 3) r1 ++ members pool (sh - 3) r2.
Proof. intros Hf. rewrite members_app. cbn [app]. rewrite members_cons. simpl. rewrite Hf. by rewrite decide_False. Qed.

(** A chunk has been taken: the page leaves its list if it was the last one. *)
Lemma swp_settle r1 i sh B B' r2 m m1 (b : bool) :
  at_slab r1 i sh B r2 m -> full sh B = false -> rewritten i m m1 -> slab_ok m1 i sh B' -> b = full sh B' ->
  wp (if b then unlink_full pool (page_at pool i) (type_of sh) else mret tt) m1
    (fun _ m' => inv pool (r1 ++ [(i, RSlab sh B')] ++ r2) m' /\ log m' = log m).
Proof.
  intros F Hf Rw Hok ->. pose proof F as [Hi _ _ Hin Hsh _ Hvx]. pose proof Rw as [_ _ Rn Rp Rg].
  assert (Hq : queue_of (RSlab sh B) = Some (sh - 3)) by (simpl; by rewrite Hf).
  destruct (member_split _ _ _ _ _ _ _ Hi Hq) as (Hqr & l1 & l2 & Hl & Hp & Hpr).
  destruct (full sh B') eqn:Hf'.
  - unfold unlink_full. apply swp_bind.
    eapply swp_mono; [apply (swp_unlink pool geo (tag (sh - 3)) (hdr pool (sh - 3)) l1 _ l2)|].
    + apply tag_range.
    + eapply (lst_frame m); [|exact Hl]. intros z _. by rewrite Rn, Rp.
    + intros z Hz. by eapply member_valid.
    + intros [] m2 [Hl2 [Es Ew Eg Elinks]]. repeat s_step. split; [|cbn; congruence].
      assert (Hx : page_at pool i ∉ hdr pool (sh - 3) :: l1 ++ l2).
      { destruct Hl as [Hnd _]. rewrite <- Permutation_middle, !NoDup_cons in Hnd. destruct Hnd as (H1 & H2 & _).
        rewrite elem_of_cons. intros [E|Hx]; [|done]. apply H1. rewrite E. by left. }
      set (m3 := put_prev _ _ _).
      eapply (inv_slab_step r1 i sh B B' r2 _ (l1 ++ l2) m (mkMem (slab m) (next m3) (prev m3) (word m) (log m3)) m3 F Hp); try done.
      * intros z Hz Hzi. unfold m3. cbn. rewrite !upd_ne by done. rewrite <- Rn, <- Rp. apply Elinks. revert Hz.
        rewrite !elem_of_cons, !elem_of_app, elem_of_cons. tauto.
      * destruct Rw as [Rs Rw0 _ _ _]. split; try done; unfold m3; cbn; [intros z Hz|intros w Hw]; [rewrite Es; auto|rewrite Ew; auto].
      * eapply (lst_frame m2); [|exact Hl2]. intros z Hz. unfold m3. cbn. by rewrite !upd_ne by (by intros ->).
      * by rewrite members_full, Hpr.
      * destruct Hok as (? & ? & Ho). split_and!; [lia|lia|done|]. unfold occ, m3 in *. cbn. by rewrite Es, Ew.
      * intros _. unfold m3. cbn. by rewrite !upd_eq.
  - apply swp_ret. split; [|done].
    eapply (inv_slab_step r1 i sh B B' r2 _ (l1 ++ page_at pool i :: l2) m m m1 F Hp); try done; [|congruence].
    rewrite members_listed by done. by rewrite <- !Permutation_middle, Hpr.
Qed.

(** A chunk is going to be given back: a full page enters its list before. *)
Lemma swp_unfull r1 i sh B r2 m (b : bool) :
  at_slab r1 i sh B r2 m -> b = full sh B ->
  wp (if b then link_slot pool (sh - 3) (page_at pool i) (type_of sh) else mret tt) m
    (fun _ m1 => slab m1 = slab m /\ word m1 = word m /\ log m1 = log m /\
       forall B' m2, full sh B' = false -> rewritten i m1 m2 -> slab_ok m2 i sh B' ->
                     inv pool (r1 ++ [(i, RSlab sh B')] ++ r2) m2).
Proof.
  intros F ->. pose proof F as [Hi _ _ Hin Hsh _ Hvx]. assert (Hqr : -1 <= sh - 3 < nslots) by (unfold nslots; lia).
  destruct (full sh B) eqn:Hf.
  - destruct (inv_lists _ _ _ Hi _ Hqr) as (l & Hl & Hp). rewrite slot_hdr, slot_tag in Hl by lia.
    assert (Hx : page_at pool i ∉ slot_at pool (sh - 3) :: l).
    { rewrite <- (slot_hdr sh) by lia. intros Hx.
      destruct (listed_page pool geo _ _ _ _ i i (RSlab sh B) Hi Hqr Hp) as [_ E]; [|simpl; lia|done|simpl in E; by rewrite Hf in E].
      rewrite !elem_of_app. right; left; by left. }
    eapply swp_mono; [apply (swp_link_slot pool geo (type_of sh) (sh - 3) l); [done|done|]|].
    + intros z [->|Hz]%elem_of_cons; [done|]. rewrite <- (slot_hdr sh) in Hz by lia. by eapply member_valid.
    + intros [] m1 [Hl1 [Es Ew Eg Elinks]]. split_and!; try done. intros B' m2 Hf' Rw Hok.
      eapply (inv_slab_step r1 i sh B B' r2 l (page_at pool i :: l) m m1 m2 F Hp); try done.
      * intros z Hz Hzi. apply Elinks. rewrite slot_hdr in Hz by lia. by rewrite not_elem_of_cons.
      * by rewrite slot_hdr, slot_tag by lia.
      * rewrite members_listed, Hp, members_full by done. apply Permutation_middle.
      * congruence.
  - apply swp_ret. split_and!; try done. intros B' m2 Hf' Rw Hok.
    destruct (inv_lists _ _ _ Hi _ Hqr) as (l & Hl & Hp).
    eapply (inv_slab_step r1 i sh B B' r2 l l m m m2 F Hp); try done; [|congruence].
    rewrite Hp. by rewrite !members_listed.
Qed.

(** ** The sizes *)

Lemma type_small sh : sh <? ngx_slab_exact_shift = true -> type_of sh = NGX_SLAB_SMALL.
Proof. unfold type_of. by intros ->. Qed.

Lemma type_exact sh : sh = ngx_slab_exact_shift -> type_of sh = NGX_SLAB_EXACT.
Proof. unfold type_of. intros ->. by rewrite Z.ltb_irrefl, Z.eqb_refl. Qed.

Lemma type_big sh : ngx_slab_exact_shift < sh -> type_of sh = NGX_SLAB_BIG.
Proof. unfold type_of. intros H. rewrite (proj2 (Z.ltb_ge _ _)) by lia. by rewrite (proj2 (Z.eqb_neq _ _)) by lia. Qed.

(** The numbers of the pages of chunks, by cases on the width and the shift. *)
Ltac by_shift :=
  lazymatch goal with
  | Hs : 3 <= ?sh <= 11 |- _ =>
      destruct exact_shift_val as [[E1 E2]|[E1 E2]];
      unfold chunks, resv, map_chunks, map_words, sizeof_uintptr, NGX_SLAB_MAP_SHIFT, type_of in *; rewrite ?E1, ?E2 in *;
      revert sh Hs; lazymatch goal with |- forall sh, _ -> @?P sh => apply (shift_cases P) end; vm_compute
  end.

Lemma chunks_size sh : 3 <= sh <= 11 -> chunks sh * 2 ^ sh = 4096 /\ 2 <= chunks sh /\ 0 < 2 ^ sh.
Proof. intros Hs. revert sh Hs. apply shift_cases; by vm_compute. Qed.

Lemma small_words sh :
  3 <= sh <= 11 -> sh < ngx_slab_exact_shift ->
  chunks sh = map_words sh * ptr_bits /\ 1 <= map_words sh /\ resv sh = map_chunks sh /\ 1 <= resv sh /\ resv sh + 1 < ptr_bits
  /\ map_words sh * sizeof_uintptr <= resv sh * 2 ^ sh.
Proof. intros Hs. by_shift; intros; split_and!; congruence. Qed.

Lemma exact_chunks : chunks ngx_slab_exact_shift = ptr_bits /\ resv ngx_slab_exact_shift = 0.
Proof. unfold chunks, resv. rewrite Z.ltb_irrefl. by destruct exact_shift_val as [[-> ->]|[-> ->]]. Qed.

Lemma big_chunks sh :
  3 <= sh <= 11 -> ngx_slab_exact_shift < sh ->
  chunks sh <= NGX_SLAB_MAP_SHIFT /\ resv sh = 0 /\ NGX_SLAB_MAP_SHIFT + chunks sh <= ptr_bits /\ sh < 2 ^ NGX_SLAB_MAP_SHIFT.
Proof. intros Hs. by_shift; intros; split_and!; congruence. Qed.

(** ** Taking a chunk *)

(** Chunk [c] of page [i], which was free, is in use. *)
Definition taken (r1 : list (Z * run)) (i sh B : Z) (r2 : list (Z * run)) (m : mem) (r : option Z) (m' : mem) : Prop :=
  exists c, 0 <= c < chunks sh /\ Z.testbit B c = false /\ r = Some (base pool i + c * 2 ^ sh)
    /\ inv pool (r1 ++ [(i, RSlab sh (Z.setbit B c))] ++ r2) m' /\ log m' = log m.

Lemma page_offset i : Z.shiftl (page_index pool (page_at pool i)) ngx_pagesize_shift + start pool = base pool i.
Proof. rewrite page_index_at by done. change ngx_pagesize_shift with 12. rewrite Z.shiftl_mul_pow2 by lia. unfold base. lia. Qed.

Lemma setbit_ok m i sh B c :
  0 <= c < chunks sh -> 0 <= B < 2 ^ chunks sh -> (forall c, 0 <= c < resv sh -> Z.testbit B c = true) ->
  occ pool m i sh (Z.setbit B c) -> slab_ok m i sh (Z.setbit B c).
Proof.
  intros Hc Hb Hr Ho. split; [by apply setbit_bounds|]. split; [|done]. intros d Hd. rewrite setbit_test, Hr by lia. apply orb_true_r.
Qed.

Lemma put_slab_rewritten i v m : rewritten i m (put_slab (page_at pool i) v m).
Proof. split; try done. intros z Hz. by apply upd_ne. Qed.

Lemma swp_alloc_exact r1 i sh B r2 m :
  at_slab r1 i sh B r2 m -> sh = ngx_slab_exact_shift -> full sh B = false ->
  wp (alloc_exact_page pool sh (page_at pool i)) m (taken r1 i sh B r2 m).
Proof.
  intros F Hsh Hf. pose proof F as [_ _ _ _ Hr (_ & Hb & Hres & Ho & _) Hv]. destruct exact_chunks as [Hch _].
  rewrite <- Hsh in Hch. pose proof ptr_bits_pos. unfold occ in Ho. rewrite Hsh, Z.ltb_irrefl, Z.eqb_refl in Ho.
  rewrite Hch in Hb. unfold full in Hf. rewrite Hch, Z.eqb_neq in Hf.
  unfold alloc_exact_page. s_step. s_step. rewrite busy_ones, (proj2 (Z.eqb_neq _ _)) by done. simpl negb. cbv iota.
  destruct (clear_exists ptr_bits B) as (c0 & Hc0 & Hb0); [lia|done|done|].
  destruct (clear_bit_find nonzero B 0 ptr_bits bit_fuel 0) as (c & E & Hc & Hcb); [lia|lia|lia| |by exists c0|unfold bit_fuel; lia|].
  { intros d Hd. unfold nonzero. rewrite (proj2 (Z.eqb_neq _ _)); [done|]. lia. }
  change (2 ^ (0 + 0)) with 1 in E. rewrite E. rewrite Z.add_0_l in *.
  s_step. apply swp_set_slab; [done|]. s_step. s_step. rewrite lor_setbit, <- (type_exact sh Hsh) by lia. apply swp_bind.
  eapply swp_mono; [apply (swp_settle r1 i sh B (Z.setbit B c) r2 m); [done|by unfold full; rewrite Hch, Z.eqb_neq|..]|].
  - apply put_slab_rewritten.
  - apply setbit_ok; [lia|by rewrite Hch|done|]. unfold occ. rewrite Hsh, Z.ltb_irrefl, Z.eqb_refl. apply upd_eq.
  - unfold full. by rewrite Hch.
  - intros [] m' [Hi' Hg']. apply swp_ret. exists c. split_and!; try lia; try done. f_equal. rewrite <- page_offset, (Z.shiftl_mul_pow2 c) by lia. lia.
Qed.

(** The field [slab] of a page of big chunks. *)
Lemma big_fields sh B :
  3 <= sh <= 11 -> ngx_slab_exact_shift < sh -> 0 <= B < 2 ^ chunks sh ->
  let s := Z.lor (Z.shiftl B NGX_SLAB_MAP_SHIFT) sh in
  (forall c, 0 <= c -> Z.testbit s (NGX_SLAB_MAP_SHIFT + c) = Z.testbit B c) /\
  Z.land s NGX_SLAB_MAP_MASK = Z.shiftl B NGX_SLAB_MAP_SHIFT /\ Z.land s NGX_SLAB_SHIFT_MASK = sh /\
  (forall c, 0 <= c -> Z.setbit s (NGX_SLAB_MAP_SHIFT + c) = Z.lor (Z.shiftl (Z.setbit B c) NGX_SLAB_MAP_SHIFT) sh) /\
  (forall c, 0 <= c -> Z.clearbit s (NGX_SLAB_MAP_SHIFT + c) = Z.lor (Z.shiftl (Z.clearbit B c) NGX_SLAB_MAP_SHIFT) sh).
Proof.
  intros Hr Hbig HB s. destruct (big_chunks sh Hr Hbig) as (H1 & _ & H2 & H3). destruct (chunks_size sh Hr) as (_ & H0 & _).
  assert (HM : NGX_SLAB_MAP_MASK = Z.shiftl (Z.ones NGX_SLAB_MAP_SHIFT) NGX_SLAB_MAP_SHIFT /\ 4 <= NGX_SLAB_MAP_SHIFT)
    by (unfold NGX_SLAB_MAP_MASK, NGX_SLAB_MAP_SHIFT; destruct ptr_bits_cases as [-> | ->]; by vm_compute).
  destruct HM as [EM HM]. set (k := NGX_SLAB_MAP_SHIFT) in *.
  assert (Hs : forall j, 0 <= j -> Z.testbit s j = if j <? k then Z.testbit sh j else Z.testbit B (j - k)).
  { intros j Hj. unfold s. rewrite Z.lor_spec. case Z.ltb_spec; intros.
    - by rewrite Z.shiftl_spec_low.
    - rewrite Z.shiftl_spec_high by lia. rewrite (bits_high sh k) by lia. apply orb_false_r. }
  assert (Hsh : forall j, k <= j -> Z.testbit sh j = false) by (intros j Hj; apply (bits_high sh k); lia).
  split_and!.
  - intros c Hc. rewrite Hs by lia. rewrite (proj2 (Z.ltb_ge _ _)) by lia. f_equal. lia.
  - apply Z.bits_inj'. intros j Hj. rewrite Z.land_spec, EM, Hs by lia. case Z.ltb_spec; intros.
    + rewrite !Z.shiftl_spec_low by lia. apply andb_false_r.
    + rewrite !Z.shiftl_spec_high by lia. destruct (Z.ltb_spec (j - k) k).
      * rewrite Z.ones_spec_low by lia. apply andb_true_r.
      * rewrite (bits_high B (chunks sh)) by lia. done.
  - change NGX_SLAB_SHIFT_MASK with (Z.ones 4). rewrite Z.land_ones by lia. apply Z.bits_inj'. intros j Hj.
    destruct (Z.ltb_spec j 4).
    + rewrite Z.mod_pow2_bits_low, Hs by lia. by rewrite (proj2 (Z.ltb_lt _ _)) by lia.
    + rewrite Z.mod_pow2_bits_high by lia. symmetry. apply (bits_high sh 4); lia.
  - intros c Hc. apply Z.bits_inj'. intros j Hj. rewrite setbit_test, Hs, Z.lor_spec by lia. case Z.ltb_spec; intros.
    + rewrite Z.shiftl_spec_low by lia. by rewrite (proj2 (Z.eqb_neq _ _)) by lia.
    + rewrite Z.shiftl_spec_high, Hsh, setbit_test, orb_false_r by lia. f_equal. case Z.eqb_spec; case Z.eqb_spec; lia.
  - intros c Hc. apply Z.bits_inj'. intros j Hj. rewrite clearbit_test, Hs, Z.lor_spec by lia. case Z.ltb_spec; intros.
    + rewrite Z.shiftl_spec_low by lia. by rewrite (proj2 (Z.eqb_neq _ _)) by lia.
    + rewrite Z.shiftl_spec_high, Hsh, clearbit_test, orb_false_r by lia. do 2 f_equal. case Z.eqb_spec; case Z.eqb_spec; lia.
Qed.

Definition big_mask (sh : Z) : Z := Z.shiftl (Z.ones (chunks sh)) NGX_SLAB_MAP_SHIFT.

Lemma big_mask_code sh :
  3 <= sh <= 11 -> ngx_slab_exact_shift < sh ->
  uint ptr_bits (Z.shiftl (uint ptr_bits (Z.shiftl 1 (Z.shiftl 1 (ngx_pagesize_shift - sh)) - 1)) NGX_SLAB_MAP_SHIFT) = big_mask sh.
Proof. intros Hs. unfold big_mask. by_shift; done. Qed.

Lemma shiftl_eqb a b k : 0 <= k -> (Z.shiftl a k =? Z.shiftl b k) = (a =? b).
Proof.
  intros Hk. case Z.eqb_spec; case Z.eqb_spec; intros H1 H2; try done; [|by rewrite H1 in H2].
  exfalso. apply H1. rewrite !Z.shiftl_mul_pow2 in H2 by done. apply Z.mul_cancel_r in H2; [done|]. apply Z.pow_nonzero; lia.
Qed.

Lemma swp_alloc_big r1 i sh B r2 m :
  at_slab r1 i sh B r2 m -> ngx_slab_exact_shift < sh -> full sh B = false ->
  wp (alloc_big_page pool sh (big_mask sh) (page_at pool i)) m (taken r1 i sh B r2 m).
Proof.
  intros F Hsh Hf. pose proof F as [_ _ _ _ Hr (_ & Hb & Hres & Ho & _) Hv].
  destruct (big_chunks sh Hr Hsh) as (H1 & _ & H2 & H3). destruct (chunks_size sh Hr) as (_ & H0 & _).
  assert (Eocc : forall m B, occ pool m i sh B <-> slab m (page_at pool i) = Z.lor (Z.shiftl B NGX_SLAB_MAP_SHIFT) sh).
  { intros m' B'. unfold occ. rewrite (proj2 (Z.ltb_ge _ _)) by lia. by rewrite (proj2 (Z.eqb_neq _ _)) by lia. }
  apply Eocc in Ho. destruct (big_fields sh B Hr Hsh Hb) as (Bt & Bm & _ & Bs & _). pose proof Hf as Hf0.
  unfold full in Hf. rewrite Z.eqb_neq in Hf. unfold alloc_big_page. s_step. s_step.
  rewrite Bm. unfold big_mask at 1. rewrite shiftl_eqb, (proj2 (Z.eqb_neq _ _)) by (done || lia). simpl negb. cbv iota.
  destruct (clear_exists (chunks sh) B) as (c0 & Hc0 & Hb0); [lia|done|done|]. rewrite <- Bt in Hb0 by lia.
  destruct (clear_bit_find (fun m => nonzero (Z.land m (big_mask sh))) (Z.lor (Z.shiftl B NGX_SLAB_MAP_SHIFT) sh) NGX_SLAB_MAP_SHIFT (chunks sh) bit_fuel 0)
    as (c & E & Hc & Hcb); [lia|lia|lia| |by exists c0|unfold bit_fuel; lia|].
  { intros d Hd. unfold nonzero. rewrite Z.land_comm, land_pow2, negb_involutive by lia. unfold big_mask. rewrite Z.shiftl_spec by lia.
    apply Z.ones_spec_low. lia. }
  rewrite Z.add_0_r in E. rewrite (Z.shiftl_mul_pow2 1), Z.mul_1_l by lia. rewrite E. rewrite Bt in Hcb by lia.
  s_step. apply swp_set_slab; [done|]. s_step. s_step. rewrite lor_setbit, Bs by lia.
  assert (HB' : 0 <= Z.setbit B c < 2 ^ chunks sh) by (apply setbit_bounds; [lia|done]).
  destruct (big_fields sh (Z.setbit B c) Hr Hsh HB') as (_ & Bm' & _ & _ & _). rewrite Bm', <- (type_big sh Hsh). apply swp_bind.
  eapply swp_mono; [apply (swp_settle r1 i sh B (Z.setbit B c) r2 m); [done|done|..]|].
  - apply put_slab_rewritten.
  - apply setbit_ok; [lia|done|done|]. apply Eocc. apply upd_eq.
  - unfold full, big_mask. apply shiftl_eqb. lia.
  - intros [] m' [Hi' Hg']. apply swp_ret. exists c. split_and!; try lia; try done. f_equal. rewrite <- page_offset, (Z.shiftl_mul_pow2 c) by lia. lia.
Qed.

(** ** The words of a page of small chunks *)

Lemma base_aligned i : base pool i mod 4096 = 0.
Proof. pose proof (g_start_aligned pool geo). unfold base. Z.to_euclidean_division_equations; lia. Qed.

Lemma bitmap_valid i sh n :
  0 <= i < npages pool -> 3 <= sh <= 11 -> 0 <= n < map_words sh -> valid_word pool (bitmap_at (base pool i) n) = true.
Proof.
  intros Hi Hsh Hn. pose proof (bitmap_in_page pool i sh n Hsh Hn) as Hp. pose proof (g_end pool geo). pose proof (base_aligned i).
  unfold valid_word. rewrite !andb_true_iff, !Z.leb_le, Z.eqb_eq. split_and!; [unfold base in *; lia|unfold base in *; lia|].
  unfold bitmap_at. destruct widths as [(_ & E & _)|(_ & E & _)]; rewrite E; Z.to_euclidean_division_equations; lia.
Qed.

Lemma bitmap_at_inj b n n' : bitmap_at b n = bitmap_at b n' -> n = n'.
Proof. unfold bitmap_at. destruct widths as [(_ & E & _)|(_ & E & _)]; rewrite E; lia. Qed.

Lemma put_word_rewritten i sh n v m :
  3 <= sh <= 11 -> 0 <= n < map_words sh -> rewritten i m (put_word (bitmap_at (base pool i) n) v m).
Proof.
  intros Hsh Hn. split; try done. intros w Hw. apply upd_ne. intros ->. apply Hw.
  pose proof (bitmap_in_page pool i sh n Hsh Hn). unfold base in *. destruct widths as [(_ & E & _)|(_ & E & _)]; lia.
Qed.

Lemma occ_small m i sh B :
  sh < ngx_slab_exact_shift ->
  occ pool m i sh B <-> slab m (page_at pool i) = sh /\ forall n, 0 <= n < map_words sh -> word m (bitmap_at (base pool i) n) = word_of B n.
Proof. intros H. unfold occ. by rewrite (proj2 (Z.ltb_lt _ _)) by done. Qed.

(** A bitmap is full when its words are. *)
Lemma full_words sh B :
  3 <= sh <= 11 -> sh < ngx_slab_exact_shift -> 0 <= B < 2 ^ chunks sh ->
  full sh B = true <-> forall n, 0 <= n < map_words sh -> word_of B n = NGX_SLAB_BUSY.
Proof.
  intros Hr Hsh HB. destruct (small_words sh Hr Hsh) as (E & Hw & _). unfold full. rewrite Z.eqb_eq, E in *. split.
  - intros -> n Hn. by apply word_of_ones.
  - intros H. pose proof ptr_bits_pos. apply (words_eq _ _ (map_words sh)); [done|apply ones_bound; lia|lia|].
    intros n Hn. rewrite H by done. by rewrite word_of_ones.
Qed.

Lemma swp_more_clear i sh B m (k : nat) n :
  0 <= i < npages pool -> 3 <= sh <= 11 -> 0 <= n -> n + Z.of_nat k = map_words sh ->
  (forall n, 0 <= n < map_words sh -> word m (bitmap_at (base pool i) n) = word_of B n) ->
  wp (more_clear pool (base pool i) n k) m
    (fun b m' => m' = m /\ (b = false <-> forall n', n <= n' < map_words sh -> word_of B n' = NGX_SLAB_BUSY)).
Proof.
  intros Hi Hr. revert n. induction k as [|k IH]; intros n Hn Hk Hw; cbn [more_clear].
  - apply swp_ret. split; [done|]. split; [|done]. intros _ n' Hn'. lia.
  - apply swp_bind. eapply swp_get_word; [apply (bitmap_valid i sh); [done|done|lia]|by apply Hw; lia|].
    case Z.eqb_spec; intros E; simpl.
    + eapply swp_mono; [apply IH; [lia|lia|done]|]. intros b m' [-> Hb]. split; [done|]. rewrite Hb. split.
      * intros H n' Hn'. destruct (decide (n' = n)) as [->|]; [done|apply H; lia].
      * intros H n' Hn'. apply H. lia.
    + apply swp_ret. split; [done|]. split; [done|]. intros H. exfalso. apply E, H. lia.
Qed.

Lemma occ_put_word m i sh B n v B' :
  sh < ngx_slab_exact_shift -> occ pool m i sh B ->
  (forall n', 0 <= n' < map_words sh -> word_of B' n' = if n' =? n then v else word_of B n') ->
  occ pool (put_word (bitmap_at (base pool i) n) v m) i sh B'.
Proof.
  intros Hsh Ho Hw. apply occ_small in Ho as [Hs Ho]; [|done]. apply occ_small; [done|]. split; [done|]. intros n' Hn'. cbn.
  rewrite Hw by done. unfold upd. case Z.eqb_spec; intros E.
  - apply bitmap_at_inj in E as ->. by rewrite Z.eqb_refl.
  - rewrite Ho by done. case Z.eqb_spec; [intros ->; done|done].
Qed.

Lemma swp_alloc_small r1 i sh B r2 m (k : nat) n :
  at_slab r1 i sh B r2 m -> sh < ngx_slab_exact_shift -> full sh B = false ->
  0 <= n -> n + Z.of_nat k = map_words sh -> (forall n', 0 <= n' < n -> word_of B n' = NGX_SLAB_BUSY) ->
  wp (alloc_small pool (page_at pool i) (base pool i) sh n k) m (taken r1 i sh B r2 m).
Proof.
  intros F Hsh Hf. pose proof F as [_ _ _ Hin Hr (_ & Hb & Hres & Ho & _) Hv]. pose proof ptr_bits_pos.
  destruct (small_words sh Hr Hsh) as (Ech & Hmw & _). pose proof Ho as Ho'. apply occ_small in Ho' as [Hs Hw]; [|done].
  revert n. induction k as [|k IH]; intros n Hn Hk Hbefore; cbn [alloc_small].
  { exfalso. assert (full sh B = true); [|congruence]. apply full_words; [done..|]. intros n' Hn'. apply Hbefore. lia. }
  assert (Hnv : 0 <= n < map_words sh) by lia.
  apply swp_bind. eapply swp_get_word; [apply (bitmap_valid i sh); [lia|done|done]|by apply Hw|].
  case Z.eqb_spec; intros En; simpl negb; cbv iota.
  { apply IH; [lia|lia|]. intros n' Hn'. destruct (decide (n' = n)) as [->|]; [done|apply Hbefore; lia]. }
  destruct (clear_exists ptr_bits (word_of B n)) as (c0 & Hc0 & Hb0); [lia|apply word_of_bounds|by rewrite <- busy_ones|].
  destruct (clear_bit_find nonzero (word_of B n) 0 ptr_bits bit_fuel 0) as (c & E & Hc & Hcb); [lia|lia|lia| |by exists c0|unfold bit_fuel; lia|].
  { intros d Hd. unfold nonzero. rewrite (proj2 (Z.eqb_neq _ _)); [done|]. lia. }
  change (2 ^ (0 + 0)) with 1 in E. rewrite E. rewrite Z.add_0_l in *. clear E. rewrite lor_setbit by lia.
  rewrite word_of_bit in Hcb by lia. set (d := n * ptr_bits + c) in *. set (v := Z.setbit (word_of B n) c).
  assert (Hd : 0 <= d < chunks sh) by (unfold d; rewrite Ech; nia).
  assert (Hwd : forall n', 0 <= n' < map_words sh -> word_of (Z.setbit B d) n' = if n' =? n then v else word_of B n')
    by (intros n' Hn'; apply word_of_setbit; lia).
  apply swp_bind, swp_set_word; [apply (bitmap_valid i sh); [lia|done|done]|]. set (m1 := put_word _ _ _).
  assert (Hok1 : slab_ok m1 i sh (Z.setbit B d)) by (apply setbit_ok; try done; by eapply occ_put_word).
  assert (Rw1 : rewritten i m m1) by (by apply (put_word_rewritten i sh)).
  apply swp_bind. eapply swp_get_word; [apply (bitmap_valid i sh); [lia|done|done]|apply upd_eq|].
  assert (Hp : base pool i + (Z.shiftl (n * sizeof_uintptr * 8) sh + Z.shiftl c sh) = base pool i + d * 2 ^ sh).
  { rewrite !Z.shiftl_mul_pow2 by lia. unfold d. destruct widths as [(-> & -> & _)|(-> & -> & _)]; lia. }
  cbv zeta. rewrite Hp. pose proof Hok1 as (Hb1 & _ & Ho1). apply occ_small in Ho1 as [_ Hw1]; [|done].
  assert (Hfull : forall b, (b = true <-> full sh (Z.setbit B d) = true) -> wp (if b then unlink_full pool (page_at pool i) (type_of sh) else mret tt) m1
    (fun _ m' => wp (mret (Some (base pool i + d * 2 ^ sh))) m' (taken r1 i sh B r2 m))).
  { intros b Hbf. eapply swp_mono; [apply (swp_settle r1 i sh B (Z.setbit B d) r2 m); try done|].
    - destruct b, (full sh (Z.setbit B d)); naive_solver.
    - intros [] m' [Hi' Hg']. apply swp_ret. exists d. split_and!; try lia; done. }
  rewrite (type_small sh) in Hfull by (by apply Z.ltb_lt).
  assert (Hself : word_of (Z.setbit B d) n = v) by (rewrite Hwd by done; by rewrite Z.eqb_refl).
  case Z.eqb_spec; intros Ev.
  - apply swp_bind. eapply swp_mono; [apply (swp_more_clear i sh (Z.setbit B d)); [lia|done|lia|lia|done]|]. intros more m' [-> Hmore].
    apply swp_bind. assert (Hb' : negb more = true <-> full sh (Z.setbit B d) = true).
    { rewrite negb_true_iff, Hmore, full_words by done. split; [|intros Hall n' Hn'; apply Hall; lia].
      intros Hall n' Hn'. destruct (decide (n' = n)) as [->|]; [congruence|]. destruct (decide (n' < n)).
      - rewrite Hwd by done. rewrite (proj2 (Z.eqb_neq n' n)) by done. apply Hbefore. lia.
      - apply Hall. lia. }
    specialize (Hfull (negb more) Hb'). by destruct more.
  - assert (Hb' : false = true <-> full sh (Z.setbit B d) = true).
    { split; [done|]. rewrite full_words by done. intros Hall. exfalso. apply Ev. rewrite <- Hself. by apply Hall. }
    destruct (Hfull false Hb') as (x & m' & Ex & Hx). simpl in Ex. by injection Ex as <- <-.
Qed.

Lemma swp_alloc_small_page r1 i sh B r2 m :
  at_slab r1 i sh B r2 m -> sh < ngx_slab_exact_shift -> full sh B = false ->
  wp (alloc_small_page pool sh (page_at pool i)) m (taken r1 i sh B r2 m).
Proof.
  intros F Hsh Hf. unfold alloc_small_page. cbv zeta. rewrite Z.add_comm, page_offset.
  destruct (small_words sh (as_shift _ _ _ _ _ _ F) Hsh) as (_ & Hmw & _). apply swp_alloc_small; try done; lia.
Qed.

(** ** A new page of chunks *)

(** The bitmap of a page with one chunk in use. *)
Definition first_bits (sh : Z) : Z := Z.ones (resv sh + 1).

Lemma resv_bounds sh : 3 <= sh <= 11 -> 0 <= resv sh /\ resv sh + 1 < chunks sh /\ resv sh + 1 < ptr_bits.
Proof. intros Hs. by_shift; intros; split_and!; congruence. Qed.

Lemma first_bits_ok sh :
  3 <= sh <= 11 ->
  0 <= first_bits sh < 2 ^ chunks sh /\ (forall c, 0 <= c < resv sh -> Z.testbit (first_bits sh) c = true) /\ full sh (first_bits sh) = false.
Proof.
  intros Hs. destruct (resv_bounds sh Hs) as (H1 & H2 & _). unfold first_bits. split_and!.
  - apply ones_bound. lia.
  - pose proof (ones_bound (resv sh + 1)). pose proof (Z.pow_le_mono_r 2 (resv sh + 1) (chunks sh)). lia.
  - intros c Hc. apply Z.ones_spec_low. lia.
  - unfold full. apply Z.eqb_neq. intros E. apply (f_equal (fun x => Z.testbit x (resv sh + 1))) in E.
    rewrite Z.ones_spec_high, Z.ones_spec_low in E by lia. done.
Qed.

Lemma swp_slab_first r1 i r2 sh m m1 :
  inv pool (r1 ++ [(i, RBusy 1)] ++ r2) m -> 3 <= sh <= 11 -> members pool (sh - 3) (r1 ++ [(i, RBusy 1)] ++ r2) = [] ->
  rewritten i m m1 -> occ pool m1 i sh (first_bits sh) ->
  wp (slot_first pool (sh - 3) (page_at pool i) (type_of sh)) m1
    (fun _ m' => inv pool (r1 ++ [(i, RSlab sh (first_bits sh))] ++ r2) m' /\ log m' = log m).
Proof.
  intros Hi Hs Hmem [Rs Rw Rn Rp Rg] Ho. destruct (inv_places _ _ _ _ _ Hi) as (a & b & T1 & (-> & _ & <-) & T2). cbn [len] in *.
  pose proof (tiles_le _ _ _ T1). pose proof (tiles_le _ _ _ T2). destruct (first_bits_ok sh Hs) as (F1 & F2 & F3).
  assert (Hqr : -1 <= sh - 3 < nslots) by (unfold nslots; lia).
  destruct (inv_lists _ _ _ Hi _ Hqr) as (l & Hl & Hp). rewrite slot_hdr, slot_tag in Hl by lia.
  assert (l = []) as -> by (rewrite Hmem in Hp; by apply Permutation_nil_r in Hp).
  eapply swp_mono; [apply (swp_slot_first pool geo (type_of sh) (sh - 3))|].
  - eapply (lst_frame m); [|exact Hl]. intros z _. by rewrite Rn, Rp.
  - apply (page_not_slot pool geo); unfold nslots; lia.
  - apply (valid_page pool geo). lia.
  - apply (valid_slot pool geo). unfold nslots. lia.
  - intros [] m2 [Hl2 [Es Ew Eg Elinks]]. split; [|congruence].
    eapply (run_step pool geo r1 [(a, RBusy 1)] r2 [(a, RSlab sh (first_bits sh))] a (a + 1) (sh - 3) [] [page_at pool a] m); try done.
    + by rewrite slot_hdr, slot_tag by lia.
    + rewrite members_listed by done. rewrite members_app in Hmem. apply app_eq_nil in Hmem as [-> Hmem]. cbn [app] in Hmem.
      rewrite (members_cons pool) in Hmem. apply app_eq_nil in Hmem as [_ ->]. done.
    + intros j r Hr. apply list_elem_of_singleton in Hr as [= -> ->]. unfold run_ok. split_and!; try lia; try done.
      * unfold occ in *. by rewrite Es, Ew.
      * by rewrite F3.
    + intros j r. rewrite elem_of_app, !list_elem_of_singleton. intros [?|?]; simplify_eq; [by left|]. right. simpl. by rewrite F3.
    + intros j Hj Hja. rewrite Es. apply Rs. intros E. apply (page_at_inj pool geo) in E. lia.
    + intros w Hw. rewrite Ew. by apply Rw.
    + intros z Hz Hza. rewrite slot_hdr in Hz by lia. rewrite <- Rn, <- Rp. apply Elinks. rewrite not_elem_of_cons. split; [apply Hza; lia|done].
Qed.

Lemma swp_zero_words i sh m (k : nat) n :
  0 <= i < npages pool -> 3 <= sh <= 11 -> 0 <= n -> n + Z.of_nat k = map_words sh ->
  wp (zero_words pool (base pool i) n k) m
    (fun _ m' => rewritten i m m' /\ slab m' = slab m /\
       forall n', 0 <= n' < map_words sh -> word m' (bitmap_at (base pool i) n') = if n' <? n then word m (bitmap_at (base pool i) n') else 0).
Proof.
  intros Hi Hs. revert n m. induction k as [|k IH]; intros n m Hn Hk; cbn [zero_words].
  - apply swp_ret. split; [done|]. split; [done|]. intros n' Hn'. by rewrite (proj2 (Z.ltb_lt _ _)) by lia.
  - apply swp_bind, swp_set_word; [apply (bitmap_valid i sh); [lia|done|lia]|]. eapply swp_mono; [apply IH; lia|].
    intros [] m' ([Rs Rw Rn Rp Rg] & Es & Hw). destruct (put_word_rewritten i sh n 0 m Hs) as [Rs' Rw' Rn' Rp' Rg']; [lia|]. split.
    + split; [intros z Hz; by rewrite Rs, Rs'|intros w Hw'; by rewrite Rw, Rw'|congruence..].
    + split; [done|]. intros n' Hn'. rewrite Hw by done. cbn. unfold upd. case Z.eqb_spec; intros E.
      * apply bitmap_at_inj in E as ->. rewrite Z.ltb_irrefl. by case_match.
      * assert (n' <> n) by (intros ->; done). case Z.ltb_spec; case Z.ltb_spec; intros; (done || lia).
Qed.

(** A page was found: the first chunk after the bitmap. *)
Definition fresh (r1 : list (Z * run)) (i k : Z) (r2 : list (Z * run)) (sh : Z) (m : mem) (p : Z) (m' : mem) : Prop :=
  p = base pool i + resv sh * 2 ^ sh /\ log m' = log m /\
  inv pool (r1 ++ ([(i, RSlab sh (first_bits sh))] ++ if k =? 1 then [] else [(i + 1, RFree (k - 1))]) ++ r2) m'.

Lemma word_of_first sh n :
  3 <= sh <= 11 -> sh < ngx_slab_exact_shift -> 0 <= n ->
  word_of (first_bits sh) n = if n =? 0 then Z.shiftl 2 (map_chunks sh) - 1 else 0.
Proof.
  intros Hs Hsh Hn. destruct (small_words sh Hs Hsh) as (_ & _ & Er & Hr1 & Hr2 & _). unfold word_of, first_bits.
  pose proof ptr_bits_pos. pose proof (ones_bound (resv sh + 1)) as Ho. pose proof (Z.pow_lt_mono_r 2 (resv sh + 1) ptr_bits) as Hpw.
  case Z.eqb_spec; intros E.
  - subst n. rewrite Z.shiftr_0_r, Z.mod_small by lia. rewrite Z.shiftl_mul_pow2, Z.ones_equiv, <- Er by lia.
    rewrite Z.pow_add_r by lia. lia.
  - rewrite Z.shiftr_div_pow2 by lia. rewrite Z.div_small; [by apply Z.mod_0_l, Z.pow_nonzero; lia|].
    pose proof (Z.pow_le_mono_r 2 ptr_bits (n * ptr_bits)). nia.
Qed.

(** No pages: only the log has changed. *)
Definition no_pages (rs : list (Z * run)) (n : Z) (m : mem) (p : Z) (m' : mem) : Prop :=
  p = 0 /\ (forall i k, (i, RFree k) ∈ rs -> k < n) /\
  m' = mkMem (slab m) (next m) (prev m) (word m) ((if log_nomem pool then [NoMemory] else []) ++ log m).

(** The page is cut, then it enters its slot. *)
Lemma swp_fresh_page r1 i k r2 sh m :
  inv pool (r1 ++ cut i 1 k ++ r2) m -> 3 <= sh <= 11 -> members pool (sh - 3) (r1 ++ cut i 1 k ++ r2) = [] ->
  wp (if sh <? ngx_slab_exact_shift then
        set_word pool (bitmap_at (base pool i) 0) (Z.shiftl 2 (map_chunks sh) - 1);;
        zero_words pool (base pool i) 1 (Z.to_nat (map_words sh - 1));;
        set_slab pool (page_at pool i) sh;;
        slot_first pool (sh - 3) (page_at pool i) NGX_SLAB_SMALL;;
        mret (base pool i + resv sh * 2 ^ sh)
      else if sh =? ngx_slab_exact_shift then
        set_slab pool (page_at pool i) 1;; slot_first pool (sh - 3) (page_at pool i) NGX_SLAB_EXACT;; mret (base pool i + resv sh * 2 ^ sh)
      else
        set_slab pool (page_at pool i) (Z.lor (Z.shiftl 1 NGX_SLAB_MAP_SHIFT) sh);;
        slot_first pool (sh - 3) (page_at pool i) NGX_SLAB_BIG;; mret (base pool i + resv sh * 2 ^ sh)) m
    (fresh r1 i k r2 sh m).
Proof.
  intros Hi Hs Hmem. set (rest := if k =? 1 then [] else [(i + 1, RFree (k - 1))]).
  assert (E : r1 ++ cut i 1 k ++ r2 = r1 ++ [(i, RBusy 1)] ++ (rest ++ r2)) by done. rewrite E in *. clear E.
  destruct (inv_places _ _ _ _ _ Hi) as (a & b & T1 & (-> & _ & <-) & T2). cbn [len] in *. pose proof (tiles_le _ _ _ T1). pose proof (tiles_le _ _ _ T2).
  assert (Hv : valid pool (page_at pool a) = true) by (apply (valid_page pool geo); lia).
  assert (Hend : forall m1, rewritten a m m1 -> occ pool m1 a sh (first_bits sh) ->
    wp (slot_first pool (sh - 3) (page_at pool a) (type_of sh);; mret (base pool a + resv sh * 2 ^ sh)) m1 (fresh r1 a k r2 sh m)).
  { intros m1 Rw Ho. apply swp_bind. eapply swp_mono; [by eapply swp_slab_first|]. intros [] m' [Hi' Hg']. apply swp_ret. split; [done|]. split; [done|].
    fold rest. by rewrite <- !app_assoc. }
  case Z.ltb_spec; intros Hsh.
  - rewrite (type_small sh) in Hend by (by apply Z.ltb_lt). destruct (small_words sh Hs Hsh) as (_ & Hmw & _).
    apply swp_bind, swp_set_word; [apply (bitmap_valid a sh); [lia|done|lia]|]. set (m1 := put_word _ _ _).
    assert (R1 : rewritten a m m1) by (apply (put_word_rewritten a sh); [done|lia]). apply swp_bind.
    eapply swp_mono; [apply (swp_zero_words a sh); lia|]. intros [] m2 ([Rs Rw Rn Rp Rg] & Es & Hw).
    apply swp_bind, swp_set_slab; [done|]. apply Hend.
    + destruct R1 as [Rs' Rw' Rn' Rp' Rg']. split; cbn; [intros z Hz; rewrite upd_ne, Rs, Rs' by done; done|intros w Hw'; by rewrite Rw, Rw'|congruence..].
    + apply occ_small; [done|]. split; [apply upd_eq|]. intros n Hn. cbn. rewrite Hw, word_of_first by lia. unfold m1. cbn.
      case Z.eqb_spec; case Z.ltb_spec; intros; try lia. subst. apply upd_eq.
  - case Z.eqb_spec; intros He.
    + rewrite (type_exact sh He) in Hend. apply swp_bind, swp_set_slab; [done|]. apply Hend; [apply put_slab_rewritten|].
      unfold occ. rewrite He, Z.ltb_irrefl, Z.eqb_refl. cbn. rewrite upd_eq. unfold first_bits. by rewrite (proj2 exact_chunks).
    + rewrite (type_big sh) in Hend by lia. apply swp_bind, swp_set_slab; [done|]. apply Hend; [apply put_slab_rewritten|].
      unfold occ. rewrite (proj2 (Z.ltb_ge _ _)), (proj2 (Z.eqb_neq _ _)) by lia. cbn. rewrite upd_eq. unfold first_bits.
      assert (Hb : ngx_slab_exact_shift < sh) by lia. by destruct (big_chunks sh Hs Hb) as (_ & -> & _).
Qed.

Lemma swp_alloc_fresh rs sh m :
  inv pool rs m -> 3 <= sh <= 11 -> members pool (sh - 3) rs = [] ->
  wp (alloc_fresh pool sh (sh - 3)) m
    (fun p m' => no_pages rs 1 m p m' \/
       exists r1 i k r2, rs = r1 ++ [(i, RFree k)] ++ r2 /\ 1 <= k /\ fresh r1 i k r2 sh m p m').
Proof.
  intros Hi Hs Hmem. unfold alloc_fresh. apply swp_bind. eapply swp_mono; [apply (swp_alloc_pages pool geo rs 1 m Hi); lia|].
  intros p m' [(r1 & i & k & r2 & -> & Hk & -> & Hi' & Ew & Eg)|Hno].
  - destruct (inv_places _ _ _ _ _ Hi) as (a & b & T1 & (-> & _ & <-) & T2). cbn [len] in *. pose proof (tiles_le _ _ _ T1). pose proof (tiles_le _ _ _ T2).
    assert (Hv : valid pool (page_at pool a) = true) by (apply (valid_page pool geo); lia).
    apply (valid_aligned pool geo) in Hv as [Hpos _]. rewrite (proj2 (Z.eqb_neq (page_at pool a) 0)) by lia.
    assert (Hmem' : members pool (sh - 3) (r1 ++ cut a 1 k ++ r2) = []).
    { rewrite !members_app in *. apply app_eq_nil in Hmem as [-> Hmem]. apply app_eq_nil in Hmem as [_ ->]. rewrite app_nil_r. unfold cut.
      rewrite members_cons, decide_False by done. case_match; [done|]. rewrite members_cons, decide_False; [done|]. simpl. intros [= ?]. lia. }
    pose proof (swp_fresh_page r1 a k r2 sh m' Hi' Hs Hmem') as Hf. cbv zeta. rewrite (Z.add_comm (start pool)), page_offset.
    assert (Hfin : forall p m2, fresh r1 a k r2 sh m' p m2 -> no_pages (r1 ++ [(a, RFree k)] ++ r2) 1 m p m2 \/
      exists r1' i k' r2', r1 ++ [(a, RFree k)] ++ r2 = r1' ++ [(i, RFree k')] ++ r2' /\ 1 <= k' /\ fresh r1' i k' r2' sh m p m2).
    { intros p m2 (? & ? & ?). right. exists r1, a, k, r2. do 3 (split; [done|]). split; [congruence|done]. }
    eapply swp_mono; [|exact Hfin]. revert Hf. unfold resv at 1 2 3. case Z.ltb_spec; intros Hsh.
    + replace (Z.shiftl (page_index pool (page_at pool a)) ngx_pagesize_shift + Z.shiftl 1 sh * map_chunks sh + start pool)
        with (base pool a + map_chunks sh * 2 ^ sh) by (rewrite <- page_offset, (Z.shiftl_mul_pow2 1) by lia; lia). done.
    + rewrite Z.mul_0_l, Z.add_0_r. done.
  - destruct Hno as (-> & ? & ?). apply swp_ret. left. done.
Qed.

(** ** Giving a chunk back *)

(** The runs without chunk [c] of page [i]. *)
Definition released (r1 : list (Z * run)) (i sh B c : Z) (r2 : list (Z * run)) : list (Z * run) :=
  if Z.clearbit B c =? Z.ones (resv sh) then freed r1 i 1 r2 else r1 ++ [(i, RSlab sh (Z.clearbit B c))] ++ r2.

(** A chunk in use, at [p]. *)
Record in_use (i sh B c p : Z) : Prop := {
  iu_chunk : resv sh <= c < chunks sh;
  iu_bit : Z.testbit B c = true;
  iu_addr : p = base pool i + c * 2 ^ sh
}.

Lemma pow2_mask k : 0 <= k -> Z.shiftl 1 k - 1 = Z.ones k.
Proof. intros. rewrite Z.shiftl_mul_pow2, Z.ones_equiv by done. lia. Qed.

(** The parts of the address of a chunk. *)
Lemma chunk_addr i sh B c p :
  3 <= sh <= 11 -> in_use i sh B c p ->
  Z.land p (Z.shiftl 1 sh - 1) = 0 /\ Z.shiftr (Z.land p (ngx_pagesize - 1)) sh = c /\
  Z.land p (Z.lnot (ngx_pagesize - 1)) = base pool i.
Proof.
  intros Hs [Hc _ ->]. destruct (chunks_size sh Hs) as (Hcs & _ & Hpos). pose proof (resv_bounds sh Hs).
  pose proof (base_aligned i) as Ha. apply Z.div_exact in Ha; [|lia]. set (b := base pool i / 4096) in *.
  assert (Hlt : 0 <= c * 2 ^ sh < 4096) by nia.
  assert (Em : (base pool i + c * 2 ^ sh) mod 4096 = c * 2 ^ sh).
  { rewrite Ha, (Z.mul_comm 4096 b), Z.add_comm, Z.mod_add, Z.mod_small by lia. done. }
  change (ngx_pagesize - 1) with (Z.ones 12). split_and!.
  - rewrite pow2_mask, Z.land_ones by lia. rewrite Ha, <- Hcs.
    replace (chunks sh * 2 ^ sh * b + c * 2 ^ sh) with ((chunks sh * b + c) * 2 ^ sh) by lia. apply Z.mod_mul. lia.
  - rewrite Z.land_ones by lia. change (2 ^ 12) with 4096. rewrite Em, Z.shiftr_div_pow2 by lia. apply Z.div_mul. lia.
  - rewrite <- Z.ldiff_land, Z.ldiff_ones_r, Z.shiftl_mul_pow2, Z.shiftr_div_pow2 by lia. change (2 ^ 12) with 4096.
    pose proof (Z.div_mod (base pool i + c * 2 ^ sh) 4096). lia.
Qed.

Lemma clearbit_ok m i sh B c :
  3 <= sh <= 11 -> resv sh <= c < chunks sh -> 0 <= B < 2 ^ chunks sh -> (forall c, 0 <= c < resv sh -> Z.testbit B c = true) ->
  occ pool m i sh (Z.clearbit B c) -> slab_ok m i sh (Z.clearbit B c) /\ full sh (Z.clearbit B c) = false.
Proof.
  intros Hs Hc Hb Hr Ho. pose proof (resv_bounds sh Hs). split.
  - split; [apply clearbit_bounds; lia|]. split; [|done]. intros d Hd. rewrite clearbit_test, Hr by lia. by rewrite (proj2 (Z.eqb_neq _ _)) by lia.
  - unfold full. apply Z.eqb_neq. intros E. apply (f_equal (fun x => Z.testbit x c)) in E.
    rewrite clearbit_test, Z.eqb_refl, Z.ones_spec_low in E by lia. done.
Qed.

(** The end of the three cases: the page is freed when only the bits of the bitmap are left. *)
Lemma swp_release r1 i sh B c r2 m m2 (b : bool) :
  inv pool (r1 ++ [(i, RSlab sh (Z.clearbit B c))] ++ r2) m2 -> full sh (Z.clearbit B c) = false -> solid r1 -> solid r2 ->
  log m2 = log m -> b = (Z.clearbit B c =? Z.ones (resv sh)) ->
  wp (if b then ngx_slab_free_pages pool (page_at pool i) 1 else mret tt) m2
    (fun _ m' => inv pool (released r1 i sh B c r2) m' /\ log m' = log m).
Proof.
  intros Hi Hf S1 S2 Hg ->. unfold released. case_match.
  - eapply swp_mono; [by eapply swp_free_slab|]. intros [] m' (? & _ & ?). split; [done|congruence].
  - apply swp_ret. done.
Qed.

Lemma swp_free_exact r1 i sh B c r2 m p :
  at_slab r1 i sh B r2 m -> sh = ngx_slab_exact_shift -> in_use i sh B c p -> solid r1 -> solid r2 ->
  wp (free_exact pool (page_at pool i) (slab m (page_at pool i)) p) m
    (fun _ m' => inv pool (released r1 i sh B c r2) m' /\ log m' = log m).
Proof.
  intros F Hsh U S1 S2. pose proof F as [_ _ _ _ Hr (_ & Hb & Hres & Ho & _) Hv]. destruct exact_chunks as [Hch Hrv].
  rewrite <- Hsh in Hch, Hrv. pose proof ptr_bits_pos. unfold occ in Ho. rewrite Hsh, Z.ltb_irrefl, Z.eqb_refl in Ho.
  destruct (chunk_addr _ _ _ _ _ Hr U) as (A1 & A2 & _). destruct U as [Hc Hbit _]. rewrite Hrv in Hc.
  assert (Esz : ngx_slab_exact_size = Z.shiftl 1 sh).
  { rewrite Hsh. unfold ngx_slab_exact_size, sizeof_uintptr. by destruct exact_shift_val as [[-> ->]|[-> ->]]. }
  unfold free_exact. cbv zeta. rewrite <- Hsh, A2, Esz, A1. simpl negb. cbv iota.
  rewrite (Z.shiftl_mul_pow2 1), Z.mul_1_l, land_pow2, Ho, Hbit by lia. simpl negb. cbv iota.
  rewrite (g_shift pool geo), busy_ones, <- (type_exact sh Hsh).
  apply swp_bind. eapply swp_mono; [apply (swp_unfull r1 i sh B r2 m _ F); unfold full; by rewrite Hch|].
  intros [] m1 (Es & Ew & Eg & Hnew). apply swp_bind. eapply swp_get_slab; [done|by rewrite Es|]. rewrite land_clearbit by lia.
  apply swp_bind, swp_set_slab; [done|]. set (m2 := put_slab _ _ _).
  assert (Ho2 : occ pool m2 i sh (Z.clearbit B c)) by (unfold occ; rewrite Hsh, Z.ltb_irrefl, Z.eqb_refl; apply upd_eq).
  destruct (clearbit_ok m2 i sh B c Hr ltac:(lia) Hb Hres Ho2) as [Hok2 Hf2].
  s_step. eapply swp_get_slab; [done|apply upd_eq|].
  pose proof (swp_release r1 i sh B c r2 m m2 (Z.clearbit B c =? 0)) as HR. rewrite Hrv in HR. change (Z.ones 0) with 0 in HR.
  rewrite if_negb. apply HR; try done. apply Hnew; try done. apply put_slab_rewritten.
Qed.

Lemma swp_free_big r1 i sh B c r2 m p :
  at_slab r1 i sh B r2 m -> ngx_slab_exact_shift < sh -> in_use i sh B c p -> solid r1 -> solid r2 ->
  wp (free_big pool (page_at pool i) (slab m (page_at pool i)) p) m
    (fun _ m' => inv pool (released r1 i sh B c r2) m' /\ log m' = log m).
Proof.
  intros F Hsh U S1 S2. pose proof F as [Hi _ _ _ Hr (_ & Hb & Hres & Ho & _) Hv].
  destruct (big_chunks sh Hr Hsh) as (H1 & Hrv & H2 & H3). destruct (chunks_size sh Hr) as (_ & H0 & _).
  assert (Eocc : forall m B, occ pool m i sh B <-> slab m (page_at pool i) = Z.lor (Z.shiftl B NGX_SLAB_MAP_SHIFT) sh).
  { intros m' B'. unfold occ. rewrite (proj2 (Z.ltb_ge _ _)) by lia. by rewrite (proj2 (Z.eqb_neq _ _)) by lia. }
  apply Eocc in Ho. destruct (big_fields sh B Hr Hsh Hb) as (Bt & _ & Bsh & _ & Bc).
  destruct (chunk_addr _ _ _ _ _ Hr U) as (A1 & A2 & _). destruct U as [Hc Hbit _]. rewrite Hrv in Hc.
  unfold free_big. cbv zeta. rewrite Ho, Bsh, A1, A2. simpl negb. cbv iota.
  rewrite (Z.shiftl_mul_pow2 1), Z.mul_1_l, (Z.add_comm c), land_pow2, Bt, Hbit by lia. simpl negb. cbv iota.
  assert (Hin : (i, RSlab sh B) ∈ r1 ++ [(i, RSlab sh B)] ++ r2) by (rewrite !elem_of_app; right; left; by left).
  destruct (first_page pool geo _ _ _ _ Hi Hin) as [_ Hnx].
  s_step. s_step. rewrite (g_shift pool geo), <- (type_big sh Hsh).
  apply swp_bind. eapply swp_mono; [apply (swp_unfull r1 i sh B r2 m _ F)|].
  { case Z.eqb_spec; intros E; symmetry; [by apply Hnx|]. apply not_true_is_false. intros Hf. apply E. by apply Hnx. }
  intros [] m1 (Es & Ew & Eg & Hnew). apply swp_bind. eapply swp_get_slab; [done|by rewrite Es, Ho|]. rewrite Ho, land_clearbit, Bc by lia.
  apply swp_bind, swp_set_slab; [done|]. set (m2 := put_slab _ _ _).
  assert (Ho2 : occ pool m2 i sh (Z.clearbit B c)) by (apply Eocc; apply upd_eq).
  destruct (clearbit_ok m2 i sh B c Hr ltac:(lia) Hb Hres Ho2) as [Hok2 Hf2].
  s_step. eapply swp_get_slab; [done|apply upd_eq|]. pose proof Hok2 as (Hb2 & _).
  destruct (big_fields sh (Z.clearbit B c) Hr Hsh Hb2) as (_ & Bm & _). rewrite Bm.
  rewrite <- (Z.shiftl_0_l NGX_SLAB_MAP_SHIFT), shiftl_eqb, if_negb by lia.
  apply (swp_release r1 i sh B c r2 m m2 (Z.clearbit B c =? 0)); try done; [|by rewrite Hrv]. apply Hnew; try done. apply put_slab_rewritten.
Qed.

(** Only the bits of the bitmap are left: what the code looks at. *)
Lemma empty_words sh B :
  3 <= sh <= 11 -> sh < ngx_slab_exact_shift -> 0 <= B < 2 ^ chunks sh -> (forall c, 0 <= c < resv sh -> Z.testbit B c = true) ->
  B = Z.ones (resv sh) <->
  Z.land (word_of B 0) (Z.lnot (Z.ones (resv sh))) = 0 /\ forall n, 1 <= n < map_words sh -> word_of B n = 0.
Proof.
  intros Hs Hsh HB Hr. destruct (small_words sh Hs Hsh) as (Ech & Hmw & _ & Hr1 & Hr2 & _). pose proof ptr_bits_pos.
  assert (Hlow : forall i, 0 <= i < ptr_bits -> Z.testbit (Z.land (word_of B 0) (Z.lnot (Z.ones (resv sh)))) i = Z.testbit B i && negb (i <? resv sh)).
  { intros i Hi. rewrite Z.land_spec, word_of_bit, Z.lnot_spec by lia. rewrite Z.mul_0_l, Z.add_0_l. f_equal. f_equal.
    case Z.ltb_spec; intros; [apply Z.ones_spec_low|apply Z.ones_spec_high]; lia. }
  split.
  - intros E. split.
    + apply Z.bits_inj'. intros i Hi. rewrite Z.bits_0. destruct (Z.ltb_spec i ptr_bits).
      * rewrite Hlow by lia. rewrite E. case Z.ltb_spec; intros; [apply andb_false_r|]. by rewrite Z.ones_spec_high by lia.
      * rewrite Z.land_spec, (bits_high (word_of B 0) ptr_bits); [done|apply word_of_bounds|lia].
    + intros n Hn. rewrite E. unfold word_of. rewrite Z.shiftr_div_pow2 by lia. pose proof (ones_bound (resv sh)).
      pose proof (Z.pow_lt_mono_r 2 (resv sh) ptr_bits). pose proof (Z.pow_le_mono_r 2 ptr_bits (n * ptr_bits)).
      rewrite Z.div_small by nia. apply Z.mod_0_l, Z.pow_nonzero; lia.
  - intros [E0 En]. apply (bits_eq (chunks sh)).
    + lia.
    + done.
    + pose proof (ones_bound (resv sh)). pose proof (Z.pow_le_mono_r 2 (resv sh) (chunks sh)). nia.
    + intros i Hi. destruct (Z.ltb_spec i (resv sh)); [rewrite Hr, Z.ones_spec_low by lia; done|]. rewrite Z.ones_spec_high by lia.
      destruct (Z.ltb_spec i ptr_bits).
      * apply (f_equal (fun x => Z.testbit x i)) in E0. rewrite Hlow, Z.bits_0 in E0 by lia. rewrite (proj2 (Z.ltb_ge i (resv sh))) in E0 by lia.
        by rewrite andb_true_r in E0.
      * rewrite (Z.div_mod i ptr_bits), Z.mul_comm by lia. assert (0 <= i mod ptr_bits < ptr_bits) by (apply Z.mod_pos_bound; lia).
        assert (1 <= i / ptr_bits < map_words sh) by (split; [apply Z.div_le_lower_bound; lia|apply Z.div_lt_upper_bound; lia]).
        rewrite <- word_of_bit, En by lia. apply Z.bits_0.
Qed.

Lemma swp_more_set i sh B m (k : nat) n :
  0 <= i < npages pool -> 3 <= sh <= 11 -> 0 <= n -> n + Z.of_nat k = map_words sh ->
  (forall n, 0 <= n < map_words sh -> word m (bitmap_at (base pool i) n) = word_of B n) ->
  wp (more_set pool (base pool i) n k) m
    (fun b m' => m' = m /\ (b = false <-> forall n', n <= n' < map_words sh -> word_of B n' = 0)).
Proof.
  intros Hi Hr. revert n. induction k as [|k IH]; intros n Hn Hk Hw; cbn [more_set].
  - apply swp_ret. split; [done|]. split; [|done]. intros _ n' Hn'. lia.
  - apply swp_bind. eapply swp_get_word; [apply (bitmap_valid i sh); [done|done|lia]|by apply Hw; lia|].
    case Z.eqb_spec; intros E; simpl.
    + eapply swp_mono; [apply IH; [lia|lia|done]|]. intros b m' [-> Hb]. split; [done|]. rewrite Hb. split.
      * intros H n' Hn'. destruct (decide (n' = n)) as [->|]; [done|apply H; lia].
      * intros H n' Hn'. apply H. lia.
    + apply swp_ret. split; [done|]. split; [done|]. intros H. exfalso. apply E, H. lia.
Qed.

Lemma swp_free_small r1 i sh B c r2 m p :
  at_slab r1 i sh B r2 m -> sh < ngx_slab_exact_shift -> in_use i sh B c p -> solid r1 -> solid r2 ->
  wp (free_small pool (page_at pool i) (slab m (page_at pool i)) p) m
    (fun _ m' => inv pool (released r1 i sh B c r2) m' /\ log m' = log m).
Proof.
  intros F Hsh U S1 S2. pose proof F as [Hi _ _ Hii Hr (_ & Hb & Hres & Ho & _) Hv]. pose proof ptr_bits_pos.
  destruct (small_words sh Hr Hsh) as (Ech & Hmw & Erv & Hr1 & Hr2 & _). pose proof Ho as Ho'. apply occ_small in Ho' as [Hs Hw]; [|done].
  destruct (chunk_addr _ _ _ _ _ Hr U) as (A1 & A2 & A3). destruct U as [Hc Hbit _].
  assert (Esh : Z.land sh NGX_SLAB_SHIFT_MASK = sh) by (change NGX_SLAB_SHIFT_MASK with (Z.ones 4); rewrite Z.land_ones by lia; apply Z.mod_small; lia).
  assert (E8 : sizeof_uintptr * 8 = ptr_bits) by (destruct widths as [(-> & -> & _)|(-> & -> & _)]; done).
  assert (Emod : Z.land c (ptr_bits - 1) = c mod ptr_bits).
  { destruct ptr_bits_cases as [-> | ->]; [apply (Z.land_ones c 5)|apply (Z.land_ones c 6)]; lia. }
  unfold free_small. cbv zeta. rewrite Hs, Esh, A1, A2, A3, E8, Emod. simpl negb. cbv iota.
  set (n := c / ptr_bits). set (d := c mod ptr_bits).
  assert (Hd : 0 <= d < ptr_bits) by (apply Z.mod_pos_bound; lia). assert (Ecd : c = n * ptr_bits + d) by (unfold n, d; pose proof (Z.div_mod c ptr_bits); lia).
  assert (Hn : 0 <= n < map_words sh) by (unfold n; split; [apply Z.div_pos; lia|apply Z.div_lt_upper_bound; lia]).
  apply swp_bind. eapply swp_get_word; [apply (bitmap_valid i sh); [lia|done|done]|by apply Hw|].
  rewrite (Z.shiftl_mul_pow2 1 d), Z.mul_1_l, land_pow2, word_of_bit, <- Ecd, Hbit by lia. simpl negb. cbv iota.
  assert (Hin : (i, RSlab sh B) ∈ r1 ++ [(i, RSlab sh B)] ++ r2) by (rewrite !elem_of_app; right; left; by left).
  destruct (first_page pool geo _ _ _ _ Hi Hin) as [_ Hnx].
  s_step. s_step. rewrite (g_shift pool geo), <- (type_small sh) by (by apply Z.ltb_lt).
  apply swp_bind. eapply swp_mono; [apply (swp_unfull r1 i sh B r2 m _ F)|].
  { case Z.eqb_spec; intros E; symmetry; [by apply Hnx|]. apply not_true_is_false. intros Hf. apply E. by apply Hnx. }
  intros [] m1 (Es & Ew & Eg & Hnew). apply swp_bind. eapply swp_get_word; [apply (bitmap_valid i sh); [lia|done|done]|rewrite Ew; by apply Hw|].
  rewrite land_clearbit by lia. apply swp_bind, swp_set_word; [apply (bitmap_valid i sh); [lia|done|done]|]. set (m2 := put_word _ _ _).
  assert (Ho2 : occ pool m2 i sh (Z.clearbit B c)).
  { apply (occ_put_word m1 i sh B n); [done| |].
    - unfold occ in *. by rewrite Es, Ew.
    - intros n' Hn'. rewrite Ecd. apply word_of_clearbit; lia. }
  destruct (clearbit_ok m2 i sh B c Hr ltac:(lia) Hb Hres Ho2) as [Hok2 Hf2]. pose proof Hok2 as (Hb2 & Hres2 & _).
  pose proof Ho2 as Ho2'. apply occ_small in Ho2' as [_ Hw2]; [|done]. pose proof (empty_words sh _ Hr Hsh Hb2 Hres2) as Hemp.
  assert (HR : forall b, b = (Z.clearbit B c =? Z.ones (resv sh)) -> wp (if b then ngx_slab_free_pages pool (page_at pool i) 1 else mret tt) m2
    (fun _ m' => inv pool (released r1 i sh B c r2) m' /\ log m' = log m)).
  { intros b Eb. eapply (swp_release r1 i sh B c r2 m m2); try done. apply Hnew; try done. by apply (put_word_rewritten i sh). }
  apply swp_bind. eapply swp_get_word; [apply (bitmap_valid i sh); [lia|done|lia]|apply Hw2; lia|].
  rewrite <- Erv, pow2_mask by lia. case Z.eqb_spec; intros E0; simpl negb; cbv iota.
  - apply swp_bind. eapply swp_mono; [apply (swp_more_set i sh (Z.clearbit B c)); [lia|done|lia|lia|done]|]. intros more m' [-> Hmore].
    specialize (HR (negb more)). rewrite if_negb in HR. apply HR. destruct more; simpl; symmetry.
    + apply Z.eqb_neq. intros E. apply Hemp in E as [_ E]. by apply Hmore in E.
    + apply Z.eqb_eq, Hemp. split; [done|]. by apply Hmore.
  - apply (HR false). symmetry. apply Z.eqb_neq. intros E. by apply Hemp in E as [E _].
Qed.
End Chunks.
End SlabChunks.
