(* ===== verification/NgxSlabSpec.v ===== *)
(** * What the slab allocator promises

    The blocks in use of a pool: an allocation is a new block apart from all the others,
    inside of the pages, and freeing a block gives up just that one.  The allocator of
    NgxSlab.v is an instance of [SlabPool], which the zones of the request limiter rely
    on. *)

From stdpp Require Import gmap fin_maps.
From S2P Require Import Prelude NgxSlab NgxSlabRep NgxSlabInv NgxSlabPages NgxSlabBits NgxSlabChunks HttpLimitReq.

Module SlabSpec.
Import Slab SlabRep SlabInv SlabPages SlabBits SlabChunks.

Section Spec.
Context {arch : Arch} {layout : SlabLayout}.
#[local] Existing Instance page_4k.
Variable pool : ngx_slab_pool_t.

(** ** The blocks of the runs *)

(** The block at [p], of [cap] bytes, is one of the run [r] at page [i]. *)
Definition held (i : Z) (r : run) (p cap : Z) : Prop :=
  match r with
  | RBusy k => p = base pool i /\ cap = k * 4096
  | RSlab sh B => exists c, resv sh <= c < chunks sh /\ Z.testbit B c = true /\ p = base pool i + c * 2 ^ sh /\ cap = 2 ^ sh
  | _ => False
  end.

Definition holds (rs : list (Z * run)) (p cap : Z) : Prop := exists i r, (i, r) ∈ rs /\ held i r p cap.

Lemma holds_app rs1 rs2 p cap : holds (rs1 ++ rs2) p cap <-> holds rs1 p cap \/ holds rs2 p cap.
Proof. unfold holds. setoid_rewrite elem_of_app. naive_solver. Qed.

Lemma holds_cons i r rs p cap : holds ((i, r) :: rs) p cap <-> held i r p cap \/ holds rs p cap.
Proof.
  unfold holds. setoid_rewrite elem_of_cons. split.
  - intros (j & r' & [E|Hin] & Hh); [simplify_eq; by left|right; eauto].
  - intros [Hh|(j & r' & Hin & Hh)]; eauto.
Qed.

Lemma holds_nil p cap : holds [] p cap <-> False.
Proof. split; [|done]. intros (i & r & Hin & _). by apply elem_of_nil in Hin. Qed.

(** Runs between two operations: no page is being freed, free runs are not neighbours, and
    a page of chunks has one in use. *)
Definition is_free (x : Z * run) : bool := match x.2 with RFree _ => true | _ => false end.

Fixpoint spaced (rs : list (Z * run)) : Prop :=
  match rs with
  | x :: (y :: _) as rs' => is_free x && is_free y = false /\ spaced rs'
  | _ => True
  end.

Definition plain (x : Z * run) : Prop :=
  match x.2 with RLoose _ => False | RSlab sh B => B <> Z.ones (resv sh) | _ => True end.

Definition tidy (rs : list (Z * run)) : Prop := Forall plain rs /\ spaced rs.

(** A block of [cap] bytes for [n]: no page of a run is without use. *)
Definition fits (n cap : Z) : Prop := 0 <= n <= cap /\ (4096 <= cap -> cap < n + 4096).

(** The blocks in use are the blocks of the runs. *)
Definition accounts (rs : list (Z * run)) (live : gmap Z Z) : Prop :=
  (forall p n, live !! p = Some n -> exists cap, holds rs p cap /\ fits n cap) /\
  (forall p cap, holds rs p cap -> is_Some (live !! p)).

Definition good (m : mem) (live : gmap Z Z) : Prop := exists rs, inv pool rs m /\ tidy rs /\ accounts rs live.

Lemma tidy_solid rs : tidy rs -> solid rs.
Proof. intros [Hp _] i k Hin. rewrite Forall_forall in Hp. apply (Hp _ Hin). Qed.

Definition starts_free (rs : list (Z * run)) : bool := match rs with x :: _ => is_free x | [] => false end.
Definition ends_free (rs : list (Z * run)) : bool := match list_basics.list.last rs with Some x => is_free x | None => false end.

Lemma spaced_app rs1 rs2 :
  spaced (rs1 ++ rs2) <-> spaced rs1 /\ spaced rs2 /\ ends_free rs1 && starts_free rs2 = false.
Proof.
  induction rs1 as [|x [|y rs1] IH]; [simpl; naive_solver| |].
  - destruct rs2; simpl; rewrite ?andb_false_r; naive_solver.
  - assert (E1 : spaced ((x :: y :: rs1) ++ rs2) <-> is_free x && is_free y = false /\ spaced ((y :: rs1) ++ rs2)) by done.
    assert (E2 : spaced (x :: y :: rs1) <-> is_free x && is_free y = false /\ spaced (y :: rs1)) by done. rewrite E1, IH, E2.
    assert (E : ends_free (x :: y :: rs1) = ends_free (y :: rs1)) by done. rewrite E. tauto.
Qed.

Lemma spaced_cons x rs : spaced (x :: rs) <-> spaced rs /\ is_free x && starts_free rs = false.
Proof. rewrite (spaced_app [x] rs). simpl. tauto. Qed.

Lemma tidy_app rs1 rs2 : tidy (rs1 ++ rs2) <-> tidy rs1 /\ tidy rs2 /\ ends_free rs1 && starts_free rs2 = false.
Proof. unfold tidy. rewrite Forall_app, spaced_app. tauto. Qed.

Lemma tidy_cons x rs : tidy (x :: rs) <-> plain x /\ tidy rs /\ is_free x && starts_free rs = false.
Proof. unfold tidy. rewrite Forall_cons, spaced_cons. tauto. Qed.

(** A free run is cut. *)
Lemma tidy_cut r1 i k r2 x n :
  tidy (r1 ++ [(i, RFree k)] ++ r2) -> plain x -> is_free x = false ->
  tidy (r1 ++ (x :: if k =? n then [] else [(i + n, RFree (k - n))]) ++ r2).
Proof.
  rewrite !tidy_app. cbn [app]. rewrite tidy_cons. simpl. intros (H1 & (_ & H2 & H3) & H4) Hx Hf.
  rewrite tidy_cons, Hf. simpl. rewrite andb_false_r. split_and!; try done.
  - case_match; [done|]. by rewrite tidy_cons.
  - rewrite H3. apply andb_false_r.
Qed.

(** A run is replaced. *)
Lemma tidy_swap r1 x y r2 :
  tidy (r1 ++ [x] ++ r2) -> plain y -> is_free y = false -> tidy (r1 ++ [y] ++ r2).
Proof.
  rewrite (tidy_app r1 ([x] ++ r2)), (tidy_app r1 ([y] ++ r2)). cbn [app]. rewrite !tidy_cons. cbn [starts_free].
  intros (H1 & (_ & H2 & H3) & H4) Hx Hf. rewrite Hf, andb_false_r. done.
Qed.

(** A run is freed. *)
Lemma tidy_freed r1 x i k r2 : tidy (r1 ++ [x] ++ r2) -> is_free x = false -> tidy (freed r1 i k r2).
Proof.
  rewrite tidy_app. cbn [app]. rewrite tidy_cons. intros (H1 & (_ & H2 & _) & _) _. unfold freed.
  assert (E2 : exists k' r2', join_after k r2 = (k', r2') /\ tidy r2' /\ starts_free r2' = false).
  { destruct r2 as [|[j r] r2]; [by eexists _, _|]. pose proof H2 as H2'. rewrite tidy_cons in H2'. destruct H2' as (_ & H2' & H3).
    destruct r; simpl in *; eexists _, _; split_and!; try reflexivity; done. }
  destruct E2 as (k' & r2' & -> & H2' & Hs). clear H2.
  assert (E1 : exists r1' i' k'', join_before r1 i k' = (r1', i', k'') /\ tidy r1' /\ ends_free r1' = false).
  { unfold join_before. destruct r1 as [|[j r] r1 _] using rev_ind; [by eexists _, _, _|]. rewrite last_snoc, removelast_last.
    assert (Hl : ends_free (r1 ++ [(j, r)]) = is_free (j, r)) by (unfold ends_free; by rewrite last_snoc).
    pose proof H1 as H1'. rewrite tidy_app in H1'. destruct H1' as (H1' & _ & H3).
    destruct r; eexists _, _, _; split_and!; try reflexivity; try done. simpl in H3. by rewrite andb_true_r in H3. }
  destruct E1 as (r1' & i' & k'' & -> & H1' & He). rewrite tidy_app. cbn [app]. rewrite tidy_cons. simpl. by rewrite He, Hs.
Qed.

Lemma holds_freed r1 i k r2 p cap : holds (freed r1 i k r2) p cap <-> holds r1 p cap \/ holds r2 p cap.
Proof.
  unfold freed. assert (E2 : exists k' r2', join_after k r2 = (k', r2') /\ (holds r2' p cap <-> holds r2 p cap)).
  { destruct r2 as [|[j r] r2]; [by eexists _, _|]. destruct r; simpl; eexists _, _; (split; [reflexivity|]); try done.
    rewrite holds_cons. simpl. tauto. }
  destruct E2 as (k' & r2' & -> & <-).
  assert (E1 : exists r1' i' k'', join_before r1 i k' = (r1', i', k'') /\ (holds r1' p cap <-> holds r1 p cap)).
  { unfold join_before. destruct r1 as [|[j r] r1 _] using rev_ind; [by eexists _, _, _|]. rewrite last_snoc, removelast_last.
    destruct r; eexists _, _, _; (split; [reflexivity|]); try done. rewrite holds_app, holds_cons, holds_nil. simpl. tauto. }
  destruct E1 as (r1' & i' & k'' & -> & <-). rewrite holds_app. cbn [app]. rewrite holds_cons. simpl. tauto.
Qed.

Context (geo : geometry pool).

(** ** Where blocks are *)

Lemma held_place rs m i r p cap :
  inv pool rs m -> (i, r) ∈ rs -> held i r p cap ->
  base pool i <= p < base pool (i + 1) /\ p + cap <= base pool (i + len r) /\ p mod 8 = 0 /\ 0 < cap.
Proof.
  intros Hi Hin Hh. pose proof (inv_runs _ _ _ Hi i r Hin) as Hr. pose proof (tiles_in _ _ _ _ _ (inv_tiles _ _ _ Hi) Hin) as (_ & Hlen & _).
  pose proof (base_aligned pool geo i) as Ha.
  destruct r as [k|k|k|sh B]; simpl in *; try done.
  - destruct Hh as [-> ->]. unfold base in *. split_and!; try lia. Z.to_euclidean_division_equations; lia.
  - destruct Hh as (c & Hc & _ & -> & ->). destruct Hr as (Hs & _). destruct (chunks_size sh Hs) as (E & _ & Hp). pose proof (resv_bounds sh Hs).
    assert (E8 : 2 ^ sh = 8 * 2 ^ (sh - 3)) by (change 8 with (2 ^ 3); rewrite <- Z.pow_add_r by lia; f_equal; lia).
    split_and!; try (unfold base in *; nia). rewrite E8. replace (base pool i + c * (8 * 2 ^ (sh - 3))) with (base pool i + (c * 2 ^ (sh - 3)) * 8) by lia.
    rewrite Z.mod_add by lia. Z.to_euclidean_division_equations; lia.
Qed.

(** Two blocks do not overlap. *)
Lemma holds_apart rs m p cap q cap' :
  inv pool rs m -> holds rs p cap -> holds rs q cap' -> p = q \/ p + cap <= q \/ q + cap' <= p.
Proof.
  intros Hi (i & r & Hin & Hh) (j & r' & Hin' & Hh').
  destruct (held_place _ _ _ _ _ _ Hi Hin Hh) as (P1 & P2 & _ & _). destruct (held_place _ _ _ _ _ _ Hi Hin' Hh') as (Q1 & Q2 & _ & _).
  pose proof (tiles_in _ _ _ _ _ (inv_tiles _ _ _ Hi) Hin) as (_ & Hlen & _). pose proof (tiles_in _ _ _ _ _ (inv_tiles _ _ _ Hi) Hin') as (_ & Hlen' & _).
  destruct (decide (i + len r <= j)); [right; left; unfold base in *; lia|]. destruct (decide (j + len r' <= i)); [right; right; unfold base in *; lia|].
  assert (i = j /\ r = r') as [-> ->] by (eapply (tiles_inj _ _ _ i r j r' (Z.max i j)); [apply (inv_tiles _ _ _ Hi)|done|done|lia|lia]).
  clear P1 P2 Q1 Q2. destruct r' as [k|k|k|sh B]; simpl in *; try done; [by destruct Hh as [-> _], Hh' as [-> _]; left|].
  destruct Hh as (c & _ & _ & -> & ->), Hh' as (c' & _ & _ & -> & ->). destruct (decide (c = c')) as [->|]; [by left|].
  destruct (inv_runs _ _ _ Hi _ _ Hin) as (Hs & _). destruct (chunks_size sh Hs) as (_ & _ & Hp). nia.
Qed.

Lemma holds_in rs m p cap :
  inv pool rs m -> holds rs p cap -> start pool <= p /\ p + cap <= end_ pool /\ p mod 8 = 0 /\ 0 < p.
Proof.
  intros Hi (i & r & Hin & Hh). destruct (held_place _ _ _ _ _ _ Hi Hin Hh) as (P1 & P2 & P3 & P4).
  pose proof (tiles_in _ _ _ _ _ (inv_tiles _ _ _ Hi) Hin) as (? & _ & ?). destruct (g_end pool geo) as [He _].
  pose proof (places pool geo) as (_ & ? & ? & ? & ? & ? & ? & ? & ? & _).
  assert (0 < start pool) by (unfold nslots in *; destruct widths as [(_ & _ & E)|(_ & _ & E)]; rewrite E in *; lia).
  unfold base in *. split_and!; try done; lia.
Qed.

(** ** Allocation *)

(** The runs [rs'] have the blocks of [rs] and a new one. *)
Definition grows (rs : list (Z * run)) (p cap : Z) (rs' : list (Z * run)) : Prop :=
  (forall q c, holds rs' q c <-> holds rs q c \/ (q = p /\ c = cap)) /\ (forall c, ~ holds rs p c).

Lemma grows_mid r1 i r r2 new p cap m :
  inv pool (r1 ++ [(i, r)] ++ r2) m -> (forall q c, holds new q c <-> held i r q c \/ (q = p /\ c = cap)) ->
  base pool i <= p < base pool (i + 1) -> (forall c, ~ held i r p c) ->
  grows (r1 ++ [(i, r)] ++ r2) p cap (r1 ++ new ++ r2).
Proof.
  intros Hi Hnew Hp Hno. assert (Hin : (i, r) ∈ r1 ++ [(i, r)] ++ r2) by (rewrite !elem_of_app; right; left; by left). split.
  - intros q c. rewrite !holds_app, holds_cons, holds_nil, Hnew. tauto.
  - intros c (j & r' & Hin' & Hh). destruct (held_place _ _ _ _ _ _ Hi Hin' Hh) as (Hq & _). assert (j = i) as -> by (unfold base in *; lia).
    pose proof (tiles_in _ _ _ _ _ (inv_tiles _ _ _ Hi) Hin) as (_ & ? & _). pose proof (tiles_in _ _ _ _ _ (inv_tiles _ _ _ Hi) Hin') as (_ & ? & _).
    destruct (tiles_inj _ _ _ i r' i r i (inv_tiles _ _ _ Hi) Hin' Hin) as [_ ->]; [lia|lia|]. by apply (Hno c).
Qed.

Lemma holds_rest i n k q c : holds (if k =? n then [] else [(i + n, RFree (k - n))]) q c <-> False.
Proof. case_match; [apply holds_nil|]. rewrite holds_cons, holds_nil. simpl. tauto. Qed.

(** A chunk of a page that has one free. *)
Lemma taken_grows r1 i sh B r2 m c :
  inv pool (r1 ++ [(i, RSlab sh B)] ++ r2) m -> 0 <= c < chunks sh -> Z.testbit B c = false ->
  tidy (r1 ++ [(i, RSlab sh B)] ++ r2) ->
  tidy (r1 ++ [(i, RSlab sh (Z.setbit B c))] ++ r2) /\
  grows (r1 ++ [(i, RSlab sh B)] ++ r2) (base pool i + c * 2 ^ sh) (2 ^ sh) (r1 ++ [(i, RSlab sh (Z.setbit B c))] ++ r2).
Proof.
  intros Hi Hc Hb Ht. destruct (inv_runs _ _ _ Hi i (RSlab sh B)) as (Hs & _ & Hres & _); [rewrite !elem_of_app; right; left; by left|].
  destruct (chunks_size sh Hs) as (E & _ & Hp). destruct (resv_bounds sh Hs) as (R0 & _).
  assert (Hcr : resv sh <= c) by (destruct (decide (resv sh <= c)); [done|]; rewrite Hres in Hb by lia; done). split.
  - eapply tidy_swap; [exact Ht| |done]. simpl. intros E'. apply (f_equal (fun x => Z.testbit x c)) in E'.
    by rewrite setbit_test, Z.eqb_refl, Z.ones_spec_high in E' by lia.
  - eapply grows_mid; [exact Hi| | |].
    + intros q cap. rewrite holds_cons, holds_nil. simpl. split.
      * intros [(d & Hd & Hdb & -> & ->)|[]]. rewrite setbit_test in Hdb by lia. destruct (Z.eqb_spec d c) as [->|]; [by right|].
        left. by exists d.
      * intros [(d & Hd & Hdb & -> & ->)|[-> ->]]; left; [exists d|exists c]; rewrite setbit_test by lia.
        -- rewrite Hdb, orb_true_r. split_and!; try lia; done.
        -- rewrite Z.eqb_refl. split_and!; try lia; done.
    + unfold base. nia.
    + intros cap (d & Hd & Hdb & Ed & _). assert (d = c) as -> by nia. congruence.
Qed.

(** Pages, and the first chunk of a new page. *)
Lemma cut_grows r1 i n k r2 m :
  inv pool (r1 ++ [(i, RFree k)] ++ r2) m -> tidy (r1 ++ [(i, RFree k)] ++ r2) ->
  tidy (r1 ++ cut i n k ++ r2) /\ grows (r1 ++ [(i, RFree k)] ++ r2) (base pool i) (n * 4096) (r1 ++ cut i n k ++ r2).
Proof.
  intros Hi Ht. split; [by apply tidy_cut|]. eapply grows_mid; [exact Hi| |unfold base; lia|by intros c []].
  intros q c. unfold cut. rewrite holds_cons, holds_rest. simpl. tauto.
Qed.

Lemma fresh_grows r1 i k r2 sh m :
  inv pool (r1 ++ [(i, RFree k)] ++ r2) m -> tidy (r1 ++ [(i, RFree k)] ++ r2) -> 3 <= sh <= 11 ->
  let rs' := r1 ++ ([(i, RSlab sh (first_bits sh))] ++ if k =? 1 then [] else [(i + 1, RFree (k - 1))]) ++ r2 in
  tidy rs' /\ grows (r1 ++ [(i, RFree k)] ++ r2) (base pool i + resv sh * 2 ^ sh) (2 ^ sh) rs'.
Proof.
  intros Hi Ht Hs rs'. destruct (chunks_size sh Hs) as (E & _ & Hp). destruct (resv_bounds sh Hs) as (R0 & R1 & _). split.
  - apply tidy_cut; [done| |done]. simpl. unfold first_bits. intros E'. apply (f_equal (fun x => Z.testbit x (resv sh))) in E'.
    rewrite Z.ones_spec_low, Z.ones_spec_high in E' by lia. done.
  - eapply grows_mid; [exact Hi| |unfold base; nia|by intros c []]. intros q c. cbn [app]. rewrite holds_cons, holds_rest. simpl. split.
    + intros [(d & Hd & Hdb & -> & ->)|[]]. right. unfold first_bits in Hdb. destruct (decide (d = resv sh)) as [->|]; [done|].
      rewrite Z.ones_spec_high in Hdb by lia. done.
    + intros [[]|[-> ->]]. left. exists (resv sh). unfold first_bits. rewrite Z.ones_spec_low by lia. split_and!; try done; lia.
Qed.

(** The size of the chunks for a size. *)
Lemma size_class_ok size :
  0 <= size < 2048 -> exists sh, size_class pool size = (sh, sh - 3) /\ 3 <= sh <= 11 /\ fits size (2 ^ sh).
Proof.
  intros Hs. unfold size_class. rewrite (g_size pool geo), (g_shift pool geo).
  assert (Hall : forall w, w = 32 \/ w = 64 -> forallb (fun n => let size := Z.of_nat n in
    (size <=? 8) || (let sh := shift_loop (Z.to_nat w) (size - 1) 1 in (3 <=? sh) && (sh <=? 11) && (size <=? 2 ^ sh))) (seq 0 2048) = true)
    by (intros w [-> | ->]; vm_compute; done).
  specialize (Hall ptr_bits ptr_bits_cases). rewrite forallb_forall in Hall. specialize (Hall (Z.to_nat size)). rewrite Z2Nat.id in Hall by lia.
  rewrite Z.gtb_ltb. case Z.ltb_spec; intros H8.
  - assert (Hin : In (Z.to_nat size) (seq 0 2048)) by (apply in_seq; lia). specialize (Hall Hin). cbv zeta in Hall.
    rewrite (proj2 (Z.leb_gt size 8)) in Hall by lia. simpl orb in Hall. rewrite !andb_true_iff, !Z.leb_le in Hall.
    destruct Hall as [[? ?] ?]. eexists. split; [reflexivity|]. split; [lia|]. split; [lia|]. pose proof (Z.pow_le_mono_r 2 (shift_loop (Z.to_nat ptr_bits) (size - 1) 1) 11). lia.
  - exists 3. split; [done|]. split; [lia|]. unfold fits. change (2 ^ 3) with 8. lia.
Qed.

(** The pages an allocation needs when no page of chunks has room. *)
Definition pages_for (size : Z) : Z :=
  if size <? 2048 then 1 else Z.shiftr size 12 + (if size mod 4096 =? 0 then 0 else 1).

Lemma pages_for_ok size : 2048 <= size -> 1 <= pages_for size /\ fits size (pages_for size * 4096).
Proof.
  intros Hs. unfold pages_for, fits. rewrite (proj2 (Z.ltb_ge _ _)) by lia. rewrite Z.shiftr_div_pow2 by lia. change (2 ^ 12) with 4096.
  case Z.eqb_spec; intros; Z.to_euclidean_division_equations; lia.
Qed.

(** What an allocation does to the runs. *)
Definition allocated (rs : list (Z * run)) (size : Z) (m : mem) (p : Z) (m' : mem) : Prop :=
  (p = 0 /\ inv pool rs m' /\ (forall i k, (i, RFree k) ∈ rs -> k < pages_for size)) \/
  exists rs' cap, inv pool rs' m' /\ tidy rs' /\ fits size cap /\ grows rs p cap rs' /\ log m' = log m.

(** The first page of a slot has a chunk free. *)
Lemma swp_do_pages r1 i sh B r2 m (body : Z -> M (option Z)) (fuel : nat) :
  wp (body (page_at pool i)) m (taken pool r1 i sh B r2 m) ->
  wp (do_pages pool (S fuel) body (page_at pool i)) m (taken pool r1 i sh B r2 m).
Proof.
  intros Hb. cbn [do_pages]. apply swp_bind. eapply swp_mono; [exact Hb|]. intros r m' Ht. pose proof Ht as (c & _ & _ & -> & _).
  by apply swp_ret.
Qed.

Lemma swp_slot_page r1 i sh B r2 m :
  inv pool (r1 ++ [(i, RSlab sh B)] ++ r2) m -> full sh B = false ->
  wp (if sh <? ngx_slab_exact_shift then do_pages pool (list_fuel pool) (alloc_small_page pool sh) (page_at pool i)
      else if sh =? ngx_slab_exact_shift then do_pages pool (list_fuel pool) (alloc_exact_page pool sh) (page_at pool i)
      else
        s ← get_slab pool (page_at pool i);
        let n := ngx_pagesize_shift - Z.land s NGX_SLAB_SHIFT_MASK in
        let n := Z.shiftl 1 n in
        let n := uint ptr_bits (Z.shiftl 1 n - 1) in
        let mask := uint ptr_bits (Z.shiftl n NGX_SLAB_MAP_SHIFT) in
        do_pages pool (list_fuel pool) (alloc_big_page pool sh mask) (page_at pool i)) m
    (taken pool r1 i sh B r2 m).
Proof.
  intros Hi Hf. pose proof (at_slab_intro pool geo _ _ _ _ _ _ Hi) as F. pose proof F as [_ _ _ _ Hr (_ & Hb & _ & Ho & _) Hv].
  case Z.ltb_spec; intros Hsh; [apply swp_do_pages; by apply swp_alloc_small_page|].
  case Z.eqb_spec; intros He; [apply swp_do_pages; by apply swp_alloc_exact|].
  unfold occ in Ho. rewrite (proj2 (Z.ltb_ge _ _)), (proj2 (Z.eqb_neq _ _)) in Ho by lia.
  assert (Hbig : ngx_slab_exact_shift < sh) by lia. destruct (big_fields sh B Hr Hbig Hb) as (_ & _ & Bsh & _).
  s_step. s_step. cbv zeta. rewrite Bsh, big_mask_code by lia. apply swp_do_pages, swp_alloc_big; [done|done|lia|done].
Qed.

Lemma swp_alloc_pages_size rs size m :
  inv pool rs m -> tidy rs -> 2048 <= size -> wp (ngx_slab_alloc_locked pool size) m (allocated rs size m).
Proof.
  intros Hi Ht Hs. unfold ngx_slab_alloc_locked. change ngx_slab_max_size with 2048. change ngx_pagesize with 4096.
  rewrite Z.geb_leb, (proj2 (Z.leb_le _ _)) by done. destruct (pages_for_ok size Hs) as [Hn Hcap].
  assert (En : Z.shiftr size ngx_pagesize_shift + (if size mod 4096 =? 0 then 0 else 1) = pages_for size) by (unfold pages_for; by rewrite (proj2 (Z.ltb_ge _ _)) by lia).
  rewrite En. apply swp_bind. eapply swp_mono; [by apply (swp_alloc_pages pool geo rs)|].
  intros p m' [(r1 & i & k & r2 & -> & Hk & -> & Hi' & Ew & Eg)|(-> & Hno & ->)].
  - destruct (inv_places _ _ _ _ _ Hi) as (a & b & T1 & (-> & _ & <-) & T2). cbn [len] in *. pose proof (tiles_le _ _ _ T1). pose proof (tiles_le _ _ _ T2).
    assert (Hv : valid pool (page_at pool a) = true) by (apply (valid_page pool geo); lia).
    apply (valid_aligned pool geo) in Hv as [Hpos _]. rewrite (proj2 (Z.eqb_neq (page_at pool a) 0)) by lia.
    apply swp_ret. rewrite page_offset by done. right. destruct (cut_grows r1 a (pages_for size) k r2 m Hi Ht) as [Ht' Hg].
    eexists _, _. split_and!; [exact Hi'|done|exact Hcap|done|done].
  - apply swp_ret. left. split_and!; [done| |done]. by apply inv_log.
Qed.

Lemma swp_alloc_chunk rs size m :
  inv pool rs m -> tidy rs -> 0 <= size < 2048 -> wp (ngx_slab_alloc_locked pool size) m (allocated rs size m).
Proof.
  intros Hi Ht Hs. unfold ngx_slab_alloc_locked. change ngx_slab_max_size with 2048.
  rewrite Z.geb_leb, (proj2 (Z.leb_gt _ _)) by lia. destruct (size_class_ok size Hs) as (sh & -> & Hsh & Hcap).
  assert (Hqr : -1 <= sh - 3 < nslots) by (unfold nslots; lia). destruct (inv_lists _ _ _ Hi _ Hqr) as (l & Hl & Hp).
  rewrite slot_hdr in Hl by lia. set (h := slot_at pool (sh - 3)) in *.
  assert (Hvh : valid pool h = true) by (apply (valid_slot pool geo); unfold nslots; lia).
  assert (Hh : next m h = List.hd h l) by (destruct Hl as [_ Hsg]; by destruct l; apply Hsg).
  s_step. s_step. destruct l as [|x l]; simpl in Hh.
  - s_step. s_step. rewrite Z.eqb_refl. simpl. apply swp_bind, swp_ret.
    eapply swp_mono; [apply (swp_alloc_fresh pool geo rs sh m Hi Hsh); by apply Permutation_nil_l in Hp|].
    intros p m' [(-> & Hno & ->)|(r1 & i & k & r2 & -> & Hk & -> & Hg & Hi')].
    + left. split_and!; [done|by apply inv_log|]. unfold pages_for. by rewrite (proj2 (Z.ltb_lt _ _)) by lia.
    + right. destruct (fresh_grows r1 i k r2 sh m Hi Ht Hsh) as [Ht' Hgr]. eexists _, _. split_and!; [exact Hi'|done|exact Hcap|done|done].
  - assert (Hx : x ∈ members pool (sh - 3) rs) by (rewrite <- Hp; by left).
    apply elem_of_members in Hx as (i & r & Hin & Hq & ->). destruct r as [k|k|k|sh' B]; simpl in Hq; try done; [simplify_eq; lia|].
    destruct (full sh' B) eqn:Hf; [done|]. assert (sh' = sh) as -> by (simplify_eq; lia). clear Hq.
    apply list_elem_of_split in Hin as (r1 & r2 & ->). destruct (lst_at _ _ _ [] _ _ Hl) as (_ & Hnx & _).
    assert (Hne : List.hd h l <> page_at pool i).
    { destruct Hl as [Hnd _]. rewrite !NoDup_cons in Hnd. destruct Hnd as (H1 & H2 & _). intros E. pose proof (hd_in l h) as Hd. rewrite E in Hd.
      apply elem_of_cons in Hd as [Hd|Hd]; [|done]. apply H1. rewrite Hd. by left. }
    pose proof (as_valid _ _ _ _ _ _ _ (at_slab_intro pool geo _ _ _ _ _ _ Hi)) as Hvx.
    s_step. s_step. rewrite (proj2 (Z.eqb_neq _ _)) by done. simpl negb. cbv iota. apply swp_bind.
    eapply swp_mono; [by apply (swp_slot_page r1 i sh B r2)|]. intros r m' (c & Hc & Hcb & -> & Hi' & Hg). apply swp_ret. right.
    destruct (taken_grows r1 i sh B r2 m c Hi Hc Hcb Ht) as [Ht' Hgr]. eexists _, _. split_and!; [exact Hi'|done|exact Hcap|done|done].
Qed.

Lemma swp_alloc_locked rs size m :
  inv pool rs m -> tidy rs -> 0 <= size -> wp (ngx_slab_alloc_locked pool size) m (allocated rs size m).
Proof.
  intros Hi Ht Hs. destruct (Z.ltb_spec size 2048); [by apply swp_alloc_chunk|by apply swp_alloc_pages_size].
Qed.

(** ** Freeing *)

(** The runs [rs'] have the blocks of [rs] but one. *)
Definition shrinks (rs : list (Z * run)) (p : Z) (rs' : list (Z * run)) : Prop :=
  forall q c, holds rs' q c <-> holds rs q c /\ q <> p.

Lemma shrinks_mid r1 i r r2 rs' p m :
  inv pool (r1 ++ [(i, r)] ++ r2) m -> base pool i <= p < base pool (i + 1) ->
  (forall q c, holds rs' q c <-> holds r1 q c \/ holds r2 q c \/ (held i r q c /\ q <> p)) ->
  shrinks (r1 ++ [(i, r)] ++ r2) p rs'.
Proof.
  intros Hi Hp Hrs' q c. rewrite Hrs', !holds_app, holds_cons, holds_nil.
  assert (Hne : holds r1 q c \/ holds r2 q c -> q <> p).
  { destruct (inv_places _ _ _ _ _ Hi) as (a & b & T1 & (-> & Hlen & <-) & T2). intros Ho ->.
    assert (Hj : exists j r', (j, r') ∈ r1 ++ [(a, r)] ++ r2 /\ (j + len r' <= a \/ a + len r <= j) /\ 0 < len r' /\ held j r' p c).
    { destruct Ho as [(j & r' & Hin & Hh)|(j & r' & Hin & Hh)]; exists j, r'; rewrite !elem_of_app;
        [pose proof (tiles_in _ _ _ _ _ T1 Hin)|pose proof (tiles_in _ _ _ _ _ T2 Hin)]; split_and!; auto; lia. }
    destruct Hj as (j & r' & Hin & Hj & Hl & Hh). destruct (held_place _ _ _ _ _ _ Hi Hin Hh) as (Hq & _). unfold base in *. lia. }
  tauto.
Qed.

Lemma start_word k : 1 <= k <= npages pool ->
  Z.lor k NGX_SLAB_PAGE_START <> NGX_SLAB_PAGE_FREE /\ Z.lor k NGX_SLAB_PAGE_START <> NGX_SLAB_PAGE_BUSY /\
  Z.land (Z.lor k NGX_SLAB_PAGE_START) (Z.lnot NGX_SLAB_PAGE_START) = k.
Proof.
  intros Hk. destruct (g_end pool geo) as [He1 He2]. pose proof (places pool geo) as (_ & ? & ? & ? & ? & ? & ? & ? & ? & _).
  assert (Hst : 0 < start pool) by (unfold nslots in *; destruct widths as [(_ & _ & E)|(_ & _ & E)]; rewrite E in *; lia).
  assert (ES : NGX_SLAB_PAGE_START = 2 ^ (ptr_bits - 1)) by (unfold NGX_SLAB_PAGE_START; by destruct ptr_bits_cases as [-> | ->]).
  assert (EB : NGX_SLAB_PAGE_BUSY = 2 ^ ptr_bits - 1) by (unfold NGX_SLAB_PAGE_BUSY; by destruct ptr_bits_cases as [-> | ->]).
  assert (Ew : 2 ^ ptr_bits = 2 * 2 ^ (ptr_bits - 1)) by (by destruct ptr_bits_cases as [-> | ->]). pose proof ptr_bits_pos.
  assert (Hb : Z.testbit k (ptr_bits - 1) = false) by (apply (bits_high k (ptr_bits - 1)); lia).
  rewrite ES, EB, lor_setbit by lia.
  assert (Esum : Z.setbit k (ptr_bits - 1) = k + 2 ^ (ptr_bits - 1)).
  { rewrite <- lor_setbit by lia. rewrite Z.add_nocarry_lxor, Z.lxor_lor; [done| |]; apply Z.eqb_eq; rewrite land_pow2, Hb by lia; done. }
  split_and!; [unfold NGX_SLAB_PAGE_FREE; lia|lia|].
  rewrite land_clearbit by lia. apply Z.bits_inj'. intros j Hj. rewrite clearbit_test, setbit_test by lia.
  case Z.eqb_spec; intros; simpl; [by subst|done].
Qed.

Lemma swp_free_locked rs p cap m :
  inv pool rs m -> tidy rs -> holds rs p cap ->
  wp (ngx_slab_free_locked pool p) m
    (fun _ m' => exists rs', inv pool rs' m' /\ tidy rs' /\ shrinks rs p rs' /\ log m' = log m).
Proof.
  intros Hi Ht Hp. destruct (holds_in _ _ _ _ Hi Hp) as (Hstart & Hend & _ & _). destruct Hp as (i & r & Hin & Hh).
  destruct (held_place _ _ _ _ _ _ Hi Hin Hh) as (Hpl & _ & _ & Hcap). pose proof (first_page pool geo _ _ _ _ Hi Hin) as Hf.
  pose proof (inv_runs _ _ _ Hi _ _ Hin) as Hok. pose proof (tiles_in _ _ _ _ _ (inv_tiles _ _ _ Hi) Hin) as (Hi0 & Hlen & HiN).
  assert (Hv : valid pool (page_at pool i) = true) by (apply (valid_page pool geo); lia).
  unfold ngx_slab_free_locked. rewrite (proj2 (Z.ltb_ge p (start pool))) by lia. rewrite Z.gtb_ltb, (proj2 (Z.ltb_ge (end_ pool) p)) by lia. simpl orb. cbv iota.
  assert (En : Z.shiftr (p - start pool) ngx_pagesize_shift = i).
  { change ngx_pagesize_shift with 12. rewrite Z.shiftr_div_pow2 by lia. change (2 ^ 12) with 4096. unfold base in *. symmetry. apply (Z.div_unique_pos _ _ _ (p - start pool - i * 4096)); lia. }
  cbv zeta. rewrite En. s_step. eapply swp_get_slab; [done|reflexivity|]. s_step. eapply swp_get_prev; [done|reflexivity|].
  apply list_elem_of_split in Hin as (r1 & r2 & ->). change ((i, r) :: r2) with ([(i, r)] ++ r2) in *.
  pose proof Ht as Ht'. apply tidy_app in Ht' as (T1 & Ht' & _). cbn [app] in Ht'. apply tidy_cons in Ht' as (_ & T2 & _).
  apply tidy_solid in T1, T2.
  destruct r as [k|k|k|sh B]; simpl in Hh; [done| |done|].
  - destruct Hf as [-> _]. simpl. unfold free_page. destruct Hh as [-> _]. destruct Hok as (-> & _). cbn [len] in *.
    destruct (start_word k) as (S1 & S2 & S3); [lia|].
    assert (Ea : Z.land (base pool i) (ngx_pagesize - 1) = 0) by (change (ngx_pagesize - 1) with (Z.ones 12); rewrite Z.land_ones by lia; by apply base_aligned).
    rewrite Ea. simpl negb. cbv iota. rewrite (proj2 (Z.eqb_neq _ _) S1), (proj2 (Z.eqb_neq _ _) S2). cbv zeta. rewrite En, S3.
    eapply swp_mono; [by apply swp_free_busy|]. intros [] m' (Hi' & _ & Hg). eexists. split; [exact Hi'|]. split; [by eapply tidy_freed|]. split; [|done].
    eapply shrinks_mid; [exact Hi|done|]. intros q c. rewrite holds_freed. simpl. split; [tauto|]. intros [?|[?|[[-> _] ?]]]; [tauto|tauto|done].
  - destruct Hh as (c & Hc & Hcb & Ep & ->). destruct Hok as (Hs & _ & _ & _). destruct Hf as [Hf _].
    assert (U : in_use pool i sh B c p) by (by split). pose proof (at_slab_intro pool geo _ _ _ _ _ _ Hi) as F.
    assert (Hgo : wp (if type_of sh =? NGX_SLAB_SMALL then free_small pool (page_at pool i) (slab m (page_at pool i)) p
        else if type_of sh =? NGX_SLAB_EXACT then free_exact pool (page_at pool i) (slab m (page_at pool i)) p
        else if type_of sh =? NGX_SLAB_BIG then free_big pool (page_at pool i) (slab m (page_at pool i)) p
        else free_page pool (slab m (page_at pool i)) p) m (fun _ m' => inv pool (released r1 i sh B c r2) m' /\ log m' = log m)).
    { destruct (Z.lt_total sh ngx_slab_exact_shift) as [Hsh|[Hsh|Hsh]].
      - rewrite type_small by (by apply Z.ltb_lt). simpl. by apply swp_free_small.
      - rewrite type_exact by done. simpl. by apply swp_free_exact.
      - rewrite type_big by done. simpl. by apply swp_free_big. }
    rewrite Hf. eapply swp_mono; [exact Hgo|]. intros [] m' [Hi' Hg]. eexists. split; [exact Hi'|]. split.
    + unfold released. case Z.eqb_spec; intros E; [by eapply tidy_freed|]. eapply tidy_swap; done.
    + split; [|done]. eapply shrinks_mid; [exact Hi|done|]. intros q cp. destruct (chunks_size sh Hs) as (_ & _ & Hpos). destruct (resv_bounds sh Hs) as (R0 & _).
      assert (Hcl : held i (RSlab sh (Z.clearbit B c)) q cp <-> held i (RSlab sh B) q cp /\ q <> p).
      { simpl. split.
        - intros (d & Hd & Hdb & -> & ->). rewrite clearbit_test in Hdb by lia. apply andb_true_iff in Hdb as [Hdc Hdb]. apply negb_true_iff, Z.eqb_neq in Hdc.
          split; [by exists d|]. rewrite Ep. nia.
        - intros [(d & Hd & Hdb & -> & ->) Hqp]. exists d. rewrite clearbit_test, Hdb by lia. rewrite (proj2 (Z.eqb_neq d c)) by (intros ->; done).
          split_and!; try lia; done. }
      rewrite <- Hcl. unfold released. case Z.eqb_spec; intros E.
      * rewrite holds_freed. assert (~ held i (RSlab sh (Z.clearbit B c)) q cp); [|tauto]. rewrite E. intros (d & Hd & Hdb & _).
        rewrite Z.ones_spec_high in Hdb by lia. done.
      * rewrite !holds_app, holds_cons, holds_nil. tauto.
Qed.

(** ** The blocks in use *)

Lemma good_alloc m live size :
  good m live -> 0 <= size ->
  wp (ngx_slab_alloc_locked pool size) m (fun p m' =>
    (p = 0 /\ good m' live) \/
    (start pool <= p /\ p + size <= end_ pool /\ p mod 8 = 0 /\ 0 < p /\ live !! p = None /\
     map_Forall (fun q n => p + size <= q \/ q + n <= p) live /\ good m' (<[p := size]> live) /\ log m' = log m)).
Proof.
  intros (rs & Hi & Ht & Ha1 & Ha2) Hs. eapply swp_mono; [by apply (swp_alloc_locked rs)|].
  intros p m' [(-> & Hi' & _)|(rs' & cap & Hi' & Ht' & Hcap & [Hg1 Hg2] & Hlog)].
  { left. split; [done|]. by exists rs. }
  right. assert (Hp : holds rs' p cap) by (apply Hg1; by right). destruct (holds_in _ _ _ _ Hi' Hp) as (B1 & B2 & B3 & B4).
  assert (Hnone : live !! p = None).
  { destruct (live !! p) as [n|] eqn:E; [|done]. exfalso. destruct (Ha1 _ _ E) as (c & Hc & _). by apply (Hg2 c). }
  split_and!; [done|destruct Hcap; lia|done|done|done| | |done].
  - intros q n Hq. destruct (Ha1 _ _ Hq) as (c & Hc & [Hn _]). destruct Hcap as [Hcap _]. assert (Hq' : holds rs' q c) by (apply Hg1; by left).
    destruct (holds_apart _ _ _ _ _ _ Hi' Hp Hq') as [->|[?|?]]; [congruence|lia|lia].
  - exists rs'. split; [done|]. split; [done|]. split.
    + intros q n. destruct (decide (q = p)) as [->|Hne].
      * rewrite lookup_insert_eq. intros [= <-]. exists cap. done.
      * rewrite lookup_insert_ne by done. intros Hq. destruct (Ha1 _ _ Hq) as (c & Hc & Hn). exists c. split; [|done]. apply Hg1. by left.
    + intros q c [Hq|[-> ->]]%Hg1; [|rewrite lookup_insert_eq; by eexists]. destruct (Ha2 _ _ Hq) as [n Hn].
      rewrite lookup_insert_ne; [by eexists|]. intros ->. congruence.
Qed.

Lemma good_free m live p n :
  good m live -> live !! p = Some n ->
  wp (ngx_slab_free_locked pool p) m (fun _ m' => good m' (delete p live) /\ log m' = log m).
Proof.
  intros (rs & Hi & Ht & Ha1 & Ha2) Hp. destruct (Ha1 _ _ Hp) as (cap & Hc & _).
  eapply swp_mono; [by eapply swp_free_locked|]. intros [] m' (rs' & Hi' & Ht' & Hsh & Hg). split; [|done].
  exists rs'. split; [done|]. split; [done|]. split.
  - intros q c [Hne Hq]%lookup_delete_Some. destruct (Ha1 _ _ Hq) as (cq & Hcq & Hn). exists cq. split; [|done]. apply Hsh. done.
  - intros q c [Hq Hne]%Hsh. destruct (Ha2 _ _ Hq) as [k Hk]. exists k. by apply lookup_delete_Some.
Qed.

(** ** The memory of the blocks is not used by the pool *)

Lemma run_ok_words m w i r :
  (forall sh B n, r = RSlab sh B -> sh < ngx_slab_exact_shift -> 0 <= n < map_words sh -> w (bitmap_at (base pool i) n) = word m (bitmap_at (base pool i) n)) ->
  run_ok pool m i r -> run_ok pool (mkMem (slab m) (next m) (prev m) w (log m)) i r.
Proof.
  intros Hw. destruct r as [k|k|k|sh B]; try done. intros (H1 & H2 & H3 & H4 & H5). split_and!; try done; try lia.
  unfold occ in *. case_match eqn:E; [|done]. destruct H4 as [H4 H6]. split; [done|]. intros n Hn. cbn. apply Z.ltb_lt in E.
  rewrite (Hw sh B) by done. auto.
Qed.

Lemma good_write m live w :
  good m live ->
  (forall a, map_Forall (fun p n => a + sizeof_uintptr <= p \/ p + n <= a) live -> w a = word m a) ->
  good (mkMem (slab m) (next m) (prev m) w (log m)) live.
Proof.
  intros (rs & Hi & Ht & Ha1 & Ha2) Hw. exists rs. split; [|done]. pose proof Hi as [Hti Hr Hl]. split; [done| |].
  - intros i r Hin. apply run_ok_words; [|by apply Hr]. intros sh B n -> Hsh Hn. apply Hw. intros p sz Hp.
    destruct (Hr _ _ Hin) as (Hs & _). destruct (small_words sh Hs Hsh) as (_ & _ & _ & _ & _ & Hmw).
    assert (Hword : base pool i <= bitmap_at (base pool i) n /\ bitmap_at (base pool i) n + sizeof_uintptr <= base pool i + resv sh * 2 ^ sh).
    { unfold bitmap_at. destruct widths as [(_ & E & _)|(_ & E & _)]; rewrite E in *; lia. }
    destruct (chunks_size sh Hs) as (Ecs & _ & Hpos). destruct (resv_bounds sh Hs) as (R0 & R1 & _).
    destruct (Ha1 _ _ Hp) as (cap & (j & r & Hin' & Hh) & [Hcap _]). destruct (held_place _ _ _ _ _ _ Hi Hin' Hh) as (P1 & P2 & _).
    pose proof (tiles_in _ _ _ _ _ Hti Hin) as (_ & Hl1 & _). pose proof (tiles_in _ _ _ _ _ Hti Hin') as (_ & Hl2 & _). simpl in Hl1.
    destruct (decide (j + len r <= i)); [right; unfold base in *; nia|]. destruct (decide (i + 1 <= j)); [left; unfold base in *; nia|].
    destruct (tiles_inj _ _ _ j r i (RSlab sh B) i Hti Hin' Hin) as [-> ->]; [lia|simpl; lia|]. destruct Hh as (c & Hc & _ & -> & ->). left. nia.
  - intros q Hq. destruct (Hl q Hq) as (l & Hls & Hp). exists l. split; [|done]. by apply (lst_frame m).
Qed.

(** ** An unused pool is one run *)

(** A run that is not free has a block. *)
Lemma run_held rs m i r : inv pool rs m -> tidy rs -> (i, r) ∈ rs -> is_free (i, r) = false -> exists p cap, held i r p cap.
Proof.
  intros Hi [Hpl _] Hin Hnf. rewrite Forall_forall in Hpl. specialize (Hpl _ Hin). pose proof (inv_runs _ _ _ Hi _ _ Hin) as Hok.
  destruct r as [k|k|k|sh B]; simpl in Hpl; try done; [by eexists _, _|].
  destruct Hok as (Hs & Hb & Hres & _). destruct (resv_bounds sh Hs) as (R0 & R1 & _).
  destruct (decide (Exists (fun c => Z.testbit B (Z.of_nat c) = true /\ resv sh <= Z.of_nat c) (seq 0 (Z.to_nat (chunks sh))))) as [He|He].
  - apply Exists_exists in He as (c & Hc & Hcb & Hcr). apply elem_of_seq in Hc. eexists _, _. exists (Z.of_nat c). split_and!; try done; lia.
  - exfalso. apply Hpl. apply (bits_eq (chunks sh)); [lia|done| |].
    + pose proof (ones_bound (resv sh)). pose proof (Z.pow_le_mono_r 2 (resv sh) (chunks sh)). lia.
    + intros c Hc. destruct (Z.ltb_spec c (resv sh)); [rewrite Hres, Z.ones_spec_low by lia; done|]. rewrite Z.ones_spec_high by lia.
      apply not_true_is_false. intros Hcb. apply He. apply Exists_exists. exists (Z.to_nat c). rewrite Z2Nat.id by lia.
      split; [apply elem_of_seq; lia|]. split; [done|lia].
Qed.

Lemma unused_runs rs m : inv pool rs m -> tidy rs -> accounts rs ∅ -> 1 <= npages pool -> rs = [(0, RFree (npages pool))].
Proof.
  intros Hi Ht [_ Ha] HN. pose proof Ht as [_ Hsp].
  assert (Hfree : forall i r, (i, r) ∈ rs -> is_free (i, r) = true).
  { intros i r Hin. destruct (is_free (i, r)) eqn:E; [done|]. destruct (run_held _ _ _ _ Hi Ht Hin E) as (p & cap & Hh).
    destruct (Ha p cap) as [? El]; [by exists i, r|]. by rewrite lookup_empty in El. }
  pose proof (inv_tiles _ _ _ Hi) as Hti. destruct rs as [|[i r] rs]; [simpl in Hti; lia|].
  pose proof (Hfree i r ltac:(by left)) as Hr. destruct Hti as (-> & Hk & Hti). destruct rs as [|[j r'] rs].
  - destruct r; try done. simpl in Hti. by rewrite <- Hti.
  - pose proof (Hfree j r' ltac:(right; by left)) as Hr'. destruct Hsp as [Hsp _]. by rewrite Hr, Hr' in Hsp.
Qed.

Lemma good_unused m size :
  good m ∅ -> 1 <= npages pool -> 0 <= size <= npages pool * 4096 ->
  wp (ngx_slab_alloc_locked pool size) m (fun p m' => p <> 0 /\ good m' {[p := size]}).
Proof.
  intros Hg HN Hs. pose proof Hg as (rs & Hi & Ht & Ha). pose proof (unused_runs _ _ Hi Ht Ha HN) as ->.
  destruct (swp_alloc_locked _ size m Hi Ht ltac:(lia)) as (p & m' & E & [(-> & _ & Hno)|Hok]).
  - exfalso. specialize (Hno 0 (npages pool) ltac:(by left)). unfold pages_for in Hno. case_match; [lia|].
    rewrite Z.shiftr_div_pow2 in Hno by lia. change (2 ^ 12) with 4096 in Hno. case (Z.eqb_spec (size mod 4096) 0) in Hno; Z.to_euclidean_division_equations; lia.
  - destruct (good_alloc m ∅ size Hg ltac:(lia)) as (p' & m2 & E' & Hr). rewrite E in E'. injection E' as <- <-. exists p, m'. split; [done|].
    destruct Hok as (rs' & cap & Hi' & _ & _ & [Hg1 _] & _). assert (Hp : holds rs' p cap) by (apply Hg1; by right).
    destruct (holds_in _ _ _ _ Hi' Hp) as (_ & _ & _ & Hpos). destruct Hr as [[-> _]|(_ & _ & _ & _ & _ & _ & Hgood & _)]; [lia|]. split; [lia|done].
Qed.

(** With one block in use there is a free page, unless the block has all of them. *)
Lemma one_free rs m p n :
  inv pool rs m -> tidy rs -> accounts rs {[p := n]} -> 2 <= npages pool -> n <= (npages pool - 1) * 4096 ->
  exists i k, (i, RFree k) ∈ rs /\ 1 <= k.
Proof.
  intros Hi Ht [Ha1 Ha2] HN Hn. pose proof (inv_tiles _ _ _ Hi) as Hti. destruct (existsb is_free rs) eqn:Ex.
  { apply existsb_exists in Ex as ([i r] & Hin & Hf). apply list_elem_of_In in Hin. destruct r as [k|k|k|sh B]; try done.
    exists i, k. split; [done|]. pose proof (tiles_in _ _ _ _ _ Hti Hin) as (_ & ? & _). simpl in *. lia. }
  exfalso. assert (Hall : forall i r, (i, r) ∈ rs -> exists cap, held i r p cap).
  { intros i r Hin. assert (Hf : is_free (i, r) = false).
    { apply not_true_is_false. intros Hf. apply not_true_iff_false in Ex. apply Ex, existsb_exists. exists (i, r). split; [by apply list_elem_of_In|done]. }
    destruct (run_held _ _ _ _ Hi Ht Hin Hf) as (p' & cap & Hh). destruct (Ha2 p' cap) as [x Hx]; [by exists i, r|].
    apply lookup_singleton_Some in Hx as [<- _]. by exists cap. }
  destruct rs as [|[i r] rs]; [simpl in Hti; lia|]. assert (Hin : (i, r) ∈ (i, r) :: rs) by (by left). destruct (Hall i r Hin) as (cap & Hh).
  destruct (held_place _ _ _ _ _ _ Hi Hin Hh) as (P1 & _). destruct Hti as (-> & Hl & Hti). destruct rs as [|[j r'] rs].
  - simpl in Hti. destruct (Ha1 p n) as (cap' & Hc & Hfit); [apply lookup_singleton_eq|]. rewrite holds_cons, holds_nil in Hc. destruct Hc as [Hc|[]].
    destruct r as [k|k|k|sh B]; simpl in *; try done; [|lia]. destruct Hc as [_ ->], Hfit as [_ Hfit]. lia.
  - assert (Hin' : (j, r') ∈ (0, r) :: (j, r') :: rs) by (right; by left). destruct (Hall j r' Hin') as (cap' & Hh').
    destruct (held_place _ _ _ _ _ _ Hi Hin' Hh') as (P2 & _). destruct Hti as (-> & _). unfold base in *. lia.
Qed.

Lemma good_one m p n size :
  good m {[p := n]} -> 2 <= npages pool -> n <= (npages pool - 1) * 4096 -> 0 <= size < 2048 ->
  wp (ngx_slab_alloc_locked pool size) m (fun p' m' => p' <> 0 /\ good m' (<[p' := size]> {[p := n]})).
Proof.
  intros Hg HN Hn Hs. pose proof Hg as (rs & Hi & Ht & Ha). destruct (one_free _ _ _ _ Hi Ht Ha HN Hn) as (i & k & Hin & Hk).
  destruct (swp_alloc_locked rs size m Hi Ht ltac:(lia)) as (p' & m' & E & Hok).
  destruct (good_alloc m _ size Hg ltac:(lia)) as (p2 & m2 & E' & Hr). rewrite E in E'. injection E' as <- <-. exists p', m'. split; [done|].
  destruct Hok as [(-> & _ & Hno)|(rs' & cap & Hi' & _ & _ & [Hg1 _] & _)].
  - specialize (Hno _ _ Hin). unfold pages_for in Hno. rewrite (proj2 (Z.ltb_lt size 2048)) in Hno by lia. lia.
  - assert (Hp : holds rs' p' cap) by (apply Hg1; by right). destruct (holds_in _ _ _ _ Hi' Hp) as (_ & _ & _ & Hpos).
    destruct Hr as [[-> _]|(_ & _ & _ & _ & _ & _ & Hgood & _)]; [lia|]. split; [lia|done].
Qed.
End Spec.

(** ** A new pool *)

Section Init.
Context {arch : Arch} {layout : SlabLayout}.
#[local] Existing Instance page_4k.

Lemma init_slots_spec (n : nat) s m :
  let m' := init_slots s n m in
  (forall j, 0 <= j < Z.of_nat n -> next m' (page_add s j) = page_add s j) /\
  (forall z, (forall j, 0 <= j < Z.of_nat n -> z <> page_add s j) -> slab m' z = slab m z /\ next m' z = next m z /\ prev m' z = prev m z).
Proof.
  revert s m. induction n as [|n IH]; intros s m; cbn [init_slots]; cbv zeta; [split; [lia|done]|].
  destruct (IH (page_add s 1) (put_prev s 0 (put_next s s (put_slab s 0 m)))) as [H1 H2]. cbv zeta in H1, H2.
  assert (Ep : forall j, page_add (page_add s 1) j = page_add s (j + 1)) by (intros j; unfold page_add; lia).
  assert (Hs : forall j, 0 <= j < Z.of_nat n -> s <> page_add (page_add s 1) j).
  { intros j Hj. unfold page_add. destruct widths as [(_ & _ & ->)|(_ & _ & ->)]; lia. }
  split.
  - intros j Hj. destruct (decide (j = 0)) as [->|].
    + assert (E0 : page_add s 0 = s) by (unfold page_add; lia). rewrite E0. destruct (H2 s Hs) as (_ & -> & _). cbn. apply upd_eq.
    + specialize (H1 (j - 1) ltac:(lia)). rewrite Ep in H1. replace (j - 1 + 1) with j in H1 by lia. done.
  - intros z Hz. destruct (H2 z) as (-> & -> & ->); [intros j Hj; rewrite Ep; apply Hz; lia|]. cbn.
    assert (z <> s) by (specialize (Hz 0 ltac:(lia)); unfold page_add in Hz; lia). by rewrite !upd_ne.
Qed.

Lemma init_pages_spec (n : nat) s m :
  let m' := init_pages s n m in
  (forall j, 0 <= j < Z.of_nat n -> slab m' (page_add s j) = 0) /\
  (forall z, (forall j, 0 <= j < Z.of_nat n -> z <> page_add s j) -> slab m' z = slab m z /\ next m' z = next m z /\ prev m' z = prev m z).
Proof.
  revert s m. induction n as [|n IH]; intros s m; cbn [init_pages]; cbv zeta; [split; [lia|done]|].
  destruct (IH (page_add s 1) (put_prev s 0 (put_next s 0 (put_slab s 0 m)))) as [H1 H2]. cbv zeta in H1, H2.
  assert (Ep : forall j, page_add (page_add s 1) j = page_add s (j + 1)) by (intros j; unfold page_add; lia).
  assert (Hs : forall j, 0 <= j < Z.of_nat n -> s <> page_add (page_add s 1) j).
  { intros j Hj. unfold page_add. destruct widths as [(_ & _ & ->)|(_ & _ & ->)]; lia. }
  split.
  - intros j Hj. destruct (decide (j = 0)) as [->|].
    + assert (E0 : page_add s 0 = s) by (unfold page_add; lia). rewrite E0. destruct (H2 s Hs) as (-> & _ & _). cbn. apply upd_eq.
    + specialize (H1 (j - 1) ltac:(lia)). rewrite Ep in H1. replace (j - 1 + 1) with j in H1 by lia. done.
  - intros z Hz. destruct (H2 z) as (-> & -> & ->); [intros j Hj; rewrite Ep; apply Hz; lia|]. cbn.
    assert (z <> s) by (specialize (Hz 0 ltac:(lia)); unfold page_add in Hz; lia). by rewrite !upd_ne.
Qed.

(** The memory of a zone of at least eight pages. *)
Record zone_memory (pool0 : ngx_slab_pool_t) : Prop := {
  zm_shift : min_shift pool0 = 3;
  zm_addr : 0 < addr pool0;
  zm_aligned : addr pool0 mod sizeof_uintptr = 0;
  zm_end : addr pool0 + 8 * 4096 <= end_ pool0 < 2 ^ ptr_bits
}.

Section New.
Variable pool0 : ngx_slab_pool_t.
Context (zm : zone_memory pool0).

Let P : Z := addr pool0 + sizeof_pool.
Let pgs : Z := P + nslots * sizeof_page.
Let np : Z := (end_ pool0 - P) / (4096 + sizeof_page).
Let st : Z := ngx_align_ptr (pgs + np * sizeof_page) 4096.
Let q : Z := (end_ pool0 - st) / 4096.

Lemma init_numbers :
  st mod 4096 = 0 /\ pgs + np * sizeof_page <= st /\ st + 4096 <= end_ pool0 /\ 2 <= q <= np /\ st + q * 4096 <= end_ pool0 /\ 0 < P /\ P <= end_ pool0 /\ 0 <= st.
Proof.
  destruct zm as [_ Ha _ [He1 He2]]. pose proof layout_free as [Hf [Hs1 Hs2]]. fold sizeof_uintptr in *.
  assert (Hst : st = (pgs + np * sizeof_page + 4095) / 4096 * 4096 /\ pgs + np * sizeof_page + 4096 + 4095 <= end_ pool0).
  { assert (Hroom : 0 <= pgs + np * sizeof_page /\ pgs + np * sizeof_page + 4096 + 4095 <= end_ pool0).
    { unfold np, pgs, P, nslots in *. destruct widths as [(_ & E1 & E2)|(_ & E1 & E2)]; rewrite ?E1, ?E2 in *; Z.to_euclidean_division_equations; lia. }
    split; [|lia]. unfold st, ngx_align_ptr. change (4096 - 1) with (Z.ones 12). rewrite uint_small by (change (Z.ones 12) with 4095; lia).
    rewrite <- Z.ldiff_land, Z.ldiff_ones_r, Z.shiftl_mul_pow2, Z.shiftr_div_pow2 by lia. done. }
  destruct Hst as [Hst Hroom]. clearbody st. subst st. unfold q. clear q. unfold np, pgs, P, nslots in *. clear np pgs P.
  destruct widths as [(_ & E1 & E2)|(_ & E1 & E2)]; rewrite ?E1, ?E2 in *; Z.to_euclidean_division_equations; lia.
Qed.

Lemma init_pool m :
  (ngx_slab_init pool0 m).1 = mkPool (addr pool0) 8 3 pgs (page_add pgs q) st (end_ pool0) true /\
  let m' := (ngx_slab_init pool0 m).2 in
  slab m' pgs = q /\ (forall j, 0 < j < q -> slab m' (page_add pgs j) = 0) /\
  next m' (addr pool0 + offset_free) = pgs /\ next m' pgs = addr pool0 + offset_free /\ prev m' pgs = addr pool0 + offset_free /\
  (forall j, 0 <= j < nslots -> next m' (page_add P j) = page_add P j).
Proof.
  destruct init_numbers as (_ & N1 & N2 & N3 & N4 & N5 & N6 & N7). destruct zm as [Hsh Ha _ [He1 He2]]. pose proof layout_free as [Hf [Hs1 Hs2]]. fold sizeof_uintptr in *.
  pose proof ptr_pow_32 as Hw. pose proof ptr_pow_31 as Hw1.
  assert (Hk : sint ptr_bits (np - q) = np - q).
  { apply sint_small; [pose proof ptr_bits_pos; lia|]. assert (np * 4096 < 2 ^ ptr_bits).
    { unfold np. destruct widths as [(_ & _ & ->)|(_ & _ & ->)]; Z.to_euclidean_division_equations; lia. }
    assert (2 ^ ptr_bits = 2 * 2 ^ (ptr_bits - 1)) by (by destruct ptr_bits_cases as [-> | ->]). lia. }
  unfold ngx_slab_init. rewrite Hsh. fold P. change ngx_pagesize with 4096. change (ngx_pagesize_shift - 3) with nslots. fold pgs.
  rewrite (uint_small _ (end_ pool0 - P)) by lia. fold np. fold st. rewrite (uint_small _ (end_ pool0 - st)) by lia. fold q. cbv zeta. rewrite Hk.
  set (free := addr pool0 + offset_free). change (Z.shiftl 1 3) with 8.
  destruct (init_slots_spec (Z.to_nat nslots) P m) as [S1 _]. set (m1 := init_slots P (Z.to_nat nslots) m) in *.
  destruct (init_pages_spec (Z.to_nat np) pgs m1) as [G1 G2]. set (m2 := init_pages pgs (Z.to_nat np) m1) in *. cbv zeta in *.
  rewrite Z2Nat.id in S1 by done. rewrite Z2Nat.id in G1, G2 by lia.
  set (m3 := put_prev pgs free (put_next pgs free (put_slab pgs np (put_next free pgs (put_prev free 0 m2))))).
  assert (Hfp : free <> pgs /\ (forall j, 0 <= j -> free <> page_add P j) /\ (forall j, 0 <= j < nslots -> forall j', 0 <= j' -> page_add P j <> page_add pgs j')).
  { unfold free, pgs, P, page_add, nslots, sizeof_page in *. destruct widths as [(_ & E1 & _)|(_ & E1 & _)]; rewrite E1 in *; split_and!; intros; lia. }
  destruct Hfp as (F1 & F2 & F3).
  assert (Hpg : forall j, 0 < j -> page_add pgs j <> pgs) by (intros j Hj; unfold page_add; destruct widths as [(_ & _ & ->)|(_ & _ & ->)]; lia).
  assert (Hfacts : (forall j, 0 < j < q -> slab m3 (page_add pgs j) = 0) /\ next m3 free = pgs /\ next m3 pgs = free /\ prev m3 pgs = free /\
    (forall j, 0 <= j < nslots -> next m3 (page_add P j) = page_add P j)).
  { unfold m3. cbn. rewrite !upd_eq, (upd_ne _ pgs _ free) by done. rewrite upd_eq. split_and!; try done.
    - intros j Hj. rewrite upd_ne by (apply Hpg; lia). apply G1. lia.
    - intros j Hj. assert (page_add P j <> pgs) by (specialize (F3 j Hj 0); unfold page_add in *; lia).
      rewrite !upd_ne by (done || (intros E; by apply (F2 j); [lia|])). destruct (G2 (page_add P j)) as (_ & -> & _); [|by apply S1].
      intros j' Hj'. apply F3; [done|lia]. }
  rewrite Z.gtb_ltb. case Z.ltb_spec; intros Hkk; cbn [fst snd].
  - replace (np - (np - q)) with q by lia. split; [done|]. destruct Hfacts as (H1 & H2 & H3 & H4 & H5). split_and!; try done; [apply upd_eq|].
    intros j Hj. cbn. rewrite upd_ne by (apply Hpg; lia). by apply H1.
  - assert (Enp : np = q) by lia. split; [by rewrite Enp|]. split; [|done]. unfold m3. cbn. by rewrite upd_eq.
Qed.

Lemma init_geometry m : geometry (ngx_slab_init pool0 m).1 /\ npages (ngx_slab_init pool0 m).1 = q.
Proof.
  destruct (init_pool m) as [-> _]. destruct init_numbers as (N0 & N1 & N2 & N3 & N4 & N5 & N6 & N7). destruct zm as [_ Ha Hal [_ He2]].
  assert (Eq : npages (mkPool (addr pool0) 8 3 pgs (page_add pgs q) st (end_ pool0) true) = q).
  { unfold npages, page_index, page_add. cbn [last pages]. replace (pgs + q * sizeof_page - pgs) with (q * sizeof_page) by lia.
    apply Z.div_mul. destruct widths as [(_ & _ & ->)|(_ & _ & ->)]; lia. }
  split; [|done]. split; rewrite ?Eq; cbn [min_shift min_size addr pages last start end_]; try done; try lia.
  unfold page_add. destruct widths as [(_ & _ & E)|(_ & _ & E)]; rewrite E in *; nia.
Qed.

Lemma init_good m : good (ngx_slab_init pool0 m).1 (ngx_slab_init pool0 m).2 ∅.
Proof.
  destruct (init_geometry m) as [geo Eq]. destruct (init_pool m) as (Ep & I1 & I2 & I3 & I4 & I5 & I6). cbv zeta in *.
  destruct init_numbers as (_ & _ & _ & Hq & _).
  set (pool := (ngx_slab_init pool0 m).1) in *. set (m' := (ngx_slab_init pool0 m).2) in *.
  assert (Epg : forall j, page_add pgs j = page_at pool j) by (intros j; unfold page_at; by rewrite Ep). assert (E0 : page_at pool 0 = pgs) by (rewrite <- Epg; unfold page_add; lia).
  assert (Efree : addr pool0 + offset_free = free_at pool) by (unfold free_at; by rewrite Ep). assert (Eslot : forall j, page_add P j = slot_at pool j) by (intros j; unfold slot_at, slots; by rewrite Ep).
  rewrite <- E0, ?Efree in *. clearbody pool m'.
  exists [(0, RFree q)]. split; [|split; [split; [by constructor|done]|]].
  - split; [rewrite Eq; simpl; lia| |].
    + intros i r Hin. apply list_elem_of_singleton in Hin as [= -> ->]. split; [done|]. intros Hq1. rewrite Eq. split; [|lia].
      rewrite <- Epg. apply I2. lia.
    + intros s Hs. destruct (decide (s = -1)) as [->|].
      * exists [page_at pool 0]. split; [|done]. split; [|simpl; by rewrite Z.lor_0_r].
        apply NoDup_cons_2; [|apply NoDup_singleton]. intros E%list_elem_of_singleton. by apply (page_not_free pool geo 0).
      * exists []. rewrite members_cons, decide_False by (simpl; intros [= ?]; lia). split; [|done]. split; [apply NoDup_singleton|]. simpl.
        unfold hdr. rewrite (proj2 (Z.eqb_neq s (-1))) by done. rewrite <- Eslot. apply I6. lia.
  - split; [by intros p n ?%lookup_empty_Some|]. intros p cap Hh. rewrite holds_cons, holds_nil in Hh. by destruct Hh.
Qed.
End New.
End Init.

(** ** The contract *)

Section Contract.
Context {arch : Arch} {layout : SlabLayout}.
#[local] Existing Instance page_4k.
Variable pool : ngx_slab_pool_t.
Context (geo : geometry pool).

(** [ngx_slab_alloc_locked] with the blocks in use. *)
Definition alloc_live (size : Z) (s : mem * gmap Z Z) : Z * (mem * gmap Z Z) :=
  match (if (0 <=? size) then Slab.ngx_slab_alloc_locked pool size s.1 else None) with
  | Some (p, m') => (p, (m', if p =? 0 then s.2 else <[p := size]> s.2))
  | None => (0, s)
  end.

(** [ngx_slab_free_locked] of a block in use. *)
Definition free_live (p : Z) (s : mem * gmap Z Z) : mem * gmap Z Z :=
  match s.2 !! p with
  | Some _ => match Slab.ngx_slab_free_locked pool p s.1 with Some (_, m') => (m', delete p s.2) | None => s end
  | None => s
  end.

Lemma alloc_live_good size s : good pool s.1 s.2 -> good pool (alloc_live size s).2.1 (alloc_live size s).2.2.
Proof.
  intros Hg. unfold alloc_live. case Z.leb_spec; intros Hs; [|done].
  destruct (good_alloc pool geo _ _ size Hg Hs) as (p & m' & E & Hr). rewrite E. cbn.
  destruct Hr as [[-> Hg']|(_ & _ & _ & Hp & _ & _ & Hg' & _)]; [done|]. by rewrite (proj2 (Z.eqb_neq p 0)) by lia.
Qed.

Lemma free_live_good p s : good pool s.1 s.2 -> good pool (free_live p s).1 (free_live p s).2.
Proof.
  intros Hg. unfold free_live. case_match eqn:E; [|done].
  destruct (good_free pool geo _ _ _ _ Hg E) as (x & m' & Ef & Hg' & _). by rewrite Ef.
Qed.

(** The pool is what the request limiter relies on. *)
#[export] Program Instance ngx_slab : SlabPool := {|
  HttpLimitReq.slab := { s : mem * gmap Z Z | good pool s.1 s.2 };
  live s := (`s).2;
  HttpLimitReq.ngx_slab_alloc_locked size s := ((alloc_live size (`s)).1, (alloc_live size (`s)).2 ↾ alloc_live_good size (`s) (proj2_sig s));
  HttpLimitReq.ngx_slab_free_locked p s := free_live p (`s) ↾ free_live_good p (`s) (proj2_sig s)
|}.
Next Obligation.
  intros size [[m live] Hg] s' E. injection E as E1 <-. cbn in *. unfold alloc_live in *. cbn in *. repeat case_match; simplify_eq/=; try done.
Qed.
Next Obligation.
  intros size [[m live] Hg] s' p Hs E Hp. injection E as E1 <-. cbn in *. unfold alloc_live in *. cbn [fst snd] in *.
  rewrite (proj2 (Z.leb_le 0 size)) in * by lia. destruct (good_alloc pool geo m live size Hg ltac:(lia)) as (p' & m' & Ea & Hr).
  rewrite Ea in *. cbn in *. subst p'. rewrite (proj2 (Z.eqb_neq p 0)) by done. split; [done|].
  destruct Hr as [[? _]|(_ & _ & _ & _ & _ & Hd & _)]; [done|exact Hd].
Qed.
Next Obligation.
  intros p n [[m live] Hg] Hp. cbn in *. unfold free_live. cbn [fst snd]. rewrite Hp.
  destruct (good_free pool geo _ _ _ _ Hg Hp) as (x & m' & Ef & _). by rewrite Ef.
Qed.

(** ** Clients *)

(** What clients do: allocate, and free what they have allocated; what is not in use is
    not freed. *)
Inductive client_op := AllocOp (size : Z) | FreeOp (p : Z).

Definition client_step (o : client_op) (s : mem * gmap Z Z) : option (mem * gmap Z Z) :=
  match o with
  | AllocOp size =>
      '(p, m') ← Slab.ngx_slab_alloc_locked pool size s.1; Some (m', if p =? 0 then s.2 else <[p := size]> s.2)
  | FreeOp p =>
      match s.2 !! p with
      | Some _ => '(_, m') ← Slab.ngx_slab_free_locked pool p s.1; Some (m', delete p s.2)
      | None => Some s
      end
  end.

Fixpoint client_run (ops : list client_op) (s : mem * gmap Z Z) : option (mem * gmap Z Z) :=
  match ops with
  | [] => Some s
  | o :: ops' => s ← client_step o s; client_run ops' s
  end.

Definition op_ok (o : client_op) : Prop := match o with AllocOp size => 0 <= size | FreeOp _ => True end.

Lemma client_step_good o s : good pool s.1 s.2 -> op_ok o -> exists s', client_step o s = Some s' /\ good pool s'.1 s'.2.
Proof.
  destruct s as [m live], o as [size|p]; cbn [client_step op_ok fst snd]; intros Hg Ho.
  - destruct (good_alloc pool geo m live size Hg Ho) as (p & m' & -> & Hr). eexists. split; [done|]. cbn.
    destruct Hr as [[-> Hg']|(_ & _ & _ & Hp & _ & _ & Hg' & _)]; [done|]. by rewrite (proj2 (Z.eqb_neq p 0)) by lia.
  - destruct (live !! p) as [n|] eqn:E; [|by eexists].
    destruct (good_free pool geo _ _ _ _ Hg E) as (x & m' & -> & Hg' & _). by eexists.
Qed.

Lemma client_run_good ops : forall s, good pool s.1 s.2 -> Forall op_ok ops ->
  exists s', client_run ops s = Some s' /\ good pool s'.1 s'.2.
Proof.
  induction ops as [|o ops IH]; intros s Hg Ho; [by exists s|]. apply Forall_cons in Ho as [Ho1 Ho].
  destruct (client_step_good o s Hg Ho1) as (s1 & E & Hg1). destruct (IH s1 Hg1 Ho) as (s' & E' & Hg').
  exists s'. cbn. by rewrite E.
Qed.

Lemma client_run_app ops1 ops2 s : client_run (ops1 ++ ops2) s = (s ← client_run ops1 s; client_run ops2 s).
Proof. revert s. induction ops1 as [|o ops1 IH]; intros s; [done|]. cbn. destruct (client_step o s) as [s1|]; [apply IH|done]. Qed.

(** Frees take the blocks they name out of use, and no others. *)
Lemma client_frees ps : forall s s', client_run (FreeOp <$> ps) s = Some s' ->
  forall p, s'.2 !! p = if decide (p ∈ ps) then None else s.2 !! p.
Proof.
  induction ps as [|q ps IH]; intros s s'; cbn [fmap list_fmap client_run]; [by intros [= <-]|].
  destruct (client_step (FreeOp q) s) as [s1|] eqn:E; [|done]. intros Er p. rewrite (IH s1 s' Er).
  assert (E1 : s1.2 !! p = if decide (p = q) then None else s.2 !! p).
  { cbn in E. destruct (s.2 !! q) eqn:Eq.
    - destruct (Slab.ngx_slab_free_locked pool q s.1) as [[x m']|]; [|done]. injection E as <-. cbn.
      destruct (decide (p = q)) as [->|]; [apply lookup_delete_eq|by rewrite lookup_delete_ne].
    - injection E as <-. by destruct (decide (p = q)) as [->|]. }
  rewrite E1. repeat case_decide; set_solver.
Qed.
End Contract.

#[local] Existing Instance page_4k.

(** C29: in a pool that is consistent with the blocks [live] in use, [ngx_slab_alloc_locked]
    never follows a bad pointer and ends; it returns null and leaves the blocks as they are,
    or an address, a multiple of eight, such that the [size] bytes there are inside of the
    pages and apart from every block in use, and the pool is consistent with the blocks and
    the new one. *)
Theorem slab_alloc_safe `{SlabLayout} (pool : ngx_slab_pool_t) (m : mem) (live : gmap Z Z) (size : Z) :
  geometry pool -> good pool m live -> 0 <= size ->
  exists p m', Slab.ngx_slab_alloc_locked pool size m = Some (p, m') /\
    ((p = 0 /\ good pool m' live) \/
     (start pool <= p /\ p + size <= end_ pool /\ p mod 8 = 0 /\ live !! p = None /\
      map_Forall (fun q n => p + size <= q \/ q + n <= p) live /\
      good pool m' (<[p := size]> live) /\ log m' = log m)).
Proof.
  intros geo Hg Hs. destruct (good_alloc pool geo m live size Hg Hs) as (p & m' & E & Hr). exists p, m'. split; [done|].
  destruct Hr as [?|(? & ? & ? & _ & ? & ? & ? & ?)]; [by left|by right].
Qed.

(** C30: freeing a block in use, whatever its size class and wherever it is in its page,
    never follows a bad pointer, reports nothing, and leaves a pool that is consistent with
    the other blocks. *)
Theorem slab_free_block_ok `{SlabLayout} (pool : ngx_slab_pool_t) (m : mem) (live : gmap Z Z) (p n : Z) :
  geometry pool -> good pool m live -> live !! p = Some n ->
  exists m', Slab.ngx_slab_free_locked pool p m = Some (tt, m') /\ good pool m' (delete p live) /\ log m' = log m.
Proof.
  intros geo Hg Hp. destruct (good_free pool geo m live p n Hg Hp) as ([] & m' & E & Hr). by exists m'.
Qed.

(** C31: free pages are never left in pieces: from a new pool, whatever blocks clients
    allocate and free, none of their calls follows a bad pointer, and when the blocks that
    are left are freed as well, in whatever order, none is in use any more and a block of
    any size up to all the pages of the pool can be allocated. *)
Theorem slab_defragments `{SlabLayout} (pool0 pool : ngx_slab_pool_t) (m m0 : mem) (ops : list client_op) (size : Z) :
  zone_memory pool0 -> ngx_slab_init pool0 m = (pool, m0) -> Forall op_ok ops -> 0 <= size <= npages pool * 4096 ->
  exists m1 live, client_run pool ops (m0, ∅) = Some (m1, live) /\
    forall ps, (forall p, is_Some (live !! p) -> p ∈ ps) ->
      exists m2, client_run pool (FreeOp <$> ps) (m1, live) = Some (m2, ∅) /\
        exists p m3, Slab.ngx_slab_alloc_locked pool size m2 = Some (p, m3) /\ p <> 0 /\ good pool m3 {[p := size]}.
Proof.
  intros zm Ei Ho Hs. pose proof (init_geometry pool0 zm m) as [geo Eq]. pose proof (init_good pool0 zm m) as Hg.
  pose proof (init_numbers pool0 zm) as (_ & _ & _ & Hq & _). rewrite Ei in *. cbn [fst snd] in *.
  destruct (client_run_good pool geo ops (m0, ∅) Hg Ho) as ([m1 live] & E1 & Hg1). exists m1, live. split; [done|].
  intros ps Hps. destruct (client_run_good pool geo (FreeOp <$> ps) (m1, live) Hg1) as ([m2 live2] & E2 & Hg2).
  { by apply Forall_fmap, Forall_true. }
  assert (live2 = ∅) as ->.
  { apply map_empty. intros p. pose proof (client_frees pool geo ps _ _ E2 p) as Hl. cbn [snd] in Hl. rewrite Hl. case_decide as Hp; [done|].
    apply eq_None_not_Some. intros H'. by apply Hp, Hps. }
  exists m2. split; [done|]. destruct (good_unused pool geo m2 size Hg2 ltac:(lia) Hs) as (p & m3 & E & Hp & Hg3). by exists p, m3.
Qed.

(** [ngx_slab_init] makes a consistent pool with no block in use and at least two pages
    of the memory of a zone of at least eight pages, whatever was in it. *)
Theorem slab_init_ok `{SlabLayout} (pool0 : ngx_slab_pool_t) (m : mem) :
  zone_memory pool0 ->
  let '(pool, m') := ngx_slab_init pool0 m in
  geometry pool /\ 2 <= npages pool /\ addr pool < start pool /\ end_ pool = end_ pool0 /\ good pool m' ∅.
Proof.
  intros zm. destruct (init_geometry pool0 zm m) as [geo Eq]. pose proof (init_good pool0 zm m) as Hg. destruct (init_pool pool0 zm m) as [Ep _].
  destruct (init_numbers pool0 zm) as (_ & _ & _ & Hq & _). destruct (ngx_slab_init pool0 m) as [pool m']. cbn [fst snd] in *.
  pose proof (places pool geo) as (_ & ? & ? & ? & ? & ? & ? & ? & ? & _).
  split_and!; [done|lia| |by rewrite Ep|done]. unfold nslots in *. destruct widths as [(_ & _ & E)|(_ & _ & E)]; rewrite E in *; lia.
Qed.

(** what the owners of the blocks write to them is nothing to the pool: a consistent
    pool stays so when only words that overlap a block in use change. *)
Theorem slab_client_writes `{SlabLayout} (pool : ngx_slab_pool_t) (m : mem) (live : gmap Z Z) (w : Z -> Z) :
  geometry pool -> good pool m live ->
  (forall a, map_Forall (fun p n => a + sizeof_uintptr <= p \/ p + n <= a) live -> w a = word m a) ->
  good pool (mkMem (slab m) (next m) (prev m) w (log m)) live.
Proof. intros geo. by apply good_write. Qed.

(** the address of the end of the pool is not refused: [ngx_slab_free_locked] reads a
    descriptor after the last one for it. *)
Theorem slab_free_end `{SlabLayout} (pool : ngx_slab_pool_t) (m : mem) :
  geometry pool -> end_ pool = start pool + npages pool * 4096 -> Slab.ngx_slab_free_locked pool (end_ pool) m = None.
Proof.
  intros geo He. unfold Slab.ngx_slab_free_locked. pose proof (g_count pool geo).
  rewrite (proj2 (Z.ltb_ge (end_ pool) (start pool))) by lia. rewrite Z.gtb_ltb, Z.ltb_irrefl. cbn [orb]. cbv iota zeta.
  assert (E : Z.shiftr (end_ pool - start pool) ngx_pagesize_shift = npages pool).
  { change ngx_pagesize_shift with 12. rewrite Z.shiftr_div_pow2, He by lia. change (2 ^ 12) with 4096.
    replace (start pool + npages pool * 4096 - start pool) with (npages pool * 4096) by lia. apply Z.div_mul. lia. }
  rewrite E. assert (Hv : valid pool (page_at pool (npages pool)) = false).
  { unfold valid, in_array. rewrite (g_last pool geo), (g_shift pool geo). change (ngx_pagesize_shift - 3) with nslots. rewrite <- (g_pages pool geo).
    rewrite (proj2 (Z.eqb_neq _ _)) by (by apply page_not_free).
    rewrite Z.ltb_irrefl, andb_false_r, orb_false_r. cbn [orb andb].
    rewrite (proj2 (Z.ltb_ge (page_at pool (npages pool)) (pages pool))); [by rewrite andb_false_r|].
    unfold page_at. destruct widths as [(_ & _ & ->)|(_ & _ & ->)]; lia. }
  unfold get_slab, mbind, M_bind, guarded. by rewrite Hv.
Qed.

(** ** A pool of a small zone *)

#[local] Existing Instance lp64.

#[local] Program Instance example_layout : SlabLayout := {| sizeof_pool := 200; offset_free := 48 |}.
Next Obligation. by vm_compute. Qed.
Next Obligation. done. Qed.

Definition example_zone : ngx_slab_pool_t := mkPool 40960 0 3 0 0 0 73728 false.
Definition example_memory : mem := mkMem (fun _ => 7) (fun _ => 7) (fun _ => 7) (fun _ => 7) [].
Definition example_pool : ngx_slab_pool_t := (ngx_slab_init example_zone example_memory).1.
Definition example_mem : mem := (ngx_slab_init example_zone example_memory).2.

Lemma example_zone_ok : zone_memory example_zone.
Proof. split; by vm_compute. Qed.

Lemma example_geo : geometry example_pool.
Proof. apply init_geometry, example_zone_ok. Qed.

Lemma example_good : good example_pool example_mem ∅.
Proof. apply init_good, example_zone_ok. Qed.

(** After a block of 100 bytes. *)
Definition example_mem1 : mem :=
  match Slab.ngx_slab_alloc_locked example_pool 100 example_mem with Some (_, m) => m | None => example_mem end.

Lemma example_good1 : good example_pool example_mem1 {[45056 := 100]}.
Proof.
  destruct (good_alloc example_pool example_geo _ _ 100 example_good ltac:(lia)) as (p & m' & E & Hr).
  assert (Ep : fst <$> Slab.ngx_slab_alloc_locked example_pool 100 example_mem = Some 45056) by (vm_compute; reflexivity).
  unfold example_mem1. rewrite E in *. simpl in Ep. injection Ep as ->. destruct Hr as [[? _]|(_ & _ & _ & _ & _ & _ & Hg & _)]; [lia|done].
Qed.

Lemma slab_alloc_safe_witness :
  exists p m', Slab.ngx_slab_alloc_locked example_pool 20 example_mem1 = Some (p, m') /\
    ((p = 0 /\ good example_pool m' {[45056 := 100]}) \/
     (start example_pool <= p /\ p + 20 <= end_ example_pool /\ p mod 8 = 0 /\ ({[45056 := 100]} : gmap Z Z) !! p = None /\
      map_Forall (fun q n => p + 20 <= q \/ q + n <= p) ({[45056 := 100]} : gmap Z Z) /\
      good example_pool m' (<[p := 20]> {[45056 := 100]}) /\ log m' = log example_mem1)).
Proof. apply slab_alloc_safe; [apply example_geo|apply example_good1|lia]. Defined.

Lemma slab_free_block_ok_witness :
  exists m', Slab.ngx_slab_free_locked example_pool 45056 example_mem1 = Some (tt, m') /\
    good example_pool m' (delete 45056 {[45056 := 100]}) /\ log m' = log example_mem1.
Proof. apply (slab_free_block_ok example_pool example_mem1 _ 45056 100); [apply example_geo|apply example_good1|reflexivity]. Defined.

(** Blocks of all classes, some freed and some left. *)
Definition example_ops : list client_op :=
  [AllocOp 100; AllocOp 5000; AllocOp 20; FreeOp 49152; AllocOp 3000; AllocOp 200; AllocOp 64; FreeOp 45056].

Example example_ops_live :
  (fun s => map_to_list s.2) <$> client_run example_pool example_ops (example_mem, ∅) =
    Some [(57376, 20); (61440, 64); (53248, 200); (49152, 3000)].
Proof. vm_compute. reflexivity. Qed.

Lemma slab_defragments_witness :
  exists m1 live, client_run example_pool example_ops (example_mem, ∅) = Some (m1, live) /\
    forall ps, (forall p, is_Some (live !! p) -> p ∈ ps) ->
      exists m2, client_run example_pool (FreeOp <$> ps) (m1, live) = Some (m2, ∅) /\
        exists p m3, Slab.ngx_slab_alloc_locked example_pool (7 * 4096) m2 = Some (p, m3) /\ p <> 0 /\ good example_pool m3 {[p := 7 * 4096]}.
Proof.
  apply (slab_defragments example_zone example_pool example_memory example_mem);
    [apply example_zone_ok|reflexivity|unfold example_ops; repeat (apply Forall_cons; split; [cbn; first [lia|done]|]); apply Forall_nil; exact I|by vm_compute].
Defined.

Lemma slab_init_ok_witness :
  let '(pool, m') := ngx_slab_init example_zone example_memory in
  geometry pool /\ 2 <= npages pool /\ addr pool < start pool /\ end_ pool = end_ example_zone /\ good pool m' ∅.
Proof. apply (slab_init_ok example_zone example_memory), example_zone_ok. Defined.

Lemma slab_client_writes_witness :
  good example_pool (mkMem (slab example_mem1) (next example_mem1) (prev example_mem1) (upd (word example_mem1) 45064 99) (log example_mem1)) {[45056 := 100]}.
Proof.
  apply slab_client_writes; [apply example_geo|apply example_good1|]. intros a Ha. apply upd_ne. intros ->.
  specialize (Ha 45056 100 eq_refl). cbn in Ha. change sizeof_uintptr with 8 in Ha. lia.
Defined.

Lemma slab_free_end_witness : Slab.ngx_slab_free_locked example_pool 73728 example_mem = None.
Proof. apply (slab_free_end example_pool example_mem example_geo). by vm_compute. Defined.
End SlabSpec.
