(* ===== verification/HttpLimitReqSlab.v ===== *)
(** * A zone of the request limiter in a slab pool

    The parts together, as src/nginx-1.7.2/src/core/ngx_cycle.c and
    ngx_http_limit_req_module.c have them: [ngx_slab_init] makes a pool of the shared
    memory of a zone, [ngx_http_limit_req_init_zone] allocates what the zone needs in it,
    and the requests look up, allocate and free their nodes. *)

From stdpp Require Import gmap fin_maps.
From S2P Require Import Prelude NgxString NgxCrc NgxRbtree NgxQueue NgxEventTimer HttpLimitReq HttpLimitReqZone HttpLimitReqSpec HttpLimitReqRate HttpLimitReqConf.
From S2P Require Import NgxSlab NgxSlabRep NgxSlabSpec.

Module LimitSlab.
Import LimitReq LimitZone LimitSpec LimitRate LimitConf SlabSpec.

Section Zone.
Context {arch : Arch} {layout : SlabLayout}.
#[local] Existing Instance page_4k.
Variables (pool0 : Slab.ngx_slab_pool_t) (m0 : Slab.mem).
Context (zm : zone_memory pool0).
Variables (junk : Rbtree.node lr) (junk_link : Queue.link) (debug : bool).

(** The pool of the zone, as an allocator. *)
Definition zone_pool : Slab.ngx_slab_pool_t := (Slab.ngx_slab_init pool0 m0).1.

Definition zone_slab : SlabPool := ngx_slab zone_pool (proj1 (init_geometry pool0 zm m0)).
#[local] Existing Instance zone_slab.

Definition new_pool : slab := ((Slab.ngx_slab_init pool0 m0).2, ∅) ↾ init_good pool0 zm m0.

(** The memory of the pool. *)
Definition pool_memory (s : slab) : Slab.mem := (proj1_sig (P := fun x : Slab.mem * gmap Z Z => good zone_pool x.1 x.2) s).1.

Lemma zone_pages : 2 <= SlabRep.npages zone_pool.
Proof.
  destruct (init_geometry pool0 zm m0) as [_ E]. fold zone_pool in E. rewrite E.
  destruct (init_numbers pool0 zm) as (_ & _ & _ & Hq & _). lia.
Qed.

(** The two allocations of a new zone succeed. *)
Lemma first_alloc size :
  0 < size <= 4096 ->
  exists p s1, ngx_slab_alloc_locked size new_pool = (p, s1) /\ p <> 0 /\ live s1 = {[p := size]}.
Proof.
  intros Hs. pose proof zone_pages as HN. pose proof (init_good pool0 zm m0) as Hg.
  destruct (good_unused zone_pool (proj1 (init_geometry pool0 zm m0)) _ size Hg ltac:(lia) ltac:(lia)) as (p & m' & E & Hp & _).
  destruct (ngx_slab_alloc_locked size new_pool) as [p' s1] eqn:Ea. exists p', s1. split; [done|]. injection Ea as E1 <-.
  unfold alloc_live, new_pool in *. cbn [live zone_slab ngx_slab proj1_sig fst snd] in *.
  rewrite (proj2 (Z.leb_le 0 size)) in * by lia. fold zone_pool in *. rewrite E in *. cbn in *. subst p'.
  by rewrite (proj2 (Z.eqb_neq p 0)) by done.
Qed.

Lemma second_alloc p n size (s1 : slab) :
  live s1 = {[p := n]} -> n <= 4096 -> 0 < size < 2048 ->
  exists q s2, ngx_slab_alloc_locked size s1 = (q, s2) /\ q <> 0.
Proof.
  intros Hl Hn Hs. pose proof zone_pages as HN. destruct s1 as [[m l] Hg]. cbn in Hl. subst l.
  destruct (good_one zone_pool (proj1 (init_geometry pool0 zm m0)) m p n size Hg HN ltac:(lia) ltac:(lia)) as (q & m' & E & Hq & _).
  destruct (ngx_slab_alloc_locked size _) as [q' s2] eqn:Ea. exists q', s2. split; [done|]. injection Ea as E1 _.
  unfold alloc_live in *. cbn [proj1_sig fst snd] in *. rewrite (proj2 (Z.leb_le 0 size)) in * by lia. rewrite E in *. cbn in *. congruence.
Qed.

Lemma init_zone_created var name :
  Z.of_nat (length name) < 2000 ->
  exists sh z, ngx_http_limit_req_init_zone junk junk_link None var false name new_pool = Created sh z.
Proof.
  intros Hname. unfold ngx_http_limit_req_init_zone.
  assert (Hw : 0 < shctx_size <= 4096) by (unfold shctx_size, LimitReq.word; destruct ptr_bits_cases as [-> | ->]; by vm_compute).
  destruct (first_alloc shctx_size Hw) as (sh & s1 & -> & Hsh & Hl1). rewrite (proj2 (Z.eqb_neq sh 0)) by done.
  destruct (second_alloc sh shctx_size (Z.of_nat (length (lit " in limit_req zone ") + 3 + length name)) s1 Hl1 ltac:(lia)) as (q & s2 & E2 & Hq).
  { change (length (lit " in limit_req zone ")) with 19%nat. lia. }
  rewrite E2, (proj2 (Z.eqb_neq q 0)) by done. clear E2 Hl1.
  unfold Rbtree.ngx_rbtree_init, Rbtree.ngx_rbt_black, Rbtree.upd, mbind, Rbtree.M_bind. simpl. rewrite lookup_singleton_eq. simpl.
  unfold Queue.ngx_queue_init, Queue.set_prev, Queue.set_next, mbind, Queue.M_bind. simpl.
  rewrite lookup_singleton_eq. simpl. rewrite lookup_insert_eq. simpl. by eexists _, _.
Qed.

(** C32: the shared memory of a zone, of at least eight pages with anything in it, becomes a
    zone of the request limiter: the pool is made, the zone is created in it, and then the
    requests may look up, account and release their nodes in any order, any number of
    times, with nodes allocated by and given back to the slab allocator: every operation
    ends without an access to memory that is not the zone's, and the tree, the queue and
    the blocks of the pool stay consistent. *)
Theorem limit_req_on_slab var name ops :
  Z.of_nat (length name) < 2000 -> Z.of_nat (length ops) < 2 ^ ptr_bits ->
  exists sh z held' z' L',
    ngx_http_limit_req_init_zone junk junk_link None var false name new_pool = Created sh z /\
    execs (sentinel_at sh) (header_at sh) junk junk_link debug ops [] z = Some (held', z') /\
    zone_ok (sentinel_at sh) (header_at sh) z' L' /\ held_ok L' held' /\
    good zone_pool (pool_memory (LimitReq.pool z')) (live (LimitReq.pool z')).
Proof.
  intros Hname Hops. destruct (init_zone_created var name Hname) as (sh & z & E).
  pose proof (limit_req_init_zone_ok junk junk_link _ _ _ _ _ E) as Hz.
  destruct (execs_safe (sentinel_at sh) (header_at sh) junk junk_link debug ops [] z [] Hz) as (held' & z' & L' & Ee & Hz' & Hh'); [by split; constructor|done|].
  exists sh, z, held', z', L'. split_and!; try done. exact (proj2_sig (LimitReq.pool z')).
Qed.
End Zone.

Section Example.
#[local] Existing Instance page_4k.

Lemma limit_req_on_slab_witness :
  exists sh z held' z' L',
    ngx_http_limit_req_init_zone (arch := lp64) (slabs := zone_slab (arch := lp64) (layout := example_layout) example_zone example_memory example_zone_ok)
      blank (Queue.mkLink 7 7) None (lit "x") false (lit "one") (new_pool (arch := lp64) (layout := example_layout) _ _ _) = Created sh z /\
    execs (arch := lp64) (slabs := zone_slab (arch := lp64) (layout := example_layout) example_zone example_memory example_zone_ok)
      (sentinel_at (arch := lp64) sh) (header_at (arch := lp64) sh) blank (Queue.mkLink 7 7) true
      [Lookup (mkLimit 1000 0 false) 500000 7 (lit "a") false; Lookup (mkLimit 1000 0 false) 700000 9 (lit "c") true; Release 0] [] z
      = Some (held', z') /\
    zone_ok (arch := lp64) (slabs := zone_slab (arch := lp64) (layout := example_layout) example_zone example_memory example_zone_ok)
      (sentinel_at (arch := lp64) sh) (header_at (arch := lp64) sh) z' L' /\ held_ok L' held' /\
    good (arch := lp64) (layout := example_layout) (zone_pool (arch := lp64) (layout := example_layout) example_zone example_memory)
      (pool_memory (arch := lp64) (layout := example_layout) example_zone example_memory example_zone_ok (LimitReq.pool z'))
      (live (SlabPool := zone_slab (arch := lp64) (layout := example_layout) example_zone example_memory example_zone_ok) (LimitReq.pool z')).
Proof.
  apply (limit_req_on_slab (arch := lp64) (layout := example_layout) example_zone example_memory example_zone_ok); reflexivity.
Defined.

(** The zone of an example, in a slab pool. *)
#[local] Existing Instances lp64 example_layout.
#[local] Instance example_slab : SlabPool := zone_slab example_zone example_memory example_zone_ok.

Definition created : option (Z * zone) :=
  match ngx_http_limit_req_init_zone blank (Queue.mkLink 7 7) None (lit "x") false (lit "one") (new_pool example_zone example_memory example_zone_ok) with
  | Created sh z => Some (sh, z)
  | _ => None
  end.

(** Where the context of the zone is, and the zone. *)
Definition created_at : Z := default 0 (fst <$> created).

Definition created_zone : zone :=
  match created with
  | Some (_, z) => z
  | None => mkZone (Rbtree.mkRb lr ∅ 0) ∅ (new_pool example_zone example_memory example_zone_ok)
  end.

Lemma created_ok : zone_ok (sentinel_at created_at) (header_at created_at) created_zone [].
Proof.
  unfold created_at, created_zone, created.
  destruct (init_zone_created example_zone example_memory example_zone_ok blank (Queue.mkLink 7 7) (lit "x") (lit "one")) as (sh & z & E); [done|].
  rewrite E. simpl. by eapply limit_req_init_zone_ok.
Qed.

Lemma limit_req_rate_witness :
  exists codes z',
    serve (sentinel_at created_at) (header_at created_at) blank (Queue.mkLink 0 0) true (mkLimit 1000 2000 true) six created_zone
      = Some (codes, z') /\ length codes = length six /\
    1000000 * (passed (lit "a") six codes - 1) <= 1000 * 2000 + 1000 * 1000.
Proof.
  apply (limit_req_rate (sentinel_at created_at) (header_at created_at) blank (Queue.mkLink 0 0) true (mkLimit 1000 2000 true)
    (lit "a") 500000 1000 six created_zone []).
  - apply created_ok.
  - intros x Hx. by apply elem_of_nil in Hx.
  - vm_compute. reflexivity.
  - reflexivity.
  - split; reflexivity || (vm_compute; congruence).
  - simpl. lia.
  - lia.
  - repeat constructor; simpl; lia.
  - repeat constructor; simpl; lia.
Defined.

(** When the pool is full, its nodes make room whether they are idle or not: after enough
    requests with other keys the bound of one key does not hold. *)
Definition flood : list (Z * list Z) :=
  let a := [(500000, lit "a"); (500000, lit "a"); (500000, lit "a")] in
  a ++ ((fun i => (500000, repeat (Z.of_nat i) 250)) <$> seq 1 60) ++ a.

Definition served : list Z :=
  default [] (fst <$> serve (sentinel_at created_at) (header_at created_at) blank (Queue.mkLink 0 0) true (mkLimit 1000 2000 true) flood created_zone).

Example limit_req_driven_out :
  has_room (sentinel_at created_at) (header_at created_at) blank (Queue.mkLink 0 0) true (mkLimit 1000 2000 true) flood created_zone = false /\
  passed (lit "a") flood served = 6 /\ 1000 * 2000 < 1000000 * (6 - 1).
Proof. vm_compute. split_and!; reflexivity. Qed.
End Example.
End LimitSlab.
