(* ===== verification/HttpLocation.v ===== *)
(** * Locations: the configuration and the lookup

    The locations of a server, as src/nginx-1.7.2/src/http/ngx_http.c arranges them
    when the configuration is read and src/http/ngx_http_core_module.c searches them
    for every request: the directive [location], the queues of the locations of a
    level, their sorting and splitting into static, regular expression, named and
    nameless ones, the search trees of the static ones, and [find_location].

    A queue is the list of its elements ([NgxQueueSpec] shows that the operations on
    the links are those on the lists); a position in a queue is the rest of the list
    from there on.  A pointer to a configuration is the configuration, and
    [loc_conf], the address of the configurations of all modules, tells one location
    from another.  [R] is the type of compiled regular expressions; compiling and
    matching are PCRE's and are arguments.  [None] is a read through a null pointer,
    a store outside an array, or too little fuel; [NGX_ERROR] of the configuration is
    the constructor [Refused]. *)

From S2P Require Import Prelude NgxString NgxSort.

(** ** Data *)

(** [ngx_http_location_queue_t], without the place in the configuration file. *)
Inductive ngx_http_location_queue_t (C : Type) : Type :=
  LQ { exact : option C; inclusive : option C; lq_name : list Z;
       list_ : list (ngx_http_location_queue_t C) }.
Arguments LQ {C}.
Arguments exact {C}.
Arguments inclusive {C}.
Arguments lq_name {C}.
Arguments list_ {C}.

(** [ngx_http_location_tree_node_t]; [len] is a [u_char]. *)
Inductive ngx_http_location_tree_node_t (C : Type) : Type :=
| NULL
| Node (left right tree : ngx_http_location_tree_node_t C) (node_exact node_inclusive : option C)
    (node_auto_redirect : bool) (len : Z) (node_name : list Z).
Arguments NULL {C}.
Arguments Node {C}.

(** [ngx_http_core_loc_conf_t]: what the lookup uses. *)
Inductive ngx_http_core_loc_conf_t (R : Type) : Type :=
  Conf { name : list Z; regex : option R;
         noname : bool; named : bool; exact_match : bool; noregex : bool; auto_redirect : bool;
         loc_conf : Z;
         locations : option (list (ngx_http_location_queue_t (ngx_http_core_loc_conf_t R)));
         static_locations : ngx_http_location_tree_node_t (ngx_http_core_loc_conf_t R);
         regex_locations : option (list (option (ngx_http_core_loc_conf_t R))) }.
Arguments Conf {R}.
Arguments name {R}.
Arguments regex {R}.
Arguments noname {R}.
Arguments named {R}.
Arguments exact_match {R}.
Arguments noregex {R}.
Arguments auto_redirect {R}.
Arguments loc_conf {R}.
Arguments locations {R}.
Arguments static_locations {R}.
Arguments regex_locations {R}.

(** What a step of the configuration comes to. *)
Inductive conf_result (A : Type) := Done (a : A) | Refused | Fault.
Arguments Done {A}.
Arguments Refused {A}.
Arguments Fault {A}.

#[export] Instance conf_ret : MRet conf_result := fun A a => Done a.

#[export] Instance conf_bind : MBind conf_result := fun A B f k =>
  match k with Done a => f a | Refused => Refused | Fault => Fault end.

Definition of_option {A} (o : option A) : conf_result A :=
  match o with Some a => Done a | None => Fault end.

(** ** One level: sorting, joining, trees *)

Section Level.
Context {R : Type}.
Notation conf := (ngx_http_core_loc_conf_t R).
Notation lq := (ngx_http_location_queue_t conf).
Notation node := (ngx_http_location_tree_node_t conf).

Definition is_some {A} (o : option A) : bool := match o with Some _ => true | None => false end.

Definition set_locations (l : option (list lq)) (c : conf) : conf :=
  Conf (name c) (regex c) (noname c) (named c) (exact_match c) (noregex c) (auto_redirect c) (loc_conf c)
    l (static_locations c) (regex_locations c).

Definition set_static_locations (t : node) (c : conf) : conf :=
  Conf (name c) (regex c) (noname c) (named c) (exact_match c) (noregex c) (auto_redirect c) (loc_conf c)
    (locations c) t (regex_locations c).

Definition set_regex_locations (a : option (list (option conf))) (c : conf) : conf :=
  Conf (name c) (regex c) (noname c) (named c) (exact_match c) (noregex c) (auto_redirect c) (loc_conf c)
    (locations c) (static_locations c) a.

(** The element [ngx_http_add_location] makes. *)
Definition new_lq (clcf : conf) : lq :=
  if exact_match clcf || is_some (regex clcf) || named clcf || noname clcf
  then LQ (Some clcf) None (name clcf) []
  else LQ None (Some clcf) (name clcf) [].

Definition ngx_http_add_location (locations : option (list lq)) (clcf : conf) : option (list lq) :=
  let l := match locations with Some l => l | None => [] end in
  Some (l ++ [new_lq clcf]).

(** [lq->exact ? lq->exact : lq->inclusive] *)
Definition lq_clcf (q : lq) : option conf :=
  match exact q with Some c => Some c | None => inclusive q end.

(** The configuration that pointer points to changes to [c]. *)
Definition lq_store (q : lq) (c : conf) : lq :=
  match exact q with
  | Some _ => LQ (Some c) (inclusive q) (lq_name q) (list_ q)
  | None => LQ None (Some c) (lq_name q) (list_ q)
  end.

(** The C library's [strcmp]; the strings end with a zero byte. *)
Definition ngx_strcmp (s1 s2 : list Z) : option Z :=
  ngx_strncmp s1 s2 (Nat.max (length s1) (length s2)).

(** The names of the configuration file end with a zero byte. *)
Definition data (s : list Z) : list Z := s ++ [cNUL].

Definition cmp_confs (first second : conf) : option Z :=
  if noname first && negb (noname second) then Some 1
  else if negb (noname first) && noname second then Some (-1)
  else if noname first || noname second then Some 0
  else if named first && negb (named second) then Some 1
  else if negb (named first) && named second then Some (-1)
  else if named first && named second then ngx_strcmp (data (name first)) (data (name second))
  else if is_some (regex first) && negb (is_some (regex second)) then Some 1
  else if negb (is_some (regex first)) && is_some (regex second) then Some (-1)
  else if is_some (regex first) || is_some (regex second) then Some 0
  else
    rc ← ngx_filename_cmp (data (name first)) (data (name second))
           (Nat.min (length (name first)) (length (name second)) + 1);
    if (rc =? 0) && negb (exact_match first) && exact_match second then Some 1 else Some rc.

(** An element of the queue has one of the two pointers, and the comparisons end at the
    zero bytes ([HttpLocationLevel.cmp_confs_total]), so neither default is used. *)
Definition ngx_http_cmp_locations (one two : lq) : Z :=
  match lq_clcf one, lq_clcf two with
  | Some first, Some second => default 0 (cmp_confs first second)
  | _, _ => 0
  end.

(** The test of the loop: the two names are the same. *)
Definition same_name (q x : lq) : option bool :=
  if (length (lq_name q) =? length (lq_name x))%nat then
    rc ← ngx_filename_cmp (lq_name q) (lq_name x) (length (lq_name x));
    Some (rc =? 0)
  else Some false.

(** The loop of [ngx_http_join_exact_locations], from the element [q] on. *)
Fixpoint join_loop (q : lq) (l : list lq) : conf_result (list lq) :=
  match l with
  | [] => Done [q]
  | x :: l' =>
      same ← of_option (same_name q x);
      if same : bool then
        if (is_some (exact q) && is_some (exact x)) || (is_some (inclusive q) && is_some (inclusive x))
        then Refused
        else join_loop (LQ (exact q) (inclusive x) (lq_name q) (list_ q)) l'
      else l'' ← join_loop x l'; Done (q :: l'')
  end.

Definition ngx_http_join_exact_locations (locations : list lq) : conf_result (list lq) :=
  match locations with
  | [] => Done []
  | q :: l => join_loop q l
  end.

(** The search for the first element [x] whose name does not begin with [name]: the
    elements before it, and the rest. *)
Fixpoint extensions (name : list Z) (l : list lq) : option (list lq * list lq) :=
  match l with
  | [] => Some ([], [])
  | lx :: l' =>
      if (length (lq_name lx) <? length name)%nat then Some ([], l)
      else
        rc ← ngx_filename_cmp name (lq_name lx) (length name);
        if negb (rc =? 0) then Some ([], l)
        else '(a, b) ← extensions name l'; Some (lx :: a, b)
  end.

(** [ngx_http_create_locations_list], on the queue from [q] on. *)
Fixpoint create_locations_list (fuel : nat) (l : list lq) : option (list lq) :=
  match fuel with
  | O => None
  | S fuel' =>
      match l with
      | [] => Some []
      | [q] => Some [q]
      | lq :: rest =>
          match inclusive lq with
          | None => rest' ← create_locations_list fuel' rest; Some (lq :: rest')
          | Some _ =>
              '(a, x) ← extensions (lq_name lq) rest;
              match a with
              | [] => rest' ← create_locations_list fuel' x; Some (lq :: rest')
              | _ :: _ =>
                  sub ← create_locations_list fuel' (list_ lq ++ a);
                  let lq := LQ (exact lq) (inclusive lq) (lq_name lq) sub in
                  match x with
                  | [] => Some [lq]
                  | _ :: _ => x' ← create_locations_list fuel' x; Some (lq :: x')
                  end
              end
          end
      end
  end.

Definition ngx_http_create_locations_list (l : list lq) : option (list lq) :=
  create_locations_list (S (length l)) l.

Definition clcf_auto_redirect (o : option conf) : bool :=
  match o with Some c => auto_redirect c | None => false end.

(** [ngx_http_create_locations_tree]; the queue splits at its middle. *)
Fixpoint create_locations_tree (fuel : nat) (locations : list lq) (prefix : nat) : option node :=
  match fuel with
  | O => None
  | S fuel' =>
      let i := (length locations / 2)%nat in
      q ← locations !! i;
      let len := (length (lq_name q) - prefix)%nat in
      let head := take i locations in
      let tail := drop (S i) locations in
      lt ← match head with [] => Some NULL | _ => create_locations_tree fuel' head prefix end;
      rt ← match head, tail with
              | [], _ | _, [] => Some NULL
              | _, _ => create_locations_tree fuel' tail prefix
              end;
      tr ← match list_ q with
             | [] => Some NULL
             | _ => create_locations_tree fuel' (list_ q) (prefix + len)
             end;
      Some (Node lt rt tr (exact q) (inclusive q)
              (clcf_auto_redirect (exact q) || clcf_auto_redirect (inclusive q))
              (uint 8 (Z.of_nat len)) (take len (drop prefix (lq_name q))))
  end.

(** The elements of a queue and of the lists below it. *)
Fixpoint lq_size (q : lq) : nat :=
  match q with LQ _ _ _ l => S (sum_list (lq_size <$> l)) end.

Definition queue_size (l : list lq) : nat := sum_list (lq_size <$> l).

Definition ngx_http_create_locations_tree (locations : list lq) (prefix : nat) : option node :=
  create_locations_tree (S (queue_size locations)) locations prefix.

(** The loop of [ngx_http_core_find_static_location]: the node, what is left of the URI,
    and the two results, [rv] and the location of the request. *)
Fixpoint static_loop (t : node) (uri : list Z) (rv : Z) (r : conf) : option (Z * conf) :=
  match t with
  | NULL => Some (rv, r)
  | Node lt rt tree exact inclusive auto_redirect len name =>
      let n := Nat.min (length uri) (Z.to_nat len) in
      rc ← ngx_filename_cmp uri name n;
      if negb (rc =? 0) then static_loop (if rc <? 0 then lt else rt) uri rv r
      else if len <? Z.of_nat (length uri) then
        match inclusive with
        | Some c => static_loop tree (drop n uri) NGX_AGAIN c
        | None => static_loop rt uri rv r
        end
      else if Z.of_nat (length uri) =? len then
        match exact with
        | Some c => Some (NGX_OK, c)
        | None => c ← inclusive; Some (NGX_AGAIN, c)
        end
      else if (Z.of_nat (length uri) + 1 =? len) && auto_redirect then
        c ← match exact with Some c => Some c | None => inclusive end;
        static_loop lt uri NGX_DONE c
      else static_loop lt uri rv r
  end.

Definition ngx_http_core_find_static_location (uri : list Z) (r : conf) (node : node) : option (Z * conf) :=
  static_loop node uri NGX_DECLINED r.
End Level.

(** ** All levels: the making of the trees *)

Section Init.
Context {R : Type}.
Notation conf := (ngx_http_core_loc_conf_t R).
Notation lq := (ngx_http_location_queue_t conf).

(** What the loop of [ngx_http_init_locations] leaves: the queue, the place of the first
    regular expression and the number of them, the same of the named locations, and the
    place of the nameless location it stopped at. *)
Record scan := mkScan
  { queue : list lq; first_regex : option nat; r : nat; first_named : option nat; n : nat; stop : option nat }.

Fixpoint scan_loop (init : conf -> conf_result conf) (i : nat) (l : list lq) : conf_result scan :=
  match l with
  | [] => Done (mkScan [] None 0 None 0 None)
  | q :: l' =>
      clcf ← of_option (lq_clcf q);
      clcf ← init clcf;
      let q := lq_store q clcf in
      if is_some (regex clcf) then
        s ← scan_loop init (S i) l';
        Done (mkScan (q :: queue s) (Some i) (S (r s)) (first_named s) (n s) (stop s))
      else if named clcf then
        s ← scan_loop init (S i) l';
        Done (mkScan (q :: queue s) (first_regex s) (r s) (Some i) (S (n s)) (stop s))
      else if noname clcf then Done (mkScan (q :: l') None 0 None 0 (Some i))
      else
        s ← scan_loop init (S i) l';
        Done (mkScan (q :: queue s) (first_regex s) (r s) (first_named s) (n s) (stop s))
  end.

(** The array of [size + 1] pointers, filled from a part of the queue and ended by NULL. *)
Definition clcf_array (size : nat) (part : list lq) : conf_result (list (option conf)) :=
  if (length part <=? size)%nat then Done ((exact <$> part) ++ [None]) else Fault.

(** Where there is a first such location, the queue is split there and the array made. *)
Definition split_off (size : nat) (first : option nat) (l : list lq) : conf_result (list lq * option (list (option conf))) :=
  match first with
  | None => Done (l, None)
  | Some q => a ← clcf_array size (drop q l); Done (take q l, Some a)
  end.

(** [cscf] is whether there is a server configuration; the second result is its
    [named_locations].  One unit of fuel per level of nesting. *)
Fixpoint init_locations (fuel : nat) (cscf : bool) (pclcf : conf)
  : conf_result (conf * option (list (option conf))) :=
  match fuel with
  | O => Fault
  | S fuel' =>
      match locations pclcf with
      | None => Done (pclcf, None)
      | Some l =>
          s ← scan_loop (fun c => '(c, _) ← init_locations fuel' false c; Done c) 0
                (ngx_sort ngx_http_cmp_locations true l);
          let l := match stop s with Some q => take q (queue s) | None => queue s end in
          (if is_some (first_named s) && negb cscf then Fault else Done tt);;
          '(l, named_locations) ← split_off (n s) (first_named s) l;
          '(l, regex_locations) ← split_off (r s) (first_regex s) l;
          let pclcf := match regex_locations with Some _ => set_regex_locations regex_locations pclcf | None => pclcf end in
          Done (set_locations (Some l) pclcf, named_locations)
      end
  end.

(** The first loop of [ngx_http_init_static_location_trees]. *)
Fixpoint trees_loop (init : conf -> conf_result conf) (l : list lq) : conf_result (list lq) :=
  match l with
  | [] => Done []
  | q :: l' =>
      clcf ← of_option (lq_clcf q);
      clcf ← init clcf;
      l'' ← trees_loop init l';
      Done (lq_store q clcf :: l'')
  end.

(** The queue is taken apart when the tree is made. *)
Fixpoint init_static_location_trees (fuel : nat) (pclcf : conf) : conf_result conf :=
  match fuel with
  | O => Fault
  | S fuel' =>
      match locations pclcf with
      | None | Some [] => Done pclcf
      | Some locations =>
          locations ← trees_loop (init_static_location_trees fuel') locations;
          locations ← ngx_http_join_exact_locations locations;
          locations ← of_option (ngx_http_create_locations_list locations);
          static_locations ← of_option (ngx_http_create_locations_tree locations 0);
          Done (set_locations (Some []) (set_static_locations static_locations pclcf))
      end
  end.

(** What [ngx_http_block] does for a server. *)
Definition create_location_trees (fuel : nat) (clcf : conf) : conf_result (conf * option (list (option conf))) :=
  '(clcf, named_locations) ← init_locations fuel true clcf;
  clcf ← init_static_location_trees fuel clcf;
  Done (clcf, named_locations).
End Init.

(** ** The lookup *)

Section Find.
Context {R : Type} (ngx_regex_exec : R -> list Z -> Z).
Notation conf := (ngx_http_core_loc_conf_t R).

Definition NGX_REGEX_NO_MATCHED : Z := -1.

(** The result of [ngx_http_regex_exec]; the captures are not kept. *)
Definition ngx_http_regex_exec (re : R) (s : list Z) : Z :=
  let rc := ngx_regex_exec re s in
  if rc =? NGX_REGEX_NO_MATCHED then NGX_DECLINED else if rc <? 0 then NGX_ERROR else NGX_OK.

(** The loop over [regex_locations]; [find] is the lookup in a nested location and [rc],
    [c] the result so far. *)
Fixpoint regex_loop (find : conf -> option (Z * conf)) (uri : list Z) (rc : Z) (c : conf)
    (clcfp : list (option conf)) : option (Z * conf) :=
  match clcfp with
  | [] => None
  | None :: _ => Some (rc, c)
  | Some d :: clcfp' =>
      re ← regex d;
      let n := ngx_http_regex_exec re uri in
      if n =? NGX_OK then
        '(rc, c) ← find d;
        Some (if rc =? NGX_ERROR then rc else NGX_OK, c)
      else if n =? NGX_DECLINED then regex_loop find uri rc c clcfp'
      else Some (NGX_ERROR, c)
  end.

(** [pclcf] is the location of the request when the function is called; the location
    when it returns is the second result.  One unit of fuel per level of nesting. *)
Fixpoint ngx_http_core_find_location (fuel : nat) (uri : list Z) (pclcf : conf) : option (Z * conf) :=
  match fuel with
  | O => None
  | S fuel' =>
      '(rc, c) ← ngx_http_core_find_static_location uri pclcf (static_locations pclcf);
      '(rc, c, noregex) ←
        (if rc =? NGX_AGAIN then
           '(rc', c') ← ngx_http_core_find_location fuel' uri c;
           Some (rc', c', noregex c)
         else Some (rc, c, false));
      if (rc =? NGX_OK) || (rc =? NGX_DONE) then Some (rc, c)
      else
        match regex_locations pclcf with
        | Some clcfp =>
            if noregex : bool then Some (rc, c)
            else regex_loop (ngx_http_core_find_location fuel' uri) uri rc c clcfp
        | None => Some (rc, c)
        end
  end.
End Find.

(** ** The directive *)

Section Directive.
Context {R : Type} (ngx_http_regex_compile : list Z -> bool -> option R).
Notation conf := (ngx_http_core_loc_conf_t R).

(** A location as [create_loc_conf] makes it. *)
Definition new_conf (loc_conf : Z) : conf := Conf [] None false false false false false loc_conf None NULL None.

(** The name and the flags that a modifier sets. *)
Definition set_name (s : list Z) (c : conf) : conf :=
  Conf s (regex c) (noname c) (named c) (exact_match c) (noregex c) (auto_redirect c) (loc_conf c)
    (locations c) (static_locations c) (regex_locations c).

Definition set_exact (c : conf) : conf :=
  Conf (name c) (regex c) (noname c) (named c) true (noregex c) (auto_redirect c) (loc_conf c)
    (locations c) (static_locations c) (regex_locations c).

Definition set_noregex (c : conf) : conf :=
  Conf (name c) (regex c) (noname c) (named c) (exact_match c) true (auto_redirect c) (loc_conf c)
    (locations c) (static_locations c) (regex_locations c).

Definition set_named (c : conf) : conf :=
  Conf (name c) (regex c) (noname c) true (exact_match c) (noregex c) (auto_redirect c) (loc_conf c)
    (locations c) (static_locations c) (regex_locations c).

Definition set_regex (re : R) (c : conf) : conf :=
  Conf (name c) (Some re) (noname c) (named c) (exact_match c) (noregex c) (auto_redirect c) (loc_conf c)
    (locations c) (static_locations c) (regex_locations c).

Definition ngx_http_core_regex_location (clcf : conf) (regex : list Z) (caseless : bool) : conf_result conf :=
  match ngx_http_regex_compile regex caseless with
  | None => Refused
  | Some re => Done (set_name regex (set_regex re clcf))
  end.

(** The byte of a string that ends with a zero byte. *)
Definition byte_at (s : list Z) (i : nat) : option Z := data s !! i.

(** The arguments of the directive, after its own name. *)
Definition location_name (clcf : conf) (value : list (list Z)) : conf_result conf :=
  match value with
  | [mod_; name] =>
      if bool_decide (mod_ = lit "=") then Done (set_exact (set_name name clcf))
      else if bool_decide (mod_ = lit "^~") then Done (set_noregex (set_name name clcf))
      else if bool_decide (mod_ = lit "~") then ngx_http_core_regex_location clcf name false
      else if bool_decide (mod_ = lit "~*") then ngx_http_core_regex_location clcf name true
      else Refused
  | [name] =>
      c0 ← of_option (byte_at name 0);
      if c0 =? 61 then Done (set_exact (set_name (drop 1 name) clcf))
      else
        tilde ← (if c0 =? 94 then c1 ← of_option (byte_at name 1); Done (c1 =? 126) else Done false);
        if tilde : bool then Done (set_noregex (set_name (drop 2 name) clcf))
        else if c0 =? 126 then
          let name := drop 1 name in
          c1 ← of_option (byte_at name 0);
          if c1 =? 42 then ngx_http_core_regex_location clcf (drop 1 name) true
          else ngx_http_core_regex_location clcf name false
        else
          let clcf := set_name name clcf in
          Done (if c0 =? 64 then set_named clcf else clcf)
  | _ => Fault
  end.

(** The checks of a nested location. *)
Definition location_nested (pclcf clcf : conf) : conf_result unit :=
  if (length (name pclcf) =? 0)%nat then Done tt
  else if exact_match pclcf then Refused
  else if named pclcf then Refused
  else if named clcf then Refused
  else if is_some (regex clcf) then Done tt
  else
    rc ← of_option (ngx_filename_cmp (data (name clcf)) (data (name pclcf)) (length (name pclcf)));
    if negb (rc =? 0) then Refused else Done tt.

(** [parse] is what the block of the directive, read by [ngx_conf_parse], makes of the
    new location.  The code puts the location into the queue before that; it is the same
    location in the queue that the block then changes. *)
Definition ngx_http_core_location (parse : conf -> conf_result conf) (loc_conf : Z) (value : list (list Z))
    (pclcf : conf) : conf_result conf :=
  clcf ← location_name (new_conf loc_conf) value;
  location_nested pclcf clcf;;
  clcf ← parse clcf;
  Done (set_locations (ngx_http_add_location (locations pclcf) clcf) pclcf).
End Directive.
