(* ===== verification/HttpLocationTree.v ===== *)
(** * Locations: the search trees

    The order of names, forests of locations, and the proof that a tree made of a
    forest finds what a search of the plain list would find: [tree_lookup]. *)

From S2P Require Import Prelude NgxString NgxSort HttpLocation.
From Stdlib Require Import Sorted.

(** ** The order of names *)

(** The order of [ngx_filename_cmp]: "/" is the lowest byte, the end of a name is lower. *)
Definition key (x : Z) : Z := if x =? cSLASH then 0 else x.

Fixpoint nlt (a b : list Z) : Prop :=
  match a, b with
  | _, [] => False
  | [], _ :: _ => True
  | x :: a', y :: b' => key x < key y \/ x = y /\ nlt a' b'
  end.

(** [a] is lower than [b] and not a prefix of it. *)
Fixpoint ndiv (a b : list Z) : Prop :=
  match a, b with
  | x :: a', y :: b' => key x < key y \/ x = y /\ ndiv a' b'
  | _, _ => False
  end.

Lemma key_inj x y : x <> 0 -> y <> 0 -> key x = key y -> x = y.
Proof. unfold key. intros. repeat case_match; repeat (rewrite Z.eqb_eq in * || rewrite Z.eqb_neq in * ); lia. Qed.

#[export] Instance nlt_strict : StrictOrder nlt.
Proof.
  split.
  - intros a. unfold complement. induction a as [|x a IH]; [done|]. intros [?|[_ ?]]; [lia|auto].
  - intros a. induction a as [|x a IH]; intros [|y b] [|z c]; simpl; try done.
    intros [?|[-> ?]] [?|[-> ?]]; [left; lia|by left|by left|right; split; eauto].
Qed.

Lemma nlt_irrefl a : nlt a a -> False.
Proof. apply irreflexivity. apply nlt_strict. Qed.

Lemma ndiv_nlt a b : ndiv a b -> nlt a b.
Proof. revert b. induction a as [|x a IH]; intros [|y b]; simpl; try done. intros [?|[-> ?]]; [by left|right; auto]. Qed.

Lemma ndiv_app a b s t : ndiv a b -> ndiv (a ++ s) (b ++ t).
Proof. revert b. induction a as [|x a IH]; intros [|y b]; simpl; try done. intros [?|[-> ?]]; [by left|right; auto]. Qed.

Lemma nlt_common p a b : nlt (p ++ a) (p ++ b) <-> nlt a b.
Proof. induction p as [|x p IH]; simpl; [done|]. rewrite IH. split; [intros [?|[_ ?]]; [lia|done]|by right]. Qed.

Lemma ndiv_common p a b : ndiv (p ++ a) (p ++ b) <-> ndiv a b.
Proof. induction p as [|x p IH]; simpl; [done|]. rewrite IH. split; [intros [?|[_ ?]]; [lia|done]|by right]. Qed.

Lemma nlt_prefix a b : nlt a (a ++ b) <-> b <> [].
Proof.
  rewrite <- (app_nil_r a) at 1. rewrite nlt_common. by destruct b.
Qed.

Lemma prefix_nlt a b : a `prefix_of` b -> a = b \/ nlt a b.
Proof. intros [[|x s] ->]; [left; by rewrite app_nil_r|right; by apply nlt_prefix]. Qed.

(** Names and URIs have no zero bytes. *)
Definition text (s : list Z) : Prop := Forall (fun x => 0 < x) s.

(** The first bytes that differ decide. *)
Lemma filename_cmp_diff x y u w n : x <> y -> 0 < x -> 0 < y ->
  exists rc, ngx_filename_cmp (x :: u) (y :: w) (S n) = Some rc /\ (rc < 0 /\ key x < key y \/ 0 < rc /\ key y < key x).
Proof.
  intros Hxy Hx Hy. cbn [ngx_filename_cmp].
  rewrite (proj2 (Z.eqb_neq x y)), (proj2 (Z.eqb_neq x 0)), (proj2 (Z.eqb_neq y 0)) by lia.
  eexists. split; [done|]. cbn zeta. fold (key x) (key y). pose proof (key_inj x y). lia.
Qed.

(** What [ngx_filename_cmp] says of two names, up to the end of the shorter. *)
Lemma filename_cmp_min u w : text u -> text w ->
  exists rc, ngx_filename_cmp u w (Nat.min (length u) (length w)) = Some rc /\
    (rc < 0 /\ ndiv u w \/ 0 < rc /\ ndiv w u \/ rc = 0 /\ (u `prefix_of` w \/ w `prefix_of` u)).
Proof.
  revert w. induction u as [|x u IH]; intros w Hu Hw.
  { exists 0. split; [done|]. right; right. split; [done|]. left. apply prefix_nil. }
  destruct w as [|y w].
  { exists 0. split; [done|]. right; right. split; [done|]. right. apply prefix_nil. }
  apply Forall_cons in Hu as [Hx Hu], Hw as [Hy Hw]. cbn [length Nat.min ndiv].
  destruct (decide (x = y)) as [->|Hxy].
  - cbn [ngx_filename_cmp]. rewrite Z.eqb_refl, (proj2 (Z.eqb_neq y 0)) by lia.
    destruct (IH w Hu Hw) as (rc & E & H). exists rc. split; [done|].
    destruct H as [[??]|[[??]|[? [?|?]]]]; eauto 8 using prefix_cons.
  - destruct (filename_cmp_diff x y u w (Nat.min (length u) (length w)) Hxy Hx Hy) as (rc & E & H).
    exists rc. split; [done|]. tauto.
Qed.

(** Whole names: compared to one byte past the shorter, the zero byte that ends it. *)
Lemma filename_cmp_data u w : text u -> text w ->
  exists rc, ngx_filename_cmp (data u) (data w) (Nat.min (length u) (length w) + 1) = Some rc /\
    (rc < 0 /\ nlt u w \/ 0 < rc /\ nlt w u \/ rc = 0 /\ u = w).
Proof.
  unfold data. revert w. induction u as [|x u IH]; intros [|y w] Hu Hw; cbn [length Nat.min Nat.add app nlt].
  - exists 0. split; [done|]. by right; right.
  - apply Forall_cons in Hw as [Hy Hw]. cbn [ngx_filename_cmp]. rewrite (proj2 (Z.eqb_neq 0 y)) by lia.
    eexists. split; [done|]. left. split; [cbn; lia|done].
  - apply Forall_cons in Hu as [Hx Hu]. cbn [ngx_filename_cmp]. rewrite (proj2 (Z.eqb_neq x 0)) by lia.
    rewrite orb_true_r. eexists. split; [done|]. right; left. split; [lia|done].
  - apply Forall_cons in Hu as [Hx Hu], Hw as [Hy Hw]. destruct (decide (x = y)) as [->|Hxy].
    + cbn [ngx_filename_cmp]. rewrite Z.eqb_refl, (proj2 (Z.eqb_neq y 0)) by lia.
      destruct (IH w Hu Hw) as (rc & E & H). exists rc. split; [done|]. naive_solver.
    + destruct (filename_cmp_diff x y (u ++ [0]) (w ++ [0]) (Nat.min (length u) (length w) + 1) Hxy Hx Hy) as (rc & E & H).
      exists rc. split; [done|]. tauto.
Qed.

Lemma text_prefix a b : a `prefix_of` b -> text b -> text a.
Proof. intros [s ->]. unfold text. rewrite Forall_app. tauto. Qed.

(** A name between a prefix of another and that other begins with the prefix. *)
Lemma prefix_between w v u : text v -> text u -> w `prefix_of` u -> w = v \/ nlt w v -> v = u \/ nlt v u -> w `prefix_of` v.
Proof.
  revert v u. induction w as [|x w IH]; intros v u Hv Hu; [intros; apply prefix_nil|].
  intros [s ->]. destruct v as [|y v]; [by intros [|]|]. cbn [nlt app] in *.
  apply Forall_cons in Hv as [Hy Hv], Hu as [Hx Hu]. intros H1 H2.
  assert (x = y) as ->.
  { destruct H1 as [[= ->]|[?|[??]]], H2 as [[= ->]|[?|[??]]]; try done; lia. }
  apply prefix_cons, (IH v (w ++ s)); [done|done|by exists s|..].
  - destruct H1 as [[= ->]|[?|[_ ?]]]; [by left|lia|by right].
  - destruct H2 as [[= ->]|[?|[_ ?]]]; [by left|lia|by right].
Qed.

(** The name of the directory [u] comes right after [u]. *)
Lemma slash_next u v : text v -> nlt u v -> v = u ++ [cSLASH] \/ nlt (u ++ [cSLASH]) v.
Proof.
  revert v. induction u as [|x u IH]; intros [|y v] Hv; cbn [nlt app]; try done.
  - intros _. apply Forall_cons in Hv as [Hy _]. destruct (decide (y = cSLASH)) as [->|Hs].
    + destruct v; [by left|]. right. by right.
    + right; left. unfold key. rewrite (proj2 (Z.eqb_neq y 47)) by done. cbn. lia.
  - apply Forall_cons in Hv as [_ Hv]. intros [?|[-> H]]; [by right; left|].
    destruct (IH v Hv H) as [->|?]; [by left|]. right. by right.
Qed.

(** ** The reference *)

Section Reference.
Context {R : Type}.
Notation conf := (ngx_http_core_loc_conf_t R).
Notation lq := (ngx_http_location_queue_t conf).

(** The longest proper prefix of [u], of less than [k] bytes, that [inc] has. *)
Fixpoint longest (inc : list Z -> option conf) (u : list Z) (k : nat) : option conf :=
  match k with
  | O => None
  | S k' => match inc (take k' u) with Some c => Some c | None => longest inc u k' end
  end.

(** The static location of a URI among exact ones [ex] and inclusive ones [inc]: the one
    with its name, exact or else inclusive; a redirect to the one with a slash added; the
    inclusive one that is the longest prefix. *)
Definition static_match (ex inc : list Z -> option conf) (u : list Z) (rv : Z) (r : conf) : Z * conf :=
  match ex u, inc u with
  | Some c, _ => (NGX_OK, c)
  | None, Some c => (NGX_AGAIN, c)
  | None, None =>
      let u' := u ++ [cSLASH] in
      match (if clcf_auto_redirect (ex u') || clcf_auto_redirect (inc u')
             then match ex u' with Some c => Some c | None => inc u' end else None) with
      | Some c => (NGX_DONE, c)
      | None => match longest inc u (length u) with Some c => (NGX_AGAIN, c) | None => (rv, r) end
      end
  end.

Lemma longest_ext f g u k :
  (forall j, (j < k)%nat -> f (take j u) = g (take j u)) -> longest f u k = longest g u k.
Proof.
  induction k as [|k IH]; intros H; [done|]. cbn [longest]. rewrite (H k) by lia.
  case_match; [done|]. apply IH. intros; apply H; lia.
Qed.

Lemma longest_none f u k : (forall j, (j < k)%nat -> f (take j u) = None) -> longest f u k = None.
Proof. induction k as [|k IH]; intros H; [done|]. cbn [longest]. rewrite (H k) by lia. apply IH. intros; apply H; lia. Qed.

(** [f] has a prefix of [m] bytes, and the longer ones of [g]. *)
Lemma longest_from f g u m c k :
  (m < k)%nat -> f (take m u) = Some c -> (forall j, (m < j < k)%nat -> f (take j u) = g (take j u)) ->
  (forall j, (j <= m)%nat -> g (take j u) = None) ->
  longest f u k = match longest g u k with Some x => Some x | None => Some c end.
Proof.
  intros Hm Hf Hfg Hg. induction k as [|k IH]; [lia|]. cbn [longest]. destruct (decide (k = m)) as [->|Hk].
  - rewrite Hf, Hg by lia. rewrite longest_none; [done|]. intros; apply Hg; lia.
  - rewrite (Hfg k) by lia. destruct (g (take k u)); [done|]. apply IH; [lia|]. intros; apply Hfg; lia.
Qed.

Lemma static_match_ext ex inc ex' inc' u rv r :
  ex u = ex' u -> inc u = inc' u -> ex (u ++ [cSLASH]) = ex' (u ++ [cSLASH]) ->
  inc (u ++ [cSLASH]) = inc' (u ++ [cSLASH]) -> (forall j, (j < length u)%nat -> inc (take j u) = inc' (take j u)) ->
  static_match ex inc u rv r = static_match ex' inc' u rv r.
Proof. intros E1 E2 E3 E4 E5. unfold static_match. by rewrite E1, E2, E3, E4, (longest_ext inc inc' u _ E5). Qed.

(** Of the elements of a queue. *)
Fixpoint ex_of (S : list lq) (w : list Z) : option conf :=
  match S with
  | [] => None
  | q :: S' => if bool_decide (lq_name q = w) && is_some (exact q) then exact q else ex_of S' w
  end.

Fixpoint inc_of (S : list lq) (w : list Z) : option conf :=
  match S with
  | [] => None
  | q :: S' => if bool_decide (lq_name q = w) && is_some (inclusive q) then inclusive q else inc_of S' w
  end.

Lemma ex_of_app S S' w : ex_of (S ++ S') w = match ex_of S w with Some c => Some c | None => ex_of S' w end.
Proof.
  induction S as [|q S IH]; [done|]. cbn. destruct (bool_decide (lq_name q = w) && is_some (exact q)) eqn:E; [|apply IH].
  apply andb_true_iff in E as [_ E]. by destruct (exact q).
Qed.

Lemma inc_of_app S S' w : inc_of (S ++ S') w = match inc_of S w with Some c => Some c | None => inc_of S' w end.
Proof.
  induction S as [|q S IH]; [done|]. cbn. destruct (bool_decide (lq_name q = w) && is_some (inclusive q)) eqn:E; [|apply IH].
  apply andb_true_iff in E as [_ E]. by destruct (inclusive q).
Qed.

Lemma ex_of_none S w : (forall q, q ∈ S -> lq_name q <> w) -> ex_of S w = None.
Proof.
  induction S as [|q S IH]; intros H; [done|]. cbn. rewrite bool_decide_false by (apply H; left). cbn.
  apply IH. intros; apply H; by right.
Qed.

Lemma inc_of_none S w : (forall q, q ∈ S -> lq_name q = w -> inclusive q = None) -> inc_of S w = None.
Proof.
  induction S as [|q S IH]; intros H; [done|]. cbn. rewrite IH by (intros; eapply H; [by right|done]).
  case_bool_decide as E; [|done]. rewrite (H q) by (done || left). done.
Qed.

Definition lookup_in (S : list lq) (u : list Z) (rv : Z) (r : conf) : Z * conf := static_match (ex_of S) (inc_of S) u rv r.

(** An element that does not matter to the lookup of [u]. *)
Definition irrelevant (u : list Z) (q : lq) : Prop :=
  lq_name q <> u /\ lq_name q <> u ++ [cSLASH] /\ (lq_name q `prefix_of` u -> inclusive q = None).

Lemma irrelevant_none S u : (forall q, q ∈ S -> irrelevant u q) ->
  ex_of S u = None /\ inc_of S u = None /\ ex_of S (u ++ [cSLASH]) = None /\ inc_of S (u ++ [cSLASH]) = None /\
  forall j, inc_of S (take j u) = None.
Proof.
  intros H. split_and!.
  - apply ex_of_none. intros q Hq. by apply H.
  - apply inc_of_none. intros q Hq E. by destruct (H q Hq) as (? & _).
  - apply ex_of_none. intros q Hq. by apply H.
  - apply inc_of_none. intros q Hq E. by destruct (H q Hq) as (_ & ? & _).
  - intros j. apply inc_of_none. intros q Hq E. apply (H q Hq). rewrite E. apply prefix_take.
Qed.

Lemma lookup_in_left S S' u rv r : (forall q, q ∈ S' -> irrelevant u q) -> lookup_in (S ++ S') u rv r = lookup_in S u rv r.
Proof.
  intros H. destruct (irrelevant_none _ _ H) as (E1 & E2 & E3 & E4 & E5).
  apply static_match_ext; intros; rewrite ?ex_of_app, ?inc_of_app, ?E1, ?E2, ?E3, ?E4, ?E5; by case_match.
Qed.

Lemma lookup_in_right S S' u rv r : (forall q, q ∈ S -> irrelevant u q) -> lookup_in (S ++ S') u rv r = lookup_in S' u rv r.
Proof.
  intros H. destruct (irrelevant_none _ _ H) as (E1 & E2 & E3 & E4 & E5).
  apply static_match_ext; intros; by rewrite ?ex_of_app, ?inc_of_app, ?E1, ?E2, ?E3, ?E4, ?E5.
Qed.
End Reference.

(** ** Forests *)

Section Forest.
Context {R : Type}.
Notation conf := (ngx_http_core_loc_conf_t R).
Notation lq := (ngx_http_location_queue_t conf).

(** An element and those of the lists below it, and all of a queue. *)
Fixpoint lq_flat (q : lq) : list lq :=
  match q with LQ _ _ _ l => q :: flat_map lq_flat l end.

Definition flat (l : list lq) : list lq := flat_map lq_flat l.

(** The names of a forest begin with [p]; what extends an inclusive location is in its list. *)
Inductive forest : list Z -> list lq -> Prop :=
| forest_nil p : forest p []
| forest_cons p q l :
    p `prefix_of` lq_name q -> forest (lq_name q) (list_ q) -> (inclusive q = None -> list_ q = []) ->
    (inclusive q <> None -> forall b, b ∈ l -> ~ lq_name q `prefix_of` lq_name b) -> forest p l -> forest p (q :: l).

Definition name_lt (q q' : lq) : Prop := nlt (lq_name q) (lq_name q').

(** What a tree needs of each element. *)
Record entry_ok (q : lq) : Prop :=
  { entry_text : text (lq_name q);
    entry_len : (length (lq_name q) <= 255)%nat;
    entry_some : exact q <> None \/ inclusive q <> None;
    entry_slash : clcf_auto_redirect (exact q) || clcf_auto_redirect (inclusive q) = true ->
                  exists s, lq_name q = s ++ [cSLASH] }.

Record good_forest (p : list Z) (l : list lq) : Prop :=
  { gf_forest : forest p l;
    gf_sorted : StronglySorted name_lt (flat l);
    gf_entries : forall q, q ∈ flat l -> entry_ok q }.

Lemma flat_app a b : flat (a ++ b) = flat a ++ flat b.
Proof. apply flat_map_app. Qed.

Lemma lq_flat_eq q : lq_flat q = q :: flat (list_ q).
Proof. by destruct q. Qed.

Lemma flat_cons q l : flat (q :: l) = q :: flat (list_ q) ++ flat l.
Proof. unfold flat. cbn [flat_map]. by rewrite lq_flat_eq. Qed.

Lemma flat_split a v b : flat (a ++ v :: b) = flat a ++ v :: flat (list_ v) ++ flat b.
Proof. by rewrite flat_app, flat_cons. Qed.

Lemma forest_app p a b : forest p (a ++ b) <-> forest p a /\ forest p b /\
  forall q, q ∈ a -> inclusive q <> None -> forall x, x ∈ b -> ~ lq_name q `prefix_of` lq_name x.
Proof.
  induction a as [|q a IH]; cbn [app].
  - split; [intros H; split_and!; [constructor|done|intros ? H1; by apply elem_of_nil in H1]|tauto].
  - split.
    + intros H. inversion H as [|? ? ? H1 H2 H3 H4 H5]; subst. apply IH in H5 as (H5 & H6 & H7). split_and!; [|done|].
      * constructor; try done. intros Hi x Hx. apply H4; [done|]. apply elem_of_app. by left.
      * intros x Hx Hi y Hy. apply elem_of_cons in Hx as [->|Hx]; [|by apply H7].
        apply H4; [done|]. apply elem_of_app. by right.
    + intros (H1 & H2 & H3). inversion H1 as [|? ? ? K1 K2 K3 K4 K5]; subst. constructor; try done.
      * intros Hi x Hx. apply elem_of_app in Hx as [Hx|Hx]; [by apply K4|]. by apply (H3 q); [left|..].
      * apply IH. split_and!; [done..|]. intros x Hx. apply H3. by right.
Qed.

(** Every element is below one of the queue itself, an inclusive one if it is below it. *)
Lemma flat_top p l q : forest p l -> q ∈ flat l ->
  exists t, t ∈ l /\ lq_name t `prefix_of` lq_name q /\ (t = q \/ inclusive t <> None).
Proof.
  induction 1 as [|p t l Hp H1 IH1 H2 H3 H4 IH2]; [intros H; by apply elem_of_nil in H|].
  rewrite flat_cons. intros [->|Hq]%elem_of_cons.
  { exists t. split; [left|]. split; [done|by left]. }
  apply elem_of_app in Hq as [Hq|Hq].
  - destruct (IH1 Hq) as (s & Hs & Hps & _). exists t. split; [left|]. split.
    + etrans; [|exact Hps]. clear -H1 Hs. remember (lq_name t) as p eqn:Ep. clear Ep.
      induction H1 as [|p q l Hp _ _ _ _ _ IH]; [by apply elem_of_nil in Hs|].
      apply elem_of_cons in Hs as [->|Hs]; auto.
    + right. intros Hi. rewrite (H2 Hi) in Hs. by apply elem_of_nil in Hs.
  - destruct (IH2 Hq) as (s & Hs & ? & ?). exists s. split; [by right|done].
Qed.

Lemma forest_names p l q : forest p l -> q ∈ l -> p `prefix_of` lq_name q.
Proof.
  induction 1 as [|p t l Hp _ _ _ _ _ IH]; [intros H; by apply elem_of_nil in H|].
  intros [->|Hq]%elem_of_cons; auto.
Qed.

Lemma flat_names p l q : forest p l -> q ∈ flat l -> p `prefix_of` lq_name q.
Proof. intros Hf Hq. destruct (flat_top p l q Hf Hq) as (t & Ht & Hp & _). etrans; [by eapply forest_names|done]. Qed.

Lemma good_forest_app p a b : good_forest p (a ++ b) -> good_forest p a /\ good_forest p b.
Proof.
  intros [H1 H2 H3]. apply forest_app in H1 as (Ha & Hb & _). rewrite flat_app in *.
  apply StronglySorted_split in H2 as (Sa & Sb & _).
  split; split; try done; intros q Hq; apply H3, elem_of_app; auto.
Qed.

(** ** One node

    [a] is what is left of the element [v], [b] what is right of it. *)

Section Around.
Context (p : list Z) (a : list lq) (v : lq) (b : list lq) (u : list Z).
Context (good : good_forest p (a ++ v :: b)) (Hu : text u).

Lemma left_lt q : q ∈ flat a -> nlt (lq_name q) (lq_name v).
Proof.
  destruct good as [_ Hs _]. rewrite flat_split in Hs. apply StronglySorted_split in Hs as (_ & _ & Hs).
  intros Hq. rewrite Forall_forall in Hs. specialize (Hs q Hq). by apply Forall_cons in Hs as [? _].
Qed.

Lemma right_gt q : q ∈ flat (list_ v) ++ flat b -> nlt (lq_name v) (lq_name q).
Proof.
  destruct good as [_ Hs _]. rewrite flat_split in Hs. apply StronglySorted_split in Hs as (_ & Hs & _).
  apply StronglySorted_inv in Hs as [_ Hs]. rewrite Forall_forall in Hs. apply Hs.
Qed.

Lemma below_prefix q : q ∈ flat (list_ v) -> lq_name v `prefix_of` lq_name q.
Proof.
  destruct good as [Hf _ _]. apply forest_app in Hf as (_ & Hf & _). inversion Hf as [|? ? ? H1 H2 H3 H4 H5]; subst.
  by apply flat_names.
Qed.

Lemma left_not_prefix q : q ∈ flat a -> inclusive q <> None -> ~ lq_name q `prefix_of` lq_name v.
Proof.
  destruct good as [Hf _ _]. apply forest_app in Hf as (Ha & Hf & Hx).
  intros Hq Hi Hp. destruct (flat_top p a q Ha Hq) as (t & Ht & Htp & Hti).
  apply (Hx t Ht) with (x := v); [by destruct Hti as [->|]|left|by etrans].
Qed.

Lemma right_not_prefix q : q ∈ flat b -> inclusive v <> None -> ~ lq_name v `prefix_of` lq_name q.
Proof.
  intros Hq Hi Hp. pose proof good as [Hf _ _]. apply forest_app in Hf as (_ & Hf & _).
  inversion Hf as [|? ? ? H1 H2 H3 H4 H5]; subst.
  destruct (flat_top p b q H5 Hq) as (t & Ht & Htp & _).
  assert (Hlt : nlt (lq_name v) (lq_name t)).
  { apply right_gt, elem_of_app. right. apply list_elem_of_In, in_flat_map. exists t. split; [by apply list_elem_of_In|].
    rewrite lq_flat_eq. left. done. }
  destruct (prefix_weak_total (lq_name v) (lq_name t) (lq_name q) Hp Htp) as [Hvt|Htv]; [by apply (H4 Hi t)|].
  destruct (prefix_nlt _ _ Htv) as [E|H]; [rewrite E in Hlt; by apply nlt_irrefl in Hlt|].
  by apply (nlt_irrefl (lq_name v)); trans (lq_name t).
Qed.

Lemma v_text : text (lq_name v).
Proof. destruct good as [_ _ He]. apply entry_text, He. rewrite flat_split. apply elem_of_app. right. left. Qed.

Lemma flat_around : flat (a ++ v :: b) = (flat a ++ v :: flat (list_ v)) ++ flat b.
Proof. rewrite flat_split, <- app_assoc. done. Qed.

Lemma not_prefix_lt x y : nlt x y -> ~ y `prefix_of` x.
Proof.
  intros H Hp. destruct (prefix_nlt _ _ Hp) as [->|H']; [by apply nlt_irrefl in H|].
  by apply (nlt_irrefl x); trans y.
Qed.

(** [u] is lower. *)
Lemma lookup_left rv r : nlt u (lq_name v) -> lq_name v <> u ++ [cSLASH] ->
  lookup_in (flat (a ++ v :: b)) u rv r = lookup_in (flat a) u rv r.
Proof.
  intros Hlt Hne. rewrite flat_split. apply lookup_in_left. intros q Hq.
  assert (Hq' : q = v \/ nlt (lq_name v) (lq_name q)) by (apply elem_of_cons in Hq as [->|?]; [by left|right; by apply right_gt]).
  assert (Hs : nlt (u ++ [cSLASH]) (lq_name v)) by (by destruct (slash_next u (lq_name v) v_text Hlt)).
  assert (Hqu : nlt (u ++ [cSLASH]) (lq_name q)) by (destruct Hq' as [->|?]; [done|by trans (lq_name v)]).
  assert (Huq : nlt u (lq_name q)) by (destruct Hq' as [->|?]; [done|by trans (lq_name v)]).
  split_and!.
  - intros E. rewrite E in Huq. by apply nlt_irrefl in Huq.
  - intros E. rewrite E in Hqu. by apply nlt_irrefl in Hqu.
  - intros Hp. by apply not_prefix_lt in Huq.
Qed.

(** [u] is higher. *)
Lemma lookup_right rv r :
  ndiv (lq_name v) u \/ nlt (lq_name v) u /\ lq_name v `prefix_of` u /\ inclusive v = None ->
  lookup_in (flat (a ++ v :: b)) u rv r = lookup_in (flat b) u rv r.
Proof.
  intros H. assert (Hvu : nlt (lq_name v) u) by (destruct H as [?|[? _]]; [by apply ndiv_nlt|done]).
  assert (Hus : nlt u (u ++ [cSLASH])) by by apply nlt_prefix.
  rewrite flat_around. apply lookup_in_right. intros q Hq. apply elem_of_app in Hq as [Hq|Hq].
  - pose proof (left_lt q Hq) as Hqv. split_and!.
    + intros E. rewrite E in Hqv. by apply (nlt_irrefl u); trans (lq_name v).
    + intros E. rewrite E in Hqv. apply (nlt_irrefl u). etrans; [exact Hus|]. by etrans.
    + intros Hp. destruct (inclusive q) eqn:Ei; [|done]. exfalso. apply (left_not_prefix q Hq); [by rewrite Ei|].
      apply (prefix_between _ _ u); auto using v_text.
  - destruct H as [Hd|(_ & Hp & Hi)].
    + assert (Hqd : ndiv (lq_name q) u).
      { apply elem_of_cons in Hq as [->|Hq]; [done|]. destruct (below_prefix q Hq) as [s ->].
        rewrite <- (app_nil_r u). by apply ndiv_app. }
      assert (Hqs : ndiv (lq_name q) (u ++ [cSLASH])) by (rewrite <- (app_nil_r (lq_name q)); by apply ndiv_app).
      split_and!.
      * intros E. rewrite E in Hqd. apply ndiv_nlt in Hqd. by apply nlt_irrefl in Hqd.
      * intros E. rewrite E in Hqs. apply ndiv_nlt in Hqs. by apply nlt_irrefl in Hqs.
      * intros [s E]. rewrite E in Hqd. rewrite <- (app_nil_r (lq_name q)) in Hqd at 1. by apply ndiv_common in Hqd.
    + pose proof good as [Hf _ _]. apply forest_app in Hf as (_ & Hf & _).
      inversion Hf as [|? ? ? H1 H2 H3 H4 H5]; subst. rewrite (H3 Hi) in Hq. apply list_elem_of_singleton in Hq as ->.
      split_and!; [..|done]; intros E; rewrite E in Hvu; [by apply nlt_irrefl in Hvu|].
      by apply (nlt_irrefl u); trans (u ++ [cSLASH]).
Qed.

(** What the parts of the queue have of a name. *)
Lemma around_ex w : ex_of (flat (a ++ v :: b)) w =
  match ex_of (flat a) w with
  | Some c => Some c
  | None => if bool_decide (lq_name v = w) && is_some (exact v) then exact v else ex_of (flat (list_ v) ++ flat b) w
  end.
Proof. by rewrite flat_split, ex_of_app. Qed.

Lemma around_inc w : inc_of (flat (a ++ v :: b)) w =
  match inc_of (flat a) w with
  | Some c => Some c
  | None => if bool_decide (lq_name v = w) && is_some (inclusive v) then inclusive v else inc_of (flat (list_ v) ++ flat b) w
  end.
Proof. by rewrite flat_split, inc_of_app. Qed.

Lemma left_none w : w = lq_name v \/ nlt (lq_name v) w -> ex_of (flat a) w = None /\ inc_of (flat a) w = None.
Proof.
  intros H. assert (Hq : forall q, q ∈ flat a -> lq_name q <> w).
  { intros q Hq E. pose proof (left_lt q Hq) as Hlt. rewrite E in Hlt.
    apply (nlt_irrefl w). destruct H as [->|H]; [done|by trans (lq_name v)]. }
  split; [by apply ex_of_none|]. apply inc_of_none. intros q Hq' E. by destruct (Hq q Hq').
Qed.

Lemma right_none w : w = lq_name v \/ nlt w (lq_name v) ->
  ex_of (flat (list_ v) ++ flat b) w = None /\ inc_of (flat (list_ v) ++ flat b) w = None.
Proof.
  intros H. assert (Hq : forall q, q ∈ flat (list_ v) ++ flat b -> lq_name q <> w).
  { intros q Hq E. pose proof (right_gt q Hq) as Hlt. rewrite E in Hlt.
    apply (nlt_irrefl w). destruct H as [->|H]; [done|by trans (lq_name v)]. }
  split; [by apply ex_of_none|]. apply inc_of_none. intros q Hq' E. by destruct (Hq q Hq').
Qed.

(** The element is the directory [u]. *)
Lemma lookup_slash rv r : lq_name v = u ++ [cSLASH] ->
  lookup_in (flat (a ++ v :: b)) u rv r =
  match (if clcf_auto_redirect (exact v) || clcf_auto_redirect (inclusive v) then lq_clcf v else None) with
  | Some c => lookup_in (flat a) u NGX_DONE c
  | None => lookup_in (flat a) u rv r
  end.
Proof.
  intros Ev. assert (Hlt : nlt u (lq_name v)) by (rewrite Ev; by apply nlt_prefix).
  assert (Hin : forall w, nlt w (lq_name v) -> bool_decide (lq_name v = w) = false).
  { intros w Hw. apply bool_decide_false. intros E. rewrite E in Hw. by apply nlt_irrefl in Hw. }
  assert (Hl : forall j, inc_of (flat a) (take j u) = None).
  { intros j. apply inc_of_none. intros q Hq E. destruct (inclusive q) eqn:Ei; [|done]. exfalso.
    apply (left_not_prefix q Hq); [by rewrite Ei|]. rewrite E, Ev. etrans; [apply prefix_take|by eexists]. }
  assert (Hl' : forall j, inc_of (flat (a ++ v :: b)) (take j u) = None).
  { intros j. rewrite around_inc, Hl. assert (nlt (take j u) (lq_name v)) as Hj.
    { destruct (prefix_nlt (take j u) u) as [->|?]; [apply prefix_take|done|by trans u]. }
    rewrite Hin by done. cbn. apply right_none. by right. }
  unfold lookup_in, static_match. rewrite !(longest_none _ u) by auto.
  rewrite !around_ex, !around_inc, !Hin by done. cbn [andb]. rewrite <- Ev.
  destruct (left_none (lq_name v) ltac:(by left)) as [-> ->].
  destruct (right_none (lq_name v) ltac:(by left)) as [-> ->].
  destruct (right_none u ltac:(by right)) as [-> ->]. rewrite bool_decide_true by done. cbn [andb].
  destruct (ex_of (flat a) u) as [c|]; [by repeat case_match|].
  destruct (inc_of (flat a) u) as [c|]; [by repeat case_match|].
  unfold lq_clcf. destruct (exact v) as [x|], (inclusive v) as [y|]; cbn; repeat case_match; congruence.
Qed.

(** The element is an inclusive location above [u]. *)
Lemma lookup_down rv r c : inclusive v = Some c -> lq_name v `prefix_of` u -> nlt (lq_name v) u ->
  lookup_in (flat (a ++ v :: b)) u rv r = lookup_in (flat (list_ v)) u NGX_AGAIN c.
Proof.
  intros Hc Hp Hlt.
  assert (Hsame : forall w, lq_name v `prefix_of` w -> nlt (lq_name v) w ->
    ex_of (flat (a ++ v :: b)) w = ex_of (flat (list_ v)) w /\ inc_of (flat (a ++ v :: b)) w = inc_of (flat (list_ v)) w).
  { intros w Hw Hvw. rewrite around_ex, around_inc. destruct (left_none w ltac:(by right)) as [-> ->].
    rewrite bool_decide_false by (intros E; rewrite E in Hvw; by apply nlt_irrefl in Hvw). cbn [andb].
    assert (Hb : forall q, q ∈ flat b -> lq_name q <> w).
    { intros q Hq E. apply (right_not_prefix q Hq); [by rewrite Hc|by rewrite E]. }
    rewrite ex_of_app, inc_of_app, (ex_of_none (flat b)), (inc_of_none (flat b)); [by repeat case_match| |done].
    intros q Hq E. by destruct (Hb q Hq). }
  assert (Hus : lq_name v `prefix_of` u ++ [cSLASH]) by (etrans; [done|by eexists]).
  assert (Hus' : nlt (lq_name v) (u ++ [cSLASH])) by (trans u; [done|by apply nlt_prefix]).
  unfold lookup_in, static_match.
  destruct (Hsame u Hp Hlt) as [-> ->]. destruct (Hsame _ Hus Hus') as [-> ->].
  destruct (ex_of (flat (list_ v)) u); [done|]. destruct (inc_of (flat (list_ v)) u); [done|]. cbn zeta.
  case_match; [done|].
  assert (Hlen : (length (lq_name v) < length u)%nat).
  { destruct Hp as [s ->]. rewrite length_app. apply nlt_prefix in Hlt. destruct s; [done|]. cbn; lia. }
  assert (Htake : take (length (lq_name v)) u = lq_name v) by (destruct Hp as [s ->]; apply take_app_length).
  rewrite (longest_from _ (inc_of (flat (list_ v))) u (length (lq_name v)) c);
    [by destruct (longest (inc_of (flat (list_ v))) u (length u))|done|..].
  - rewrite Htake, around_inc. destruct (left_none (lq_name v) ltac:(by left)) as [_ ->].
    by rewrite bool_decide_true, Hc.
  - intros j Hj. assert (Hv : lq_name v `prefix_of` take j u).
    { exists (drop (length (lq_name v)) (take j u)). rewrite <- Htake at 1.
      rewrite <- (take_drop (length (lq_name v)) (take j u)) at 1. rewrite take_take. by rewrite Nat.min_l by lia. }
    apply Hsame; [done|]. destruct (prefix_nlt _ _ Hv) as [E|?]; [|done]. exfalso.
    apply (f_equal length) in E. rewrite length_take in E. lia.
  - intros j Hj. apply inc_of_none. intros q Hq E. exfalso.
    pose proof (below_prefix q Hq) as [s Es]. pose proof (right_gt q ltac:(apply elem_of_app; by left)) as Hq'.
    rewrite Es in Hq'. apply nlt_prefix in Hq'. rewrite E in Es. apply (f_equal length) in Es.
    rewrite length_take, length_app in Es. destruct s; [done|]. cbn in Es. lia.
Qed.

(** The element has the name [u]. *)
Lemma lookup_here rv r : lq_name v = u ->
  Some (lookup_in (flat (a ++ v :: b)) u rv r) =
  match exact v with Some c => Some (NGX_OK, c) | None => c ← inclusive v; Some (NGX_AGAIN, c) end.
Proof.
  intros E. unfold lookup_in, static_match. rewrite around_ex, around_inc.
  destruct (left_none u ltac:(by left)) as [-> ->]. destruct (right_none u ltac:(by left)) as [-> ->].
  rewrite bool_decide_true by done. cbn [andb].
  pose proof good as [_ _ He]. assert (Hv : entry_ok v).
  { apply He. rewrite flat_split. apply elem_of_app. right. left. }
  destruct (entry_some v Hv) as [H|H]; destruct (exact v) as [x|], (inclusive v) as [y|]; done.
Qed.
End Around.

(** ** The tree *)

Notation node := (ngx_http_location_tree_node_t conf).

(** [t] finds what there is in [l], below the prefix [p]. *)
Definition finds (p : list Z) (t : node) (l : list lq) : Prop :=
  forall s rv r, text (p ++ s) -> static_loop t s rv r = Some (lookup_in (flat l) (p ++ s) rv r).

Section Node.
Context (p : list Z) (a : list lq) (v : lq) (b : list lq) (w : list Z) (lt rt tr : node).
Context (Hg : good_forest p (a ++ v :: b)) (Ev : lq_name v = p ++ w).
Context (Hlt : finds p lt a) (Hrt : finds p rt b) (Htr : finds (lq_name v) tr (list_ v)).

Definition around_node : node :=
  Node lt rt tr (exact v) (inclusive v) (clcf_auto_redirect (exact v) || clcf_auto_redirect (inclusive v))
    (Z.of_nat (length w)) w.

Lemma middle_ok : entry_ok v.
Proof. destruct Hg as [_ _ He]. apply He. rewrite flat_split. apply elem_of_app. right. left. Qed.

(** The comparison finds no difference. *)
Lemma filename_cmp_prefix s s' : text s -> text s' -> s `prefix_of` s' \/ s' `prefix_of` s ->
  ngx_filename_cmp s s' (Nat.min (length s) (length s')) = Some 0.
Proof.
  intros Hs Hs' Hp. destruct (filename_cmp_min s s' Hs Hs') as (rc & E & [[_ H]|[[_ H]|[-> _]]]); [..|done]; exfalso.
  - destruct Hp as [[y ->]|[y ->]].
    + rewrite <- (app_nil_r s) in H at 1. by apply ndiv_common in H.
    + rewrite <- (app_nil_r s') in H. rewrite <- app_assoc in H. apply ndiv_common in H. by destruct y.
  - destruct Hp as [[y ->]|[y ->]].
    + rewrite <- (app_nil_r s) in H. rewrite <- app_assoc in H. apply ndiv_common in H. by destruct y.
    + rewrite <- (app_nil_r s') in H at 1. by apply ndiv_common in H.
Qed.

(** The URI is longer than the name, and begins with it. *)
Lemma node_longer x y rv r : text (p ++ w ++ x :: y) ->
  static_loop around_node (w ++ x :: y) rv r = Some (lookup_in (flat (a ++ v :: b)) (p ++ w ++ x :: y) rv r).
Proof.
  intros Ht. cbn [around_node static_loop]. rewrite Nat2Z.id.
  rewrite filename_cmp_prefix by (try (right; by eexists); unfold text in *; rewrite !Forall_app in *; tauto).
  cbn [mbind option_bind Z.eqb negb]. rewrite length_app. cbn [length]. rewrite (proj2 (Z.ltb_lt _ _)) by lia.
  assert (Hn : nlt (lq_name v) (p ++ w ++ x :: y)) by (rewrite Ev, app_assoc; by apply nlt_prefix).
  assert (Hpv : lq_name v `prefix_of` p ++ w ++ x :: y) by (rewrite Ev; exists (x :: y); by rewrite app_assoc).
  destruct (inclusive v) as [c|] eqn:Ei.
  - rewrite Nat.min_r, drop_app_length by lia. rewrite (Htr (x :: y)) by (by rewrite Ev, <- app_assoc).
    f_equal. rewrite (lookup_down p a v b _ Hg Ht rv r c Ei Hpv Hn). by rewrite Ev, <- app_assoc.
  - rewrite (Hrt (w ++ x :: y)) by done. f_equal. symmetry. apply (lookup_right p); [done|done|by right].
Qed.

(** The URI is shorter than the name, which begins with it. *)
Lemma node_shorter s x y rv r : w = s ++ x :: y -> text (p ++ s) ->
  static_loop around_node s rv r = Some (lookup_in (flat (a ++ v :: b)) (p ++ s) rv r).
Proof.
  intros Ew Ht. assert (Htv := entry_text v middle_ok). rewrite Ev, Ew in Htv.
  cbn [around_node static_loop]. rewrite Nat2Z.id.
  rewrite filename_cmp_prefix by (subst; try (left; by eexists); unfold text in *; rewrite !Forall_app in *; tauto).
  cbn [mbind option_bind Z.eqb negb]. assert (El' : length w = (length s + S (length y))%nat) by (rewrite Ew, length_app; done). rewrite El'.
  rewrite (proj2 (Z.ltb_ge _ _)), (proj2 (Z.eqb_neq (Z.of_nat (length s)) _)) by lia.
  assert (Hn : nlt (p ++ s) (lq_name v)) by (rewrite Ev, Ew, app_assoc; by apply nlt_prefix).
  destruct (decide (lq_name v = (p ++ s) ++ [cSLASH])) as [Es|Es].
  - rewrite (lookup_slash p a v b (p ++ s) Hg rv r Es).
    rewrite Ev, Ew, <- app_assoc in Es. apply app_inv_head, app_inv_head in Es as [= -> ->].
    rewrite (proj2 (Z.eqb_eq _ _)) by (cbn [length]; lia). cbn [andb].
    destruct (_ || _) eqn:Ea; [|by rewrite (Hlt s)]. fold (lq_clcf v).
    destruct (lq_clcf v) as [c|] eqn:Ec'; cbn [mbind option_bind]; [by rewrite (Hlt s)|].
    unfold lq_clcf in Ec'. destruct (exact v), (inclusive v); done.
  - rewrite (lookup_left p a v b (p ++ s) Hg rv r Hn Es).
    destruct ((Z.of_nat (length s) + 1 =? _) && _) eqn:Ea; [|by rewrite (Hlt s)].
    apply andb_true_iff in Ea as [El Ea]. apply Z.eqb_eq in El. destruct y; [|cbn [length] in El; lia].
    destruct (entry_slash v middle_ok Ea) as [z Ez].
    exfalso. apply Es. rewrite Ev, Ew, app_assoc in *. by apply app_inj_tail in Ez as [_ ->].
Qed.

Lemma node_finds : finds p around_node (a ++ v :: b).
Proof.
  intros s rv r Ht. assert (Htv := entry_text v middle_ok).
  destruct (filename_cmp_min s w) as (rc & Ec & H).
  { unfold text in Ht. rewrite Forall_app in Ht. by destruct Ht. }
  { unfold text in Htv. rewrite Ev, Forall_app in Htv. by destruct Htv. }
  destruct H as [[Hrc Hd]|[[Hrc Hd]|[-> Hp]]].
  - cbn [around_node static_loop]. rewrite Nat2Z.id, Ec. cbn [mbind option_bind].
    rewrite (proj2 (Z.eqb_neq rc 0)), (proj2 (Z.ltb_lt rc 0)) by lia. cbn [negb]. rewrite (Hlt s) by done.
    f_equal. symmetry. apply (lookup_left p); [done|..]; rewrite Ev.
    + apply nlt_common. by apply ndiv_nlt.
    + rewrite <- app_assoc. intros E%app_inv_head. rewrite E in Hd. rewrite <- (app_nil_r s) in Hd at 1. by apply ndiv_common in Hd.
  - cbn [around_node static_loop]. rewrite Nat2Z.id, Ec. cbn [mbind option_bind].
    rewrite (proj2 (Z.eqb_neq rc 0)), (proj2 (Z.ltb_ge rc 0)) by lia. cbn [negb]. rewrite (Hrt s) by done.
    f_equal. symmetry. apply (lookup_right p); [done|done|]. left. rewrite Ev. by apply ndiv_common.
  - destruct Hp as [[[|x y] E]|[[|x y] E]]; [|by apply (node_shorter s x y)| |subst s; by apply node_longer].
    all: rewrite app_nil_r in E; assert (s = w) as -> by done; cbn [around_node static_loop]; rewrite Nat2Z.id, Ec; cbn [mbind option_bind Z.eqb negb].
    all: rewrite Z.ltb_irrefl, Z.eqb_refl; symmetry; by apply (lookup_here p).
Qed.
End Node.

Lemma null_finds p : finds p NULL [].
Proof.
  intros s rv r _. cbn. unfold lookup_in, static_match. cbn. by rewrite longest_none.
Qed.

Lemma queue_size_split (a : list lq) (v : lq) (b : list lq) :
  queue_size (a ++ v :: b) = (queue_size a + S (queue_size (list_ v)) + queue_size b)%nat.
Proof.
  unfold queue_size. induction a as [|x a IH]; [destruct v; cbn; lia|].
  cbn [app fmap list_fmap sum_list sum_list_with] in *. unfold fmap in *. lia.
Qed.

(** The tree of a queue that may be empty. *)
Lemma some_tree (made : option node) p l :
  (l <> [] -> exists t, made = Some t /\ finds p t l) ->
  exists t, (match l with [] => Some NULL | _ :: _ => made end) = Some t /\ finds p t l.
Proof. intros H. destruct l as [|x l]; [exists NULL; split; [done|apply null_finds]|by apply H]. Qed.

Lemma create_tree_finds fuel : forall p l, (queue_size l < fuel)%nat -> good_forest p l -> l <> [] ->
  exists t, create_locations_tree fuel l (length p) = Some t /\ finds p t l.
Proof.
  induction fuel as [|fuel IH]; intros p l Hsize Hg Hne; [lia|]. cbn [create_locations_tree].
  assert (Hlen : (0 < length l)%nat) by (destruct l; [done|cbn; lia]).
  assert (Hi : (length l / 2 < length l)%nat) by (apply Nat.div_lt; lia).
  destruct (lookup_lt_is_Some_2 l _ Hi) as [v Hv]. rewrite Hv. cbn [mbind option_bind].
  set (i := (length l / 2)%nat) in *. set (a := take i l). set (b := drop (S i) l).
  assert (El : l = a ++ v :: b) by (symmetry; by apply take_drop_middle).
  assert (Hb : a = [] -> b = []).
  { intros Ea. apply (f_equal length) in Ea. unfold a in Ea. rewrite length_take in Ea. cbn [length] in Ea.
    unfold b. apply drop_ge. pose proof (Nat.div_mod_eq (length l) 2) as E. fold i in E.
    pose proof (Nat.mod_upper_bound (length l) 2 ltac:(lia)). lia. }
  clearbody a b. rewrite El, queue_size_split in *. clear Hv.
  destruct (good_forest_app p a (v :: b) Hg) as [Ga Gb]. pose proof (good_forest_app p [v] b Gb) as [_ Gb'].
  assert (Gv : good_forest (lq_name v) (list_ v)).
  { destruct Gb as [Hf Hs He]. inversion Hf as [|? ? ? H1 H2 H3 H4 H5]; subst. rewrite flat_cons in *. split; [done|..].
    - apply StronglySorted_inv in Hs as [Hs _]. by apply StronglySorted_split in Hs as [? _].
    - intros q Hq. apply He. right. apply elem_of_app. by left. }
  assert (Hp : p `prefix_of` lq_name v) by (apply (forest_names p (v :: b)); [by destruct Gb|left]).
  destruct Hp as [w Ew].
  destruct (some_tree (create_locations_tree fuel a (length p)) p a) as (lt & Elt & Flt); [intros; apply IH; [lia|done..]|].
  destruct (some_tree (create_locations_tree fuel b (length p)) p b) as (rt & Ert & Frt); [intros; apply IH; [lia|done..]|].
  destruct (some_tree (create_locations_tree fuel (list_ v) (length (lq_name v))) (lq_name v) (list_ v)) as (tr & Etr & Ftr);
    [intros; apply IH; [lia|done..]|].
  rewrite Elt. cbn [mbind option_bind].
  assert (Ert' : match a, b with [], _ | _, [] => Some NULL | _, _ => create_locations_tree fuel b (length p) end = Some rt).
  { destruct a; [|by destruct b]. rewrite (Hb eq_refl) in *. done. }
  assert (Eln : length (lq_name v) = (length p + length w)%nat) by (by rewrite Ew, length_app).
  assert (length (lq_name v) <= 255)%nat by (apply entry_len, (middle_ok p a v b Hg)).
  replace (length p + (length (lq_name v) - length p))%nat with (length (lq_name v)) by lia.
  rewrite Ert', Etr. cbn [mbind option_bind]. eexists. split; [reflexivity|].
  rewrite Eln, Nat.add_comm, Nat.add_sub, Ew, drop_app_length, firstn_all, uint_small by lia.
  by apply node_finds.
Qed.
End Forest.
