(* ===== verification/HttpLocationLevel.v ===== *)
(** * Locations: one level

    What sorting, joining and nesting make of the locations of one level: the queue is
    in four parts, a duplicate is found whenever there is one, and the rest is a forest
    with the locations it was made of. *)

From S2P Require Import Prelude NgxString NgxSort HttpLocation HttpLocationTree.
From Stdlib Require Import Sorted.
From stdpp Require Import lexico.

(** ** Sorting *)

(** Sorting commutes with a map. *)
Lemma sort_inner_fmap {A B} (f : A -> B) (cmp : B -> B -> Z) p base p2 :
  sort_inner cmp (f p) (f <$> base) p2 = f <$> sort_inner (fun x y => cmp (f x) (f y)) p base p2.
Proof.
  revert base. induction p2 as [|q IH]; intros base; cbn [sort_inner]; [by rewrite list_fmap_insert|].
  rewrite list_lookup_fmap. destruct (base !! q) as [y|]; cbn; [|done].
  destruct (0 <? cmp (f y) (f p)); by rewrite <- ?IH, ?list_fmap_insert.
Qed.

Lemma sort_outer_fmap {A B} (f : A -> B) (cmp : B -> B -> Z) base p1 k :
  sort_outer cmp (f <$> base) p1 k = f <$> sort_outer (fun x y => cmp (f x) (f y)) base p1 k.
Proof.
  revert base p1. induction k as [|k IH]; intros base p1; cbn [sort_outer]; [done|].
  rewrite list_lookup_fmap. destruct (base !! p1) as [p|]; cbn; [|done]. by rewrite sort_inner_fmap, IH.
Qed.

Lemma ngx_sort_fmap {A B} (f : A -> B) (cmp : B -> B -> Z) l :
  ngx_sort cmp true (f <$> l) = f <$> ngx_sort (fun x y => cmp (f x) (f y)) true l.
Proof. unfold ngx_sort. rewrite length_fmap. apply sort_outer_fmap. Qed.

Section Level.
Context {R : Type}.
Notation conf := (ngx_http_core_loc_conf_t R).
Notation lq := (ngx_http_location_queue_t conf).

(** ** The order of locations *)

(** Static locations first, then regular expressions, named and nameless ones. *)
Definition rank (c : conf) : nat :=
  if noname c then 3 else if named c then 2 else if is_some (regex c) then 1 else 0.

Definition is_static (c : conf) : bool := (rank c =? 0)%nat.

(** The names have no zero bytes. *)
Definition named_text := { c : conf | text (name c) }.

Lemma new_lq_clcf (c : conf) : lq_clcf (new_lq c) = Some c.
Proof. unfold new_lq, lq_clcf. by destruct (_ || _). Qed.

Lemma strcmp_text u w : text u -> text w ->
  exists rc, ngx_strcmp (data u) (data w) = Some rc /\ (rc < 0 /\ lexico u w \/ 0 < rc /\ lexico w u \/ rc = 0 /\ u = w).
Proof.
  unfold ngx_strcmp. intros Hu Hw.
  assert (H : forall n, (length u < n)%nat -> (length w < n)%nat ->
    exists rc, ngx_strncmp (data u) (data w) n = Some rc /\ (rc < 0 /\ lexico u w \/ 0 < rc /\ lexico w u \/ rc = 0 /\ u = w)).
  2: { apply H; unfold data; rewrite !length_app; cbn; lia. }
  unfold data. revert w Hw. induction Hu as [|x u Hx Hu IH]; intros [|y w] Hw [|n] H1 H2; cbn [length] in *; try lia;
    try (apply Forall_cons in Hw as [Hy Hw]); cbn [app ngx_strncmp].
  - exists 0. split; [done|]. by right; right.
  - rewrite (proj2 (Z.eqb_neq 0 y)) by lia. eexists. split; [done|]. left. split; [lia|done].
  - rewrite (proj2 (Z.eqb_neq x 0)) by lia. eexists. split; [done|]. right; left. split; [lia|done].
  - destruct (Z.eqb_spec x y) as [->|Hxy].
    + rewrite (proj2 (Z.eqb_neq y 0)) by lia. destruct (IH w Hw n ltac:(lia) ltac:(lia)) as (rc & E & H).
      exists rc. split; [done|]. destruct H as [[??]|[[??]|[? ->]]]; [left|right; left|right; right]; split; try done; right; done.
    + eexists. split; [done|]. destruct (Z.lt_total x y) as [?|[?|?]]; [left|done|right; left]; (split; [lia|]); left; done.
Qed.

Lemma cmp_confs_total (a b : conf) : text (name a) -> text (name b) -> is_Some (cmp_confs a b).
Proof.
  intros Ha Hb. unfold cmp_confs. destruct (strcmp_text (name a) (name b) Ha Hb) as (rc' & -> & _).
  destruct (filename_cmp_data (name a) (name b) Ha Hb) as (rc & -> & _). repeat case_match; try done. cbn. by case_match.
Qed.

(** The order of static locations: an exact one is before the inclusive one of its name. *)
Definition static_le (a b : conf) : Prop :=
  nlt (name a) (name b) \/ name a = name b /\ (exact_match b = true -> exact_match a = true).

Definition conf_le (a b : conf) : Prop :=
  (rank a < rank b)%nat \/
  rank a = rank b /\ match rank a with
                     | O => static_le a b
                     | 2%nat => lexico (name a) (name b) \/ name a = name b
                     | _ => True
                     end.

Lemma cmp_locations_le a b : text (name a) -> text (name b) ->
  (ngx_http_cmp_locations (new_lq a) (new_lq b) <= 0 <-> conf_le a b).
Proof.
  intros Ha Hb. unfold ngx_http_cmp_locations. rewrite !new_lq_clcf. unfold cmp_confs, conf_le, rank, static_le.
  destruct (filename_cmp_data (name a) (name b) Ha Hb) as (rc & -> & H).
  destruct (strcmp_text (name a) (name b) Ha Hb) as (rc' & -> & H').
  assert (Hs : rc' <= 0 <-> lexico (name a) (name b) \/ name a = name b).
  { destruct H' as [[??]|[[? Hl]|[-> E]]]; [split; [auto|lia]| |split; [auto|lia]].
    split; [lia|]. intros [Hl'|E]; exfalso; [|rewrite E in Hl]; apply (irreflexivity lexico (name b)); [by trans (name a)|done]. }
  assert (Hn : default 0 (if (rc =? 0) && negb (exact_match a) && exact_match b then Some 1 else Some rc) <= 0 <->
               nlt (name a) (name b) \/ name a = name b /\ (exact_match b = true -> exact_match a = true)).
  { destruct H as [[??]|[[? Hl]|[-> E]]].
    - rewrite (proj2 (Z.eqb_neq rc 0)) by lia. cbn. split; [auto|lia].
    - rewrite (proj2 (Z.eqb_neq rc 0)) by lia. cbn. split; [lia|].
      intros [Hl'|[E _]]; exfalso; [|rewrite E in Hl]; apply (nlt_irrefl (name b)); [by trans (name a)|done].
    - rewrite E in *. cbn. pose proof (nlt_irrefl (name b)). destruct (exact_match a), (exact_match b); cbn;
        (split; [try lia; by right|intros [?|[_ ?]]; [done|try lia; naive_solver]]). }
  destruct (noname a), (noname b), (named a), (named b), (is_some (regex a)), (is_some (regex b));
    cbn [andb orb negb default from_option mbind option_bind]; unfold from_option, id in *; try (split; intros; lia);
    rewrite ?Hs, ?Hn; (split; [by right|intros [?|[_ ?]]; [lia|done]]).
Qed.

Lemma static_le_trans a b c : static_le a b -> static_le b c -> static_le a c.
Proof.
  intros [H1|[E1 H1]] [H2|[E2 H2]]; unfold static_le.
  - left. by trans (name b).
  - left. by rewrite <- E2.
  - left. by rewrite E1.
  - right. split; [congruence|auto].
Qed.

Lemma conf_le_trans a b c : conf_le a b -> conf_le b c -> conf_le a c.
Proof.
  unfold conf_le. intros [H1|[E1 H1]] [H2|[E2 H2]]; [left; lia..|]. right. split; [congruence|].
  rewrite E1 in *. destruct (rank b) as [|[|[|]]]; try done; [by eapply static_le_trans|].
  destruct H1 as [H1|E], H2 as [H2|E']; [left; by trans (name b)|left; by rewrite <- E'|left; by rewrite E|right; congruence].
Qed.

Lemma conf_le_total a b : text (name a) -> text (name b) -> conf_le a b \/ conf_le b a.
Proof.
  intros Ha Hb. unfold conf_le. destruct (Nat.lt_total (rank a) (rank b)) as [?|[E|?]]; [by left; left| |by right; left].
  rewrite E. destruct (rank b) as [|[|[|]]]; [|by left; right| |by left; right].
  - unfold static_le. destruct (filename_cmp_data (name a) (name b) Ha Hb) as (rc & _ & [[_ ?]|[[_ ?]|[_ ->]]]).
    + left; right. split; [done|by left].
    + right; right. split; [done|by left].
    + destruct (exact_match a) eqn:Ea; [left; right; split; [done|]; by right|].
      right; right. split; [done|]. by right.
  - destruct (strcmp_text (name a) (name b) Ha Hb) as (rc & _ & [[_ ?]|[[_ ?]|[_ ?]]]); [left; right|right; right|left; right]; auto.
Qed.

(** A location queue after sorting. *)
Lemma sort_locations (cs : list conf) : Forall (fun c => text (name c)) cs ->
  exists cs', ngx_sort ngx_http_cmp_locations true (new_lq <$> cs) = new_lq <$> cs' /\ cs' ≡ₚ cs /\
    StronglySorted conf_le cs' /\
    forall k, k = 1%nat \/ k = 3%nat -> List.filter (fun c => rank c =? k)%nat cs' = List.filter (fun c => rank c =? k)%nat cs.
Proof.
  intros Hcs. assert (exists ts : list named_text, cs = proj1_sig <$> ts) as [ts ->].
  { induction Hcs as [|c cs Hc _ [ts ->]]; [by exists []|]. by exists (exist _ c Hc :: ts). }
  set (f := fun c : named_text => new_lq (`c)).
  assert (Ef : new_lq <$> (proj1_sig <$> ts) = f <$> ts) by (by rewrite <- list_fmap_compose). rewrite Ef, ngx_sort_fmap.
  assert (Hle : forall x y : named_text, ngx_http_cmp_locations (f x) (f y) <= 0 <-> conf_le (`x) (`y)).
  { intros [x Hx] [y Hy]. by apply cmp_locations_le. }
  destruct (sort_sorted_stable (fun x y => ngx_http_cmp_locations (f x) (f y))) with (base := ts) as (Hp & Hs & Hst).
  { intros x y Hxy. rewrite Hle. destruct (conf_le_total (`x) (`y)) as [?|H]; [apply (proj2_sig x)|apply (proj2_sig y)|done|].
    apply Hle in H. lia. }
  { intros x y z. rewrite !Hle. apply conf_le_trans. }
  exists (proj1_sig <$> ngx_sort (fun x y => ngx_http_cmp_locations (f x) (f y)) true ts). split_and!.
  - by rewrite <- list_fmap_compose.
  - by rewrite Hp.
  - clear -Hs Hle. induction Hs as [|x l _ IH Hx]; [constructor|]. cbn. constructor; [done|].
    apply Forall_fmap. eapply Forall_impl; [exact Hx|]. intros y. apply Hle.
  - intros k Hk. assert (Hm : forall l : list named_text, List.filter (fun c => rank c =? k)%nat (proj1_sig <$> l) =
      proj1_sig <$> List.filter (fun c : named_text => rank (`c) =? k)%nat l).
    { induction l as [|x l IH]; [done|]. cbn. rewrite IH. by destruct (rank (`x) =? k)%nat. }
    rewrite !Hm. f_equal. apply Hst. intros x y Hx Hy. rewrite Hle. apply Nat.eqb_eq in Hx, Hy.
    right. split; [congruence|]. rewrite Hx. by destruct Hk as [->| ->].
Qed.

(** A list sorted by rank is the four ranks one after the other. *)
Lemma rank_split (cs : list conf) : StronglySorted conf_le cs ->
  let part k := List.filter (fun c => rank c =? k)%nat cs in
  cs = part 0%nat ++ part 1%nat ++ part 2%nat ++ part 3%nat.
Proof.
  induction 1 as [|c cs Hs IH Hc]; [done|]. cbv beta zeta in *.
  assert (Hr : forall d, d ∈ cs -> (rank c <= rank d)%nat).
  { intros d Hd. rewrite Forall_forall in Hc. destruct (Hc d Hd) as [?|[? _]]; lia. }
  assert (Hnone : forall k, (k < rank c)%nat -> List.filter (fun c => rank c =? k)%nat cs = []).
  { intros k Hk. apply filter_none. apply Forall_forall. intros d Hd. apply Nat.eqb_neq. specialize (Hr d Hd). lia. }
  assert (H3 : (rank c <= 3)%nat) by (unfold rank; repeat case_match; lia).
  cbn [List.filter].
  destruct (rank c) as [|[|[|[|]]]]; cbn [Nat.eqb]; [..|lia]; rewrite ?Hnone by lia; cbn [app];
    try rewrite (Hnone 0%nat) in IH by lia; try rewrite (Hnone 1%nat) in IH by lia; try rewrite (Hnone 2%nat) in IH by lia;
    f_equal; exact IH.
Qed.

(** ** Joining *)

(** Two elements of one name that cannot be joined. *)
Definition dupfree (q x : lq) : Prop :=
  lq_name q = lq_name x -> (exact q = None \/ exact x = None) /\ (inclusive q = None \/ inclusive x = None).

(** The order of the queue before elements are joined. *)
Definition queue_le (q x : lq) : Prop :=
  nlt (lq_name q) (lq_name x) \/ lq_name q = lq_name x /\ (exact x <> None -> exact q <> None).

(** An element before it is joined with another. *)
Definition single (q : lq) : Prop :=
  (exact q <> None /\ inclusive q = None \/ exact q = None /\ inclusive q <> None) /\ list_ q = [].

Lemma same_name_text (q x : lq) : text (lq_name q) -> text (lq_name x) ->
  same_name q x = Some (bool_decide (lq_name q = lq_name x)).
Proof.
  intros Hq Hx. unfold same_name. destruct (Nat.eqb_spec (length (lq_name q)) (length (lq_name x))) as [El|El].
  - destruct (filename_cmp_min (lq_name q) (lq_name x) Hq Hx) as (rc & E & H). rewrite El, Nat.min_id in E. rewrite E. cbn.
    f_equal. destruct H as [[? H]|[[? H]|[-> H]]].
    1,2: rewrite (proj2 (Z.eqb_neq rc 0)) by lia; rewrite bool_decide_false; [done|]; intros E';
      rewrite E' in H; by apply ndiv_nlt, nlt_irrefl in H.
    rewrite bool_decide_true; [done|]. destruct H as [[s E']|[s E']]; rewrite E', length_app in El; destruct s;
      cbn in El; try lia; by rewrite app_nil_r in E'.
  - rewrite bool_decide_false; [done|]. intros E. by rewrite E in El.
Qed.

(** The elements of [l'] are those of [l], as a lookup sees them. *)
Definition same_entries (l l' : list lq) : Prop := forall w, ex_of l w = ex_of l' w /\ inc_of l w = inc_of l' w.

Lemma same_entries_cons q l l' : same_entries l l' -> same_entries (q :: l) (q :: l').
Proof. intros H w. destruct (H w) as [E1 E2]. cbn. by rewrite E1, E2. Qed.

Lemma join_merge (q x : lq) (l : list lq) : exact q <> None -> inclusive q = None -> exact x = None -> inclusive x <> None ->
  lq_name q = lq_name x -> same_entries (q :: x :: l) (LQ (exact q) (inclusive x) (lq_name q) (list_ q) :: l).
Proof.
  intros H1 H2 H3 H4 En w. cbn. rewrite H2, H3, <- En. destruct (exact q), (inclusive x); cbn; try done.
  by case_bool_decide.
Qed.

Lemma queue_le_name (q x y : lq) : lq_name q <> lq_name x -> queue_le q x -> queue_le x y -> name_lt q y.
Proof.
  intros Hne [Hqx|[? _]]; [|done]. intros [Hxy|[E _]]; unfold name_lt; [by trans (lq_name x)|by rewrite <- E].
Qed.

Lemma dupfree_merge (q x : lq) (l : list lq) : inclusive q = None -> exact x = None -> lq_name q = lq_name x ->
  StronglySorted dupfree (q :: x :: l) <-> StronglySorted dupfree (LQ (exact q) (inclusive x) (lq_name q) (list_ q) :: l).
Proof.
  intros X2 X3 En. split; intros Hd.
  - apply StronglySorted_inv in Hd as [Hd Hd1]. apply StronglySorted_inv in Hd as [Hd Hd2]. constructor; [done|].
    apply Forall_cons in Hd1 as [_ Hd1]. rewrite Forall_forall in *. intros y Hy E. cbn in E.
    split; [by apply (Hd1 y Hy)|]. apply (Hd2 y Hy). congruence.
  - apply StronglySorted_inv in Hd as [Hd Hd1]. rewrite Forall_forall in Hd1. constructor; [constructor; [done|]|constructor].
    + apply Forall_forall. intros y Hy E. split; [by left|]. apply (Hd1 y Hy). cbn. congruence.
    + intros _. split; [by right|by left].
    + apply Forall_forall. intros y Hy E. split; [apply (Hd1 y Hy); done|by left].
Qed.

Lemma dupfree_skip (q : lq) (l : list lq) : (forall y, y ∈ l -> name_lt q y) ->
  StronglySorted dupfree (q :: l) <-> StronglySorted dupfree l.
Proof.
  intros Hq. split; [by intros [? _]%StronglySorted_inv|]. intros Hd. constructor; [done|]. apply Forall_forall.
  intros y Hy E. specialize (Hq y Hy). unfold name_lt in Hq. rewrite E in Hq. by apply nlt_irrefl in Hq.
Qed.

(** A queue without duplicates becomes one with strictly increasing names; in any other
    the join fails. *)
Lemma join_loop_spec l : forall q, StronglySorted queue_le (q :: l) -> Forall (fun x => text (lq_name x)) (q :: l) ->
  Forall single l -> exact q <> None \/ inclusive q <> None -> list_ q = [] ->
  (exists l', join_loop q l = Done l' /\ StronglySorted dupfree (q :: l) /\ StronglySorted name_lt l' /\
     Forall (fun x => name_lt q x \/ lq_name x = lq_name q) l' /\
     same_entries (q :: l) l' /\ Forall (fun x => list_ x = [] /\ (exact x <> None \/ inclusive x <> None)) l') \/
  (join_loop q l = Refused /\ ~ StronglySorted dupfree (q :: l)).
Proof.
  induction l as [|x l IH]; intros q Hs Ht H1 Hq Hl.
  { left. exists [q]. split_and!; try done; [repeat constructor|repeat constructor|constructor; [by right|done]|by constructor]. }
  apply StronglySorted_inv in Hs as [Hs Hqx]. apply Forall_cons in Ht as [Tq Tx].
  apply Forall_cons in Hqx as [Hqx Hql]. pose proof (Forall_inv Tx) as Tx'. cbn beta in Tx'.
  pose proof (StronglySorted_inv Hs) as [Hsl Hxl]. apply Forall_cons in H1 as [[Sx Lx] Sl].
  cbn [join_loop]. rewrite (same_name_text q x) by done. cbn [of_option mbind conf_bind]. case_bool_decide as En.
  - destruct (_ || _) eqn:Ed.
    { right. split; [done|]. intros Hd. apply StronglySorted_inv in Hd as [_ Hd]. apply Forall_cons in Hd as [Hd _].
      destruct (Hd En) as [Hd1 Hd2]. destruct (exact q), (exact x), (inclusive q), (inclusive x); naive_solver. }
    assert (Hx : exact q <> None /\ inclusive q = None /\ exact x = None /\ inclusive x <> None).
    { destruct Hqx as [Hqx|[_ Hqx]]; [rewrite En in Hqx; by apply nlt_irrefl in Hqx|].
      destruct (exact q), (exact x), (inclusive q), (inclusive x); naive_solver. }
    destruct Hx as (X1 & X2 & X3 & X4). set (q' := LQ (exact q) (inclusive x) (lq_name q) (list_ q)).
    pose proof (dupfree_merge q x l X2 X3 En) as Hd. fold q' in Hd.
    destruct (IH q') as [(l' & E1 & E2 & E3 & E4 & E5 & E6)|[E1 E2]]; try done.
    { constructor; [done|]. rewrite Forall_forall in *. intros y Hy. exact (Hql y Hy). }
    { constructor; [done|]. by apply Forall_cons in Tx as [_ ?]. }
    { by left. }
    + left. exists l'. split_and!; try done; [by apply Hd|]. intros w. pose proof (join_merge q x l X1 X2 X3 X4 En w) as [M1 M2].
      rewrite M1, M2. apply E5.
    + right. split; [done|]. by rewrite Hd.
  - assert (Hlt : name_lt q x) by (by destruct Hqx as [?|[? _]]).
    assert (Hqy : forall y, y ∈ x :: l -> name_lt q y).
    { intros y [->|Hy]%elem_of_cons; [done|]. rewrite Forall_forall in Hxl. by apply (queue_le_name q x); [..|apply Hxl]. }
    pose proof (dupfree_skip q (x :: l) Hqy) as Hd.
    destruct (IH x) as [(l' & E1 & E2 & E3 & E4 & E5 & E6)|[E1 E2]]; try done.
    { destruct Sx as [[? _]|[_ ?]]; auto. }
    + left. exists (q :: l'). rewrite E1. cbn. split_and!; try done; [by apply Hd|..].
      * constructor; [done|]. rewrite Forall_forall in *. intros y Hy.
        destruct (E4 y Hy) as [?|E]; unfold name_lt in *; [by trans (lq_name x)|by rewrite E].
      * constructor; [by right|]. rewrite Forall_forall in *. intros y Hy. left.
        destruct (E4 y Hy) as [?|E]; unfold name_lt in *; [by trans (lq_name x)|by rewrite E].
      * by apply same_entries_cons.
      * by constructor.
    + right. rewrite E1. split; [done|]. by rewrite Hd.
Qed.

(** ** Nesting *)

(** What a lookup sees of an element. *)
Definition entry (q : lq) : list Z * option conf * option conf := (lq_name q, exact q, inclusive q).

Lemma entries_same (l l' : list lq) : entry <$> l = entry <$> l' -> same_entries l l'.
Proof.
  revert l'. induction l as [|q l IH]; intros [|q' l'] E; try done. cbn in E. injection E as E1 E2 E3 E4.
  intros w. destruct (IH l' E4 w) as [H1 H2]. cbn. by rewrite E1, E2, E3, H1, H2.
Qed.

Lemma filename_cmp_begins a b : text a -> text b -> (length a <= length b)%nat ->
  exists rc, ngx_filename_cmp a b (length a) = Some rc /\ (rc = 0 <-> a `prefix_of` b).
Proof.
  intros Ha Hb Hl. destruct (filename_cmp_min a b Ha Hb) as (rc & E & H). rewrite Nat.min_l in E by done.
  exists rc. split; [done|]. destruct H as [[? H]|[[? H]|[-> H]]].
  - split; [lia|]. intros [s ->]. rewrite <- (app_nil_r a) in H at 1. by apply ndiv_common in H.
  - split; [lia|]. intros [s ->]. rewrite <- (app_nil_r a), <- app_assoc in H. apply ndiv_common in H. by destruct s.
  - split; [|done]. intros _. destruct H as [?|[s ->]]; [done|]. rewrite length_app in Hl. destruct s; [by rewrite app_nil_r|cbn in Hl; lia].
Qed.

Lemma extensions_spec name (l : list lq) : text name -> Forall (fun x => text (lq_name x)) l ->
  exists a b, extensions name l = Some (a, b) /\ l = a ++ b /\ Forall (fun x => name `prefix_of` lq_name x) a /\
    match b with [] => True | x :: _ => ~ name `prefix_of` lq_name x end.
Proof.
  intros Hn. induction 1 as [|x l Hx Hl IH]; [by exists [], []|]. cbn [extensions].
  destruct (Nat.ltb_spec (length (lq_name x)) (length name)) as [Hlt|Hge].
  - exists [], (x :: l). split_and!; try done. intros [s E]. rewrite E, length_app in Hlt. lia.
  - destruct (filename_cmp_begins name (lq_name x) Hn Hx Hge) as (rc & E & H). rewrite E. cbn [mbind option_bind].
    destruct (Z.eqb_spec rc 0) as [->|Hrc]; cbn [negb].
    + destruct IH as (a & b & -> & -> & Ha & Hb). cbn. exists (x :: a), b. split_and!; try done. constructor; [by apply H|done].
    + exists [], (x :: l). split_and!; try done. by rewrite <- H.
Qed.

Lemma names_in (l l' : list lq) q : entry <$> l = entry <$> l' -> q ∈ l -> exists q', q' ∈ l' /\ lq_name q = lq_name q'.
Proof.
  intros E Hq. assert (H : entry q ∈ entry <$> l') by (rewrite <- E; apply list_elem_of_fmap; eauto).
  apply list_elem_of_fmap in H as (q' & Eq & Hq'). exists q'. split; [done|]. by injection Eq.
Qed.

Lemma in_flat (l : list lq) q : q ∈ l -> q ∈ flat l.
Proof. intros Hq. apply list_elem_of_In, in_flat_map. exists q. split; [by apply list_elem_of_In|]. rewrite lq_flat_eq. by left. Qed.

(** What extends the name of [q] comes right after it. *)
Lemma no_extension (q : lq) (b : list lq) : text (lq_name q) -> Forall (fun x => text (lq_name x)) b ->
  StronglySorted name_lt b -> Forall (name_lt q) b ->
  match b with [] => True | x :: _ => ~ lq_name q `prefix_of` lq_name x end ->
  forall y, y ∈ b -> ~ lq_name q `prefix_of` lq_name y.
Proof.
  intros Tq Tb Hs Hq Hx y Hy Hp. destruct b as [|x b]; [by apply elem_of_nil in Hy|]. apply Hx.
  apply Forall_cons in Tb as [Tx Tb], Hq as [Hqx _]. apply StronglySorted_inv in Hs as [_ Hs].
  apply elem_of_cons in Hy as [->|Hy]; [done|]. rewrite Forall_forall in Hs, Tb.
  apply (prefix_between _ _ (lq_name y)); [done|by apply Tb|done|by right|]. right. by apply Hs.
Qed.

(** A tree of the forest: an element with what extends it, and the trees after it. *)
Lemma forest_node p (q : lq) sub l' a b : p `prefix_of` lq_name q -> forest (lq_name q) sub -> (inclusive q = None -> sub = []) ->
  entry <$> flat sub = entry <$> a -> forest p l' -> entry <$> flat l' = entry <$> b ->
  (inclusive q <> None -> forall y, y ∈ b -> ~ lq_name q `prefix_of` lq_name y) ->
  let q' := LQ (exact q) (inclusive q) (lq_name q) sub in
  forest p (q' :: l') /\ entry <$> flat (q' :: l') = entry <$> q :: a ++ b.
Proof.
  intros Hp Hsub Hi Ea Hl Eb Hb q'. split.
  - constructor; try done. intros H y Hy Hpy. destruct (names_in (flat l') b y Eb (in_flat _ _ Hy)) as (z & Hz & E).
    apply (Hb H z Hz). by rewrite <- E.
  - rewrite flat_cons. cbn [list_ q']. rewrite !fmap_cons, !fmap_app, Ea, Eb. done.
Qed.

Lemma create_list_forest fuel : forall p (l : list lq), (length l < fuel)%nat -> StronglySorted name_lt l ->
  Forall (fun x => list_ x = [] /\ text (lq_name x) /\ p `prefix_of` lq_name x) l ->
  exists l', create_locations_list fuel l = Some l' /\ forest p l' /\ entry <$> flat l' = entry <$> l.
Proof.
  induction fuel as [|fuel IH]; intros p l Hlen Hs Hl; [lia|]. cbn [create_locations_list].
  destruct l as [|q rest]; [exists []; split_and!; [done|constructor|done]|].
  apply Forall_cons in Hl as [(Lq & Tq & Pq) Hl]. apply StronglySorted_inv in Hs as [Hs Hq]. cbn [length] in Hlen.
  assert (Eq : q = LQ (exact q) (inclusive q) (lq_name q) []) by (rewrite <- Lq; by destruct q).
  assert (Ht : Forall (fun x => text (lq_name x)) rest) by (eapply Forall_impl; [exact Hl|by intros ? (_ & ? & _)]).
  destruct rest as [|x0 rest0] eqn:Er.
  { exists [q]. split; [done|]. rewrite Eq at 1 2. apply (forest_node p q [] [] [] []); try done; try constructor.
    intros _ y Hy. by apply elem_of_nil in Hy. }
  rewrite <- Er in *. destruct (inclusive q) as [c|] eqn:Ei.
  2: { destruct (IH p rest) as (l' & -> & Hf & He); [lia|done|done|]. exists (q :: l'). split; [done|].
       rewrite Eq at 1 2. rewrite <- Ei. apply (forest_node p q [] l' [] rest); try done; constructor. }
  destruct (extensions_spec (lq_name q) rest Tq Ht) as (a & b & -> & E & Ha & Hb). cbn [mbind option_bind].
  rewrite E in *. rewrite length_app in Hlen. apply StronglySorted_split in Hs as (Sa & Sb & _).
  apply Forall_app in Hl as [La Lb], Ht as [Ta Tb], Hq as [Qa Qb].
  pose proof (no_extension q b Tq Tb Sb Qb Hb) as Hnb.
  assert (Hi : inclusive q = None -> forall sub : list lq, sub = []) by (by rewrite Ei).
  destruct a as [|x1 a].
  { destruct (IH p b) as (l' & -> & Fb & Hb'); [cbn in *; lia|done|done|]. exists (q :: l'). split; [done|].
    rewrite Eq at 1 2. rewrite <- Ei. apply (forest_node p q [] l' [] b); auto; constructor. }
  rewrite Lq. cbn [app]. destruct (IH (lq_name q) (x1 :: a)) as (sub & -> & Fsub & Hsub).
  { lia. } { done. } { rewrite Forall_forall in *. intros y Hy. destruct (La y Hy) as (? & ? & _). auto. }
  cbn [mbind option_bind app]. destruct b as [|x2 b].
  { eexists. split; [done|]. rewrite <- Ei. apply (forest_node p q sub [] (x1 :: a) []); auto; try constructor. }
  destruct (IH p (x2 :: b)) as (l' & -> & Fb & Hb'); [cbn in *; lia|done|done|]. eexists. split; [done|].
  rewrite <- Ei. apply (forest_node p q sub l' (x1 :: a) (x2 :: b)); auto.
Qed.

(** ** The tree of a level *)

(** What the tree needs of a static location. *)
Definition static_ok (c : conf) : Prop :=
  text (name c) /\ (length (name c) <= 255)%nat /\ (auto_redirect c = true -> exists s, name c = s ++ [cSLASH]).

Definition kind (c : conf) : list Z * bool := (name c, exact_match c).

(** The exact and the inclusive location with a name. *)
Definition ex_conf (cs : list conf) (w : list Z) : option conf :=
  List.find (fun c => is_static c && (exact_match c && bool_decide (name c = w))) cs.

Definition inc_conf (cs : list conf) (w : list Z) : option conf :=
  List.find (fun c => is_static c && (negb (exact_match c) && bool_decide (name c = w))) cs.

Lemma new_lq_static (c : conf) : rank c = 0%nat ->
  new_lq c = if exact_match c then LQ (Some c) None (name c) [] else LQ None (Some c) (name c) [].
Proof. unfold rank, new_lq. destruct (noname c), (named c), (is_some (regex c)), (exact_match c); done. Qed.

Lemma lookup_confs (ss : list conf) : Forall (fun c => rank c = 0%nat) ss ->
  forall w, ex_of (new_lq <$> ss) w = ex_conf ss w /\ inc_of (new_lq <$> ss) w = inc_conf ss w.
Proof.
  intros Hss w. induction Hss as [|c ss Hc _ [IH1 IH2]]; [done|]. unfold ex_conf, inc_conf in *. cbn [fmap list_fmap List.find].
  unfold is_static at 1 3. rewrite (new_lq_static c Hc), Hc. cbn [Nat.eqb andb].
  destruct (exact_match c); cbn; case_bool_decide; done.
Qed.

Lemma static_single (c : conf) : rank c = 0%nat -> single (new_lq c).
Proof. intros H. rewrite (new_lq_static c H). unfold single. destruct (exact_match c); cbn; naive_solver. Qed.

Lemma static_name (c : conf) : lq_name (new_lq c) = name c.
Proof. unfold new_lq. by case_match. Qed.

Lemma static_queue_le (a b : conf) : rank a = 0%nat -> rank b = 0%nat -> static_le a b -> queue_le (new_lq a) (new_lq b).
Proof.
  intros Ha Hb. unfold queue_le. rewrite !static_name, (new_lq_static a Ha), (new_lq_static b Hb).
  intros [?|[E H]]; [by left|right]. split; [done|]. destruct (exact_match a), (exact_match b); cbn; naive_solver.
Qed.

Lemma static_dupfree (a b : conf) : rank a = 0%nat -> rank b = 0%nat -> dupfree (new_lq a) (new_lq b) <-> kind a <> kind b.
Proof.
  intros Ha Hb. unfold dupfree, kind. rewrite !static_name, (new_lq_static a Ha), (new_lq_static b Hb).
  destruct (exact_match a), (exact_match b); cbn; (split; [intros H [= E]; specialize (H E); naive_solver|intros H E]);
    try (exfalso; apply H; by rewrite E); auto.
Qed.

Lemma sorted_fmap (P : lq -> lq -> Prop) (Q : conf -> conf -> Prop) (ss : list conf) :
  Forall (fun c => rank c = 0%nat) ss ->
  (forall a b, rank a = 0%nat -> rank b = 0%nat -> P (new_lq a) (new_lq b) <-> Q a b) ->
  StronglySorted P (new_lq <$> ss) <-> StronglySorted Q ss.
Proof.
  intros Hss HPQ. induction Hss as [|c ss Hc Hss IH]; cbn; [split; constructor|]. split.
  - intros [H1 H2]%StronglySorted_inv. constructor; [by apply IH|]. rewrite Forall_fmap in H2.
    rewrite Forall_forall in *. intros d Hd. apply HPQ; [done|by apply Hss|]. by apply H2.
  - intros [H1 H2]%StronglySorted_inv. constructor; [by apply IH|]. apply Forall_fmap.
    rewrite Forall_forall in *. intros d Hd. apply HPQ; [done|by apply Hss|]. by apply H2.
Qed.

Lemma sorted_nodup (ss : list conf) : StronglySorted (fun a b => kind a <> kind b) ss <-> NoDup (kind <$> ss).
Proof.
  induction ss as [|c ss IH]; cbn; [split; constructor|]. rewrite NoDup_cons, <- IH. split.
  - intros [H1 H2]%StronglySorted_inv. split; [|done]. intros (d & E & Hd)%list_elem_of_fmap.
    rewrite Forall_forall in H2. by apply (H2 d Hd).
  - intros [H1 H2]. constructor; [done|]. apply Forall_forall. intros d Hd E. apply H1. apply list_elem_of_fmap. eauto.
Qed.

Lemma ex_of_in (S : list lq) w c : ex_of S w = Some c -> exists q, q ∈ S /\ lq_name q = w /\ exact q = Some c.
Proof.
  induction S as [|q S IH]; cbn; [done|]. case_bool_decide as En; [destruct (exact q) as [d|] eqn:E|]; cbn.
  - intros [= ->]. exists q. split; [left|done].
  - intros H. destruct (IH H) as (x & ? & ?). exists x. split; [by right|done].
  - intros H. destruct (IH H) as (x & ? & ?). exists x. split; [by right|done].
Qed.

Lemma inc_of_in (S : list lq) w c : inc_of S w = Some c -> exists q, q ∈ S /\ lq_name q = w /\ inclusive q = Some c.
Proof.
  induction S as [|q S IH]; cbn; [done|]. case_bool_decide as En; [destruct (inclusive q) as [d|] eqn:E|]; cbn.
  - intros [= ->]. exists q. split; [left|done].
  - intros H. destruct (IH H) as (x & ? & ?). exists x. split; [by right|done].
  - intros H. destruct (IH H) as (x & ? & ?). exists x. split; [by right|done].
Qed.

Lemma of_self (S : list lq) q : StronglySorted name_lt S -> q ∈ S ->
  ex_of S (lq_name q) = exact q /\ inc_of S (lq_name q) = inclusive q.
Proof.
  induction 1 as [|x S _ IH Hx]; [intros H; by apply elem_of_nil in H|]. intros [->|Hq]%elem_of_cons; cbn.
  - rewrite bool_decide_true by done. cbn. assert (Hn : forall y, y ∈ S -> lq_name y <> lq_name x).
    { intros y Hy E. rewrite Forall_forall in Hx. specialize (Hx y Hy). unfold name_lt in Hx. rewrite E in Hx. by apply nlt_irrefl in Hx. }
    rewrite (ex_of_none S), (inc_of_none S) by (try done; intros y Hy E; by destruct (Hn y Hy)).
    by destruct (exact x), (inclusive x).
  - rewrite bool_decide_false; [by apply IH|]. intros E. rewrite Forall_forall in Hx. specialize (Hx q Hq).
    unfold name_lt in Hx. rewrite E in Hx. by apply nlt_irrefl in Hx.
Qed.

(** The elements of a joined queue are fit for the tree. *)
Lemma joined_ok (ss : list conf) (l : list lq) : Forall static_ok ss -> StronglySorted name_lt l ->
  same_entries (new_lq <$> ss) l -> Forall (fun x => list_ x = [] /\ (exact x <> None \/ inclusive x <> None)) l ->
  forall x, x ∈ l -> entry_ok x.
Proof.
  intros Hss Hs Hl Hn x Hx. rewrite Forall_forall in Hss. rewrite Forall_forall in Hn. destruct (Hn x Hx) as [_ Hsome].
  destruct (of_self l x Hs Hx) as [E1 E2]. destruct (Hl (lq_name x)) as [L1 L2]. rewrite <- L1 in E1. rewrite <- L2 in E2.
  assert (Hex : forall c, exact x = Some c -> c ∈ ss /\ lq_name x = name c).
  { intros c Ec. rewrite Ec in E1. apply ex_of_in in E1 as (q & Hq & En & Eq). apply list_elem_of_fmap in Hq as (d & -> & Hd).
    rewrite static_name in En. unfold new_lq in Eq. destruct (_ || _) in Eq; [|done]. injection Eq as ->. done. }
  assert (Hin : forall c, inclusive x = Some c -> c ∈ ss /\ lq_name x = name c).
  { intros c Ec. rewrite Ec in E2. apply inc_of_in in E2 as (q & Hq & En & Eq). apply list_elem_of_fmap in Hq as (d & -> & Hd).
    rewrite static_name in En. unfold new_lq in Eq. destruct (_ || _) in Eq; [done|]. injection Eq as ->. done. }
  assert (exists c, c ∈ ss /\ lq_name x = name c) as (c & Hc & En).
  { destruct Hsome as [H|H]; [destruct (exact x) as [c|]|destruct (inclusive x) as [c|]]; try done; exists c; auto. }
  destruct (Hss c Hc) as (Ht & Hlen & _). split; rewrite ?En; try done.
  intros Ha. apply orb_true_iff in Ha as [Ha|Ha].
  - destruct (exact x) as [d|]; [|done]. destruct (Hex d eq_refl) as [Hd E]. rewrite <- En, E. apply (Hss d Hd), Ha.
  - destruct (inclusive x) as [d|]; [|done]. destruct (Hin d eq_refl) as [Hd E]. rewrite <- En, E. apply (Hss d Hd), Ha.
Qed.

Lemma entries_sorted (a b : list lq) : entry <$> a = entry <$> b -> StronglySorted name_lt b -> StronglySorted name_lt a.
Proof.
  revert b. induction a as [|q a IH]; intros [|q' b] E Hs; try done. cbn in E. injection E as E1 E2 E3 E4.
  apply StronglySorted_inv in Hs as [Hs Hq]. constructor; [by apply (IH b)|]. rewrite Forall_forall in *. intros x Hx.
  destruct (names_in a b x E4 Hx) as (y & Hy & Ey). unfold name_lt. rewrite E1, Ey. by apply Hq.
Qed.

Lemma entries_ok (a b : list lq) : entry <$> a = entry <$> b -> (forall x, x ∈ b -> entry_ok x) -> forall x, x ∈ a -> entry_ok x.
Proof.
  intros E Hb x Hx. assert (H : entry x ∈ entry <$> b) by (rewrite <- E; apply list_elem_of_fmap; eauto).
  apply list_elem_of_fmap in H as (y & Ey & Hy). injection Ey as E1 E2 E3. destruct (Hb y Hy). split; by rewrite ?E1, ?E2, ?E3.
Qed.

Lemma single_entries (q : lq) l : single q -> ~ same_entries (q :: l) [].
Proof.
  intros [Hq _] H. destruct (H (lq_name q)) as [H1 H2]. cbn in H1, H2. rewrite bool_decide_true in H1, H2 by done.
  destruct (exact q), (inclusive q); naive_solver.
Qed.

(** The tree of the static locations of a level, if no two are the same. *)
Lemma level_tree (ss : list conf) : ss <> [] -> Forall (fun c => rank c = 0%nat) ss -> Forall static_ok ss ->
  StronglySorted static_le ss ->
  NoDup (kind <$> ss) /\
    (exists l1 l2 t, ngx_http_join_exact_locations (new_lq <$> ss) = Done l1 /\ ngx_http_create_locations_list l1 = Some l2 /\
       ngx_http_create_locations_tree l2 0 = Some t /\
       forall u rv r, text u -> static_loop t u rv r = Some (static_match (ex_conf ss) (inc_conf ss) u rv r)) \/
  ~ NoDup (kind <$> ss) /\ ngx_http_join_exact_locations (new_lq <$> ss) = Refused.
Proof.
  intros Hne H0 Hok Hs. rewrite <- sorted_nodup, <- (sorted_fmap _ _ ss H0 static_dupfree).
  assert (Hq : StronglySorted queue_le (new_lq <$> ss)).
  { clear -H0 Hs. induction Hs as [|c ss Hs IH Hc]; cbn; [constructor|]. apply Forall_cons in H0 as [Hc0 H0].
    constructor; [by apply IH|]. rewrite Forall_fmap. rewrite Forall_forall in *. intros d Hd.
    apply static_queue_le; [done|by apply H0|by apply Hc]. }
  assert (Hsingle : Forall single (new_lq <$> ss)).
  { rewrite Forall_fmap. eapply Forall_impl; [exact H0|]. apply static_single. }
  assert (Htext : Forall (fun q => text (lq_name q)) (new_lq <$> ss)).
  { rewrite Forall_fmap. eapply Forall_impl; [exact Hok|]. intros c (? & _). unfold compose. by rewrite static_name. }
  assert (Hsame := lookup_confs ss H0).
  pose proof (joined_ok ss) as Hj.
  destruct (new_lq <$> ss) as [|q l] eqn:E; [by destruct ss|]. apply Forall_cons in Hsingle as [[Hsq Lq] Hsl].
  destruct (join_loop_spec l q) as [(l1 & E1 & Hd & Hst & _ & He & Hl1)|[E1 Hd]]; try done; [naive_solver| |by right].
  left. split; [done|]. specialize (Hj l1 Hok Hst He Hl1).
  destruct (create_list_forest (S (length l1)) [] l1) as (l2 & E2 & Hf & He2); [lia|done|..].
  { rewrite Forall_forall in *. intros x Hx. split; [by apply Hl1|]. split; [by apply entry_text, Hj|apply prefix_nil]. }
  destruct (create_tree_finds (S (queue_size l2)) [] l2) as (t & E3 & Hfind); [lia|..].
  { split; [done|by eapply entries_sorted|by eapply entries_ok]. }
  { intros ->. destruct l1; [|done]. by apply (single_entries q l). }
  exists l1, l2, t. split_and!; [done..|]. intros u rv r Hu. specialize (Hfind u rv r Hu). cbn [app] in Hfind.
  rewrite Hfind. f_equal.
  assert (Hall : forall w, ex_of (flat l2) w = ex_conf ss w /\ inc_of (flat l2) w = inc_conf ss w).
  { intros w. destruct (entries_same _ _ He2 w) as [-> ->]. destruct (He w) as [<- <-]. apply Hsame. }
  apply static_match_ext; intros; apply Hall.
Qed.
End Level.
