(* ===== verification/HttpLocationSpec.v ===== *)
(** * Locations: routing

    What the configuration and the lookup together come to: the trees and arrays
    that [create_location_trees] makes of the locations of a server, however they are
    nested, are searched to the same result as the plain lists of the configuration,
    [route]. *)

From S2P Require Import Prelude NgxString NgxSort HttpLocation HttpLocationTree HttpLocationLevel.
From Stdlib Require Import Sorted.
From stdpp Require Import sets.
#[local] Open Scope Z_scope.

Section Spec.
Context {R : Type}.
Notation conf := (ngx_http_core_loc_conf_t R).
Notation lq := (ngx_http_location_queue_t conf).

(** The locations of a level, in the order of the configuration file. *)
Definition confs_of (c : conf) : list conf :=
  match locations c with Some l => omap lq_clcf l | None => [] end.

Definition of_rank (k : nat) (cs : list conf) : list conf := List.filter (fun c => rank c =? k)%nat cs.

(** The reference, on the lists of the configuration: the static location, then what is
    nested in it, then the regular expressions of the level in order, with what is nested
    in the one that matches. *)
Section Route.
Context (exec : R -> list Z -> Z) (u : list Z).

Fixpoint route_regex (into : conf -> Z * Z) (rc id : Z) (rs : list conf) : Z * Z :=
  match rs with
  | [] => (rc, id)
  | d :: rs' =>
      match regex d with
      | None => route_regex into rc id rs'
      | Some re =>
          let m := ngx_http_regex_exec exec re u in
          if m =? NGX_OK then let '(rc, id) := into d in (if rc =? NGX_ERROR then rc else NGX_OK, id)
          else if m =? NGX_DECLINED then route_regex into rc id rs'
          else (NGX_ERROR, id)
      end
  end.

Fixpoint route (n : nat) (c : conf) : Z * Z :=
  match n with
  | O => (NGX_DECLINED, loc_conf c)
  | S n' =>
      let cs := confs_of c in
      let '(rc, d) := static_match (ex_conf cs) (inc_conf cs) u NGX_DECLINED c in
      let '(rc, id, stop) :=
        if rc =? NGX_AGAIN then let '(rc, id) := route n' d in (rc, id, noregex d)
        else (rc, loc_conf d, false) in
      if (rc =? NGX_OK) || (rc =? NGX_DONE) || stop then (rc, id)
      else route_regex (route n') rc id (of_rank 1 cs)
  end.
End Route.

(** ** Configurations *)

(** At most one of the three kinds, as the directives set them. *)
Definition exclusive (c : conf) : Prop :=
  (regex c <> None -> rank c = 1%nat) /\ (named c = true -> rank c = 2%nat).

Definition level_ok (top : bool) (c : conf) : Prop :=
  text (name c) /\ exclusive c /\ (rank c = 0%nat -> static_ok c) /\ (top = false -> named c = false).

(** A configuration of at most [n] levels as the directives leave it; named locations
    are at the server level, and static ones in the server or in a static one
    ([location_in_regex_lost] is about the others). *)
Fixpoint valid (n : nat) (top : bool) (c : conf) : Prop :=
  match n with
  | O => False
  | S n' =>
      static_locations c = NULL /\ regex_locations c = None /\
      match locations c with
      | None => True
      | Some l =>
          exists cs, l = new_lq <$> cs /\ Forall (level_ok top) cs /\
            Forall (fun d => rank d <> 0%nat -> of_rank 0 (confs_of d) = []) cs /\ Forall (valid n' false) cs
      end
  end.

(** No level, at any depth, has two static locations of the same name and kind. *)
Fixpoint no_duplicates (n : nat) (c : conf) : Prop :=
  match n with
  | O => True
  | S n' =>
      let cs := confs_of c in
      NoDup (kind <$> of_rank 0 cs) /\ Forall (no_duplicates n') cs
  end.

#[export] Instance no_duplicates_dec n c : Decision (no_duplicates n c).
Proof. revert c. induction n as [|n IH]; intros c; cbn; apply _. Defined.

(** ** The loop over a sorted queue *)

(** The same location, but for what is below it. *)
Definition same_head (c d : conf) : Prop :=
  name d = name c /\ regex d = regex c /\ noname d = noname c /\ named d = named c /\ exact_match d = exact_match c /\
  noregex d = noregex c /\ auto_redirect d = auto_redirect c /\ loc_conf d = loc_conf c.

Lemma same_head_store c d : same_head c d -> lq_store (new_lq c) d = new_lq d.
Proof.
  intros (E1 & E2 & E3 & E4 & E5 & _). unfold lq_store, new_lq. rewrite E1, E2, E3, E4, E5. by destruct (_ || _).
Qed.

Lemma same_head_rank c d : same_head c d -> rank d = rank c.
Proof. intros (E1 & E2 & E3 & E4 & _). unfold rank. by rewrite E2, E3, E4. Qed.

Lemma rank_flags c : exclusive c ->
  is_some (regex c) = (rank c =? 1)%nat /\ named c = (rank c =? 2)%nat /\ noname c = (rank c =? 3)%nat.
Proof.
  unfold exclusive, rank. intros [H1 H2]. destruct (noname c), (named c), (regex c); cbn in *; try done; exfalso;
    try (by specialize (H1 ltac:(done))); by specialize (H2 eq_refl).
Qed.

Section Scan.
Context (init : conf -> conf_result conf) (g : conf -> conf).

(** The locations of one rank that [init] takes to [g]. *)
Definition taken (k : nat) (cs : list conf) : Prop :=
  Forall (fun c => rank c = k /\ exclusive c /\ init c = Done (g c) /\ same_head c (g c)) cs.

Definition at_ (i : nat) (cs : list conf) : option nat := match cs with [] => None | _ => Some i end.

Lemma scan_step i c l : exclusive c -> init c = Done (g c) -> same_head c (g c) -> rank c <> 3%nat ->
  scan_loop init i (new_lq c :: l) =
  (s ← scan_loop init (S i) l;
   Done (mkScan (new_lq (g c) :: queue s) (if (rank c =? 1)%nat then Some i else first_regex s)
           (if (rank c =? 1)%nat then S (r s) else r s) (if (rank c =? 2)%nat then Some i else first_named s)
           (if (rank c =? 2)%nat then S (n s) else n s) (stop s))).
Proof.
  intros Hx Hi Hh H3. cbn [scan_loop]. rewrite new_lq_clcf. cbn [of_option mbind conf_bind]. rewrite Hi. cbn [mbind conf_bind].
  rewrite (same_head_store c (g c) Hh). destruct Hh as (_ & E2 & E3 & E4 & _). rewrite E2, E3, E4.
  destruct (rank_flags c Hx) as (-> & -> & ->). rewrite (proj2 (Nat.eqb_neq _ 3)) by done.
  destruct (rank c) as [|[|[|]]]; done.
Qed.

(** Locations of one rank, up to the named ones, and what follows them. *)
Lemma scan_part k cs l : taken k cs -> (k < 3)%nat -> forall i,
  scan_loop init i ((new_lq <$> cs) ++ l) =
  (s ← scan_loop init (i + length cs) l;
   Done (mkScan ((new_lq <$> (g <$> cs)) ++ queue s)
           (if (k =? 1)%nat then (match cs with [] => first_regex s | _ => Some i end) else first_regex s)
           (if (k =? 1)%nat then length cs + r s else r s)%nat
           (if (k =? 2)%nat then (match cs with [] => first_named s | _ => Some i end) else first_named s)
           (if (k =? 2)%nat then length cs + n s else n s)%nat (stop s))).
Proof.
  intros Hcs Hk. induction Hcs as [|c cs (Hr & Hx & Hi & Hh) _ IH]; intros i; cbn [fmap list_fmap app length].
  - rewrite Nat.add_0_r. destruct (scan_loop init i l) as [[]| |]; cbn; repeat case_match; done.
  - rewrite (scan_step i c _ Hx Hi Hh) by lia. rewrite IH, Hr, Nat.add_succ_r. cbn [Nat.add].
    destruct (scan_loop init (S (i + length cs)) l) as [s| |]; [|done..]. cbn.
    destruct k as [|[|[|]]]; [..|lia]; cbn; destruct cs; done.
Qed.

Lemma scan_rest i os : taken 3 os -> scan_loop init i (new_lq <$> os) =
  Done (mkScan (match os with [] => [] | o :: os' => new_lq (g o) :: (new_lq <$> os') end) None 0 None 0 (at_ i os)).
Proof.
  intros H. destruct H as [|c cs (Hr & Hx & Hi & Hh) H]; [done|]. cbn [fmap list_fmap scan_loop]. rewrite new_lq_clcf. cbn.
  rewrite Hi. cbn. rewrite (same_head_store c (g c) Hh). destruct Hh as (_ & E2 & E3 & E4 & _). rewrite E2, E3, E4.
  destruct (rank_flags c Hx) as (-> & -> & ->). by rewrite Hr.
Qed.

(** The whole queue. *)
Lemma scan_queue ss rs ns os : taken 0 ss -> taken 1 rs -> taken 2 ns -> taken 3 os ->
  exists rest, scan_loop init 0 (new_lq <$> ss ++ rs ++ ns ++ os) =
  Done (mkScan ((((new_lq <$> (g <$> ss)) ++ (new_lq <$> (g <$> rs))) ++ (new_lq <$> (g <$> ns))) ++ rest)
          (at_ (length ss) rs) (length rs) (at_ (length ss + length rs) ns) (length ns)
          (at_ (length ss + length rs + length ns) os)) /\ (os = [] -> rest = []).
Proof.
  intros H0 H1 H2 H3. rewrite !fmap_app, (scan_part 0 ss), (scan_part 1 rs), (scan_part 2 ns) by (done || lia).
  rewrite (scan_rest _ os H3). cbn. exists (match os with [] => [] | o :: os' => new_lq (g o) :: (new_lq <$> os') end).
  split; [|by intros ->].
  rewrite !Nat.add_0_r, <- !app_assoc. destruct rs, ns; done.
Qed.
End Scan.

(** ** One level of [init_locations] *)

Definition clcf_list (cs : list conf) : option (list (option conf)) :=
  match cs with [] => None | _ => Some ((Some <$> cs) ++ [None]) end.

Lemma clcf_array_of (cs : list conf) : Forall (fun c => rank c <> 0%nat) cs ->
  clcf_array (length cs) (new_lq <$> cs) = Done ((Some <$> cs) ++ [None]).
Proof.
  intros H. unfold clcf_array. rewrite length_fmap, Nat.leb_refl. do 2 f_equal. rewrite <- list_fmap_compose.
  apply list_fmap_ext. intros i c Hc. rewrite Forall_forall in H. specialize (H c (list_elem_of_lookup_2 _ _ _ Hc)).
  unfold compose, new_lq. unfold rank in H. destruct (exact_match c), (is_some (regex c)), (named c), (noname c); done.
Qed.

Lemma of_rank_taken init g k (cs : list conf) :
  Forall (fun c => exclusive c /\ init c = Done (g c) /\ same_head c (g c)) cs -> taken init g k (of_rank k cs).
Proof.
  intros H. unfold taken, of_rank. rewrite Forall_forall in *. intros c Hc. apply list_elem_of_In, filter_In in Hc as [Hc Hk].
  apply list_elem_of_In in Hc. apply Nat.eqb_eq in Hk. split; [done|]. by apply H.
Qed.

Lemma taken_rank init g k cs : taken init g k cs -> Forall (fun c => rank c = k) (g <$> cs).
Proof.
  intros H. rewrite Forall_fmap. eapply Forall_impl; [exact H|]. intros c (Hr & _ & _ & Hh). unfold compose.
  by rewrite (same_head_rank c (g c) Hh).
Qed.

Definition init_nested (fuel : nat) (c : conf) : conf_result conf :=
  '(c, _) ← init_locations fuel false c; Done c.

Definition with_regex (rs : list conf) (c : conf) : conf :=
  match clcf_list rs with None => c | a => set_regex_locations a c end.

Lemma of_rank_perm k (cs cs' : list conf) : cs' ≡ₚ cs -> of_rank k cs' ≡ₚ of_rank k cs.
Proof.
  unfold of_rank. induction 1 as [|c l l' _ IH|c d l|l l' l'' _ IH1 _ IH2]; cbn; [done|case_match; [by rewrite IH|done]| |by rewrite IH1].
  do 2 case_match; try done. apply Permutation_swap.
Qed.

Lemma of_rank_sorted (cs : list conf) : StronglySorted conf_le cs -> StronglySorted static_le (of_rank 0 cs).
Proof.
  unfold of_rank. induction 1 as [|c cs _ IH Hc]; cbn; [constructor|]. destruct (Nat.eqb_spec (rank c) 0) as [E|E]; [|done].
  constructor; [done|]. rewrite Forall_forall in *. intros d Hd. apply list_elem_of_In, filter_In in Hd as [Hd Hk].
  apply list_elem_of_In in Hd. apply Nat.eqb_eq in Hk. destruct (Hc d Hd) as [?|[_ H]]; [lia|]. by rewrite E in H.
Qed.

(** The parts of the queue. *)
Lemma scan_stop i (l : list lq) (os : list conf) rest : (os = [] -> rest = []) -> i = length l ->
  match at_ i os with Some q => take q (l ++ rest) | None => l ++ rest end = l.
Proof. intros H ->. destruct os; cbn; [by rewrite H, app_nil_r|]. apply take_app_length. Qed.

Lemma split_off_part k i (l : list lq) (cs cs0 : list conf) : k <> 0%nat -> Forall (fun c => rank c = k) cs ->
  i = length l -> length cs0 = length cs ->
  split_off (length cs0) (at_ i cs0) (l ++ (new_lq <$> cs)) = Done (l, clcf_list cs).
Proof.
  intros Hk Hr -> Hlen. rewrite Hlen. destruct cs as [|c cs], cs0 as [|c0 cs0]; try done; cbn [at_ split_off].
  - cbn. by rewrite app_nil_r.
  - rewrite drop_app_length, take_app_length, clcf_array_of; [done|]. eapply Forall_impl; [exact Hr|]. by intros d ->.
Qed.

Lemma init_level fuel top c cs g :
  locations c = Some (new_lq <$> cs) -> Forall (level_ok top) cs ->
  Forall (fun d => init_nested fuel d = Done (g d) /\ same_head d (g d)) cs ->
  exists ss ns, ss ≡ₚ of_rank 0 cs /\ StronglySorted static_le ss /\
    init_locations (S fuel) top c =
      Done (set_locations (Some (new_lq <$> (g <$> ss))) (with_regex (g <$> of_rank 1 cs) c), clcf_list (g <$> ns)).
Proof.
  intros El Hok Hg. destruct (sort_locations cs) as (cs' & Es & Hp & Hs & Hst).
  { eapply Forall_impl; [exact Hok|]. by intros d (? & _). }
  assert (Ht : forall k, taken (init_nested fuel) g k (of_rank k cs')).
  { intros k. apply of_rank_taken. rewrite Hp. rewrite Forall_forall in *. intros d Hd.
    split; [by destruct (Hok d Hd) as (_ & ? & _)|by apply Hg]. }
  pose proof (rank_split cs' Hs) as Hsplit. cbv beta zeta in Hsplit. fold (of_rank 0 cs') (of_rank 1 cs') (of_rank 2 cs') (of_rank 3 cs') in Hsplit.
  destruct (scan_queue _ g _ _ _ _ (Ht 0%nat) (Ht 1%nat) (Ht 2%nat) (Ht 3%nat)) as (rest & Escan & Hrest).
  rewrite <- Hsplit, <- Es in Escan.
  assert (E1 : of_rank 1 cs' = of_rank 1 cs) by (apply Hst; by left).
  exists (of_rank 0 cs'), (of_rank 2 cs'). split; [|split].
  - by apply of_rank_perm.
  - by apply of_rank_sorted.
  - cbn [init_locations]. rewrite El. fold (init_nested fuel). rewrite Escan. cbn [mbind conf_bind queue first_regex r first_named n stop].
    rewrite E1 in *. rewrite (scan_stop _ _ (of_rank 3 cs') rest) by (done || by rewrite !length_app, !length_fmap).
    assert (Hn : is_some (at_ (length (of_rank 0 cs') + length (of_rank 1 cs)) (of_rank 2 cs')) && negb top = false).
    { destruct top; [by rewrite andb_false_r|]. destruct (of_rank 2 cs') as [|d ns] eqn:E2; [done|]. exfalso.
      assert (Hd : d ∈ of_rank 2 cs') by (rewrite E2; left). apply list_elem_of_In, filter_In in Hd as [Hd Hk].
      apply list_elem_of_In in Hd. rewrite Hp in Hd. rewrite Forall_forall in Hok. destruct (Hok d Hd) as (_ & Hx & _ & Hnm).
      destruct (rank_flags d Hx) as (_ & Hf & _). rewrite Hnm, Hk in Hf by done. done. }
    rewrite Hn. cbn [mbind conf_bind].
    rewrite (split_off_part 2) by (try done; try (by apply taken_rank with (1 := Ht 2%nat)); by rewrite ?length_app, !length_fmap).
    cbn [mbind conf_bind]. pose proof (Ht 1%nat) as H1. rewrite E1 in H1.
    rewrite (split_off_part 1) by (try done; try (by apply taken_rank with (1 := H1)); by rewrite ?length_fmap).
    cbn [mbind conf_bind]. unfold with_regex. by destruct (clcf_list (g <$> of_rank 1 cs)).
Qed.

(** ** Lookups in changed locations *)

Lemma same_head_via c d e : same_head c d -> same_head c e -> same_head d e.
Proof. unfold same_head. intros (?&?&?&?&?&?&?&?) (?&?&?&?&?&?&?&?). split_and!; congruence. Qed.

Lemma longest_rel (P : conf -> conf -> Prop) inc inc' u k :
  (forall w, option_Forall2 P (inc w) (inc' w)) -> option_Forall2 P (longest inc u k) (longest inc' u k).
Proof.
  intros H. induction k as [|k IH]; [constructor|]. cbn [longest]. destruct (H (take k u)) as [d d' Hd|]; [by constructor|done].
Qed.

(** The same search among the same locations, whatever is below them. *)
Lemma static_match_rel (P : conf -> conf -> Prop) ex inc ex' inc' u rv r r' :
  (forall w, option_Forall2 same_head (ex w) (ex' w)) ->
  (forall w, option_Forall2 (fun d d' => same_head d d' /\ P d d') (inc w) (inc' w)) ->
  same_head r r' -> rv <> NGX_AGAIN ->
  exists d', static_match ex' inc' u rv r' = ((static_match ex inc u rv r).1, d') /\
    same_head (static_match ex inc u rv r).2 d' /\
    ((static_match ex inc u rv r).1 = NGX_AGAIN -> P (static_match ex inc u rv r).2 d').
Proof.
  intros Hex Hinc Hr Hrv. unfold static_match.
  destruct (Hex u) as [d d' Hd|]; [by exists d'|]. destruct (Hinc u) as [d d' [Hd Hp]|]; [by exists d'|]. cbn zeta.
  set (u' := u ++ [cSLASH]).
  assert (Hau : forall o o', option_Forall2 same_head o o' -> clcf_auto_redirect o' = clcf_auto_redirect o).
  { intros o o' [d d' (_&_&_&_&_&_&E&_)|]; [by cbn; rewrite E|done]. }
  assert (Hin : option_Forall2 same_head (inc u') (inc' u')) by (destruct (Hinc u') as [d d' [Hd _]|]; by constructor).
  rewrite (Hau _ _ (Hex u')), (Hau _ _ Hin).
  assert (Hs : option_Forall2 same_head
    (if clcf_auto_redirect (ex u') || clcf_auto_redirect (inc u') then match ex u' with Some c => Some c | None => inc u' end else None)
    (if clcf_auto_redirect (ex u') || clcf_auto_redirect (inc u') then match ex' u' with Some c => Some c | None => inc' u' end else None)).
  { destruct (_ || _); [|constructor]. destruct (Hex u'); [by constructor|done]. }
  destruct Hs as [d d' Hd|]; [by exists d'|].
  destruct (longest_rel _ inc inc' u (length u) Hinc) as [d d' [Hd Hp]|]; [by exists d'|]. by exists r'.
Qed.

Lemma find_perm (f : conf -> bool) (l l' : list conf) : l ≡ₚ l' ->
  (forall x y, x ∈ l -> y ∈ l -> f x = true -> f y = true -> x = y) -> List.find f l = List.find f l'.
Proof.
  induction 1 as [|c l l' _ IH|c d l|l l' l'' E1 IH1 E2 IH2]; intros H; cbn; [done|..].
  - rewrite IH; [done|]. intros; apply H; by try right.
  - destruct (f c) eqn:Ec, (f d) eqn:Ed; try done. f_equal. apply H; [right; left|left|done..] || (apply H; [left|right; left|done..]).
  - rewrite IH1 by done. apply IH2. intros x y Hx Hy. apply H; by rewrite E1.
Qed.

Lemma kind_inj (ss : list conf) x y : NoDup (kind <$> ss) -> x ∈ ss -> y ∈ ss -> kind x = kind y -> x = y.
Proof.
  intros Hn [i Hi]%list_elem_of_lookup [j Hj]%list_elem_of_lookup E.
  assert (i = j) as <-; [|congruence].
  apply (NoDup_lookup (kind <$> ss) i j (kind x)); rewrite ?list_lookup_fmap, ?Hi, ?Hj; cbn; congruence.
Qed.

(** Only the static locations of a level matter. *)
Lemma find_static_only (f : conf -> bool) cs :
  List.find (fun c => is_static c && f c) (of_rank 0 cs) = List.find (fun c => is_static c && f c) cs.
Proof.
  induction cs as [|c cs IH]; [done|]. unfold of_rank, is_static in *. cbn. destruct (rank c =? 0)%nat eqn:E; cbn; [|done].
  rewrite E. cbn. by rewrite IH.
Qed.

(** A search that a kind answers, among all of a level or among its sorted static part. *)
Lemma find_level (f : conf -> bool) k ss cs : ss ≡ₚ of_rank 0 cs -> NoDup (kind <$> ss) ->
  (forall c, f c = true -> kind c = k) ->
  List.find (fun c => is_static c && f c) ss = List.find (fun c => is_static c && f c) cs.
Proof.
  intros Hp Hn Hk. rewrite <- (find_static_only f cs). apply find_perm; [done|]. intros x y Hx Hy Fx Fy.
  apply andb_true_iff in Fx as [_ Fx], Fy as [_ Fy]. apply (kind_inj ss); [done..|]. by rewrite (Hk x Fx), (Hk y Fy).
Qed.

Lemma ex_conf_level ss cs w : ss ≡ₚ of_rank 0 cs -> NoDup (kind <$> ss) -> ex_conf ss w = ex_conf cs w.
Proof.
  intros Hp Hn. apply (find_level _ (w, true)); [done..|]. intros c [E1 E2]%andb_true_iff.
  apply bool_decide_eq_true in E2. unfold kind. by rewrite E1, E2.
Qed.

Lemma inc_conf_level ss cs w : ss ≡ₚ of_rank 0 cs -> NoDup (kind <$> ss) -> inc_conf ss w = inc_conf cs w.
Proof.
  intros Hp Hn. apply (find_level _ (w, false)); [done..|]. intros c [E1 E2]%andb_true_iff.
  apply bool_decide_eq_true in E2. apply negb_true_iff in E1. unfold kind. by rewrite E1, E2.
Qed.

(** The locations found, and what has become of them. *)
Lemma find_fmap (f : conf -> bool) h (ss : list conf) : Forall (fun c => f (h c) = f c) ss ->
  option_Forall2 (fun d d' => d ∈ ss /\ d' = h d) (List.find f ss) (List.find f (h <$> ss)).
Proof.
  induction 1 as [|c ss Hc _ IH]; cbn; [constructor|]. rewrite Hc. destruct (f c).
  - constructor. split; [left|done].
  - destruct IH as [d d' [Hd E]|]; constructor. split; [by right|done].
Qed.

Lemma same_head_conf h (ss : list conf) w : Forall (fun c => same_head c (h c)) ss ->
  option_Forall2 (fun d d' => d ∈ ss /\ d' = h d) (ex_conf ss w) (ex_conf (h <$> ss) w) /\
  option_Forall2 (fun d d' => d ∈ ss /\ d' = h d) (inc_conf ss w) (inc_conf (h <$> ss) w).
Proof.
  intros H. split; apply find_fmap; (eapply Forall_impl; [exact H|]); intros c Hc; unfold is_static;
    rewrite (same_head_rank c (h c) Hc); destruct Hc as (E1 & _ & _ & _ & E5 & _); by rewrite E1, E5.
Qed.

(** ** The lookup at one level *)

(** The lookup comes to a result code and the address of a location. *)
Definition comes_to (o : option (Z * conf)) (res : Z * Z) : Prop := exists d, o = Some (res.1, d) /\ loc_conf d = res.2.

Section Find.
Context (exec : R -> list Z -> Z) (u : list Z).

Lemma regex_loop_route (find : conf -> option (Z * conf)) (into : conf -> Z * Z) g rs :
  Forall (fun d => regex d <> None /\ regex (g d) = regex d /\ comes_to (find (g d)) (into d)) rs ->
  forall rc c, comes_to (regex_loop exec find u rc c ((Some <$> (g <$> rs)) ++ [None])) (route_regex exec u into rc (loc_conf c) rs).
Proof.
  induction 1 as [|d rs (Hd & Er & Hf) _ IH]; intros rc c; cbn [fmap list_fmap app regex_loop route_regex]; [by exists c|].
  rewrite Er. destruct (regex d) as [re|]; [|done]. cbn [mbind option_bind].
  destruct (ngx_http_regex_exec exec re u =? NGX_OK).
  - destruct Hf as (e & -> & Ee). destruct (into d) as [rc' id]. cbn in *. by exists e.
  - destruct (ngx_http_regex_exec exec re u =? NGX_DECLINED); [apply IH|]. by exists c.
Qed.

Lemma find_level_route n c c' g d' :
  let cs := confs_of c in
  let sm := static_match (ex_conf cs) (inc_conf cs) u NGX_DECLINED c in
  static_loop (static_locations c') u NGX_DECLINED c' = Some (sm.1, d') -> same_head sm.2 d' ->
  (sm.1 = NGX_AGAIN -> comes_to (ngx_http_core_find_location exec n u d') (route exec u n sm.2)) ->
  regex_locations c' = clcf_list (g <$> of_rank 1 cs) ->
  Forall (fun d => regex d <> None /\ regex (g d) = regex d /\
    comes_to (ngx_http_core_find_location exec n u (g d)) (route exec u n d)) (of_rank 1 cs) ->
  comes_to (ngx_http_core_find_location exec (S n) u c') (route exec u (S n) c).
Proof.
  intros cs sm Es Hh Ha Hr Hrs. cbn [ngx_http_core_find_location route]. unfold ngx_http_core_find_static_location.
  rewrite Es. cbn [mbind option_bind]. fold cs sm. destruct sm as [rc d]. cbn [fst snd] in *.
  destruct Hh as (_ & _ & _ & _ & _ & Enr & _ & Eid).
  set (st := if rc =? NGX_AGAIN then noregex d else false).
  assert (Hres : exists rc1 c1,
    (if rc =? NGX_AGAIN then '(rc', c') ← ngx_http_core_find_location exec n u d'; Some (rc', c', noregex d')
     else Some (rc, d', false)) = Some (rc1, c1, st) /\
    (if rc =? NGX_AGAIN then let '(rc, id) := route exec u n d in (rc, id, noregex d) else (rc, loc_conf d, false)) =
      (rc1, loc_conf c1, st)).
  { unfold st. destruct (Z.eqb_spec rc NGX_AGAIN) as [->|Hn].
    - destruct (Ha eq_refl) as (e & -> & Ee). destruct (route exec u n d) as [rc1 id]. cbn in *. exists rc1, e.
      rewrite Enr, Ee. done.
    - exists rc, d'. by rewrite Eid. }
  destruct Hres as (rc1 & c1 & -> & ->). cbn [mbind option_bind].
  destruct ((rc1 =? NGX_OK) || (rc1 =? NGX_DONE)); [by exists c1|]. cbn [orb]. rewrite Hr.
  destruct (of_rank 1 cs) as [|d1 rs] eqn:E1; [cbn; destruct st; by exists c1|].
  cbn [clcf_list fmap list_fmap]. destruct st; [by exists c1|].
  apply (regex_loop_route _ _ g (d1 :: rs)). done.
Qed.
End Find.

(** The loop over the nested static locations. *)
Lemma trees_loop_done init (g h : conf -> conf) ss : Forall (fun c => init (g c) = Done (h c) /\ same_head (g c) (h c)) ss ->
  trees_loop init (new_lq <$> (g <$> ss)) = Done (new_lq <$> (h <$> ss)).
Proof.
  induction 1 as [|c ss [Hc Hh] _ IH]; [done|]. rewrite !fmap_cons. cbn [trees_loop]. rewrite new_lq_clcf. cbn [of_option mbind conf_bind].
  rewrite Hc. cbn [mbind conf_bind]. rewrite IH. cbn. by rewrite (same_head_store (g c) (h c) Hh).
Qed.

Lemma trees_loop_refused init (ss : list conf) : Forall (fun c => (exists d, init c = Done d) \/ init c = Refused) ss ->
  Exists (fun c => init c = Refused) ss -> trees_loop init (new_lq <$> ss) = Refused.
Proof.
  induction 1 as [|c ss Hc _ IH]; intros H; [by apply Exists_nil in H|]. cbn [fmap list_fmap trees_loop]. rewrite new_lq_clcf. cbn.
  destruct Hc as [[d Hc]|Hc]; rewrite Hc; cbn; [|done]. apply Exists_cons in H as [H|H]; [congruence|].
  change (list_fmap _ _ new_lq ss) with (new_lq <$> ss). by rewrite (IH H).
Qed.

(** Static locations stay in order, whatever changes below them. *)
Lemma same_head_level h (ss : list conf) : Forall (fun c => same_head c (h c)) ss ->
  Forall (fun c => rank c = 0%nat) ss -> Forall static_ok ss -> StronglySorted static_le ss ->
  Forall (fun c => rank c = 0%nat) (h <$> ss) /\ Forall static_ok (h <$> ss) /\ StronglySorted static_le (h <$> ss) /\
  kind <$> (h <$> ss) = kind <$> ss.
Proof.
  intros Hh. induction Hh as [|c ss Hc Hh IH]; intros H0 Hok Hs; [by repeat split; constructor|].
  apply Forall_cons in H0 as [Hc0 H0], Hok as [Hcok Hok]. apply StronglySorted_inv in Hs as [Hs Hcs].
  destruct (IH H0 Hok Hs) as (I1 & I2 & I3 & I4). cbn [fmap list_fmap]. pose proof Hc as (E1 & _ & _ & _ & E5 & _ & E7 & _). split_and!.
  - constructor; [by rewrite (same_head_rank c (h c) Hc)|done].
  - constructor; [|done]. unfold static_ok. by rewrite E1, E7.
  - constructor; [done|]. change (list_fmap _ _ h ss) with (h <$> ss). rewrite Forall_fmap. rewrite Forall_forall in *. intros d Hd.
    destruct (Hh d Hd) as (F1 & _ & _ & _ & F5 & _). unfold compose, static_le. rewrite E1, E5, F1, F5. by apply Hcs.
  - unfold kind at 1 3. rewrite E1, E5. f_equal. exact I4.
Qed.

(** ** The whole configuration *)

(** What the two passes make of a location [c] that the first one has made into [c1]. *)
Definition prepared (n : nat) (c c1 : conf) : Prop :=
  same_head c c1 /\
  (of_rank 0 (confs_of c) = [] -> no_duplicates n c /\
     forall exec u, text u -> comes_to (ngx_http_core_find_location exec n u c1) (route exec u n c)) /\
  (no_duplicates n c /\
     (exists c2, init_static_location_trees n c1 = Done c2 /\ same_head c c2 /\
        forall exec u, text u -> comes_to (ngx_http_core_find_location exec n u c2) (route exec u n c)) \/
   ~ no_duplicates n c /\ init_static_location_trees n c1 = Refused).

Lemma of_rank_in k (cs : list conf) d : d ∈ of_rank k cs <-> d ∈ cs /\ rank d = k.
Proof. unfold of_rank. by rewrite list_elem_of_In, filter_In, <- list_elem_of_In, Nat.eqb_eq. Qed.

(** A level without static locations finds none. *)
Lemma static_none (ss : list conf) u (c : conf) : of_rank 0 ss = [] ->
  static_match (ex_conf ss) (inc_conf ss) u NGX_DECLINED c = (NGX_DECLINED, c).
Proof.
  intros H. assert (Hall : forall w, ex_conf ss w = None /\ inc_conf ss w = None).
  { intros w. split; (etrans; [symmetry; apply find_static_only|]); by rewrite H. }
  unfold static_match. rewrite (longest_none (inc_conf ss)) by (intros; apply Hall).
  destruct (Hall u) as [-> ->]. by destruct (Hall (u ++ [cSLASH])) as [-> ->].
Qed.

Section Prepared.
Context (n : nat) (c c1 : conf) (g : conf -> conf) (ss : list conf).
Notation cs := (confs_of c).
Context (Hp : ss ≡ₚ of_rank 0 cs) (Hs : StronglySorted static_le ss).
Context (Hok : Forall (fun d => rank d = 0%nat -> static_ok d) cs) (Hg : Forall (fun d => prepared n d (g d)) cs).
Context (Hh : same_head c c1) (El : locations c1 = Some (new_lq <$> (g <$> ss))) (Est : static_locations c1 = NULL).
Context (Erg : regex_locations c1 = clcf_list (g <$> of_rank 1 cs)) (Hrx : Forall (fun d => regex d <> None) (of_rank 1 cs)).
Context (Hsub : Forall (fun d => rank d <> 0%nat -> of_rank 0 (confs_of d) = []) cs).

Lemma regex_prepared exec u : text u -> Forall (fun d => regex d <> None /\ regex (g d) = regex d /\
  comes_to (ngx_http_core_find_location exec n u (g d)) (route exec u n d)) (of_rank 1 cs).
Proof.
  intros Hu. rewrite Forall_forall in *. intros d Hd. split; [by apply Hrx|]. apply of_rank_in in Hd as [Hd Hr].
  destruct (Hg d Hd) as (H1 & H2 & _). split; [by destruct H1 as (_ & ? & _)|].
  apply H2; [|done]. apply Hsub; [done|]. by rewrite Hr.
Qed.

Lemma static_member d : d ∈ ss -> d ∈ cs /\ rank d = 0%nat.
Proof. rewrite Hp. apply of_rank_in. Qed.

(** What a static location does not hold has no duplicates. *)
Lemma duplicates_static : Forall (no_duplicates n) cs <-> Forall (no_duplicates n) ss.
Proof.
  rewrite !Forall_forall. split; intros H d Hd; [by apply H, static_member|].
  destruct (decide (rank d = 0%nat)) as [Hr|Hr]; [by apply H; rewrite Hp; apply of_rank_in|].
  rewrite Forall_forall in Hg, Hsub. destruct (Hg d Hd) as (_ & H2 & _). by apply H2, Hsub.
Qed.

(** Without a tree of its own. *)
Lemma no_tree_finds exec u : text u -> of_rank 0 cs = [] ->
  comes_to (ngx_http_core_find_location exec (S n) u c1) (route exec u (S n) c).
Proof.
  intros Hu H0. pose proof (static_none cs u c H0) as E.
  apply (find_level_route exec u n c c1 g c1); rewrite ?E, ?Est; try done. by apply regex_prepared.
Qed.

Definition tree_of (d : conf) : conf := match init_static_location_trees n (g d) with Done e => e | _ => g d end.

(** With a tree that finds what is in the level. *)
Lemma tree_finds t exec u : text u -> NoDup (kind <$> ss) ->
  Forall (fun d => same_head d (tree_of d) /\ comes_to (ngx_http_core_find_location exec n u (tree_of d)) (route exec u n d)) ss ->
  (forall rv r, static_loop t u rv r = Some (static_match (ex_conf (tree_of <$> ss)) (inc_conf (tree_of <$> ss)) u rv r)) ->
  comes_to (ngx_http_core_find_location exec (S n) u (set_locations (Some []) (set_static_locations t c1))) (route exec u (S n) c).
Proof.
  intros Hu Hn Hss Ht. set (c2 := set_locations (Some []) (set_static_locations t c1)).
  assert (Hhs : Forall (fun d => same_head d (tree_of d)) ss) by (eapply Forall_impl; [exact Hss|]; by intros d [? _]).
  rewrite Forall_forall in Hss.
  destruct (static_match_rel (fun d d' => comes_to (ngx_http_core_find_location exec n u d') (route exec u n d))
    (ex_conf cs) (inc_conf cs) (ex_conf (tree_of <$> ss)) (inc_conf (tree_of <$> ss)) u NGX_DECLINED c c2)
    as (d' & Em & Hd & Hag); [| |exact Hh|done|].
  - intros w. rewrite <- (ex_conf_level ss cs w Hp Hn). destruct (same_head_conf tree_of ss w Hhs) as [H _].
    destruct H as [d d' [Hd ->]|]; constructor. by apply Hss.
  - intros w. rewrite <- (inc_conf_level ss cs w Hp Hn). destruct (same_head_conf tree_of ss w Hhs) as [_ H].
    destruct H as [d d' [Hd ->]|]; constructor. by apply Hss.
  - apply (find_level_route exec u n c c2 g d'); try done; [|by apply regex_prepared]. cbn. by rewrite Ht, Em.
Qed.

(** Each static location has its tree, or one has a duplicate below it. *)
Lemma nested_trees : Forall (no_duplicates n) ss /\
    Forall (fun d => init_static_location_trees n (g d) = Done (tree_of d) /\ same_head d (tree_of d) /\
      forall exec u, text u -> comes_to (ngx_http_core_find_location exec n u (tree_of d)) (route exec u n d)) ss \/
  ~ Forall (no_duplicates n) ss /\ trees_loop (init_static_location_trees n) (new_lq <$> (g <$> ss)) = Refused.
Proof.
  assert (H : forall d, d ∈ ss -> prepared n d (g d)).
  { intros d Hd. rewrite Forall_forall in Hg. by apply Hg, static_member. }
  assert (Hdec : forall l, (forall d, d ∈ l -> prepared n d (g d)) ->
    Forall (fun d => no_duplicates n d /\ exists c2, init_static_location_trees n (g d) = Done c2) l \/
    Exists (fun d => ~ no_duplicates n d /\ init_static_location_trees n (g d) = Refused) l).
  { induction l as [|d l IH]; intros Hl; [left; constructor|].
    destruct (Hl d ltac:(left)) as (_ & _ & [(Hd & e & He & _)|Hd]); [|right; by left].
    destruct IH as [?|?]; [intros; apply Hl; by right|left; constructor; eauto|right; by right]. }
  destruct (Hdec ss H) as [Hall|Hex].
  - left. rewrite Forall_forall in Hall. split; apply Forall_forall; intros d Hd; destruct (Hall d Hd) as [Hnd [e He]]; [done|].
    destruct (H d Hd) as (_ & _ & [(_ & e' & He' & Hh' & Hf)|[? _]]); [|done].
    assert (Et : tree_of d = e') by (unfold tree_of; by rewrite He'). rewrite Et. by split_and!.
  - right. split.
    + intros Hall. rewrite Forall_forall in Hall. apply Exists_exists in Hex as (d & Hd & Hn & _). by apply Hn, Hall.
    + apply trees_loop_refused.
      * rewrite Forall_fmap. apply Forall_forall. intros d Hd. unfold compose.
        destruct (H d Hd) as (_ & _ & [(_ & e & He & _)|[_ He]]); eauto.
      * rewrite Exists_fmap. eapply Exists_impl; [exact Hex|]. by intros d [_ ?].
Qed.

Lemma level_prepared : prepared (S n) c c1.
Proof.
  assert (Hperm : no_duplicates (S n) c <-> NoDup (kind <$> ss) /\ Forall (no_duplicates n) ss).
  { cbn [no_duplicates]. rewrite duplicates_static. by rewrite Hp. }
  split; [done|]. split.
  { intros H0. split; [|intros; by apply no_tree_finds]. apply Hperm. pose proof Hp as H. rewrite H0 in H. symmetry in H.
    apply Permutation_nil in H as ->. split; constructor. }
  rewrite Hperm. cbn [init_static_location_trees]. rewrite El.
  destruct (decide (ss = [])) as [Ess|Hne].
  { left. rewrite Ess. split; [split; constructor|]. exists c1. split; [done|]. split; [done|]. intros.
    apply no_tree_finds; [done|]. pose proof Hp as H'. rewrite Ess in H'. by apply Permutation_nil in H'. }
  replace (match new_lq <$> (g <$> ss) with [] => Done c1 | _ :: _ => _ end) with
    (locations ← trees_loop (init_static_location_trees n) (new_lq <$> (g <$> ss));
     locations ← ngx_http_join_exact_locations locations;
     locations ← of_option (ngx_http_create_locations_list locations);
     static_locations ← of_option (ngx_http_create_locations_tree locations 0);
     Done (set_locations (Some []) (set_static_locations static_locations c1))) by (by destruct ss).
  destruct nested_trees as [[Hnd Htr]|[Hnd ->]]; [|right; split; [tauto|done]].
  rewrite (trees_loop_done _ g tree_of).
  2: { rewrite Forall_forall in *. intros d Hd. destruct (Htr d Hd) as (E & H1 & _). split; [done|].
       destruct (static_member d Hd) as [Hd' _]. destruct (Hg d Hd') as (H2 & _). by apply (same_head_via d). }
  cbn [mbind conf_bind].
  destruct (same_head_level tree_of ss) as (L0 & L1 & L2 & L3); [by eapply Forall_impl; [exact Htr|]; intros d (_ & ? & _)|..|done|].
  { apply Forall_forall. intros d Hd. by apply static_member. }
  { rewrite Forall_forall in *. intros d Hd. destruct (static_member d Hd). by apply Hok. }
  destruct (level_tree (tree_of <$> ss)) as [[Hn (l1 & l2 & t & -> & E2 & E3 & Ht)]|[Hn ->]]; [by destruct ss|done..| |].
  - left. rewrite L3 in Hn. split; [done|]. cbn [mbind conf_bind]. rewrite E2. cbn [of_option mbind conf_bind].
    rewrite E3. cbn [of_option mbind conf_bind]. eexists. split; [done|]. split; [done|]. intros exec u Hu.
    apply tree_finds; [done..| |by intros; apply Ht].
    eapply Forall_impl; [exact Htr|]. intros d (_ & ? & H). split; [done|by apply H].
  - right. rewrite L3 in Hn. split; [tauto|done].
Qed.
End Prepared.
Lemma locations_prepared n : forall top c, valid n top c ->
  exists c1 nm, init_locations n top c = Done (c1, nm) /\ prepared n c c1.
Proof.
  induction n as [|n IH]; intros top c Hv; [done|]. destruct Hv as (Est & Erg & Hl).
  destruct (locations c) as [l|] eqn:El.
  - destruct Hl as (cs & -> & Hok & Hsub & Hv).
    set (g := fun d => match init_nested n d with Done e => e | _ => d end).
    assert (Hg : Forall (fun d => init_nested n d = Done (g d) /\ prepared n d (g d)) cs).
    { eapply Forall_impl; [exact Hv|]. intros d Hd. destruct (IH false d Hd) as (d1 & nm & E & Hp).
      unfold g, init_nested. rewrite E. done. }
    destruct (init_level n top c cs g El Hok) as (ss & ns & Hp & Hs & E).
    { eapply Forall_impl; [exact Hg|]. intros d [? [? _]]. done. }
    eexists _, _. split; [exact E|].
    assert (Hcs : confs_of c = cs).
    { unfold confs_of. rewrite El. clear. induction cs as [|d cs IH]; [done|]. cbn. rewrite new_lq_clcf. cbn. by rewrite IH. }
    apply (level_prepared n c _ g ss); rewrite ?Hcs; try done.
    + eapply Forall_impl; [exact Hok|]. by intros d (_ & _ & ? & _).
    + eapply Forall_impl; [exact Hg|]. by intros d [_ ?].
    + unfold with_regex. destruct (clcf_list (g <$> of_rank 1 cs)); done.
    + unfold with_regex. destruct (clcf_list (g <$> of_rank 1 cs)); done.
    + unfold with_regex. destruct (clcf_list (g <$> of_rank 1 cs)) eqn:Ec; [done|]. cbn. by rewrite Erg.
    + apply Forall_forall. intros d Hd. apply list_elem_of_In, filter_In in Hd as [_ Hk]. unfold rank in Hk.
      intros En. rewrite En in Hk. by destruct (noname d), (named d).
  - exists c, None. split; [cbn; by rewrite El|].
    assert (Hc : confs_of c = []) by (unfold confs_of; by rewrite El).
    assert (Hd : no_duplicates (S n) c) by (cbn; rewrite Hc; split; constructor).
    assert (Hf : forall exec u, text u -> comes_to (ngx_http_core_find_location exec (S n) u c) (route exec u (S n) c)).
    { intros exec u _. apply (find_level_route exec u n c c id c); try done; rewrite ?Hc, ?Est; cbn; try done.
      all: unfold static_match; cbn; by rewrite longest_none. }
    split; [done|]. split; [done|]. left. split; [done|]. exists c. split; [cbn; by rewrite El|done].
Qed.
End Spec.

(** ** Theorems *)

(** C27: the trees that are made of the locations of a server, with names of at most 255
    bytes, nested to any depth but for static ones in a regular expression, find the
    location that a search of the plain configuration finds: the exact one, a redirect
    to the one with a slash added, or the inclusive one that is the longest prefix and what
    is nested in it, then the regular expressions in order. *)
Theorem location_routing {R : Type} (n : nat) (c : ngx_http_core_loc_conf_t R) :
  valid n true c -> no_duplicates n c ->
  exists c' named, create_location_trees n c = Done (c', named) /\
    forall exec u, text u -> comes_to (ngx_http_core_find_location exec n u c') (route exec u n c).
Proof.
  intros Hv Hd. destruct (locations_prepared n true c Hv) as (c1 & nm & E & _ & _ & [(_ & c2 & E2 & _ & Hf)|[? _]]); [|done].
  exists c2, nm. unfold create_location_trees. rewrite E. cbn. rewrite E2. done.
Qed.

(** C28: a configuration, with the same conditions, is refused exactly when two static
    locations of one level, at any depth, have the same name and kind. *)
Theorem location_duplicates {R : Type} (n : nat) (c : ngx_http_core_loc_conf_t R) :
  valid n true c -> (create_location_trees n c = Refused <-> ~ no_duplicates n c).
Proof.
  intros Hv. destruct (locations_prepared n true c Hv) as (c1 & nm & E & _ & _ & H).
  unfold create_location_trees. rewrite E. cbn. destruct H as [(Hd & c2 & -> & _)|[Hd ->]]; [|done]. cbn. by split.
Qed.

(** The codes a lookup can end with. *)
Definition ends_with {C : Type} (codes : list Z) (o : option (Z * C)) : Prop :=
  match o with Some (rc, _) => rc ∈ codes | None => True end.

Lemma static_loop_codes {R : Type} t : forall v rv (r : ngx_http_core_loc_conf_t R),
  rv ∈ [NGX_DONE; NGX_DECLINED; NGX_AGAIN] -> ends_with [NGX_OK; NGX_DONE; NGX_DECLINED; NGX_AGAIN] (static_loop t v rv r).
Proof.
  induction t as [|lt IHl rt IHr tr IHt e i a l nm]; intros v rv r Hrv; cbn [static_loop]; [by right|].
  destruct (ngx_filename_cmp v nm _) as [rc|]; [|done]. cbn [mbind option_bind].
  destruct (negb _); [destruct (rc <? 0); auto|].
  destruct (l <? _); [destruct i; [apply IHt; set_solver|auto]|].
  destruct (_ =? l); [destruct e; [cbn; set_solver|destruct i; cbn; set_solver]|].
  destruct (_ && a); [|auto]. destruct (match e with Some c => Some c | None => i end); [|done]. apply IHl. set_solver.
Qed.

Lemma regex_loop_codes {R : Type} exec find u codes clcfp : forall rc (c : ngx_http_core_loc_conf_t R),
  rc ∈ NGX_OK :: NGX_ERROR :: codes -> ends_with (NGX_OK :: NGX_ERROR :: codes) (regex_loop exec find u rc c clcfp).
Proof.
  induction clcfp as [|[d|] l IH]; intros rc c Hrc; cbn [regex_loop]; [done| |done].
  destruct (regex d) as [re|]; [|done]. cbn [mbind option_bind].
  destruct (ngx_http_regex_exec exec re u =? NGX_OK).
  - destruct (find d) as [[rc' c']|]; [|done]. cbn. destruct (Z.eqb_spec rc' NGX_ERROR) as [->|?]; set_solver.
  - destruct (ngx_http_regex_exec exec re u =? NGX_DECLINED); [by apply IH|]. cbn. set_solver.
Qed.

(** [NGX_AGAIN], "inclusive match", is never the result of the lookup: below an inclusive
    location it goes on until there is none. *)
Theorem find_location_codes {R : Type} exec u (n : nat) : forall c : ngx_http_core_loc_conf_t R,
  ends_with [NGX_OK; NGX_ERROR; NGX_DONE; NGX_DECLINED] (ngx_http_core_find_location exec n u c).
Proof.
  induction n as [|n IH]; intros c; [done|]. cbn [ngx_http_core_find_location].
  pose proof (static_loop_codes (static_locations c) u NGX_DECLINED c ltac:(set_solver)) as Hs.
  unfold ngx_http_core_find_static_location. destruct (static_loop _ _ _ _) as [[rc d]|]; [|done]. cbn [mbind option_bind].
  assert (Hres : forall rc1 c1 (st : bool), rc1 ∈ [NGX_OK; NGX_ERROR; NGX_DONE; NGX_DECLINED] ->
    ends_with [NGX_OK; NGX_ERROR; NGX_DONE; NGX_DECLINED]
      (if (rc1 =? NGX_OK) || (rc1 =? NGX_DONE) then Some (rc1, c1)
       else match regex_locations c with
            | Some clcfp => if st then Some (rc1, c1) else regex_loop exec (ngx_http_core_find_location exec n u) u rc1 c1 clcfp
            | None => Some (rc1, c1)
            end)).
  { intros rc1 c1 st H. destruct (_ || _); [done|]. destruct (regex_locations c); [|done]. destruct st; [done|]. by apply regex_loop_codes. }
  destruct (Z.eqb_spec rc NGX_AGAIN) as [->|Hne].
  - specialize (IH d). destruct (ngx_http_core_find_location exec n u d) as [[rc1 c1]|]; [|done]. cbn [mbind option_bind]. by apply Hres.
  - cbn [mbind option_bind]. apply (Hres rc d false). cbn in Hs. set_solver.
Qed.

(** ** The directive *)

Lemma filename_cmp_nested a p : text a -> text p -> exists rc, ngx_filename_cmp (data a) (data p) (length p) = Some rc /\
  (rc = 0 -> p `prefix_of` a).
Proof.
  unfold data. intros Ha Hp. revert a Ha. induction Hp as [|y p Hy Hp IH]; intros a Ha.
  - exists 0. split; [done|]. intros _. apply prefix_nil.
  - destruct Ha as [|x a Hx Ha]; cbn [app length].
    + cbn [ngx_filename_cmp]. rewrite (proj2 (Z.eqb_neq 0 y)) by lia. cbn [Z.eqb orb]. eexists. split; [done|]. lia.
    + destruct (decide (x = y)) as [->|Hxy].
      * cbn [ngx_filename_cmp]. rewrite Z.eqb_refl, (proj2 (Z.eqb_neq y 0)) by lia. destruct (IH a Ha) as (rc & -> & H).
        exists rc. split; [done|]. intros E. by apply prefix_cons, H.
      * destruct (filename_cmp_diff x y (a ++ [0]) (p ++ [0]) (length p) Hxy Hx Hy) as (rc & -> & H). exists rc. split; [done|]. lia.
Qed.

Section Directive.
Context {R : Type} (compile : list Z -> bool -> option R).
Notation conf := (ngx_http_core_loc_conf_t R).

Lemma text_drop k s : text s -> text (drop k s).
Proof. apply Forall_drop. Qed.

Lemma regex_location_ok (c d : conf) re b : text re -> ngx_http_core_regex_location compile c re b = Done d ->
  text (name d) /\ loc_conf d = loc_conf c.
Proof. unfold ngx_http_core_regex_location. intros Hre. destruct (compile re b); [|done]. by intros [= <-]. Qed.

Lemma location_name_ok (c d : conf) value : Forall text value -> location_name compile c value = Done d ->
  text (name d) /\ loc_conf d = loc_conf c.
Proof.
  intros Hv. destruct value as [|a [|b [|? ?]]]; [done|..|done]; cbn [location_name].
  - apply Forall_cons in Hv as [Ha _]. pose proof (text_drop 1 a Ha) as H1. pose proof (text_drop 2 a Ha) as H2.
    destruct (byte_at a 0) as [c0|]; [|done]. cbn [of_option mbind conf_bind].
    destruct (c0 =? 61); [by intros [= <-]|].
    destruct (if c0 =? 94 then _ else _) as [[]| |]; cbn [mbind conf_bind]; [by intros [= <-]| |done..].
    destruct (c0 =? 126); [|intros [= <-]; by destruct (c0 =? 64)].
    destruct (byte_at (drop 1 a) 0) as [c1|]; [|done]. cbn [of_option mbind conf_bind].
    destruct (c1 =? 42); apply regex_location_ok; [by apply text_drop|done].
  - apply Forall_cons in Hv as [_ Hv]. apply Forall_cons in Hv as [Hb _].
    repeat case_bool_decide; try done; try (by intros [= <-]); by apply regex_location_ok.
Qed.

Lemma location_nested_ok (p c : conf) : text (name p) -> text (name c) -> location_nested p c = Done tt -> name p <> [] ->
  exact_match p = false /\ named p = false /\ named c = false /\ (regex c = None -> name p `prefix_of` name c).
Proof.
  intros Tp Tc. unfold location_nested. destruct (name p) as [|x s] eqn:Ep; [done|]. cbn [length Nat.eqb]. rewrite <- Ep in *.
  destruct (exact_match p); [done|]. destruct (named p); [done|]. destruct (named c); [done|].
  destruct (regex c) eqn:Er; cbn [is_some]; [done|].
  destruct (filename_cmp_nested (name c) (name p) Tc Tp) as (rc & E & H). rewrite Ep in E at 2. cbn [length] in E. rewrite E.
  cbn [of_option mbind conf_bind]. destruct (Z.eqb_spec rc 0); [|done]. intros _ _. auto.
Qed.
End Directive.

(** A directive adds one location at the end of its level.  Below a location with a name
    it is refused in exact and named ones and when it is named itself, and its name begins
    with the name of the location it is in, unless it is a regular expression. *)
Theorem location_directive {R : Type} (compile : list Z -> bool -> option R) parse id value pclcf pclcf' :
  text (name pclcf) -> Forall text value ->
  (forall c d, parse c = Done d -> name d = name c /\ regex d = regex c /\ named d = named c /\ loc_conf d = loc_conf c) ->
  ngx_http_core_location compile parse id value pclcf = Done pclcf' ->
  exists c, pclcf' = set_locations (ngx_http_add_location (locations pclcf) c) pclcf /\ loc_conf c = id /\
    (name pclcf <> [] -> exact_match pclcf = false /\ named pclcf = false /\ named c = false /\
                         (regex c = None -> name pclcf `prefix_of` name c)).
Proof.
  intros Tp Tv Hparse. unfold ngx_http_core_location.
  destruct (location_name compile (new_conf id) value) as [c| |] eqn:En; cbn [mbind conf_bind]; [|done..].
  destruct (location_name_ok compile _ c value Tv En) as [Tc Ec].
  destruct (location_nested pclcf c) as [[]| |] eqn:Ene; cbn [mbind conf_bind]; [|done..].
  destruct (parse c) as [d| |] eqn:Ed; [|done..]. intros [= <-]. destruct (Hparse c d Ed) as (E1 & E2 & E3 & E4).
  exists d. split; [done|]. rewrite E1, E2, E3, E4. split; [done|]. by apply location_nested_ok.
Qed.

(** ** Examples *)

Module Sites.
(** A regular expression is the number that [pcre_exec] returns for it: -1 does not match,
    other negative numbers are errors. *)
Definition exec (re : Z) (u : list Z) : Z := re.

Definition compile (s : list Z) (caseless : bool) : option Z := Some (Z.of_nat (length s) - 3).

Notation conf := (ngx_http_core_loc_conf_t Z).

Definition block := conf -> conf_result conf.

Definition empty : block := Done.

(** [location] with its arguments, in a block. *)
Definition location (id : Z) (value : list string) (body : block) (rest : block) : block :=
  fun p => p ← ngx_http_core_location compile body id (lit <$> value) p; rest p.

Definition redirect (rest : block) : block := fun c =>
  rest (Conf (name c) (regex c) (noname c) (named c) (exact_match c) (noregex c) true (loc_conf c)
          (locations c) (static_locations c) (regex_locations c)).

Definition server (body : block) : conf := match body (new_conf 0) with Done c => c | _ => new_conf 0 end.

(** Looked up after the trees are made: the code and the address of the location. *)
Definition lookup (n : nat) (c : conf) (u : string) : option (Z * Z) :=
  match create_location_trees n c with
  | Done (c', _) => '(rc, d) ← ngx_http_core_find_location exec n (lit u) c'; Some (rc, loc_conf d)
  | _ => None
  end.

Definition site : conf := server (
  location 1 ["/"] empty (
  location 2 ["="; "/a"] empty (
  location 3 ["/a/"] (redirect (location 4 ["/a/b/"] (redirect empty) (location 5 ["~"; "xx"] empty empty))) (
  location 6 ["^~"; "/img"] empty (
  location 7 ["@x"] empty (
  location 8 ["~*xxx"] empty (
  location 9 ["/aa"] empty empty))))))).

Example site_lookups : lookup 3 site <$> ["/"; "/a"; "/a/b"; "/a/b/c"; "/a/c"; "/img/x"; "/aab"] =
  [Some (0, 8); Some (0, 2); Some (-4, 4); Some (0, 8); Some (0, 8); Some (-5, 6); Some (0, 8)].
Proof. vm_compute. reflexivity. Qed.

(** Checking a configuration, level by level. *)
Ltac check_text := unfold text; repeat constructor.

Ltac check_slash :=
  let H := fresh in intros H;
  first [discriminate H | match goal with |- exists s, ?l = s ++ _ => let v := eval vm_compute in (removelast l) in exists v; reflexivity end].

Ltac check_conf :=
  split; [check_text|split; [split; vm_compute; intros; congruence|split]];
  [ let H := fresh in intros H; vm_compute in H;
    first [discriminate H | split; [check_text|split; [cbn; lia|cbn; check_slash]]]
  | first [discriminate | reflexivity]].

Ltac check_valid :=
  match goal with
  | |- valid (S _) _ ?c =>
      split; [reflexivity|split; [reflexivity|]];
      let l := eval vm_compute in (confs_of c) in
      lazymatch l with
      | [] => exact I
      | _ =>
          exists l; split; [reflexivity|split; [|split]];
          [ repeat (apply Forall_cons; split; [check_conf|]); apply Forall_nil; exact I
          | repeat (apply Forall_cons; split; [reflexivity || (let H := fresh in intros H; exfalso; apply H; reflexivity)|]); apply Forall_nil; exact I
          | repeat (apply Forall_cons; split; [check_valid|]); apply Forall_nil; exact I ]
      end
  end.

Lemma site_valid : valid 3 true site.
Proof. check_valid. Qed.

(** Two locations of the same name and kind, inside another. *)
Definition twice : conf := server (
  location 1 ["~xxx"] (location 2 ["~x"] empty empty) (
  location 3 ["/a"] (location 4 ["/ab"] empty (location 5 ["="; "/ab"] empty (location 6 ["^~/ab"] empty empty))) empty)).

Lemma twice_valid : valid 3 true twice.
Proof. check_valid. Qed.
End Sites.

Lemma location_routing_witness :
  exists c' named, create_location_trees 3 Sites.site = Done (c', named) /\
    forall exec u, text u -> comes_to (ngx_http_core_find_location exec 3 u c') (route exec u 3 Sites.site).
Proof. apply location_routing; [apply Sites.site_valid|]. by apply (bool_decide_unpack _). Defined.

Lemma location_duplicates_witness : create_location_trees 3 Sites.twice = Refused <-> ~ no_duplicates 3 Sites.twice.
Proof. apply location_duplicates, Sites.twice_valid. Defined.

Lemma location_directive_witness :
  let p : ngx_http_core_loc_conf_t Z := set_name (lit "/a") (new_conf 3) in
  exists c, set_locations (Some [new_lq (set_name (lit "/a/b") (new_conf 4))]) p
      = set_locations (ngx_http_add_location (locations p) c) p /\ loc_conf c = 4 /\
    (name p <> [] -> exact_match p = false /\ named p = false /\ named c = false /\ (regex c = None -> name p `prefix_of` name c)).
Proof.
  apply (location_directive Sites.compile Done 4 [lit "/a/b"]); [Sites.check_text| |by intros c d [= ->]|reflexivity].
  apply Forall_cons. split; [Sites.check_text|apply Forall_nil; exact I].
Defined.

(** ** What goes wrong *)

(** The length of a node is kept in one byte: the location "= /aa...a" of 257 bytes answers
    the request for "/" as an exact match, and does not answer its own name. *)
Example location_long_name :
  let long := String.append "/" (String.concat EmptyString (repeat "a"%string 256)) in
  let c := Sites.server (Sites.location 1 ["="; long] Sites.empty Sites.empty) in
  Sites.lookup 2 c "/" = Some (NGX_OK, 1) /\ Sites.lookup 2 c long = Some (NGX_DECLINED, 0).
Proof. vm_compute. split; reflexivity. Qed.

(** A static location inside one with a regular expression is accepted when its name
    begins with the text of the expression, and is never found. *)
Example location_in_regex_lost :
  let c := Sites.server (Sites.location 1 ["~"; "/img"] (Sites.location 2 ["/img/a"] Sites.empty Sites.empty) Sites.empty) in
  confs_of <$> confs_of c = [[Conf (lit "/img/a") None false false false false false 2 None NULL None]] /\
  Sites.lookup 3 c "/img/a" = Some (NGX_OK, 1).
Proof. vm_compute. split; reflexivity. Qed.

(** An error of a regular expression in a nested location is forgotten when one of the
    level above matches. *)
Example location_error_lost :
  let c := Sites.server (Sites.location 1 ["/a"] (Sites.location 2 ["~x"] Sites.empty Sites.empty)
             (Sites.location 3 ["~xxx"] Sites.empty Sites.empty)) in
  ngx_http_regex_exec Sites.exec (-2) (lit "/a") = NGX_ERROR /\ Sites.lookup 3 c "/a" = Some (NGX_OK, 3).
Proof. vm_compute. split; reflexivity. Qed.

(** A named location inside one with an empty name passes the checks of the directive, and
    the server configuration it is to be stored in is a null pointer. *)
Example location_named_nested :
  let c := Sites.server (Sites.location 1 [EmptyString] (Sites.location 2 ["@x"] Sites.empty Sites.empty) Sites.empty) in
  map loc_conf (flat_map confs_of (confs_of c)) = [2] /\ create_location_trees 3 c = Fault.
Proof. vm_compute. split; reflexivity. Qed.
