(* ===== verification/NgxResolver.v ===== *)
(** * Names in DNS messages

    The names of src/nginx-1.7.2/src/core/ngx_resolver.c: reading a possibly compressed
    name of a response, and writing the names of queries for names and for addresses. *)

From S2P Require Import Prelude NgxString NgxNumber.

Module Resolver.

(** ** Reading a name *)

(** The first loop of [ngx_resolver_copy]: at most 128 parts.  The outer [option] is a read
    outside the buffer, the inner one an invalid name. *)
Fixpoint scan (fuel : nat) (buf : list Z) (last p : nat) (len : Z) : option (option Z) :=
  match fuel with
  | O => Some None
  | S fuel' =>
      n ← buf !! p;
      let p := S p in
      if n =? 0 then Some (Some len)
      else
        '(p, len) ← (if negb (Z.land n 192 =? 0) then
                       m ← buf !! p;
                       Some (Z.to_nat (Z.shiftl (Z.land n 63) 8 + m), len)
                     else Some ((p + Z.to_nat n)%nat, len + (1 + n)));
        if (last <=? p)%nat then Some None else scan fuel' buf last p len
  end.

(** The second loop, from [n = *src++] on: the bytes written. *)
Fixpoint copy_loop (fuel : nat) (buf : list Z) (n : Z) (src : nat) (dst : list Z) : option (list Z) :=
  match fuel with
  | O => None
  | S fuel' =>
      '(n, src, dst) ←
        (if negb (Z.land n 192 =? 0) then
           m ← buf !! src;
           let src := Z.to_nat (Z.shiftl (Z.land n 63) 8 + m) in
           n ← buf !! src;
           Some (n, S src, dst)
         else
           l ← ngx_strlow (drop src buf) (Z.to_nat n);
           let dst := dst ++ l in
           let src := (src + Z.to_nat n)%nat in
           n ← buf !! src;
           Some (n, S src, if negb (n =? 0) then dst ++ [cDOT] else dst));
      if n =? 0 then Some dst else copy_loop fuel' buf n src dst
  end.

(** The name read: its bytes as they are written from [name->data] on, and the size of the
    memory they are written to. *)
Record name := mkName { data : list Z; allocated : Z }.

(** [None] is a read outside [buf]; the result is the return code with the name, which is
    not there for NGX_ERROR.  [want] is [name != NULL]. *)
Definition ngx_resolver_copy (want : bool) (buf : list Z) (src last : nat) : option (Z * option name) :=
  r ← scan 128 buf last src (-1);
  match r with
  | None => Some (NGX_ERROR, None)
  | Some len =>
      if negb want then Some (NGX_OK, None)
      else if len =? -1 then Some (NGX_OK, Some (mkName [] 0))
      else
        n ← buf !! src;
        d ← copy_loop 128 buf n (S src) [];
        Some (NGX_OK, Some (mkName d len))
  end.

(** ** Writing a query *)

(** [ngx_resolver_hdr_t]: a recursive query of one question. *)
Definition query_header (ident : Z) : list Z :=
  [Z.land (Z.shiftr ident 8) 255; Z.land ident 255; 1; 0; 0; 1; 0; 0; 0; 0; 0; 0].

Abbreviation NGX_RESOLVE_A := 1 (only parsing).

(** The loop over the name from its end: [enc] is what is written from [p + 1] on. *)
Fixpoint encode_loop (rev_name : list Z) (len : Z) (enc : list Z) : option (list Z) :=
  match rev_name with
  | [] => if (len =? 0) || (255 <? len) then None else Some (uint 8 len :: enc)
  | c :: rest =>
      if negb (c =? cDOT) then encode_loop rest (len + 1) (c :: enc)
      else if (len =? 0) || (255 <? len) then None else encode_loop rest 0 (uint 8 len :: enc)
  end.

(** [None] is NGX_DECLINED. *)
Definition ngx_resolver_create_name_query (ident : Z) (name : list Z) : option (list Z) :=
  match name with
  | [] => None
  | _ => enc ← encode_loop (rev name) 0 [0]; Some (query_header ident ++ enc ++ [0; NGX_RESOLVE_A; 0; 1])
  end.

Section Addr.
Context `{Arch}.

(** The four octets of [addr], the lowest first; [p] is the address of what is written. *)
Fixpoint addr_labels (k : nat) (p : Z) (addr n : Z) : option (list Z) :=
  match k with
  | O => Some []
  | S k' =>
      d ← ngx_sprintf (p + 1) (lit "%ud") [AInt (Z.land (Z.shiftr addr n) 255)];
      let len := Z.of_nat (length d) in
      rest ← addr_labels k' (p + 1 + len) addr (n + 8);
      Some (uint 8 len :: d ++ rest)
  end.

(** "\7in-addr\4arpa" *)
Definition in_addr_arpa : list Z := 7 :: lit "in-addr" ++ 4 :: lit "arpa".

(** The query of an IPv4 address; [p] is the address of the memory it is written to. *)
Definition ngx_resolver_create_addr_query (p ident addr : Z) : option (list Z) :=
  ls ← addr_labels 4 (p + 12) addr 0;
  Some (query_header ident ++ ls ++ in_addr_arpa ++ [0] ++ [0; 12; 0; 1]).

(** The address in the name of a response: the octets of [ngx_resolver_process_ptr]. *)
Fixpoint read_octets (k : nat) (buf : list Z) (i : nat) (mask addr : Z) : option (option (Z * nat)) :=
  match k with
  | O => Some (Some (addr, i))
  | S k' =>
      len ← buf !! i;
      let i := S i in
      let line := take (Z.to_nat len) (drop i buf) in
      if (length line <? Z.to_nat len)%nat then None
      else
        let octet := ngx_atoi line in
        if (octet =? NGX_ERROR) || (255 <? octet) then Some None
        else read_octets k' buf (i + Z.to_nat len) (mask + 8) (uint 32 (addr + Z.shiftl octet mask))
  end.

(** [Some None] is an invalid name. *)
Definition ptr_address (buf : list Z) (n : nat) : option (option Z) :=
  '(rc, _) ← ngx_resolver_copy false buf 12 n;
  if negb (rc =? NGX_OK) then Some None
  else
    r ← read_octets 4 buf 12 0 0;
    match r with
    | None => Some None
    | Some (addr, i) =>
        d ← ngx_strcasecmp (drop i buf) (in_addr_arpa ++ [0]);
        Some (if d =? 0 then Some addr else None)
    end.
End Addr.

(** ** What a name is *)

(** Where a compression pointer leads. *)
Definition target (n m : Z) : nat := Z.to_nat (Z.shiftl (Z.land n 63) 8 + m).

(** The name at [i] of a message of [last] bytes, in [k] parts: its labels, and whether it
    is only a pointer, or pointers, that lead from the last label to the root. *)
Inductive dns_name (buf : list Z) (last : nat) : nat -> nat -> list (list Z) -> bool -> Prop :=
  | dn_root i : buf !! i = Some 0 -> dns_name buf last i 1 [] false
  | dn_label i n l ls k e :
      buf !! i = Some n -> 0 < n < 64 -> take (Z.to_nat n) (drop (S i) buf) = l -> length l = Z.to_nat n ->
      (S i + Z.to_nat n < last)%nat -> dns_name buf last (S i + Z.to_nat n) k ls e ->
      dns_name buf last i (S k) (l :: ls) e
  | dn_pointer i n m ls k e :
      buf !! i = Some n -> Z.land n 192 <> 0 -> buf !! S i = Some m -> (target n m < last)%nat ->
      dns_name buf last (target n m) k ls e ->
      dns_name buf last i (S k) ls (match ls with [] => true | _ => e end).

(** The labels joined by dots, in lower case. *)
Fixpoint join (ls : list (list Z)) : list Z :=
  match ls with
  | [] => []
  | [l] => map ngx_tolower l
  | l :: ls' => map ngx_tolower l ++ cDOT :: join ls'
  end.

Definition labels_len (ls : list (list Z)) : Z := foldr (fun l n => 1 + Z.of_nat (length l) + n) 0 ls.

Lemma join_length ls : ls <> [] -> Z.of_nat (length (join ls)) = labels_len ls - 1.
Proof.
  induction ls as [|l [|l2 ls] IH]; intros Hne; [done|simpl; rewrite length_map; lia|].
  change (join (l :: l2 :: ls)) with (map ngx_tolower l ++ cDOT :: join (l2 :: ls)).
  change (labels_len (l :: l2 :: ls)) with (1 + Z.of_nat (length l) + labels_len (l2 :: ls)).
  rewrite length_app, length_map. change (length (?c :: ?k)) with (S (length k)). specialize (IH ltac:(done)). lia.
Qed.

(** ** Reading *)

Lemma plain_byte n : 0 < n < 64 -> Z.land n 192 = 0.
Proof.
  intros Hn. pose proof (byte_forall (fun b => implb ((0 <? b) && (b <? 64)) (Z.land b 192 =? 0))
    ltac:(vm_compute; reflexivity) n ltac:(unfold byte_ok; lia)) as Hb. cbv beta in Hb. rewrite (proj2 (Z.ltb_lt 0 n)), (proj2 (Z.ltb_lt n 64)) in Hb by lia. by apply Z.eqb_eq in Hb.
Qed.

Lemma byte_cases n : byte_ok n -> n = 0 \/ 0 < n < 64 \/ Z.land n 192 <> 0.
Proof.
  intros Hn. pose proof (byte_forall (fun b => (b =? 0) || ((0 <? b) && (b <? 64)) || negb (Z.land b 192 =? 0))
    ltac:(vm_compute; reflexivity) n Hn) as Hb. cbv beta in Hb. apply orb_true_iff in Hb as [Hb|Hb]; [apply orb_true_iff in Hb as [Hb|Hb]|].
  - left. by apply Z.eqb_eq in Hb.
  - right; left. apply andb_true_iff in Hb as [H1 H2]. apply Z.ltb_lt in H1, H2. lia.
  - right; right. apply negb_true_iff, Z.eqb_neq in Hb. done.
Qed.

(** The scan accepts the names of at most [fuel] parts. *)
Lemma scan_complete buf last i k ls e len :
  dns_name buf last i k ls e -> forall fuel, (k <= fuel)%nat -> scan fuel buf last i len = Some (Some (len + labels_len ls)).
Proof.
  intros Hd. revert len. induction Hd as [i H0|i n l ls k e Hn Hr Hl Hll Hlast _ IH|i n m ls k e Hn Hp Hm Hlast _ IH]; intros len [|fuel] Hk; try lia; simpl.
  - rewrite H0. simpl. do 2 f_equal. lia.
  - rewrite Hn. cbn [mbind option_bind]. rewrite (proj2 (Z.eqb_neq n 0)), (plain_byte n Hr) by lia. simpl negb. cbv iota.
    cbn [mbind option_bind]. rewrite (proj2 (Nat.leb_gt _ _)) by done. rewrite IH by lia. do 2 f_equal.
    change (labels_len (l :: ls)) with (1 + Z.of_nat (length l) + labels_len ls). lia.
  - rewrite Hn. cbn [mbind option_bind]. destruct (Z.eqb_spec n 0) as [->|]; [done|]. rewrite (proj2 (Z.eqb_neq _ 0) Hp). simpl negb. cbv iota.
    rewrite Hm. cbn [mbind option_bind]. fold (target n m). destruct (Nat.leb_spec last (target n m)); [lia|]. by rewrite IH by lia.
Qed.

(** What it accepts is a name. *)
Lemma scan_sound fuel buf last i len len' :
  bytes_ok buf -> (last <= length buf)%nat ->
  scan fuel buf last i len = Some (Some len') ->
  exists k ls e, (k <= fuel)%nat /\ dns_name buf last i k ls e /\ len' = len + labels_len ls.
Proof.
  intros Hb Hlast. revert i len. induction fuel as [|fuel IH]; intros i len E; [done|]. simpl in E.
  destruct (buf !! i) as [n|] eqn:Hn; [|done]. cbn [mbind option_bind] in E.
  destruct (byte_cases n (bytes_ok_lookup _ _ _ Hb Hn)) as [->|[Hr|Hp]].
  - simpl in E. injection E as <-. exists 1%nat, [], false. split; [lia|]. split; [by constructor|]. simpl. lia.
  - rewrite (proj2 (Z.eqb_neq n 0)), (plain_byte n Hr) in E by lia. simpl negb in E. cbv iota in E. cbn [mbind option_bind] in E.
    destruct (Nat.leb_spec last (S i + Z.to_nat n)) as [|Hlt]; [by rewrite (proj2 (Nat.leb_le _ _)) in E by done|].
    rewrite (proj2 (Nat.leb_gt _ _)) in E by done. destruct (IH _ _ E) as (k & ls & e & Hk & Hd & ->).
    exists (S k), (take (Z.to_nat n) (drop (S i) buf) :: ls), e.
    assert (Hll : length (take (Z.to_nat n) (drop (S i) buf)) = Z.to_nat n) by (rewrite length_take, length_drop; lia).
    split; [lia|]. split; [by eapply dn_label|]. change (labels_len (?l :: ls)) with (1 + Z.of_nat (length l) + labels_len ls). lia.
  - destruct (Z.eqb_spec n 0) as [->|]; [done|]. rewrite (proj2 (Z.eqb_neq _ 0) Hp) in E. simpl negb in E. cbv iota in E.
    destruct (buf !! S i) as [m|] eqn:Hm; [|done]. cbn [mbind option_bind] in E. fold (target n m) in E.
    destruct (Nat.leb_spec last (target n m)); [done|]. destruct (IH _ _ E) as (k & ls & e & Hk & Hd & ->).
    exists (S k), ls. eexists. split; [lia|]. split; [by eapply dn_pointer|done].
Qed.

(** What is written for a name: a dot too much when pointers lead from its last label to
    the root. *)
Definition written (ls : list (list Z)) (e : bool) : list Z :=
  match ls with [] => [] | _ => join ls ++ (if e then [cDOT] else []) end.

Lemma written_cons l ls e (dot : bool) :
  (dot = false -> ls = [] /\ e = false) -> (dot = true -> ls = [] -> e = true) ->
  written (l :: ls) e = map ngx_tolower l ++ (if dot then [cDOT] else []) ++ written ls e.
Proof.
  intros H0 H1. destruct dot.
  - destruct ls as [|l2 ls]; [by rewrite (H1 eq_refl eq_refl)|].
    unfold written. change (join (l :: l2 :: ls)) with (map ngx_tolower l ++ cDOT :: join (l2 :: ls)). by rewrite <- !app_assoc.
  - destruct (H0 eq_refl) as [-> ->]. simpl. by rewrite !app_nil_r.
Qed.

Lemma dns_name_root buf last i k ls e : dns_name buf last i k ls e -> buf !! i = Some 0 -> ls = [] /\ e = false.
Proof.
  intros Hd H0. destruct Hd as [i _|i n l ls k e Hn Hr _ _ _ _|i n m ls k e Hn Hp _ _ _]; [done|..];
    rewrite H0 in Hn; injection Hn as <-; [lia|done].
Qed.

Lemma dns_name_pointers buf last i k e n : dns_name buf last i k [] e -> buf !! i = Some n -> n <> 0 -> e = true.
Proof.
  intros Hd Hn Hnz. inversion Hd as [? H0|? ? ? ? ? ? Hn'|? n' m ? k' e' Hn']; subst; [|done].
  rewrite Hn in H0. by injection H0.
Qed.

Lemma dns_name_head buf last i k ls e : dns_name buf last i k ls e -> exists n, buf !! i = Some n.
Proof. intros []; eauto. Qed.

Lemma copy_loop_ok buf last i k ls e :
  dns_name buf last i k ls e -> forall fuel n dst, buf !! i = Some n -> n <> 0 -> (k <= S fuel)%nat ->
  copy_loop fuel buf n (S i) dst = Some (dst ++ written ls e).
Proof.
  induction 1 as [i H0|i n l ls k e Hn Hr Hl Hll Hlast Hd IH|i n m ls k e Hn Hp Hm Hlast Hd IH]; intros fuel n0 dst Hn0 Hnz Hk;
    [by rewrite H0 in Hn0; injection Hn0 as <-|..]; rewrite Hn in Hn0; injection Hn0 as <-;
    destruct (dns_name_head _ _ _ _ _ _ Hd) as [n' Hn'].
  - assert (Hk1 : (1 <= k)%nat) by (inversion Hd; lia). destruct fuel as [|fuel]; [lia|]. cbn [copy_loop].
    rewrite (plain_byte n Hr). simpl negb. cbv iota. rewrite ngx_strlow_map, Hl.
    2: { rewrite <- Hll, <- Hl, length_take. lia. }
    cbn [mbind option_bind]. rewrite Hn'. cbn [mbind option_bind].
    rewrite (written_cons l ls e (negb (n' =? 0))).
    + destruct (Z.eqb_spec n' 0) as [->|Hnz'].
      * destruct (dns_name_root _ _ _ _ _ _ Hd Hn') as [-> ->]. simpl. by rewrite app_nil_r.
      * cbn [negb]. rewrite (IH fuel n') by (done || lia). by rewrite <- !app_assoc.
    + intros E. apply negb_false_iff, Z.eqb_eq in E as ->. by eapply dns_name_root.
    + intros E ->. apply negb_true_iff, Z.eqb_neq in E. by eapply dns_name_pointers.
  - assert (Hk1 : (1 <= k)%nat) by (inversion Hd; lia). destruct fuel as [|fuel]; [lia|]. cbn [copy_loop].
    rewrite (proj2 (Z.eqb_neq _ 0) Hp). simpl negb. cbv iota. rewrite Hm. cbn [mbind option_bind]. fold (target n m).
    rewrite Hn'. cbn [mbind option_bind]. destruct (Z.eqb_spec n' 0) as [->|Hnz'].
    + destruct (dns_name_root _ _ _ _ _ _ Hd Hn') as [-> _]. simpl. by rewrite app_nil_r.
    + rewrite (IH fuel n') by (done || lia). destruct ls; done.
Qed.

Lemma labels_len_nonneg ls : 0 <= labels_len ls.
Proof. induction ls as [|l ls IH]; simpl; lia. Qed.

(** The result for a name. *)
Definition copied (ls : list (list Z)) (e : bool) : name :=
  match ls with [] => mkName [] 0 | _ => mkName (written ls e) (labels_len ls - 1) end.

Lemma copy_of_name buf src last k ls e :
  (k <= 128)%nat -> dns_name buf last src k ls e ->
  ngx_resolver_copy true buf src last = Some (NGX_OK, Some (copied ls e)).
Proof.
  intros Hk Hd. unfold ngx_resolver_copy. rewrite (scan_complete _ _ _ _ _ _ (-1) Hd 128 Hk). cbn [mbind option_bind negb].
  destruct (dns_name_head _ _ _ _ _ _ Hd) as [n Hn]. destruct ls as [|l ls]; [done|].
  change (labels_len (l :: ls)) with (1 + Z.of_nat (length l) + labels_len ls). pose proof (labels_len_nonneg ls).
  destruct (Z.eqb_spec (-1 + (1 + Z.of_nat (length l) + labels_len ls)) (-1)); [lia|]. rewrite Hn. cbn [mbind option_bind].
  assert (Hnz : n <> 0). { intros ->. by destruct (dns_name_root _ _ _ _ _ _ Hd Hn). }
  rewrite (copy_loop_ok _ _ _ _ _ _ Hd 128 n []) by (done || lia). unfold copied. cbn [mbind option_bind app].
  change (labels_len (l :: ls)) with (1 + Z.of_nat (length l) + labels_len ls). do 4 f_equal. lia.
Qed.

Lemma copied_size ls e :
  Z.of_nat (length (data (copied ls e))) = allocated (copied ls e) + (if e && negb (bool_decide (ls = [])) then 1 else 0).
Proof.
  destruct ls as [|l ls]; [by rewrite bool_decide_true, andb_false_r by done|]. rewrite bool_decide_false, andb_true_r by done.
  cbn [copied data allocated]. unfold written. rewrite length_app, Nat2Z.inj_add, join_length by done. by destruct e.
Qed.

Lemma scan_safe fuel buf last p len : (p < last)%nat -> (last < length buf)%nat -> is_Some (scan fuel buf last p len).
Proof.
  intros Hp Hl. revert p len Hp. induction fuel as [|fuel IH]; intros p len Hp; [by eexists|]. cbn [scan].
  destruct (lookup_lt_is_Some_2 buf p ltac:(lia)) as [n ->]. cbn [mbind option_bind]. destruct (n =? 0); [by eexists|].
  destruct (negb _).
  - destruct (lookup_lt_is_Some_2 buf (S p) ltac:(lia)) as [m ->]. cbn [mbind option_bind]. case_test; [by eexists|].
    apply IH. by apply Nat.leb_gt.
  - cbn [mbind option_bind]. case_test; [by eexists|]. apply IH. by apply Nat.leb_gt.
Qed.

(** ** Theorems *)

(** C18: [ngx_resolver_copy] accepts exactly the names of at most 128 parts whose parts are
    all inside the response, and gives their labels, joined by dots, in lower case.  When
    a name is written, it fits the memory allocated for it, except that one byte more is
    written when compression pointers lead from the last label to the root.  It never reads
    past the byte after the response. *)
Theorem resolver_copy_exact buf src last :
  bytes_ok buf -> (src < last)%nat -> (last < length buf)%nat ->
  exists rc nm, ngx_resolver_copy true buf src last = Some (rc, nm)
    /\ (rc = NGX_OK <-> exists k ls e, (k <= 128)%nat /\ dns_name buf last src k ls e)
    /\ forall k ls e, (k <= 128)%nat -> dns_name buf last src k ls e -> exists n, nm = Some n
         /\ data n = written ls e
         /\ Z.of_nat (length (data n)) = allocated n + (if e && negb (bool_decide (ls = [])) then 1 else 0).
Proof.
  intros Hb Hsrc Hlast. destruct (scan_safe 128 buf last src (-1) Hsrc Hlast) as [[len|] E].
  - destruct (scan_sound 128 buf last src (-1) len Hb (Nat.lt_le_incl _ _ Hlast) E) as (k & ls & e & Hk & Hd & _).
    exists NGX_OK, (Some (copied ls e)). split; [by eapply copy_of_name|]. split; [split; [by eauto|done]|].
    intros k' ls' e' Hk' Hd'. exists (copied ls' e'). pose proof (copy_of_name _ _ _ _ _ _ Hk Hd) as E1.
    rewrite (copy_of_name _ _ _ _ _ _ Hk' Hd') in E1. injection E1 as E1. split; [by rewrite E1|].
    split; [by destruct ls'|apply copied_size].
  - assert (Hno : forall k ls e, (k <= 128)%nat -> ~ dns_name buf last src k ls e).
    { intros k ls e Hk Hd. by rewrite (scan_complete _ _ _ _ _ _ (-1) Hd 128 Hk) in E. }
    exists NGX_ERROR, None. unfold ngx_resolver_copy. rewrite E. split; [done|]. split.
    + split; [done|]. intros (k & ls & e & Hk & Hd). by destruct (Hno k ls e).
    + intros k ls e Hk Hd. by destruct (Hno k ls e).
Qed.

(** A message of a label and a pointer to a root label. *)
Definition dangling : list Z := repeat 0 12 ++ [3; 119; 119; 119; 192; 0; 0; 0].

Lemma resolver_copy_exact_witness :
  exists rc nm, ngx_resolver_copy true dangling 12 18 = Some (rc, nm)
    /\ (rc = NGX_OK <-> exists k ls e, (k <= 128)%nat /\ dns_name dangling 18 12 k ls e).
Proof.
  destruct (resolver_copy_exact dangling 12 18) as (rc & nm & E & Hiff & _).
  - repeat constructor; vm_compute; congruence.
  - lia.
  - simpl. lia.
  - exists rc, nm. split; [exact E|exact Hiff].
Defined.

(** The label of three bytes is written to memory of three bytes, with a dot behind it. *)
Theorem resolver_copy_overflows :
  ngx_resolver_copy true dangling 12 18 = Some (NGX_OK, Some (mkName (lit "www.") 3)).
Proof. vm_compute. reflexivity. Qed.

(** A pointer cut off by the end of the response: its second byte is read from behind it. *)
Theorem resolver_copy_reads_after : ngx_resolver_copy true (repeat 0 12 ++ [192]) 12 13 = None.
Proof. vm_compute. reflexivity. Qed.
End Resolver.
