(* ===== verification/NgxResolverQuery.v ===== *)
(** * The names of queries

    What the queries of src/nginx-1.7.2/src/core/ngx_resolver.c ask for is read back by the
    functions that read the responses. *)

From S2P Require Import Prelude NgxString NgxNumber NgxResolver.
Import Resolver.

Module ResolverQuery.

(** ** Names and labels *)

(** The labels of a name, with dots between them, and as they are in a message. *)
Fixpoint dotted (ls : list (list Z)) : list Z :=
  match ls with
  | [] => []
  | [l] => l
  | l :: ls' => l ++ cDOT :: dotted ls'
  end.

Definition encode (ls : list (list Z)) : list Z := concat (map (fun l => Z.of_nat (length l) :: l) ls) ++ [0].

(** A label of at most [m] bytes. *)
Definition label_ok (m : nat) (l : list Z) : Prop := (1 <= length l <= m)%nat /\ cDOT ∉ l /\ bytes_ok l.

Lemma dotted_snoc ls l : ls <> [] -> dotted (ls ++ [l]) = dotted ls ++ cDOT :: l.
Proof.
  induction ls as [|l1 [|l2 ls] IH]; intros Hne; [done|done|].
  change (dotted ((l1 :: l2 :: ls) ++ [l])) with (l1 ++ cDOT :: dotted ((l2 :: ls) ++ [l])).
  rewrite IH by done. change (dotted (l1 :: l2 :: ls)) with (l1 ++ cDOT :: dotted (l2 :: ls)). by rewrite <- app_assoc.
Qed.

Lemma join_dotted ls : join ls = map ngx_tolower (dotted ls).
Proof.
  induction ls as [|l1 [|l2 ls] IH]; [done|done|].
  change (join (l1 :: l2 :: ls)) with (map ngx_tolower l1 ++ cDOT :: join (l2 :: ls)).
  change (dotted (l1 :: l2 :: ls)) with (l1 ++ cDOT :: dotted (l2 :: ls)). by rewrite map_app, IH.
Qed.

Lemma encode_labels_length ls : ls <> [] -> length (encode ls) = (length (dotted ls) + 2)%nat.
Proof.
  unfold encode. induction ls as [|l1 [|l2 ls] IH]; intros Hne; [done|cbn [map concat dotted]; rewrite app_nil_r, length_app; simpl; lia|].
  change (dotted (l1 :: l2 :: ls)) with (l1 ++ cDOT :: dotted (l2 :: ls)). specialize (IH ltac:(done)).
  cbn [map concat] in *. repeat (rewrite ?length_app in IH; rewrite ?length_app; cbn [length] in *). lia.
Qed.

(** ** Writing *)

Lemma encode_loop_label l rest len enc :
  cDOT ∉ l -> encode_loop (rev l ++ rest) len enc = encode_loop rest (len + Z.of_nat (length l)) (l ++ enc).
Proof.
  revert rest len enc. induction l as [|c l IH] using rev_ind; intros rest len enc Hl; [simpl; f_equal; lia|].
  rewrite rev_app_distr. simpl. assert (c <> cDOT) by (intros ->; apply Hl, elem_of_app; right; by left).
  rewrite (proj2 (Z.eqb_neq c 46)) by done. simpl. rewrite IH by (intros Hc; apply Hl, elem_of_app; by left).
  rewrite length_app, <- app_assoc. simpl. f_equal. lia.
Qed.

(** A label that can be written. *)
Definition label_fits (l : list Z) : bool := (1 <=? length l)%nat && (length l <=? 255)%nat.

Lemma label_fits_test (l : list Z) : ((Z.of_nat (length l) =? 0) || (255 <? Z.of_nat (length l))) = negb (label_fits l).
Proof.
  unfold label_fits. destruct (Z.eqb_spec (Z.of_nat (length l)) 0), (Z.ltb_spec 255 (Z.of_nat (length l))),
    (Nat.leb_spec 1 (length l)), (Nat.leb_spec (length l) 255); simpl; done || lia.
Qed.

Lemma encode_loop_ok ls enc :
  ls <> [] -> Forall (fun l => cDOT ∉ l) ls ->
  encode_loop (rev (dotted ls)) 0 enc =
    if forallb label_fits ls then Some (concat (map (fun l => Z.of_nat (length l) :: l) ls) ++ enc) else None.
Proof.
  revert enc. induction ls as [|l ls IH] using rev_ind; intros enc Hne Hls; [done|].
  apply Forall_app in Hls as [Hls Hl]. rewrite Forall_singleton in Hl. rewrite forallb_app. cbn [forallb]. rewrite andb_true_r.
  assert (Hu : label_fits l = true -> uint 8 (Z.of_nat (length l)) = Z.of_nat (length l)).
  { unfold label_fits. intros [H1 H2]%andb_true_iff. apply Nat.leb_le in H1, H2. apply uint_small. lia. }
  destruct ls as [|l0 ls].
  - cbn [dotted app forallb andb]. rewrite <- (app_nil_r (rev l)), encode_loop_label by done. cbn [encode_loop].
    rewrite Z.add_0_l, label_fits_test. destruct (label_fits l) eqn:E; [|done]. rewrite Hu by done. simpl. by rewrite app_nil_r.
  - rewrite dotted_snoc, rev_app_distr by done. cbn [rev]. rewrite <- app_assoc, encode_loop_label by done. cbn [encode_loop app].
    rewrite Z.add_0_l, label_fits_test. simpl (negb (46 =? 46)). cbv iota. destruct (label_fits l) eqn:E; simpl negb; cbv iota.
    + rewrite andb_true_r, Hu, IH by done. destruct (forallb label_fits (l0 :: ls)); [|done].
      change (l0 :: ls ++ [l]) with ((l0 :: ls) ++ [l]). rewrite map_app, concat_app, <- app_assoc. cbn [map concat]. by rewrite app_nil_r.
    + by rewrite andb_false_r.
Qed.

(** ** Reading *)

Lemma dns_name_encode pre ls post last :
  Forall (fun l => (1 <= length l < 64)%nat) ls -> (length pre + length (encode ls) <= last)%nat ->
  dns_name (pre ++ encode ls ++ post) last (length pre) (S (length ls)) ls false.
Proof.
  intros Hls. revert pre. induction Hls as [|l ls Hl Hls IH]; intros pre Hlast.
  { apply dn_root. rewrite lookup_app_r, Nat.sub_diag by lia. done. }
  unfold encode in Hlast. cbn [map concat] in Hlast. rewrite <- app_assoc in Hlast. fold (encode ls) in Hlast.
  assert (E : encode (l :: ls) = Z.of_nat (length l) :: l ++ encode ls) by (unfold encode; cbn [map concat]; by rewrite <- app_assoc).
  cbn [app length] in Hlast. rewrite length_app in Hlast.
  assert (Hlen : (1 <= length (encode ls))%nat) by (unfold encode; rewrite length_app; simpl; lia).
  rewrite E. cbn [app]. apply (dn_label _ _ _ (Z.of_nat (length l)) l); rewrite ?Nat2Z.id.
  - rewrite lookup_app_r, Nat.sub_diag by lia. done.
  - lia.
  - rewrite drop_app_ge by lia. replace (S (length pre) - length pre)%nat with 1%nat by lia. cbn [drop].
    rewrite drop_0, <- app_assoc. by rewrite take_app_length.
  - done.
  - lia.
  - replace (S (length pre) + length l)%nat with (length (pre ++ Z.of_nat (length l) :: l)) by (rewrite length_app; simpl; lia).
    replace (pre ++ Z.of_nat (length l) :: (l ++ encode ls) ++ post)
      with ((pre ++ Z.of_nat (length l) :: l) ++ encode ls ++ post) by (rewrite <- ?app_assoc; cbn [app]; by rewrite <- ?app_assoc).
    apply IH. rewrite length_app. cbn [length]. lia.
Qed.

(** ** Queries for names *)

(** C20: the query for a name of fewer than 128 labels of 1 to 63 bytes fills the memory
    allocated for it, and its name is read back in lower case by [ngx_resolver_copy], which
    writes no more than it allocated; of all names, exactly those with an empty label or one
    of more than 255 bytes are declined. *)
Theorem name_query_roundtrip ident ls :
  ls <> [] -> Forall (fun l => cDOT ∉ l) ls ->
  (Forall (fun l => (1 <= length l < 64)%nat) ls -> (length ls < 128)%nat ->
     exists q, ngx_resolver_create_name_query ident (dotted ls) = Some q
       /\ length q = (12 + (1 + length (dotted ls) + 1) + 4)%nat
       /\ forall post last, (length q - 4 <= last)%nat ->
            ngx_resolver_copy true (q ++ post) 12 last
              = Some (NGX_OK, Some (mkName (map ngx_tolower (dotted ls)) (Z.of_nat (length (dotted ls))))))
  /\ (ngx_resolver_create_name_query ident (dotted ls) = None <-> Exists (fun l => length l = 0%nat \/ (255 < length l)%nat) ls).
Proof.
  intros Hne Hdot. assert (Hd : dotted ls = [] -> ls = [[]]).
  { destruct ls as [|l [|l2 ls]]; [done|intros E; simpl in E; by subst|]. change (dotted (l :: l2 :: ls)) with (l ++ cDOT :: dotted (l2 :: ls)).
    intros E. by apply app_eq_nil in E as [_ E]. }
  assert (Hq : ngx_resolver_create_name_query ident (dotted ls)
    = if forallb label_fits ls then Some (query_header ident ++ encode ls ++ [0; 1; 0; 1]) else None).
  { unfold ngx_resolver_create_name_query. destruct (dotted ls) as [|c n] eqn:E; [by rewrite (Hd eq_refl)|].
    rewrite <- E, encode_loop_ok by done. by destruct (forallb label_fits ls). }
  rewrite Hq. split.
  - intros Hls Hn. assert (Hf : forallb label_fits ls = true).
    { apply forallb_forall. intros l Hl. apply list_elem_of_In in Hl. rewrite Forall_forall in Hls. specialize (Hls l Hl).
      unfold label_fits. rewrite (proj2 (Nat.leb_le _ _)), (proj2 (Nat.leb_le _ 255)) by lia. done. }
    rewrite Hf. eexists. split; [done|]. pose proof (encode_labels_length ls Hne) as Hel.
    split; [rewrite !length_app, Hel; cbn [length query_header]; lia|]. intros post last Hlast.
    rewrite !length_app in Hlast. cbn [length query_header] in Hlast.
    rewrite (copy_of_name _ _ _ (S (length ls)) ls false); [|lia|].
    + unfold copied. destruct ls as [|l ls]; [done|]. unfold written. rewrite app_nil_r, join_dotted.
      do 3 f_equal. rewrite <- (join_length (l :: ls)), join_dotted, length_map by done. done.
    + rewrite <- !app_assoc. apply (dns_name_encode (query_header ident)); [done|]. cbn [length query_header]. lia.
  - split.
    + destruct (forallb label_fits ls) eqn:E; [done|]. intros _. apply not_true_iff_false in E.
      apply Exists_exists. destruct (decide (Exists (fun l => label_fits l = false) ls)) as [He|He].
      * apply Exists_exists in He as (l & Hl & Hf). exists l. split; [done|]. unfold label_fits in Hf.
        apply andb_false_iff in Hf as [Hf%Nat.leb_gt|Hf%Nat.leb_gt]; lia.
      * destruct E. apply forallb_forall. intros l Hl. apply list_elem_of_In in Hl. destruct (label_fits l) eqn:Hf; [done|].
        destruct He. apply Exists_exists. eauto.
    + intros (l & Hl & Hlen)%Exists_exists. assert (E : forallb label_fits ls = false); [|by rewrite E].
      apply not_true_iff_false. intros Ht. rewrite forallb_forall in Ht. specialize (Ht l (proj1 (list_elem_of_In _ _) Hl)).
      unfold label_fits in Ht. apply andb_true_iff in Ht as [H1%Nat.leb_le H2%Nat.leb_le]. lia.
Qed.

Lemma name_query_roundtrip_witness :
  exists q, ngx_resolver_create_name_query 258 (lit "www.Example.com") = Some q
    /\ ngx_resolver_copy true (q ++ [7]) 12 33 = Some (NGX_OK, Some (mkName (lit "www.example.com") 15)).
Proof.
  destruct (name_query_roundtrip 258 [lit "www"; lit "Example"; lit "com"]) as [H _].
  - discriminate.
  - repeat constructor; intros Hin; vm_compute in Hin; repeat (apply elem_of_cons in Hin as [Hin|Hin]; [discriminate Hin|]); by apply elem_of_nil in Hin.
  - destruct H as (q & E & Hl & Hq).
    + repeat constructor; simpl; lia.
    + simpl. lia.
    + exists q. split; [exact E|]. apply (Hq [7] 33%nat). rewrite Hl. simpl. lia.
Defined.

(** Labels of 64 to 255 bytes are written although a name cannot have them: the length is
    then read as a compression pointer. *)
Theorem name_query_long_label :
  (q ← ngx_resolver_create_name_query 0 (repeat 97 200); Some (q !! 12%nat)) = Some (Some 200)
  /\ (q ← ngx_resolver_create_name_query 0 (repeat 97 200); ngx_resolver_copy true q 12 (length q)) = Some (NGX_ERROR, None).
Proof. split; vm_compute; reflexivity. Qed.

(** ** Queries for addresses *)

Section Addresses.
Context `{Arch}.

(** The text of an octet. *)
Lemma octet_text o room :
  0 <= o < 256 -> 3 <= room ->
  exists ds, ngx_vslprintf room (lit "%ud") [AInt o] = Some (map (fun d => d + c_0) ds)
    /\ (1 <= length ds <= 3)%nat /\ ngx_atoi (map (fun d => d + c_0) ds) = o /\ Forall (fun d => 0 <= d < 10) ds.
Proof.
  intros Ho Hr. destruct (num_digits_dec o ltac:(lia)) as (ds & E & Hd & Hv & Hl & _). exists ds.
  assert (Hl3 : (length ds <= 3)%nat).
  { pose proof (byte_forall (fun o => match num_digits o 0 with Some t => (length t <=? 3)%nat | None => false end)
      ltac:(vm_compute; reflexivity) o ltac:(unfold byte_ok; lia)) as Hb. cbv beta in Hb.
    rewrite E, length_map in Hb. by apply Nat.leb_le in Hb. }
  split_and!; [|lia|lia| |done].
  - eval_lit. rewrite (vslprintf_directive room _ _ [] [] (map (fun d => d + c_0) ds)); [|lia|].
    + rewrite vslprintf_nil. simpl. by rewrite app_nil_r.
    + unfold fmt_directive. cbn -[print_number uint ngx_sprintf_num]. unfold print_number. cbn -[ngx_sprintf_num uint].
      rewrite uint_small, (sprintf_num_fits _ _ _ _ _ _ E) by (rewrite ?length_map; lia).
      rewrite Z2Nat.nonpos by (rewrite length_map; lia). done.
  - unfold ngx_atoi. rewrite atoi_loop_num; [done|pose proof ptr_bits_pos; lia|done|lia|].
    pose proof ptr_pow_31. lia.
Qed.

(** The labels of an address, from its lowest octet on. *)
Definition octets (addr : Z) : list Z := map (fun n => Z.land (Z.shiftr addr n) 255) [0; 8; 16; 24].

Lemma octet_range addr n : 0 <= Z.land (Z.shiftr addr n) 255 < 256.
Proof. change 255 with (2 ^ 8 - 1). rewrite land_low by lia. apply Z.mod_pos_bound. lia. Qed.

(** The texts of octets: they are written as labels, and read back. *)
Definition texts_of (os : list Z) (ts : list (list Z)) : Prop :=
  Forall2 (fun o t => (1 <= length t <= 3)%nat /\ ngx_atoi t = o) os ts.

Definition labels_bytes (ts : list (list Z)) : list Z := concat (map (fun l => Z.of_nat (length l) :: l) ts).

Lemma addr_labels_ok k p addr n :
  0 <= p -> p + 4 * Z.of_nat k + 4 < 2 ^ ptr_bits ->
  exists ts, addr_labels k p addr n = Some (labels_bytes ts)
    /\ texts_of (map (fun i => Z.land (Z.shiftr addr (n + 8 * Z.of_nat i)) 255) (seq 0 k)) ts.
Proof.
  revert p n. induction k as [|k IH]; intros p n Hp Hroom; [exists []; split; [done|constructor]|]. cbn [addr_labels].
  assert (H3 : 3 <= 2 ^ ptr_bits - 1 - (p + 1)) by lia.
  destruct (octet_text (Z.land (Z.shiftr addr n) 255) (2 ^ ptr_bits - 1 - (p + 1)) (octet_range addr n) H3) as (ds & E & Hl & Ha & _).
  unfold ngx_sprintf. rewrite E. cbn [mbind option_bind]. rewrite length_map.
  destruct (IH (p + 1 + Z.of_nat (length ds)) (n + 8)) as (ts & -> & Hts); [lia|lia|]. cbn [mbind option_bind].
  exists (map (fun d => d + c_0) ds :: ts). unfold labels_bytes. cbn [map concat]. rewrite length_map, uint_small by lia. split; [done|].
  cbn [seq map]. constructor; [rewrite length_map, Z.add_0_r; done|]. rewrite <- seq_shift, map_map.
  unfold texts_of in Hts. erewrite map_ext; [exact Hts|]. intros i. cbv beta. do 2 f_equal. lia.
Qed.

(** The value of the octets, each [8] bits above the one before. *)
Fixpoint octets_value (mask : Z) (os : list Z) : Z :=
  match os with
  | [] => 0
  | o :: os' => Z.shiftl o mask + octets_value (mask + 8) os'
  end.

Lemma read_octets_ok os ts pre post mask addr :
  texts_of os ts -> Forall (fun o => 0 <= o < 256) os -> 0 <= mask -> 0 <= addr -> addr + octets_value mask os < 2 ^ 32 ->
  read_octets (length ts) (pre ++ labels_bytes ts ++ post) (length pre) mask addr
    = Some (Some (addr + octets_value mask os, (length pre + length (labels_bytes ts))%nat)).
Proof.
  intros Hts. revert pre mask addr. induction Hts as [|o t os ts [Hl Ha] Hts IH]; intros pre mask addr Hos Hm H0 Hlt.
  { simpl. do 3 f_equal; simpl; lia. }
  inversion Hos as [|? ? Ho Hos']; subst. unfold labels_bytes. cbn [map concat length read_octets]. fold (labels_bytes ts).
  rewrite lookup_app_r, Nat.sub_diag by lia. cbn [app lookup list_lookup mbind option_bind]. rewrite Nat2Z.id.
  rewrite drop_app_ge by lia. replace (S (length pre) - length pre)%nat with 1%nat by lia. cbn [drop].
  rewrite drop_0, <- app_assoc, take_app_length, Nat.ltb_irrefl.
  rewrite (proj2 (Z.eqb_neq _ _)), (proj2 (Z.ltb_ge _ _)) by lia. cbn [orb].
  assert (Hv : 0 <= octets_value (mask + 8) os).
  { clear -Hos' Hm. revert mask Hm. induction Hos' as [|o os Ho Hos IH]; intros mask Hm; simpl; [lia|].
    rewrite Z.shiftl_mul_pow2 by lia. specialize (IH (mask + 8) ltac:(lia)). nia. }
  cbn [octets_value] in Hlt |- *. assert (Hs : 0 <= Z.shiftl (ngx_atoi t) mask) by (apply Z.shiftl_nonneg; lia).
  rewrite uint_small by lia.
  replace (S (length pre) + length t)%nat with (length (pre ++ Z.of_nat (length t) :: t)) by (rewrite length_app; simpl; lia).
  replace (pre ++ Z.of_nat (length t) :: t ++ labels_bytes ts ++ post)
    with ((pre ++ Z.of_nat (length t) :: t) ++ labels_bytes ts ++ post) by (by rewrite <- app_assoc).
  rewrite IH by (done || lia). do 3 f_equal; [lia|]. rewrite !length_app. cbn [length]. rewrite ?length_app. lia.
Qed.

Lemma octets_value_addr addr : 0 <= addr < 2 ^ 32 -> octets_value 0 (octets addr) = addr.
Proof.
  intros Ha. unfold octets. cbn [map octets_value]. change 255 with (2 ^ 8 - 1). rewrite !land_low, !Z.shiftr_div_pow2, !Z.shiftl_mul_pow2 by lia.
  rewrite !Z.add_0_l, Z.add_0_r.
  pose proof (Z.div_mod addr (2 ^ 8)). pose proof (Z.div_mod (addr / 2 ^ 8) (2 ^ 8)). pose proof (Z.div_mod (addr / 2 ^ 8 / 2 ^ 8) (2 ^ 8)).
  replace (addr / 2 ^ 0) with addr by (by rewrite Z.div_1_r).
  replace (addr / 2 ^ 16) with (addr / 2 ^ 8 / 2 ^ 8) by (by rewrite Z.div_div by lia).
  replace (addr / 2 ^ (8 + 8)) with (addr / 2 ^ 8 / 2 ^ 8) by (by rewrite Z.div_div by lia).
  replace (addr / 2 ^ 24) with (addr / 2 ^ 8 / 2 ^ 8 / 2 ^ 8) by (by rewrite !Z.div_div by lia).
  assert (0 <= addr / 2 ^ 8 / 2 ^ 8 / 2 ^ 8 < 2 ^ 8).
  { rewrite !Z.div_div by lia. split; [apply Z.div_pos; lia|]. apply Z.div_lt_upper_bound; [lia|]. simpl. lia. }
  rewrite (Z.mod_small (addr / 2 ^ 8 / 2 ^ 8 / 2 ^ 8)) by lia. lia.
Qed.

(** the query for the name of an IPv4 address fits its memory, and the address is read
    back from it by what reads the responses. *)
Theorem addr_query_roundtrip p ident addr :
  0 <= addr < 2 ^ 32 -> 0 <= p -> p + 46 < 2 ^ ptr_bits ->
  exists q, ngx_resolver_create_addr_query p ident addr = Some q /\ (length q <= 46)%nat
    /\ ptr_address q (length q) = Some (Some addr).
Proof.
  intros Ha Hp Hroom. destruct (addr_labels_ok 4 (p + 12) addr 0) as (ts & E & Hts); [lia|lia|].
  change (map _ (seq 0 4)) with (octets addr) in Hts. unfold ngx_resolver_create_addr_query. rewrite E. cbn [mbind option_bind].
  pose proof (Forall2_length _ _ _ Hts) as Hlt. change (length (octets addr)) with 4%nat in Hlt.
  assert (Hsz : (length (labels_bytes ts) <= 16)%nat /\ Forall (fun l => (1 <= length l < 64)%nat) ts).
  { destruct ts as [|t1 [|t2 [|t3 [|t4 [|]]]]]; simpl in Hlt; try lia. unfold texts_of in Hts.
    repeat match goal with H : Forall2 _ (_ :: _) _ |- _ => apply Forall2_cons in H as [[? _] H] | H : Forall2 _ _ _ |- _ => unfold octets in H; cbn [map] in H end.
    unfold labels_bytes. cbn [map concat]. rewrite ?length_app. cbn [length]. rewrite ?length_app. cbn [length]. split; [lia|]. repeat (apply Forall_cons; split; [lia|]). constructor. }
  destruct Hsz as [Hsz Hsmall].
  assert (Hq : labels_bytes ts ++ in_addr_arpa ++ [0] ++ [0; 12; 0; 1] = encode (ts ++ [lit "in-addr"; lit "arpa"]) ++ [0; 12; 0; 1]).
  { unfold encode, labels_bytes. rewrite map_app, concat_app, <- !app_assoc. done. }
  eexists. split; [done|]. split; [rewrite !length_app; unfold in_addr_arpa; cbn [length query_header app]; change (length (lit "in-addr" ++ 4 :: lit "arpa")) with 12%nat; lia|].
  unfold ptr_address, ngx_resolver_copy. set (q := query_header ident ++ _).
  assert (Hd : dns_name q (length q) 12 (S (length (ts ++ [lit "in-addr"; lit "arpa"]))) (ts ++ [lit "in-addr"; lit "arpa"]) false).
  { unfold q. rewrite Hq. apply (dns_name_encode (query_header ident)).
    - apply Forall_app. split; [done|]. repeat constructor; simpl; lia.
    - rewrite !length_app. lia. }
  rewrite (scan_complete _ _ _ _ _ _ (-1) Hd 128) by (rewrite length_app; simpl; lia). cbn [mbind option_bind negb].
  simpl (negb (0 =? 0)). cbv iota. unfold q.
  assert (Hos : Forall (fun o => 0 <= o < 256) (octets addr)).
  { apply Forall_forall. intros o Ho. unfold octets in Ho. apply list_elem_of_fmap in Ho as (n & -> & _). apply octet_range. }
  pose proof (read_octets_ok (octets addr) ts (query_header ident) (in_addr_arpa ++ [0] ++ [0; 12; 0; 1]) 0 0 Hts Hos) as Er.
  rewrite <- Hlt, octets_value_addr in Er by done. change (length (query_header ident)) with 12%nat in Er.
  rewrite Er by lia. cbn [mbind option_bind]. change 12%nat with (length (query_header ident)).
  rewrite <- length_app, app_assoc, drop_app_length. reflexivity.
Qed.
End Addresses.

Lemma addr_query_roundtrip_witness :
  exists q, @ngx_resolver_create_addr_query ilp32 4096 7 3232235777 = Some q /\ (length q <= 46)%nat
    /\ @ptr_address ilp32 q (length q) = Some (Some 3232235777).
Proof. apply (@addr_query_roundtrip ilp32); [split; [lia|reflexivity]|lia|reflexivity]. Defined.
End ResolverQuery.
