(* ===== verification/HttpRange.v ===== *)
(** * Byte ranges

    The filter of src/nginx-1.7.2/src/http/modules/ngx_http_range_filter_module.c: it
    parses the header Range, announces the part of the response that will be sent, and
    cuts the body, which comes as chains of buffers, to that part. *)

From S2P Require Import Prelude NgxString NgxNumber HttpParseTime.

Module Range.

(** ** Data *)

(** [ngx_http_range_t] *)
Record range := mkRange { start : Z; end_ : Z; content_range : list Z }.

(** [ngx_http_range_filter_ctx_t] *)
Record ctx := mkCtx { offset : Z; boundary_header : list Z; ranges : list range }.

(** The fields of [headers_out] that the filter reads or writes. *)
Record out := mkOut {
  status : Z;
  content_length_n : Z;
  content_type : list Z;
  content_type_len : Z;
  charset : list Z;
  content_range_value : option (list Z);
  accept_ranges : bool
}.

(** The rest of what it reads of the request and of the configuration. *)
Record req := mkReq {
  http_version : Z;
  is_main : bool;
  allow_ranges : bool;
  single_range : bool;
  range_value : option (list Z);
  if_range : option (list Z);
  etag : option (list Z);
  last_modified_time : Z;
  max_ranges : Z
}.

Abbreviation NGX_HTTP_VERSION_10 := 1000 (only parsing).
Abbreviation NGX_HTTP_OK := 200 (only parsing).
Abbreviation NGX_HTTP_PARTIAL_CONTENT := 206 (only parsing).
Abbreviation NGX_HTTP_RANGE_NOT_SATISFIABLE := 416 (only parsing).
Abbreviation NGX_OFF_T_LEN := 20%nat (only parsing).

(** ** Parsing the header *)

(** A pointer [p] into the value is the bytes from it on; reading past them is [None]. *)

(** [while ( *p == ' ') { p++; }] *)
Fixpoint skip_spaces (p : list Z) : option (list Z) :=
  match p with
  | [] => None
  | c :: p' => if c =? cSP then skip_spaces p' else Some p
  end.

(** [while ( *p >= '0' && *p <= '9') { v = v * 10 + *p++ - '0'; }] on an [off_t]. *)
Fixpoint read_number (v : Z) (p : list Z) : option (Z * list Z) :=
  match p with
  | [] => None
  | c :: p' => if c_0 <=? c <=? c_9 then read_number (sint 64 (v * 10 + c - c_0)) p' else Some (v, p)
  end.

(** One range of the header: the return of NGX_HTTP_RANGE_NOT_SATISFIABLE, or the label
    [found] with [start], [end] and [p]. *)
Inductive one := Unsatisfiable | Found (start end_ : Z) (p : list Z).

(** From the digits of [end] on. *)
Definition range_end (content_length start : Z) (suffix : bool) (p : list Z) : option one :=
  match p with
  | [] => None
  | c :: _ =>
      if negb (c_0 <=? c <=? c_9) then Some Unsatisfiable
      else
        '(e, p) ← read_number 0 p;
        p ← skip_spaces p;
        match p with
        | [] => None
        | c :: _ =>
            if negb (c =? cCOMMA) && negb (c =? cNUL) then Some Unsatisfiable
            else
              let '(s, e) := if suffix then (sint 64 (content_length - e), sint 64 (content_length - 1)) else (start, e) in
              Some (Found s (if content_length <=? e then content_length else e + 1) p)
        end
  end.

Definition range_one (content_length : Z) (p : list Z) : option one :=
  p ← skip_spaces p;
  match p with
  | [] => None
  | c :: p' =>
      if negb (c =? cMINUS) then
        if negb (c_0 <=? c <=? c_9) then Some Unsatisfiable
        else
          '(s, p) ← read_number 0 p;
          p ← skip_spaces p;
          match p with
          | [] => None
          | c :: p =>
              if negb (c =? cMINUS) then Some Unsatisfiable
              else
                p ← skip_spaces p;
                match p with
                | [] => None
                | c :: _ =>
                    if (c =? cCOMMA) || (c =? cNUL) then Some (Found s content_length p)
                    else range_end content_length s false p
                end
          end
      else range_end content_length 0 true p'
  end.

Section Code.
Context `{Arch}.

(** The loop; every range takes a byte of [p]. *)
Fixpoint range_loop (fuel : nat) (content_length : Z) (p : list Z) (size limit : Z) (rs : list range) :
    option (Z * list range) :=
  match fuel with
  | O => None
  | S fuel' =>
      o ← range_one content_length p;
      match o with
      | Unsatisfiable => Some (NGX_HTTP_RANGE_NOT_SATISFIABLE, rs)
      | Found s e p =>
          let pushed := s <? e in
          let rs := if pushed then rs ++ [mkRange s e []] else rs in
          let size := if pushed then sint 64 (size + (e - s)) else size in
          if pushed && (limit =? 0) then Some (NGX_DECLINED, rs)
          else
            let limit := if pushed then uint ptr_bits (limit - 1) else limit in
            match p with
            | [] => None
            | c :: p =>
                if c =? cCOMMA then range_loop fuel' content_length p size limit rs
                else
                  Some (match rs with
                        | [] => NGX_HTTP_RANGE_NOT_SATISFIABLE
                        | _ => if content_length <? size then NGX_DECLINED else NGX_OK
                        end, rs)
            end
      end
  end.

(** [value] is the header's value, which a NUL follows.  The result is the return code and
    the ranges pushed. *)
Definition ngx_http_range_parse (value : list Z) (content_length limit : Z) : option (Z * list range) :=
  range_loop (S (length value)) content_length (drop 6 value ++ [cNUL]) 0 limit [].

(** ** The headers *)

(** The address of the [k]-th allocation, of [n] bytes, of the request. *)
Variable pnalloc : nat -> nat -> Z.

Definition CRLF : list Z := [cCR; cLF].

Definition set_content_range (v : list Z) (h : out) : out :=
  mkOut (status h) (content_length_n h) (content_type h) (content_type_len h) (charset h) (Some v) (accept_ranges h).
Definition set_content_length (n : Z) (h : out) : out :=
  mkOut (status h) n (content_type h) (content_type_len h) (charset h) (content_range_value h) (accept_ranges h).
Definition set_status (n : Z) (h : out) : out :=
  mkOut n (content_length_n h) (content_type h) (content_type_len h) (charset h) (content_range_value h) (accept_ranges h).
Definition set_multipart (t : list Z) (h : out) : out :=
  mkOut (status h) (content_length_n h) t (Z.of_nat (length t)) [] (content_range_value h) (accept_ranges h).
Definition set_accept_ranges (h : out) : out :=
  mkOut (status h) (content_length_n h) (content_type h) (content_type_len h) (charset h) (content_range_value h) true.

Definition ngx_http_range_singlepart_header (h : out) (c : ctx) : option out :=
  r ← head (ranges c);
  v ← ngx_sprintf (pnalloc 0 (8 + 3 * NGX_OFF_T_LEN)) (lit "bytes %O-%O/%O")
        [AInt (start r); AInt (end_ r - 1); AInt (content_length_n h)];
  Some (set_content_length (sint 64 (end_ r - start r)) (set_content_range v h)).

Definition NGX_ATOMIC_T_LEN : nat := Z.to_nat NGX_INT_T_LEN.

(** The bytes allocated for the boundary header. *)
Definition boundary_len (h : out) : nat :=
  let len := (4 + NGX_ATOMIC_T_LEN + 16 + length (content_type h) + 23)%nat in
  if (content_type_len h =? Z.of_nat (length (content_type h))) && negb (Z.of_nat (length (charset h)) =? 0)
  then (len + (10 + length (charset h)))%nat else len.

Definition boundary_text (h : out) (boundary : Z) : option (list Z) :=
  let buf := pnalloc 0 (boundary_len h) in
  if (content_type_len h =? Z.of_nat (length (content_type h))) && negb (Z.of_nat (length (charset h)) =? 0) then
    ngx_sprintf buf (CRLF ++ lit "--%0muA" ++ CRLF ++ lit "Content-Type: %V; charset=%V" ++ CRLF ++ lit "Content-Range: bytes ")
      [AInt boundary; AStr (content_type h); AStr (charset h)]
  else if negb (Z.of_nat (length (content_type h)) =? 0) then
    ngx_sprintf buf (CRLF ++ lit "--%0muA" ++ CRLF ++ lit "Content-Type: %V" ++ CRLF ++ lit "Content-Range: bytes ")
      [AInt boundary; AStr (content_type h)]
  else
    ngx_sprintf buf (CRLF ++ lit "--%0muA" ++ CRLF ++ lit "Content-Range: bytes ") [AInt boundary].

(** The loop over the ranges: each gets its text, and [len] the sizes of its part. *)
Fixpoint part_headers (k : nat) (total : Z) (blen : nat) (rs : list range) (len : Z) : option (list range * Z) :=
  match rs with
  | [] => Some ([], len)
  | r :: rs' =>
      t ← ngx_sprintf (pnalloc k (3 * NGX_OFF_T_LEN + 2 + 4)) (lit "%O-%O/%O" ++ CRLF ++ CRLF)
            [AInt (start r); AInt (end_ r - 1); AInt total];
      let len := uint ptr_bits (len + (Z.of_nat blen + Z.of_nat (length t) + uint ptr_bits (end_ r - start r))) in
      '(rs'', len) ← part_headers (S k) total blen rs' len;
      Some (mkRange (start r) (end_ r) t :: rs'', len)
  end.

(** [boundary] is what [ngx_next_temp_number] returns. *)
Definition ngx_http_range_multipart_header (boundary : Z) (h : out) (c : ctx) : option (out * ctx) :=
  bh ← boundary_text h boundary;
  t ← ngx_sprintf (pnalloc 1 (45 + NGX_ATOMIC_T_LEN)) (lit "multipart/byteranges; boundary=%0muA") [AInt boundary];
  let len := Z.of_nat (4 + NGX_ATOMIC_T_LEN + 4) in
  '(rs, len) ← part_headers 2 (content_length_n h) (length bh) (ranges c) len;
  Some (set_content_length (sint 64 len) (set_multipart t h), mkCtx (offset c) bh rs).

Definition ngx_http_range_not_satisfiable (h : out) : option out :=
  v ← ngx_sprintf (pnalloc 0 (8 + NGX_OFF_T_LEN)) (lit "bytes */%O") [AInt (content_length_n h)];
  Some (set_content_length (-1) (set_content_range v (set_status NGX_HTTP_RANGE_NOT_SATISFIABLE h))).

(** [ngx_strncmp(s1, s2, n) == 0] of two strings of [n] bytes. *)
Fixpoint same_bytes (s1 s2 : list Z) : bool :=
  match s1, s2 with
  | a :: s1', b :: s2' => (a =? b) && ((a =? 0) || same_bytes s1' s2')
  | _, _ => true
  end.

(** The header If-Range lets the ranges through.  [None] is a read outside it. *)
Definition if_range_passes (r : req) : option bool :=
  match if_range r with
  | None => Some true
  | Some v =>
      if (2 <=? length v)%nat && match last v with Some c => c =? cQUOT | None => false end then
        Some match etag r with
             | None => false
             | Some e => (length v =? length e)%nat && same_bytes v e
             end
      else if last_modified_time r =? -1 then Some false
      else t ← ParseTime.ngx_http_parse_time v; Some (t =? last_modified_time r)
  end.

(** What the filter does with the response: the next header filter with or without a
    context for the body filter, or the return of 416. *)
Inductive verdict :=
  | Next (h : out) (c : option ctx)
  | NotSatisfiable (h : out).

Definition ngx_http_range_header_filter (boundary : Z) (r : req) (h : out) : option verdict :=
  if (http_version r <? NGX_HTTP_VERSION_10) || negb (status h =? NGX_HTTP_OK) || negb (is_main r)
     || (content_length_n h =? -1) || negb (allow_ranges r) || (max_ranges r =? 0)
  then Some (Next h None)
  else
    let next_filter := Some (Next (set_accept_ranges h) None) in
    match range_value r with
    | None => next_filter
    | Some v =>
        if (length v <? 7)%nat then next_filter
        else
          d ← ngx_strncasecmp v (lit "bytes=") 6;
          if negb (d =? 0) then next_filter
          else
            ok ← if_range_passes r;
            if negb ok then next_filter
            else
              '(rc, rs) ← ngx_http_range_parse v (content_length_n h) (if single_range r then 1 else max_ranges r);
              let c := mkCtx 0 [] rs in
              if rc =? NGX_OK then
                let h := set_status NGX_HTTP_PARTIAL_CONTENT h in
                if (length rs =? 1)%nat then h ← ngx_http_range_singlepart_header h c; Some (Next h (Some c))
                else '(h, c) ← ngx_http_range_multipart_header boundary h c; Some (Next h (Some c))
              else if rc =? NGX_HTTP_RANGE_NOT_SATISFIABLE then
                h ← ngx_http_range_not_satisfiable h; Some (NotSatisfiable h)
              else next_filter
    end.
End Code.

(** ** The body *)

(** [ngx_buf_t]: a buffer in memory has [pos] and [last] inside [mem], one in a file has
    [file_pos] and [file_last] inside the file. *)
Record buf := mkBuf {
  in_memory : bool;
  mem : list Z;
  pos : Z;
  last_ : Z;
  in_file : bool;
  file_pos : Z;
  file_last : Z;
  flush : bool;
  sync : bool;
  last_buf : bool
}.

Definition ngx_buf_special (b : buf) : bool :=
  (flush b || last_buf b || sync b) && negb (in_memory b) && negb (in_file b).

Definition ngx_buf_size (b : buf) : Z :=
  if in_memory b then last_ b - pos b else file_last b - file_pos b.

Definition set_mem (p l : Z) (b : buf) : buf :=
  mkBuf (in_memory b) (mem b) p l (in_file b) (file_pos b) (file_last b) (flush b) (sync b) (last_buf b).
Definition set_file (p l : Z) (b : buf) : buf :=
  mkBuf (in_memory b) (mem b) (pos b) (last_ b) (in_file b) p l (flush b) (sync b) (last_buf b).
Definition set_sync (b : buf) : buf :=
  mkBuf (in_memory b) (mem b) (pos b) (last_ b) (in_file b) (file_pos b) (file_last b) (flush b) true (last_buf b).
Definition set_last_buf (b : buf) : buf :=
  mkBuf (in_memory b) (mem b) (pos b) (last_ b) (in_file b) (file_pos b) (file_last b) (flush b) (sync b) true.

(** A buffer before or after the range. *)
Definition skip_buf (b : buf) : buf :=
  let b := if in_file b then set_file (file_last b) (file_last b) b else b in
  set_sync (set_mem (last_ b) (last_ b) b).

(** [n] bytes less at its beginning, or at its end. *)
Definition trim_start (n : Z) (b : buf) : buf :=
  let b := if in_file b then set_file (file_pos b + n) (file_last b) b else b in
  if in_memory b then set_mem (pos b + n) (last_ b) b else b.
Definition trim_end (n : Z) (b : buf) : buf :=
  let b := if in_file b then set_file (file_pos b) (file_last b - n) b else b in
  if in_memory b then set_mem (pos b) (last_ b - n) b else b.

(** A link put behind the last one of [out]: it is followed by what is linked next, or when
    nothing more is, by the rest of the chain as it came. *)
Definition link_buf (b : buf) (out : option (list buf)) (rest : list buf) : option (list buf) :=
  Some (b :: default rest out).

(** The loop of the single part: the new [ctx->offset], the chain that [ll] is set to, if
    it is, and the buffers that are left in the links that came. *)
Fixpoint singlepart_loop (r : range) (off : Z) (cl : list buf) : Z * option (list buf) * list buf :=
  match cl with
  | [] => (off, None, [])
  | b :: cl' =>
      let start_ := off in
      let last := sint 64 (off + ngx_buf_size b) in
      if ngx_buf_special b then
        let '(off, o, i) := singlepart_loop r last cl' in (off, link_buf b o i, b :: i)
      else if (end_ r <=? start_) || (last <=? start r) then
        let b := skip_buf b in
        let '(off, o, i) := singlepart_loop r last cl' in (off, o, b :: i)
      else
        let b := if start_ <? start r then trim_start (start r - start_) b else b in
        if end_ r <=? last then
          let b := set_last_buf (trim_end (last - end_ r) b) in (last, Some [b], [b])
        else
          let '(off, o, i) := singlepart_loop r last cl' in (off, link_buf b o i, b :: i)
  end.

(** The chain given to the next filter; nothing is when it is empty. *)
Definition ngx_http_range_singlepart_body (c : ctx) (cl : list buf) : option (ctx * list buf) :=
  r ← head (ranges c);
  let '(off, o, _) := singlepart_loop r (offset c) cl in
  Some (mkCtx off (boundary_header c) (ranges c), default [] o).

(** [None] is NGX_ERROR. *)
Definition ngx_http_range_test_overlapped (c : ctx) (b : buf) : option ctx :=
  if negb (offset c =? 0) then None
  else if negb (last_buf b)
          && existsb (fun r => (start r <? offset c) || (sint 64 (offset c + ngx_buf_size b) <? end_ r))%Z (ranges c)
  then None
  else Some (mkCtx (ngx_buf_size b) (boundary_header c) (ranges c)).

(** A buffer over a text. *)
Definition text_buf (t : list Z) : buf := mkBuf true t 0 (Z.of_nat (length t)) false 0 0 false false false.

Section Multipart.
Context `{Arch}.

(** The three buffers of a part. *)
Definition part_bufs (b : buf) (bh : list Z) (r : range) : list buf :=
  let d := mkBuf (in_memory b) (mem b)
             (if in_memory b then pos b + uint ptr_bits (start r) else 0)
             (if in_memory b then pos b + uint ptr_bits (end_ r) else 0)
             (in_file b)
             (if in_file b then file_pos b + start r else 0)
             (if in_file b then file_pos b + end_ r else 0) false false false in
  [text_buf bh; text_buf (content_range r); d].

Definition ngx_http_range_multipart_body (c : ctx) (b : buf) : list buf :=
  concat (map (part_bufs b (boundary_header c)) (ranges c))
  ++ [set_last_buf (text_buf (take (4 + NGX_ATOMIC_T_LEN) (boundary_header c) ++ lit "--" ++ CRLF))].

(** The chain given to the next filter; [None] is NGX_ERROR. *)
Definition ngx_http_range_body_filter (c : option ctx) (cl : list buf) : option (option ctx * list buf) :=
  match cl, c with
  | [], _ | _, None => Some (c, cl)
  | b :: _, Some c =>
      if (length (ranges c) =? 1)%nat then
        '(c, o) ← ngx_http_range_singlepart_body c cl; Some (Some c, o)
      else if ngx_buf_special b then Some (Some c, cl)
      else c ← ngx_http_range_test_overlapped c b; Some (Some c, ngx_http_range_multipart_body c b)
  end.
End Multipart.
End Range.
