(* ===== verification/HttpRangeParse.v ===== *)
(** * The header Range

    The grammar of byte ranges and the proof that [ngx_http_range_parse] reads it, as long
    as its integers do not overflow; two examples where they do. *)

From S2P Require Import Prelude NgxNumber HttpRange.
Import Range.

Module RangeParse.

(** ** The grammar *)

(** A range of the header: spaces, and numbers as lists of digits. *)
Inductive item :=
  | FromTo (s1 : nat) (a : list Z) (s2 s3 : nat) (b : list Z) (s4 : nat)
  | From (s1 : nat) (a : list Z) (s2 s3 : nat)
  | Suffix (s1 : nat) (n : list Z) (s2 : nat).

Definition spaces (n : nat) : list Z := replicate n cSP.
Definition digits (ds : list Z) : list Z := map (fun d => d + c_0) ds.

Definition item_bytes (it : item) : list Z :=
  match it with
  | FromTo s1 a s2 s3 b s4 => spaces s1 ++ digits a ++ spaces s2 ++ cMINUS :: spaces s3 ++ digits b ++ spaces s4
  | From s1 a s2 s3 => spaces s1 ++ digits a ++ spaces s2 ++ cMINUS :: spaces s3
  | Suffix s1 n s2 => spaces s1 ++ cMINUS :: digits n ++ spaces s2
  end.

(** A number that an [off_t] holds. *)
Definition number_ok (ds : list Z) : Prop :=
  ds <> [] /\ Forall (fun d => 0 <= d < 10) ds /\ num_value 10 ds < 2 ^ 63.

Definition item_ok (it : item) : Prop :=
  match it with
  | FromTo _ a _ _ b _ => number_ok a /\ number_ok b
  | From _ a _ _ => number_ok a
  | Suffix _ n _ => number_ok n
  end.

(** The value of the header. *)
Definition more_bytes (its : list item) : list Z := concat (map (fun it => cCOMMA :: item_bytes it) its).
Definition header_value (it : item) (its : list item) : list Z := lit "bytes=" ++ item_bytes it ++ more_bytes its.

(** ** What the ranges mean *)

(** The first byte and the byte after the last, of a content of [len] bytes. *)
Definition resolve (len : Z) (it : item) : range :=
  match it with
  | FromTo _ a _ _ b _ => mkRange (num_value 10 a) (Z.min len (num_value 10 b + 1)) []
  | From _ a _ _ => mkRange (num_value 10 a) len []
  | Suffix _ n _ => mkRange (len - num_value 10 n) len []
  end.

Definition nonempty (r : range) : bool := start r <? end_ r.

Definition resolved (len : Z) (its : list item) : list range := List.filter nonempty (map (resolve len) its).

Definition total (rs : list range) : Z := foldr (fun r n => end_ r - start r + n) 0 rs.

(** The answer, and the ranges pushed, for at most [limit] ranges. *)
Definition answer (len limit : Z) (rs : list range) : Z * list range :=
  if limit <? Z.of_nat (length rs) then (NGX_DECLINED, take (S (Z.to_nat limit)) rs)
  else
    (match rs with
     | [] => NGX_HTTP_RANGE_NOT_SATISFIABLE
     | _ => if len <? total rs then NGX_DECLINED else NGX_OK
     end, rs).

(** ** Reading it *)

Lemma skip_range_spaces n p c : c <> cSP -> skip_spaces (spaces n ++ c :: p) = Some (c :: p).
Proof.
  intros Hc. induction n as [|n IH]; simpl; [|done]. by rewrite (proj2 (Z.eqb_neq c 32)).
Qed.

Lemma read_number_digits ds v c p :
  Forall (fun d => 0 <= d < 10) ds -> 0 <= v -> fold_left (fun v d => v * 10 + d) ds v < 2 ^ 63 ->
  ~ (c_0 <= c <= c_9) ->
  read_number v (digits ds ++ c :: p) = Some (fold_left (fun v d => v * 10 + d) ds v, c :: p).
Proof.
  intros Hd Hv Hlt Hc. revert v Hv Hlt. induction Hd as [|d ds Hd Hds IH]; intros v Hv Hlt; simpl.
  { destruct (Z.leb_spec c_0 c), (Z.leb_spec c c_9); (done || lia). }
  rewrite (proj2 (Z.leb_le _ _)), (proj2 (Z.leb_le _ c_9)) by lia. simpl. simpl in Hlt.
  replace (v * 10 + (d + 48) - 48) with (v * 10 + d) by lia.
  assert (v * 10 + d <= fold_left (fun v d => v * 10 + d) ds (v * 10 + d)).
  { rewrite num_value_acc. pose proof (num_value_range 10 ds ltac:(lia) Hds).
    assert (1 <= 10 ^ Z.of_nat (length ds)) by (apply (Z.pow_le_mono_r 10 0); lia). nia. }
  rewrite sint_small by lia. apply IH; [lia|done].
Qed.

Lemma read_number_ok ds n c p :
  number_ok ds -> ~ (c_0 <= c <= c_9) ->
  read_number 0 (digits ds ++ spaces n ++ c :: p) = Some (num_value 10 ds, spaces n ++ c :: p).
Proof.
  intros (Hne & Hd & Hlt) Hc.
  assert (E : exists c' p', spaces n ++ c :: p = c' :: p' /\ ~ (c_0 <= c' <= c_9)).
  { destruct n; simpl; eexists _, _; (split; [done|]); (done || lia). }
  destruct E as (c' & p' & E & Hc'). by rewrite E, read_number_digits by (done || lia).
Qed.

Lemma number_head ds : number_ok ds -> exists d q, digits ds = d :: q /\ c_0 <= d <= c_9.
Proof.
  intros (Hne & Hd & _). destruct ds as [|d ds]; [done|]. inversion Hd; subst. eexists _, _. split; [done|]. lia.
Qed.

Lemma digit_test d : c_0 <= d <= c_9 -> (c_0 <=? d <=? c_9) = true.
Proof. intros Hd. by rewrite (proj2 (Z.leb_le _ _)), (proj2 (Z.leb_le _ c_9)) by lia. Qed.

(** The end of an item: a comma or the NUL. *)
Definition ends (c : Z) : Prop := c = cCOMMA \/ c = cNUL.

Lemma ends_test c : ends c -> (c =? cCOMMA) || (c =? cNUL) = true /\ c <> cSP /\ ~ (c_0 <= c <= c_9).
Proof. intros [-> | ->]; (split; [done|lia]). Qed.

Lemma range_end_ok len s (suffix : bool) n k c p :
  number_ok n -> ends c ->
  range_end len s suffix (digits n ++ spaces k ++ c :: p) =
    let '(s, e) := if suffix then (sint 64 (len - num_value 10 n), sint 64 (len - 1)) else (s, num_value 10 n) in
    Some (Found s (if len <=? e then len else e + 1) (c :: p)).
Proof.
  intros Hn Hc. destruct (ends_test c Hc) as (Ht & Hsp & Hnd). destruct (number_head n Hn) as (d & q & E & Hd).
  unfold range_end. rewrite E at 1. cbn [app]. rewrite (digit_test d Hd). simpl negb. cbv iota.
  rewrite read_number_ok by done. cbn [mbind option_bind]. rewrite skip_range_spaces by done. cbn [mbind option_bind].
  rewrite <- negb_orb, Ht. done.
Qed.

Lemma skip_to_digits n ds rest : number_ok ds -> skip_spaces (spaces n ++ digits ds ++ rest) = Some (digits ds ++ rest).
Proof. intros Hn. destruct (number_head ds Hn) as (d & q & -> & Hd). cbn [app]. apply skip_range_spaces. lia. Qed.

(** The test of the byte that begins a number. *)
Lemma digits_match {A} ds rest (x y : A) (f : Z -> list Z -> A) :
  number_ok ds -> (forall d q, c_0 <= d <= c_9 -> f d q = y) ->
  match digits ds ++ rest with [] => x | c :: p => f c p end = y.
Proof. intros Hn Hf. destruct (number_head ds Hn) as (d & q & E & Hd). rewrite E. by apply Hf. Qed.

Lemma range_one_ok len it c p :
  item_ok it -> 0 <= len < 2 ^ 63 -> ends c ->
  range_one len (item_bytes it ++ c :: p) = Some (Found (start (resolve len it)) (end_ (resolve len it)) (c :: p)).
Proof.
  intros Hok Hlen Hc. destruct (ends_test c Hc) as (Ht & Hsp & Hnd).
  destruct it as [s1 a s2 s3 b s4|s1 a s2 s3|s1 n s2]; simpl in Hok; unfold item_bytes, range_one;
    repeat (rewrite <- app_assoc || rewrite <- app_comm_cons).
  - destruct Hok as [Ha Hb]. rewrite skip_to_digits by done. cbn [mbind option_bind].
    apply (digits_match a); [done..|]. intros d q Hd. rewrite (proj2 (Z.eqb_neq d 45)), (digit_test d Hd) by lia. simpl negb. cbv iota.
    rewrite read_number_ok by (done || lia). cbn [mbind option_bind]. rewrite skip_range_spaces by lia. cbn [mbind option_bind].
    simpl negb. cbv iota. rewrite skip_to_digits by done. cbn [mbind option_bind].
    apply (digits_match b); [done..|]. intros d2 q2 Hd2. rewrite (proj2 (Z.eqb_neq d2 44)), (proj2 (Z.eqb_neq d2 0)) by lia. simpl orb. cbv iota.
    rewrite range_end_ok by done. simpl. do 2 f_equal. destruct (Z.leb_spec len (num_value 10 b)); lia.
  - rewrite skip_to_digits by done. cbn [mbind option_bind].
    apply (digits_match a); [done..|]. intros d q Hd. rewrite (proj2 (Z.eqb_neq d 45)), (digit_test d Hd) by lia. simpl negb. cbv iota.
    rewrite read_number_ok by (done || lia). cbn [mbind option_bind]. rewrite skip_range_spaces by lia. cbn [mbind option_bind].
    simpl negb. cbv iota. rewrite skip_range_spaces by done. cbn [mbind option_bind]. rewrite Ht. done.
  - rewrite skip_range_spaces by lia. cbn [mbind option_bind]. simpl negb. cbv iota. rewrite range_end_ok by done. simpl.
    destruct Hok as (_ & Hd & Hlt). pose proof (num_value_range 10 n ltac:(lia) Hd).
    rewrite !sint_small by lia. do 2 f_equal. destruct (Z.leb_spec len (len - 1)); lia.
Qed.

Lemma total_app rs rs' : total (rs ++ rs') = total rs + total rs'.
Proof. induction rs as [|r rs IH]; simpl; [lia|]. rewrite IH. lia. Qed.

Lemma total_nonneg len its : 0 <= total (resolved len its).
Proof.
  unfold resolved. induction its as [|it its IH]; [simpl; lia|]. cbn [map List.filter].
  destruct (nonempty (resolve len it)) eqn:E; [|done]. cbn [total foldr]. apply Z.ltb_lt in E. fold (total (List.filter nonempty (map (resolve len) its))). lia.
Qed.

(** The answer of the loop that has pushed [rs] so far. *)
Definition answer_from (len limit : Z) (rs rs' : list range) : Z * list range :=
  if limit <? Z.of_nat (length rs') then (NGX_DECLINED, rs ++ take (S (Z.to_nat limit)) rs')
  else
    (match rs ++ rs' with
     | [] => NGX_HTTP_RANGE_NOT_SATISFIABLE
     | _ => if len <? total (rs ++ rs') then NGX_DECLINED else NGX_OK
     end, rs ++ rs').

Lemma resolve_text len it : mkRange (start (resolve len it)) (end_ (resolve len it)) [] = resolve len it.
Proof. by destruct it. Qed.

Lemma range_loop_ok `{Arch} fuel len it its limit rs :
  0 <= len < 2 ^ 63 -> item_ok it -> Forall item_ok its -> 0 <= limit < 2 ^ ptr_bits -> 0 <= total rs ->
  total rs + total (resolved len (it :: its)) < 2 ^ 63 -> (length its < fuel)%nat ->
  range_loop fuel len (item_bytes it ++ more_bytes its ++ [cNUL]) (total rs) limit rs
    = Some (answer_from len limit rs (resolved len (it :: its))).
Proof.
  intros Hlen. revert it its limit rs. induction fuel as [|fuel IH]; intros it its limit rs Hit Hits Hlim Hrs Hsum Hfuel; [lia|].
  assert (Hends : exists c p, more_bytes its ++ [cNUL] = c :: p /\ ends c).
  { destruct its as [|it' its]; simpl; eexists _, _; (split; [done|]); unfold ends; auto. }
  destruct Hends as (c & p & Ec & Hc). cbn [range_loop]. rewrite Ec, range_one_ok by done. cbn [mbind option_bind].
  rewrite resolve_text. set (r := resolve len it) in *. change (start r <? end_ r) with (nonempty r).
  assert (Hres : resolved len (it :: its) = if nonempty r then r :: resolved len its else resolved len its) by done.
  rewrite Hres in Hsum |- *. pose proof (total_nonneg len its) as Hnn.
  assert (Hcont : forall limit1 rs1, 0 <= limit1 < 2 ^ ptr_bits -> 0 <= total rs1 -> total rs1 + total (resolved len its) < 2 ^ 63 ->
    (if c =? cCOMMA then range_loop fuel len p (total rs1) limit1 rs1
     else Some (match rs1 with
                | [] => NGX_HTTP_RANGE_NOT_SATISFIABLE
                | _ => if len <? total rs1 then NGX_DECLINED else NGX_OK
                end, rs1)) = Some (answer_from len limit1 rs1 (resolved len its))).
  { intros limit1 rs1 Hl1 Hr1 Hs1. destruct its as [|it' its]; simpl in Ec; injection Ec as <- <-; simpl (_ =? _); cbv iota.
    - unfold answer_from. change (resolved len []) with (@nil range). rewrite !app_nil_r. destruct (Z.ltb_spec limit1 (Z.of_nat (@length range []))) as [Hlt|_]; [simpl in Hlt; lia|done].
    - inversion Hits; subst. rewrite <- app_assoc. apply IH; try done. simpl in Hfuel. lia. }
  destruct (nonempty r) eqn:Hr; simpl andb.
  - change (total (r :: resolved len its)) with (end_ r - start r + total (resolved len its)) in Hsum. pose proof Hr as Hr'. apply Z.ltb_lt in Hr'.
    assert (Hsize : total (rs ++ [r]) = total rs + (end_ r - start r)) by (rewrite total_app; simpl; lia).
    rewrite (sint_small 64) by (change (2 ^ (64 - 1)) with (2 ^ 63); lia). destruct (Z.eqb_spec limit 0) as [->|Hl0].
    { unfold answer_from. cbn [length]. rewrite (proj2 (Z.ltb_lt _ _)) by lia. done. }
    rewrite uint_small, <- Hsize by lia. rewrite Hcont by lia. unfold answer_from. rewrite <- !app_assoc. cbn [app length]. f_equal.
    destruct (Z.ltb_spec (limit - 1) (Z.of_nat (length (resolved len its)))), (Z.ltb_spec limit (Z.of_nat (S (length (resolved len its)))));
      try lia; [|done]. do 3 f_equal. replace (Z.to_nat limit) with (S (Z.to_nat (limit - 1))) by lia. done.
  - apply Hcont; lia.
Qed.

Lemma total_elem len its r : r ∈ resolved len its -> end_ r - start r <= total (resolved len its).
Proof.
  unfold resolved. induction its as [|it its IH]; [by intros ?%elem_of_nil|]. cbn [map List.filter].
  pose proof (total_nonneg len its) as Hn. unfold resolved in Hn.
  destruct (nonempty (resolve len it)) eqn:E; [|done]. apply Z.ltb_lt in E.
  change (total (?r :: ?l)) with (end_ r - start r + total l). intros [->|Hr]%elem_of_cons; [lia|]. specialize (IH Hr). lia.
Qed.

(** Ranges whose sizes add up to no more than the content are inside it. *)
Lemma resolved_inside len its :
  0 <= len -> Forall item_ok its -> total (resolved len its) <= len ->
  Forall (fun r => 0 <= start r < end_ r /\ end_ r <= len) (resolved len its).
Proof.
  intros Hlen Hok Ht. apply Forall_forall. intros r Hr. pose proof (total_elem len its r Hr) as Hle.
  apply list_elem_of_In, filter_In in Hr as [Hin Hne]. apply Z.ltb_lt in Hne.
  apply in_map_iff in Hin as (it & <- & Hit). apply list_elem_of_In in Hit. rewrite Forall_forall in Hok. specialize (Hok it Hit).
  assert (Hnum : forall ds, number_ok ds -> 0 <= num_value 10 ds).
  { intros ds (_ & Hd & _). apply (num_value_range 10 ds ltac:(lia) Hd). }
  destruct it as [? a ? ? b ?|? a ? ?|? n ?]; simpl in *; [destruct Hok as [Ha Hb]|..]; repeat match goal with H : number_ok _ |- _ => apply Hnum in H end; lia.
Qed.

Lemma items_fuel its : (length its <= length (more_bytes its))%nat.
Proof. induction its as [|it its IH]; simpl; [lia|]. rewrite length_app. unfold more_bytes in IH. lia. Qed.

(** ** Theorems *)

(** C19: a header of byte ranges is read as its grammar says, with any spaces and leading
    zeros.  The ranges that do not select a byte are dropped; more than [limit] of them, or
    more bytes than the content has, are declined; none left is not satisfiable; and when
    the answer is NGX_OK every range is inside the content.  The numbers, and the sum of the
    sizes, are below 2^63. *)
Theorem range_parse_exact `{Arch} len limit it its :
  0 <= len < 2 ^ 63 -> 0 <= limit < 2 ^ ptr_bits -> Forall item_ok (it :: its) ->
  total (resolved len (it :: its)) < 2 ^ 63 ->
  ngx_http_range_parse (header_value it its) len limit = Some (answer len limit (resolved len (it :: its)))
  /\ (fst (answer len limit (resolved len (it :: its))) = NGX_OK ->
      Forall (fun r => 0 <= start r < end_ r /\ end_ r <= len) (resolved len (it :: its))).
Proof.
  intros Hlen Hlim Hok Ht. inversion Hok; subst. split.
  - unfold ngx_http_range_parse, header_value. rewrite drop_app_ge by done. change (6 - length (lit "bytes="))%nat with 0%nat.
    rewrite drop_0, <- app_assoc.
    refine (range_loop_ok _ len it its limit [] _ _ _ _ _ _ _); try done.
    rewrite !length_app. pose proof (items_fuel its). lia.
  - unfold answer. destruct (_ <? _); [done|]. simpl. destruct (resolved len (it :: its)) as [|r rs] eqn:E; [done|]. rewrite <- E in *.
    destruct (Z.ltb_spec len (total (resolved len (it :: its)))); [done|]. intros _. apply resolved_inside; [lia|done|done].
Qed.

Lemma range_parse_exact_witness :
  @ngx_http_range_parse ilp32 (lit "bytes=0-4, 07 - 99,-3") 10 5
    = Some (NGX_DECLINED, [mkRange 0 5 []; mkRange 7 10 []; mkRange 7 10 []]).
Proof.
  refine (proj1 (@range_parse_exact ilp32 10 5 (FromTo 0 [0] 0 0 [4] 0) [FromTo 1 [0; 7] 1 1 [9; 9] 0; Suffix 0 [3] 0] _ _ _ _)).
  - split; [lia|reflexivity].
  - split; [lia|reflexivity].
  - repeat constructor; vm_compute; try congruence; intros; discriminate.
  - reflexivity.
Defined.

(** A number above 2^64 wraps around: the range begins before the content and is accepted
    (the sum of the sizes, 622 and 2, is less than the 1000 bytes of the content). *)
Theorem range_start_wraps :
  @ngx_http_range_parse lp64 (lit "bytes=18446744073709551000-5,7-8") 1000 5
    = Some (NGX_OK, [mkRange (-616) 6 []; mkRange 7 9 []]).
Proof. vm_compute. reflexivity. Qed.

(** The sum of the sizes wraps around as well: two ranges far longer than the content. *)
Theorem range_size_wraps :
  @ngx_http_range_parse lp64 (lit "bytes=-9223372036854775800,-9223372036854774816") 1000 5
    = Some (NGX_OK, [mkRange (-9223372036854774800) 1000 []; mkRange (-9223372036854773816) 1000 []]).
Proof. vm_compute. reflexivity. Qed.
End RangeParse.
