(* ===== verification/HttpRangeBody.v ===== *)
(** * The bodies of partial responses

    The filter sends what the header Range asked for, however the body is cut into buffers
    and chains, and exactly as many bytes as Content-Length announces. *)

From S2P Require Import Prelude NgxString NgxNumber HttpRange HttpRangeParse.
Import Range RangeParse.

Module RangeBody.

(** ** The bytes of buffers *)

(** The bytes [a] to [b] of [l]. *)
Definition cut (l : list Z) (a b : Z) : list Z := take (Z.to_nat (b - a)) (drop (Z.to_nat a) l).

Lemma cut_length l a b : 0 <= a <= b -> b <= Z.of_nat (length l) -> Z.of_nat (length (cut l a b)) = b - a.
Proof. intros Ha Hb. unfold cut. rewrite length_take, length_drop. lia. Qed.

Lemma cut_start l a b n : 0 <= a -> 0 <= n -> cut l (a + n) b = drop (Z.to_nat n) (cut l a b).
Proof.
  intros Ha Hn. unfold cut. rewrite skipn_firstn_comm, drop_drop. f_equal; [lia|]. f_equal. lia.
Qed.

Lemma cut_end l a b n : 0 <= n -> cut l a (b - n) = take (Z.to_nat (b - a - n)) (cut l a b).
Proof. intros Hn. unfold cut. rewrite take_take. f_equal. lia. Qed.

Section Content.
(** The file that the buffers are of. *)
Variable file : list Z.

Definition content (b : buf) : list Z :=
  if in_memory b then cut (mem b) (pos b) (last_ b)
  else if in_file b then cut file (file_pos b) (file_last b)
  else [].

Definition contents (bs : list buf) : list Z := concat (map content bs).

(** The pointers of a buffer are inside its memory and its file, which hold the same bytes
    if it has both. *)
Record buf_ok (b : buf) : Prop := {
  ok_mem : in_memory b = true -> 0 <= pos b <= last_ b /\ last_ b <= Z.of_nat (length (mem b));
  ok_file : in_file b = true -> 0 <= file_pos b <= file_last b /\ file_last b <= Z.of_nat (length file);
  ok_both : in_memory b = true -> in_file b = true ->
              cut (mem b) (pos b) (last_ b) = cut file (file_pos b) (file_last b);
  ok_none : in_memory b = false -> in_file b = false -> file_pos b = file_last b
}.

Lemma size_content b : buf_ok b -> ngx_buf_size b = Z.of_nat (length (content b)).
Proof.
  intros [Hm Hf _ Hn]. unfold ngx_buf_size, content. destruct (in_memory b); [specialize (Hm eq_refl); rewrite cut_length; lia|].
  destruct (in_file b); [specialize (Hf eq_refl); rewrite cut_length; lia|]. rewrite (Hn eq_refl eq_refl). simpl. lia.
Qed.

(** Both copies of a buffer have the same size. *)
Lemma both_size b : buf_ok b -> in_memory b = true -> in_file b = true -> last_ b - pos b = file_last b - file_pos b.
Proof.
  intros [Hm Hf Hb _] H1 H2. specialize (Hb H1 H2). specialize (Hm H1). specialize (Hf H2). apply (f_equal (fun l => Z.of_nat (length l))) in Hb.
  rewrite !cut_length in Hb by lia. done.
Qed.

Lemma trim_start_ok n b :
  buf_ok b -> 0 <= n <= ngx_buf_size b ->
  buf_ok (trim_start n b) /\ content (trim_start n b) = drop (Z.to_nat n) (content b).
Proof.
  intros Hok Hn. pose proof (both_size b Hok) as Hbs. destruct Hok as [Hm Hf Hb He].
  unfold trim_start, content, ngx_buf_size in *. destruct b as [im m p l fi fp fl x y z]; simpl in *.
  destruct im, fi; simpl in *; (split; [split; simpl; intros; try done; try (rewrite !cut_start by lia; f_equal; by apply Hb); try lia|]);
    rewrite ?drop_nil; try done; apply cut_start; lia.
Qed.

Lemma trim_end_ok n b :
  buf_ok b -> 0 <= n <= ngx_buf_size b ->
  buf_ok (trim_end n b) /\ content (trim_end n b) = take (length (content b) - Z.to_nat n) (content b).
Proof.
  intros Hok Hn. pose proof (both_size b Hok) as Hbs. pose proof (size_content b Hok) as Hs. destruct Hok as [Hm Hf Hb He].
  unfold trim_end, content, ngx_buf_size in *. destruct b as [im m p l fi fp fl x y z]; simpl in *.
  assert (Hc : forall k a c, 0 <= a <= c -> c <= Z.of_nat (length k) -> 0 <= n <= c - a ->
    cut k a (c - n) = take (length (cut k a c) - Z.to_nat n) (cut k a c)).
  { intros k a c Ha Hc Hnc. rewrite cut_end by lia. f_equal. pose proof (cut_length k a c Ha Hc). lia. }
  destruct im, fi; simpl in *; repeat match goal with H : true = true -> _ |- _ => specialize (H eq_refl) end.
  - split; [|by apply Hc; lia]. split; simpl; intros; try done; try lia. rewrite !cut_end by lia. rewrite Hb. f_equal. lia.
  - split; [|by apply Hc; lia]. split; simpl; intros; try done; lia.
  - split; [|by apply Hc; lia]. split; simpl; intros; try done; lia.
  - split; [|by rewrite ?take_nil]. split; simpl; intros; try done; lia.
Qed.

Lemma skip_buf_ok b : buf_ok b -> buf_ok (skip_buf b) /\ content (skip_buf b) = [].
Proof.
  assert (Hc : forall k a, cut k a a = []) by (intros k a; unfold cut; by rewrite Z.sub_diag).
  intros [Hm Hf Hb He]. unfold skip_buf, content in *. destruct b as [im m p l fi fp fl x y z]; simpl in *.
  destruct im, fi; simpl in *; repeat match goal with H : true = true -> _ |- _ => specialize (H eq_refl) end;
    (split; [split; simpl; intros; rewrite ?Hc; try done; lia|by rewrite ?Hc]).
Qed.

Lemma set_last_buf_ok b : buf_ok b -> buf_ok (set_last_buf b) /\ content (set_last_buf b) = content b.
Proof. intros []. split; [by split|done]. Qed.

(** ** The window of a range *)

(** The bytes of [l], which begins at [off] of the body, that are in the range. *)
Definition window (r : range) (off : Z) (l : list Z) : list Z :=
  take (Z.to_nat (end_ r - Z.max (start r) off)) (drop (Z.to_nat (start r - off)) l).

Lemma window_app r off l1 l2 :
  window r off (l1 ++ l2) = window r off l1 ++ window r (off + Z.of_nat (length l1)) l2.
Proof.
  unfold window. rewrite drop_app, take_app, length_drop. f_equal. f_equal; [lia|]. f_equal. lia.
Qed.

Lemma window_nil r off : window r off [] = [].
Proof. unfold window. by rewrite drop_nil, take_nil. Qed.

Lemma window_after r off l : end_ r <= off -> window r off l = [].
Proof. intros He. unfold window. by rewrite Z2Nat.nonpos by lia. Qed.

Lemma window_before r off l : off + Z.of_nat (length l) <= start r -> window r off l = [].
Proof. intros He. unfold window. rewrite drop_ge by lia. apply take_nil. Qed.

Lemma window_whole r l : 0 <= start r -> window r 0 l = cut l (start r) (end_ r).
Proof. intros Hs. unfold window, cut. f_equal; [lia|]. f_equal. lia. Qed.

(** ** A range in one part *)

Lemma special_empty b : buf_ok b -> ngx_buf_special b = true -> content b = [].
Proof.
  intros _. unfold ngx_buf_special, content. destruct (in_memory b), (in_file b); rewrite ?andb_false_r; simpl; try done.
Qed.

(** The buffer inside the loop that has bytes of the range, cut at its start and then,
    when the range ends in it, at its end. *)
Lemma cut_buf_ok r off b :
  let last := off + ngx_buf_size b in
  let b1 := if off <? start r then trim_start (start r - off) b else b in
  buf_ok b -> 0 <= off -> off < end_ r -> start r < last -> start r < end_ r ->
  buf_ok b1 /\ (last < end_ r -> content b1 = window r off (content b))
  /\ (end_ r <= last -> buf_ok (trim_end (last - end_ r) b1)
        /\ content (trim_end (last - end_ r) b1) = window r off (content b)).
Proof.
  intros last b1 Hok H0 Hend Hstart Hr. pose proof (size_content b Hok) as Hs.
  assert (Hb1 : buf_ok b1 /\ content b1 = drop (Z.to_nat (start r - off)) (content b)).
  { unfold b1. destruct (Z.ltb_spec off (start r)).
    - apply trim_start_ok; [done|]. unfold last in *. lia.
    - rewrite Z2Nat.nonpos by lia. by rewrite drop_0. }
  destruct Hb1 as [Hok1 Hc1]. split; [done|]. split.
  - intros Hlt. rewrite Hc1. unfold window. rewrite take_ge; [done|]. rewrite length_drop. unfold last in *. lia.
  - intros Hle. pose proof (size_content b1 Hok1) as Hs1. rewrite Hc1, length_drop in Hs1.
    destruct (trim_end_ok (last - end_ r) b1 Hok1) as [Hok2 Hc2]; [unfold last in *; lia|]. split; [done|].
    rewrite Hc2, Hc1. unfold window. f_equal. rewrite length_drop. unfold last in *. lia.
Qed.

Lemma singlepart_loop_ok r cl : 0 <= start r < end_ r -> forall off,
  0 <= off -> Forall buf_ok cl -> off + Z.of_nat (length (contents cl)) < 2 ^ 63 ->
  let '(off', o, i) := singlepart_loop r off cl in
  contents (default [] o) = window r off (contents cl) /\ Forall buf_ok (default [] o)
  /\ (off' = off + Z.of_nat (length (contents cl)) \/ end_ r <= off' <= off + Z.of_nat (length (contents cl)))
  /\ (off < end_ r -> end_ r <= off + Z.of_nat (length (contents cl)) ->
      exists b, last (default [] o) = Some b /\ last_buf b = true)
  /\ (o = None -> contents i = [] /\ Forall buf_ok i).
Proof.
  intros Hr. induction cl as [|b cl IH]; intros off H0 Hok Hlt.
  { simpl. rewrite window_nil. split_and!; [done|done|lia|lia|done]. }
  inversion Hok as [|? ? Hb Hcl]; subst. pose proof (size_content b Hb) as Hs.
  change (contents (b :: cl)) with (content b ++ contents cl) in *. rewrite length_app in *. cbn [singlepart_loop].
  rewrite sint_small by (change (2 ^ (64 - 1)) with (2 ^ 63); lia).
  specialize (IH (off + ngx_buf_size b) ltac:(lia) Hcl ltac:(lia)). rewrite Hs in IH |- *.
  destruct (singlepart_loop r (off + Z.of_nat (length (content b))) cl) as [[off' o] i]. destruct IH as (IH1 & IH2 & IH3 & IH4 & IH5).
  assert (Hlink : contents (default i o) = contents (default [] o) /\ Forall buf_ok (default i o)).
  { destruct o; [done|]. by destruct (IH5 eq_refl). }
  destruct Hlink as [Hlc Hlok].
  assert (Hlast : forall b', (off + Z.of_nat (length (content b)) < end_ r) ->
    end_ r <= off + Z.of_nat (length (content b) + length (contents cl)) -> exists b2, last (b' :: default i o) = Some b2 /\ last_buf b2 = true).
  { intros b' H1 H2. destruct (IH4 H1 ltac:(lia)) as (b2 & E & ?). exists b2. split; [|done]. destruct o as [[|]|]; [done| |done].
    exact E. }
  assert (Hskip : o = None -> contents (skip_buf b :: i) = [] /\ Forall buf_ok (skip_buf b :: i)).
  { intros E. destruct (IH5 E) as [E1 E2]. destruct (skip_buf_ok b Hb) as [E3 E4].
    change (contents (skip_buf b :: i)) with (content (skip_buf b) ++ contents i). rewrite E4, E1. split; [done|by constructor]. }
  rewrite window_app. destruct (ngx_buf_special b) eqn:Hsp.
  { pose proof (special_empty b Hb Hsp) as He. unfold link_buf. cbn [from_option id].
    change (contents (b :: default i o)) with (content b ++ contents (default i o)).
    rewrite Hlc, IH1, He in *. rewrite window_nil. simpl in *. split_and!; [done|by constructor|lia| |done]. intros. apply Hlast; lia. }
  destruct (Z.leb_spec (end_ r) off); simpl orb; cbv iota.
  { rewrite IH1, (window_after r off) by lia. split_and!; [done|done|lia|lia|done]. }
  destruct (Z.leb_spec (off + Z.of_nat (length (content b))) (start r)).
  { rewrite IH1, (window_before r off) by lia. split_and!; [done|done|lia| |done]. intros. apply IH4; lia. }
  rewrite <- Hs in *. destruct (cut_buf_ok r off b Hb) as (Hok1 & Hc1 & Hc2); try lia.
  destruct (Z.leb_spec (end_ r) (off + ngx_buf_size b)).
  - destruct (Hc2 ltac:(lia)) as [Hok2 Hc]. destruct (set_last_buf_ok _ Hok2) as [Hok3 Hc3].
    cbn [from_option id contents map concat]. rewrite Hc3, Hc, (window_after r (off + _)) by lia. split_and!; [done|by constructor|lia| |done].
    intros _ _. eexists. split; [done|]. done.
  - unfold link_buf. cbn [from_option id]. change (contents (?x :: default i o)) with (content x ++ contents (default i o)). rewrite Hlc, Hc1, IH1 by lia.
    split_and!; [done|by constructor|lia| |done]. intros. apply Hlast; lia.
Qed.

(** Calls of the body filter, and all they give to the next one. *)
Fixpoint send `{Arch} (c : option ctx) (chains : list (list buf)) : option (option ctx * list buf) :=
  match chains with
  | [] => Some (c, [])
  | cl :: chains' =>
      '(c, o) ← ngx_http_range_body_filter c cl;
      '(c, os) ← send c chains';
      Some (c, o ++ os)
  end.

Lemma contents_app bs bs' : contents (bs ++ bs') = contents bs ++ contents bs'.
Proof. unfold contents. by rewrite map_app, concat_app. Qed.

Lemma send_single `{Arch} bh r chains off :
  0 <= start r < end_ r -> 0 <= off -> Forall (Forall buf_ok) chains ->
  off + Z.of_nat (length (contents (concat chains))) < 2 ^ 63 ->
  exists c o, send (Some (mkCtx off bh [r])) chains = Some (c, o)
    /\ contents o = window r off (contents (concat chains)) /\ Forall buf_ok o.
Proof.
  intros Hr. revert off. induction chains as [|cl chains IH]; intros off H0 Hok Hlt.
  { eexists _, []. simpl. by rewrite window_nil. }
  inversion Hok as [|? ? Hcl Hchains]; subst. cbn [concat] in *. rewrite contents_app, length_app in *. cbn [send].
  assert (Hstep : exists off' o, ngx_http_range_body_filter (Some (mkCtx off bh [r])) cl = Some (Some (mkCtx off' bh [r]), o)
    /\ contents o = window r off (contents cl) /\ Forall buf_ok o /\ 0 <= off'
    /\ (off' = off + Z.of_nat (length (contents cl)) \/ end_ r <= off' <= off + Z.of_nat (length (contents cl)))).
  { destruct cl as [|b cl]; [exists off, []; simpl; rewrite window_nil; split_and!; try done; lia|].
    pose proof (singlepart_loop_ok r (b :: cl) Hr off H0 Hcl ltac:(lia)) as Hs.
    unfold ngx_http_range_body_filter, ngx_http_range_singlepart_body. cbn [ranges length Nat.eqb offset boundary_header head mbind option_bind].
    destruct (singlepart_loop r off (b :: cl)) as [[off' o] i]. destruct Hs as (H1 & H2 & H3 & _).
    exists off', (default [] o). split_and!; try done. lia. }
  destruct Hstep as (off' & o & -> & Ho & Hoko & H0' & Hoff). cbn [mbind option_bind].
  destruct (IH off' H0' Hchains ltac:(lia)) as (c & os & -> & Hos & Hokos). cbn [mbind option_bind].
  eexists _, _. split; [done|]. split; [|by apply Forall_app]. rewrite contents_app, Ho, Hos, window_app. f_equal.
  destruct Hoff as [->|[H1 H2]]; [done|]. by rewrite !window_after by lia.
Qed.
End Content.

(** ** The texts of the headers *)

(** The format has no conversion here. *)
Ltac plain := eval_lit; unfold CRLF; cbn [app]; repeat constructor; lia.

Section Texts.
Context `{Arch}.

Lemma num_digits_short n k :
  0 <= n < 2 ^ 64 -> n < 10 ^ Z.of_nat k -> (1 <= k)%nat ->
  exists ds, num_digits n 0 = Some ds /\ (1 <= length ds <= k)%nat.
Proof.
  intros Hn Hk H1. destruct (decide (n = 0)) as [->|Hnz]; [exists [48]; split; [reflexivity|simpl; lia]|].
  destruct (num_digits_dec n Hn) as (ds & E & Hd & Hv & Hl & Hh). eexists. split; [exact E|]. rewrite length_map. split; [lia|].
  destruct (le_gt_dec (length ds) k) as [|Hgt]; [done|exfalso]. specialize (Hh Hnz). destruct ds as [|d ds]; [done|].
  simpl in Hh. rewrite num_value_cons in Hv. inversion Hd; subst.
  pose proof (num_value_range 10 ds ltac:(lia) ltac:(done)) as Hr.
  assert (10 ^ Z.of_nat k <= 10 ^ Z.of_nat (length ds)) by (apply Z.pow_le_mono_r; simpl in Hgt; lia). nia.
Qed.

(** A piece of the format without conversions is copied. *)
Lemma vslprintf_lit room l fmt args :
  Forall (fun c => c <> cPERCENT) l -> Z.of_nat (length l) <= room ->
  ngx_vslprintf room (l ++ fmt) args = (fun d => l ++ d) <$> ngx_vslprintf (room - Z.of_nat (length l)) fmt args.
Proof.
  intros Hl. revert room. induction Hl as [|c l Hc Hl IH]; intros room Hr; simpl.
  { rewrite Z.sub_0_r. by destruct (ngx_vslprintf room fmt args). }
  simpl length in Hr. rewrite vslprintf_char by (done || lia). rewrite IH by lia.
  replace (room - 1 - Z.of_nat (length l)) with (room - Z.of_nat (S (length l))) by lia.
  by destruct (ngx_vslprintf _ fmt args).
Qed.

(** "%O" of an offset. *)
Lemma directive_O room v fmt args :
  20 <= room -> 0 <= v < 2 ^ 63 ->
  exists t, fmt_directive (79 :: fmt) room (AInt v :: args) = Some (fmt, args, t) /\ (length t <= 20)%nat.
Proof.
  intros Hr Hv. destruct (num_digits_short v 20) as (ds & E & Hl); [lia| |lia|].
  { apply Z.lt_trans with (2 ^ 63); [lia|]. reflexivity. }
  exists ds. split; [|lia]. unfold fmt_directive. cbn -[print_number sint ngx_sprintf_num]. unfold print_number.
  cbn -[ngx_sprintf_num uint sint]. rewrite sint_small by (change (2 ^ (64 - 1)) with (2 ^ 63); lia).
  rewrite (proj2 (Z.ltb_ge v 0)), uint_small by lia. cbn -[ngx_sprintf_num].
  rewrite (sprintf_num_fits _ _ _ _ _ _ E) by lia. rewrite Z2Nat.nonpos by lia. done.
Qed.

(** "%V" of a string. *)
Lemma directive_V room s fmt args :
  Z.of_nat (length s) <= room -> fmt_directive (86 :: fmt) room (AStr s :: args) = Some (fmt, args, s).
Proof.
  intros Hr. unfold fmt_directive. cbn -[copy_min]. unfold copy_min. replace (Z.to_nat (Z.min room (Z.of_nat (length s)))) with (length s) by lia.
  rewrite Nat.ltb_irrefl. simpl. by rewrite firstn_all.
Qed.

(** "%0muA": as many digits as the type may need. *)
Lemma directive_0muA room v fmt args :
  Z.of_nat NGX_ATOMIC_T_LEN <= room ->
  exists t, fmt_directive (lit "0muA" ++ fmt) room (AInt v :: args) = Some (fmt, args, t) /\ length t = NGX_ATOMIC_T_LEN.
Proof.
  intros Hr. unfold NGX_ATOMIC_T_LEN in *. assert (Hw : NGX_INT_T_LEN = 11 \/ NGX_INT_T_LEN = 20).
  { unfold NGX_INT_T_LEN. destruct (_ =? _); auto. }
  assert (Hu : exists ds, num_digits (uint ptr_bits v) 0 = Some ds /\ (1 <= length ds <= Z.to_nat NGX_INT_T_LEN)%nat).
  { unfold NGX_INT_T_LEN. assert (Hp : 0 <= ptr_bits) by (destruct ptr_bits_cases; lia).
    pose proof (uint_range ptr_bits v Hp) as Hv.
    destruct ptr_bits_cases as [E|E]; rewrite E in *; simpl (_ =? _); cbv iota; apply num_digits_short; try lia.
    - apply Z.lt_trans with (2 ^ 32); [lia|]. reflexivity.
    - apply Z.lt_trans with (2 ^ 64); [lia|]. reflexivity. }
  destruct Hu as (ds & E & Hl). eexists. split.
  - eval_lit. unfold fmt_directive. cbn -[print_number uint ngx_sprintf_num NGX_INT_T_LEN]. unfold print_number.
    cbn -[ngx_sprintf_num uint NGX_INT_T_LEN]. rewrite (sprintf_num_fits _ _ _ _ _ _ E) by lia. done.
  - rewrite length_app, repeat_length. lia.
Qed.

(** A number, then a piece without conversions. *)
Lemma vslprintf_O room v l fmt args :
  0 <= v < 2 ^ 63 -> Forall (fun c => c <> cPERCENT) l -> 20 + Z.of_nat (length l) <= room ->
  exists t, (length t <= 20)%nat /\ ngx_vslprintf room (lit "%O" ++ l ++ fmt) (AInt v :: args)
    = (fun d => t ++ l ++ d) <$> ngx_vslprintf (room - Z.of_nat (length t) - Z.of_nat (length l)) fmt args.
Proof.
  intros Hv Hl Hr. destruct (directive_O room v (l ++ fmt) args ltac:(lia) Hv) as (t & E & Ht). exists t. split; [done|].
  change (lit "%O" ++ l ++ fmt) with (37 :: 79 :: l ++ fmt). rewrite (vslprintf_directive room _ _ _ _ _ ltac:(lia) E).
  rewrite vslprintf_lit by (done || lia). by destruct (ngx_vslprintf _ fmt args).
Qed.

Lemma range_text room pre a b c post :
  Forall (fun c => c <> cPERCENT) pre -> Forall (fun c => c <> cPERCENT) post ->
  0 <= a < 2 ^ 63 -> 0 <= b < 2 ^ 63 -> 0 <= c < 2 ^ 63 -> Z.of_nat (length pre + 62 + length post) <= room ->
  exists t, ngx_vslprintf room (pre ++ lit "%O-%O/%O" ++ post) [AInt a; AInt b; AInt c] = Some t
    /\ (length t <= length pre + 62 + length post)%nat.
Proof.
  intros Hpre Hpost Ha Hb Hc Hr. rewrite vslprintf_lit by (done || lia). set (room' := room - _).
  destruct (vslprintf_O room' a [45] (lit "%O" ++ [47] ++ lit "%O" ++ post) [AInt b; AInt c] Ha) as (t1 & H1 & E1);
    [by repeat constructor|simpl; lia|].
  destruct (vslprintf_O (room' - Z.of_nat (length t1) - 1) b [47] (lit "%O" ++ post) [AInt c] Hb) as (t2 & H2 & E2);
    [by repeat constructor|simpl; lia|].
  destruct (vslprintf_O (room' - Z.of_nat (length t1) - 1 - Z.of_nat (length t2) - 1) c post [] [] Hc Hpost) as (t3 & H3 & E3); [lia|].
  rewrite app_nil_r in E3. change (Z.of_nat (length [45])) with 1 in E1. change (Z.of_nat (length [47])) with 1 in E2.
  change (lit "%O-%O/%O" ++ post) with (lit "%O" ++ [45] ++ lit "%O" ++ [47] ++ lit "%O" ++ post).
  rewrite E1, E2, E3, vslprintf_nil. simpl.
  eexists. split; [done|]. repeat (rewrite ?length_app; simpl length). lia.
Qed.

(** Where the texts are written. *)
Variable pnalloc : nat -> nat -> Z.
Hypothesis pnalloc_ok : forall k n, Z.of_nat n < 2 ^ 31 -> 0 <= pnalloc k n /\ pnalloc k n + Z.of_nat n < 2 ^ ptr_bits.

(** A text that begins with the boundary: its length is at least that, and it fits. *)
Lemma boundary_prefix room boundary fmt args rest :
  Z.of_nat (4 + NGX_ATOMIC_T_LEN) <= room ->
  (forall room', room' = room - Z.of_nat (4 + NGX_ATOMIC_T_LEN) -> ngx_vslprintf room' fmt args = Some rest) ->
  exists t, ngx_vslprintf room (CRLF ++ lit "--%0muA" ++ fmt) (AInt boundary :: args) = Some t
    /\ length t = (4 + NGX_ATOMIC_T_LEN + length rest)%nat.
Proof.
  intros Hr Hrest. destruct (directive_0muA (room - 4) boundary fmt args ltac:(lia)) as (t & E & Ht).
  change (CRLF ++ lit "--%0muA" ++ fmt) with ([13; 10; 45; 45] ++ 37 :: (lit "0muA" ++ fmt)).
  rewrite vslprintf_lit; [|by repeat constructor|simpl; lia]. change (Z.of_nat (length [13; 10; 45; 45])) with 4.
  rewrite (vslprintf_directive (room - 4) _ _ _ _ _ ltac:(unfold NGX_ATOMIC_T_LEN, NGX_INT_T_LEN in *; destruct (ptr_bits =? 32); lia) E).
  rewrite (Hrest (room - 4 - Z.of_nat (length t))) by lia. simpl. eexists. split; [done|]. simpl. rewrite length_app. lia.
Qed.

Lemma atomic_len_pos : (1 <= NGX_ATOMIC_T_LEN)%nat.
Proof. unfold NGX_ATOMIC_T_LEN, NGX_INT_T_LEN. destruct (ptr_bits =? 32); simpl; lia. Qed.

Lemma vslprintf_V room s l fmt args :
  0 < room -> Forall (fun c => c <> cPERCENT) l -> Z.of_nat (length s) + Z.of_nat (length l) <= room ->
  ngx_vslprintf room (lit "%V" ++ l ++ fmt) (AStr s :: args)
    = (fun d => s ++ l ++ d) <$> ngx_vslprintf (room - Z.of_nat (length s) - Z.of_nat (length l)) fmt args.
Proof.
  intros H0 Hl Hr. change (lit "%V" ++ l ++ fmt) with (37 :: 86 :: l ++ fmt).
  rewrite (vslprintf_directive room _ _ _ _ _ H0 (directive_V room s (l ++ fmt) args ltac:(lia))).
  rewrite vslprintf_lit by (done || lia). by destruct (ngx_vslprintf _ fmt args).
Qed.

(** A piece without conversions ends the format. *)
Lemma vslprintf_end room l :
  Forall (fun c => c <> cPERCENT) l -> Z.of_nat (length l) <= room -> ngx_vslprintf room l [] = Some l.
Proof. intros Hl Hr. rewrite <- (app_nil_r l) at 1. rewrite vslprintf_lit, vslprintf_nil by done. simpl. by rewrite app_nil_r. Qed.

(** The boundary header fits its memory, and has the boundary at its beginning. *)
Lemma boundary_text_ok h boundary :
  Z.of_nat (boundary_len h) < 2 ^ 31 ->
  exists bh, boundary_text pnalloc h boundary = Some bh /\ (4 + NGX_ATOMIC_T_LEN <= length bh <= boundary_len h)%nat.
Proof.
  intros Hlen. unfold boundary_text, boundary_len in *. set (ct := content_type h) in *. set (cs := charset h) in *.
  set (b := (_ =? _) && _) in *. pose proof atomic_len_pos as Ha.
  set (fin := CRLF ++ lit "Content-Range: bytes "). assert (Hf : Forall (fun c => c <> cPERCENT) fin /\ length fin = 23%nat) by (split; [unfold fin; plain|done]).
  set (cth := CRLF ++ lit "Content-Type: "). assert (Hc : Forall (fun c => c <> cPERCENT) cth /\ length cth = 16%nat) by (split; [unfold cth; plain|done]).
  destruct Hf as [Hf1 Hf2], Hc as [Hc1 Hc2]. unfold ngx_sprintf. destruct b.
  - pose proof (pnalloc_ok 0 (4 + NGX_ATOMIC_T_LEN + 16 + length ct + 23 + (10 + length cs)) Hlen) as [_ Hp].
    set (room := 2 ^ ptr_bits - 1 - _). assert (Hr : Z.of_nat (4 + NGX_ATOMIC_T_LEN + 16 + length ct + 23 + (10 + length cs)) <= room) by (unfold room; lia).
    edestruct (boundary_prefix room boundary (cth ++ lit "%V" ++ lit "; charset=" ++ lit "%V" ++ fin) [AStr ct; AStr cs]
      (cth ++ ct ++ lit "; charset=" ++ cs ++ fin)) as (t & E & Ht); [lia| |exists t; split; [exact E|]].
    + intros room' ->. rewrite vslprintf_lit by (done || lia).
      rewrite vslprintf_V; [|lia|plain|change (length (lit "; charset=")) with 10%nat; lia].
      change (length (lit "; charset=")) with 10%nat. rewrite <- (app_nil_r fin) at 1. rewrite vslprintf_V by (done || lia).
      rewrite vslprintf_nil. cbn [fmap option_fmap option_map]. by rewrite app_nil_r.
    + rewrite Ht, !length_app, Hf2, Hc2. change (length (lit "; charset=")) with 10%nat. lia.
  - pose proof (pnalloc_ok 0 (4 + NGX_ATOMIC_T_LEN + 16 + length ct + 23) Hlen) as [_ Hp].
    set (room := 2 ^ ptr_bits - 1 - _). assert (Hr : Z.of_nat (4 + NGX_ATOMIC_T_LEN + 16 + length ct + 23) <= room) by (unfold room; lia).
    destruct (negb _).
    + edestruct (boundary_prefix room boundary (cth ++ lit "%V" ++ fin) [AStr ct] (cth ++ ct ++ fin)) as (t & E & Ht); [lia| |exists t; split; [exact E|]].
      * intros room' ->. rewrite vslprintf_lit by (done || lia). rewrite <- (app_nil_r fin) at 1. rewrite vslprintf_V by (done || lia).
        rewrite vslprintf_nil. cbn [fmap option_fmap option_map]. by rewrite app_nil_r.
      * rewrite Ht, !length_app, Hf2, Hc2. lia.
    + edestruct (boundary_prefix room boundary fin [] fin) as (t & E & Ht); [lia| |exists t; split; [exact E|lia]].
      intros room' ->. apply vslprintf_end; [done|lia].
Qed.

(** The bytes of the parts, without the last boundary. *)
Definition parts_size (blen : nat) (rs : list range) : Z :=
  foldr (fun r n => Z.of_nat blen + Z.of_nat (length (content_range r)) + (end_ r - start r) + n) 0 rs.

(** The range a part was made for, with its text. *)
Definition same_range (r r' : range) : Prop :=
  start r' = start r /\ end_ r' = end_ r /\ (length (content_range r') <= 66)%nat.

Lemma parts_size_bound blen rs rs' :
  Forall2 same_range rs rs' -> parts_size blen rs' <= total rs + Z.of_nat (length rs) * (Z.of_nat blen + 66).
Proof. induction 1 as [|r r' rs rs' (H1 & H2 & H3) _ IH]; simpl; [lia|]. rewrite H1, H2. lia. Qed.

Lemma part_headers_ok k tot blen rs len :
  0 <= tot < 2 ^ 63 -> Forall (fun r => 0 <= start r < end_ r /\ end_ r <= tot) rs -> 0 <= len ->
  len + (total rs + Z.of_nat (length rs) * (Z.of_nat blen + 66)) < 2 ^ ptr_bits ->
  exists rs', part_headers pnalloc k tot blen rs len = Some (rs', len + parts_size blen rs') /\ Forall2 same_range rs rs'.
Proof.
  intros Htot Hrs. revert k len. induction Hrs as [|r rs [Hr1 Hr2] Hrs IH]; intros k len H0 Hlt.
  { exists []. simpl. split; [do 2 f_equal; lia|done]. }
  cbn [total foldr length] in Hlt. fold (total rs) in Hlt. pose proof (pnalloc_ok k 66 ltac:(lia)) as [_ Hp].
  assert (Htr : 0 <= total rs) by (clear -Hrs; induction Hrs; simpl; lia).
  destruct (range_text (2 ^ ptr_bits - 1 - pnalloc k 66) [] (start r) (end_ r - 1) tot (CRLF ++ CRLF)) as (t & E & Ht);
    [constructor|plain|lia|lia|lia|simpl; lia|]. cbn [app] in E.
  cbn [part_headers]. unfold ngx_sprintf. change (3 * 20 + 2 + 4)%nat with 66%nat. rewrite E. cbn [mbind option_bind].
  simpl length in Ht. rewrite (uint_small _ (end_ r - start r)), uint_small by nia.
  destruct (IH (S k) (len + (Z.of_nat blen + Z.of_nat (length t) + (end_ r - start r)))) as (rs' & E' & Hs'); [nia|nia|].
  rewrite E'. cbn [mbind option_bind]. exists (mkRange (start r) (end_ r) t :: rs'). split; [do 2 f_equal; simpl; lia|].
  constructor; [|done]. split_and!; simpl; [done|done|lia].
Qed.

Lemma multipart_header_ok boundary h c :
  0 <= content_length_n h < 2 ^ 63 -> Forall (fun r => 0 <= start r < end_ r /\ end_ r <= content_length_n h) (ranges c) ->
  total (ranges c) + Z.of_nat (length (ranges c)) * (Z.of_nat (boundary_len h) + 66) + 32 < 2 ^ Z.min 63 ptr_bits ->
  Z.of_nat (boundary_len h) < 2 ^ 31 ->
  exists h' bh rs, ngx_http_range_multipart_header pnalloc boundary h c = Some (h', mkCtx (offset c) bh rs)
    /\ status h' = status h /\ (4 + NGX_ATOMIC_T_LEN <= length bh <= boundary_len h)%nat /\ Forall2 same_range (ranges c) rs
    /\ content_length_n h' = Z.of_nat (4 + NGX_ATOMIC_T_LEN + 4) + parts_size (length bh) rs.
Proof.
  intros Hn Hrs Hlt Hbl. destruct (boundary_text_ok h boundary Hbl) as (bh & E & Hbh). unfold ngx_http_range_multipart_header.
  rewrite E. cbn [mbind option_bind].
  assert (Ha : Z.of_nat (4 + NGX_ATOMIC_T_LEN + 4) <= 28) by (unfold NGX_ATOMIC_T_LEN, NGX_INT_T_LEN; destruct (ptr_bits =? 32); simpl; lia).
  assert (H2 : 2 ^ Z.min 63 ptr_bits <= 2 ^ ptr_bits /\ 2 ^ Z.min 63 ptr_bits <= 2 ^ 63).
  { pose proof ptr_bits_cases. split; apply Z.pow_le_mono_r; lia. }
  assert (Htext : exists t, ngx_sprintf (pnalloc 1 (45 + NGX_ATOMIC_T_LEN)) (lit "multipart/byteranges; boundary=%0muA") [AInt boundary] = Some t).
  { pose proof (pnalloc_ok 1 (45 + NGX_ATOMIC_T_LEN) ltac:(lia)) as [_ Hp]. unfold ngx_sprintf. set (room := 2 ^ ptr_bits - 1 - _).
    change (lit "multipart/byteranges; boundary=%0muA") with (lit "multipart/byteranges; boundary=" ++ 37 :: (lit "0muA" ++ [])).
    rewrite vslprintf_lit; [|plain|unfold room; change (length (lit "multipart/byteranges; boundary=")) with 31%nat; lia].
    change (Z.of_nat (length (lit "multipart/byteranges; boundary="))) with 31.
    destruct (directive_0muA (room - 31) boundary [] [] ltac:(unfold room; lia)) as (t & E2 & _).
    rewrite (vslprintf_directive (room - 31) _ _ _ _ _ ltac:(unfold room; pose proof atomic_len_pos; lia) E2), vslprintf_nil. by eexists. }
  destruct Htext as [t ->]. cbn [mbind option_bind].
  assert (Hlen : Z.of_nat (length bh) <= Z.of_nat (boundary_len h)) by lia.
  assert (Hb2 : total (ranges c) + Z.of_nat (length (ranges c)) * (Z.of_nat (length bh) + 66) + 32 < 2 ^ Z.min 63 ptr_bits) by nia.
  destruct (part_headers_ok 2 (content_length_n h) (length bh) (ranges c) (Z.of_nat (4 + NGX_ATOMIC_T_LEN + 4))) as (rs & E3 & Hs); try done; try lia.
  rewrite E3. cbn [mbind option_bind]. eexists _, bh, rs. split; [done|]. split_and!; try done; try lia.
  simpl content_length_n. apply sint_small; [lia|]. change (2 ^ (64 - 1)) with (2 ^ 63).
  pose proof (parts_size_bound (length bh) _ _ Hs).
  assert (0 <= parts_size (length bh) rs); [|lia].
  clear -Hs Hrs. induction Hs as [|r r' rs rs' (E1 & E2 & _) Hs IH]; simpl; [lia|]. inversion Hrs; subst. specialize (IH ltac:(done)). lia.
Qed.
End Texts.

(** ** Several parts *)

Section Parts.
Context `{Arch}.
Variable file : list Z.

Lemma cut_cut m p l a b : 0 <= p -> 0 <= a <= b -> b <= l - p -> cut m (p + a) (p + b) = cut (cut m p l) a b.
Proof.
  intros Hp Ha Hb. unfold cut. rewrite skipn_firstn_comm, drop_drop, take_take. f_equal; [lia|]. f_equal. lia.
Qed.

(** The memory of a buffer is an object of the program. *)
Definition mem_fits (b : buf) : Prop := in_memory b = true -> Z.of_nat (length (mem b)) < 2 ^ ptr_bits.

Lemma text_buf_ok t : buf_ok file (text_buf t) /\ content file (text_buf t) = t.
Proof.
  split; [split; simpl; try done; lia|]. unfold content, cut, text_buf. simpl. rewrite Z.sub_0_r, Nat2Z.id. apply firstn_all.
Qed.

Lemma part_bufs_ok b bh r :
  buf_ok file b -> mem_fits b -> 0 <= start r <= end_ r -> end_ r <= ngx_buf_size b ->
  Forall (buf_ok file) (part_bufs b bh r)
  /\ contents file (part_bufs b bh r) = bh ++ content_range r ++ cut (content file b) (start r) (end_ r).
Proof.
  intros Hok Hfit Hr He. pose proof (both_size file b Hok) as Hbs. pose proof (size_content file b Hok) as Hsz.
  destruct Hok as [Hm Hf Hb Hn]. destruct (text_buf_ok bh) as [H1 E1], (text_buf_ok (content_range r)) as [H2 E2].
  unfold part_bufs, contents. cbn [map concat]. rewrite E1, E2, app_nil_r.
  set (d := mkBuf _ _ _ _ _ _ _ _ _ _). enough (Hd : buf_ok file d /\ content file d = cut (content file b) (start r) (end_ r)).
  { destruct Hd as [Hd ->]. split; [by apply Forall_cons; split; [|apply Forall_cons; split; [|constructor]]|done]. }
  assert (Hu : in_memory b = true -> uint ptr_bits (start r) = start r /\ uint ptr_bits (end_ r) = end_ r).
  { intros Him. specialize (Hm Him). specialize (Hfit Him). unfold ngx_buf_size in He. rewrite Him in He. split; apply uint_small; lia. }
  unfold d, content, ngx_buf_size in *. destruct b as [im m p l fi fp fl x y z]; simpl in *.
  destruct im, fi; simpl in *; repeat match goal with H : true = true -> _ |- _ => specialize (H eq_refl) end;
    repeat match goal with H : uint _ _ = _ /\ uint _ _ = _ |- _ => destruct H as [-> ->] end.
  - split; [|by apply cut_cut; lia]. split; simpl; intros; try done; try lia.
    rewrite (cut_cut m p l), (cut_cut file fp fl) by lia. by rewrite Hb.
  - split; [|by apply cut_cut; lia]. split; simpl; intros; try done; lia.
  - split; [|by apply cut_cut; lia]. split; simpl; intros; try done; lia.
  - split; [split; simpl; intros; try done; lia|]. unfold cut. by rewrite drop_nil, take_nil.
Qed.

(** The body of a response in several parts. *)
Definition document (bh : list Z) (rs : list range) (body : list Z) : list Z :=
  concat (map (fun r => bh ++ content_range r ++ cut body (start r) (end_ r)) rs)
  ++ take (4 + NGX_ATOMIC_T_LEN) bh ++ lit "--" ++ CRLF.

Lemma multipart_body_ok c b :
  buf_ok file b -> mem_fits b -> Forall (fun r => 0 <= start r <= end_ r /\ end_ r <= ngx_buf_size b) (ranges c) ->
  Forall (buf_ok file) (ngx_http_range_multipart_body c b)
  /\ contents file (ngx_http_range_multipart_body c b) = document (boundary_header c) (ranges c) (content file b).
Proof.
  intros Hok Hfit Hrs. unfold ngx_http_range_multipart_body, document. set (fin := _ ++ lit "--" ++ CRLF).
  destruct (text_buf_ok fin) as [H1 E1]. destruct (set_last_buf_ok file _ H1) as [H2 E2]. rewrite contents_app.
  assert (Hparts : Forall (buf_ok file) (concat (map (part_bufs b (boundary_header c)) (ranges c)))
    /\ contents file (concat (map (part_bufs b (boundary_header c)) (ranges c)))
       = concat (map (fun r => boundary_header c ++ content_range r ++ cut (content file b) (start r) (end_ r)) (ranges c))).
  { induction Hrs as [|r rs [Hr1 Hr2] Hrs [IH1 IH2]]; [done|]. cbn [map concat]. rewrite contents_app, IH2.
    destruct (part_bufs_ok b (boundary_header c) r Hok Hfit Hr1 Hr2) as [H3 ->]. split; [by apply Forall_app|done]. }
  destruct Hparts as [H3 ->]. split; [apply Forall_app; split; [done|by constructor]|]. f_equal.
  change (contents file [set_last_buf (text_buf fin)]) with (content file (set_last_buf (text_buf fin)) ++ []).
  by rewrite app_nil_r, E2, E1.
Qed.

Lemma document_length bh rs body :
  (4 + NGX_ATOMIC_T_LEN <= length bh)%nat -> Forall (fun r => 0 <= start r <= end_ r /\ end_ r <= Z.of_nat (length body)) rs ->
  Z.of_nat (length (document bh rs body)) = Z.of_nat (4 + NGX_ATOMIC_T_LEN + 4) + parts_size (length bh) rs.
Proof.
  intros Hb Hrs. unfold document. rewrite !length_app, length_take. change (length (lit "--")) with 2%nat. change (length CRLF) with 2%nat.
  enough (Z.of_nat (length (concat (map (fun r => bh ++ content_range r ++ cut body (start r) (end_ r)) rs))) = parts_size (length bh) rs) by lia.
  induction Hrs as [|r rs [Hr1 Hr2] Hrs IH]; simpl; [done|]. rewrite !length_app.
  pose proof (cut_length body (start r) (end_ r) Hr1 Hr2). fold (parts_size (length bh) rs). lia.
Qed.
End Parts.

(** ** Responses *)

Section Response.
Context `{Arch}.
Variable pnalloc : nat -> nat -> Z.
Hypothesis pnalloc_ok : forall k n, Z.of_nat n < 2 ^ 31 -> 0 <= pnalloc k n /\ pnalloc k n + Z.of_nat n < 2 ^ ptr_bits.
Variable file : list Z.

(** The response may be sent in part. *)
Definition eligible (r : req) (h : out) : Prop :=
  NGX_HTTP_VERSION_10 <= http_version r /\ status h = NGX_HTTP_OK /\ is_main r = true
  /\ 0 <= content_length_n h < 2 ^ 63 /\ allow_ranges r = true /\ 0 < max_ranges r < 2 ^ ptr_bits
  /\ if_range_passes r = Some true.

(** The most ranges that are served. *)
Definition limit (r : req) : Z := if single_range r then 1 else max_ranges r.

(** The size of the parts of a response in several parts is a [size_t] and an [off_t]. *)
Definition size_fits (h : out) (rs : list range) : Prop :=
  total rs + Z.of_nat (length rs) * (Z.of_nat (boundary_len h) + 66) + 32 < 2 ^ Z.min 63 ptr_bits
  /\ Z.of_nat (boundary_len h) < 2 ^ 31.

(** The body comes in any buffers for one range, in one buffer for several. *)
Definition body_comes (rs : list range) (chains : list (list buf)) : Prop :=
  Forall (Forall (buf_ok file)) chains /\ ((length rs = 1)%nat \/ exists b, chains = [[b]] /\ mem_fits b).

Lemma header_bytes it its :
  item_ok it -> (7 <= length (header_value it its))%nat /\ ngx_strncasecmp (header_value it its) (lit "bytes=") 6 = Some 0.
Proof.
  intros Hok. split; [|reflexivity]. unfold header_value. rewrite !length_app. change (length (lit "bytes=")) with 6%nat.
  assert (1 <= length (item_bytes it))%nat; [|lia]. destruct it; simpl; rewrite !length_app; simpl; try lia.
Qed.

Lemma eligible_test r h :
  eligible r h ->
  (http_version r <? NGX_HTTP_VERSION_10) || negb (status h =? NGX_HTTP_OK) || negb (is_main r)
     || (content_length_n h =? -1) || negb (allow_ranges r) || (max_ranges r =? 0) = false.
Proof.
  intros (H1 & H2 & H3 & H4 & H5 & H6 & _). rewrite H2, H3, H5, (proj2 (Z.ltb_ge _ _)), (proj2 (Z.eqb_neq (content_length_n h) _)), (proj2 (Z.eqb_neq (max_ranges r) _)) by lia. done.
Qed.

Lemma resolved_text len its q : q ∈ resolved len its -> content_range q = [].
Proof.
  intros Hq. apply list_elem_of_In, filter_In in Hq as [Hq _]. apply in_map_iff in Hq as (it & <- & _). by destruct it.
Qed.

(** The filter on an accepted header, up to the texts. *)
Lemma header_filter_ok boundary r h it its :
  let len := content_length_n h in
  let rs := resolved len (it :: its) in
  eligible r h -> range_value r = Some (header_value it its) -> Forall item_ok (it :: its) -> total rs < 2 ^ 63 ->
  fst (answer len (limit r) rs) = NGX_OK ->
  Forall (fun q => 0 <= start q < end_ q /\ end_ q <= len) rs /\ rs <> [] /\
  ngx_http_range_header_filter pnalloc boundary r h =
    let h := set_status NGX_HTTP_PARTIAL_CONTENT h in
    if (length rs =? 1)%nat
    then h ← ngx_http_range_singlepart_header pnalloc h (mkCtx 0 [] rs); Some (Next h (Some (mkCtx 0 [] rs)))
    else '(h, c) ← ngx_http_range_multipart_header pnalloc boundary h (mkCtx 0 [] rs); Some (Next h (Some c)).
Proof.
  intros len rs Hel Hval Hok Htot Hans. pose proof Hel as (_ & _ & _ & Hlen & _ & Hmax & Hif).
  destruct (header_bytes it its) as [H7 Hcmp]; [by inversion Hok|].
  assert (Hlim : 0 <= limit r < 2 ^ ptr_bits) by (unfold limit; destruct (single_range r); pose proof ptr_pow_32; lia).
  destruct (range_parse_exact len (limit r) it its Hlen Hlim Hok Htot) as [Hparse Hin]. specialize (Hin Hans).
  split; [done|]. fold rs in Hparse, Hin.
  assert (E : answer len (limit r) rs = (NGX_OK, rs) /\ rs <> []).
  { revert Hans. unfold answer. destruct (_ <? _); [done|]. clearbody rs. destruct rs; [done|]. by destruct (len <? total _). }
  destruct E as [E Hne]. split; [done|]. rewrite E in Hparse. unfold ngx_http_range_header_filter.
  rewrite (eligible_test r h Hel), Hval. destruct (Nat.ltb_spec (length (header_value it its)) 7); [lia|].
  rewrite Hcmp. cbn [mbind option_bind]. rewrite Hif. cbn [mbind option_bind negb].
  fold (limit r). fold len. rewrite Hparse. done.
Qed.

Lemma singlepart_header_ok h q :
  0 <= content_length_n h < 2 ^ 63 -> 0 <= start q < end_ q -> end_ q <= content_length_n h ->
  exists h', ngx_http_range_singlepart_header pnalloc h (mkCtx 0 [] [q]) = Some h'
    /\ status h' = status h /\ content_length_n h' = end_ q - start q.
Proof.
  intros Hn Hq He. unfold ngx_http_range_singlepart_header. cbn [ranges head mbind option_bind]. pose proof (pnalloc_ok 0 68 ltac:(lia)) as [_ Hp].
  destruct (range_text (2 ^ ptr_bits - 1 - pnalloc 0 68) (lit "bytes ") (start q) (end_ q - 1) (content_length_n h) []) as (t & E & _);
    [plain|constructor|lia|lia|lia|simpl; lia|]. rewrite app_nil_r in E. unfold ngx_sprintf. change (8 + 3 * 20)%nat with 68%nat.
  change (lit "bytes %O-%O/%O") with (lit "bytes " ++ lit "%O-%O/%O"). rewrite E. cbn [mbind option_bind].
  eexists. split; [done|]. split; [done|]. simpl. apply sint_small; [lia|]. change (2 ^ (64 - 1)) with (2 ^ 63). lia.
Qed.

Lemma send_multi c b :
  buf_ok file b -> mem_fits b -> length (ranges c) <> 1%nat -> offset c = 0 -> content file b <> [] ->
  Z.of_nat (length (content file b)) < 2 ^ 63 ->
  Forall (fun q => 0 <= start q <= end_ q /\ end_ q <= Z.of_nat (length (content file b))) (ranges c) ->
  exists c' o, send (Some c) [[b]] = Some (c', o) /\ Forall (buf_ok file) o
    /\ contents file o = document (boundary_header c) (ranges c) (content file b).
Proof.
  intros Hok Hfit Hn Hoff Hne Hlt Hrs. pose proof (size_content file b Hok) as Hs. rewrite <- Hs in Hrs, Hlt.
  cbn [send]. unfold ngx_http_range_body_filter. rewrite (proj2 (Nat.eqb_neq _ _) Hn).
  assert (Hsp : ngx_buf_special b = false).
  { destruct (ngx_buf_special b) eqn:E; [|done]. by rewrite (special_empty file b Hok E) in Hne. }
  rewrite Hsp. unfold ngx_http_range_test_overlapped. rewrite Hoff. simpl (negb (0 =? 0)). cbv iota.
  replace (negb (last_buf b) && _) with false.
  - cbn [mbind option_bind]. do 2 eexists. split; [done|]. rewrite app_nil_r.
    apply (multipart_body_ok file (mkCtx (ngx_buf_size b) (boundary_header c) (ranges c))); done.
  - symmetry. apply andb_false_iff. right. apply not_true_iff_false. intros (q & Hq & Ht)%existsb_exists.
    apply list_elem_of_In in Hq. rewrite Forall_forall in Hrs. specialize (Hrs q Hq).
    rewrite sint_small in Ht by (change (2 ^ (64 - 1)) with (2 ^ 63); lia).
    apply orb_true_iff in Ht as [Ht%Z.ltb_lt|Ht%Z.ltb_lt]; lia.
Qed.
End Response.

(** C5: a request with an acceptable header Range, whose numbers and sizes do not overflow,
    is answered 206, and then, for one range however the body is cut into buffers and
    chains, for several when all of it comes in one buffer, the body filter sends exactly as
    many bytes as the new Content-Length says: the bytes of the range, or
    the document of the parts.  It never reads outside a buffer. *)
Theorem range_response `{Arch} pnalloc file boundary r h it its :
  (forall k n, Z.of_nat n < 2 ^ 31 -> 0 <= pnalloc k n /\ pnalloc k n + Z.of_nat n < 2 ^ ptr_bits) ->
  let len := content_length_n h in
  let rs := resolved len (it :: its) in
  eligible r h -> range_value r = Some (header_value it its) -> Forall item_ok (it :: its) ->
  fst (answer len (limit r) rs) = NGX_OK -> total rs < 2 ^ 63 -> size_fits h rs ->
  exists h' c, ngx_http_range_header_filter pnalloc boundary r h = Some (Next h' (Some c))
    /\ status h' = NGX_HTTP_PARTIAL_CONTENT /\ Forall2 same_range rs (ranges c)
    /\ forall chains, body_comes file rs chains ->
         let body := contents file (concat chains) in
         Z.of_nat (length body) = len ->
         exists c' o, send (Some c) chains = Some (c', o) /\ Forall (buf_ok file) o
           /\ Z.of_nat (length (contents file o)) = content_length_n h'
           /\ contents file o = match ranges c with
                                | [q] => cut body (start q) (end_ q)
                                | qs => document (boundary_header c) qs body
                                end.
Proof.
  intros Hp len rs Hel Hval Hok Hans Htot Hfit.
  destruct (header_filter_ok pnalloc boundary r h it its Hel Hval Hok Htot Hans) as (Hin & Hne & E). fold len rs in Hin, Hne, E.
  pose proof Hel as (_ & _ & _ & Hlen & _). cbv zeta in E. rewrite E. clear E.
  assert (Hlen' : content_length_n (set_status NGX_HTTP_PARTIAL_CONTENT h) = len) by done.
  destruct (Nat.eqb_spec (length rs) 1) as [H1|H1].
  - assert (Hq : exists q, rs = [q]) by (clearbody rs; destruct rs as [|q [|]]; simpl in H1; [lia|by exists q|lia]).
    destruct Hq as [q Hq]. rewrite Hq in *. inversion Hin as [|? ? [Hq1 Hq2] _]; subst.
    destruct (singlepart_header_ok pnalloc Hp (set_status NGX_HTTP_PARTIAL_CONTENT h) q) as (h' & E & Hst & Hcl); [done|done|done|].
    rewrite E. cbn [mbind option_bind]. eexists _, _. split; [done|]. split; [done|]. split.
    { constructor; [|constructor]. split_and!; [done|done|]. rewrite (resolved_text len (it :: its) q); [simpl; lia|]. fold rs. rewrite Hq. by constructor. }
    intros chains [Hb _]. set (body := contents file (concat chains)). intros Hbody. destruct (send_single file [] q chains 0) as (c' & o & E2 & Hc & Ho); [done|lia|done|fold body; lia|].
    exists c', o. split; [done|]. split; [done|]. rewrite Hc, window_whole by lia. fold body. split; [|done].
    rewrite cut_length by lia. lia.
  - destruct (multipart_header_ok pnalloc Hp boundary (set_status NGX_HTTP_PARTIAL_CONTENT h) (mkCtx 0 [] rs)) as (h' & bh & rs' & E & Hst & Hbh & Hs & Hcl); [done|done|apply Hfit|apply Hfit|].
    rewrite E. cbn [mbind option_bind]. eexists _, _. split; [done|]. split; [done|]. split; [done|].
    intros chains [Hb [?|(b & -> & Hmem)]]; [done|]. set (body := contents file (concat [[b]])). intros Hbody.
    assert (Hbb : body = content file b) by (unfold body, contents; simpl; by rewrite app_nil_r).
    assert (Hok' : buf_ok file b) by (by inversion Hb as [|? ? Hb1]; inversion Hb1).
    assert (Hrs' : Forall (fun q => 0 <= start q <= end_ q /\ end_ q <= Z.of_nat (length (content file b))) rs').
    { rewrite <- Hbb, Hbody. clear -Hs Hin. cbn [ranges] in Hs. revert Hin. generalize len. intros n Hin.
      induction Hs as [|q q' qs qs' (E1 & E2 & _) Hs IH]; inversion Hin; subst; constructor; [lia|by apply IH]. }
    assert (Hl' : length rs' = length rs) by (symmetry; by eapply Forall2_length).
    assert (Hne' : content file b <> []).
    { intros E0. rewrite <- Hbb in E0. rewrite E0 in Hbody. simpl in Hbody. clear -Hin Hne Hbody. clearbody rs.
      destruct rs; [done|]. inversion Hin; subst. lia. }
    assert (Hlt' : Z.of_nat (length (content file b)) < 2 ^ 63) by (rewrite <- Hbb, Hbody; lia).
    destruct (send_multi file (mkCtx 0 bh rs') b Hok' Hmem) as (c' & o & E2 & Ho & Hc); [simpl; lia|done|done|done|done|].
    exists c', o. split; [done|]. split; [done|]. rewrite Hc. cbn [ranges boundary_header]. split.
    + rewrite Hcl. apply document_length; [lia|done].
    + rewrite Hbb. destruct rs' as [|? [|]]; [done|simpl in Hl'; lia|done].
Qed.

(** The overflow of [RangeParse.range_start_wraps] makes the filter send what is in the file
    before the body: of a cached response of 1000 bytes whose file has 700 bytes of other
    data before it, the first part begins at byte 84. *)
Theorem range_leaks :
  (rs ← @ngx_http_range_parse lp64 (lit "bytes=18446744073709551000-5,7-8") 1000 5;
   '(_, o) ← @ngx_http_range_body_filter lp64 (Some (mkCtx 0 [] (snd rs))) [mkBuf false [] 0 0 true 700 1700 false false true];
   b ← o !! 2%nat; Some (file_pos b, file_last b)) = Some (84, 706).
Proof. vm_compute. reflexivity. Qed.

(** *** Witnesses *)

Definition sample_file : list Z := lit "0123456789abcdefghij".
Definition sample_req : req := mkReq 1001 true true false (Some (lit "bytes=0-4, -5")) None None (-1) 8.
Definition sample_out : out := mkOut 200 20 (lit "text/plain") 10 (lit "utf-8") None false.
Definition sample_buf : buf := mkBuf false [] 0 0 true 0 20 false false true.

Lemma range_response_witness :
  exists h' c c' o, @ngx_http_range_header_filter lp64 (fun _ _ => 4096) 77 sample_req sample_out = Some (Next h' (Some c))
    /\ status h' = 206 /\ @send lp64 (Some c) [[sample_buf]] = Some (c', o)
    /\ Z.of_nat (length (contents sample_file o)) = content_length_n h'.
Proof.
  destruct (@range_response lp64 (fun _ _ => 4096) sample_file 77 sample_req sample_out
              (FromTo 0 [0] 0 0 [4] 0) [Suffix 1 [5] 0]) as (h' & c & E & Hst & _ & Hsend).
  - intros k n Hn. change (2 ^ @ptr_bits lp64) with (2 ^ 64). lia.
  - repeat split; vm_compute; congruence.
  - reflexivity.
  - repeat constructor; vm_compute; try congruence; intros; discriminate.
  - reflexivity.
  - reflexivity.
  - split; reflexivity.
  - destruct (Hsend [[sample_buf]]) as (c' & o & E2 & _ & Hl & _).
    + split; [|right; exists sample_buf; split; [reflexivity|intros Hm; discriminate Hm]].
      constructor; [|constructor]. constructor; [|constructor].
      split; simpl; intros Hm; try discriminate Hm; try (intros Hm2; discriminate Hm2). split; [lia|vm_compute; congruence].
    + reflexivity.
    + exists h', c, c', o. split; [exact E|]. split; [exact Hst|]. split; [exact E2|exact Hl].
Defined.
End RangeBody.
