(* ===== verification/Game2048.v ===== *)
(** * The game 2048

    The board of src/2048.c/2048.c: sliding a line in place, rotating the board in place,
    the four moves, the end of the game, the new tiles and the loop of [main] without its
    drawing.  [board[x][y]] is a list of columns [x] with elements [y] from the top, each a
    [uint16_t]; [score] is a [uint32_t].  The results of [rand] are arguments. *)

From Stdlib Require Import Sorted.
From S2P Require Import Prelude.

Module Game.

Definition SIZE : nat := 6.

Abbreviation line := (list Z).
Abbreviation board := (list (list Z)).

(** [array[i]] and [array[i] = v] *)
Definition at_ (array : line) (i : nat) : Z := nth i array 0.
Definition put (array : line) (i : nat) (v : Z) : line := <[i := v]> array.

(** The loop [for (t = x-1; t >= 0; t--)] of [findTarget], with [t = k - 1]. *)
Fixpoint target_loop (array : line) (x stop k : nat) : nat :=
  match k with
  | O => x
  | S t =>
      if negb (at_ array t =? 0) then
        if negb (at_ array t =? at_ array x) then (t + 1)%nat else t
      else if (t =? stop)%nat then t
      else target_loop array x stop t
  end.

Definition findTarget (array : line) (x stop : nat) : nat :=
  if (x =? 0)%nat then x else target_loop array x stop x.

(** The locals of [slideArray], and [score]. *)
Record slide := mkSlide { s_array : line; s_score : Z; s_stop : nat; s_success : bool }.

(** The body of its loop. *)
Definition slide_at (s : slide) (x : nat) : slide :=
  let array := s_array s in
  if negb (at_ array x =? 0) then
    let t := findTarget array x (s_stop s) in
    if negb (t =? x)%nat then
      let '(score, stop) :=
        if negb (at_ array t =? 0)
        then (uint 32 (s_score s + (at_ array t + at_ array x)), (t + 1)%nat)
        else (s_score s, s_stop s) in
      mkSlide (put (put array t (uint 16 (at_ array t + at_ array x))) x 0) score stop true
    else s
  else s.

Definition slideArray (array : line) (score : Z) : line * Z * bool :=
  let s := fold_left slide_at (seq 0 SIZE) (mkSlide array score 0 false) in
  (s_array s, s_score s, s_success s).

(** [board[i][j]] and [board[i][j] = v] *)
Definition cell (b : board) (i j : nat) : Z := at_ (nth i b []) j.
Definition set_cell (b : board) (i j : nat) (v : Z) : board := <[i := put (nth i b []) j v]> b.

(** The body of the loops of [rotateBoard]. *)
Definition rotate4 (b : board) (i j : nat) : board :=
  let n := SIZE in
  let tmp := cell b i j in
  let b := set_cell b i j (cell b j (n - i - 1)) in
  let b := set_cell b j (n - i - 1) (cell b (n - i - 1) (n - j - 1)) in
  let b := set_cell b (n - i - 1) (n - j - 1) (cell b (n - j - 1) i) in
  set_cell b (n - j - 1) i tmp.

Definition rotateBoard (b : board) : board :=
  fold_left (fun b i => fold_left (fun b j => rotate4 b i j) (seq i (SIZE - i - 1 - i)) b)
    (seq 0 (SIZE / 2)) b.

(** [moveUp]: [success |= slideArray(board[x])] for every [x]. *)
Definition moveUp (b : board) (score : Z) : board * Z * bool :=
  fold_left (fun '(b, score, success) x =>
    let '(l, score, ok) := slideArray (nth x b []) score in (<[x := l]> b, score, success || ok))
    (seq 0 SIZE) (b, score, false).

Definition moveLeft (b : board) (score : Z) : board * Z * bool :=
  let '(b, score, success) := moveUp (rotateBoard b) score in
  (rotateBoard (rotateBoard (rotateBoard b)), score, success).

Definition moveDown (b : board) (score : Z) : board * Z * bool :=
  let '(b, score, success) := moveUp (rotateBoard (rotateBoard b)) score in
  (rotateBoard (rotateBoard b), score, success).

Definition moveRight (b : board) (score : Z) : board * Z * bool :=
  let '(b, score, success) := moveUp (rotateBoard (rotateBoard (rotateBoard b))) score in
  (rotateBoard b, score, success).

Definition findPairDown (b : board) : bool :=
  existsb (fun x => existsb (fun y => cell b x y =? cell b x (y + 1)) (seq 0 (SIZE - 1))) (seq 0 SIZE).

(** The empty cells, in the order of the loops; [countEmpty] counts them. *)
Definition empties (b : board) : list (nat * nat) :=
  filter (fun xy : nat * nat => cell b xy.1 xy.2 = 0)
    (flat_map (fun x => map (fun y => (x, y)) (seq 0 SIZE)) (seq 0 SIZE)).

Definition countEmpty (b : board) : Z := Z.of_nat (length (empties b)).

(** The board is rotated four times if it is rotated at all. *)
Definition gameEnded (b : board) : bool * board :=
  if 0 <? countEmpty b then (false, b)
  else if findPairDown b then (false, b)
  else
    let b := rotateBoard b in
    let ended := negb (findPairDown b) in
    (ended, rotateBoard (rotateBoard (rotateBoard b))).

(** [addRandom], with the two results of [rand]. *)
Definition addRandom (b : board) (r1 r2 : Z) : board :=
  let list := empties b in
  if (0 <? length list)%nat then
    match list !! Z.to_nat (Z.rem r1 (Z.of_nat (length list))) with
    | Some (x, y) => set_cell b x y ((Z.quot (Z.rem r2 10) 9 + 1) * 2)
    | None => b
    end
  else b.

Definition is_board (b : board) : Prop := length b = SIZE /\ Forall (fun l => length l = SIZE) b.

(** ** Sliding a line *)

(** The tiles of a line, and merged from the front: each tile merges once.  [gain] is what
    the merges score. *)
Definition tiles (l : line) : list Z := filter (fun v => v <> 0) l.

Fixpoint merge_from (a : Z) (l : list Z) : list Z :=
  match l with
  | [] => [a]
  | b :: l' => if a =? b then (a + b) :: match l' with [] => [] | c :: l'' => merge_from c l'' end
               else a :: merge_from b l'
  end.

Definition merge (l : list Z) : list Z := match l with [] => [] | a :: l' => merge_from a l' end.

Fixpoint gain_from (a : Z) (l : list Z) : Z :=
  match l with
  | [] => 0
  | b :: l' => if a =? b then a + b + match l' with [] => 0 | c :: l'' => gain_from c l'' end
               else gain_from b l'
  end.

Definition gain (l : list Z) : Z := match l with [] => 0 | a :: l' => gain_from a l' end.

(** A line slid to its front. *)
Definition slid (l : line) : line :=
  merge (tiles l) ++ repeat 0 (length l - length (merge (tiles l))).

(** *** The loop *)

(** The slots filled so far: [done] cannot merge any more, [open] is the last tile if it
    can. *)
Definition filled (done : list Z) (open : option Z) : list Z :=
  done ++ match open with Some a => [a] | None => [] end.

Definition rest_merged (done : list Z) (open : option Z) (r : list Z) : list Z :=
  done ++ match open with Some a => merge_from a r | None => merge r end.

Definition rest_gain (open : option Z) (r : list Z) : Z :=
  match open with Some a => gain_from a r | None => gain r end.

(** Before the turn for [x], with [r] the line from [x] on and [k] empty slots. *)
Record Sliding (orig : line) (score : Z) (x : nat) (s : slide) (done : list Z) (open : option Z) (k : nat) : Prop := {
  sl_array : s_array s = filled done open ++ repeat 0 k ++ drop x orig;
  sl_length : (length (filled done open) + k = x)%nat;
  sl_tiles : Forall (fun v => v <> 0) (filled done open);
  sl_small : match open with Some a => 0 <= a < 32768 | None => True end;
  sl_stop : match open with
            | Some _ => (s_stop s <= length done)%nat
            | None => s_stop s = length done /\ (done = [] \/ (0 < k)%nat)
            end;
  sl_merged : merge (tiles orig) = rest_merged done open (tiles (drop x orig));
  sl_gain : exists g, s_score s = uint 32 (score + g) /\ g + rest_gain open (tiles (drop x orig)) = gain (tiles orig)
}.

Lemma target_zeros array x stop L k :
  (L <= k)%nat -> (forall i, (L <= i < k)%nat -> at_ array i = 0) ->
  (stop = L /\ (L < k)%nat -> target_loop array x stop k = L)
  /\ ((stop < L)%nat -> target_loop array x stop k = target_loop array x stop L).
Proof.
  intros Hle Hz. induction k as [|k IH]; [split; [lia|intros; by replace L with 0%nat by lia]|].
  destruct (decide (L = S k)) as [->|Hne]; [split; [lia|done]|].
  assert (IHk : (stop = L /\ (L < k)%nat -> target_loop array x stop k = L)
    /\ ((stop < L)%nat -> target_loop array x stop k = target_loop array x stop L))
    by (apply IH; [lia|intros i Hi; apply Hz; lia]).
  cbn [target_loop]. rewrite (Hz k) by lia. cbn [Z.eqb negb].
  split; intros Hs; destruct (Nat.eqb_spec k stop); try lia; apply IHk; lia.
Qed.

(** Positions of a line in three parts. *)
Lemma at_filled (A : list Z) k (r : list Z) i :
  (length A <= i < length A + k)%nat -> at_ (A ++ repeat 0 k ++ r) i = 0.
Proof.
  intros Hi. unfold at_. rewrite app_nth2, app_nth1 by (rewrite ?repeat_length; lia). apply nth_repeat.
Qed.

Lemma at_next (A : list Z) k b (r : list Z) : at_ (A ++ repeat 0 k ++ b :: r) (length A + k) = b.
Proof.
  unfold at_. rewrite app_nth2, app_nth2 by (rewrite ?repeat_length; lia).
  rewrite repeat_length. by replace (length A + k - length A - k)%nat with 0%nat by lia.
Qed.

Lemma at_last (M : list Z) a (r : list Z) : at_ ((M ++ [a]) ++ r) (length M) = a.
Proof. unfold at_. rewrite app_nth1, app_nth2, Nat.sub_diag by (rewrite ?length_app; simpl; lia). done. Qed.

Lemma put_move (A : list Z) k b (r : list Z) :
  put (put (A ++ repeat 0 (S k) ++ b :: r) (length A) b) (length A + S k) 0 =
    (A ++ [b]) ++ repeat 0 (S k) ++ r.
Proof.
  unfold put. rewrite (insert_app_r_alt _ _ (length A)), Nat.sub_diag by lia. cbn [repeat app list_insert].
  rewrite insert_app_r_alt by lia. replace (length A + S k - length A)%nat with (S k) by lia.
  rewrite <- app_assoc. f_equal. cbn [app]. change (<[S k:=0]> (b :: ?l)) with (b :: <[k:=0]> l).
  simpl. f_equal. rewrite insert_app_r_alt, repeat_length, Nat.sub_diag by (rewrite repeat_length; lia).
  simpl. by rewrite (app_comm_cons (repeat 0 k)), repeat_cons, <- app_assoc.
Qed.

Lemma put_merge (M : list Z) a k b (r : list Z) v :
  put (put ((M ++ [a]) ++ repeat 0 k ++ b :: r) (length M) v) (length M + 1 + k) 0 =
    (M ++ [v]) ++ repeat 0 (S k) ++ r.
Proof.
  unfold put. rewrite <- !app_assoc. rewrite insert_app_r_alt, Nat.sub_diag by lia. simpl.
  rewrite insert_app_r_alt by lia. replace (length M + 1 + k - length M)%nat with (S k) by lia. simpl.
  f_equal. f_equal. rewrite insert_app_r_alt, repeat_length, Nat.sub_diag by (rewrite repeat_length; lia).
  simpl. by rewrite (app_comm_cons (repeat 0 k)), repeat_cons, <- app_assoc.
Qed.

Lemma tiles_cons b l : tiles (b :: l) = if b =? 0 then tiles l else b :: tiles l.
Proof. unfold tiles. rewrite filter_cons. by destruct (Z.eqb_spec b 0), (decide (b <> 0)). Qed.

(** The place [findTarget] finds: the first empty slot, or the last tile. *)
Lemma find_target_spec done open k b r stop :
  match open with
  | Some _ => (stop <= length done)%nat
  | None => stop = length done /\ (done = [] \/ (0 < k)%nat)
  end -> Forall (fun v => v <> 0) (filled done open) ->
  let array := filled done open ++ repeat 0 k ++ b :: r in
  let x := (length (filled done open) + k)%nat in
  findTarget array x stop =
    match open with
    | Some a => if a =? b then length done else (length done + 1)%nat
    | None => length done
    end.
Proof.
  intros Hs Hf array x. unfold findTarget.
  pose proof (at_next (filled done open) k b r) as Hb. fold array x in Hb.
  assert (Hx : x = (length (filled done open) + k)%nat) by done. clearbody x.
  assert (Hz : forall i, (length (filled done open) <= i < x)%nat -> at_ array i = 0)
    by (intros i Hi; apply at_filled; lia).
  destruct (target_zeros array x stop (length (filled done open)) x ltac:(lia) Hz) as [H1 H2].
  destruct open as [a|]; unfold filled in *.
  - rewrite length_app in *. simpl length in *.
    rewrite (proj2 (Nat.eqb_neq x 0)) by lia. rewrite H2 by lia.
    replace (length done + 1)%nat with (S (length done)) at 1 by lia. cbn [target_loop].
    assert (Ha : at_ array (length done) = a) by apply at_last.
    apply Forall_app in Hf as [_ Ha0]. rewrite Forall_singleton in Ha0.
    rewrite Ha, Hb, (proj2 (Z.eqb_neq a 0)) by done. cbn [negb]. by destruct (a =? b).
  - rewrite app_nil_r in *. destruct Hs as [-> Hk]. destruct (Nat.eqb_spec x 0); [lia|].
    apply H1. split; [done|]. destruct Hk as [-> |]; [simpl in *; lia|lia].
Qed.

(** A tile that does not merge goes to the first empty slot. *)
Lemma slide_at_move s A k b r x :
  s_array s = A ++ repeat 0 k ++ b :: r -> x = (length A + k)%nat -> b <> 0 -> 0 <= b < 65536 ->
  findTarget (s_array s) x (s_stop s) = length A ->
  exists ok, slide_at s x = mkSlide ((A ++ [b]) ++ repeat 0 k ++ r) (s_score s) (s_stop s) ok.
Proof.
  intros Ea Ex Hb Hb16 Ht. unfold slide_at. rewrite Ht, Ea. subst x. rewrite at_next.
  rewrite (proj2 (Z.eqb_neq b 0)) by done. cbn [negb]. destruct k as [|k].
  - rewrite Nat.add_0_r, Nat.eqb_refl. cbn [negb]. exists (s_success s).
    destruct s as [arr sc st su]. simpl in *. rewrite Ea. f_equal. by rewrite <- app_assoc.
  - rewrite (proj2 (Nat.eqb_neq _ _)) by lia. cbn [negb]. rewrite at_filled by lia. cbn [Z.eqb negb].
    rewrite Z.add_0_l, uint_small by (simpl; lia). rewrite put_move. by exists true.
Qed.

(** A tile that merges with the last one. *)
Lemma slide_at_merge s M a k r x :
  s_array s = (M ++ [a]) ++ repeat 0 k ++ a :: r -> x = (length M + 1 + k)%nat -> a <> 0 ->
  0 <= a < 32768 -> findTarget (s_array s) x (s_stop s) = length M ->
  slide_at s x = mkSlide ((M ++ [a + a]) ++ repeat 0 (S k) ++ r) (uint 32 (s_score s + (a + a))) (length M + 1) true.
Proof.
  intros Ea Ex Ha Ha16 Ht. unfold slide_at. rewrite Ht, Ea. subst x.
  replace (length M + 1 + k)%nat with (length (M ++ [a]) + k)%nat by (rewrite length_app; simpl; lia).
  rewrite at_next, at_last. rewrite (proj2 (Z.eqb_neq a 0)) by done. cbn [negb].
  rewrite (proj2 (Nat.eqb_neq _ _)) by (rewrite length_app; simpl; lia). cbn [negb].
  rewrite (uint_small 16) by (simpl; lia). f_equal.
  rewrite length_app. simpl length. apply put_merge.
Qed.

Lemma sliding_step orig score x s done open k :
  Sliding orig score x s done open k -> (x < length orig)%nat ->
  Forall (fun v => 0 <= v < 32768) orig ->
  exists done' open' k', Sliding orig score (S x) (slide_at s x) done' open' k'.
Proof.
  intros [Ea El Ht Hsm Hst Hm (g & Hg & Hgg)] Hx Hv.
  destruct (lookup_lt_is_Some_2 orig x Hx) as [b Hb].
  pose proof (drop_S orig b x Hb) as Ed. rewrite Ed, tiles_cons in Hm, Hgg. rewrite Ed in Ea.
  pose proof (Forall_lookup_1 _ _ _ _ Hv Hb) as Hb16. simpl in Hb16.
  destruct (Z.eqb_spec b 0) as [->|Hb0].
  - exists done, open, (S k).
    assert (E : slide_at s x = s)
      by (unfold slide_at; rewrite Ea; replace x with (length (filled done open) + k)%nat by lia; by rewrite at_next).
    rewrite E. constructor; try done; try lia.
    + rewrite Ea. f_equal. cbn [repeat]. by rewrite repeat_cons, <- app_assoc.
    + destruct open; [done|]. split; [apply Hst|right; lia].
    + by exists g.
  - pose proof (find_target_spec done open k b (drop (S x) orig) (s_stop s) Hst Ht) as Hf. cbv zeta in Hf.
    rewrite <- Ea, El in Hf. destruct open as [a|].
    + unfold filled in Ea, El, Ht. rewrite length_app in El. simpl length in El.
      unfold rest_merged in Hm. cbn [rest_gain gain_from merge_from] in Hm, Hgg.
      destruct (Z.eqb_spec a b) as [<-|Hab].
      * exists (done ++ [a + a]), None, (S k).
        rewrite (slide_at_merge s done a k (drop (S x) orig) x) by (done || lia).
        apply Forall_app in Ht as [Ht1 Ht2].
        constructor; cbn [s_array s_score s_stop s_success rest_gain]; unfold filled, rest_merged;
          rewrite ?app_nil_r, ?length_app; cbn [length].
        -- done.
        -- lia.
        -- apply Forall_app. split; [done|]. rewrite Forall_singleton. lia.
        -- done.
        -- split; [done|right; lia].
        -- rewrite <- app_assoc. exact Hm.
        -- exists (g + (a + a)). split; [|unfold gain in *; lia].
           rewrite Hg. unfold uint. rewrite Zplus_mod_idemp_l. f_equal. lia.
      * destruct (slide_at_move s (done ++ [a]) k b (drop (S x) orig) x) as [ok ->];
          [done|rewrite length_app; simpl; lia|done|lia|by rewrite Hf, length_app|].
        exists (done ++ [a]), (Some b), k.
        constructor; cbn [s_array s_score s_stop s_success rest_gain]; unfold filled, rest_merged;
          rewrite ?length_app; cbn [length]; try done; try lia.
        -- apply Forall_app. split; [done|]. by rewrite Forall_singleton.
        -- rewrite <- app_assoc. exact Hm.
        -- by exists g.
    + destruct Hst as [Hst Hk]. unfold filled in Ea, El, Ht. rewrite app_nil_r in *.
      destruct (slide_at_move s done k b (drop (S x) orig) x) as [ok ->]; [done|lia|done|lia|done|].
      exists done, (Some b), k.
      constructor; cbn [s_array s_score s_stop s_success rest_gain]; unfold filled;
        rewrite ?length_app; cbn [length]; try done; try lia.
      * apply Forall_app. split; [done|]. by rewrite Forall_singleton.
      * by exists g.
Qed.

(** *** The whole loop *)

Lemma sliding_all orig score n s done open k x :
  Sliding orig score x s done open k -> (x + n = length orig)%nat ->
  Forall (fun v => 0 <= v < 32768) orig ->
  exists done' open' k', Sliding orig score (length orig) (fold_left slide_at (seq x n) s) done' open' k'.
Proof.
  revert x s done open k. induction n as [|n IH]; intros x s done open k HS Hn Hv.
  - replace (length orig) with x by lia. eauto.
  - cbn [seq fold_left].
    destruct (sliding_step orig score x s done open k HS) as (d' & o' & k' & HS'); [lia|done|].
    apply (IH (S x) _ d' o' k' HS'); [lia|done].
Qed.

(** The tiles counted by their places: every move and merge makes it smaller. *)
Fixpoint weight (i : Z) (l : line) : Z :=
  match l with [] => 0 | v :: l' => (if v =? 0 then 0 else i) + weight (i + 1) l' end.

Lemma weight_app i l l' : weight i (l ++ l') = weight i l + weight (i + Z.of_nat (length l)) l'.
Proof.
  revert i. induction l as [|v l IH]; intros i; simpl; [by rewrite Z.add_0_r|].
  rewrite IH. replace (i + 1 + Z.of_nat (length l)) with (i + Z.of_nat (S (length l))) by lia. lia.
Qed.

Lemma weight_put l i v :
  (i < length l)%nat ->
  weight 1 (put l i v) = weight 1 l + (if v =? 0 then 0 else 1 + Z.of_nat i) - (if at_ l i =? 0 then 0 else 1 + Z.of_nat i).
Proof.
  intros Hi. destruct (lookup_lt_is_Some_2 l i Hi) as [w Hw].
  assert (El : weight 1 l = weight 1 (take i l ++ w :: drop (S i) l)) by (by rewrite take_drop_middle).
  assert (Ea : at_ l i = w) by (unfold at_; by apply nth_lookup_Some with (d := 0) in Hw).
  rewrite Ea, El. unfold put. rewrite insert_take_drop by done.
  rewrite !weight_app, length_take_le by lia. simpl. lia.
Qed.

Lemma find_target_le array x stop : (findTarget array x stop <= x)%nat.
Proof.
  unfold findTarget. case_test; [done|]. clear.
  assert (Hk : forall k, (k <= x)%nat -> (target_loop array x stop k <= x)%nat); [|by apply Hk].
  induction k as [|k IH]; intros Hk; simpl; [lia|]. repeat case_test; lia.
Qed.

(** A turn changes nothing, or moves a tile and says so. *)
Lemma slide_at_weight s x :
  (x < length (s_array s))%nat ->
  length (s_array (slide_at s x)) = length (s_array s)
  /\ (slide_at s x = s \/ weight 1 (s_array (slide_at s x)) < weight 1 (s_array s) /\ s_success (slide_at s x) = true).
Proof.
  intros Hx. unfold slide_at. destruct (Z.eqb_spec (at_ (s_array s) x) 0) as [|Hb]; cbn [negb]; [auto|].
  pose proof (find_target_le (s_array s) x (s_stop s)) as Ht. set (t := findTarget _ _ _) in *.
  destruct (Nat.eqb_spec t x) as [|Hne]; cbn [negb]; [auto|].
  assert (Ex : at_ (put (s_array s) t (uint 16 (at_ (s_array s) t + at_ (s_array s) x))) x = at_ (s_array s) x).
  { unfold at_, put. rewrite !nth_lookup, list_lookup_insert_ne by done. done. }
  assert (Hl : forall v, length (put (s_array s) t v) = length (s_array s)) by (intros v; apply length_insert).
  destruct (Z.eqb_spec (at_ (s_array s) t) 0) as [E0|E0]; cbn [negb s_array s_success];
    (split; [unfold put; by rewrite !length_insert|right; split; [|done]]);
    rewrite !weight_put, Ex by (rewrite ?Hl; lia); rewrite (proj2 (Z.eqb_neq (at_ (s_array s) x) 0)) by done;
    cbn [Z.eqb].
  - rewrite (proj2 (Z.eqb_eq (at_ (s_array s) t) 0)) by done. case_test; lia.
  - rewrite (proj2 (Z.eqb_neq (at_ (s_array s) t) 0)) by done. case_test; lia.
Qed.

Lemma slide_success xs : forall s,
  Forall (fun x => (x < length (s_array s))%nat) xs ->
  let s' := fold_left slide_at xs s in
  s' = s \/ weight 1 (s_array s') < weight 1 (s_array s) /\ s_success s' = true.
Proof.
  induction xs as [|x xs IH]; intros s Hxs; [by left|]. apply Forall_cons in Hxs as [Hx Hxs]. simpl.
  destruct (slide_at_weight s x Hx) as [Hl Hs].
  destruct (IH (slide_at s x)) as [E|[Hw Hok]]; [by rewrite Hl| |]; cbv zeta in *.
  - rewrite E. exact Hs.
  - right. split; [|done]. destruct Hs as [E|[Hs _]]; [by rewrite E in *|lia].
Qed.

(** [slideArray] on a line of any contents below 32768. *)
Lemma slide_array_spec l score :
  length l = SIZE -> Forall (fun v => 0 <= v < 32768) l -> 0 <= score < 2 ^ 32 ->
  slideArray l score = (slid l, uint 32 (score + gain (tiles l)), negb (bool_decide (slid l = l))).
Proof.
  intros Hl Hv Hs. unfold slideArray.
  assert (HS0 : Sliding l score 0 (mkSlide l score 0 false) [] None 0).
  { constructor; simpl; rewrite ?drop_0; try done; auto.
    exists 0. rewrite Z.add_0_r, uint_small by done. split; [done|lia]. }
  destruct (sliding_all l score SIZE _ [] None 0 0 HS0 ltac:(lia) Hv) as (d & o & k & HS).
  pose proof (slide_success (seq 0 SIZE) (mkSlide l score 0 false)) as Hsu.
  cbv zeta in Hsu. set (s := fold_left slide_at _ _) in *. clearbody s.
  destruct HS as [Ea El _ _ _ Hm (g & Hg & Hgg)]. rewrite drop_all in *.
  assert (Ef : rest_merged d o [] = filled d o) by (unfold rest_merged, filled; by destruct o).
  assert (Egz : rest_gain o [] = 0) by (by destruct o).
  change (tiles []) with (@nil Z) in *. rewrite Ef in Hm. rewrite Egz in Hgg. rewrite app_nil_r in Ea.
  assert (Es : s_array s = slid l) by (rewrite Ea; unfold slid; rewrite Hm; do 2 f_equal; lia).
  assert (Esc : s_score s = uint 32 (score + gain (tiles l))) by (rewrite Hg; do 2 f_equal; lia).
  rewrite Es, Esc. f_equal.
  destruct Hsu as [E|[Hw Hok]].
  - apply Forall_forall. intros x Hx. apply elem_of_seq in Hx. simpl. lia.
  - rewrite E in Es |- *. simpl in *. by rewrite bool_decide_true.
  - rewrite Hok, bool_decide_false; [done|]. intros E. rewrite Es, E in Hw. simpl in Hw. lia.
Qed.

(** ** Boards *)

(** A board by its cells. *)
Definition tab (f : nat -> nat -> Z) : board := map (fun x => map (f x) (seq 0 SIZE)) (seq 0 SIZE).

Lemma line_tab (l : line) : length l = SIZE -> l = map (at_ l) (seq 0 SIZE).
Proof. intros Hl. destruct l as [|? [|? [|? [|? [|? [|? [|? ?]]]]]]]; done. Qed.

Lemma board_tab b : is_board b -> b = tab (cell b).
Proof.
  intros [Hl Hc]. destruct b as [|? [|? [|? [|? [|? [|? [|? ?]]]]]]]; try done.
  repeat (apply Forall_cons in Hc as [? Hc]).
  unfold tab, cell. cbn [seq map SIZE nth]. repeat f_equal; by apply line_tab.
Qed.

Lemma tab_board f : is_board (tab f).
Proof. split; [done|]. unfold tab, SIZE. cbn [seq map]. repeat constructor. Qed.

Lemma cell_tab f x y : (x < SIZE)%nat -> (y < SIZE)%nat -> cell (tab f) x y = f x y.
Proof.
  intros Hx Hy. unfold cell, tab, at_.
  do 6 (destruct x as [|x]; [do 6 (destruct y as [|y]; [done|]); unfold SIZE in *; lia|]). unfold SIZE in *. lia.
Qed.

(** [rotateBoard] takes the cell at [(y, 5 - x)] to [(x, y)]. *)
Definition turn (f : nat -> nat -> Z) (x y : nat) : Z := f y (SIZE - 1 - x)%nat.

Lemma rotate_tab f : rotateBoard (tab f) = tab (turn f).
Proof. reflexivity. Qed.

Lemma turn4 f : tab (turn (turn (turn (turn f)))) = tab f.
Proof. reflexivity. Qed.

(** *** The moves *)

Definition small (b : board) : Prop := Forall (Forall (fun v => 0 <= v < 32768)) b.

Definition gains (b : board) : Z := foldr (fun l g => gain (tiles l) + g) 0 b.
Definition moves_line (l : line) : bool := negb (bool_decide (slid l = l)).

Lemma move_up_loop rest : forall done score ok,
  Forall (fun l => length l = SIZE) rest -> small rest -> 0 <= score < 2 ^ 32 ->
  fold_left (fun '(b, score, success) x =>
    let '(l, score, ok) := slideArray (nth x b []) score in (<[x := l]> b, score, success || ok))
    (seq (length done) (length rest)) (done ++ rest, score, ok) =
  (done ++ map slid rest, uint 32 (score + gains rest), ok || existsb moves_line rest).
Proof.
  induction rest as [|l rest IH]; intros done score ok Hl Hs Hsc.
  { simpl. by rewrite Z.add_0_r, uint_small, orb_false_r. }
  apply Forall_cons in Hl as [Hl Hls]. apply Forall_cons in Hs as [Hs Hss].
  cbn [length seq fold_left]. rewrite app_nth2, Nat.sub_diag by lia. cbn [nth].
  rewrite slide_array_spec by done. rewrite insert_app_r_alt, Nat.sub_diag by lia. cbn [list_insert].
  change (<[0%nat:=slid l]> (l :: rest)) with (slid l :: rest).
  replace (done ++ slid l :: rest) with ((done ++ [slid l]) ++ rest) by (by rewrite <- app_assoc).
  replace (S (length done)) with (length (done ++ [slid l])) by (rewrite length_app; simpl; lia).
  rewrite IH by (done || (apply uint_range; lia)). cbn [map gains foldr existsb].
  rewrite <- app_assoc, orb_assoc. f_equal. f_equal. unfold uint.
  rewrite Zplus_mod_idemp_l. f_equal. fold (gains rest). lia.
Qed.

Lemma move_up_spec b score :
  is_board b -> small b -> 0 <= score < 2 ^ 32 ->
  moveUp b score = (map slid b, uint 32 (score + gains b), existsb moves_line b).
Proof.
  intros [Hl Hc] Hs Hsc. unfold moveUp. rewrite <- Hl. apply (move_up_loop b [] score false); done.
Qed.

(** Sliding keeps the length of a line. *)
Lemma merge_from_length a l : (length (merge_from a l) <= S (length l))%nat.
Proof.
  revert a. induction l as [l IH] using (induction_ltof1 _ (@length Z)); unfold ltof in IH. intros a.
  destruct l as [|b l]; simpl; [lia|]. case_test; simpl.
  - destruct l as [|c l]; simpl; [lia|]. specialize (IH l ltac:(simpl; lia) c). lia.
  - specialize (IH l ltac:(simpl; lia) b). lia.
Qed.

Lemma merge_length l : (length (merge l) <= length l)%nat.
Proof. destruct l; [done|]. apply merge_from_length. Qed.

Lemma slid_length l : length (slid l) = length l.
Proof.
  unfold slid. rewrite length_app, repeat_length. pose proof (merge_length (tiles l)).
  assert (length (tiles l) <= length l)%nat by (apply length_filter). lia.
Qed.

(** Columns from the top and rows from the left. *)
Definition col (f : nat -> nat -> Z) (x : nat) : line := map (f x) (seq 0 SIZE).
Definition row (f : nat -> nat -> Z) (y : nat) : line := map (fun x => f x y) (seq 0 SIZE).

(** The board with every column, or every row, slid towards its start or its end. *)
Definition up (f : nat -> nat -> Z) (x y : nat) : Z := at_ (slid (col f x)) y.
Definition left (f : nat -> nat -> Z) (x y : nat) : Z := at_ (slid (row f y)) x.
Definition down (f : nat -> nat -> Z) (x y : nat) : Z := at_ (slid (rev (col f x))) (SIZE - 1 - y).
Definition right (f : nat -> nat -> Z) (x y : nat) : Z := at_ (slid (rev (row f y))) (SIZE - 1 - x).

Lemma slid_tab f : map slid (tab f) = tab (up f).
Proof.
  unfold tab, up. rewrite map_map. apply map_ext. intros x. apply line_tab.
  rewrite slid_length. unfold col. by rewrite length_map, length_seq.
Qed.

Lemma small_tab f : small (tab f) <-> forall x y, (x < SIZE)%nat -> (y < SIZE)%nat -> 0 <= f x y < 32768.
Proof.
  unfold small, tab. rewrite Forall_map, Forall_seq. unfold compose. split.
  - intros Hs x y Hx Hy. specialize (Hs x ltac:(lia)). rewrite Forall_map, Forall_seq in Hs.
    apply Hs. lia.
  - intros Hs x Hx. rewrite Forall_map, Forall_seq. intros y Hy. apply Hs; lia.
Qed.

Lemma small_turn f : small (tab f) -> small (tab (turn f)).
Proof. rewrite !small_tab. intros Hs x y Hx Hy. apply Hs; unfold SIZE in *; lia. Qed.

(** What a turned board shows as columns. *)
Lemma up_turn1 f : tab (turn (turn (turn (up (turn f))))) = tab (left f).
Proof. reflexivity. Qed.
Lemma up_turn2 f : tab (turn (turn (up (turn (turn f))))) = tab (down f).
Proof. reflexivity. Qed.
Lemma up_turn3 f : tab (turn (up (turn (turn (turn f))))) = tab (right f).
Proof. reflexivity. Qed.

Definition moves_some (lines : nat -> line) : bool := existsb (fun i => moves_line (lines i)) (seq 0 SIZE).

Lemma moves_tab f : existsb moves_line (tab f) = moves_some (col f).
Proof. reflexivity. Qed.

Definition gains_some (lines : nat -> line) : Z :=
  foldr (fun i g => gain (tiles (lines i)) + g) 0 (seq 0 SIZE).

(** The lines may be counted from the other end. *)
Lemma moves_some_flip lines : moves_some (fun i => lines (SIZE - 1 - i)%nat) = moves_some lines.
Proof.
  unfold moves_some, SIZE. cbn [seq existsb Nat.sub].
  destruct (moves_line (lines 0%nat)), (moves_line (lines 1%nat)), (moves_line (lines 2%nat)),
    (moves_line (lines 3%nat)), (moves_line (lines 4%nat)), (moves_line (lines 5%nat)); done.
Qed.

Lemma gains_some_flip lines : gains_some (fun i => lines (SIZE - 1 - i)%nat) = gains_some lines.
Proof. unfold gains_some, SIZE. cbn [seq foldr Nat.sub]. lia. Qed.

Lemma move_up_tab f score :
  small (tab f) -> 0 <= score < 2 ^ 32 ->
  moveUp (tab f) score = (tab (up f), uint 32 (score + gains_some (col f)), moves_some (col f)).
Proof.
  intros Hs Hsc. rewrite move_up_spec by (done || apply tab_board). rewrite slid_tab. done.
Qed.

(** The four moves on a board of cells [f]: the slid board, the score, and whether a line
    has moved. *)
Lemma moves_spec f score :
  small (tab f) -> 0 <= score < 2 ^ 32 ->
  moveUp (tab f) score = (tab (up f), uint 32 (score + gains_some (col f)), moves_some (col f))
  /\ moveLeft (tab f) score = (tab (left f), uint 32 (score + gains_some (row f)), moves_some (row f))
  /\ moveDown (tab f) score = (tab (down f), uint 32 (score + gains_some (fun x => rev (col f x))),
        moves_some (fun x => rev (col f x)))
  /\ moveRight (tab f) score = (tab (right f), uint 32 (score + gains_some (fun y => rev (row f y))),
        moves_some (fun y => rev (row f y))).
Proof.
  intros Hs Hsc. unfold moveLeft, moveDown, moveRight. rewrite !rotate_tab.
  pose proof (small_turn _ Hs) as Hs1. pose proof (small_turn _ Hs1) as Hs2.
  pose proof (small_turn _ Hs2) as Hs3. rewrite !move_up_tab by done. rewrite !rotate_tab.
  rewrite up_turn1, up_turn2, up_turn3.
  change (col (turn f)) with (fun i => row f (SIZE - 1 - i)%nat).
  split_and!; [done| | |reflexivity].
  - by rewrite (gains_some_flip (row f)), (moves_some_flip (row f)).
  - by rewrite <- (gains_some_flip (fun x => rev (col f x))), <- (moves_some_flip (fun x => rev (col f x))).
Qed.

(** ** The end of the game *)

(** A line that does not move: its tiles come first, and no two neighbours are equal. *)
Lemma merge_from_fixed a l : merge_from a l = a :: l -> Sorted (fun v w => v <> w) (a :: l).
Proof.
  revert a. induction l as [|b l IH]; intros a Hm; [repeat constructor|]. simpl in Hm.
  destruct (Z.eqb_spec a b) as [Hab|Hab].
  - exfalso. apply (f_equal length) in Hm. cbn [length] in Hm. pose proof (merge_length l) as Hl.
    unfold merge in Hl. lia.
  - injection Hm as Hm. constructor; [by apply IH|by constructor].
Qed.

Lemma merge_from_distinct a l : Sorted (fun v w => v <> w) (a :: l) -> merge_from a l = a :: l.
Proof.
  revert a. induction l as [|b l IH]; intros a Hs; [done|]. simpl.
  apply Sorted_inv in Hs as [Hs Hh]. apply HdRel_inv in Hh.
  rewrite (proj2 (Z.eqb_neq a b)) by done. by rewrite IH.
Qed.

Lemma merge_nonzero l : Forall (fun v => 0 < v) l -> Forall (fun v => v <> 0) (merge l).
Proof.
  assert (Hm : forall n a l, (length l <= n)%nat -> 0 < a -> Forall (fun v => 0 < v) l ->
    Forall (fun v => v <> 0) (merge_from a l)).
  { induction n as [|n IH]; intros a k Hn Ha Hk; destruct k as [|b k]; simpl in *; try lia;
      try (repeat constructor; lia).
    apply Forall_cons in Hk as [Hb Hk]. case_test; constructor; try lia.
    - destruct k as [|c k]; [done|]. apply Forall_cons in Hk as [Hc Hk]. apply IH; [simpl in *; lia|done..].
    - apply IH; [lia|done..]. }
  intros Hl. destruct Hl as [|a l Ha Hl]; [done|]. by apply (Hm (length l)).
Qed.

Lemma tiles_app l k : tiles (l ++ k) = tiles l ++ tiles k.
Proof. apply filter_app. Qed.

Lemma tiles_zeros n : tiles (repeat 0 n) = [].
Proof. induction n; [done|]. simpl. by rewrite tiles_cons. Qed.

Lemma tiles_id l : Forall (fun v => v <> 0) l -> tiles l = l.
Proof. induction 1 as [|v l Hv _ IH]; [done|]. by rewrite tiles_cons, (proj2 (Z.eqb_neq v 0)), IH. Qed.

Lemma tiles_pos l : Forall (fun v => 0 <= v) l -> Forall (fun v => 0 < v) (tiles l).
Proof. induction 1 as [|v l Hv _ IH]; [constructor|]. rewrite tiles_cons. destruct (Z.eqb_spec v 0); [done|]. constructor; [lia|done]. Qed.

Lemma tiles_nonzero l : Forall (fun v => v <> 0) (tiles l).
Proof. induction l as [|v l IH]; [constructor|]. rewrite tiles_cons. destruct (Z.eqb_spec v 0); [done|]. by constructor. Qed.

Lemma slid_fixed l :
  Forall (fun v => 0 <= v) l -> slid l = l ->
  l = tiles l ++ repeat 0 (length l - length (tiles l)) /\ Sorted (fun v w => v <> w) (tiles l).
Proof.
  intros Hp Hs. pose proof (merge_nonzero _ (tiles_pos _ Hp)) as Hn.
  assert (Et : merge (tiles l) = tiles l).
  { rewrite <- Hs at 2. unfold slid. rewrite tiles_app, tiles_zeros, app_nil_r. symmetry. by apply tiles_id. }
  split.
  - unfold slid in Hs. rewrite Et in Hs. done.
  - destruct (tiles l) as [|a r]; [constructor|]. by apply merge_from_fixed.
Qed.

Lemma slid_distinct l :
  Forall (fun v => v <> 0) l -> Sorted (fun v w => v <> w) l -> slid l = l.
Proof.
  intros Hn Hs. unfold slid. rewrite tiles_id by done.
  assert (Em : merge l = l) by (destruct l; [done|by apply merge_from_distinct]).
  by rewrite Em, Nat.sub_diag, app_nil_r.
Qed.

(** A line that moves in neither direction is empty or full. *)
Lemma stuck_line l :
  Forall (fun v => 0 <= v) l -> slid l = l -> slid (rev l) = rev l ->
  Forall (fun v => v = 0) l \/ Forall (fun v => v <> 0) l.
Proof.
  intros Hp Hs Hr. destruct (slid_fixed l Hp Hs) as [El _].
  destruct (slid_fixed (rev l)) as [Er _]; [by apply Forall_rev|done|].
  destruct (length l - length (tiles l))%nat as [|n] eqn:En.
  - right. rewrite El, app_nil_r. apply tiles_nonzero.
  - left. assert (Hh : hd 1 (rev l) = 0).
    { rewrite El. cbn [repeat]. by rewrite repeat_cons, app_assoc, rev_app_distr. }
    pose proof (tiles_nonzero (rev l)) as Ht. rewrite Er in Hh.
    destruct (tiles (rev l)) as [|v r]; [|simpl in Hh; subst v; by apply Forall_cons in Ht as [? _]].
    rewrite <- (rev_involutive l), Er. apply Forall_rev. simpl. apply Forall_forall.
    intros w Hw. by apply list_elem_of_In, repeat_spec in Hw.
Qed.

(** *** The tests of [gameEnded] *)

Lemma sorted6 (a b c d e g : Z) :
  Sorted (fun v w => v <> w) [a; b; c; d; e; g] <-> a <> b /\ b <> c /\ c <> d /\ d <> e /\ e <> g.
Proof.
  split.
  - intros Hs. repeat match goal with H : Sorted _ (_ :: _ :: _) |- _ =>
      apply Sorted_inv in H as [H Hh]; apply HdRel_inv in Hh; revert Hh end. intros. tauto.
  - intros (H1 & H2 & H3 & H4 & H5). repeat constructor; done.
Qed.

Definition distinct_cols (f : nat -> nat -> Z) : Prop :=
  forall x, (x < SIZE)%nat -> Sorted (fun v w => v <> w) (col f x).

Lemma find_pair_spec f : findPairDown (tab f) = false <-> distinct_cols f.
Proof.
  unfold findPairDown. rewrite <- not_true_iff_false, existsb_exists. split.
  - intros Hn x Hx. apply sorted6.
    assert (Hy : forall y, (y < 5)%nat -> f x y <> f x (S y)).
    { intros y Hy E. apply Hn. exists x. split; [apply in_seq; lia|]. apply existsb_exists.
      exists y. split; [apply in_seq; unfold SIZE; lia|]. apply Z.eqb_eq.
      rewrite !cell_tab by (unfold SIZE in *; lia). by rewrite Nat.add_1_r. }
    split_and!; apply Hy; lia.
  - intros Hd (x & Hx & Hp). apply in_seq in Hx. apply existsb_exists in Hp as (y & Hy & Hp).
    apply in_seq in Hy. apply Z.eqb_eq in Hp. rewrite !cell_tab in Hp by (unfold SIZE in *; lia).
    specialize (Hd x ltac:(lia)). apply sorted6 in Hd. unfold SIZE in Hy.
    assert (y = 0 \/ y = 1 \/ y = 2 \/ y = 3 \/ y = 4)%nat as Hc by lia.
    decompose [or] Hc; subst y; simpl in Hp; tauto.
Qed.

Lemma count_empty_spec f :
  countEmpty (tab f) = 0 <-> forall x y, (x < SIZE)%nat -> (y < SIZE)%nat -> f x y <> 0.
Proof.
  unfold countEmpty, empties. split.
  - intros Hc x y Hx Hy E. set (l := filter _ _) in Hc. assert (Hin : (x, y) ∈ l).
    { unfold l. apply list_elem_of_filter. split; [simpl; by rewrite cell_tab|].
      apply list_elem_of_In, in_flat_map. exists x. split; [apply in_seq; lia|].
      apply in_map_iff. exists y. split; [done|]. apply in_seq. lia. }
    destruct l; [by apply not_elem_of_nil in Hin|simpl in Hc; lia].
  - intros Hn. set (l := filter _ _). destruct l as [|[x y] r] eqn:El; [done|exfalso].
    assert (Hin : (x, y) ∈ l) by (rewrite El; apply list_elem_of_here). unfold l in Hin.
    apply list_elem_of_filter in Hin as [Hz Hin]. simpl in Hz.
    apply list_elem_of_In, in_flat_map in Hin as (x' & Hx & Hin). apply in_seq in Hx.
    apply in_map_iff in Hin as (y' & [= <- <-] & Hy). apply in_seq in Hy.
    rewrite cell_tab in Hz by lia. apply (Hn x' y'); [lia|lia|done].
Qed.

(** No line of the board moves: the game is over. *)
Definition over (f : nat -> nat -> Z) : Prop :=
  (forall x y, (x < SIZE)%nat -> (y < SIZE)%nat -> f x y <> 0)
  /\ distinct_cols f /\ forall y, (y < SIZE)%nat -> Sorted (fun v w => v <> w) (row f y).

Lemma game_ended_spec f : gameEnded (tab f) = (true, tab f) /\ over f \/ gameEnded (tab f) = (false, tab f) /\ ~ over f.
Proof.
  unfold gameEnded. destruct (Z.ltb_spec 0 (countEmpty (tab f))) as [Hc|Hc].
  { right. split; [done|]. intros (Hn & _). apply count_empty_spec in Hn. lia. }
  assert (Hn0 : countEmpty (tab f) = 0) by (unfold countEmpty in *; lia).
  pose proof (proj1 (count_empty_spec f) Hn0) as Hn.
  destruct (findPairDown (tab f)) eqn:Ep.
  { right. split; [done|]. intros (_ & Hd & _). apply find_pair_spec in Hd. congruence. }
  apply find_pair_spec in Ep. rewrite !rotate_tab, turn4.
  destruct (findPairDown (tab (turn f))) eqn:Et; [right|left]; (split; [done|]).
  - intros (_ & _ & Hr). apply not_false_iff_true in Et. apply Et, find_pair_spec.
    intros x Hx. exact (Hr (SIZE - 1 - x)%nat ltac:(lia)).
  - split; [done|]. split; [done|]. apply find_pair_spec in Et. intros y Hy.
    specialize (Et (SIZE - 1 - y)%nat ltac:(lia)).
    replace (row f y) with (col (turn f) (SIZE - 1 - y)); [done|].
    unfold col, turn, row. apply map_ext. intros x. f_equal. lia.
Qed.

(** *** No move is left *)

Lemma moves_some_false lines :
  moves_some lines = false <-> forall i, (i < SIZE)%nat -> slid (lines i) = lines i.
Proof.
  unfold moves_some, moves_line. rewrite <- not_true_iff_false, existsb_exists. split.
  - intros Hn i Hi. destruct (decide (slid (lines i) = lines i)) as [|Hne]; [done|exfalso].
    apply Hn. exists i. split; [apply in_seq; lia|]. by rewrite bool_decide_false.
  - intros Hs (i & Hi & Hm). apply in_seq in Hi. rewrite bool_decide_true in Hm; [done|]. apply Hs. lia.
Qed.

Definition stuck (f : nat -> nat -> Z) : Prop :=
  moves_some (col f) = false /\ moves_some (row f) = false
  /\ moves_some (fun x => rev (col f x)) = false /\ moves_some (fun y => rev (row f y)) = false.

Lemma line_cells (P : Z -> Prop) (g : nat -> Z) :
  Forall P (map g (seq 0 SIZE)) <-> forall i, (i < SIZE)%nat -> P (g i).
Proof. rewrite Forall_map, Forall_seq. split; intros Hp i Hi; apply Hp; lia. Qed.

Lemma over_stuck f : over f -> stuck f.
Proof.
  intros (Hn & Hc & Hr).
  assert (Hcn : forall x, (x < SIZE)%nat -> Forall (fun v => v <> 0) (col f x))
    by (intros x Hx; apply line_cells; auto).
  assert (Hrn : forall y, (y < SIZE)%nat -> Forall (fun v => v <> 0) (row f y))
    by (intros y Hy; apply line_cells; auto).
  assert (Hrev : forall a b c d e g : Z, Sorted (fun v w => v <> w) [a; b; c; d; e; g] ->
    Sorted (fun v w => v <> w) [g; e; d; c; b; a])
    by (intros a b c d e g; rewrite !sorted6; intuition congruence).
  unfold stuck. rewrite !moves_some_false. split_and!; intros i Hi; apply slid_distinct; auto using Forall_rev.
  - exact (Hrev _ _ _ _ _ _ (Hc i Hi)).
  - exact (Hrev _ _ _ _ _ _ (Hr i Hi)).
Qed.

Lemma stuck_over f x0 y0 :
  small (tab f) -> (x0 < SIZE)%nat -> (y0 < SIZE)%nat -> f x0 y0 <> 0 -> stuck f -> over f.
Proof.
  intros Hs Hx0 Hy0 Hf (Hu & Hl & Hd & Hr). rewrite moves_some_false in Hu, Hl, Hd, Hr.
  rewrite small_tab in Hs.
  assert (Hcp : forall x, (x < SIZE)%nat -> Forall (fun v => 0 <= v) (col f x))
    by (intros x Hx; apply line_cells; intros y Hy; apply Hs; done).
  assert (Hrp : forall y, (y < SIZE)%nat -> Forall (fun v => 0 <= v) (row f y))
    by (intros y Hy; apply line_cells; intros x Hx; apply Hs; done).
  assert (Hn : forall x y, (x < SIZE)%nat -> (y < SIZE)%nat -> f x y <> 0).
  { intros x y Hx Hy.
    assert (H1 : f x0 y <> 0).
    { destruct (stuck_line (col f x0)) as [Hz|Hz]; auto; apply (proj1 (line_cells _ _)) with (i := y0) in Hz as Hz0;
        try done. by apply (proj1 (line_cells _ _)) with (i := y) in Hz. }
    destruct (stuck_line (row f y)) as [Hz|Hz]; auto.
    - by apply (proj1 (line_cells _ (fun x => f x y))) with (i := x0) in Hz.
    - by apply (proj1 (line_cells _ (fun x => f x y))) with (i := x) in Hz. }
  split; [done|]. split.
  - intros x Hx. destruct (slid_fixed (col f x)) as [_ Hd']; auto.
    rewrite tiles_id in Hd'; [done|]. apply line_cells. auto.
  - intros y Hy. destruct (slid_fixed (row f y)) as [_ Hd']; auto.
    rewrite tiles_id in Hd'; [done|]. apply (line_cells _ (fun x => f x y)). auto.
Qed.

(** *** New tiles *)

(** [addRandom] puts a 2 or a 4 into one empty cell, and changes nothing else; on a full
    board it does nothing. *)
Lemma add_random_spec b r1 r2 :
  is_board b -> 0 <= r1 -> 0 <= r2 ->
  (countEmpty b = 0 /\ addRandom b r1 r2 = b)
  \/ exists x y v, (x < SIZE)%nat /\ (y < SIZE)%nat /\ cell b x y = 0 /\ (v = 2 \/ v = 4)
     /\ addRandom b r1 r2 = set_cell b x y v.
Proof.
  intros Hb H1 H2. unfold addRandom, countEmpty. set (l := empties b).
  destruct (Nat.ltb_spec 0 (length l)) as [Hl|Hl]; [right|left; split; [lia|done]].
  assert (Hr : 0 <= Z.rem r1 (Z.of_nat (length l)) < Z.of_nat (length l)) by (apply Z.rem_bound_pos; lia).
  destruct (lookup_lt_is_Some_2 l (Z.to_nat (Z.rem r1 (Z.of_nat (length l))))) as [[x y] E]; [lia|].
  rewrite E. apply list_elem_of_lookup_2 in E. unfold l, empties in E.
  apply list_elem_of_filter in E as [Hz Hin]. simpl in Hz.
  apply list_elem_of_In, in_flat_map in Hin as (x' & Hx & Hin). apply in_seq in Hx.
  apply in_map_iff in Hin as (y' & [= <- <-] & Hy). apply in_seq in Hy.
  exists x', y', ((Z.quot (Z.rem r2 10) 9 + 1) * 2). split_and!; try done; try lia.
  assert (0 <= Z.rem r2 10 < 10) by (apply Z.rem_bound_pos; lia).
  rewrite Z.quot_div_nonneg by lia.
  assert (Z.rem r2 10 / 9 = 0 \/ Z.rem r2 10 / 9 = 1) as [->| ->] by (Z.to_euclidean_division_equations; lia); auto.
Qed.

(** ** Theorems *)

(** C39: the four moves, done in place by rotating the board and sliding its columns, slide
    every column up or down, or every row left or right: the tiles close up, equal
    neighbours merge once, starting at the side they slide to; the score grows by what was
    merged, and the result tells whether a line changed. *)
Theorem moves_correct b score :
  is_board b -> small b -> 0 <= score < 2 ^ 32 ->
  let f := cell b in
  moveUp b score = (tab (up f), uint 32 (score + gains_some (col f)), moves_some (col f))
  /\ moveLeft b score = (tab (left f), uint 32 (score + gains_some (row f)), moves_some (row f))
  /\ moveDown b score = (tab (down f), uint 32 (score + gains_some (fun x => rev (col f x))),
        moves_some (fun x => rev (col f x)))
  /\ moveRight b score = (tab (right f), uint 32 (score + gains_some (fun y => rev (row f y))),
        moves_some (fun y => rev (row f y))).
Proof.
  intros Hb Hs Hsc f. pose proof (board_tab b Hb) as E. fold f in E. clearbody f. subst b. by apply moves_spec.
Qed.

Definition sample : board :=
  [[2; 2; 0; 4; 4; 4]; [0; 0; 0; 0; 0; 2]; [2; 0; 0; 8; 0; 2]; [0; 0; 0; 0; 0; 0]; [4; 4; 2; 2; 0; 0]; [0; 2; 0; 2; 0; 4]].

Lemma moves_correct_witness :
  moveLeft sample 10 = (tab (left (cell sample)), 22, true).
Proof.
  refine (proj1 (proj2 (moves_correct sample 10 _ _ _))).
  - split; [done|]. by apply (bool_decide_unpack _).
  - by apply (bool_decide_unpack _).
  - split; [lia|reflexivity].
Defined.

(** On a board with a tile, [gameEnded] says that the game is over exactly when none of
    the four moves can change the board, and leaves the board as it was. *)
Theorem game_ended_stuck b score x y :
  is_board b -> small b -> 0 <= score < 2 ^ 32 -> (x < SIZE)%nat -> (y < SIZE)%nat -> cell b x y <> 0 ->
  exists ended, gameEnded b = (ended, b)
    /\ (ended = true <-> (moveUp b score).2 = false /\ (moveLeft b score).2 = false
         /\ (moveDown b score).2 = false /\ (moveRight b score).2 = false).
Proof.
  intros Hb Hs Hsc Hx Hy Hc. pose proof (board_tab b Hb) as E. set (f := cell b) in *. clearbody f. subst b.
  destruct (moves_spec f score Hs Hsc) as (-> & -> & -> & ->). cbn [snd].
  destruct (game_ended_spec f) as [[-> Ho]|[-> Ho]]; eexists; (split; [done|]).
  - split; [|done]. intros _. by apply over_stuck.
  - split; [done|]. intros Hst. exfalso. by apply Ho, (stuck_over f x y).
Qed.

Lemma game_ended_stuck_witness :
  exists ended, gameEnded sample = (ended, sample)
    /\ (ended = true <-> (moveUp sample 0).2 = false /\ (moveLeft sample 0).2 = false
         /\ (moveDown sample 0).2 = false /\ (moveRight sample 0).2 = false).
Proof.
  apply (game_ended_stuck sample 0 0 0); try (by apply (bool_decide_unpack _)); try (unfold SIZE; lia); try done.
Defined.

(** ** Playing *)

(** The states [main] goes through: after the start, after a successful move and the new
    tile, and after a restart, which clears the board but not the score. *)
Definition zero_board : board := tab (fun _ _ => 0).

Inductive reachable : board -> Z -> Prop :=
  | r_start r1 r2 r3 r4 : 0 <= r1 -> 0 <= r2 -> 0 <= r3 -> 0 <= r4 ->
      reachable (addRandom (addRandom zero_board r1 r2) r3 r4) 0
  | r_move b score move b' score' r1 r2 : reachable b score ->
      In move [moveLeft; moveRight; moveUp; moveDown] -> move b score = (b', score', true) ->
      0 <= r1 -> 0 <= r2 -> reachable (addRandom b' r1 r2) score'
  | r_restart b score r1 r2 r3 r4 : reachable b score -> 0 <= r1 -> 0 <= r2 -> 0 <= r3 -> 0 <= r4 ->
      reachable (addRandom (addRandom zero_board r1 r2) r3 r4) score.

(** A cell: an even number that fits a [uint16_t]. *)
Definition tile_ok (v : Z) : Prop := 0 <= v < 65536 /\ Z.even v = true.

Definition board_ok (b : board) : Prop := is_board b /\ Forall (Forall tile_ok) b.

Lemma tile_ok_0 : tile_ok 0.
Proof. done. Qed.

Lemma at_ok l i : Forall tile_ok l -> tile_ok (at_ l i).
Proof.
  intros Hl. unfold at_. rewrite nth_lookup. destruct (l !! i) eqn:E; simpl; [|done].
  exact (Forall_lookup_1 _ _ _ _ Hl E).
Qed.

Lemma put_ok l i v : Forall tile_ok l -> tile_ok v -> Forall tile_ok (put l i v).
Proof. intros Hl Hv. by apply Forall_insert. Qed.

Lemma sum_ok v w : tile_ok v -> tile_ok w -> tile_ok (uint 16 (v + w)).
Proof.
  intros [Hv Ev] [Hw Ew]. split; [apply uint_range; lia|]. unfold uint. change (2 ^ 16) with (2 * 32768).
  rewrite Z.even_spec in *. destruct Ev as [a ->], Ew as [c ->].
  rewrite <- Z.mul_add_distr_l, Z.mul_mod_distr_l by lia. by exists ((a + c) mod 32768).
Qed.

Lemma slide_at_ok s x :
  Forall tile_ok (s_array s) ->
  Forall tile_ok (s_array (slide_at s x)) /\ length (s_array (slide_at s x)) = length (s_array s).
Proof.
  intros Hs. unfold slide_at. destruct (negb (at_ (s_array s) x =? 0)); [|done].
  set (t := findTarget _ _ _). destruct (negb (t =? x)%nat); [|done].
  destruct (negb (at_ (s_array s) t =? 0)); cbn [s_array]; (split; [|unfold put; by rewrite !length_insert]);
    repeat apply put_ok; auto using tile_ok_0, sum_ok, at_ok.
Qed.

Lemma slide_array_ok l score l' score' ok :
  Forall tile_ok l -> slideArray l score = (l', score', ok) -> Forall tile_ok l' /\ length l' = length l.
Proof.
  intros Hl E. unfold slideArray in E.
  assert (Hf : forall xs s, Forall tile_ok (s_array s) -> Forall tile_ok (s_array (fold_left slide_at xs s))
    /\ length (s_array (fold_left slide_at xs s)) = length (s_array s)).
  { induction xs as [|x xs IH]; intros s Hs; [done|]. cbn [fold_left].
    destruct (slide_at_ok s x Hs) as [H1 H2]. destruct (IH _ H1) as [H3 H4]. split; [done|congruence]. }
  pose proof (Hf (seq 0 SIZE) (mkSlide l score 0 false) Hl) as Hs.
  set (s := fold_left slide_at _ _) in *. clearbody s. by simplify_eq.
Qed.

Lemma move_up_ok b score b' score' ok :
  board_ok b -> moveUp b score = (b', score', ok) -> board_ok b'.
Proof.
  unfold moveUp. generalize (seq 0 SIZE) as xs. intros xs. generalize false as o. revert b score.
  induction xs as [|x xs IH]; intros b score o Hb E; cbn [fold_left] in E; [by simplify_eq|].
  destruct (slideArray (nth x b []) score) as [[l sc] k] eqn:Es.
  apply IH in E; [done|]. destruct Hb as [[Hl Hc] Ht].
  destruct (Nat.lt_ge_cases x (length b)) as [Hx|Hx]; [|rewrite list_insert_ge by done; done].
  destruct (lookup_lt_is_Some_2 b x Hx) as [m Hm].
  assert (En : nth x b [] = m) by (by apply nth_lookup_Some with (d := []) in Hm). rewrite En in Es.
  destruct (slide_array_ok _ _ _ _ _ (Forall_lookup_1 _ _ _ _ Ht Hm) Es) as [H1 H2].
  repeat split; [by rewrite length_insert|apply Forall_insert; [done|]|by apply Forall_insert].
  rewrite H2. exact (Forall_lookup_1 _ _ _ _ Hc Hm).
Qed.

Lemma tab_ok f : (forall x y, (x < SIZE)%nat -> (y < SIZE)%nat -> tile_ok (f x y)) <-> board_ok (tab f).
Proof.
  unfold board_ok, tab. rewrite Forall_map, Forall_seq. unfold compose. split.
  - intros Hf. split; [apply tab_board|]. intros x Hx. apply line_cells. intros y Hy. apply Hf; lia.
  - intros [_ Hf] x y Hx Hy. specialize (Hf x ltac:(lia)). by apply (proj1 (line_cells _ _)) with (i := y) in Hf.
Qed.

Lemma rotate_ok b : board_ok b -> board_ok (rotateBoard b).
Proof.
  intros Hb. rewrite (board_tab b) in Hb |- * by apply Hb. rewrite rotate_tab.
  apply tab_ok. intros x y Hx Hy. apply (proj2 (tab_ok _) Hb); [done|unfold SIZE in *; lia].
Qed.

Lemma move_ok move b score b' score' ok :
  In move [moveLeft; moveRight; moveUp; moveDown] -> board_ok b -> move b score = (b', score', ok) -> board_ok b'.
Proof.
  intros Hm Hb E. simpl in Hm. decompose [or] Hm; try done; subst move;
    unfold moveLeft, moveRight, moveDown in E; try (by eapply move_up_ok);
    match type of E with context [moveUp ?c ?s] => destruct (moveUp c s) as [[c' s'] k] eqn:Eu end;
    apply move_up_ok in Eu; [|repeat apply rotate_ok; done|..]; simplify_eq; repeat apply rotate_ok; done.
Qed.

(** Writing a cell. *)
Lemma set_cell_spec b x y v :
  is_board b -> (x < SIZE)%nat -> (y < SIZE)%nat -> cell (set_cell b x y v) x y = v.
Proof.
  intros [Hl Hc] Hx Hy. unfold cell, set_cell, at_, put.
  rewrite (nth_lookup_Some _ _ [] _ (list_lookup_insert_eq b x _ ltac:(lia))).
  destruct (lookup_lt_is_Some_2 b x ltac:(lia)) as [l Hb].
  rewrite (nth_lookup_Some _ _ [] _ Hb). pose proof (Forall_lookup_1 _ _ _ _ Hc Hb) as Hll. simpl in Hll.
  by rewrite (nth_lookup_Some _ _ 0 _ (list_lookup_insert_eq l y v ltac:(lia))).
Qed.

Lemma set_cell_ok b x y v : board_ok b -> tile_ok v -> board_ok (set_cell b x y v).
Proof.
  intros [[Hl Hc] Ht] Hv. unfold set_cell.
  destruct (Nat.lt_ge_cases x (length b)) as [Hx|Hx]; [|by rewrite list_insert_ge by done].
  destruct (lookup_lt_is_Some_2 b x Hx) as [l Hb]. rewrite (nth_lookup_Some _ _ [] _ Hb).
  repeat split; [by rewrite length_insert|apply Forall_insert; [done|]|apply Forall_insert; [done|]].
  - unfold put. rewrite length_insert. exact (Forall_lookup_1 _ _ _ _ Hc Hb).
  - apply put_ok; [exact (Forall_lookup_1 _ _ _ _ Ht Hb)|done].
Qed.

(** A new tile leaves a board with a tile. *)
Lemma add_random_ok b r1 r2 :
  board_ok b -> 0 <= r1 -> 0 <= r2 ->
  board_ok (addRandom b r1 r2)
  /\ exists x y, (x < SIZE)%nat /\ (y < SIZE)%nat /\ cell (addRandom b r1 r2) x y <> 0.
Proof.
  intros Hb H1 H2. pose proof (proj1 Hb) as Hi.
  destruct (add_random_spec b r1 r2 Hi H1 H2) as [[Hc ->]|(x & y & v & Hx & Hy & _ & Hv & ->)].
  - split; [done|]. exists 0%nat, 0%nat. split; [unfold SIZE; lia|]. split; [unfold SIZE; lia|].
    rewrite (board_tab b Hi) in Hc. apply (proj1 (count_empty_spec _) Hc); unfold SIZE; lia.
  - split; [apply set_cell_ok; [done|by destruct Hv as [->| ->]]|].
    exists x, y. rewrite set_cell_spec by done. split_and!; try done. lia.
Qed.

Lemma zero_board_ok : board_ok zero_board.
Proof. apply tab_ok. intros. apply tile_ok_0. Qed.

(** Whatever keys are pressed and whatever [rand] returns, the board stays a board of
    even numbers that fit their cells, with a tile on it. *)
Theorem reachable_ok b score :
  reachable b score -> board_ok b /\ exists x y, (x < SIZE)%nat /\ (y < SIZE)%nat /\ cell b x y <> 0.
Proof.
  induction 1 as [r1 r2 r3 r4|b score move b' score' r1 r2 _ IH Hm E|b score r1 r2 r3 r4 _ IH];
    apply add_random_ok; try done; try (by apply add_random_ok; [apply zero_board_ok|..]).
  by apply (move_ok move b score b' score' true Hm (proj1 IH) E).
Qed.

Lemma reachable_ok_witness :
  board_ok (addRandom (addRandom zero_board 7 9) 0 3)
  /\ exists x y, (x < SIZE)%nat /\ (y < SIZE)%nat /\ cell (addRandom (addRandom zero_board 7 9) 0 3) x y <> 0.
Proof. apply (reachable_ok _ 0). apply (r_start 7 9 0 3); lia. Defined.

(** Two tiles of 32768 merge to nothing, and score: a [uint16_t] does not hold 65536. *)
Theorem slide_overflow : slideArray [32768; 32768; 0; 0; 0; 0] 0 = ([0; 0; 0; 0; 0; 0], 65536, true).
Proof. reflexivity. Qed.

End Game.
