(* ===== verification/MailParse.v ===== *)
(** * The command parsers of the mail proxy

    [ngx_mail_pop3_parse_command], [ngx_mail_imap_parse_command] and
    [ngx_mail_smtp_parse_command] of src/nginx-1.7.2/src/mail/ngx_mail_parse.c.
    Each is an incremental parser of the kind of [ByteMachine]; they fill the
    same fields of [ngx_mail_session_t]. *)

From S2P Require Import Prelude NgxString ByteMachine.

(** The option NGX_MAIL_SSL of the build. *)
Class MailBuild := { ngx_mail_ssl : bool }.

Definition ngx_toupper (c : Z) : Z :=
  if 97 <=? c <=? 122 then Z.land c (Z.lnot 32) else c.

Abbreviation NGX_POP3_USER := 1 (only parsing).
Abbreviation NGX_POP3_PASS := 2 (only parsing).
Abbreviation NGX_POP3_CAPA := 3 (only parsing).
Abbreviation NGX_POP3_QUIT := 4 (only parsing).
Abbreviation NGX_POP3_NOOP := 5 (only parsing).
Abbreviation NGX_POP3_STLS := 6 (only parsing).
Abbreviation NGX_POP3_APOP := 7 (only parsing).
Abbreviation NGX_POP3_AUTH := 8 (only parsing).
Abbreviation NGX_IMAP_LOGIN := 1 (only parsing).
Abbreviation NGX_IMAP_LOGOUT := 2 (only parsing).
Abbreviation NGX_IMAP_CAPABILITY := 3 (only parsing).
Abbreviation NGX_IMAP_NOOP := 4 (only parsing).
Abbreviation NGX_IMAP_STARTTLS := 5 (only parsing).
Abbreviation NGX_IMAP_NEXT := 6 (only parsing).
Abbreviation NGX_IMAP_AUTHENTICATE := 7 (only parsing).
Abbreviation NGX_SMTP_HELO := 1 (only parsing).
Abbreviation NGX_SMTP_EHLO := 2 (only parsing).
Abbreviation NGX_SMTP_AUTH := 3 (only parsing).
Abbreviation NGX_SMTP_QUIT := 4 (only parsing).
Abbreviation NGX_SMTP_NOOP := 5 (only parsing).
Abbreviation NGX_SMTP_MAIL := 6 (only parsing).
Abbreviation NGX_SMTP_RSET := 7 (only parsing).
Abbreviation NGX_SMTP_RCPT := 8 (only parsing).
Abbreviation NGX_SMTP_VRFY := 10 (only parsing).
Abbreviation NGX_SMTP_EXPN := 11 (only parsing).
Abbreviation NGX_SMTP_HELP := 12 (only parsing).
Abbreviation NGX_SMTP_STARTTLS := 13 (only parsing).
Abbreviation NGX_MAIL_PARSE_INVALID_COMMAND := 20 (only parsing).

Module MailParse.

(** ** The session *)

(** An argument: the pointers to its start and its end, of which the code keeps
    the first and the difference. *)
Definition marg : Type := option nat * option nat.

(** The fields of [ngx_mail_session_t] the parsers use; [s_state] is
    [s->state], of the enumeration of the protocol. *)
Record session (St : Type) := mkSession {
  s_state : St;
  command : Z;
  args : list marg;
  cmd_start : option nat;
  arg_start : option nat;
  arg_end : option nat;
  cmd : marg;
  tag : marg;
  quoted : bool;
  backslash : bool;
  no_sync_literal : bool;
  literal_len : Z
}.
Arguments mkSession {St}.
Arguments s_state {St}.
Arguments command {St}.
Arguments args {St}.
Arguments cmd_start {St}.
Arguments arg_start {St}.
Arguments arg_end {St}.
Arguments cmd {St}.
Arguments tag {St}.
Arguments quoted {St}.
Arguments backslash {St}.
Arguments no_sync_literal {St}.
Arguments literal_len {St}.

Section Setters.
Context {St : Type}.
Implicit Types s : session St.

Definition set_state (v : St) s := mkSession v (command s) (args s) (cmd_start s) (arg_start s)
  (arg_end s) (cmd s) (tag s) (quoted s) (backslash s) (no_sync_literal s) (literal_len s).
Definition set_command v s := mkSession (s_state s) v (args s) (cmd_start s) (arg_start s)
  (arg_end s) (cmd s) (tag s) (quoted s) (backslash s) (no_sync_literal s) (literal_len s).
Definition set_args v s := mkSession (s_state s) (command s) v (cmd_start s) (arg_start s)
  (arg_end s) (cmd s) (tag s) (quoted s) (backslash s) (no_sync_literal s) (literal_len s).
Definition set_cmd_start v s := mkSession (s_state s) (command s) (args s) v (arg_start s)
  (arg_end s) (cmd s) (tag s) (quoted s) (backslash s) (no_sync_literal s) (literal_len s).
Definition set_arg_start v s := mkSession (s_state s) (command s) (args s) (cmd_start s) v
  (arg_end s) (cmd s) (tag s) (quoted s) (backslash s) (no_sync_literal s) (literal_len s).
Definition set_arg_end v s := mkSession (s_state s) (command s) (args s) (cmd_start s) (arg_start s)
  v (cmd s) (tag s) (quoted s) (backslash s) (no_sync_literal s) (literal_len s).
Definition set_cmd v s := mkSession (s_state s) (command s) (args s) (cmd_start s) (arg_start s)
  (arg_end s) v (tag s) (quoted s) (backslash s) (no_sync_literal s) (literal_len s).
Definition set_tag v s := mkSession (s_state s) (command s) (args s) (cmd_start s) (arg_start s)
  (arg_end s) (cmd s) v (quoted s) (backslash s) (no_sync_literal s) (literal_len s).
Definition set_quoted v s := mkSession (s_state s) (command s) (args s) (cmd_start s) (arg_start s)
  (arg_end s) (cmd s) (tag s) v (backslash s) (no_sync_literal s) (literal_len s).
Definition set_backslash v s := mkSession (s_state s) (command s) (args s) (cmd_start s) (arg_start s)
  (arg_end s) (cmd s) (tag s) (quoted s) v (no_sync_literal s) (literal_len s).
Definition set_no_sync_literal v s := mkSession (s_state s) (command s) (args s) (cmd_start s)
  (arg_start s) (arg_end s) (cmd s) (tag s) (quoted s) (backslash s) v (literal_len s).
Definition set_literal_len v s := mkSession (s_state s) (command s) (args s) (cmd_start s)
  (arg_start s) (arg_end s) (cmd s) (tag s) (quoted s) (backslash s) (no_sync_literal s) v.

(** [arg = ngx_array_push(&s->args)], set to the bytes from [s->arg_start] to
    [e], after which [s->arg_start] is NULL. *)
Definition push_arg (e : option nat) s : session St :=
  set_arg_start None (set_args (args s ++ [(arg_start s, e)]) s).

Definition nelts s : nat := length (args s).
End Setters.

(** ** Words *)

(** The first [length w] bytes at [c], in upper case, are those of [w]. *)
Definition word_upper (buf : list Z) (c : nat) (w : list Z) : bool :=
  bool_decide (map ngx_toupper (take (length w) (drop c buf)) = w).

(** The same, with each letter compared in upper and in lower case. *)
Definition word_either (buf : list Z) (c : nat) (w : list Z) : bool :=
  (length (take (length w) (drop c buf)) =? length w)%nat
  && forallb (fun '(b, u) => (b =? u) || (b =? u + 32)) (zip (take (length w) (drop c buf)) w).

(** The first word of a list that is there. *)
Fixpoint find_word (test : list Z -> bool) (words : list (string * Z)) : option Z :=
  match words with
  | [] => None
  | (w, command) :: words' => if test (lit w) then Some command else find_word test words'
  end.

(** A byte of a command. *)
Definition is_letter (ch : Z) : bool := (cA <=? ch <=? cZ) || (97 <=? ch <=? 122).

Definition line_char (ch : Z) : bool := (ch =? cSP) || (ch =? cCR) || (ch =? cLF).

Inductive exit := Done | Invalid.

Section Parsers.
Context `{MailBuild}.

(** ** POP3 *)

Inductive pop3_state := pop3_sw_start | pop3_sw_spaces_before_argument | pop3_sw_argument
  | pop3_sw_almost_done.

Definition pop3_st : Type := pop3_state * session pop3_state.
Definition pop3_action : Type := action pop3_st exit.

Definition pop3_words : list (string * Z) :=
  [("USER", NGX_POP3_USER); ("PASS", NGX_POP3_PASS); ("APOP", NGX_POP3_APOP);
   ("QUIT", NGX_POP3_QUIT); ("CAPA", NGX_POP3_CAPA); ("AUTH", NGX_POP3_AUTH);
   ("NOOP", NGX_POP3_NOOP)]%string
  ++ (if ngx_mail_ssl then [("STLS", NGX_POP3_STLS)]%string else []).

(** The inner [switch (ch)] after a word. *)
Definition pop3_after (ch : Z) (st : pop3_state) (s : session pop3_state) : pop3_action :=
  if ch =? cSP then Continue (pop3_sw_spaces_before_argument, s)
  else if ch =? cCR then Continue (pop3_sw_almost_done, s)
  else Leave Done (st, s).

Definition pop3_case_start (buf : list Z) (p : nat) (ch : Z) (s : session pop3_state)
    : pop3_action :=
  let st := pop3_sw_start in
  if line_char ch then
    if (p - 0 =? 4)%nat then
      match find_word (word_upper buf 0) pop3_words with
      | Some command => pop3_after ch st (set_command command s)
      | None => Leave Invalid (st, s)
      end
    else Leave Invalid (st, s)
  else if is_letter ch then Continue (st, s) else Leave Invalid (st, s).

Definition pop3_case_spaces (p : nat) (ch : Z) (s : session pop3_state) : pop3_action :=
  let st := pop3_sw_spaces_before_argument in
  if ch =? cSP then Continue (st, s)
  else if ch =? cCR then Continue (pop3_sw_almost_done, set_arg_end (Some p) s)
  else if ch =? cLF then Leave Done (st, set_arg_end (Some p) s)
  else if (nelts s <=? 2)%nat then Continue (pop3_sw_argument, set_arg_start (Some p) s)
  else Leave Invalid (st, s).

Definition pop3_case_argument (p : nat) (ch : Z) (s : session pop3_state) : pop3_action :=
  let st := pop3_sw_argument in
  if (ch =? cSP) && ((command s =? NGX_POP3_USER) || (command s =? NGX_POP3_PASS))
  then Continue (st, s)
  else if line_char ch then pop3_after ch st (push_arg (Some p) s)
  else Continue (st, s).

Definition pop3_step (buf : list Z) (p : nat) (ch : Z) (x : pop3_st) : pop3_action :=
  let '(st, s) := x in
  match st with
  | pop3_sw_start => pop3_case_start buf p ch s
  | pop3_sw_spaces_before_argument => pop3_case_spaces p ch s
  | pop3_sw_argument => pop3_case_argument p ch s
  | pop3_sw_almost_done => if ch =? cLF then Leave Done (st, s) else Leave Invalid (st, s)
  end.

(** [if (s->arg_start) { ... }] of the label [done]. *)
Definition last_arg {St} (s : session St) : session St :=
  match arg_start s with None => s | Some _ => push_arg (arg_end s) s end.

(** The whole function: the return code, the session and [s->buffer->pos]. *)
Definition ngx_mail_pop3_parse_command (s : session pop3_state) (buf : list Z) (pos : nat)
    : option (Z * session pop3_state * nat) :=
  match go pop3_step buf pos (s_state s, s) with
  | Ended (st, s') p => Some (NGX_AGAIN, set_state st s', p)
  | Left Done (_, s') p =>
      let s' := last_arg s' in
      let st := if command s' =? NGX_POP3_AUTH then pop3_sw_argument else pop3_sw_start in
      Some (NGX_OK, set_state st s', S p)
  | Left Invalid (_, s') _ =>
      Some (NGX_MAIL_PARSE_INVALID_COMMAND, set_state pop3_sw_start (set_arg_start None s'), pos)
  | NoFuel => None
  end.

(** ** IMAP *)

Inductive imap_state := imap_sw_start | imap_sw_spaces_before_command | imap_sw_command
  | imap_sw_spaces_before_argument | imap_sw_argument | imap_sw_backslash | imap_sw_literal
  | imap_sw_no_sync_literal_argument | imap_sw_start_literal_argument | imap_sw_literal_argument
  | imap_sw_end_literal_argument | imap_sw_almost_done.

Inductive imap_exit := ImapDone | ImapInvalid | ImapReturnInvalid | ImapNext.

(** The local [state], the session and [s->buffer->pos]. *)
Definition imap_st : Type := imap_state * session imap_state * nat.
Definition imap_action : Type := action imap_st imap_exit.

(** [switch (p - c)]: the word of each length. *)
Definition imap_words (n : nat) : list (string * Z) :=
  if (n =? 4)%nat then [("NOOP", NGX_IMAP_NOOP)]%string
  else if (n =? 5)%nat then [("LOGIN", NGX_IMAP_LOGIN)]%string
  else if (n =? 6)%nat then [("LOGOUT", NGX_IMAP_LOGOUT)]%string
  else if (n =? 8)%nat && ngx_mail_ssl then [("STARTTLS", NGX_IMAP_STARTTLS)]%string
  else if (n =? 10)%nat then [("CAPABILITY", NGX_IMAP_CAPABILITY)]%string
  else if (n =? 12)%nat then [("AUTHENTICATE", NGX_IMAP_AUTHENTICATE)]%string
  else [].

Definition imap_case_start (p : nat) (ch : Z) (s : session imap_state) (b : nat) : imap_action :=
  let st := imap_sw_start in
  if ch =? cSP then Continue (imap_sw_spaces_before_command, set_tag (Some O, Some (p + 1)%nat) s, b)
  else if (ch =? cCR) || (ch =? cLF) then Leave ImapReturnInvalid (st, s, b)
  else Continue (st, s, b).

Definition imap_case_spaces_before_command (p : nat) (ch : Z) (s : session imap_state) (b : nat)
    : imap_action :=
  let st := imap_sw_spaces_before_command in
  if ch =? cSP then Continue (st, s, b)
  else if (ch =? cCR) || (ch =? cLF) then Leave ImapReturnInvalid (st, s, b)
  else Continue (imap_sw_command, set_cmd_start (Some p) s, b).

Definition imap_after (ch : Z) (st : imap_state) (s : session imap_state) (b : nat) : imap_action :=
  if (ch =? cQUOT) || (ch =? cSP) then Continue (imap_sw_spaces_before_argument, s, b)
  else if ch =? cCR then Continue (imap_sw_almost_done, s, b)
  else Leave ImapDone (st, s, b).

Definition imap_case_command (buf : list Z) (p : nat) (ch : Z) (s : session imap_state) (b : nat)
    : imap_action :=
  let st := imap_sw_command in
  if line_char ch then
    match cmd_start s with
    | Some c =>
        match find_word (word_either buf c) (imap_words (p - c)) with
        | Some command => imap_after ch st (set_command command s) b
        | None => Leave ImapInvalid (st, s, b)
        end
    | None => Leave ImapInvalid (st, s, b)
    end
  else if is_letter ch then Continue (st, s, b) else Leave ImapInvalid (st, s, b).

Definition imap_case_spaces_before_argument (p : nat) (ch : Z) (s : session imap_state) (b : nat)
    : imap_action :=
  let st := imap_sw_spaces_before_argument in
  if ch =? cSP then Continue (st, s, b)
  else if ch =? cCR then Continue (imap_sw_almost_done, set_arg_end (Some p) s, b)
  else if ch =? cLF then Leave ImapDone (st, set_arg_end (Some p) s, b)
  else if negb (nelts s <=? 2)%nat then Leave ImapInvalid (st, s, b)
  else if ch =? cQUOT then
    Continue (imap_sw_argument, set_arg_start (Some (p + 1)%nat) (set_quoted true s), b)
  else if ch =? 123 then Continue (imap_sw_literal, s, b)
  else Continue (imap_sw_argument, set_arg_start (Some p) s, b).

Definition imap_case_argument (p : nat) (ch : Z) (s : session imap_state) (b : nat) : imap_action :=
  let st := imap_sw_argument in
  if (ch =? cSP) && quoted s then Continue (st, s, b)
  else if ch =? cQUOT then
    if quoted s then imap_after ch st (push_arg (Some p) (set_quoted false s)) b else Continue (st, s, b)
  else if line_char ch then imap_after ch st (push_arg (Some p) s) b
  else if (ch =? 92) && quoted s then Continue (imap_sw_backslash, set_backslash true s, b)
  else Continue (st, s, b).

Section Imap.
Context `{Arch}.

Definition imap_case_literal (ch : Z) (s : session imap_state) (b : nat) : imap_action :=
  let st := imap_sw_literal in
  if c_0 <=? ch <=? c_9 then
    Continue (st, set_literal_len (uint ptr_bits (literal_len s * 10 + (ch - c_0))) s, b)
  else if ch =? 125 then Continue (imap_sw_start_literal_argument, s, b)
  else if ch =? cPLUS then Continue (imap_sw_no_sync_literal_argument, s, b)
  else Leave ImapInvalid (st, s, b).

Definition imap_case_start_literal_argument (p : nat) (ch : Z) (s : session imap_state) (b : nat)
    : imap_action :=
  let st := imap_sw_start_literal_argument in
  if ch =? cCR then Continue (st, s, b)
  else if ch =? cLF then
    let s := set_arg_start (Some (p + 1)%nat) s in
    let b := (p + 1)%nat in
    if no_sync_literal s then Continue (imap_sw_literal_argument, set_no_sync_literal false s, b)
    else Leave ImapNext (st, s, b)
  else Leave ImapInvalid (st, s, b).

(** [if (s->literal_len && --s->literal_len) break;]. *)
Definition imap_case_literal_argument (p : nat) (s : session imap_state) (b : nat) : imap_action :=
  let n := if literal_len s =? 0 then 0 else literal_len s - 1 in
  let s := set_literal_len n s in
  if negb (n =? 0) then Continue (imap_sw_literal_argument, s, b)
  else Continue (imap_sw_end_literal_argument, push_arg (Some (p + 1)%nat) s, b).

Definition imap_case_end_literal_argument (ch : Z) (s : session imap_state) (b : nat) : imap_action :=
  let st := imap_sw_end_literal_argument in
  if ch =? 123 then
    if (nelts s <=? 2)%nat then Continue (imap_sw_literal, s, b) else Leave ImapInvalid (st, s, b)
  else if ch =? cCR then Continue (imap_sw_almost_done, s, b)
  else if ch =? cLF then Leave ImapDone (st, s, b)
  else Continue (imap_sw_spaces_before_argument, s, b).

Definition imap_step (buf : list Z) (p : nat) (ch : Z) (x : imap_st) : imap_action :=
  let '(st, s, b) := x in
  match st with
  | imap_sw_start => imap_case_start p ch s b
  | imap_sw_spaces_before_command => imap_case_spaces_before_command p ch s b
  | imap_sw_command => imap_case_command buf p ch s b
  | imap_sw_spaces_before_argument => imap_case_spaces_before_argument p ch s b
  | imap_sw_argument => imap_case_argument p ch s b
  | imap_sw_backslash =>
      if (ch =? cCR) || (ch =? cLF) then Leave ImapInvalid (st, s, b)
      else Continue (imap_sw_argument, s, b)
  | imap_sw_literal => imap_case_literal ch s b
  | imap_sw_no_sync_literal_argument =>
      if ch =? 125 then Continue (imap_sw_start_literal_argument, set_no_sync_literal true s, b)
      else Leave ImapInvalid (st, s, b)
  | imap_sw_start_literal_argument => imap_case_start_literal_argument p ch s b
  | imap_sw_literal_argument => imap_case_literal_argument p s b
  | imap_sw_end_literal_argument => imap_case_end_literal_argument ch s b
  | imap_sw_almost_done => if ch =? cLF then Leave ImapDone (st, s, b) else Leave ImapInvalid (st, s, b)
  end.

(** The label [done]. *)
Definition imap_done (s : session imap_state) : session imap_state :=
  let s :=
    match arg_start s with
    | None => s
    | Some _ =>
        set_literal_len 0 (set_no_sync_literal false (set_quoted false (set_cmd_start None
          (push_arg (arg_end s) s))))
    end in
  set_state (if command s =? NGX_IMAP_AUTHENTICATE then imap_sw_argument else imap_sw_start) s.

(** The label [invalid]. *)
Definition imap_invalid (s : session imap_state) : session imap_state :=
  set_literal_len 0 (set_no_sync_literal false (set_quoted false (set_state imap_sw_start s))).

Definition ngx_mail_imap_parse_command (s : session imap_state) (buf : list Z) (pos : nat)
    : option (Z * session imap_state * nat) :=
  match go imap_step buf pos (s_state s, s, pos) with
  | Ended (st, s', _) p => Some (NGX_AGAIN, set_state st s', p)
  | Left ImapDone (_, s', _) p => Some (NGX_OK, imap_done s', S p)
  | Left ImapInvalid (_, s', b) _ => Some (NGX_MAIL_PARSE_INVALID_COMMAND, imap_invalid s', b)
  | Left ImapReturnInvalid (_, s', b) _ =>
      Some (NGX_MAIL_PARSE_INVALID_COMMAND, set_state imap_sw_start s', b)
  | Left ImapNext (_, s', _) p => Some (NGX_IMAP_NEXT, set_state imap_sw_literal_argument s', S p)
  | NoFuel => None
  end.
End Imap.

(** ** SMTP *)

Inductive smtp_state := smtp_sw_start | smtp_sw_command | smtp_sw_invalid
  | smtp_sw_spaces_before_argument | smtp_sw_argument | smtp_sw_almost_done.

Definition smtp_st : Type := smtp_state * session smtp_state.
Definition smtp_action : Type := action smtp_st exit.

Definition smtp_words : list (string * Z) :=
  [("HELO", NGX_SMTP_HELO); ("EHLO", NGX_SMTP_EHLO); ("QUIT", NGX_SMTP_QUIT);
   ("AUTH", NGX_SMTP_AUTH); ("NOOP", NGX_SMTP_NOOP); ("MAIL", NGX_SMTP_MAIL);
   ("RSET", NGX_SMTP_RSET); ("RCPT", NGX_SMTP_RCPT); ("VRFY", NGX_SMTP_VRFY);
   ("EXPN", NGX_SMTP_EXPN); ("HELP", NGX_SMTP_HELP)]%string.

Definition smtp_command (buf : list Z) (c n : nat) : option Z :=
  if (n =? 4)%nat then find_word (word_upper buf c) smtp_words
  else if (n =? 8)%nat && ngx_mail_ssl
  then find_word (word_either buf c) [("STARTTLS", NGX_SMTP_STARTTLS)]%string
  else None.

Definition smtp_after (ch : Z) (st : smtp_state) (s : session smtp_state) : smtp_action :=
  if ch =? cSP then Continue (smtp_sw_spaces_before_argument, s)
  else if ch =? cCR then Continue (smtp_sw_almost_done, s)
  else Leave Done (st, s).

Definition smtp_case_command (buf : list Z) (p : nat) (ch : Z) (s : session smtp_state)
    : smtp_action :=
  let st := smtp_sw_command in
  if line_char ch then
    match cmd_start s with
    | Some c =>
        match smtp_command buf c (p - c) with
        | Some command =>
            smtp_after ch st (set_cmd (cmd_start s, Some p) (set_command command s))
        | None => Leave Invalid (st, s)
        end
    | None => Leave Invalid (st, s)
    end
  else if is_letter ch then Continue (st, s) else Leave Invalid (st, s).

Definition smtp_case_spaces (p : nat) (ch : Z) (s : session smtp_state) : smtp_action :=
  let st := smtp_sw_spaces_before_argument in
  if ch =? cSP then Continue (st, s)
  else if ch =? cCR then Continue (smtp_sw_almost_done, set_arg_end (Some p) s)
  else if ch =? cLF then Leave Done (st, set_arg_end (Some p) s)
  else if (nelts s <=? 10)%nat then Continue (smtp_sw_argument, set_arg_start (Some p) s)
  else Leave Invalid (st, s).

Definition smtp_step (buf : list Z) (p : nat) (ch : Z) (x : smtp_st) : smtp_action :=
  let '(st, s) := x in
  match st with
  | smtp_sw_start => smtp_case_command buf p ch (set_cmd_start (Some p) s)
  | smtp_sw_command => smtp_case_command buf p ch s
  | smtp_sw_invalid => Leave Invalid (st, s)
  | smtp_sw_spaces_before_argument => smtp_case_spaces p ch s
  | smtp_sw_argument =>
      if line_char ch then smtp_after ch st (push_arg (Some p) s) else Continue (st, s)
  | smtp_sw_almost_done => if ch =? cLF then Leave Done (st, s) else Leave Invalid (st, s)
  end.

(** The bytes of an invalid command are skipped up to a line feed: the new
    [p], and whether there was one. *)
Fixpoint skip_line (buf : list Z) (p : nat) : nat * bool :=
  match buf with
  | [] => (p, false)
  | ch :: buf' => if ch =? cLF then (S p, true) else skip_line buf' (S p)
  end.

Definition ngx_mail_smtp_parse_command (s : session smtp_state) (buf : list Z) (pos : nat)
    : option (Z * session smtp_state * nat) :=
  match go smtp_step buf pos (s_state s, s) with
  | Ended (st, s') p => Some (NGX_AGAIN, set_state st s', p)
  | Left Done (_, s') p =>
      let s' := last_arg s' in
      let st := if command s' =? NGX_SMTP_AUTH then smtp_sw_argument else smtp_sw_start in
      Some (NGX_OK, set_state st s', S p)
  | Left Invalid (_, s') _ =>
      let '(p, lf) := skip_line (drop pos buf) pos in
      Some (NGX_MAIL_PARSE_INVALID_COMMAND,
            set_state (if lf : bool then smtp_sw_start else smtp_sw_invalid) (set_arg_start None s'), p)
  | NoFuel => None
  end.
(** ** The machines *)

Lemma word_upper_app buf more c w :
  (c + length w <= length buf)%nat -> word_upper (buf ++ more) c w = word_upper buf c w.
Proof.
  intros Hc. unfold word_upper. rewrite drop_app_le by lia.
  rewrite take_app_le by (rewrite length_drop; lia). done.
Qed.

Lemma word_either_app buf more c w :
  (c + length w <= length buf)%nat -> word_either (buf ++ more) c w = word_either buf c w.
Proof.
  intros Hc. unfold word_either. rewrite drop_app_le by lia.
  rewrite take_app_le by (rewrite length_drop; lia). done.
Qed.

Lemma find_word_ext (f g : list Z -> bool) words n :
  Forall (fun w => length (lit w.1) = n) words ->
  (forall w, length w = n -> f w = g w) -> find_word f words = find_word g words.
Proof.
  intros Hw Hfg. induction Hw as [|[w c] words Hl Hw IH]; [done|]. simpl in *.
  rewrite (Hfg (lit w) Hl). by destruct (g (lit w)).
Qed.

Lemma pop3_words_length : Forall (fun w => length (lit w.1) = 4%nat) pop3_words.
Proof.
  unfold pop3_words. apply Forall_app. split; [by repeat constructor|].
  destruct ngx_mail_ssl; by repeat constructor.
Qed.

Lemma imap_words_length n : Forall (fun w => length (lit w.1) = n) (imap_words n).
Proof.
  unfold imap_words.
  repeat match goal with |- context [(n =? ?k)%nat] => destruct (Nat.eqb_spec n k) as [->|] end;
    cbn; try destruct ngx_mail_ssl; repeat constructor.
Qed.

Lemma smtp_command_app buf more c n :
  (c + n <= length buf)%nat -> smtp_command (buf ++ more) c n = smtp_command buf c n.
Proof.
  intros Hc. unfold smtp_command. destruct (Nat.eqb_spec n 4) as [->|].
  - apply (find_word_ext _ _ _ 4); [by repeat constructor|]. intros w Hw. apply word_upper_app. lia.
  - destruct (Nat.eqb_spec n 8) as [->|]; [|done]. destruct ngx_mail_ssl; [|done].
    apply (find_word_ext _ _ _ 8); [by repeat constructor|]. intros w Hw. apply word_either_app. lia.
Qed.

Definition no_rank {A} (_ : A) : nat := 0.

#[export] Instance pop3_machine : Machine pop3_step no_rank.
Proof.
  split; [intros; unfold no_rank; lia| |].
  - intros buf p ch [st s] s' E. destruct st; cbn [pop3_step] in E;
      unfold pop3_case_start, pop3_case_spaces, pop3_case_argument, pop3_after in E;
      repeat case_match; simplify_eq.
  - intros buf more p ch [st s] Hp. destruct st; [|done..]. cbn [pop3_step].
    unfold pop3_case_start. destruct (Nat.eqb_spec (p - 0) 4); [|done].
    rewrite (find_word_ext (word_upper (buf ++ more) 0) (word_upper buf 0) pop3_words 4);
      [done|apply pop3_words_length|]. intros w Hw. apply word_upper_app. lia.
Qed.

#[export] Instance imap_machine `{Arch} : Machine imap_step no_rank.
Proof.
  split; [intros; unfold no_rank; lia| |].
  - intros buf p ch [[st s] b] s' E. destruct st; cbn [imap_step] in E;
      unfold imap_case_start, imap_case_spaces_before_command, imap_case_command,
        imap_case_spaces_before_argument, imap_case_argument, imap_case_literal,
        imap_case_start_literal_argument, imap_case_literal_argument,
        imap_case_end_literal_argument, imap_after in E;
      repeat case_match; simplify_eq.
  - intros buf more p ch [[st s] b] Hp. destruct st; try done. cbn [imap_step].
    unfold imap_case_command. destruct (cmd_start s) as [c|]; [|done].
    destruct (line_char ch); [|done].
    rewrite (find_word_ext (word_either (buf ++ more) c) (word_either buf c) _ (p - c));
      [done|apply imap_words_length|]. intros w Hw.
    destruct (decide (c + length w <= length buf)%nat) as [Hc|Hc]; [by apply word_either_app|].
    assert (w = []) as -> by (apply nil_length_inv; lia). done.
Qed.

#[export] Instance smtp_machine : Machine smtp_step no_rank.
Proof.
  assert (Hc : forall buf more p ch s, (p < length buf)%nat ->
    smtp_case_command (buf ++ more) p ch s = smtp_case_command buf p ch s).
  { intros buf more p ch s Hp. unfold smtp_case_command.
    destruct (cmd_start s) as [c|]; [|done]. destruct (decide (c <= p)%nat).
    - by rewrite smtp_command_app by lia.
    - replace (p - c)%nat with O by lia. done. }
  split; [intros; unfold no_rank; lia| |].
  - intros buf p ch [st s] s' E. destruct st; cbn [smtp_step] in E;
      unfold smtp_case_command, smtp_case_spaces, smtp_after in E;
      repeat case_match; simplify_eq.
  - intros buf more p ch [st s] Hp. destruct st; try done; by apply Hc.
Qed.

(** ** Incremental parsing *)

(** Two results a caller cannot tell apart: the place of [s->buffer->pos] after an
    invalid command does not matter to the POP3 and IMAP handlers, which empty
    the buffer. *)
Definition same_parse {St} (x y : option (Z * session St * nat)) : Prop :=
  match x, y with
  | Some (c1, s1, p1), Some (c2, s2, p2) =>
      c1 = c2 /\ s1 = s2 /\ (c1 <> NGX_MAIL_PARSE_INVALID_COMMAND -> p1 = p2)
  | _, _ => False
  end.

(** The steps do not look at the saved state. *)
Definition same_but_state {St} (s t : session St) : Prop :=
  forall st, set_state st s = set_state st t.

Lemma same_set_state {St} (s : session St) st : same_but_state (set_state st s) s.
Proof. done. Qed.

Lemma same_fields {St} (s t : session St) :
  same_but_state s t -> t = set_state (s_state t) s.
Proof. intros E. destruct t. symmetry. apply E. Qed.

Lemma last_arg_state {St} (st : St) s : last_arg (set_state st s) = set_state st (last_arg s).
Proof. unfold last_arg. by destruct s as [? ? ? ? []]. Qed.

(** The fields of a session that is spelt out. *)
Ltac fields :=
  unfold set_state, set_command, set_args, set_cmd_start, set_arg_start, set_arg_end, set_cmd,
    set_tag, set_quoted, set_backslash, set_no_sync_literal, set_literal_len, push_arg, nelts;
  cbn [s_state command args cmd_start arg_start arg_end cmd tag quoted backslash no_sync_literal
       literal_len].

Definition pop3_rel (x y : pop3_st) : Prop := x.1 = y.1 /\ same_but_state x.2 y.2.

Lemma pop3_step_rel buf p ch x y : pop3_rel x y ->
  rel_action pop3_rel (pop3_step buf p ch x) (pop3_step buf p ch y).
Proof.
  destruct x as [st s], y as [st' t]. intros [E1 E2]. simpl in E1. subst st'.
  apply same_fields in E2. simpl in E2. rewrite E2. clear E2. generalize (s_state t). intros v.
  destruct s, st; cbn [pop3_step];
    unfold pop3_case_start, pop3_case_spaces, pop3_case_argument, pop3_after; fields;
    repeat (case_match; simplify_eq); simpl; unfold pop3_rel; done.
Qed.

Lemma pop3_resume s buf more pos s' pos' :
  ngx_mail_pop3_parse_command s buf pos = Some (NGX_AGAIN, s', pos') ->
  same_parse (ngx_mail_pop3_parse_command s' (buf ++ more) pos')
    (ngx_mail_pop3_parse_command s (buf ++ more) pos).
Proof.
  unfold ngx_mail_pop3_parse_command. intros E.
  destruct (go pop3_step buf pos (s_state s, s)) as [[st s1] p|[] [st s1] p|] eqn:G; simplify_eq.
  rewrite (go_resume pop3_step no_rank _ more _ _ _ _ G). cbn [s_state set_state].
  pose proof (go_rel pop3_step no_rank pop3_rel (buf ++ more) (pop3_step_rel _) pos'
    (st, set_state st s1) (st, s1) (conj eq_refl (same_set_state _ _))) as R.
  destruct (go pop3_step _ _ (st, set_state st s1)) as [[st2 s2] p2|[] [st2 s2] p2|],
    (go pop3_step _ _ (st, s1)) as [[st3 s3] p3|[] [st3 s3] p3|]; simpl in R; try tauto;
    unfold pop3_rel in R; cbn [fst snd] in R;
    destruct_and?; simplify_eq; unfold same_parse; try (split; [done|split; [|done]]);
    match goal with HS : same_but_state _ _ |- _ => apply same_fields in HS; rewrite HS end; try done.
  by rewrite !last_arg_state.
Qed.

Definition imap_rel (x y : imap_st) : Prop := x.1.1 = y.1.1 /\ same_but_state x.1.2 y.1.2.

Lemma imap_step_rel `{Arch} buf p ch x y : imap_rel x y ->
  rel_action imap_rel (imap_step buf p ch x) (imap_step buf p ch y).
Proof.
  destruct x as [[st s] b], y as [[st' t] b']. intros [E1 E2]. simpl in E1. subst st'.
  apply same_fields in E2. simpl in E2. rewrite E2. clear E2. generalize (s_state t). intros v.
  destruct s, st; cbn [imap_step];
    unfold imap_case_start, imap_case_spaces_before_command, imap_case_command,
      imap_case_spaces_before_argument, imap_case_argument, imap_case_literal,
      imap_case_start_literal_argument, imap_case_literal_argument,
      imap_case_end_literal_argument, imap_after; fields;
    repeat (case_match; simplify_eq); simpl; unfold imap_rel; done.
Qed.

Lemma imap_resume `{Arch} s buf more pos s' pos' :
  ngx_mail_imap_parse_command s buf pos = Some (NGX_AGAIN, s', pos') ->
  same_parse (ngx_mail_imap_parse_command s' (buf ++ more) pos')
    (ngx_mail_imap_parse_command s (buf ++ more) pos).
Proof.
  unfold ngx_mail_imap_parse_command. intros E.
  destruct (go imap_step buf pos (s_state s, s, pos)) as [[[st s1] b] p|[] [[st s1] b] p|] eqn:G;
    simplify_eq.
  rewrite (go_resume imap_step no_rank _ more _ _ _ _ G). cbn [s_state set_state].
  pose proof (go_rel imap_step no_rank imap_rel (buf ++ more) (imap_step_rel _) pos'
    (st, set_state st s1, pos') (st, s1, b) (conj eq_refl (same_set_state _ _))) as R.
  destruct (go imap_step _ _ (st, set_state st s1, pos')) as [[[st2 s2] b2] p2|[] [[st2 s2] b2] p2|],
    (go imap_step _ _ (st, s1, b)) as [[[st3 s3] b3] p3|[] [[st3 s3] b3] p3|]; simpl in R; try tauto;
    unfold imap_rel in R; cbn [fst snd] in R;
    destruct_and?; simplify_eq; unfold same_parse; try (split; [done|split; [|done]]);
    match goal with HS : same_but_state _ _ |- _ => apply same_fields in HS; rewrite HS end; try done.
  unfold imap_done. by destruct s2 as [? ? ? ? []].
Qed.

Definition smtp_rel (x y : smtp_st) : Prop := x.1 = y.1 /\ same_but_state x.2 y.2.

Lemma smtp_step_rel buf p ch x y : smtp_rel x y ->
  rel_action smtp_rel (smtp_step buf p ch x) (smtp_step buf p ch y).
Proof.
  destruct x as [st s], y as [st' t]. intros [E1 E2]. simpl in E1. subst st'.
  apply same_fields in E2. simpl in E2. rewrite E2. clear E2. generalize (s_state t). intros v.
  destruct s, st; cbn [smtp_step];
    unfold smtp_case_command, smtp_case_spaces, smtp_after; fields;
    repeat (case_match; simplify_eq); simpl; unfold smtp_rel; done.
Qed.

(** The SMTP parser never goes on after a line feed, so what it skips of an
    invalid command does not depend on where the last call began. *)
Lemma smtp_no_lf buf p ch x x' : smtp_step buf p ch x = Continue x' -> ch <> cLF.
Proof.
  destruct x as [st s]. intros E ->. destruct st; cbn [smtp_step] in E;
    unfold smtp_case_command, smtp_case_spaces, smtp_after in E; cbn in E;
    repeat case_match; simplify_eq.
Qed.

Lemma smtp_ended_no_lf buf pos x x' p' :
  go smtp_step buf pos x = Ended x' p' -> (pos <= length buf)%nat ->
  p' = length buf /\ Forall (fun ch => ch <> cLF) (drop pos buf).
Proof.
  revert pos x. apply (go_ind smtp_step no_rank (fun _ pos x o => o = Ended x' p' ->
    (pos <= length buf)%nat -> p' = length buf /\ Forall (fun ch => ch <> cLF) (drop pos buf))).
  - intros p s Hp [= -> ->] Hle. apply lookup_ge_None in Hp. split; [lia|].
    rewrite drop_ge by lia. constructor.
  - done.
  - intros p s ch s' o Hp Hs IH Ho Hle. apply lookup_lt_Some in Hp as Hlt.
    destruct (IH Ho ltac:(lia)) as [-> Hf]. split; [done|]. rewrite (drop_S _ ch) by done.
    constructor; [by eapply smtp_no_lf|done].
  - intros p s ch s' o Hp Hs. exfalso. apply rescan_lt in Hs. unfold no_rank in Hs. lia.
Qed.

Lemma skip_line_app a b p :
  Forall (fun ch => ch <> cLF) a -> skip_line (a ++ b) p = skip_line b (p + length a)%nat.
Proof.
  intros Ha. revert p. induction Ha as [|ch a Hch Ha IH]; intros p; [by rewrite Nat.add_0_r|].
  cbn [app skip_line length]. rewrite (proj2 (Z.eqb_neq ch cLF)) by done. rewrite IH. f_equal. lia.
Qed.

Lemma smtp_resume s buf more pos s' pos' :
  (pos <= length buf)%nat ->
  ngx_mail_smtp_parse_command s buf pos = Some (NGX_AGAIN, s', pos') ->
  ngx_mail_smtp_parse_command s' (buf ++ more) pos'
  = ngx_mail_smtp_parse_command s (buf ++ more) pos.
Proof.
  unfold ngx_mail_smtp_parse_command. intros Hle E.
  destruct (go smtp_step buf pos (s_state s, s)) as [[st s1] p|[] [st s1] p|] eqn:G; simplify_eq.
  2: { destruct (skip_line _ _); simplify_eq. }
  rewrite (go_resume smtp_step no_rank _ more _ _ _ _ G). cbn [s_state set_state].
  destruct (smtp_ended_no_lf _ _ _ _ _ G Hle) as [-> Hf].
  assert (Hskip : skip_line (drop (length buf) (buf ++ more)) (length buf)
                  = skip_line (drop pos (buf ++ more)) pos).
  { rewrite drop_app_length, drop_app_le, skip_line_app by done. f_equal. rewrite length_drop. lia. }
  rewrite Hskip.
  pose proof (go_rel smtp_step no_rank smtp_rel (buf ++ more) (smtp_step_rel _) (length buf)
    (st, set_state st s1) (st, s1) (conj eq_refl (same_set_state _ _))) as R.
  destruct (go smtp_step _ _ (st, set_state st s1)) as [[st2 s2] p2|[] [st2 s2] p2|],
    (go smtp_step _ _ (st, s1)) as [[st3 s3] p3|[] [st3 s3] p3|]; simpl in R; try tauto;
    unfold smtp_rel in R; cbn [fst snd] in R; destruct_and?; simplify_eq;
    match goal with HS : same_but_state _ _ |- _ => apply same_fields in HS; rewrite HS end; try done.
  by rewrite !last_arg_state.
Qed.

(** C23: the three command parsers of the mail proxy are incremental: when a
    parser asks for more after some of the bytes, calling it again with more
    bytes gives the code, the session and the position that one call on all of
    them gives (after an invalid command of POP3 or IMAP the position, which
    their handlers do not use, may differ). *)
Theorem mail_commands_resume `{Arch} buf more pos :
  (forall s s' pos', ngx_mail_pop3_parse_command s buf pos = Some (NGX_AGAIN, s', pos') ->
     same_parse (ngx_mail_pop3_parse_command s' (buf ++ more) pos')
       (ngx_mail_pop3_parse_command s (buf ++ more) pos))
  /\ (forall s s' pos', ngx_mail_imap_parse_command s buf pos = Some (NGX_AGAIN, s', pos') ->
     same_parse (ngx_mail_imap_parse_command s' (buf ++ more) pos')
       (ngx_mail_imap_parse_command s (buf ++ more) pos))
  /\ ((pos <= length buf)%nat ->
      forall s s' pos', ngx_mail_smtp_parse_command s buf pos = Some (NGX_AGAIN, s', pos') ->
     ngx_mail_smtp_parse_command s' (buf ++ more) pos'
     = ngx_mail_smtp_parse_command s (buf ++ more) pos).
Proof.
  split_and!; intros.
  - by apply pop3_resume.
  - by apply imap_resume.
  - by apply smtp_resume.
Qed.

End Parsers.

(** A session before its first command. *)
Definition new_session {St} (st : St) : session St :=
  mkSession st 0 [] None None None (None, None) (None, None) false false false 0.

Definition with_tls : MailBuild := {| ngx_mail_ssl := true |}.

(** A command that arrives in two parts. *)
Lemma mail_commands_resume_witness :
  Forall (fun more => exists s' pos',
    @ngx_mail_smtp_parse_command with_tls (new_session smtp_sw_start) (lit "HELO exa") 0
      = Some (NGX_AGAIN, s', pos')
    /\ @ngx_mail_smtp_parse_command with_tls s' (lit "HELO exa" ++ more) pos'
       = @ngx_mail_smtp_parse_command with_tls (new_session smtp_sw_start) (lit "HELO exa" ++ more) 0)
    [lit "mple"; lit "mple" ++ [cCR; cLF]].
Proof.
  apply Forall_forall. intros more _.
  destruct (@mail_commands_resume with_tls ilp32 (lit "HELO exa") more 0) as (_ & _ & Hsmtp).
  destruct (@ngx_mail_smtp_parse_command with_tls (new_session smtp_sw_start) (lit "HELO exa") 0)
    as [[[c s'] pos']|] eqn:E; [|vm_compute in E; discriminate].
  assert (c = NGX_AGAIN) as -> by (vm_compute in E; congruence).
  exists s', pos'. split; [reflexivity|]. apply Hsmtp; [vm_compute; lia|exact E].
Defined.

(** ** Two inputs the IMAP parser does not read as they are meant *)

(** A literal of no bytes takes the byte that follows it: of the login "" and the
    password "secret" the parser makes the login " " and the password "ecret". *)
Example imap_empty_literal :
  let buf := lit "a LOGIN {0}" ++ [cCR; cLF] ++ lit " secret" ++ [cCR; cLF] in
  ('(c1, s1, pos1) ← @ngx_mail_imap_parse_command with_tls ilp32 (new_session imap_sw_start) buf 0;
   '(c2, s2, pos2) ← @ngx_mail_imap_parse_command with_tls ilp32 s1 buf pos1;
   Some (c1, pos1, c2, args s2))
  = Some (NGX_IMAP_NEXT, 13%nat, NGX_OK, [(Some 13%nat, Some 14%nat); (Some 15%nat, Some 20%nat)]).
Proof. vm_compute. reflexivity. Qed.

(** An invalid command leaves [s->arg_start] set, and the next command, which has
    no argument, gets one that ends nowhere. *)
Example imap_stale_argument :
  let bad := lit "a LOGIN " ++ [34] ++ lit "y\" ++ [cCR] in
  let good := lit "b NOOP" ++ [cCR; cLF] in
  ('(c1, s1, _) ← @ngx_mail_imap_parse_command with_tls ilp32 (new_session imap_sw_start) bad 0;
   '(c2, s2, _) ← @ngx_mail_imap_parse_command with_tls ilp32 (set_args [] s1) good 0;
   Some (c1, c2, args s2))
  = Some (NGX_MAIL_PARSE_INVALID_COMMAND, NGX_OK, [(Some 9%nat, None)]).
Proof. vm_compute. reflexivity. Qed.

End MailParse.
