(* ===== verification/MailAuth.v ===== *)
(** * Authentication in the mail proxy

    The parts of src/nginx-1.7.2/src/mail/ngx_mail_handler.c and ngx_mail_parse.c
    that turn the arguments of the AUTH commands into a login and a password.  An
    [ngx_str_t] of the session is kept as the bytes its pointer leads to and its
    length, since the code sets the two apart. *)

From S2P Require Import Prelude NgxString NgxBase64 MailParse.

Abbreviation NGX_MAIL_AUTH_PLAIN := 0 (only parsing).
Abbreviation NGX_MAIL_AUTH_LOGIN := 1 (only parsing).
Abbreviation NGX_MAIL_AUTH_LOGIN_USERNAME := 2 (only parsing).
Abbreviation NGX_MAIL_AUTH_APOP := 3 (only parsing).
Abbreviation NGX_MAIL_AUTH_CRAM_MD5 := 4 (only parsing).
Abbreviation NGX_MAIL_AUTH_APOP_ENABLED := 8 (only parsing).
Abbreviation NGX_MAIL_AUTH_CRAM_MD5_ENABLED := 16 (only parsing).

Module MailAuth.
Import MailParse.

Record mstr := mkStr { m_data : list Z; m_len : Z }.

(** The bytes of a string, [None] when its length is past what its pointer leads to. *)
Definition m_text (s : mstr) : option (list Z) :=
  if m_len s <=? Z.of_nat (length (m_data s)) then Some (take (Z.to_nat (m_len s)) (m_data s))
  else None.

Definition str_of (l : list Z) : mstr := mkStr l (Z.of_nat (length l)).

Record creds := mkCreds { login : mstr; passwd : mstr; auth_method : Z }.

Definition set_login v c := mkCreds v (passwd c) (auth_method c).
Definition set_passwd v c := mkCreds (login c) v (auth_method c).
Definition set_auth_method v c := mkCreds (login c) (passwd c) v.

(** The bytes of an argument, [None] for a bad pointer. *)
Definition arg_text (buf : list Z) (a : marg) : option (list Z) :=
  match a with
  | (Some i, Some j) =>
      if (i <=? j)%nat && (j <=? length buf)%nat then Some (take (j - i) (drop i buf)) else None
  | _ => None
  end.

Definition get_arg (buf : list Z) (l : list marg) (n : nat) : option (list Z) :=
  a ← l !! n; arg_text buf a.

(** [while (p < last && *p++)], and the bytes before and from the next NUL on. *)
Fixpoint after_nul (l : list Z) : list Z :=
  match l with [] => [] | c :: l' => if c =? 0 then l' else after_nul l' end.

Fixpoint to_nul (l : list Z) : list Z * list Z :=
  match l with
  | [] => ([], [])
  | c :: l' => if c =? 0 then ([], l) else let '(a, b) := to_nul l' in (c :: a, b)
  end.

(** The return code and the credentials. *)
Definition ngx_mail_auth_plain (c : creds) (arg : list Z) : Z * creds :=
  match ngx_decode_base64 arg with
  | None => (NGX_MAIL_PARSE_INVALID_COMMAND, c)
  | Some plain =>
      match after_nul plain with
      | [] => (NGX_MAIL_PARSE_INVALID_COMMAND, c)
      | p =>
          match to_nul p with
          | (_, []) =>
              (NGX_MAIL_PARSE_INVALID_COMMAND, set_login (mkStr p (m_len (login c))) c)
          | (user, _ :: pass) =>
              (NGX_DONE,
               set_passwd (str_of pass) (set_login (mkStr p (Z.of_nat (length user))) c))
          end
      end
  end.

(** A string is decoded into fresh memory, of which nothing is known when the
    encoding is invalid. *)
Definition decode_to (s : mstr) (arg : list Z) : bool * mstr :=
  match ngx_decode_base64 arg with
  | None => (false, mkStr [] (m_len s))
  | Some d => (true, str_of d)
  end.

Definition ngx_mail_auth_login_username (c : creds) (arg : list Z) : Z * creds :=
  let '(ok, s) := decode_to (login c) arg in
  (if ok : bool then NGX_OK else NGX_MAIL_PARSE_INVALID_COMMAND, set_login s c).

Definition ngx_mail_auth_login_password (c : creds) (arg : list Z) : Z * creds :=
  let '(ok, s) := decode_to (passwd c) arg in
  (if ok : bool then NGX_DONE else NGX_MAIL_PARSE_INVALID_COMMAND, set_passwd s c).

(** The bytes before the first space and those behind it. *)
Fixpoint cut_space (l : list Z) : option (list Z * list Z) :=
  match l with
  | [] => None
  | c :: l' => if c =? cSP then Some ([], l') else '(a, b) ← cut_space l'; Some (c :: a, b)
  end.

Definition ngx_mail_auth_cram_md5 (c : creds) (arg : list Z) : Z * creds :=
  let '(ok, s) := decode_to (login c) arg in
  let c := set_login s c in
  if (ok : bool) then
    let c :=
      match cut_space (m_data s) with
      | Some (user, pass) =>
          set_passwd (str_of pass) (set_login (mkStr (m_data s) (Z.of_nat (length user))) c)
      | None => c
      end in
    if m_len (passwd c) =? 32 then (NGX_DONE, set_auth_method NGX_MAIL_AUTH_CRAM_MD5 c)
    else (NGX_MAIL_PARSE_INVALID_COMMAND, c)
  else (NGX_MAIL_PARSE_INVALID_COMMAND, c).

(** [ngx_mail_auth_cram_md5_salt]: what is sent; [salt] ends with CR LF. *)
Definition ngx_mail_auth_cram_md5_salt (salt prefix : list Z) : list Z :=
  prefix ++ ngx_encode_base64 (take (length salt - 2) salt) ++ [cCR; cLF].

Definition case_equal (arg : list Z) (w : string) : option bool :=
  (fun r => r =? 0) <$> ngx_strncasecmp arg (lit w) (length (lit w)).

(** [ngx_mail_auth_parse]; [tls_only] is the result of [ngx_mail_starttls_only],
    which is not compiled without NGX_MAIL_SSL. *)
Definition ngx_mail_auth_parse (tls_only : bool) (buf : list Z) (l : list marg) (c : creds)
    : option (Z * creds) :=
  let invalid := Some (NGX_MAIL_PARSE_INVALID_COMMAND, c) in
  if tls_only then invalid
  else if (length l =? 0)%nat then invalid
  else
    arg0 ← get_arg buf l 0;
    if (length arg0 =? 5)%nat then
      is_login ← case_equal arg0 "LOGIN";
      if (is_login : bool) then
        if (length l =? 1)%nat then Some (NGX_MAIL_AUTH_LOGIN, c)
        else if (length l =? 2)%nat then Some (NGX_MAIL_AUTH_LOGIN_USERNAME, c)
        else invalid
      else
        is_plain ← case_equal arg0 "PLAIN";
        if (is_plain : bool) then
          if (length l =? 1)%nat then Some (NGX_MAIL_AUTH_PLAIN, c)
          else if (length l =? 2)%nat then ngx_mail_auth_plain c <$> get_arg buf l 1
          else invalid
        else invalid
    else if (length arg0 =? 8)%nat then
      if negb (length l =? 1)%nat then invalid
      else
        is_cram ← case_equal arg0 "CRAM-MD5";
        if (is_cram : bool) then Some (NGX_MAIL_AUTH_CRAM_MD5, c) else invalid
    else invalid.

(** A response of CRAM-MD5 without a space leaves the password of an earlier login
    attempt in place, and is accepted when that had 32 bytes; after a failed AUTH
    LOGIN in between, the pointer leads to memory of another size. *)
Example cram_md5_stale :
  let c0 := mkCreds (str_of (lit "joe")) (str_of (replicate 32 cA)) 0 in
  let '(rc1, c1) := ngx_mail_auth_login_password c0 (lit "!") in
  let '(rc2, c2) := ngx_mail_auth_cram_md5 c1 (lit "am9l") in
  rc1 = NGX_MAIL_PARSE_INVALID_COMMAND /\ rc2 = NGX_DONE
  /\ m_len (passwd c2) = 32 /\ m_data (passwd c2) = [].
Proof. vm_compute. repeat split. Qed.

End MailAuth.
