(* ===== verification/MailPop3.v ===== *)
(** * The POP3 front end

    The session of a POP3 client before it is authenticated:
    src/nginx-1.7.2/src/mail/ngx_mail_pop3_handler.c with
    [ngx_mail_read_command], [ngx_mail_send] and [ngx_mail_auth] of
    ngx_mail_handler.c.  What the system calls return is the argument of the
    events; [None] is a read outside of the buffer or through a null pointer. *)

From S2P Require Import Prelude NgxString NgxBase64 ByteMachine MailParse MailAuth.

Module Pop3.
Import MailParse MailAuth.

(** [ngx_pop3_state_e]. *)
Inductive pop3_mail_state := ngx_pop3_start | ngx_pop3_user | ngx_pop3_passwd
  | ngx_pop3_auth_login_username | ngx_pop3_auth_login_password | ngx_pop3_auth_plain
  | ngx_pop3_auth_cram_md5.

(** The configuration, and whether the connection is encrypted;
    [starttls] is 0 (off), 1 (on) or 2 (only). *)
Record pop3_conf := mkConf {
  auth_methods : Z;
  capability : list Z;
  starttls_capability : list Z;
  starttls_only_capability : list Z;
  auth_capability : list Z;
  starttls : Z;
  ssl : bool
}.

(** The session: the fields of the parsers, the buffer from its start to
    [last], [pos], and what the handlers use. *)
Record pop3_session := mkPop3 {
  parse : session pop3_state;
  buffer : list Z;
  pos : nat;
  mail_state : pop3_mail_state;
  cr : creds;
  out : list Z;
  quit : bool;
  blocked : bool;
  salt : list Z
}.

(** [ngx_create_temp_buf(c->pool, 128)]. *)
Definition buffer_size : nat := 128.

Definition pop3_greeting : list Z := lit "+OK POP3 ready" ++ [cCR; cLF].
Definition pop3_ok : list Z := lit "+OK" ++ [cCR; cLF].
Definition pop3_next : list Z := lit "+ " ++ [cCR; cLF].
Definition pop3_username : list Z := lit "+ VXNlcm5hbWU6" ++ [cCR; cLF].
Definition pop3_password : list Z := lit "+ UGFzc3dvcmQ6" ++ [cCR; cLF].
Definition pop3_invalid_command : list Z := lit "-ERR invalid command" ++ [cCR; cLF].

(** What becomes of the session: it goes on, it is handed to the
    authentication server, to the TLS handshake, or it is closed. *)
Inductive pop3_next_state :=
  | Open (s : pop3_session)
  | Authenticating (s : pop3_session)
  | StartTls (s : pop3_session)
  | Closed.

(** What [c->recv] returns: an error or the end, NGX_AGAIN, or bytes. *)
Inductive recv_result := RecvClosed | RecvAgain | RecvData (d : list Z).

(** What [c->send] returns. *)
Inductive send_result := SendError | SendAgain | Sent (n : nat).

Definition set_parse v s := mkPop3 v (buffer s) (pos s) (mail_state s) (cr s) (out s) (quit s)
  (blocked s) (salt s).
Definition set_buffer b p s := mkPop3 (parse s) b p (mail_state s) (cr s) (out s) (quit s)
  (blocked s) (salt s).
Definition set_mail_state v s := mkPop3 (parse s) (buffer s) (pos s) v (cr s) (out s) (quit s)
  (blocked s) (salt s).
Definition set_cr v s := mkPop3 (parse s) (buffer s) (pos s) (mail_state s) v (out s) (quit s)
  (blocked s) (salt s).
Definition set_out v s := mkPop3 (parse s) (buffer s) (pos s) (mail_state s) (cr s) v (quit s)
  (blocked s) (salt s).
Definition set_quit v s := mkPop3 (parse s) (buffer s) (pos s) (mail_state s) (cr s) (out s) v
  (blocked s) (salt s).
Definition set_blocked v s := mkPop3 (parse s) (buffer s) (pos s) (mail_state s) (cr s) (out s)
  (quit s) v (salt s).

Section Pop3.
Context `{MailBuild} (conf : pop3_conf).

(** The greeting [ngx_mail_pop3_init_session] sends; [salt] is what
    [ngx_mail_salt] makes of a random number, the time and the host name. *)
Definition greeting (salt : list Z) : list Z :=
  if negb (Z.land (auth_methods conf)
             (Z.lor NGX_MAIL_AUTH_APOP_ENABLED NGX_MAIL_AUTH_CRAM_MD5_ENABLED) =? 0)
  then take (length pop3_greeting - 2) pop3_greeting ++ [cSP] ++ salt
  else pop3_greeting.

(** The session as [ngx_mail_pop3_init_session] and
    [ngx_mail_pop3_init_protocol] set it up. *)
Definition init_session (salt : list Z) : pop3_session :=
  mkPop3 (mkSession pop3_sw_start 0 [] None None None (None, None) (None, None) false false false 0)
    [] 0 ngx_pop3_start (mkCreds (mkStr [] 0) (mkStr [] 0) 0) (greeting salt) false false salt.

(** [ngx_mail_starttls_only]; not compiled, and so not asked, without TLS. *)
Definition starttls_only : bool := ngx_mail_ssl && negb (ssl conf) && (starttls conf =? 2).

(** ** The commands *)

(** A copy of an argument. *)
Definition copy_arg (s : pop3_session) (n : nat) : option mstr :=
  str_of <$> get_arg (buffer s) (args (parse s)) n.

Definition nargs (s : pop3_session) : nat := length (args (parse s)).

Definition ngx_mail_pop3_user (s : pop3_session) : option (Z * pop3_session) :=
  if starttls_only then Some (NGX_MAIL_PARSE_INVALID_COMMAND, s)
  else if negb (nargs s =? 1)%nat then Some (NGX_MAIL_PARSE_INVALID_COMMAND, s)
  else
    l ← copy_arg s 0;
    Some (NGX_OK, set_mail_state ngx_pop3_user (set_cr (set_login l (cr s)) s)).

Definition ngx_mail_pop3_pass (s : pop3_session) : option (Z * pop3_session) :=
  if negb (nargs s =? 1)%nat then Some (NGX_MAIL_PARSE_INVALID_COMMAND, s)
  else p ← copy_arg s 0; Some (NGX_DONE, set_cr (set_passwd p (cr s)) s).

Definition ngx_mail_pop3_capa (stls : bool) (s : pop3_session) : option (Z * pop3_session) :=
  Some (NGX_OK, set_out
    (if ngx_mail_ssl && stls && negb (ssl conf) && (starttls conf =? 1) then starttls_capability conf
     else if ngx_mail_ssl && stls && negb (ssl conf) && (starttls conf =? 2)
     then starttls_only_capability conf
     else capability conf) s).

(** NGX_OK, and whether the handler of the connection becomes the TLS
    handshake. *)
Definition ngx_mail_pop3_stls (s : pop3_session) : option (Z * pop3_session * bool) :=
  if ngx_mail_ssl && negb (ssl conf) && negb (starttls conf =? 0) then Some (NGX_OK, s, true)
  else Some (NGX_MAIL_PARSE_INVALID_COMMAND, s, false).

Definition ngx_mail_pop3_apop (s : pop3_session) : option (Z * pop3_session) :=
  if starttls_only then Some (NGX_MAIL_PARSE_INVALID_COMMAND, s)
  else if negb (nargs s =? 2)%nat then Some (NGX_MAIL_PARSE_INVALID_COMMAND, s)
  else if Z.land (auth_methods conf) NGX_MAIL_AUTH_APOP_ENABLED =? 0
  then Some (NGX_MAIL_PARSE_INVALID_COMMAND, s)
  else
    l ← copy_arg s 0;
    p ← copy_arg s 1;
    Some (NGX_DONE,
          set_cr (set_auth_method NGX_MAIL_AUTH_APOP (set_passwd p (set_login l (cr s)))) s).

(** A function of the credentials, applied to argument [n]. *)
Definition with_arg (f : creds -> list Z -> Z * creds) (n : nat) (s : pop3_session)
    : option (Z * pop3_session) :=
  a ← get_arg (buffer s) (args (parse s)) n;
  let '(rc, c) := f (cr s) a in Some (rc, set_cr c s).

Definition ngx_mail_pop3_auth (s : pop3_session) : option (Z * pop3_session) :=
  if starttls_only then Some (NGX_MAIL_PARSE_INVALID_COMMAND, s)
  else if (nargs s =? 0)%nat then
    Some (NGX_OK, set_parse (set_state pop3_sw_start (parse s)) (set_out (auth_capability conf) s))
  else
    '(rc, c) ← ngx_mail_auth_parse starttls_only (buffer s) (args (parse s)) (cr s);
    let s := set_cr c s in
    if rc =? NGX_MAIL_AUTH_LOGIN then
      Some (NGX_OK, set_mail_state ngx_pop3_auth_login_username (set_out pop3_username s))
    else if rc =? NGX_MAIL_AUTH_LOGIN_USERNAME then
      with_arg ngx_mail_auth_login_username 1
        (set_mail_state ngx_pop3_auth_login_password (set_out pop3_password s))
    else if rc =? NGX_MAIL_AUTH_PLAIN then
      Some (NGX_OK, set_mail_state ngx_pop3_auth_plain (set_out pop3_next s))
    else if rc =? NGX_MAIL_AUTH_CRAM_MD5 then
      if Z.land (auth_methods conf) NGX_MAIL_AUTH_CRAM_MD5_ENABLED =? 0
      then Some (NGX_MAIL_PARSE_INVALID_COMMAND, s)
      else Some (NGX_OK, set_mail_state ngx_pop3_auth_cram_md5
                           (set_out (ngx_mail_auth_cram_md5_salt (salt s) (lit "+ ")) s))
    else Some (rc, s).

(** The [switch (s->mail_state)]: the code, the session and whether the
    connection goes to the TLS handshake. *)
Definition pop3_command (s : pop3_session) : option (Z * pop3_session * bool) :=
  let plain r := x ← r; Some (x, false) in
  let invalid := Some (NGX_MAIL_PARSE_INVALID_COMMAND, s, false) in
  let c := command (parse s) in
  match mail_state s with
  | ngx_pop3_start =>
      if c =? NGX_POP3_USER then plain (ngx_mail_pop3_user s)
      else if c =? NGX_POP3_CAPA then plain (ngx_mail_pop3_capa true s)
      else if c =? NGX_POP3_APOP then plain (ngx_mail_pop3_apop s)
      else if c =? NGX_POP3_AUTH then plain (ngx_mail_pop3_auth s)
      else if c =? NGX_POP3_QUIT then Some (NGX_OK, set_quit true s, false)
      else if c =? NGX_POP3_NOOP then Some (NGX_OK, s, false)
      else if c =? NGX_POP3_STLS then ngx_mail_pop3_stls s
      else invalid
  | ngx_pop3_user =>
      if c =? NGX_POP3_PASS then plain (ngx_mail_pop3_pass s)
      else if c =? NGX_POP3_CAPA then plain (ngx_mail_pop3_capa false s)
      else if c =? NGX_POP3_QUIT then Some (NGX_OK, set_quit true s, false)
      else if c =? NGX_POP3_NOOP then Some (NGX_OK, s, false)
      else invalid
  | ngx_pop3_passwd => Some (NGX_OK, s, false)
  | ngx_pop3_auth_login_username =>
      '(rc, s) ← with_arg ngx_mail_auth_login_username 0 s;
      Some (rc, set_mail_state ngx_pop3_auth_login_password (set_out pop3_password s), false)
  | ngx_pop3_auth_login_password => plain (with_arg ngx_mail_auth_login_password 0 s)
  | ngx_pop3_auth_plain => plain (with_arg ngx_mail_auth_plain 0 s)
  | ngx_pop3_auth_cram_md5 => plain (with_arg ngx_mail_auth_cram_md5 0 s)
  end.

(** ** Reading and writing *)

(** [ngx_mail_read_command]: the parser is run on what the buffer has, *)
Definition read_run (s : pop3_session) : option (Z * pop3_session) :=
  '(rc, p, n) ← ngx_mail_pop3_parse_command (parse s) (buffer s) (pos s);
  let s := set_parse p (set_buffer (buffer s) n s) in
  if rc =? NGX_AGAIN then
    if (length (buffer s) <? buffer_size)%nat then Some (NGX_AGAIN, s)
    else Some (NGX_MAIL_PARSE_INVALID_COMMAND, set_quit true s)
  else Some (rc, s).

(** after what was received was added to it. *)
Definition ngx_mail_read_command (r : recv_result) (s : pop3_session)
    : option (Z * pop3_session) :=
  match r with
  | RecvClosed => Some (NGX_ERROR, s)
  | RecvAgain => if (pos s =? length (buffer s))%nat then Some (NGX_AGAIN, s) else read_run s
  | RecvData d => read_run (set_buffer (buffer s ++ d) (pos s) s)
  end.

(** [ngx_mail_send], but for the call of the handler of a blocked read. *)
Definition ngx_mail_send (w : send_result) (s : pop3_session) : pop3_next_state :=
  match out s with
  | [] => Open s
  | _ =>
      match w with
      | SendError => Closed
      | SendAgain => Open s
      | Sent n =>
          let s := set_out (drop n (out s)) s in
          match out s with
          | [] => if quit s then Closed else Open s
          | _ => Open s
          end
      end
  end.

(** [ngx_mail_auth], up to [ngx_mail_auth_http_init]. *)
Definition ngx_mail_auth (s : pop3_session) : pop3_session :=
  let s := set_parse (set_state pop3_sw_start (set_args [] (parse s))) s in
  if (pos s =? length (buffer s))%nat then set_buffer [] 0 s else s.

(** The session is made ready for the next line. *)
Definition next_line (s : pop3_session) : pop3_session :=
  let p := set_args [] (parse s) in
  let p := match s_state p with pop3_sw_start => p | _ => set_arg_start (Some O) p end in
  set_parse p (set_buffer [] 0 s).

(** [ngx_mail_pop3_auth_state]. *)
Definition ngx_mail_pop3_auth_state (r : recv_result) (w : send_result) (s : pop3_session)
    : option pop3_next_state :=
  if negb (length (out s) =? 0)%nat then Some (Open (set_blocked true s))
  else
    let s := set_blocked false s in
    '(rc, s) ← ngx_mail_read_command r s;
    if rc =? NGX_AGAIN then Some (Open s)
    else if rc =? NGX_ERROR then Some Closed
    else
      let s := set_out pop3_ok s in
      '(rc, s, tls) ← (if rc =? NGX_OK then pop3_command s else Some (rc, s, false));
      if rc =? NGX_DONE then Some (Authenticating (ngx_mail_auth s))
      else if rc =? NGX_ERROR then Some Closed
      else if negb ((rc =? NGX_MAIL_PARSE_INVALID_COMMAND) || (rc =? NGX_OK)) then Some (Open s)
      else
        let s :=
          if rc =? NGX_MAIL_PARSE_INVALID_COMMAND then
            set_out pop3_invalid_command
              (set_parse (set_state pop3_sw_start (parse s)) (set_mail_state ngx_pop3_start s))
          else s in
        match ngx_mail_send w (next_line s) with
        | Open s => Some (if tls : bool then StartTls s else Open s)
        | n => Some n
        end.

(** ** Events *)

Inductive pop3_event :=
  | Readable (r : recv_result) (w : send_result)
  | Writable (w : send_result) (r : recv_result) (w' : send_result)
  | Refused (err : list Z) (sleep : bool) (w : send_result)
  | TimedOut.

(** A readable or writable connection, a login the authentication server
    refused (with a pause, [ngx_mail_auth_sleep_handler] opens the session again
    after it; without one, the session ends), a timeout. *)
Definition pop3_handle (e : pop3_event) (x : pop3_next_state) : option pop3_next_state :=
  match x, e with
  | Open s, Readable r w => ngx_mail_pop3_auth_state r w s
  | Open s, Writable w r w' =>
      match out s, ngx_mail_send w s with
      | _ :: _, Open s' =>
          if (length (out s') =? 0)%nat && blocked s' then ngx_mail_pop3_auth_state r w' s'
          else Some (Open s')
      | _, n => Some n
      end
  | Authenticating s, Refused err sleep w =>
      let s := set_out err s in
      if (sleep : bool) then
        Some (ngx_mail_send w (set_mail_state ngx_pop3_start
               (set_cr (set_auth_method NGX_MAIL_AUTH_PLAIN (cr s)) s)))
      else Some (ngx_mail_send w (set_quit true s))
  | _, TimedOut => Some Closed
  | _, _ => Some x
  end.

(** ** The parser inside the session *)

(** An argument that lies in the first [p] bytes. *)
Definition arg_in (p : nat) (a : marg) : Prop :=
  exists i j, a = (Some i, Some j) /\ (i <= j <= p)%nat.

(** The pointers of the parser, at position [p]. *)
Definition parser_ok (p : nat) (st : pop3_state) (s : session pop3_state) : Prop :=
  Forall (arg_in p) (args s)
  /\ match st with
     | pop3_sw_argument => exists i, arg_start s = Some i /\ (i <= p)%nat
     | _ => arg_start s = None
     end.

(** A line that continues an AUTH command will have an argument. *)
Definition continues (st : pop3_state) (s : session pop3_state) : Prop :=
  command s = NGX_POP3_AUTH /\ st <> pop3_sw_start /\ (args s <> [] \/ st = pop3_sw_argument).

Lemma arg_in_mono p q a : (p <= q)%nat -> arg_in p a -> arg_in q a.
Proof. intros Hpq (i & j & -> & Hij). exists i, j. split; [done|lia]. Qed.

Lemma args_in_mono p q l : (p <= q)%nat -> Forall (arg_in p) l -> Forall (arg_in q) l.
Proof. intros Hpq Hl. eapply Forall_impl; [exact Hl|]. intros a. by apply arg_in_mono. Qed.

Lemma push_arg_ok p (s : session pop3_state) i :
  Forall (arg_in p) (args s) -> arg_start s = Some i -> (i <= p)%nat ->
  Forall (arg_in p) (args (push_arg (Some p) s)) /\ arg_start (push_arg (Some p) s) = None.
Proof.
  intros Ha Hs Hi. split; [|done]. unfold push_arg. simpl. apply Forall_app. split; [done|].
  constructor; [|done]. exists i, p. rewrite Hs. split; [done|lia].
Qed.

(** What a step of the parser leaves behind. *)
Definition step_ok (p : nat) (c0 : bool) (a : pop3_action) : Prop :=
  match a with
  | Continue (st, s) | Rescan (st, s) =>
      parser_ok (S p) st s /\ (c0 = true -> continues st s)
  | Leave Done (_, s) =>
      Forall (arg_in (S p)) (args s) /\ arg_start s = None
      /\ (c0 = true -> command s = NGX_POP3_AUTH /\ args s <> [])
  | Leave Invalid (_, s) => Forall (arg_in (S p)) (args s)
  end.

Lemma pop3_after_ok p c0 ch st (s : session pop3_state) :
  Forall (arg_in (S p)) (args s) -> arg_start s = None ->
  (c0 = true -> command s = NGX_POP3_AUTH /\ args s <> []) -> step_ok p c0 (pop3_after ch st s).
Proof.
  intros Ha Hs Hc. unfold pop3_after, step_ok, parser_ok, continues.
  repeat case_match; simplify_eq; naive_solver.
Qed.

Lemma pop3_step_ok buf p ch st s c0 :
  parser_ok p st s -> (c0 = true -> continues st s) -> step_ok p c0 (pop3_step buf p ch (st, s)).
Proof.
  intros [Ha Hs] Hc.
  assert (Ha' : Forall (arg_in (S p)) (args s)) by (eapply args_in_mono; [|done]; lia).
  destruct st; cbn [pop3_step].
  - assert (c0 = false) as -> by (destruct c0; [destruct (Hc eq_refl) as (_ & ? & _)|]; done).
    unfold pop3_case_start. destruct (line_char ch); [|destruct (is_letter ch); simpl; [|done]].
    + destruct (_ =? _)%nat; [|done]. destruct (find_word _ _); [|done]. by apply pop3_after_ok.
    + by split.
  - assert (Hc' : c0 = true -> command s = NGX_POP3_AUTH /\ args s <> []).
    { intros E. destruct (Hc E) as (? & _ & [?|?]); done. }
    unfold pop3_case_spaces. destruct (ch =? cSP); [done|].
    destruct (ch =? cCR); [|destruct (ch =? cLF); [|destruct (_ <=? _)%nat; [|done]]].
    + split; [done|]. intros E. destruct (Hc' E). repeat split; auto.
    + split_and!; done.
    + split; [split; [done|exists p; split; [done|lia]]|].
      intros E. destruct (Hc' E). repeat split; auto.
  - destruct Hs as (i & Hs & Hi). unfold pop3_case_argument.
    assert (Hstay : step_ok p c0 (Continue (pop3_sw_argument, s))).
    { split; [split; [done|exists i; split; [done|lia]]|done]. }
    destruct ((ch =? cSP) && _); [done|]. destruct (line_char ch); [|done].
    destruct (push_arg_ok p s i Ha Hs Hi) as [Hp1 Hp2]. apply pop3_after_ok; [|done|].
    + eapply args_in_mono; [|done]. lia.
    + intros E. destruct (Hc E) as (? & _ & _). split; [done|]. simpl. by destruct (args s).
  - case_match; simpl; [|done]. split_and!; try done.
    intros E. destruct (Hc E) as (? & ? & [?|?]); done.
Qed.

(** What the parser gives its caller. *)
Lemma pop3_parse_ok s buf p c0 :
  (p <= length buf)%nat -> parser_ok p (s_state s) s -> (c0 = true -> continues (s_state s) s) ->
  exists rc s' p', ngx_mail_pop3_parse_command s buf p = Some (rc, s', p')
    /\ ((rc = NGX_AGAIN /\ p' = length buf /\ parser_ok p' (s_state s') s'
         /\ (c0 = true -> continues (s_state s') s'))
        \/ (rc = NGX_OK /\ (p' <= length buf)%nat /\ Forall (arg_in (length buf)) (args s')
            /\ arg_start s' = None
            /\ s_state s' = (if command s' =? NGX_POP3_AUTH then pop3_sw_argument else pop3_sw_start)
            /\ (c0 = true -> command s' = NGX_POP3_AUTH /\ args s' <> []))
        \/ (rc = NGX_MAIL_PARSE_INVALID_COMMAND /\ p' = p /\ arg_start s' = None
            /\ s_state s' = pop3_sw_start)).
Proof.
  intros Hp Hok Hc. unfold ngx_mail_pop3_parse_command.
  pose proof (go_invariant pop3_step no_rank
    (fun _ p x => parser_ok p x.1 x.2 /\ (c0 = true -> continues x.1 x.2))
    (fun _ p x y => step_ok p c0 (Leave x y)) buf) as Hinv.
  specialize (Hinv ltac:(intros q [st x] ch y Hq [H1 H2] E;
    pose proof (pop3_step_ok buf q ch st x c0 H1 H2) as Hs; rewrite E in Hs; by destruct y)).
  specialize (Hinv ltac:(intros q [st x] ch y Hq [H1 H2] E; apply rescan_lt in E;
    unfold no_rank in E; lia)).
  specialize (Hinv ltac:(intros q [st x] ch e y Hq [H1 H2] E;
    pose proof (pop3_step_ok buf q ch st x c0 H1 H2) as Hs; by rewrite E in Hs)).
  specialize (Hinv p (s_state s, s) (conj Hok Hc)).
  pose proof (go_pos pop3_step no_rank buf p (s_state s, s)) as Hpos.
  destruct (go pop3_step buf p (s_state s, s)) as [[st s'] q|[] [st s'] q|]; [| | |done].
  - exists NGX_AGAIN, (set_state st s'), q. split; [done|]. left. simpl in *. split_and!; try done; [lia|..].
    + apply Hinv. + apply Hinv.
  - simpl in Hinv. destruct Hinv as (H1 & H2 & H3).
    assert (El : last_arg s' = s') by (unfold last_arg; by rewrite H2). rewrite El.
    do 3 eexists. split; [done|]. right. left. split_and!; try done; [lia|].
    eapply args_in_mono; [|done]. lia.
  - do 3 eexists. split; [done|]. right. right. done.
Qed.

(** ** The commands *)

Lemma get_arg_ok buf l n :
  Forall (arg_in (length buf)) l -> (n < length l)%nat -> exists t, get_arg buf l n = Some t.
Proof.
  intros Hl Hn. unfold get_arg. destruct (lookup_lt_is_Some_2 l n Hn) as [a Ea]. rewrite Ea.
  destruct (Forall_lookup_1 _ _ _ _ Hl Ea) as (i & j & -> & Hij). cbn [mbind option_bind arg_text].
  rewrite (proj2 (Nat.leb_le i j)), (proj2 (Nat.leb_le j (length buf))) by lia. by eexists.
Qed.

Lemma strncasecmp_ok n : forall a b,
  (n <= length a)%nat -> (n <= length b)%nat -> exists r, ngx_strncasecmp a b n = Some r.
Proof.
  induction n as [|n IH]; intros a b Ha Hb; [by eexists|].
  destruct a as [|x a], b as [|y b]; simpl in *; try lia.
  repeat case_match; try by eexists. apply IH; lia.
Qed.

Lemma case_equal_ok arg w :
  length arg = length (lit w) -> exists b, case_equal arg w = Some b.
Proof.
  intros E. unfold case_equal.
  destruct (strncasecmp_ok (length (lit w)) arg (lit w)) as [r ->]; [lia|lia|]. by eexists.
Qed.

Lemma auth_plain_rc c a : 
  (ngx_mail_auth_plain c a).1 = NGX_DONE
  \/ (ngx_mail_auth_plain c a).1 = NGX_MAIL_PARSE_INVALID_COMMAND.
Proof. unfold ngx_mail_auth_plain. repeat case_match; auto. Qed.

(** The codes of [ngx_mail_auth_parse]; it reads no argument that is not there. *)
Lemma auth_parse_ok tls buf l c :
  Forall (arg_in (length buf)) l ->
  exists rc c', ngx_mail_auth_parse tls buf l c = Some (rc, c')
    /\ (rc = NGX_MAIL_AUTH_LOGIN \/ (rc = NGX_MAIL_AUTH_LOGIN_USERNAME /\ length l = 2%nat)
        \/ rc = NGX_MAIL_AUTH_PLAIN \/ rc = NGX_MAIL_AUTH_CRAM_MD5 \/ rc = NGX_DONE
        \/ rc = NGX_MAIL_PARSE_INVALID_COMMAND).
Proof.
  intros Hl. unfold ngx_mail_auth_parse.
  assert (Hinv : exists rc c', Some (NGX_MAIL_PARSE_INVALID_COMMAND, c) = Some (rc, c')
    /\ (rc = NGX_MAIL_AUTH_LOGIN \/ (rc = NGX_MAIL_AUTH_LOGIN_USERNAME /\ length l = 2%nat)
        \/ rc = NGX_MAIL_AUTH_PLAIN \/ rc = NGX_MAIL_AUTH_CRAM_MD5 \/ rc = NGX_DONE
        \/ rc = NGX_MAIL_PARSE_INVALID_COMMAND)) by (eexists _, _; split; [done|]; tauto).
  destruct tls; [done|]. destruct (Nat.eqb_spec (length l) 0) as [|Hne]; [done|].
  destruct (get_arg_ok buf l 0 Hl ltac:(lia)) as [arg0 ->]. cbn [mbind option_bind].
  destruct (Nat.eqb_spec (length arg0) 5) as [E5|_].
  - destruct (case_equal_ok arg0 "LOGIN" E5) as [[] ->]; cbn [mbind option_bind].
    { destruct (Nat.eqb_spec (length l) 1); [do 2 eexists; split; [done|]; tauto|].
      destruct (Nat.eqb_spec (length l) 2); [do 2 eexists; split; [done|]; tauto|done]. }
    destruct (case_equal_ok arg0 "PLAIN" E5) as [[] ->]; cbn [mbind option_bind]; [|done].
    destruct (Nat.eqb_spec (length l) 1); [do 2 eexists; split; [done|]; tauto|].
    destruct (Nat.eqb_spec (length l) 2); [|done].
    destruct (get_arg_ok buf l 1 Hl ltac:(lia)) as [arg1 ->]. cbn [fmap option_fmap option_map].
    pose proof (auth_plain_rc c arg1) as Hrc. destruct (ngx_mail_auth_plain c arg1) as [rc c'].
    do 2 eexists. split; [done|]. simpl in Hrc. tauto.
  - destruct (Nat.eqb_spec (length arg0) 8) as [E8|_]; [|done].
    destruct (negb _); [done|].
    destruct (case_equal_ok arg0 "CRAM-MD5" E8) as [[] ->]; cbn [mbind option_bind]; [|done].
    do 2 eexists. split; [done|]. tauto.
Qed.

(** The states in which a line continues an AUTH command. *)
Definition continuing (ms : pop3_mail_state) : bool :=
  match ms with
  | ngx_pop3_auth_login_username | ngx_pop3_auth_login_password | ngx_pop3_auth_plain
  | ngx_pop3_auth_cram_md5 => true
  | _ => false
  end.

(** The session when a whole line was read. *)
Record line_read (s : pop3_session) : Prop := {
  lr_args : Forall (arg_in (length (buffer s))) (args (parse s));
  lr_start : arg_start (parse s) = None;
  lr_state : s_state (parse s)
             = (if command (parse s) =? NGX_POP3_AUTH then pop3_sw_argument else pop3_sw_start);
  lr_cont : continuing (mail_state s) = true ->
            command (parse s) = NGX_POP3_AUTH /\ args (parse s) <> []
}.

(** What a command leaves: the buffer as it was, no argument begun, and in a
    state that waits for a line of AUTH a parser that does too. *)
Definition handled (s : pop3_session) (rc : Z) (s' : pop3_session) : Prop :=
  (rc = NGX_OK \/ rc = NGX_DONE \/ rc = NGX_MAIL_PARSE_INVALID_COMMAND)
  /\ buffer s' = buffer s /\ pos s' = pos s /\ arg_start (parse s') = None
  /\ (s_state (parse s') = pop3_sw_start \/ s_state (parse s') = pop3_sw_argument)
  /\ (quit s' = true -> quit s = true \/ (rc = NGX_OK /\ out s' = out s))
  /\ (rc = NGX_OK -> continuing (mail_state s') = true ->
      s_state (parse s') = pop3_sw_argument /\ command (parse s') = NGX_POP3_AUTH).

Lemma with_arg_ok f n s :
  line_read s -> (n < nargs s)%nat ->
  exists rc c, with_arg f n s = Some (rc, set_cr c s)
    /\ exists a, rc = (f (cr s) a).1.
Proof.
  intros [Hl _ _ _] Hn. unfold with_arg.
  destruct (get_arg_ok (buffer s) (args (parse s)) n Hl Hn) as [a ->]. cbn [mbind option_bind].
  destruct (f (cr s) a) as [rc c] eqn:E. exists rc, c. split; [done|]. exists a. by rewrite E.
Qed.

Lemma copy_arg_ok n s : line_read s -> (n < nargs s)%nat -> exists t, copy_arg s n = Some t.
Proof.
  intros [Hl _ _ _] Hn. unfold copy_arg.
  destruct (get_arg_ok (buffer s) (args (parse s)) n Hl Hn) as [a ->]. by eexists.
Qed.

Lemma pop3_auth_ok s :
  line_read s -> mail_state s = ngx_pop3_start -> command (parse s) = NGX_POP3_AUTH ->
  exists rc s', ngx_mail_pop3_auth s = Some (rc, s') /\ handled s rc s'.
Proof.
  intros Hr Hms Hc. pose proof Hr as [Hl Hst Hss _]. rewrite Hc in Hss. cbn in Hss.
  unfold ngx_mail_pop3_auth. destruct starttls_only.
  { do 2 eexists. split; [done|]. repeat split; auto; done. }
  destruct (nargs s =? 0)%nat.
  { do 2 eexists. split; [done|]. unfold handled. simpl. rewrite Hms. by repeat split; auto. }
  destruct (auth_parse_ok false (buffer s) (args (parse s)) (cr s) Hl) as (rc & c & -> & Hrc).
  cbn [mbind option_bind]. unfold handled.
  destruct Hrc as [-> | [[-> Hn] | [-> | [-> | [-> | ->]]]]]; cbn [Z.eqb Pos.eqb];
    try (do 2 eexists; split; [done|]; simpl; by repeat split; auto).
  - destruct (with_arg_ok ngx_mail_auth_login_username 1 (set_mail_state ngx_pop3_auth_login_password (set_out pop3_password (set_cr c s)))) as (rc & c' & E & a & Ea).
    { split; simpl; try done. by rewrite Hc. intros _. split; [done|]. destruct (args (parse s)); done. }
    { unfold nargs. simpl. lia. }
    rewrite E. do 2 eexists. split; [done|]. simpl. repeat split; auto.
    rewrite Ea. unfold ngx_mail_auth_login_username, decode_to. repeat case_match; simplify_eq; simpl; auto.
  - destruct (_ =? _); do 2 eexists; (split; [done|]); simpl; by repeat split; auto.
Qed.

Lemma pop3_command_ok s :
  line_read s -> exists rc s' tls, pop3_command s = Some (rc, s', tls) /\ handled s rc s'.
Proof.
  intros Hr. pose proof Hr as [Hl Hst Hss Hco]. unfold pop3_command.
  assert (Hss' : s_state (parse s) = pop3_sw_start \/ s_state (parse s) = pop3_sw_argument)
    by (rewrite Hss; destruct (_ =? _); auto).
  assert (Hsame : continuing (mail_state s) = false -> forall rc s', 
    (rc = NGX_OK \/ rc = NGX_MAIL_PARSE_INVALID_COMMAND) -> parse s' = parse s -> buffer s' = buffer s ->
    pos s' = pos s -> mail_state s' = mail_state s ->
    quit s' = quit s \/ (rc = NGX_OK /\ out s' = out s) -> handled s rc s').
  { intros Hm rc s' H1 H2 H3 H4 H5 H6. unfold handled. rewrite H2, H3, H4, H5, Hm.
    repeat split; auto; try done; [tauto|]. destruct H6 as [-> | H6]; auto. }
  assert (Hcont : continuing (mail_state s) = true -> forall f ms,
    (forall c a, (f c a).1 = NGX_OK \/ (f c a).1 = NGX_DONE \/ (f c a).1 = NGX_MAIL_PARSE_INVALID_COMMAND) ->
    continuing ms = true -> exists rc c, with_arg f 0 s = Some (rc, set_cr c s)
      /\ handled s rc (set_mail_state ms (set_out pop3_password (set_cr c s)))
      /\ handled s rc (set_cr c s)).
  { intros Hm f ms Hf Hms. destruct (Hco Hm) as [Hc Ha].
    destruct (with_arg_ok f 0 s Hr) as (rc & c & E & a & Ea).
    { unfold nargs. destruct (args (parse s)); [done|simpl; lia]. }
    exists rc, c. split; [done|]. rewrite Hc in Hss. cbn in Hss. subst rc. unfold handled; simpl.
    split; repeat split; auto. }
  assert (Hq : forall b, handled s NGX_OK (set_quit b s) -> exists rc s' tls,
    Some (NGX_OK, set_quit b s, false) = Some (rc, s', tls) /\ handled s rc s') by eauto.
  destruct (mail_state s) eqn:Hms; cbn [continuing] in *; specialize (Hsame eq_refl) || clear Hsame.
  - case_test; [unfold ngx_mail_pop3_user; destruct starttls_only;
      [|destruct (Nat.eqb_spec (nargs s) 1); [destruct (copy_arg_ok 0 s Hr) as [t ->]; [lia|]|]]|].
    1-3: cbn [negb mbind option_bind]; do 3 eexists; (split; [done|]); unfold handled; simpl;
      rewrite ?Hms; by repeat split; auto.
    case_test; [do 3 eexists; split; [done|]; apply Hsame; auto|].
    case_test; [unfold ngx_mail_pop3_apop; destruct starttls_only;
      [|destruct (Nat.eqb_spec (nargs s) 2);
        [destruct (_ =? 0); [|destruct (copy_arg_ok 0 s Hr) as [t ->]; [lia|];
           destruct (copy_arg_ok 1 s Hr) as [t' ->]; [lia|]]|]]|].
    1-4: cbn [negb mbind option_bind]; do 3 eexists; (split; [done|]); unfold handled; simpl;
      rewrite ?Hms; by repeat split; auto.
    destruct (Z.eqb_spec (command (parse s)) NGX_POP3_AUTH) as [Ha|_].
    { destruct (pop3_auth_ok s Hr Hms Ha) as (rc & s' & -> & Hh). cbn [mbind option_bind].
      by eauto. }
    case_test; [apply Hq, Hsame; auto|]. case_test; [do 3 eexists; split; [done|]; apply Hsame; auto|].
    case_test; [unfold ngx_mail_pop3_stls; destruct (_ && _)|]; do 3 eexists; (split; [done|]);
      apply Hsame; auto.
  - case_test; [unfold ngx_mail_pop3_pass; destruct (Nat.eqb_spec (nargs s) 1);
      [destruct (copy_arg_ok 0 s Hr) as [t ->]; [lia|]|]|].
    1-2: cbn [negb mbind option_bind]; do 3 eexists; (split; [done|]); unfold handled; simpl;
      rewrite ?Hms; by repeat split; auto.
    case_test; [do 3 eexists; split; [done|]; apply Hsame; auto|].
    case_test; [apply Hq, Hsame; auto|].
    case_test; do 3 eexists; (split; [done|]); apply Hsame; auto.
  - do 3 eexists. split; [done|]. apply Hsame; auto.
  - destruct (Hcont eq_refl ngx_mail_auth_login_username ngx_pop3_auth_login_password)
      as (rc & c & -> & Hh & _); [|done|by cbn [mbind option_bind]; eauto].
    intros c a. unfold ngx_mail_auth_login_username, decode_to. repeat case_match; simplify_eq; simpl; auto.
  - destruct (Hcont eq_refl ngx_mail_auth_login_password ngx_pop3_auth_plain)
      as (rc & c & -> & _ & Hh); [|done|by cbn [mbind option_bind]; eauto].
    intros c a. unfold ngx_mail_auth_login_password, decode_to. repeat case_match; simplify_eq; simpl; auto.
  - destruct (Hcont eq_refl ngx_mail_auth_plain ngx_pop3_auth_plain)
      as (rc & c & -> & _ & Hh); [|done|by cbn [mbind option_bind]; eauto].
    intros c a. destruct (auth_plain_rc c a); auto.
  - destruct (Hcont eq_refl ngx_mail_auth_cram_md5 ngx_pop3_auth_plain)
      as (rc & c & -> & _ & Hh); [|done|by cbn [mbind option_bind]; eauto].
    intros c a. unfold ngx_mail_auth_cram_md5. repeat case_match; simplify_eq; simpl; auto.
Qed.

(** ** The session *)

(** The invariant of a session between two events; a session that ends only has
    something left to send. *)
Record session_ok (s : pop3_session) : Prop := {
  so_buffer : (pos s <= length (buffer s) <= buffer_size)%nat;
  so_quit : quit s = true -> out s <> [];
  so_parser : quit s = false -> parser_ok (pos s) (s_state (parse s)) (parse s);
  so_cont : quit s = false -> continuing (mail_state s) = true ->
            continues (s_state (parse s)) (parse s)
}.

Definition state_ok (x : pop3_next_state) : Prop :=
  match x with
  | Open s => session_ok s
  | Authenticating s =>
      (pos s <= length (buffer s) <= buffer_size)%nat /\ quit s = false
      /\ s_state (parse s) = pop3_sw_start /\ args (parse s) = [] /\ arg_start (parse s) = None
  | StartTls s => session_ok s
  | Closed => True
  end.

(** [c->recv] is asked for what the buffer has room for: it returns that many
    bytes at most, and at least one. *)
Definition recv_ok (r : recv_result) (s : pop3_session) : Prop :=
  match r with
  | RecvData d => (0 < length d)%nat /\ (length (buffer s) + length d <= buffer_size)%nat
  | _ => True
  end.

(** The answer to a refused login is not empty. *)
Definition event_ok (e : pop3_event) (x : pop3_next_state) : Prop :=
  match x, e with
  | Open s, Readable r _ | Open s, Writable _ r _ => recv_ok r s
  | _, Refused err _ _ => err <> []
  | _, _ => True
  end.

Lemma send_keeps w s :
  ngx_mail_send w s = Closed
  \/ exists o, ngx_mail_send w s = Open (set_out o s) /\ (quit s = true -> out s <> [] -> o <> []).
Proof.
  unfold ngx_mail_send. destruct s as [pa bu po ms cr0 ou q b sa]. cbn [out quit].
  destruct ou as [|x ou]; [right; by exists []|].
  destruct w; [by left|right; by exists (x :: ou)|].
  cbn [out set_out quit parse buffer pos mail_state cr blocked salt].
  destruct (drop n (x :: ou)) as [|y l]; [|right; by exists (y :: l)].
  destruct q; [by left|right; by exists []].
Qed.

Lemma send_ok w s : session_ok s -> state_ok (ngx_mail_send w s).
Proof.
  intros [H1 H2 H3 H4]. destruct (send_keeps w s) as [-> | (o & -> & Ho)]; [done|].
  split; simpl; auto.
Qed.

(** What the parser makes of the buffer, in a session that is not ending. *)
Lemma read_run_ok s :
  session_ok s -> quit s = false ->
  exists rc s', read_run s = Some (rc, s')
    /\ ((rc = NGX_AGAIN /\ session_ok s')
        \/ (rc = NGX_OK /\ line_read s' /\ quit s' = false
            /\ (pos s' <= length (buffer s') <= buffer_size)%nat)
        \/ (rc = NGX_MAIL_PARSE_INVALID_COMMAND /\ (quit s' = false -> arg_start (parse s') = None))).
Proof.
  intros [Hb Hq Hp Hc] Eq. unfold read_run.
  destruct (pop3_parse_ok (parse s) (buffer s) (pos s) (continuing (mail_state s)))
    as (rc & p & n & -> & Hcases); [lia|auto|auto|]. cbn [mbind option_bind].
  destruct Hcases as [(-> & -> & Hpo & Hco) | [(-> & Hn & Ha & Hst & Hss & Hco) | (-> & -> & Hst & Hss)]].
  - cbn [Z.eqb Pos.eqb]. destruct (_ <? _)%nat; do 2 eexists; (split; [done|]).
    + left. split; [done|]. split; simpl; try done; try lia.
    + right. right. split; [done|]. simpl. done.
  - do 2 eexists. split; [done|]. right. left. split; [done|].
    split; [by split|]. simpl. split; [done|lia].
  - do 2 eexists. split; [done|]. auto.
Qed.

Lemma read_command_ok r s :
  session_ok s -> quit s = false -> recv_ok r s ->
  exists rc s', ngx_mail_read_command r s = Some (rc, s')
    /\ ((rc = NGX_AGAIN /\ session_ok s') \/ rc = NGX_ERROR
        \/ (rc = NGX_OK /\ line_read s' /\ quit s' = false
            /\ (pos s' <= length (buffer s') <= buffer_size)%nat)
        \/ (rc = NGX_MAIL_PARSE_INVALID_COMMAND /\ (quit s' = false -> arg_start (parse s') = None))).
Proof.
  intros Hs Eq Hr. unfold ngx_mail_read_command. destruct r as [| |d].
  - do 2 eexists. split; [done|]. auto.
  - destruct (_ =? _)%nat; [do 2 eexists; split; [done|]; by left|].
    destruct (read_run_ok s Hs Eq) as (rc & s' & -> & Hx). do 2 eexists. split; [done|]. tauto.
  - destruct (read_run_ok (set_buffer (buffer s ++ d) (pos s) s)) as (rc & s' & -> & Hx); [|done|].
    + destruct Hs as [H1 H2 H3 H4]. split; simpl; auto. rewrite length_app. simpl in Hr. lia.
    + do 2 eexists. split; [done|]. tauto.
Qed.

(** The next line begins with a parser in order. *)
Lemma next_line_ok s :
  (quit s = true -> out s <> []) ->
  (quit s = false -> arg_start (parse s) = None
     /\ (s_state (parse s) = pop3_sw_start \/ s_state (parse s) = pop3_sw_argument)) ->
  (quit s = false -> continuing (mail_state s) = true ->
   s_state (parse s) = pop3_sw_argument /\ command (parse s) = NGX_POP3_AUTH) ->
  session_ok (next_line s).
Proof.
  intros Hq Ha Hc. unfold next_line. split; simpl; auto.
  - unfold buffer_size. lia.
  - intros E. destruct (Ha E) as [Hs [Es | Es]]; rewrite Es; simpl; rewrite Es; simpl.
    + by split.
    + split; [constructor|]. by exists O.
  - intros E Hm. destruct (Hc E Hm) as [Es Ec]. rewrite Es. simpl. rewrite Es. simpl.
    split; [done|]. split; [done|]. by right.
Qed.

Lemma auth_state_ok r w s :
  session_ok s -> recv_ok r s ->
  exists y, ngx_mail_pop3_auth_state r w s = Some y /\ state_ok y.
Proof.
  intros Hs Hr. unfold ngx_mail_pop3_auth_state. destruct (Nat.eqb_spec (length (out s)) 0) as [Eo|Eo].
  2: { eexists. split; [done|]. by destruct Hs. }
  assert (Eq : quit s = false).
  { destruct (quit s) eqn:E; [|done]. exfalso. apply (so_quit s Hs E). by apply nil_length_inv. }
  cbn [negb].
  destruct (read_command_ok r (set_blocked false s)) as (rc & s1 & -> & Hcases);
    [by destruct Hs|done|done|]. cbn [mbind option_bind].
  destruct Hcases as [(-> & Ho) | [-> | [(-> & Hl & Eq1 & Hb) | (-> & Hst)]]]; cbn [Z.eqb Pos.eqb];
    [by eexists|by eexists| |].
  - destruct (pop3_command_ok (set_out pop3_ok s1)) as (rc & s2 & tls & -> & Hh); [by destruct Hl|].
    cbn [mbind option_bind]. destruct Hh as (Hrc & E1 & E2 & Hst & Hss & Hq & Hc).
    destruct Hrc as [-> | [-> | ->]]; cbn [Z.eqb Pos.eqb orb negb].
    + assert (Hn : session_ok (next_line s2)).
      { apply next_line_ok; auto. intros E. destruct (Hq E) as [E' | [_ ->]]; [|done].
        simpl in E'. congruence. }
      pose proof (send_ok w _ Hn) as Hsend.
      destruct (send_keeps w (next_line s2)) as [E | (o & E & _)]; rewrite E in *; [by eexists|].
      eexists. split; [done|]. by destruct tls.
    + eexists. split; [done|].
      assert (Eq2 : quit s2 = false).
      { destruct (quit s2); [|done]. destruct (Hq eq_refl) as [E | [? _]]; [simpl in E; congruence|done]. }
      unfold ngx_mail_auth. cbn [pos buffer set_parse].
      destruct (_ =? _)%nat; cbn -[buffer_size]; rewrite ?E1, ?E2; split_and!; try done;
        unfold buffer_size in *; cbn in *; lia.
    + assert (Hn : forall o, o <> [] -> session_ok (next_line (set_out o
        (set_parse (set_state pop3_sw_start (parse s2)) (set_mail_state ngx_pop3_start s2))))).
      { intros o Ho. apply next_line_ok; simpl; auto; done. }
      pose proof (send_ok w _ (Hn pop3_invalid_command ltac:(done))) as Hsend.
      destruct (send_keeps w (next_line (set_out pop3_invalid_command
        (set_parse (set_state pop3_sw_start (parse s2)) (set_mail_state ngx_pop3_start s2)))))
        as [E | (o & E & _)]; rewrite E in *; [by eexists|].
      eexists. split; [done|]. by destruct tls.
  - cbn [mbind option_bind Z.eqb Pos.eqb orb negb].
    set (s2 := set_out pop3_invalid_command (set_parse (set_state pop3_sw_start
      (parse (set_out pop3_ok s1))) (set_mail_state ngx_pop3_start (set_out pop3_ok s1)))).
    assert (Hn : session_ok (next_line s2)) by (apply next_line_ok; simpl; auto; done).
    pose proof (send_ok w _ Hn) as Hsend.
    destruct (send_keeps w (next_line s2)) as [E | (o & E & _)]; rewrite E in Hsend |- *; eexists; split; done.
Qed.

(** The states a session reaches by events the system allows. *)
Inductive reach (salt0 : list Z) : pop3_next_state -> Prop :=
  | reach_init : reach salt0 (Open (init_session salt0))
  | reach_event x e y :
      reach salt0 x -> event_ok e x -> pop3_handle e x = Some y -> reach salt0 y.

Lemma handle_ok x e : state_ok x -> event_ok e x -> exists y, pop3_handle e x = Some y /\ state_ok y.
Proof.
  intros Hx He. destruct x as [s|s|s|], e as [r w|w r w'|err sl w|];
    try (by eexists; split); cbn [pop3_handle].
  - by apply auth_state_ok.
  - pose proof (send_ok w s Hx) as Hsend. destruct (out s) as [|c o] eqn:Eo.
    { eexists. split; [done|]. unfold ngx_mail_send in *. by rewrite Eo in *. }
    destruct (send_keeps w s) as [E | (o' & E & _)]; rewrite E in *; [by eexists|].
    destruct (_ && _); [|by eexists]. apply auth_state_ok; [done|].
    by destruct r.
  - destruct Hx as (Hb & Hq & Hss & Ha & Hst). cbn [event_ok] in He.
    destruct sl; eexists; (split; [done|]); apply send_ok; split; cbn -[buffer_size]; try done.
    intros _. rewrite Hss. split; [by rewrite Ha|done].
Qed.

(** C24: a POP3 session is safe before authentication.  Whatever the client
    sends, however the bytes arrive and the answers leave, however often the
    authentication server refuses a login: no handler reads an argument that is
    not there or outside of the buffer, and the buffer never holds more than its
    128 bytes. *)
Theorem pop3_session_safe salt0 x e :
  reach salt0 x -> event_ok e x ->
  exists y, pop3_handle e x = Some y
    /\ match y with
       | Open s | Authenticating s | StartTls s =>
           (pos s <= length (buffer s) <= buffer_size)%nat
       | Closed => True
       end.
Proof.
  intros Hr He.
  assert (Hx : state_ok x).
  { clear He e. induction Hr as [|x e y Hr IH He E].
    - split; simpl; try done. unfold buffer_size. lia.
    - destruct (handle_ok x e IH He) as (y' & E' & Hy). congruence. }
  destruct (handle_ok x e Hx He) as (y & E & Hy). exists y. split; [done|].
  destruct y; [apply Hy|apply Hy|apply Hy|done].
Qed.
End Pop3.

Definition some_conf : pop3_conf := mkConf 0 (lit "+OK") [] [] [] 0 false.

Lemma pop3_session_safe_witness :
  exists y, @pop3_handle with_tls some_conf (Readable (RecvData (lit "AUTH PLA")) (Sent 100))
              (Open (init_session some_conf [])) = Some y
    /\ match y with
       | Open s | Authenticating s | StartTls s =>
           (pos s <= length (buffer s) <= buffer_size)%nat
       | Closed => True
       end.
Proof.
  apply (@pop3_session_safe with_tls some_conf []); [apply reach_init|].
  vm_compute. lia.
Defined.
End Pop3.
