(* ===== verification/MailPop3Login.v ===== *)
(** * Logging in by POP3

    What a client writes is what the authentication server is asked about: command
    lines are taken apart to their arguments, and the three ways to log in end
    with the login and the password the client sent, however the lines arrive. *)

From S2P Require Import Prelude NgxString NgxBase64 ByteMachine MailParse MailAuth MailPop3.

Module Pop3Login.
Import MailParse MailAuth Pop3.

Section Lines.
Context `{MailBuild}.

(** ** Runs of the parser *)

Abbreviation pgo := (go pop3_step).

(** A byte of an argument of command [c]. *)
Definition arg_char (c ch : Z) : Prop :=
  ch <> cCR /\ ch <> cLF /\ (ch = cSP -> c = NGX_POP3_USER \/ c = NGX_POP3_PASS).

Lemma line_char_false ch : ch <> cSP -> ch <> cCR -> ch <> cLF -> line_char ch = false.
Proof. unfold line_char. lia. Qed.

Lemma letter_not_line ch : is_letter ch = true -> line_char ch = false.
Proof. unfold is_letter, line_char. lia. Qed.

Lemma word_run w : forall pre post s,
  Forall (fun ch => is_letter ch = true) w ->
  pgo (pre ++ w ++ post) (length pre) (pop3_sw_start, s)
  = pgo ((pre ++ w) ++ post) (length (pre ++ w)) (pop3_sw_start, s).
Proof.
  induction w as [|ch w IH]; intros pre post s Hw; [by rewrite app_nil_r|].
  apply Forall_cons in Hw as [Hc Hw]. rewrite <- app_comm_cons, (go_cons pop3_step no_rank).
  cbn [pop3_step]. unfold pop3_case_start. rewrite (letter_not_line ch Hc), Hc, IH by done.
  by rewrite <- !app_assoc.
Qed.

Lemma pop3_spaces_run k : forall pre post s,
  pgo (pre ++ replicate k cSP ++ post) (length pre) (pop3_sw_spaces_before_argument, s)
  = pgo ((pre ++ replicate k cSP) ++ post) (length (pre ++ replicate k cSP))
      (pop3_sw_spaces_before_argument, s).
Proof.
  induction k as [|k IH]; intros pre post s; [by rewrite app_nil_r|].
  cbn [replicate]. rewrite <- app_comm_cons, (go_cons pop3_step no_rank).
  cbn [pop3_step pop3_case_spaces Z.eqb Pos.eqb]. rewrite IH. by rewrite <- !app_assoc.
Qed.

Lemma arg_run a : forall pre post s,
  Forall (arg_char (command s)) a ->
  pgo (pre ++ a ++ post) (length pre) (pop3_sw_argument, s)
  = pgo ((pre ++ a) ++ post) (length (pre ++ a)) (pop3_sw_argument, s).
Proof.
  induction a as [|ch a IH]; intros pre post s Ha; [by rewrite app_nil_r|].
  apply Forall_cons in Ha as [(H1 & H2 & H3) Ha].
  rewrite <- app_comm_cons, (go_cons pop3_step no_rank). cbn [pop3_step]. unfold pop3_case_argument.
  assert (E : (if (ch =? cSP) && ((command s =? NGX_POP3_USER) || (command s =? NGX_POP3_PASS))
    then Continue (pop3_sw_argument, s)
    else if line_char ch then pop3_after ch pop3_sw_argument (push_arg (Some (length pre)) s)
    else Continue (pop3_sw_argument, s)) = Continue (pop3_sw_argument, s) :> pop3_action).
  { destruct (Z.eqb_spec ch cSP) as [->|Hsp]; cbn [andb].
    - destruct (H3 eq_refl) as [-> | ->]; done.
    - by rewrite line_char_false by done. }
  rewrite E, IH by done. by rewrite <- !app_assoc.
Qed.

(** An argument with the spaces in front of it, and those of a line. *)
Definition field : Type := nat * list Z.
Definition field_text (f : field) : list Z := replicate f.1 cSP ++ f.2.

Fixpoint fields_text (fs : list field) : list Z :=
  match fs with
  | [] => []
  | [f] => field_text f
  | f :: fs' => field_text f ++ [cSP] ++ fields_text fs'
  end.

Definition field_ok (c : Z) (f : field) : Prop :=
  Forall (arg_char c) f.2 /\ exists ch a, f.2 = ch :: a /\ ch <> cSP.

(** Where the arguments are, when the first byte is at [b]. *)
Fixpoint field_args (b : nat) (fs : list field) : list marg :=
  match fs with
  | [] => []
  | f :: fs' =>
      (Some (b + f.1)%nat, Some (b + length (field_text f))%nat)
        :: field_args (b + length (field_text f) + 1) fs'
  end.

Definition is_eol (eol : list Z) : Prop := eol = [cLF] \/ eol = [cCR; cLF].

Lemma field_run f pre post s :
  field_ok (command s) f -> (nelts s <= 2)%nat ->
  pgo (pre ++ field_text f ++ post) (length pre) (pop3_sw_spaces_before_argument, s)
  = pgo ((pre ++ field_text f) ++ post) (length (pre ++ field_text f))
      (pop3_sw_argument, set_arg_start (Some (length pre + f.1)%nat) s).
Proof.
  intros [Ha (ch & a & Ef & Hch)] Hn. destruct f as [k fa]. unfold field_text. cbn [fst snd] in *.
  subst fa. apply Forall_cons in Ha as [(H1 & H2 & _) Ha].
  rewrite <- (app_assoc (replicate k cSP)), pop3_spaces_run, <- app_comm_cons, (go_cons pop3_step no_rank).
  cbn [pop3_step]. unfold pop3_case_spaces.
  rewrite (proj2 (Z.eqb_neq ch cSP)), (proj2 (Z.eqb_neq ch cCR)), (proj2 (Z.eqb_neq ch cLF)) by done.
  rewrite (proj2 (Nat.leb_le _ _) Hn).
  rewrite (arg_run a _ post (set_arg_start _ s)) by done.
  rewrite <- !app_assoc. cbn [app]. by rewrite (length_app pre (replicate k cSP)), length_replicate.
Qed.

(** The end of the line after an argument. *)
Lemma pop3_eol_run eol rest pre (s : session pop3_state) :
  is_eol eol ->
  exists st, pgo (pre ++ eol ++ rest) (length pre) (pop3_sw_argument, s)
    = Left Done (st, push_arg (Some (length pre)) s) (length pre + length eol - 1)%nat.
Proof.
  intros [-> | ->]; cbn [app]; rewrite (go_cons pop3_step no_rank); cbn [pop3_step];
    unfold pop3_case_argument, pop3_after, line_char; cbn [Z.eqb Pos.eqb andb orb].
  - eexists. f_equal. cbn [length]. lia.
  - rewrite (go_cons pop3_step no_rank). cbn [pop3_step Z.eqb Pos.eqb]. eexists. f_equal.
    rewrite length_app. cbn [length]. lia.
Qed.

Lemma fields_run fs : forall pre eol rest s,
  fs <> [] -> Forall (field_ok (command s)) fs -> is_eol eol ->
  (nelts s + length fs <= 3)%nat ->
  (command s = NGX_POP3_USER \/ command s = NGX_POP3_PASS -> length fs = 1%nat) ->
  exists st s', pgo (pre ++ fields_text fs ++ eol ++ rest) (length pre)
      (pop3_sw_spaces_before_argument, s)
    = Left Done (st, s') (length pre + length (fields_text fs) + length eol - 1)%nat
    /\ command s' = command s /\ arg_start s' = None
    /\ args s' = args s ++ field_args (length pre) fs.
Proof.
  induction fs as [|f fs IH]; intros pre eol rest s Hne Hf He Hn Hc; [done|].
  apply Forall_cons in Hf as [Hf1 Hf]. cbn [length] in Hn.
  assert (Hn2 : (nelts s <= 2)%nat) by lia.
  destruct fs as [|g fs].
  - cbn [fields_text]. rewrite field_run by done.
    destruct (pop3_eol_run eol rest (pre ++ field_text f)
                (set_arg_start (Some (length pre + f.1)%nat) s) He) as [st ->].
    do 2 eexists. split; [by rewrite length_app|]. split_and!; try done.
  - assert (Hcmd : ~ (command s = NGX_POP3_USER \/ command s = NGX_POP3_PASS)).
    { intros Hx. specialize (Hc Hx). simpl in Hc. lia. }
    change (fields_text (f :: g :: fs)) with (field_text f ++ [cSP] ++ fields_text (g :: fs)).
    rewrite <- !app_assoc, field_run by done. cbn [app].
    rewrite (go_cons pop3_step no_rank). cbn [pop3_step]. unfold pop3_case_argument.
    cbn [command set_arg_start].
    rewrite (proj2 (Z.eqb_neq (command s) NGX_POP3_USER)) by tauto.
    rewrite (proj2 (Z.eqb_neq (command s) NGX_POP3_PASS)) by tauto.
    cbn [Z.eqb Pos.eqb andb orb line_char pop3_after].
    set (s1 := push_arg _ _).
    destruct (IH ((pre ++ field_text f) ++ [cSP]) eol rest s1) as (st & s' & -> & E1 & E2 & E3);
      try done.
    { unfold nelts, s1, push_arg. simpl. rewrite length_app. unfold nelts in Hn. simpl in *. lia. }
    exists st, s'. split.
    { f_equal. rewrite !length_app. cbn [length]. lia. }
    split_and!; try done. rewrite E3. unfold s1, push_arg. cbn [args set_args set_arg_start arg_start].
    cbn [field_args]. rewrite !length_app, <- app_assoc. cbn [length app]. done.
Qed.

(** ** Command lines *)

Lemma toupper_letter ch u : ngx_toupper ch = u -> cA <= u <= cZ -> is_letter ch = true.
Proof.
  intros E Hu. unfold is_letter. unfold ngx_toupper in E. destruct (97 <=? ch <=? 122) eqn:T.
  - by rewrite orb_true_r.
  - subst u. rewrite orb_false_r. lia.
Qed.

Lemma word_found w W c post :
  In (W, c) pop3_words -> map ngx_toupper w = lit W ->
  find_word (word_upper (w ++ post) 0) pop3_words = Some c
  /\ length w = 4%nat /\ Forall (fun ch => is_letter ch = true) w.
Proof.
  intros Hin E.
  assert (Hl : length w = 4%nat).
  { rewrite <- (length_map ngx_toupper w), E.
    exact (proj1 (List.Forall_forall _ _) pop3_words_length _ Hin). }
  assert (Hup : forall v, length v = 4%nat -> word_upper (w ++ post) 0 v = bool_decide (lit W = v)).
  { intros v Hv. unfold word_upper. rewrite drop_0, Hv, <- Hl, take_app_length, E. done. }
  assert (Hcap : Forall (fun u => cA <= u <= cZ) (lit W)).
  { clear -Hin. unfold pop3_words in Hin. destruct ngx_mail_ssl; cbn [app In] in Hin;
      repeat (destruct Hin as [Hin|Hin]; [injection Hin as <- <-; eval_lit;
        repeat (constructor; [lia|]); constructor|]); done. }
  split; [|split; [done|]].
  - rewrite (find_word_ext _ (fun v => bool_decide (lit W = v)) _ 4 pop3_words_length Hup).
    clear -Hin. unfold pop3_words in *. destruct ngx_mail_ssl; cbn [app In] in Hin;
      repeat (destruct Hin as [Hin|Hin]; [injection Hin as <- <-; vm_compute; done|]); done.
  - rewrite <- E in Hcap. rewrite Forall_map in Hcap. eapply Forall_impl; [exact Hcap|].
    intros ch Hch. by eapply toupper_letter.
Qed.

(** A session at the beginning of a line. *)
Definition at_start (s : session pop3_state) : Prop :=
  s_state s = pop3_sw_start /\ args s = [] /\ arg_start s = None.

Lemma field_args_text fs : forall pre post c,
  Forall (field_ok c) fs ->
  map (arg_text (pre ++ fields_text fs ++ post)) (field_args (length pre) fs) = map Some (map snd fs).
Proof.
  induction fs as [|f fs IH]; intros pre post c Hf; [done|].
  apply Forall_cons in Hf as [_ Hf].
  assert (E1 : forall more, arg_text (pre ++ field_text f ++ more)
     (Some (length pre + f.1)%nat, Some (length pre + length (field_text f))%nat) = Some f.2).
  { intros more. unfold field_text, arg_text. rewrite !length_app, length_replicate.
    rewrite (proj2 (Nat.leb_le _ _)), (proj2 (Nat.leb_le _ _)) by lia. cbn [andb]. f_equal.
    rewrite <- app_assoc, app_assoc, drop_app_length' by (rewrite length_app, length_replicate; lia).
    apply take_app_length'. lia. }
  destruct fs as [|g fs]; [cbn [fields_text field_args map]; by rewrite E1|].
  change (fields_text (f :: g :: fs)) with (field_text f ++ [cSP] ++ fields_text (g :: fs)).
  change (field_args (length pre) (f :: g :: fs))
    with ((Some (length pre + f.1)%nat, Some (length pre + length (field_text f))%nat)
            :: field_args (length pre + length (field_text f) + 1) (g :: fs)).
  cbn [map]. rewrite <- (app_assoc (field_text f)), E1. f_equal.
  specialize (IH (pre ++ field_text f ++ [cSP]) post c Hf).
  rewrite !length_app in IH. cbn [length] in IH. rewrite Nat.add_assoc in IH.
  rewrite <- !app_assoc in *. exact IH.
Qed.

(** A command line is parsed to its command and its arguments. *)
Lemma pop3_line s w W c fs eol rest :
  at_start s -> In (W, c) pop3_words -> map ngx_toupper w = lit W ->
  fs <> [] -> Forall (field_ok c) fs -> is_eol eol -> (length fs <= 3)%nat ->
  (c = NGX_POP3_USER \/ c = NGX_POP3_PASS -> length fs = 1%nat) ->
  let line := w ++ [cSP] ++ fields_text fs ++ eol in
  exists s', ngx_mail_pop3_parse_command s (line ++ rest) 0 = Some (NGX_OK, s', length line)
    /\ command s' = c /\ arg_start s' = None
    /\ s_state s' = (if c =? NGX_POP3_AUTH then pop3_sw_argument else pop3_sw_start)
    /\ map (arg_text (line ++ rest)) (args s') = map Some (map snd fs).
Proof.
  intros (Hs1 & Hs2 & Hs3) Hin Hw Hne Hf He Hn Hc line. subst line.
  destruct (word_found w W c ([cSP] ++ fields_text fs ++ eol ++ rest) Hin Hw) as (Hfind & Hl & Hlet).
  unfold ngx_mail_pop3_parse_command. rewrite Hs1.
  pose proof (word_run w [] ([cSP] ++ fields_text fs ++ eol ++ rest) s Hlet) as Hrun.
  cbn [app length] in Hrun. rewrite <- !app_assoc. cbn [app]. rewrite Hrun. clear Hrun.
  rewrite (go_cons pop3_step no_rank). cbn [pop3_step]. unfold pop3_case_start.
  cbn [line_char Z.eqb Pos.eqb orb]. rewrite Nat.sub_0_r, Hl. cbn [Nat.eqb].
  cbn [app] in Hfind. rewrite Hfind. cbn [pop3_after Z.eqb Pos.eqb].
  destruct (fields_run fs (w ++ [cSP]) eol rest (set_command c s))
    as (st & s' & E & E1 & E2 & E3); try done.
  { unfold nelts. simpl. rewrite Hs2. simpl. lia. }
  rewrite E. unfold last_arg. rewrite E2. cbn [command set_command] in E1. rewrite E1.
  eexists. split.
  { do 2 f_equal. rewrite !length_app. cbn [length]. rewrite length_app.
    assert (0 < length eol)%nat by (destruct He as [-> | ->]; simpl; lia). lia. }
  cbn [command set_state arg_start s_state args]. split_and!; try done.
  rewrite E3. cbn [args set_command]. rewrite Hs2. cbn [app].
  pose proof (field_args_text fs (w ++ [cSP]) (eol ++ rest) c Hf) as Ht.
  rewrite <- !app_assoc in Ht. exact Ht.
Qed.

(** A line that continues AUTH is one argument. *)
Lemma pop3_more s c a eol rest :
  s_state s = pop3_sw_argument -> args s = [] -> arg_start s = Some O -> command s = c ->
  c = NGX_POP3_AUTH -> Forall (arg_char c) a -> is_eol eol ->
  exists s', ngx_mail_pop3_parse_command s (a ++ eol ++ rest) 0
      = Some (NGX_OK, s', length (a ++ eol))
    /\ command s' = c /\ arg_start s' = None /\ s_state s' = pop3_sw_argument
    /\ args s' = [(Some O, Some (length a))].
Proof.
  intros Hs Ha Hst Hc Hauth Hchars He. unfold ngx_mail_pop3_parse_command. rewrite Hs.
  pose proof (arg_run a [] (eol ++ rest) s ltac:(by rewrite Hc)) as Hrun. cbn [app length] in Hrun.
  rewrite Hrun. destruct (pop3_eol_run eol rest a s He) as [st ->]. unfold last_arg.
  cbn [arg_start push_arg set_arg_start set_args command]. rewrite Hc, Hauth.
  eexists. split.
  { do 2 f_equal. rewrite length_app.
    assert (0 < length eol)%nat by (destruct He as [-> | ->]; simpl; lia). lia. }
  cbn [command set_state arg_start s_state args push_arg set_arg_start set_args].
  rewrite Ha, Hst. by rewrite Hc, Hauth.
Qed.

(** Nothing is parsed before the end of the line. *)
Lemma parse_prefix s x y s' :
  ngx_mail_pop3_parse_command s (x ++ y) 0 = Some (NGX_OK, s', length (x ++ y)) -> y <> [] ->
  exists sa, ngx_mail_pop3_parse_command s x 0 = Some (NGX_AGAIN, sa, length x).
Proof.
  intros E Hy. unfold ngx_mail_pop3_parse_command in *.
  pose proof (go_pos pop3_step no_rank x 0 (s_state s, s)) as Hp.
  destruct (go pop3_step x 0 (s_state s, s)) as [[st sa] p|e [st sa] p|] eqn:G; [| |done].
  - exists (set_state st sa). rewrite Hp. do 2 f_equal; lia.
  - rewrite (go_stable pop3_step no_rank _ y _ _ _ _ _ G) in E. destruct e; [|done].
    injection E as _ Hl. rewrite length_app in Hl. destruct y; [done|simpl in Hl; lia].
Qed.

(** ** Lines in pieces *)

Context (conf : pop3_conf).

(** A session that waits for a line, with nothing to send. *)
Record ready (s : pop3_session) : Prop := {
  rd_buffer : buffer s = [];
  rd_pos : pos s = O;
  rd_out : out s = [];
  rd_quit : quit s = false;
  rd_blocked : blocked s = false
}.

(** The client sends a line in pieces. *)
Fixpoint feed (w : send_result) (pieces : list (list Z)) (s : pop3_session)
    : option pop3_next_state :=
  match pieces with
  | [] => Some (Open s)
  | d :: pieces' =>
      y ← ngx_mail_pop3_auth_state conf (RecvData d) w s;
      match y, pieces' with
      | Open s', _ => feed w pieces' s'
      | _, [] => Some y
      | _, _ => None
      end
  end.

(** The session that has read [a], the beginning of a line. *)
Definition midline (s : pop3_session) (a : list Z) (pa : session pop3_state) : pop3_session :=
  set_parse pa (set_buffer a (length a) s).

Lemma read_run_again s a pa d pb :
  ready s -> ngx_mail_pop3_parse_command (parse s) a 0 = Some (NGX_AGAIN, pa, length a) ->
  ngx_mail_pop3_parse_command (parse s) (a ++ d) 0 = Some (NGX_AGAIN, pb, length (a ++ d)) ->
  (length (a ++ d) < buffer_size)%nat ->
  ngx_mail_read_command (RecvData d) (midline s a pa) = Some (NGX_AGAIN, midline s (a ++ d) pb).
Proof.
  intros Hr Ea Eb Hl. unfold ngx_mail_read_command, read_run, midline.
  cbn [buffer pos parse set_parse set_buffer].
  pose proof (pop3_resume _ a d 0 _ _ Ea) as R. rewrite Eb in R. unfold same_parse in R.
  destruct (ngx_mail_pop3_parse_command pa (a ++ d) (length a)) as [[[c1 s1] p1]|]; [|done].
  destruct R as (-> & -> & Hp). rewrite Hp by done. cbn [mbind option_bind Z.eqb Pos.eqb].
  cbn [buffer set_parse set_buffer]. by rewrite (proj2 (Nat.ltb_lt _ _) Hl).
Qed.

Lemma read_run_done s a pa d p' :
  ready s -> ngx_mail_pop3_parse_command (parse s) a 0 = Some (NGX_AGAIN, pa, length a) ->
  ngx_mail_pop3_parse_command (parse s) (a ++ d) 0 = Some (NGX_OK, p', length (a ++ d)) ->
  ngx_mail_read_command (RecvData d) (midline s a pa)
  = ngx_mail_read_command (RecvData (a ++ d)) s.
Proof.
  intros Hr Ea Eb. unfold ngx_mail_read_command, read_run, midline. rewrite (rd_buffer s Hr), (rd_pos s Hr).
  cbn [buffer pos parse set_parse set_buffer app].
  pose proof (pop3_resume _ a d 0 _ _ Ea) as R. rewrite Eb in *. unfold same_parse in R.
  destruct (ngx_mail_pop3_parse_command pa (a ++ d) (length a)) as [[[c1 s1] p1]|]; [|done].
  destruct R as (-> & -> & Hp). rewrite Hp by done. done.
Qed.

Lemma parse_nothing s : ngx_mail_pop3_parse_command s [] 0 = Some (NGX_AGAIN, s, O).
Proof. unfold ngx_mail_pop3_parse_command. rewrite (go_step pop3_step no_rank). simpl. by destruct s. Qed.

(** However a line is cut, the session does what it does with the whole line. *)
Lemma feed_line w s pieces line p' :
  ready s -> pieces <> [] -> Forall (fun d => d <> []) pieces -> concat pieces = line ->
  (length line <= buffer_size)%nat ->
  ngx_mail_pop3_parse_command (parse s) line 0 = Some (NGX_OK, p', length line) ->
  feed w pieces s
  = y ← ngx_mail_pop3_auth_state conf (RecvData line) w s;
    match y with Open s' => Some (Open s') | _ => Some y end.
Proof.
  intros Hr Hne Hd Hcat Hl Hline.
  assert (Hgen : forall a pa, ngx_mail_pop3_parse_command (parse s) a 0 = Some (NGX_AGAIN, pa, length a) ->
    a ++ concat pieces = line -> feed w pieces (midline s a pa)
    = y ← ngx_mail_pop3_auth_state conf (RecvData line) w s;
      match y with Open s' => Some (Open s') | _ => Some y end).
  { clear Hcat. revert Hne Hd. induction pieces as [|d pieces IH]; intros Hne Hd a pa Ea Hcat; [done|].
    apply Forall_cons in Hd as [Hd1 Hd]. cbn [feed concat] in *.
    unfold ngx_mail_pop3_auth_state at 1. cbn [out midline set_parse set_buffer].
    rewrite (rd_out s Hr). cbn [length Nat.eqb negb].
    assert (Eblk : set_blocked false (midline s a pa) = midline s a pa).
    { unfold midline, set_blocked, set_parse, set_buffer. simpl. by rewrite (rd_blocked s Hr). }
    assert (Eblk' : set_blocked false s = s).
    { unfold set_blocked. pose proof (rd_blocked s Hr). destruct s. simpl in *. by subst. }
    fold (midline s a pa). rewrite Eblk.
    destruct pieces as [|d2 pieces].
    - cbn [concat] in Hcat. rewrite app_nil_r in Hcat. subst line.
      rewrite (read_run_done s a pa d p' Hr Ea Hline).
      unfold ngx_mail_pop3_auth_state. rewrite (rd_out s Hr), Eblk'. cbn [length Nat.eqb negb].
      destruct (_ ≫= _) as [[]|]; done.
    - assert (Hrest : concat (d2 :: pieces) <> []).
      { apply Forall_cons in Hd as [Hd2 _]. cbn [concat]. destruct d2; done. }
      rewrite app_assoc in Hcat.
      destruct (parse_prefix (parse s) (a ++ d) (concat (d2 :: pieces)) p') as [pb Eb];
        [by rewrite Hcat|done|].
      assert (Hlt : (length (a ++ d) < buffer_size)%nat).
      { rewrite <- Hcat, (length_app (a ++ d)) in Hl.
        destruct (concat (d2 :: pieces)); [done|simpl in Hl; lia]. }
      rewrite (read_run_again s a pa d pb Hr Ea Eb Hlt).
      cbn [mbind option_bind Z.eqb Pos.eqb].
      apply IH; done. }
  replace s with (midline s [] (parse s)) at 1; [apply Hgen; [apply parse_nothing|done]|].
  unfold midline, set_parse, set_buffer. destruct Hr as [E1 E2 _ _ _]. destruct s. simpl in *. by subst.
Qed.

(** ** The three ways to log in *)

Lemma str_of_text l : m_text (str_of l) = Some l.
Proof.
  unfold m_text, str_of. cbn [m_len m_data]. rewrite Z.leb_refl. by rewrite Nat2Z.id, firstn_all.
Qed.

(** The session after a line, before its command is handled. *)
Definition got_line (s : pop3_session) (line : list Z) (p' : session pop3_state) : pop3_session :=
  set_out pop3_ok (set_parse p' (set_buffer line (length line) s)).

(** A command that is answered, when the answer can be sent at once. *)
Lemma line_answered w n s line p' s2 :
  ready s -> w = Sent n -> ngx_mail_pop3_parse_command (parse s) line 0 = Some (NGX_OK, p', length line) ->
  pop3_command conf (got_line s line p') = Some (NGX_OK, s2, false) ->
  quit s2 = false -> (length (out s2) <= n)%nat ->
  ngx_mail_pop3_auth_state conf (RecvData line) w s = Some (Open (set_out [] (next_line s2))).
Proof.
  intros Hr -> Hp Hc Hq Hn. unfold ngx_mail_pop3_auth_state. rewrite (rd_out s Hr).
  cbn [length Nat.eqb negb]. unfold ngx_mail_read_command, read_run.
  cbn [buffer pos parse set_parse set_buffer set_blocked]. rewrite (rd_buffer s Hr), (rd_pos s Hr).
  cbn [app]. rewrite Hp. cbn [mbind option_bind Z.eqb Pos.eqb].
  assert (E : set_out pop3_ok (set_parse p' (set_buffer line (length line)
            (set_buffer line 0 (set_blocked false s)))) = got_line s line p').
  { unfold got_line, set_out, set_parse, set_buffer, set_blocked. simpl. by rewrite (rd_blocked s Hr). }
  cbn [buffer pos parse set_parse set_buffer set_blocked] in E |- *. rewrite E, Hc.
  cbn [mbind option_bind Z.eqb Pos.eqb orb negb]. unfold ngx_mail_send.
  assert (Eo : out (next_line s2) = out s2) by done.
  assert (Eq : quit (next_line s2) = quit s2) by done. rewrite Eo.
  destruct (out s2) as [|x o] eqn:Es.
  - do 2 f_equal. unfold set_out. rewrite <- Eo. by destruct (next_line s2).
  - rewrite drop_ge by (simpl in *; lia). cbn [out set_out quit]. by rewrite Eq, Hq.
Qed.

(** A command that ends with a login. *)
Lemma line_login w s line p' s2 :
  ready s -> ngx_mail_pop3_parse_command (parse s) line 0 = Some (NGX_OK, p', length line) ->
  pop3_command conf (got_line s line p') = Some (NGX_DONE, s2, false) ->
  ngx_mail_pop3_auth_state conf (RecvData line) w s = Some (Authenticating (ngx_mail_auth s2)).
Proof.
  intros Hr Hp Hc. unfold ngx_mail_pop3_auth_state. rewrite (rd_out s Hr).
  cbn [length Nat.eqb negb]. unfold ngx_mail_read_command, read_run.
  cbn [buffer pos parse set_parse set_buffer set_blocked]. rewrite (rd_buffer s Hr), (rd_pos s Hr).
  cbn [app]. rewrite Hp. cbn [mbind option_bind Z.eqb Pos.eqb].
  assert (E : set_out pop3_ok (set_parse p' (set_buffer line (length line)
            (set_buffer line 0 (set_blocked false s)))) = got_line s line p').
  { unfold got_line, set_out, set_parse, set_buffer, set_blocked. simpl. by rewrite (rd_blocked s Hr). }
  cbn [buffer pos parse set_parse set_buffer set_blocked] in E |- *. by rewrite E, Hc.
Qed.

Lemma auth_creds s : cr (ngx_mail_auth s) = cr s.
Proof. unfold ngx_mail_auth. by destruct (_ =? _)%nat. Qed.

Context (Htls : starttls_only conf = false).

(** A well-formed command line. *)
Record is_line (W : string) (c : Z) (fs : list field) (line : list Z) : Prop := {
  il_word : In (W, c) pop3_words;
  il_fields : Forall (field_ok c) fs;
  il_text : exists w eol, map ngx_toupper w = lit W /\ is_eol eol
            /\ line = w ++ [cSP] ++ fields_text fs ++ eol;
  il_length : (length line <= buffer_size)%nat
}.

(** Pieces of a line. *)
Definition pieces_of (line : list Z) (pieces : list (list Z)) : Prop :=
  Forall (fun d => d <> []) pieces /\ concat pieces = line.

Lemma line_parsed W c fs line s :
  is_line W c fs line -> at_start s -> fs <> [] -> (length fs <= 3)%nat ->
  (c = NGX_POP3_USER \/ c = NGX_POP3_PASS -> length fs = 1%nat) ->
  exists s', ngx_mail_pop3_parse_command s line 0 = Some (NGX_OK, s', length line)
    /\ command s' = c /\ arg_start s' = None
    /\ s_state s' = (if c =? NGX_POP3_AUTH then pop3_sw_argument else pop3_sw_start)
    /\ map (arg_text line) (args s') = map Some (map snd fs).
Proof.
  intros [Hin Hf (w & eol & Hw & He & ->) _] Hs Hne Hn Hc.
  pose proof (pop3_line s w W c fs eol [] Hs Hin Hw Hne Hf He Hn Hc) as Hx. cbv zeta in Hx.
  by rewrite app_nil_r in Hx.
Qed.

Lemma pieces_nonempty line pieces : pieces_of line pieces -> line <> [] -> pieces <> [].
Proof. intros [_ E] Hl ->. simpl in E. congruence. Qed.

Lemma line_nonempty W c fs line : is_line W c fs line -> line <> [].
Proof.
  intros [_ _ (w & eol & _ & He & ->) _] E. apply app_eq_nil in E as [_ E].
  by destruct He as [-> | ->].
Qed.

(** One argument, of a session that got its line. *)
Lemma one_arg s line p' u :
  map (arg_text line) (args p') = map Some [u] ->
  nargs (got_line s line p') = 1%nat /\ copy_arg (got_line s line p') 0 = Some (str_of u).
Proof.
  intros E. unfold nargs, copy_arg, get_arg. cbn [buffer parse got_line set_out set_parse set_buffer].
  destruct (args p') as [|a [|b l]]; try done. injection E as E. split; [done|]. simpl. by rewrite E.
Qed.

(** The session after USER. *)
Lemma user_line n s line u k pieces :
  ready s -> at_start (parse s) -> mail_state s = ngx_pop3_start ->
  is_line "USER" NGX_POP3_USER [(k, u)] line -> pieces_of line pieces -> (5 <= n)%nat ->
  exists s1, feed (Sent n) pieces s = Some (Open s1)
    /\ ready s1 /\ at_start (parse s1) /\ mail_state s1 = ngx_pop3_user
    /\ m_text (login (cr s1)) = Some u.
Proof.
  intros Hr Hs Hm Hl Hp Hn.
  destruct (line_parsed _ _ _ _ _ Hl Hs) as (p' & Ep & Ec & Est & Ess & Ea); try done; [simpl; lia|].
  destruct (one_arg s line p' u Ea) as [En Ecp].
  rewrite (feed_line (Sent n) s pieces line p'); try done;
    [|by eapply pieces_nonempty, line_nonempty|apply Hp|apply Hp|apply Hl].
  rewrite (line_answered (Sent n) n s line p'
    (set_mail_state ngx_pop3_user (set_cr (set_login (str_of u) (cr (got_line s line p')))
       (got_line s line p')))); try done.
  - cbn [mbind option_bind]. eexists. split; [done|]. split; [by split; try apply Hr|].
    split; [|split; [done|apply str_of_text]].
    unfold at_start, next_line. cbn. rewrite Ess. cbn. by rewrite Est.
  - unfold pop3_command. cbn [mail_state parse got_line set_out set_parse set_buffer command].
    rewrite Hm, Ec. cbn [Z.eqb Pos.eqb]. unfold ngx_mail_pop3_user.
    rewrite Htls, En, Ecp. done.
  - cbn. apply Hr.
Qed.

(** C25: logging in by USER and PASS.  A client that sends the two lines, each in
    any pieces and with the words in any case, is handed to authentication with
    exactly the login and the password it sent, spaces included. *)
Theorem pop3_user_pass n s u p k1 k2 line1 line2 pieces1 pieces2 w :
  ready s -> at_start (parse s) -> mail_state s = ngx_pop3_start -> (5 <= n)%nat ->
  is_line "USER" NGX_POP3_USER [(k1, u)] line1 -> pieces_of line1 pieces1 ->
  is_line "PASS" NGX_POP3_PASS [(k2, p)] line2 -> pieces_of line2 pieces2 ->
  exists s1 s2, feed (Sent n) pieces1 s = Some (Open s1)
    /\ feed w pieces2 s1 = Some (Authenticating s2)
    /\ m_text (login (cr s2)) = Some u /\ m_text (passwd (cr s2)) = Some p.
Proof.
  intros Hr Hs Hm Hn Hl1 Hp1 Hl2 Hp2.
  destruct (user_line n s line1 u k1 pieces1 Hr Hs Hm Hl1 Hp1 Hn) as (s1 & E1 & Hr1 & Hs1 & Hm1 & Hu).
  destruct (line_parsed _ _ _ _ _ Hl2 Hs1) as (p' & Ep & Ec & Est & Ess & Ea); try done; [simpl; lia|].
  destruct (one_arg s1 line2 p' p Ea) as [En Ecp].
  exists s1. eexists. split; [done|].
  rewrite (feed_line w s1 pieces2 line2 p'); try done;
    [|by eapply pieces_nonempty, line_nonempty|apply Hp2|apply Hp2|apply Hl2].
  rewrite (line_login w s1 line2 p'
    (set_cr (set_passwd (str_of p) (cr (got_line s1 line2 p'))) (got_line s1 line2 p'))); try done.
  - cbn [mbind option_bind]. split; [done|]. rewrite auth_creds.
    cbn [cr set_cr login passwd set_passwd got_line set_out set_parse set_buffer].
    split; [done|apply str_of_text].
  - unfold pop3_command. cbn [mail_state parse got_line set_out set_parse set_buffer command].
    rewrite Hm1, Ec. cbn [Z.eqb Pos.eqb]. unfold ngx_mail_pop3_pass. by rewrite En, Ecp.
Qed.

(** The alphabet of base64 has no byte that ends an argument. *)
Lemma base64_chars src c : bytes_ok src -> Forall (arg_char c) (ngx_encode_base64 src).
Proof.
  intros Hb. unfold ngx_encode_base64. rewrite encode_sextets by done.
  apply Forall_app. split.
  - rewrite Forall_map. eapply Forall_impl; [apply sextets_range, Hb|]. intros v Hv. cbv beta in *.
    assert (E : forallb (fun u => negb ((at_ basis64_enc (Z.land u 63) =? cSP)
      || (at_ basis64_enc (Z.land u 63) =? cCR) || (at_ basis64_enc (Z.land u 63) =? cLF)))
      (map Z.of_nat (seq 0 256)) = true) by (vm_compute; reflexivity).
    pose proof (byte_forall _ E v ltac:(byte_lia)) as Ev. cbv beta in Ev.
    rewrite lo6, Z.mod_small in Ev by lia. unfold arg_char. split_and!; intros; lia.
  - unfold base64_pad. destruct (length src mod 3)%nat as [|[|[|]]]; repeat constructor; done.
Qed.

Lemma base64_decodes src : bytes_ok src -> ngx_decode_base64 (ngx_encode_base64 src) = Some src.
Proof. apply (round_trip (RoundTrip := base64_codec)). Qed.

Lemma case_equal_same arg w :
  map ngx_tolower arg = map ngx_tolower (lit w) -> Forall (fun ch => ch <> 0) (map ngx_tolower (lit w)) ->
  case_equal arg w = Some true.
Proof.
  unfold case_equal. intros E Hz.
  assert (Hs : ngx_strncasecmp arg (lit w) (length (lit w)) = Some 0); [|by rewrite Hs].
  revert E Hz. generalize (lit w). intros l. revert arg.
  induction l as [|x l IH]; intros [|y arg] E Hz; try done. injection E as E1 E2.
  apply Forall_cons in Hz as [Hx Hz]. cbn [length ngx_strncasecmp]. rewrite E1, Z.eqb_refl.
  rewrite (proj2 (Z.eqb_neq _ 0)) by done. by apply IH.
Qed.

Lemma to_nul_app u p : Forall (fun ch => ch <> 0) u -> to_nul (u ++ 0 :: p) = (u, 0 :: p).
Proof.
  induction 1 as [|x u Hx Hu IH]; [done|]. cbn [app to_nul].
  rewrite (proj2 (Z.eqb_neq x 0)) by done. by rewrite IH.
Qed.

Lemma after_nul_app a p : Forall (fun ch => ch <> 0) a -> after_nul (a ++ 0 :: p) = p.
Proof.
  induction 1 as [|x a Hx Ha IH]; [done|]. cbn [app after_nul].
  by rewrite (proj2 (Z.eqb_neq x 0)) by done.
Qed.

(** The message of the PLAIN mechanism: an authorization identity, which nginx
    does not use, the login and the password, separated by NUL bytes. *)
Definition plain_message (a u p : list Z) : list Z := a ++ 0 :: u ++ 0 :: p.

Lemma auth_plain_message c a u p :
  bytes_ok (plain_message a u p) -> Forall (fun ch => ch <> 0) a -> Forall (fun ch => ch <> 0) u ->
  exists c', ngx_mail_auth_plain c (ngx_encode_base64 (plain_message a u p)) = (NGX_DONE, c')
    /\ m_text (login c') = Some u /\ m_text (passwd c') = Some p.
Proof.
  intros Hb Ha Hu. unfold ngx_mail_auth_plain. rewrite base64_decodes by done.
  unfold plain_message. rewrite after_nul_app by done.
  destruct (u ++ 0 :: p) as [|x l] eqn:E; [by destruct u|]. rewrite <- E.
  rewrite to_nul_app by done. eexists. split; [done|]. split; [|apply str_of_text].
  cbn [login set_passwd set_login]. unfold m_text. cbn [m_len m_data].
  rewrite length_app. cbn [length]. rewrite (proj2 (Z.leb_le _ _)) by lia.
  by rewrite Nat2Z.id, take_app_length.
Qed.

(** Two arguments, of a session that got its line. *)
Lemma two_args line (p' : session pop3_state) x y :
  map (arg_text line) (args p') = map Some [x; y] ->
  length (args p') = 2%nat /\ get_arg line (args p') 0 = Some x /\ get_arg line (args p') 1 = Some y.
Proof.
  unfold get_arg. destruct (args p') as [|a [|b [|? ?]]]; try done. intros [= E1 E2]. simpl.
  by rewrite E1, E2.
Qed.

(** logging in by AUTH PLAIN.  The line, in any pieces, with the base64
    encoding of the identity, the login and the password, leads to
    authentication with exactly that login and password. *)
Theorem pop3_auth_plain s a u p k1 k2 m line pieces w :
  ready s -> at_start (parse s) -> mail_state s = ngx_pop3_start ->
  bytes_ok (plain_message a u p) -> Forall (fun ch => ch <> 0) a -> Forall (fun ch => ch <> 0) u ->
  map ngx_tolower m = map ngx_tolower (lit "PLAIN") ->
  is_line "AUTH" NGX_POP3_AUTH [(k1, m); (k2, ngx_encode_base64 (plain_message a u p))] line ->
  pieces_of line pieces ->
  exists s2, feed w pieces s = Some (Authenticating s2)
    /\ m_text (login (cr s2)) = Some u /\ m_text (passwd (cr s2)) = Some p.
Proof.
  intros Hr Hs Hm Hb Ha Hu Hpl Hl Hp.
  destruct (line_parsed _ _ _ _ _ Hl Hs) as (p' & Ep & Ec & Est & Ess & Ea); try done; [simpl; lia| |].
  { intros [|]; done. }
  destruct (two_args line p' _ _ Ea) as (En & E0 & E1). cbn [snd] in E0, E1.
  destruct (auth_plain_message (cr s) a u p Hb Ha Hu) as (c' & Epl & Hlog & Hpass).
  rewrite (feed_line w s pieces line p'); try done;
    [|by eapply pieces_nonempty, line_nonempty|apply Hp|apply Hp|apply Hl].
  assert (Hlm : length m = 5%nat).
  { rewrite <- (length_map ngx_tolower m), Hpl. done. }
  assert (Hlogin : exists b, case_equal m "LOGIN" = Some b /\ b = false).
  { destruct (case_equal_ok m "LOGIN" Hlm) as [[] E]; [|by eexists]. exfalso.
    unfold case_equal in E. destruct m as [|x m]; [done|]. injection Hpl as Hx _.
    cbn [lit length ngx_strncasecmp] in E. rewrite Hx in E. vm_compute in E. done. }
  destruct Hlogin as (b & Elogin & ->).
  assert (Hplain : case_equal m "PLAIN" = Some true).
  { apply case_equal_same; [done|]. vm_compute. repeat constructor; done. }
  rewrite (line_login w s line p' (set_cr c' (got_line s line p'))); try done.
  - cbn [mbind option_bind]. eexists. split; [done|]. by rewrite auth_creds.
  - unfold pop3_command. cbn [mail_state parse got_line set_out set_parse set_buffer command].
    rewrite Hm, Ec. cbn [Z.eqb Pos.eqb]. unfold ngx_mail_pop3_auth, nargs.
    cbn [buffer parse got_line set_out set_parse set_buffer cr]. rewrite Htls, En. cbn [Nat.eqb].
    unfold ngx_mail_auth_parse. rewrite En, E0, E1. cbn [Nat.eqb mbind option_bind].
    rewrite Hlm. cbn [Nat.eqb]. rewrite Elogin. cbn [mbind option_bind]. rewrite Hplain.
    cbn [mbind option_bind fmap option_fmap option_map]. rewrite Epl.
    cbn [mbind option_bind Z.eqb Pos.eqb]. done.
Qed.

(** A line that continues AUTH. *)
Definition is_more (a line : list Z) : Prop :=
  exists eol, is_eol eol /\ line = a ++ eol /\ (length line <= buffer_size)%nat.

(** A session that waits for a line of AUTH. *)
Definition at_more (s : session pop3_state) : Prop :=
  s_state s = pop3_sw_argument /\ args s = [] /\ arg_start s = Some O /\ command s = NGX_POP3_AUTH.

Lemma more_parsed a line s :
  is_more a line -> Forall (arg_char NGX_POP3_AUTH) a -> at_more s ->
  exists s', ngx_mail_pop3_parse_command s line 0 = Some (NGX_OK, s', length line)
    /\ command s' = NGX_POP3_AUTH /\ arg_start s' = None /\ s_state s' = pop3_sw_argument
    /\ get_arg line (args s') 0 = Some a.
Proof.
  intros (eol & He & -> & _) Ha (H1 & H2 & H3 & H4).
  destruct (pop3_more s NGX_POP3_AUTH a eol [] H1 H2 H3 H4 eq_refl Ha He)
    as (s' & E & Ec & Est & Ess & Ea). rewrite app_nil_r in E.
  exists s'. split_and!; try done. unfold get_arg. rewrite Ea. cbn [lookup list_lookup mbind option_bind arg_text].
  rewrite (proj2 (Nat.leb_le _ _)), (proj2 (Nat.leb_le _ _)) by (rewrite ?length_app; lia).
  cbn [andb]. by rewrite Nat.sub_0_r, drop_0, take_app_length.
Qed.

Lemma more_nonempty a line : is_more a line -> line <> [].
Proof. intros (eol & He & -> & _) E. apply app_eq_nil in E as [_ E]. by destruct He as [-> | ->]. Qed.

(** The session after a line of AUTH that is answered by a request for more. *)
Lemma next_more s line p' ms c o :
  ready s -> s_state p' = pop3_sw_argument -> command p' = NGX_POP3_AUTH ->
  let s1 := set_out [] (next_line (set_mail_state ms (set_out o (set_cr c (got_line s line p'))))) in
  ready s1 /\ at_more (parse s1) /\ mail_state s1 = ms /\ cr s1 = c.
Proof.
  intros Hr Hs Hc s1. subst s1. split; [by split; try apply Hr|]. split; [|done].
  unfold at_more, next_line. cbn. by rewrite Hs.
Qed.

(** logging in by AUTH LOGIN.  The three lines (the command, the login and
    the password in base64), each in any pieces, lead to authentication with
    exactly that login and password. *)
Theorem pop3_auth_login n s u p k m line1 line2 line3 pieces1 pieces2 pieces3 w :
  ready s -> at_start (parse s) -> mail_state s = ngx_pop3_start -> (16 <= n)%nat ->
  bytes_ok u -> bytes_ok p -> map ngx_tolower m = map ngx_tolower (lit "LOGIN") ->
  is_line "AUTH" NGX_POP3_AUTH [(k, m)] line1 -> pieces_of line1 pieces1 ->
  is_more (ngx_encode_base64 u) line2 -> pieces_of line2 pieces2 ->
  is_more (ngx_encode_base64 p) line3 -> pieces_of line3 pieces3 ->
  exists s1 s2 s3, feed (Sent n) pieces1 s = Some (Open s1)
    /\ feed (Sent n) pieces2 s1 = Some (Open s2)
    /\ feed w pieces3 s2 = Some (Authenticating s3)
    /\ m_text (login (cr s3)) = Some u /\ m_text (passwd (cr s3)) = Some p.
Proof.
  intros Hr Hs Hm Hn Hu Hp Hlg Hl1 Hp1 Hl2 Hp2 Hl3 Hp3.
  destruct (line_parsed _ _ _ _ _ Hl1 Hs) as (p1 & Ep & Ec & Est & Ess & Ea); try done; [simpl; lia|].
  assert (Hlm : length m = 5%nat) by (rewrite <- (length_map ngx_tolower m), Hlg; done).
  assert (Hlogin : case_equal m "LOGIN" = Some true).
  { apply case_equal_same; [done|]. vm_compute. repeat constructor; done. }
  destruct (args p1) as [|a1 [|? ?]] eqn:Eargs; try done. injection Ea as Ea.
  pose proof (next_more s line1 p1 ngx_pop3_auth_login_username (cr s) pop3_username Hr Ess Ec)
    as (Hr1 & Hs1 & Hm1 & Hcr1). set (s1 := set_out [] _) in *.
  assert (F1 : feed (Sent n) pieces1 s = Some (Open s1)).
  { rewrite (feed_line (Sent n) s pieces1 line1 p1); try done;
      [|by eapply pieces_nonempty, line_nonempty|apply Hp1|apply Hp1|apply Hl1].
    rewrite (line_answered (Sent n) n s line1 p1
      (set_mail_state ngx_pop3_auth_login_username (set_out pop3_username
         (set_cr (cr s) (got_line s line1 p1))))); try done; [|apply Hr].
    unfold pop3_command. cbn [mail_state parse got_line set_out set_parse set_buffer command].
    rewrite Hm, Ec. cbn [Z.eqb Pos.eqb]. unfold ngx_mail_pop3_auth, nargs.
    cbn [buffer parse got_line set_out set_parse set_buffer cr]. rewrite Htls, Eargs. cbn [length Nat.eqb].
    unfold ngx_mail_auth_parse, get_arg. cbn [length Nat.eqb lookup list_lookup mbind option_bind].
    rewrite Ea. cbn [mbind option_bind]. rewrite Hlm. cbn [Nat.eqb]. rewrite Hlogin. done. }
  destruct (more_parsed _ _ _ Hl2 (base64_chars u _ Hu) Hs1) as (p2 & Ep2 & Ec2 & _ & Ess2 & Ea2).
  pose proof (next_more s1 line2 p2 ngx_pop3_auth_login_password
    (set_login (str_of u) (cr s1)) pop3_password Hr1 Ess2 Ec2) as (Hr2 & Hs2 & Hm2 & Hcr2).
  set (s2 := set_out [] _) in Hr2, Hs2, Hm2, Hcr2.
  assert (F2 : feed (Sent n) pieces2 s1 = Some (Open s2)).
  { rewrite (feed_line (Sent n) s1 pieces2 line2 p2); try done;
      [|by eapply pieces_nonempty, more_nonempty|apply Hp2|apply Hp2|by destruct Hl2 as (? & _ & _ & ?)].
    rewrite (line_answered (Sent n) n s1 line2 p2
      (set_mail_state ngx_pop3_auth_login_password (set_out pop3_password
         (set_cr (set_login (str_of u) (cr s1)) (got_line s1 line2 p2))))); try done; [|apply Hr1].
    unfold pop3_command, with_arg. cbn [mail_state parse got_line set_out set_parse set_buffer command].
    rewrite Hm1. cbn [buffer parse got_line set_out set_parse set_buffer cr]. rewrite Ea2.
    cbn [mbind option_bind]. unfold ngx_mail_auth_login_username, decode_to.
    rewrite base64_decodes by done. done. }
  destruct (more_parsed _ _ _ Hl3 (base64_chars p _ Hp) Hs2) as (p3 & Ep3 & Ec3 & _ & Ess3 & Ea3).
  exists s1, s2. eexists. split; [done|]. split; [done|].
  rewrite (feed_line w s2 pieces3 line3 p3); try done;
    [|by eapply pieces_nonempty, more_nonempty|apply Hp3|apply Hp3|by destruct Hl3 as (? & _ & _ & ?)].
  rewrite (line_login w s2 line3 p3
    (set_cr (set_passwd (str_of p) (cr s2)) (got_line s2 line3 p3))); try done.
  - cbn [mbind option_bind]. split; [done|]. rewrite auth_creds.
    cbn [cr set_cr login passwd set_passwd]. rewrite Hcr2. cbn [login set_login].
    split; apply str_of_text.
  - unfold pop3_command, with_arg. cbn [mail_state parse got_line set_out set_parse set_buffer command].
    rewrite Hm2. cbn [buffer parse got_line set_out set_parse set_buffer cr]. rewrite Ea3.
    cbn [mbind option_bind]. unfold ngx_mail_auth_login_password, decode_to.
    rewrite base64_decodes by done. done.
Qed.

End Lines.

(** A session that has sent its greeting. *)
Definition greeted : pop3_session := set_out [] (init_session some_conf []).

Lemma greeted_ready : ready greeted /\ at_start (parse greeted) /\ mail_state greeted = ngx_pop3_start.
Proof. repeat split. Qed.

(** Lines made of a word, fields and CR LF. *)
Definition make_line (w : string) (fs : list field) : list Z :=
  lit w ++ [cSP] ++ fields_text fs ++ [cCR; cLF].

Lemma make_line_ok W w c fs :
  In (W, c) (@pop3_words with_tls) -> map ngx_toupper (lit w) = lit W -> Forall (field_ok c) fs ->
  (length (make_line w fs) <=? buffer_size)%nat = true ->
  @is_line with_tls W c fs (make_line w fs).
Proof.
  intros Hin Hw Hf Hl. split; [done|done| |by apply Nat.leb_le].
  exists (lit w), [cCR; cLF]. split; [done|]. split; [by right|done].
Qed.

Lemma field_ok_dec c k a :
  forallb (fun ch => negb ((ch =? cCR) || (ch =? cLF) || ((ch =? cSP) && negb ((c =? 1) || (c =? 2))))) a
    && match a with [] => false | ch :: _ => negb (ch =? cSP) end = true ->
  field_ok c (k, a).
Proof.
  intros E. apply andb_prop in E as [E1 E2]. split.
  - apply Forall_forall. intros ch Hch. rewrite forallb_forall in E1.
    specialize (E1 ch (proj1 (list_elem_of_In _ _) Hch)). unfold arg_char. split_and!; lia.
  - destruct a as [|ch a]; [done|]. exists ch, a. split; [done|]. lia.
Qed.

(** "uSeR joe smith" and "PASS a b". *)
Lemma pop3_user_pass_witness :
  exists s1 s2,
    @feed with_tls some_conf (Sent 100) [lit "uSeR j"; lit "oe smith" ++ [cCR; cLF]] greeted = Some (Open s1)
    /\ @feed with_tls some_conf SendAgain [lit "PASS  a b" ++ [cCR]; [cLF]] s1 = Some (Authenticating s2)
    /\ m_text (login (cr s2)) = Some (lit "joe smith") /\ m_text (passwd (cr s2)) = Some (lit "a b").
Proof.
  destruct greeted_ready as (Hr & Hs & Hm).
  apply (@pop3_user_pass with_tls some_conf eq_refl 100 greeted (lit "joe smith") (lit "a b") 0 1
    (make_line "uSeR" [(0%nat, lit "joe smith")]) (make_line "PASS" [(1%nat, lit "a b")])
    _ _ SendAgain Hr Hs Hm).
  - lia.
  - apply make_line_ok; [by left|reflexivity| |reflexivity].
    constructor; [apply field_ok_dec; reflexivity|constructor].
  - split; [repeat constructor; discriminate|reflexivity].
  - apply make_line_ok; [by right; left|reflexivity| |reflexivity].
    constructor; [apply field_ok_dec; reflexivity|constructor].
  - split; [repeat constructor; discriminate|reflexivity].
Defined.

Lemma pop3_auth_plain_witness :
  exists s2,
    @feed with_tls some_conf SendAgain
      [lit "AUTH plain "; ngx_encode_base64 (plain_message [] (lit "joe") (lit "pw")); [cCR; cLF]] greeted
      = Some (Authenticating s2)
    /\ m_text (login (cr s2)) = Some (lit "joe") /\ m_text (passwd (cr s2)) = Some (lit "pw").
Proof.
  destruct greeted_ready as (Hr & Hs & Hm).
  apply (@pop3_auth_plain with_tls some_conf eq_refl greeted [] (lit "joe") (lit "pw") 0 0 (lit "plain")
    (make_line "AUTH" [(0%nat, lit "plain");
       (0%nat, ngx_encode_base64 (plain_message [] (lit "joe") (lit "pw")))]) _ SendAgain Hr Hs Hm).
  - vm_compute. repeat constructor; discriminate.
  - constructor.
  - vm_compute. repeat constructor; discriminate.
  - reflexivity.
  - apply make_line_ok; [by do 5 right; left|reflexivity| |reflexivity].
    constructor; [apply field_ok_dec; reflexivity|].
    constructor; [apply field_ok_dec; reflexivity|constructor].
  - split; [vm_compute; repeat constructor; discriminate|reflexivity].
Defined.

End Pop3Login.
